(* ===== verification/_CoqProject ===== *)
-Q . S2P
Prelude.v
Decimal.v
DecimalRef.v
Types.v
Sha256.v
Quantity.v
Validate.v
ArbMath.v
ArbSize.v
ArbHedge.v
WorkPermit.v
SchedResources.v
Resolution.v
FillAverage.v
OrderStream.v
StreamManager.v
Metrics.v
OneShotExit.v
MetricsWorker.v
Store.v
OrderStore.v
OrderService.v
FlattenRules.v
TwapStore.v
Twap.v
ArbStore.v
FlattenStore.v
ArbLedger.v
FlattenLedger.v
CircuitStore.v
Reconciler.v
Scheduler.v
SchedulerSafe.v
SchedulerBatch.v
Auditor.v
Executor.v
ExecHedge.v
ExecRun.v
ExecCircuit.v
ExecSafe.v
