(* ===== verification/Prelude.v ===== *)
(** * Verification of the self-quant trading backend

    The backend (Go, under src/backend/internal) places orders at exchanges
    and runs arbitrage combinations: two legs on two venues that are opened
    when the spread between them is wide and closed when it narrows, hedged
    leg by leg, measured, and taken out of service when the venue's answers
    are uncertain.  The library models the decision core of package [trader]:
    everything that determines how much is traded, at which price, in which
    direction and on what evidence, the tables it is recorded in, the services
    that send and reconcile orders, and the concurrent parts that guard it.

    ** Files, and the source each one models

    - Prelude: record update, Go's string functions on ASCII, 64-bit integers
      ([wrap64], [int_shl]), time and saturating durations, errors as values
      ([Result], sentinels of [errors.Is]), rational lemmas, tactics.
    - Decimal: github.com/shopspring/decimal as a class of operations
      ([Decimal]) and a class of their documented laws ([DecimalLaws]), stated
      through the rational [dval] a decimal stands for.  Division rounds to 16
      digits, a half away from zero; [divEps] is its largest error.  Every
      component is proved against the laws alone.
    - DecimalRef: [Dec], coefficient and exponent, an instance of both classes,
      so that the laws are satisfiable and the witnesses can be evaluated.
    - Types: the structs of types.go, arbitrage_types.go, exchange/types.go and
      marketdata/types.go, field by field, with their zero values.
    - Quantity: parsing, rounding to steps, common steps, base units to venue
      contracts and back (exchange/quantity.go, twap_scheduler.go, service.go).
    - Validate: normalisation of requests and the rules an order must satisfy
      before it is sent (validate.go).
    - ArbMath: the whole of arbitrage_math.go: spreads, directions, positions,
      closeable quantities, carry, dust evidence, circuit reopening.
    - ArbSize: the size of one round (arbitrage_order_size.go).
    - ArbHedge: hedge quantities, dust, IOC and maker prices, standalone carry
      (the pure decisions of arbitrage_executor.go).
    - WorkPermit: the pool of execution permits (execution_work_permit.go), as
      functions and as a step relation in which goroutines interleave at each
      channel operation and atomic counter update.
    - Resolution: what a venue's answer says of an order after an uncertain
      submit and when a confirmed absence cancels an execution
      (order_resolution.go, order_terminal.go, confirmed_absent_finalize.go).
      Adapters are the class [VenueAdapter]; the database transaction works on
      an explicit store.
    - FillAverage: the tracker of average fill prices (order_fill_average.go,
      order_fill_fee.go): a heap of states that the tracker's map and the
      handles share by address.
    - Metrics: cost basis, attribution, exposure, fees, funding, annualised
      return (arbitrage_position_metrics.go).
    - OneShotExit: the exit samples of one-shot combinations
      (arbitrage_one_shot_exit.go).
    - MetricsWorker: the worker that schedules the metrics and samples the
      exits (arbitrage_position_metrics_worker.go): every critical section is
      an event and a run is any sequence of events.
    - Sha256: the hash of the standard library, for the fire times of TWAP
      slices and request fingerprints.
    - Store: the rows of the database, PostgreSQL's numeric columns as the
      class [Postgres] with its laws, and the monad [M] in which the operations
      run: a store, a tick and the calls sent to venues.  [Env] gives at every
      tick the clocks, the failure of a statement if there is one, and what
      other processes write before a transaction; [holds] and [keeps] are the
      Hoare triples of computations.
    - OrderStore: the order repository (repository.go): intents, the merge of
      venue reports and fills, reconcile leases, failures, absence.
    - OrderService: [PlaceOrder], [GetOrder] and [CancelOrder] (service.go)
      against the class [Services]: catalogue, accounts, venue adapters.
    - TwapStore, Twap: the TWAP jobs (twap_repository.go, twap_scheduler.go,
      twap_service.go): the store, a pass of the scheduler over a job, the API.
    - ArbStore: the arbitrage repository (arbitrage_repository.go): creation,
      configuration, claims, hedge intents, positions, failures and circuit,
      audit, the phases of a one-shot, closing.
    - ArbLedger: what the tables of ArbStore keep under all its transactions.
    - FlattenRules: the pure rules of last clips, residuals, dust, the final
      flatten of a one-shot and the choice of a circuit recovery
      (arbitrage_last_close_residual.go, arbitrage_last_clip_handoff.go,
      arbitrage_one_shot_final_flatten.go, arbitrage_one_shot_dust.go, the
      pure functions of arbitrage_circuit_recovery.go).
    - FlattenStore: the transactions of the arbitrage repository that claim,
      finish and close a flattening; FlattenLedger: what they keep.
    - CircuitStore: the transactions that claim, complete and adopt a circuit
      recovery (arbitrage_circuit_recovery_repository.go), and the position of
      a leg in a portfolio (arbitrage_position_auditor.go).
    - Reconciler: the reconciler (reconciler.go): a round over the due orders,
      and the private streams of orders, against the class [OrderStreams].
    - OrderStream, StreamManager: the private order streams (orderstream/):
      the reports and the reducer of the decentralised venues; sessions,
      subscriptions and watches as heaps of shared objects.
    - SchedResources: slots, permits and the capacity of accounts and venues
      (arbitrage_scheduler.go), and their interleaving by many workers.
    - Scheduler: the event loop of a combination (arbitrage_scheduler.go), from
      the arrival of an event to the goroutine it starts, against the class
      [Runner] of what the executor does; SchedulerSafe: what a loop keeps.
    - SchedulerBatch: the table of loops, the batchers of snapshots, leases and
      control probes (arbitrage_snapshot_batch.go, arbitrage_lease_batch.go,
      arbitrage_control_batch.go, arbitrage_batch_repository.go).
    - Auditor: a round of the position auditor (arbitrage_position_auditor.go,
      arbitrage_liquidation_distance_exit.go and the transactions it uses of
      arbitrage_repository.go), against the class [AuditSurroundings] of
      portfolios, fills and valuations.
    - Executor: the services of the executor and one order of it: sending,
      watching to its end, the maker order with its cancellation
      (arbitrage_executor.go).  [Exec] holds the variables of a run, [E] is the
      monad [M] with them; [ExecutorSurroundings] gives the contexts, the events
      of the selects, permits, market data, balances and portfolios.
    - ExecHedge: hedges with their retries and the emergency order, the end of
      an execution, the recovery of a last clip (arbitrage_executor.go,
      arbitrage_last_clip_handoff.go, arbitrage_last_close_residual_recover.go).
    - ExecRun: the runs of an execution in both modes, the flattenings,
      [Execute], [CloseCombination], [RecoverWithoutMarketData]
      (arbitrage_executor.go, arbitrage_one_shot_final_flatten_exec.go,
      arbitrage_last_close_residual_flatten.go).
    - ExecCircuit: the recovery of an open circuit (arbitrage_circuit_open.go,
      arbitrage_circuit_recovery.go), and the executor as the [Runner] of a
      loop.
    - ExecSafe: what every run of the executor keeps, and the scheduler and
      its executor together.

    The flow of one round is ArbMath (is there a spread, in which direction)
    then ArbSize (how much), Validate (may it be sent), ArbHedge (price and
    hedge), with a permit of WorkPermit held; uncertain answers go through
    Resolution, fills through FillAverage into Metrics, whose results give
    OneShotExit and MetricsWorker the basis on which a combination is closed.
    An execution is claimed, hedged and finished in ArbStore; its orders are
    written in OrderStore, sent through OrderService and brought up to date by
    Reconciler, which recomputes the positions of the combination.  A loop of
    Scheduler decides when an execution is claimed and which goroutine runs;
    the goroutine is a run of Executor, ExecHedge, ExecRun or ExecCircuit.

    ** What the theorems show

    - Nothing is sent that a venue's rules forbid, and exactly the admissible
      orders are accepted (Validate); the rounding of quantities and prices is
      bounded (Quantity, ArbHedge), including the one case in which a floor can
      exceed its argument.
    - A round never trades more than may be opened or closed, and closing moves
      both legs towards zero without crossing it (ArbMath, ArbSize, ArbHedge);
      carry stays within its budget; dust is written off on evidence only.
    - Permits are neither lost nor duplicated under any interleaving, a release
      never blocks, and the sequential functions refine the step relation
      (WorkPermit).
    - A verdict on an order is never contradictory, and an execution is
      cancelled as absent only on complete evidence (Resolution).
    - Every trade is counted once, an average is written once and is the
      volume-weighted price, and the holders of an order share one state
      (FillAverage).
    - The cost basis keeps the books against every mark price, counts no
      position the account held before as its own, and loses no fill
      (Metrics); an exit is a hit only when closing pays after fees and never
      crosses zero (OneShotExit), and it is taken only after a full window of
      uninterrupted samples on one basis, whatever else the worker does
      meanwhile (MetricsWorker).
    - The rows of the order tables stay well typed under every sequence of
      operations, an order only makes progress, a report counts once, and
      snapshots lead to the same fill in every order of arrival (OrderStore).
    - At most one order is sent per request and idempotency key, and only an
      admissible one (OrderService); a TWAP job sends within its limits, is
      closed after its window and stays closed (Twap).
    - A combination has one active execution, claims keep to the target, a
      hedge is created once, five equal failures stop it, an exit is final,
      and the position columns are the signed sum of the fills (ArbLedger).
    - A reconcile round keeps all of this whatever fails, brings a found fill
      into the books, and keeps one stream per order (Reconciler).
    - The final orders of an exit only reduce, the residual of a close is
      claimed once, a final flatten settles its positions in the step that ends
      it, and dust is accepted on evidence only (FlattenRules, FlattenLedger);
      the circuit of a combination is closed only with settled orders and books
      that are the account (CircuitStore).
    - No channel of the stream manager is closed twice, a subscriber keeps its
      stream, and closing the manager stops all of them (StreamManager); the
      reports of the decentralised venues are monotone (OrderStream).
    - Slots, permits and capacity are accounted for under every interleaving
      (SchedResources); a loop starts one goroutine at a time and claims only
      what may be claimed (SchedulerSafe); there is one loop per combination
      and every loop that asked a batcher is answered (SchedulerBatch).
    - A round of the auditor keeps what the reconciler and the scheduler rely
      on, and a closing combination whose account is flat is settled with books
      that still are its ledger, after which it can be closed (Auditor).
    - An order is taken as ended only when it has (Executor), an execution is
      completed only after its orders have ended (ExecHedge), an execution with
      a position is never marked failed (ExecRun), and no run of the executor
      sends an order that is not written down; the scheduler with its executor
      keeps one active execution and exits that are final (ExecSafe).
    - Seven theorems describe behaviour that differs from what the code means:
      TWAP validation on instruments with a known minimum notional, the retry
      delay after 63 failures, the floor that exceeds its argument, the retry
      delay of TWAP jobs that never grows, the maker order left open when a
      TWAP job ends, the back-off of a combination after thirty failures, and
      the recomputation of positions that is not repeated after it failed.

    ** Parameters, bounds and fuel

    All definitions are structurally recursive or folds over lists, so there is
    no fuel.  Decimals, the database's numeric type, venue adapters, market data
    and random numbers are arguments.  A transaction is one atomic step: the
    code locks the rows it reads; between transactions other processes may
    write, and a statement or a commit may fail at every tick.  A stream or a
    loop of a goroutine is the list of what it receives until it ends.
    [float64] conversions appear as two functions: seconds of a duration and
    hours to seconds, as decimals.  Wall-clock reads are arguments.
    Iteration over a Go map, whose order is unspecified, takes the order as an
    argument or produces a list in map order.  Text is ASCII, as the columns
    hold it.  Instants are unbounded integers of nanoseconds, durations are
    64-bit and saturate as [Time.Sub] does; counters wrap where they can.

    ** Not modelled

    HTTP and websocket clients, signing, SQL text, RPC and gateway glue,
    accounts, administration, funding collection, the AI and Polymarket
    services, configuration: clients of services outside the repository, or
    conversions field by field.  Of the trader package: the preflight checks and
    the creation of combinations at the venues and the compensation of average
    prices, which read venues through adapters that are not modelled and write
    through transactions that are; the final metrics; the transaction that strings the running metrics together; list queries and
    counters.  Payloads of events are left out: an event is its type and what it
    is about.  Two functions of the executor that no code calls
    (placeCloseFlattenOwnedLegs, placeCloseFlattenLeg) are left out, and so are
    log lines and the intervals of timers: how often a timer fires is part of
    the list of events a loop receives. *)
From Stdlib Require Import ZArith QArith Qround Qabs Qminmax Lqa String Ascii.
From stdpp Require Import base strings list gmap.

#[global] Open Scope Z_scope.

(** * Field update of records

    [r <| f := v |>] is the record [r] with the field [f] replaced, the way
    the Go code assigns a field of a struct copy.  An [Eta] instance lists the
    fields of a record once; [build_setter] abstracts one of them. *)

Class Eta (R : Type) := eta : R -> R.
Class Setter {R T : Type} (p : R -> T) := setter : T -> R -> R.

Ltac build_setter :=
  lazymatch goal with
  | |- @Setter ?R ?T ?p =>
      let v := fresh "v" in
      let r := fresh "r" in
      intros v r;
      let i := constr:(_ : Eta R) in
      let e := eval hnf in (@eta R i r) in
      let e := eval pattern (p r) in e in
      lazymatch e with
      | ?F _ => let t := eval cbv beta in (F v) in exact t
      end
  end.
#[export] Hint Extern 1 (Setter _) => build_setter : typeclass_instances.

Declare Scope go_scope.
Delimit Scope go_scope with go.
#[global] Open Scope go_scope.

Notation "r '<|' p ':=' v '|>'" := (setter (p := p) v r)
  (at level 1, left associativity, p at level 0, v at level 99) : go_scope.

(** * Go's string functions

    Strings are byte strings.  [ToLower], [ToUpper], [TrimSpace] and
    [EqualFold] are Go's functions on ASCII text, which is what the modelled
    columns hold (enumerated states, sides, exchange names, decimal numerals):
    bytes of multi-byte runes are neither folded nor trimmed. *)

Definition lower_ascii (c : ascii) : ascii :=
  let n := nat_of_ascii c in
  if (Nat.leb 65 n && Nat.leb n 90)%bool then ascii_of_nat (n + 32) else c.

Definition upper_ascii (c : ascii) : ascii :=
  let n := nat_of_ascii c in
  if (Nat.leb 97 n && Nat.leb n 122)%bool then ascii_of_nat (n - 32) else c.

Definition is_space_ascii (c : ascii) : bool :=
  let n := nat_of_ascii c in
  ((Nat.leb 9 n && Nat.leb n 13) || Nat.eqb n 32)%bool.

Fixpoint string_map (f : ascii -> ascii) (s : string) : string :=
  match s with
  | EmptyString => EmptyString
  | String c r => String (f c) (string_map f r)
  end.

Definition ToLower (s : string) : string := string_map lower_ascii s.
Definition ToUpper (s : string) : string := string_map upper_ascii s.
Definition EqualFold (s t : string) : bool := String.eqb (ToLower s) (ToLower t).

Fixpoint trim_left (s : string) : string :=
  match s with
  | EmptyString => EmptyString
  | String c r => if is_space_ascii c then trim_left r else s
  end.

Fixpoint trim_right (s : string) : string :=
  match s with
  | EmptyString => EmptyString
  | String c r =>
      match trim_right r with
      | EmptyString => if is_space_ascii c then EmptyString else String c EmptyString
      | r' => String c r'
      end
  end.

Definition TrimSpace (s : string) : string := trim_right (trim_left s).

(** [strings.Contains]. *)
Fixpoint Contains (s sub : string) : bool :=
  String.prefix sub s ||
  match s with
  | EmptyString => false
  | String _ r => Contains r sub
  end.

(** [strings.Join]. *)
Definition Join (parts : list string) (sep : string) : string := String.concat sep parts.

(** The byte order of Go's [<] on strings. *)
Definition string_lt (s t : string) : bool := String.ltb s t.

(** The [%q] verb on ASCII text: quotes, backslashes and control characters
    are escaped, every other byte is kept. *)
Definition hex_digit (n : nat) : ascii :=
  ascii_of_nat (if Nat.ltb n 10 then 48 + n else 87 + n).

Definition quote_ascii (c : ascii) : string :=
  let n := nat_of_ascii c in
  let esc x := String (ascii_of_nat 92) (String (ascii_of_nat x) EmptyString) in
  match n with
  | 7%nat => esc 97%nat | 8%nat => esc 98%nat | 9%nat => esc 116%nat
  | 10%nat => esc 110%nat | 11%nat => esc 118%nat | 12%nat => esc 102%nat
  | 13%nat => esc 114%nat | 34%nat => esc 34%nat | 92%nat => esc 92%nat
  | _ =>
      if (Nat.ltb n 32 || Nat.eqb n 127)%bool
      then String (ascii_of_nat 92) (String (ascii_of_nat 120)
             (String (hex_digit (Nat.div n 16)) (String (hex_digit (Nat.modulo n 16)) EmptyString)))
      else String c EmptyString
  end.

Fixpoint quote_body (s : string) : string :=
  match s with
  | EmptyString => EmptyString
  | String c r => String.append (quote_ascii c) (quote_body r)
  end.

Definition quoted (s : string) : string :=
  let q := String (ascii_of_nat 34) EmptyString in
  String.append q (String.append (quote_body s) q).

(** Comparison of text with an enumerated literal, as the code's switches do it. *)
Infix "=?s" := String.eqb (at level 70) : go_scope.

(** * Machine integers *)

(** [int] and [int64] are 64-bit two's complement. *)
Definition wrap64 (z : Z) : Z := (z + 2 ^ 63) mod 2 ^ 64 - 2 ^ 63.

(** [x << n] on [int] for a non-negative count: bits shifted out are lost. *)
Definition int_shl (x n : Z) : Z := if 64 <=? n then 0 else wrap64 (x * 2 ^ n).

Definition int64_max : Z := 2 ^ 63 - 1.
Definition int64_min : Z := - 2 ^ 63.

(** * Time

    An instant is its number of nanoseconds since the Unix epoch; the zero
    [time.Time] is January 1 of year 1, UTC.  A [time.Duration] is an [int64]
    number of nanoseconds, and [Time.Sub] saturates at its bounds. *)

Definition GoTime : Type := Z.
Definition Duration : Type := Z.

Definition Nanosecond : Duration := 1.
Definition Millisecond : Duration := 1000000.
Definition Second : Duration := 1000000000.
Definition Minute : Duration := 60 * Second.
Definition Hour : Duration := 60 * Minute.

Definition zeroTime : GoTime := - 62135596800 * Second.
Definition unixEpoch : GoTime := 0.
Definition IsZeroTime (t : GoTime) : bool := t =? zeroTime.
Definition TimeSub (t u : GoTime) : Duration := Z.max int64_min (Z.min int64_max (t - u)).
Definition TimeAdd (t : GoTime) (d : Duration) : GoTime := t + d.
Definition TimeAfter (t u : GoTime) : bool := u <? t.
Definition TimeBefore (t u : GoTime) : bool := t <? u.
Definition TimeEqual (t u : GoTime) : bool := t =? u.

(** [!at.IsZero() && !at.Equal(time.Unix(0, 0).UTC())]: the guard the trader
    repeats on columns that hold the zero time or the epoch when unset. *)
Definition timeSet (t : GoTime) : bool := negb (IsZeroTime t) && negb (TimeEqual t unixEpoch).

(** * Results and errors

    An error is the set of sentinels [errors.Is] finds in it and its text. *)

Inductive Sentinel :=
| ErrInvalidArgument | ErrOrderBelowMinimum | ErrInstrumentUnavailable
| ErrInvalidQuantity | ErrOrderNotFound | ErrUncertain | ErrVenueUncertain
| ErrMarketDataStale | ErrNotFound | ErrIdempotencyConflict
| ErrArbitrageUnsafeHedge | ErrTwapNotCancelable | ErrUnsupportedExchange | ErrVenueUnavailable
| ErrActiveTwapLimit | ErrOrderNotCancelable | ErrRejected | ErrRateLimited | ErrAmbiguousCancel
| ErrVenueRejected | ErrVenueRateLimited | ErrPersistence | DeadlineExceeded | Canceled
| errHyperliquidFillUnknown
| ErrArbitrageConflict | ErrActiveArbitrageInstrumentConflict | ErrArbitrageConfigInvalid | ErrArbitrageReconciling
| ErrArbitrageExecutionTerminal | ErrArbitrageHedgeSequence | ErrArbitrageHedgeAdmissionConflict
| ErrArbitrageLastCloseClipUnbalancedConflict | ErrArbitrageNotClosable
| ErrRiskLimit | errLastClipDustHandoff
| errLastCloseExternalFlatSnapshotStale
| ErrArbitrageCloseWaitingSnapshot | ErrCloseOrderOpen | ErrCloseOrderUncertain | ErrFinalMetricsNotReady | ErrFinalMetricsPersist
| ErrUnauthorized | ErrUnavailable
| ErrOther.

#[export] Instance Sentinel_eq_dec : EqDecision Sentinel.
Proof. solve_decision. Defined.

Record GoError := mkError { err_is : list Sentinel; err_text : string }.

Definition errorsIs (e : GoError) (s : Sentinel) : bool := bool_decide (s ∈ err_is e).

Inductive Result (A : Type) :=
| Ok (a : A)
| Err (e : GoError).
Arguments Ok {A} a.
Arguments Err {A} e.

Definition isOk {A} (r : Result A) : bool := match r with Ok _ => true | Err _ => false end.

Notation "'let?' x ':=' r 'in' k" := (match r with Ok x => k | Err e => Err e end)
  (at level 10, x pattern, r at level 100, k at level 200) : go_scope.

(** * Rational lemmas shared by the components *)

Lemma Qlt_bool_iff (a b : Q) : (a < b)%Q <-> Qle_bool b a = false.
Proof.
  split; intros H.
  - destruct (Qle_bool b a) eqn:E; [|done]. apply Qle_bool_iff in E. lra.
  - apply Qnot_le_lt. intros E. apply Qle_bool_iff in E. congruence.
Qed.

Lemma Qfloor_spec (q : Q) : (inject_Z (Qfloor q) <= q /\ q < inject_Z (Qfloor q) + 1)%Q.
Proof.
  split; [apply Qfloor_le|].
  pose proof (Qlt_floor q) as H. rewrite inject_Z_plus in H. exact H.
Qed.

Lemma Qceiling_spec (q : Q) : (q <= inject_Z (Qceiling q) /\ inject_Z (Qceiling q) < q + 1)%Q.
Proof.
  split; [apply Qle_ceiling|].
  pose proof (Qceiling_lt q) as H. unfold Z.sub in H. rewrite inject_Z_plus in H.
  change (inject_Z (- (1))) with (- (1))%Q in H. lra.
Qed.

Lemma Qpos_nonzero (q : Q) : (0 < q)%Q -> ~ (q == 0)%Q.
Proof. intros H E. rewrite E in H. discriminate H. Qed.

Lemma Qmult_le_l_nonneg (c a b : Q) : (0 <= c)%Q -> (a <= b)%Q -> (c * a <= c * b)%Q.
Proof. intros Hc H. rewrite !(Qmult_comm c). by apply Qmult_le_compat_r. Qed.

(** Integers are a unit apart, so strict rational bounds determine a floor. *)
Lemma inject_Z_lt_plus1 (m n : Z) : (inject_Z m < inject_Z n + 1)%Q -> m <= n.
Proof.
  intros H. change 1%Q with (inject_Z 1) in H. rewrite <- inject_Z_plus in H.
  rewrite <- Zlt_Qlt in H. lia.
Qed.

Lemma Qfloor_unique (q : Q) (n : Z) :
  (inject_Z n <= q)%Q -> (q < inject_Z n + 1)%Q -> Qfloor q = n.
Proof.
  intros H1 H2. pose proof (Qfloor_spec q) as [H3 H4].
  apply Z.le_antisymm; apply inject_Z_lt_plus1; lra.
Qed.

(** * Strings *)

Lemma string_eqb_true (s t : string) : (s =?s t) = true <-> s = t.
Proof. apply String.eqb_eq. Qed.

Lemma EqualFold_refl (s : string) : EqualFold s s = true.
Proof. apply String.eqb_refl. Qed.

(** Case analysis on the boolean tests of a definition, innermost test first. *)
Ltac case_if :=
  match goal with
  | |- context [if ?b then _ else _] =>
      lazymatch b with context [if _ then _ else _] => fail | _ => destruct b eqn:? end
  | H : context [if ?b then _ else _] |- _ =>
      lazymatch b with context [if _ then _ else _] => fail | _ => destruct b eqn:? end
  end.

Ltac bool_to_prop :=
  repeat match goal with
  | H : (_ && _)%bool = true |- _ => apply andb_true_iff in H; destruct H
  | H : (_ || _)%bool = false |- _ => apply orb_false_iff in H; destruct H
  | H : negb _ = true |- _ => apply negb_true_iff in H
  | H : negb _ = false |- _ => apply negb_false_iff in H
  | H : (_ =?s _) = true |- _ => apply String.eqb_eq in H
  | H : (_ <=? _) = true |- _ => apply Z.leb_le in H
  | H : (_ <=? _) = false |- _ => apply Z.leb_gt in H
  | H : (_ <? _) = true |- _ => apply Z.ltb_lt in H
  | H : (_ <? _) = false |- _ => apply Z.ltb_ge in H
  | H : (_ =? _) = true |- _ => apply Z.eqb_eq in H
  | H : (_ =? _) = false |- _ => apply Z.eqb_neq in H
  end.
