(* ===== verification/Decimal.v ===== *)
(** * The interface of github.com/shopspring/decimal

    The Go code computes with [decimal.Decimal], a third-party type, so the
    development is parametric in it.  [Decimal D] lists the functions and
    methods the modelled code calls; [DecimalLaws D] states their documented
    behaviour through [dval], the rational [coefficient * 10 ^ exponent] a
    decimal stands for.  Every component is written against [Decimal] and
    every theorem about values assumes [DecimalLaws] only.

    Division is the one inexact operation: [Div] rounds to
    [DivisionPrecision = 16] digits after the point, a half away from zero.
    Division and remainder by zero panic in Go: the laws say nothing of them. *)
From Stdlib Require Import ZArith QArith Qround Qabs Qminmax Qpower Lqa String Ascii.
From stdpp Require Import base strings list.
From S2P Require Import Prelude.

(** ** Rounding *)

Definition pow10 (e : Z) : Q := Qpower (10 # 1) e.

(** [q] rounded to [p] digits after the point, a half away from zero. *)
Definition qround (p : Z) (q : Q) : Q :=
  (let m := inject_Z (Qfloor (Qabs q * pow10 p + (1 # 2))) / pow10 p in
   if Qle_bool 0 q then m else - m)%Q.

Definition DivisionPrecision : Z := 16.

(** The largest error of one division. *)
Definition divEps : Q := ((1 # 2) / pow10 DivisionPrecision)%Q.

(** Rounding towards zero. *)
Definition qtrunc (q : Q) : Z := if Qle_bool 0 q then Qfloor q else Qceiling q.

(** ** Fixed-point numerals

    The value of a numeral [[+-]digits[.digits]], the notation [String]
    prints and [NewFromString] reads. *)

Definition digit_value (c : ascii) : option Z :=
  let n := nat_of_ascii c in
  if (Nat.leb 48 n && Nat.leb n 57)%bool then Some (Z.of_nat n - 48) else None.

(** [parse_frac acc k s] reads the digits after the point, [k] of them read. *)
Fixpoint parse_frac (acc k : Z) (s : string) : option (Z * Z) :=
  match s with
  | EmptyString => Some (acc, k)
  | String c r =>
      match digit_value c with
      | Some d => parse_frac (10 * acc + d) (k + 1) r
      | None => None
      end
  end.

Fixpoint parse_int (acc : Z) (s : string) : option (Z * Z) :=
  match s with
  | EmptyString => Some (acc, 0)
  | String c r =>
      match digit_value c with
      | Some d => parse_int (10 * acc + d) r
      | None =>
          if Ascii.eqb c (ascii_of_nat 46)
          then match r with EmptyString => None | _ => parse_frac acc 0 r end
          else None
      end
  end.

(** Coefficient and number of digits after the point. *)
Definition parse_unsigned (s : string) : option (Z * Z) :=
  match s with
  | EmptyString => None
  | String c r =>
      match digit_value c with
      | Some d => parse_int d r
      | None => None
      end
  end.

Definition parse_numeral (s : string) : option (Z * Z) :=
  match s with
  | String c r =>
      if Ascii.eqb c (ascii_of_nat 45)
      then match parse_unsigned r with Some (m, k) => Some (- m, k) | None => None end
      else if Ascii.eqb c (ascii_of_nat 43) then parse_unsigned r
      else parse_unsigned s
  | EmptyString => None
  end.

Definition numeral_value (s : string) : option Q :=
  match parse_numeral s with
  | Some (m, k) => Some (inject_Z m * pow10 (- k))%Q
  | None => None
  end.

(** ** The operations *)

Class Decimal (D : Type) := {
  dZero : D;
  dNewFromString : string -> option D;
  dString : D -> string;
  dNewFromInt : Z -> D;
  dNew : Z -> Z -> D;
  dNewFromBigInt : Z -> Z -> D;
  dCoefficient : D -> Z;
  dExponent : D -> Z;
  dNumDigits : D -> Z;
  dAdd : D -> D -> D;
  dSub : D -> D -> D;
  dMul : D -> D -> D;
  dDiv : D -> D -> D;
  dMod : D -> D -> D;
  dNeg : D -> D;
  dAbs : D -> D;
  dFloor : D -> D;
  dCeil : D -> D;
  dTruncate0 : D -> D;
  dMin : D -> D -> D;
  dMax : D -> D -> D;
  dSign : D -> Z;
  dIsPositive : D -> bool;
  dIsNegative : D -> bool;
  dIsZero : D -> bool;
  dEqual : D -> D -> bool;
  dLessThan : D -> D -> bool;
  dLessThanOrEqual : D -> D -> bool;
  dGreaterThan : D -> D -> bool;
  dGreaterThanOrEqual : D -> D -> bool
}.

Declare Scope dec_scope.
Delimit Scope dec_scope with dec.
Infix "+" := dAdd : dec_scope.
Infix "-" := dSub : dec_scope.
Infix "*" := dMul : dec_scope.
Infix "/" := dDiv : dec_scope.
Infix "<?" := dLessThan : dec_scope.
Infix "<=?" := dLessThanOrEqual : dec_scope.
Infix ">?" := dGreaterThan : dec_scope.
Infix ">=?" := dGreaterThanOrEqual : dec_scope.
Infix "=?" := dEqual : dec_scope.

(** The number a decimal stands for. *)
Definition dval {D} `{!Decimal D} (d : D) : Q := (inject_Z (dCoefficient d) * pow10 (dExponent d))%Q.

(** Decimals with the same value: [1.50] and [1.5] differ as values of the Go
    type and not as numbers. *)
Definition deq {D} `{!Decimal D} (a b : D) : Prop := (dval a == dval b)%Q.

(** ** The laws *)

Class DecimalLaws (D : Type) `{!Decimal D} : Prop := {
  dZero_val : (dval (D := D) dZero == 0)%Q;
  dNewFromInt_val : forall n, (dval (dNewFromInt n) == inject_Z n)%Q;
  dNew_val : forall c e, (dval (dNew c e) == inject_Z c * pow10 e)%Q;
  dNewFromBigInt_val : forall c e, (dval (dNewFromBigInt c e) == inject_Z c * pow10 e)%Q;
  dAdd_val : forall a b, (dval (dAdd a b) == dval a + dval b)%Q;
  dSub_val : forall a b, (dval (dSub a b) == dval a - dval b)%Q;
  dMul_val : forall a b, (dval (dMul a b) == dval a * dval b)%Q;
  dDiv_val : forall a b, ~ (dval b == 0)%Q ->
    (dval (dDiv a b) == qround DivisionPrecision (dval a / dval b))%Q;
  dMod_val : forall a b, ~ (dval b == 0)%Q ->
    (dval (dMod a b) == dval a - dval b * inject_Z (qtrunc (dval a / dval b)))%Q;
  dNeg_val : forall a, (dval (dNeg a) == - dval a)%Q;
  dAbs_val : forall a, (dval (dAbs a) == Qabs (dval a))%Q;
  dFloor_val : forall a, (dval (dFloor a) == inject_Z (Qfloor (dval a)))%Q;
  dCeil_val : forall a, (dval (dCeil a) == inject_Z (Qceiling (dval a)))%Q;
  dTruncate0_val : forall a, (dval (dTruncate0 a) == inject_Z (qtrunc (dval a)))%Q;
  dMin_val : forall a b, (dval (dMin a b) == Qmin (dval a) (dval b))%Q;
  dMax_val : forall a b, (dval (dMax a b) == Qmax (dval a) (dval b))%Q;
  dSign_val : forall a, dSign a = Z.sgn (Qnum (dval a));
  dIsPositive_val : forall a, dIsPositive a = true <-> (0 < dval a)%Q;
  dIsNegative_val : forall a, dIsNegative a = true <-> (dval a < 0)%Q;
  dIsZero_val : forall a, dIsZero a = true <-> (dval a == 0)%Q;
  dEqual_val : forall a b, dEqual a b = true <-> (dval a == dval b)%Q;
  dLessThan_val : forall a b, dLessThan a b = true <-> (dval a < dval b)%Q;
  dLessThanOrEqual_val : forall a b, dLessThanOrEqual a b = true <-> (dval a <= dval b)%Q;
  dGreaterThan_val : forall a b, dGreaterThan a b = true <-> (dval b < dval a)%Q;
  dGreaterThanOrEqual_val : forall a b, dGreaterThanOrEqual a b = true <-> (dval b <= dval a)%Q;
  dString_val : forall a, exists q, numeral_value (dString a) = Some q /\ (q == dval a)%Q;
  dNewFromString_val : forall s q, numeral_value s = Some q ->
    exists d, dNewFromString s = Some d /\ (dval d == q)%Q;
  dNewFromString_empty : dNewFromString (D := D) EmptyString = None
}.

(** ** Facts about rounding *)

Lemma pow10_pos (e : Z) : (0 < pow10 e)%Q.
Proof. apply Qpower_0_lt. reflexivity. Qed.

Lemma pow10_plus (a b : Z) : (pow10 (a + b) == pow10 a * pow10 b)%Q.
Proof. apply Qpower_plus. discriminate. Qed.

Lemma pow10_Z (e : Z) : 0 <= e -> (pow10 e == inject_Z (10 ^ e))%Q.
Proof. intros H. unfold pow10. change (10 # 1)%Q with (inject_Z 10). symmetry. by apply Zpower_Qpower. Qed.

Lemma Qle_bool_reflect (a b : Q) : reflect (a <= b)%Q (Qle_bool a b).
Proof. apply iff_reflect. symmetry. apply Qle_bool_iff. Qed.

#[export] Instance qround_proper p : Proper (Qeq ==> Qeq) (qround p).
Proof.
  intros a b E. unfold qround; cbv zeta.
  assert (Qle_bool 0 a = Qle_bool 0 b) as -> by (by rewrite E).
  assert (Qfloor (Qabs a * pow10 p + (1 # 2)) = Qfloor (Qabs b * pow10 p + (1 # 2))) as ->
    by (by rewrite E).
  reflexivity.
Qed.

#[export] Instance qtrunc_proper : Proper (Qeq ==> eq) qtrunc.
Proof.
  intros a b E. unfold qtrunc.
  assert (Qle_bool 0 a = Qle_bool 0 b) as -> by (by rewrite E).
  destruct (Qle_bool 0 b); by rewrite E.
Qed.

Section Rounding.
Local Open Scope Q_scope.

(** The magnitude part of [qround]: rounding of a non-negative number. *)
Lemma qround_mag_err (p : Z) (q : Q) :
  0 <= q ->
  - ((1 # 2) / pow10 p) < inject_Z (Qfloor (q * pow10 p + (1 # 2))) / pow10 p - q
  /\ inject_Z (Qfloor (q * pow10 p + (1 # 2))) / pow10 p - q <= (1 # 2) / pow10 p.
Proof.
  intros Hq. pose proof (pow10_pos p) as Hp.
  pose proof (Qfloor_spec (q * pow10 p + (1 # 2))) as [H1 H2].
  set (n := inject_Z (Qfloor (q * pow10 p + (1 # 2)))) in *. clearbody n.
  assert (n / pow10 p - q == (n - q * pow10 p) / pow10 p) as -> by (field; lra).
  split.
  - apply Qlt_shift_div_l; [done|].
    assert (- ((1 # 2) / pow10 p) * pow10 p == - (1 # 2)) as -> by (field; lra). lra.
  - apply Qle_shift_div_r; [done|].
    assert ((1 # 2) / pow10 p * pow10 p == (1 # 2)) as -> by (field; lra). lra.
Qed.

Lemma qround_err (p : Z) (q : Q) : Qabs (qround p q - q) <= (1 # 2) / pow10 p.
Proof.
  unfold qround; cbv zeta. destruct (Qle_bool_reflect 0 q) as [H|H].
  - rewrite (Qabs_pos q) by lra.
    pose proof (qround_mag_err p q H). apply Qabs_Qle_condition. lra.
  - apply Qnot_le_lt in H. rewrite (Qabs_neg q) by lra.
    assert (0 <= - q) as H' by lra.
    pose proof (qround_mag_err p (- q) H'). apply Qabs_Qle_condition. lra.
Qed.

Lemma qround_nonneg (p : Z) (q : Q) : 0 <= q -> 0 <= qround p q.
Proof.
  intros H. unfold qround; cbv zeta. destruct (Qle_bool_reflect 0 q); [|done].
  rewrite (Qabs_pos q) by lra. pose proof (pow10_pos p).
  apply Qle_shift_div_l; [done|]. rewrite Qmult_0_l.
  change 0 with (inject_Z 0). rewrite <- Zle_Qle. change 0%Z with (Qfloor 0).
  apply Qfloor_resp_le. nra.
Qed.

Lemma qround_nonpos (p : Z) (q : Q) : q <= 0 -> qround p q <= 0.
Proof.
  intros H. unfold qround; cbv zeta. destruct (Qle_bool_reflect 0 q) as [H'|H'].
  - assert (q == 0) as -> by lra. change (Qabs 0) with 0. rewrite Qmult_0_l.
    assert (Qfloor (0 + (1 # 2)) = 0%Z) as -> by reflexivity.
    unfold Qdiv. rewrite Qmult_0_l. lra.
  - rewrite (Qabs_neg q) by lra. pose proof (pow10_pos p).
    enough (0 <= inject_Z (Qfloor (- q * pow10 p + (1 # 2))) / pow10 p) by lra.
    apply Qle_shift_div_l; [done|]. rewrite Qmult_0_l.
    change 0 with (inject_Z 0). rewrite <- Zle_Qle. change 0%Z with (Qfloor 0).
    apply Qfloor_resp_le. apply Qnot_le_lt in H'. nra.
Qed.

Lemma qround_mono_nonneg (p : Z) (a b : Q) : 0 <= a -> a <= b -> qround p a <= qround p b.
Proof.
  intros Ha Hab. unfold qround; cbv zeta. pose proof (pow10_pos p).
  destruct (Qle_bool_reflect 0 a); [|done].
  destruct (Qle_bool_reflect 0 b) as [|Hn]; [|exfalso; apply Hn; lra].
  rewrite !Qabs_pos by lra.
  apply Qle_shift_div_l; [done|].
  assert (inject_Z (Qfloor (a * pow10 p + (1 # 2))) / pow10 p * pow10 p
          == inject_Z (Qfloor (a * pow10 p + (1 # 2)))) as -> by (field; lra).
  rewrite <- Zle_Qle. apply Qfloor_resp_le. nra.
Qed.

Lemma qround_opp (p : Z) (q : Q) : qround p (- q) == - qround p q.
Proof.
  unfold qround; cbv zeta. rewrite (Qabs_opp q).
  destruct (Qle_bool_reflect 0 q) as [H|H%Qnot_le_lt],
    (Qle_bool_reflect 0 (- q)) as [H'|H'%Qnot_le_lt]; [|try rewrite (Qabs_opp q); ring..|lra].
  assert (Hq : q == 0) by lra. rewrite !Hq. change (Qabs 0) with 0.
  rewrite Qmult_0_l. assert (Qfloor (0 + (1 # 2)) = 0%Z) as -> by reflexivity.
  unfold Qdiv. rewrite Qmult_0_l. lra.
Qed.

Lemma qround_mono (p : Z) (a b : Q) : a <= b -> qround p a <= qround p b.
Proof.
  intros H. destruct (Qlt_le_dec a 0) as [Ha|Ha]; [destruct (Qlt_le_dec b 0) as [Hb|Hb]|].
  - pose proof (qround_mono_nonneg p (- b) (- a)) as H'.
    rewrite !qround_opp in H'. lra.
  - pose proof (qround_nonpos p a). pose proof (qround_nonneg p b). lra.
  - by apply qround_mono_nonneg.
Qed.

(** A number with at most [p] digits after the point is not rounded. *)
Lemma qround_exact (p : Z) (n : Z) (q : Q) : q * pow10 p == inject_Z n -> qround p q == q.
Proof.
  intros H. pose proof (pow10_pos p) as Hp.
  assert (forall m r, 0 <= r -> r * pow10 p == inject_Z m ->
            inject_Z (Qfloor (r * pow10 p + (1 # 2))) / pow10 p == r) as Hmag.
  { intros m r Hr E.
    assert (Qfloor (r * pow10 p + (1 # 2)) = m) as ->.
    { apply Qfloor_unique; rewrite E; lra. }
    rewrite <- E. field. lra. }
  unfold qround; cbv zeta. destruct (Qle_bool_reflect 0 q) as [Hq|Hq].
  - rewrite (Qabs_pos q) by lra. by apply (Hmag n).
  - apply Qnot_le_lt in Hq. rewrite (Qabs_neg q) by lra.
    rewrite (Hmag (- n)%Z (- q)); [lra|lra|].
    rewrite inject_Z_opp. rewrite <- H. lra.
Qed.

Lemma qround_int (p : Z) (n : Z) : (0 <= p)%Z -> qround p (inject_Z n) == inject_Z n.
Proof.
  intros H. apply (qround_exact p (n * 10 ^ p)). rewrite inject_Z_mult, pow10_Z by done.
  reflexivity.
Qed.

Lemma qround_le_int (p : Z) (n : Z) (q : Q) :
  (0 <= p)%Z -> q <= inject_Z n -> qround p q <= inject_Z n.
Proof. intros Hp H. rewrite <- (qround_int p n) by done. by apply qround_mono. Qed.

Lemma qround_ge_int (p : Z) (n : Z) (q : Q) :
  (0 <= p)%Z -> inject_Z n <= q -> inject_Z n <= qround p q.
Proof. intros Hp H. rewrite <- (qround_int p n) by done. by apply qround_mono. Qed.
End Rounding.

(** ** Numerals have no blanks *)

Fixpoint no_space (s : string) : bool :=
  match s with
  | EmptyString => true
  | String c r => negb (is_space_ascii c) && no_space r
  end.

Lemma trim_right_no_space (s : string) : no_space s = true -> trim_right s = s.
Proof.
  induction s as [|c r IH]; [done|]. cbn [no_space trim_right]. intros H.
  apply andb_true_iff in H as [Hc Hr]. rewrite IH by done.
  apply negb_true_iff in Hc. rewrite Hc. by destruct r.
Qed.

Lemma TrimSpace_no_space (s : string) : no_space s = true -> TrimSpace s = s.
Proof.
  intros H. unfold TrimSpace. replace (trim_left s) with s; [by apply trim_right_no_space|].
  destruct s as [|c r]; [done|]. cbn [no_space trim_left] in *.
  apply andb_true_iff in H as [Hc _]. apply negb_true_iff in Hc. by rewrite Hc.
Qed.

Lemma digit_not_space (c : ascii) (d : Z) : digit_value c = Some d -> is_space_ascii c = false.
Proof.
  unfold digit_value, is_space_ascii.
  destruct ((48 <=? nat_of_ascii c) && (nat_of_ascii c <=? 57))%nat%bool eqn:E; [|done].
  intros _. apply andb_true_iff in E as [E1 E2].
  apply Nat.leb_le in E1. apply Nat.leb_le in E2.
  apply orb_false_iff. split; [apply andb_false_iff; right; apply Nat.leb_gt; lia|apply Nat.eqb_neq; lia].
Qed.

Lemma parse_frac_no_space (s : string) : forall acc k r, parse_frac acc k s = Some r -> no_space s = true.
Proof.
  induction s as [|c s IH]; intros acc k r; [done|]. cbn [parse_frac no_space].
  destruct (digit_value c) as [d|] eqn:E; [|done]. intros H.
  rewrite (digit_not_space c d E), (IH _ _ _ H). done.
Qed.

Lemma parse_int_no_space (s : string) : forall acc r, parse_int acc s = Some r -> no_space s = true.
Proof.
  induction s as [|c s IH]; intros acc r; [done|]. cbn [parse_int no_space].
  destruct (digit_value c) as [d|] eqn:E.
  - intros H. rewrite (digit_not_space c d E), (IH _ _ H). done.
  - destruct (Ascii.eqb_spec c (ascii_of_nat 46)) as [->|]; [|done].
    destruct s as [|c' s']; [done|]. intros H. apply parse_frac_no_space in H. by rewrite H.
Qed.

Lemma parse_unsigned_no_space (s : string) r : parse_unsigned s = Some r -> no_space s = true.
Proof.
  destruct s as [|c s]; [done|]. cbn [parse_unsigned no_space].
  destruct (digit_value c) as [d|] eqn:E; [|done]. intros H.
  apply parse_int_no_space in H. by rewrite (digit_not_space c d E), H.
Qed.

Lemma numeral_TrimSpace (s : string) (q : Q) : numeral_value s = Some q -> TrimSpace s = s.
Proof.
  unfold numeral_value. destruct (parse_numeral s) as [r|] eqn:E; [|done]. intros _.
  apply TrimSpace_no_space. destruct s as [|c s]; [done|]. cbn [parse_numeral] in E.
  destruct (Ascii.eqb_spec c (ascii_of_nat 45)) as [->|].
  - destruct (parse_unsigned s) eqn:E'; [|done]. apply parse_unsigned_no_space in E'. by cbn [no_space].
  - destruct (Ascii.eqb_spec c (ascii_of_nat 43)) as [->|].
    + apply parse_unsigned_no_space in E. by cbn [no_space].
    + by apply parse_unsigned_no_space in E.
Qed.

(** ** Working with the laws

    [dec_cases] turns every boolean test on decimals of the context into the
    inequality it decides; [dec_val] rewrites the value of a decimal
    expression into an expression of values; [dec] does both and closes
    linear goals. *)

Section Laws.
Context {D : Type} `{!Decimal D} `{!DecimalLaws D}.
Local Open Scope Q_scope.

Lemma dIsPositive_reflect (a : D) : reflect (0 < dval a) (dIsPositive a).
Proof. apply iff_reflect. symmetry. apply dIsPositive_val. Qed.
Lemma dIsNegative_reflect (a : D) : reflect (dval a < 0) (dIsNegative a).
Proof. apply iff_reflect. symmetry. apply dIsNegative_val. Qed.
Lemma dIsZero_reflect (a : D) : reflect (dval a == 0) (dIsZero a).
Proof. apply iff_reflect. symmetry. apply dIsZero_val. Qed.
Lemma dEqual_reflect (a b : D) : reflect (dval a == dval b) (dEqual a b).
Proof. apply iff_reflect. symmetry. apply dEqual_val. Qed.
Lemma dLessThan_reflect (a b : D) : reflect (dval a < dval b) (dLessThan a b).
Proof. apply iff_reflect. symmetry. apply dLessThan_val. Qed.
Lemma dLessThanOrEqual_reflect (a b : D) : reflect (dval a <= dval b) (dLessThanOrEqual a b).
Proof. apply iff_reflect. symmetry. apply dLessThanOrEqual_val. Qed.
Lemma dGreaterThan_reflect (a b : D) : reflect (dval b < dval a) (dGreaterThan a b).
Proof. apply iff_reflect. symmetry. apply dGreaterThan_val. Qed.
Lemma dGreaterThanOrEqual_reflect (a b : D) :
  reflect (dval b <= dval a) (dGreaterThanOrEqual a b).
Proof. apply iff_reflect. symmetry. apply dGreaterThanOrEqual_val. Qed.

#[export] Instance deq_equivalence : Equivalence (deq (D := D)).
Proof. unfold deq. split; repeat intro; [reflexivity|by symmetry|by etransitivity]. Qed.
#[export] Instance dAdd_proper : Proper (deq ==> deq ==> deq) (dAdd (D := D)).
Proof. intros a a' Ha b b' Hb. unfold deq in *. rewrite !dAdd_val, Ha, Hb. reflexivity. Qed.
#[export] Instance dSub_proper : Proper (deq ==> deq ==> deq) (dSub (D := D)).
Proof. intros a a' Ha b b' Hb. unfold deq in *. rewrite !dSub_val, Ha, Hb. reflexivity. Qed.
#[export] Instance dMul_proper : Proper (deq ==> deq ==> deq) (dMul (D := D)).
Proof. intros a a' Ha b b' Hb. unfold deq in *. rewrite !dMul_val, Ha, Hb. reflexivity. Qed.
#[export] Instance dval_proper : Proper (deq ==> Qeq) (dval (D := D)).
Proof. by intros a b H. Qed.

Lemma divEps_pos : 0 < divEps.
Proof. reflexivity. Qed.

(** One division is off by at most [divEps]. *)
Lemma dDiv_err (a b : D) :
  ~ dval b == 0 -> Qabs (dval (dDiv a b) - dval a / dval b) <= divEps.
Proof. intros H. rewrite dDiv_val by done. apply qround_err. Qed.

Lemma dDiv_bounds (a b : D) :
  ~ dval b == 0 ->
  dval a / dval b - divEps <= dval (dDiv a b) <= dval a / dval b + divEps.
Proof.
  intros H. pose proof (dDiv_err a b H) as E. apply Qabs_Qle_condition in E. lra.
Qed.

Lemma dDiv_nonneg (a b : D) : 0 <= dval a -> 0 < dval b -> 0 <= dval (dDiv a b).
Proof.
  intros Ha Hb. rewrite dDiv_val by lra. apply qround_nonneg.
  apply Qle_shift_div_l; lra.
Qed.

(** The sign of a decimal, through its value. *)
Lemma dSign_pos (a : D) : 0 < dval a -> dSign a = 1%Z.
Proof.
  intros H. rewrite dSign_val. apply Z.sgn_pos_iff.
  destruct (dval a) as [n d]. unfold Qlt in H. simpl in *. lia.
Qed.
Lemma dSign_neg (a : D) : dval a < 0 -> dSign a = (-1)%Z.
Proof.
  intros H. rewrite dSign_val. apply Z.sgn_neg_iff.
  destruct (dval a) as [n d]. unfold Qlt in H. simpl in *. lia.
Qed.
Lemma dSign_zero (a : D) : dval a == 0 -> dSign a = 0%Z.
Proof.
  intros H. rewrite dSign_val. apply Z.sgn_null_iff.
  destruct (dval a) as [n d]. unfold Qeq in H. simpl in *. lia.
Qed.
Lemma dSign_cases (a : D) :
  (dval a < 0 /\ dSign a = (-1)%Z) \/ (dval a == 0 /\ dSign a = 0%Z) \/ (0 < dval a /\ dSign a = 1%Z).
Proof.
  destruct (Qlt_le_dec (dval a) 0); [left; split; [done|by apply dSign_neg]|right].
  destruct (Qlt_le_dec 0 (dval a)); [right; split; [done|by apply dSign_pos]|left].
  assert (dval a == 0) by lra. split; [done|by apply dSign_zero].
Qed.

(** Printing and reading back a decimal keeps its value. *)
Lemma dNewFromString_String (a : D) :
  exists d, dNewFromString (dString a) = Some d /\ dval d == dval a.
Proof.
  destruct (dString_val a) as (q & Hq & E).
  destruct (dNewFromString_val _ _ Hq) as (d & Hd & E').
  exists d. split; [done|]. by rewrite E', E.
Qed.

Lemma dString_TrimSpace (a : D) : TrimSpace (dString a) = dString a.
Proof. destruct (dString_val a) as (q & Hq & _). by apply numeral_TrimSpace in Hq. Qed.
End Laws.

Create Rewrite HintDb dval.
#[export] Hint Rewrite @dZero_val @dNewFromInt_val @dAdd_val @dSub_val @dMul_val @dNeg_val
  @dAbs_val @dMin_val @dMax_val using typeclasses eauto : dval.

Ltac dec_val := autorewrite with dval in *.

Ltac dec_case1 :=
  match goal with
  | |- context [dIsPositive ?a] => destruct (dIsPositive_reflect a)
  | |- context [dIsNegative ?a] => destruct (dIsNegative_reflect a)
  | |- context [dIsZero ?a] => destruct (dIsZero_reflect a)
  | |- context [dEqual ?a ?b] => destruct (dEqual_reflect a b)
  | |- context [dLessThan ?a ?b] => destruct (dLessThan_reflect a b)
  | |- context [dLessThanOrEqual ?a ?b] => destruct (dLessThanOrEqual_reflect a b)
  | |- context [dGreaterThan ?a ?b] => destruct (dGreaterThan_reflect a b)
  | |- context [dGreaterThanOrEqual ?a ?b] => destruct (dGreaterThanOrEqual_reflect a b)
  | H : context [dIsPositive ?a] |- _ => destruct (dIsPositive_reflect a)
  | H : context [dIsNegative ?a] |- _ => destruct (dIsNegative_reflect a)
  | H : context [dIsZero ?a] |- _ => destruct (dIsZero_reflect a)
  | H : context [dEqual ?a ?b] |- _ => destruct (dEqual_reflect a b)
  | H : context [dLessThan ?a ?b] |- _ => destruct (dLessThan_reflect a b)
  | H : context [dLessThanOrEqual ?a ?b] |- _ => destruct (dLessThanOrEqual_reflect a b)
  | H : context [dGreaterThan ?a ?b] |- _ => destruct (dGreaterThan_reflect a b)
  | H : context [dGreaterThanOrEqual ?a ?b] |- _ => destruct (dGreaterThanOrEqual_reflect a b)
  end.
Ltac dec_cases := repeat (dec_case1; simpl in *; try discriminate).

Ltac qminmax1 :=
  match goal with
  | |- context [Qmin ?a ?b] => destruct (Q.min_spec_le a b) as [[? ->]|[? ->]]
  | |- context [Qmax ?a ?b] => destruct (Q.max_spec_le a b) as [[? ->]|[? ->]]
  | H : context [Qmin ?a ?b] |- _ =>
      destruct (Q.min_spec_le a b) as [[? Hm]|[? Hm]]; rewrite Hm in *; clear Hm
  | H : context [Qmax ?a ?b] |- _ =>
      destruct (Q.max_spec_le a b) as [[? Hm]|[? Hm]]; rewrite Hm in *; clear Hm
  end.
Ltac qabs1 :=
  match goal with
  | |- context [Qabs ?a] =>
      destruct (Qlt_le_dec a 0); [rewrite (Qabs_neg a) in * by lra|rewrite (Qabs_pos a) in * by lra]
  | H : context [Qabs ?a] |- _ =>
      destruct (Qlt_le_dec a 0); [rewrite (Qabs_neg a) in * by lra|rewrite (Qabs_pos a) in * by lra]
  end.

Ltac dec := dec_cases; dec_val; repeat qminmax1; repeat qabs1; try lra.
