(* ===== verification/DecimalRef.v ===== *)
(** * A concrete decimal type that meets the interface

    [Dec] is a coefficient and an exponent, with the operations computed on
    them exactly as the laws of [Decimal.v] ask.  It shows that the laws can
    hold and gives the concrete inputs of the witnesses a type to compute on;
    no theorem about the program depends on it. *)
From Stdlib Require Import ZArith QArith Qround Qabs Qminmax Qpower Lqa String Ascii.
From stdpp Require Import base strings list tactics.
From S2P Require Import Prelude Decimal.

Record Dec := mkDec { coef : Z; expo : Z }.

Definition dec_val (d : Dec) : Q := (inject_Z (coef d) * pow10 (expo d))%Q.

(** [coef d * 10 ^ (expo d - e)], the coefficient at a smaller exponent. *)
Definition rescale (d : Dec) (e : Z) : Z := coef d * 10 ^ (expo d - e).

Definition dec_lift (f : Z -> Z -> Z) (a b : Dec) : Dec :=
  let e := Z.min (expo a) (expo b) in mkDec (f (rescale a e) (rescale b e)) e.

Definition dec_of_int (q : Z) : Dec := mkDec q 0.

(** The nearest multiple of [10 ^ -16], a half away from zero. *)
Definition dec_div (a b : Dec) : Dec :=
  let q := qround 16 (dec_val a / dec_val b) in
  mkDec (Qfloor (q * pow10 16)) (- 16).

Definition dec_cmp (a b : Dec) : comparison :=
  let e := Z.min (expo a) (expo b) in Z.compare (rescale a e) (rescale b e).

(** Digits of a natural number, most significant first. *)
Fixpoint digits_acc (fuel : nat) (n : Z) (acc : string) : string :=
  let c := ascii_of_nat (48 + Z.to_nat (n mod 10)) in
  match fuel with
  | O => String c acc
  | S f => if n <? 10 then String c acc else digits_acc f (n / 10) (String c acc)
  end.

Definition digits_of (n : Z) : string := digits_acc (Z.to_nat (Z.log2 n)) n EmptyString.

(** Exactly [k] digits, most significant first. *)
Fixpoint padded (k : nat) (n : Z) (acc : string) : string :=
  match k with
  | O => acc
  | S k' => padded k' (n / 10) (String (ascii_of_nat (48 + Z.to_nat (n mod 10))) acc)
  end.

(** Trailing zeros after the point are dropped, as [String] does. *)
Fixpoint strip (fuel : nat) (m : Z) (k : Z) : Z * Z :=
  match fuel with
  | O => (m, k)
  | S f => if (0 <? k) && (m mod 10 =? 0) then strip f (m / 10) (k - 1) else (m, k)
  end.

Definition print_unsigned (m k : Z) : string :=
  if k <=? 0 then digits_of m
  else String.append (digits_of (m / 10 ^ k))
         (String (ascii_of_nat 46) (padded (Z.to_nat k) (m mod 10 ^ k) EmptyString)).

Definition dec_print (d : Dec) : string :=
  let m := if 0 <=? expo d then coef d * 10 ^ expo d else coef d in
  let k := Z.max 0 (- expo d) in
  let '(m, k) := strip (Z.to_nat k) m k in
  if m <? 0 then String (ascii_of_nat 45) (print_unsigned (- m) k) else print_unsigned m k.

Definition dec_parse (s : string) : option Dec :=
  match parse_numeral s with
  | Some (m, k) => Some (mkDec m (- k))
  | None => None
  end.

#[export] Instance Dec_Decimal : Decimal Dec := {|
  dZero := mkDec 0 1;
  dNewFromString := dec_parse;
  dString := dec_print;
  dNewFromInt := dec_of_int;
  dNew c e := mkDec c e;
  dNewFromBigInt c e := mkDec c e;
  dCoefficient := coef;
  dExponent := expo;
  dNumDigits d := Z.of_nat (String.length (digits_of (Z.abs (coef d))));
  dAdd := dec_lift Z.add;
  dSub := dec_lift Z.sub;
  dMul a b := mkDec (coef a * coef b) (expo a + expo b);
  dDiv := dec_div;
  dMod a b := dec_lift (fun x y => x - y * qtrunc (dec_val a / dec_val b)) a b;
  dNeg a := mkDec (- coef a) (expo a);
  dAbs a := mkDec (Z.abs (coef a)) (expo a);
  dFloor a := dec_of_int (Qfloor (dec_val a));
  dCeil a := dec_of_int (Qceiling (dec_val a));
  dTruncate0 a := dec_of_int (qtrunc (dec_val a));
  dMin a b := match dec_cmp a b with Gt => b | _ => a end;
  dMax a b := match dec_cmp a b with Lt => b | _ => a end;
  dSign a := Z.sgn (coef a);
  dIsPositive a := 0 <? coef a;
  dIsNegative a := coef a <? 0;
  dIsZero a := coef a =? 0;
  dEqual a b := match dec_cmp a b with Eq => true | _ => false end;
  dLessThan a b := match dec_cmp a b with Lt => true | _ => false end;
  dLessThanOrEqual a b := match dec_cmp a b with Gt => false | _ => true end;
  dGreaterThan a b := match dec_cmp a b with Gt => true | _ => false end;
  dGreaterThanOrEqual a b := match dec_cmp a b with Lt => false | _ => true end
|}.

Example print_examples :
  map dec_print [mkDec 1250 (-2); mkDec (-5) (-3); mkDec 7 2; mkDec 0 1]
  = ["12.5"; "-0.005"; "700"; "0"]%string
  /\ dec_parse "-12.50" = Some (mkDec (-1250) (-2))
  /\ dec_print (dec_div (dec_of_int 2) (dec_of_int 3)) = "0.6666666666666667"%string.
Proof. vm_compute. auto. Qed.

(** ** Values of the operations *)

Lemma pow10_split (a b : Z) : (pow10 a == pow10 (a - b) * pow10 b)%Q.
Proof. rewrite <- pow10_plus. by replace (a - b + b) with a by lia. Qed.

Lemma rescale_val (d : Dec) (e : Z) :
  e <= expo d -> (dec_val d == inject_Z (rescale d e) * pow10 e)%Q.
Proof.
  intros H. unfold dec_val, rescale. rewrite inject_Z_mult.
  rewrite (pow10_split (expo d) e), (pow10_Z (expo d - e)) by lia. ring.
Qed.

Lemma dec_lift_val f (g : Q -> Q -> Q) (a b : Dec) :
  (forall x y e, inject_Z (f x y) * pow10 e == g (inject_Z x * pow10 e) (inject_Z y * pow10 e))%Q ->
  Proper (Qeq ==> Qeq ==> Qeq) g ->
  (dec_val (dec_lift f a b) == g (dec_val a) (dec_val b))%Q.
Proof.
  intros Hf Hg. set (e := Z.min (expo a) (expo b)).
  rewrite (rescale_val a e), (rescale_val b e) by lia. apply Hf.
Qed.

Lemma dec_cmp_val (a b : Dec) : dec_cmp a b = Qcompare (dec_val a) (dec_val b).
Proof.
  unfold dec_cmp. set (e := Z.min (expo a) (expo b)).
  rewrite (rescale_val a e), (rescale_val b e) by lia.
  pose proof (pow10_pos e) as Hp.
  destruct (Z.compare_spec (rescale a e) (rescale b e)) as [H|H|H]; symmetry.
  - rewrite H. by apply Qeq_alt.
  - apply Qlt_alt. apply Qmult_lt_r; [done|]. by rewrite <- Zlt_Qlt.
  - apply Qgt_alt. apply Qmult_lt_r; [done|]. by rewrite <- Zlt_Qlt.
Qed.

Lemma dec_div_val (a b : Dec) :
  (dec_val (dec_div a b) == qround 16 (dec_val a / dec_val b))%Q.
Proof.
  unfold dec_div, dec_val at 1. cbn [coef expo].
  set (q := (dec_val a / dec_val b)%Q). clearbody q.
  assert (exists n, qround 16 q * pow10 16 == inject_Z n)%Q as [n Hn].
  { pose proof (pow10_pos 16). unfold qround; cbv zeta. destruct (Qle_bool 0 q).
    - exists (Qfloor (Qabs q * pow10 16 + (1 # 2))). field. lra.
    - exists (- Qfloor (Qabs q * pow10 16 + (1 # 2))). rewrite inject_Z_opp. field. lra. }
  assert (Qfloor (qround 16 q * pow10 16) = n) as ->.
  { rewrite Hn. apply Qfloor_Z. }
  rewrite <- Hn, <- Qmult_assoc, <- pow10_plus. change (pow10 (16 + -16)) with 1%Q. ring.
Qed.

Lemma dec_val_sgn (d : Dec) :
  (dec_val d < 0 <-> (coef d < 0)%Z)%Q /\ (dec_val d == 0 <-> coef d = 0%Z)%Q
  /\ (0 < dec_val d <-> (0 < coef d)%Z)%Q.
Proof.
  unfold dec_val. pose proof (pow10_pos (expo d)) as Hp.
  assert (forall c, (coef d < c)%Z <-> inject_Z (coef d) < inject_Z c)%Q as H1
    by (intros; by rewrite <- Zlt_Qlt).
  assert (forall c, (c < coef d)%Z <-> inject_Z c < inject_Z (coef d))%Q as H2
    by (intros; by rewrite <- Zlt_Qlt).
  specialize (H1 0). specialize (H2 0). change (inject_Z 0) with 0%Q in *.
  set (c := inject_Z (coef d)) in *. set (p := pow10 (expo d)) in *.
  assert (c * p < 0 <-> c < 0)%Q as Hn by (split; intros; nra).
  assert (0 < c * p <-> 0 < c)%Q as Hpos by (split; intros; nra).
  split_and!; [tauto| |tauto].
  split; intros H; [|unfold c; rewrite H; reflexivity].
  destruct (Z.lt_trichotomy (coef d) 0) as [L|[L|L]]; [|done|]; exfalso.
  - apply H1, Hn in L. lra.
  - apply H2, Hpos in L. lra.
Qed.

(** ** Printing and reading *)

#[local] Arguments ascii_of_nat : simpl never.
#[local] Arguments digit_value : simpl never.
#[local] Arguments Z.modulo : simpl never.
#[local] Arguments Z.div : simpl never.
#[local] Arguments Z.pow : simpl never.
#[local] Arguments Nat.add : simpl never.

Lemma digit_value_of (d : Z) : 0 <= d < 10 -> digit_value (ascii_of_nat (48 + Z.to_nat d)) = Some d.
Proof.
  intros H.
  assert (d = 0 \/ d = 1 \/ d = 2 \/ d = 3 \/ d = 4 \/ d = 5 \/ d = 6 \/ d = 7 \/ d = 8 \/ d = 9)
    as Hd by lia.
  by destruct_or! Hd; subst.
Qed.

Lemma parse_int_digit (acc d : Z) (tail : string) :
  0 <= d < 10 ->
  parse_int acc (String (ascii_of_nat (48 + Z.to_nat d)) tail) = parse_int (10 * acc + d) tail.
Proof. intros H. cbn [parse_int]. by rewrite digit_value_of. Qed.

Lemma parse_int_digits (f : nat) : forall n tail,
  0 <= n < 10 ^ Z.of_nat (S f) -> parse_int 0 (digits_acc f n tail) = parse_int n tail.
Proof.
  induction f as [|f IH]; intros n tail Hn; cbn [digits_acc].
  - rewrite parse_int_digit by (apply Z.mod_pos_bound; lia).
    rewrite Z.mod_small by (change (10 ^ Z.of_nat 1) with 10 in Hn; lia). f_equal; lia.
  - destruct (Z.ltb_spec n 10) as [H|H].
    + rewrite parse_int_digit by (apply Z.mod_pos_bound; lia).
      rewrite Z.mod_small by lia. f_equal; lia.
    + rewrite IH.
      * rewrite parse_int_digit by (apply Z.mod_pos_bound; lia).
        f_equal. pose proof (Z.div_mod n 10). lia.
      * split; [apply Z.div_pos; lia|]. apply Z.div_lt_upper_bound; [lia|].
        rewrite <- Z.pow_succ_r by lia.
        replace (Z.succ (Z.of_nat (S f))) with (Z.of_nat (S (S f))) by lia. apply Hn.
Qed.

Lemma digits_acc_head (f : nat) : forall n tail,
  exists c r, digits_acc f n tail = String c r /\ is_Some (digit_value c).
Proof.
  assert (forall n, is_Some (digit_value (ascii_of_nat (48 + Z.to_nat (n mod 10))))) as Hd.
  { intros n. rewrite digit_value_of by (apply Z.mod_pos_bound; lia). done. }
  induction f as [|f IH]; intros n tail; cbn [digits_acc]; [eauto|].
  destruct (n <? 10); [eauto|apply IH].
Qed.

Lemma log2_pow10 (n : Z) : 0 <= n -> n < 10 ^ Z.of_nat (S (Z.to_nat (Z.log2 n))).
Proof.
  intros H. rewrite Nat2Z.inj_succ, Z2Nat.id by apply Z.log2_nonneg.
  destruct (Z.eq_dec n 0) as [->|Hn]; [reflexivity|].
  pose proof (Z.log2_spec n ltac:(lia)) as [_ Hlt].
  eapply Z.lt_le_trans; [exact Hlt|]. apply Z.pow_le_mono_l. lia.
Qed.

Lemma parse_unsigned_digits (n : Z) (tail : string) :
  0 <= n -> parse_unsigned (digits_acc (Z.to_nat (Z.log2 n)) n tail) = parse_int n tail.
Proof.
  intros Hn.
  rewrite <- (parse_int_digits (Z.to_nat (Z.log2 n)) n tail)
    by (split; [done|by apply log2_pow10]).
  destruct (digits_acc_head (Z.to_nat (Z.log2 n)) n tail) as (c & r & -> & [d Hd]).
  cbn [parse_unsigned parse_int]. rewrite Hd. f_equal; lia.
Qed.

Lemma digits_acc_append (tail : string) (f : nat) : forall n acc,
  String.append (digits_acc f n acc) tail = digits_acc f n (String.append acc tail).
Proof.
  induction f as [|f IH]; intros m acc; cbn [digits_acc]; [done|].
  destruct (m <? 10); [done|]. by rewrite IH.
Qed.

Lemma parse_frac_padded (k : nat) : forall acc j n tail,
  parse_frac acc j (padded k n tail)
  = parse_frac (acc * 10 ^ Z.of_nat k + n mod 10 ^ Z.of_nat k) (j + Z.of_nat k) tail.
Proof.
  induction k as [|k IH]; intros acc j n tail; cbn [padded].
  - change (10 ^ Z.of_nat 0) with 1. rewrite Z.mod_1_r. f_equal; lia.
  - rewrite IH. cbn [parse_frac]. rewrite digit_value_of by (apply Z.mod_pos_bound; lia).
    replace (10 ^ Z.of_nat (S k)) with (10 * 10 ^ Z.of_nat k)
      by (rewrite Nat2Z.inj_succ, Z.pow_succ_r by lia; done).
    rewrite (Z.rem_mul_r n 10 (10 ^ Z.of_nat k)) by lia. f_equal; lia.
Qed.

Lemma padded_nonempty (k : nat) (n : Z) : forall acc, acc <> EmptyString -> padded k n acc <> EmptyString.
Proof. revert n. induction k as [|k IH]; intros n acc H; cbn [padded]; [done|]. by apply IH. Qed.

Lemma parse_print_unsigned (m k : Z) :
  0 <= m -> 0 <= k -> parse_unsigned (print_unsigned m k) = Some (m, k).
Proof.
  intros Hm Hk. unfold print_unsigned. destruct (Z.leb_spec k 0) as [H|H].
  - replace k with 0 by lia. unfold digits_of. by rewrite parse_unsigned_digits.
  - unfold digits_of. rewrite digits_acc_append.
    change (String.append EmptyString ?x) with x.
    rewrite parse_unsigned_digits by (apply Z.div_pos; lia).
    cbn [parse_int]. change (digit_value (ascii_of_nat 46)) with (@None Z).
    change (Ascii.eqb (ascii_of_nat 46) (ascii_of_nat 46)) with true. cbv iota.
    assert (padded (Z.to_nat k) (m mod 10 ^ k) EmptyString <> EmptyString) as Hne.
    { replace (Z.to_nat k) with (S (Z.to_nat (k - 1))) by lia.
      cbn [padded]. apply padded_nonempty. discriminate. }
    destruct (padded (Z.to_nat k) (m mod 10 ^ k) EmptyString) as [|c r] eqn:E; [done|].
    rewrite <- E, parse_frac_padded. cbn [parse_frac]. rewrite Z2Nat.id by lia.
    rewrite Z.mod_mod by lia.
    pose proof (Z.div_mod m (10 ^ k) ltac:(apply Z.pow_nonzero; lia)) as Hdm.
    repeat f_equal; lia.
Qed.

Lemma strip_val (f : nat) : forall m k m' k',
  strip f m k = (m', k') -> 0 <= k ->
  0 <= k' /\ (inject_Z m * pow10 (- k) == inject_Z m' * pow10 (- k'))%Q.
Proof.
  induction f as [|f IH]; intros m k m' k'; cbn [strip]; [by intros [= <- <-] ?|].
  destruct ((0 <? k) && (m mod 10 =? 0)) eqn:E; [|by intros [= <- <-] ?].
  intros H Hk. bool_to_prop. apply IH in H as [Hk' <-]; [|lia]. split; [done|].
  assert (m = m / 10 * 10) as Hm by (pose proof (Z.div_mod m 10); lia).
  rewrite Hm at 1. rewrite inject_Z_mult.
  replace (- k) with (- (1) + - (k - 1)) by lia. rewrite pow10_plus.
  change (pow10 (- (1))) with (1 # 10)%Q. change (inject_Z 10) with (10 # 1)%Q. ring.
Qed.

Lemma print_unsigned_head (m k : Z) :
  exists c r, print_unsigned m k = String c r /\ is_Some (digit_value c).
Proof.
  unfold print_unsigned, digits_of. destruct (k <=? 0); [apply digits_acc_head|].
  rewrite digits_acc_append. apply digits_acc_head.
Qed.

Lemma parse_numeral_print (m k : Z) :
  0 <= k -> parse_numeral (if m <? 0 then String (ascii_of_nat 45) (print_unsigned (- m) k)
                           else print_unsigned m k) = Some (m, k).
Proof.
  intros Hk. destruct (Z.ltb_spec m 0) as [H|H].
  - cbn [parse_numeral]. change (Ascii.eqb (ascii_of_nat 45) (ascii_of_nat 45)) with true.
    cbv iota. rewrite parse_print_unsigned by lia. by rewrite Z.opp_involutive.
  - destruct (print_unsigned_head m k) as (c & r & E & [d Hd]).
    rewrite <- (parse_print_unsigned m k) by lia. rewrite E. cbn [parse_numeral].
    destruct (Ascii.eqb_spec c (ascii_of_nat 45)) as [->|_]; [discriminate|].
    destruct (Ascii.eqb_spec c (ascii_of_nat 43)) as [->|_]; [discriminate|done].
Qed.

Lemma numeral_value_print (d : Dec) :
  exists q, numeral_value (dec_print d) = Some q /\ (q == dec_val d)%Q.
Proof.
  unfold dec_print. set (m := if 0 <=? expo d then _ else _). set (k := Z.max 0 (- expo d)).
  destruct (strip (Z.to_nat k) m k) as [m' k'] eqn:E.
  apply strip_val in E as [Hk' E]; [|lia].
  unfold numeral_value. rewrite parse_numeral_print by done.
  eexists. split; [done|]. rewrite <- E. unfold dec_val, m, k.
  destruct (Z.leb_spec 0 (expo d)) as [H|H].
  - rewrite Z.max_l by lia. rewrite inject_Z_mult, (pow10_Z (expo d)) by done.
    change (pow10 (- 0)) with 1%Q. ring.
  - rewrite Z.max_r by lia. by rewrite Z.opp_involutive.
Qed.

(** ** The laws hold *)

Lemma dec_cmp_cases (a b : Dec) :
  (dec_cmp a b = Lt /\ (dec_val a < dec_val b)%Q) \/ (dec_cmp a b = Eq /\ (dec_val a == dec_val b)%Q)
  \/ (dec_cmp a b = Gt /\ (dec_val b < dec_val a)%Q).
Proof.
  rewrite dec_cmp_val. destruct (Qcompare (dec_val a) (dec_val b)) eqn:E.
  - right; left. split; [done|]. by apply Qeq_alt.
  - left. split; [done|]. by apply Qlt_alt.
  - right; right. split; [done|]. by apply Qgt_alt.
Qed.

(** Closes the laws of the comparisons and of [Min] and [Max]. *)
Ltac by_cmp a b :=
  change (@dval Dec Dec_Decimal) with dec_val in *; cbn;
  destruct (dec_cmp_cases a b) as [[-> ?]|[[-> ?]|[-> ?]]];
  first [split; [intros; first [discriminate|lra]|intros; first [done|lra]]
        |repeat qminmax1; lra].

Ltac by_sgn a :=
  change (@dval Dec Dec_Decimal) with dec_val in *; cbn;
  pose proof (dec_val_sgn a) as (?&?&?).

Lemma dec_sign_val (a : Dec) : Z.sgn (coef a) = Z.sgn (Qnum (dec_val a)).
Proof.
  unfold dec_val, Qmult. simpl. rewrite Z.sgn_mul.
  assert (0 < Qnum (pow10 (expo a))) as H.
  { pose proof (pow10_pos (expo a)) as H. unfold Qlt in H. simpl in H. lia. }
  rewrite (Z.sgn_pos (Qnum _)) by done. lia.
Qed.

#[export] Instance Dec_DecimalLaws : DecimalLaws Dec.
Proof.
  constructor; intros; change (@dval Dec Dec_Decimal) with dec_val in *.
  - reflexivity.
  - unfold dec_val. simpl. change (pow10 0) with 1%Q. ring.
  - reflexivity.
  - reflexivity.
  - apply (dec_lift_val Z.add Qplus); [|apply _]. intros. rewrite inject_Z_plus. ring.
  - apply (dec_lift_val Z.sub Qminus); [|apply _].
    intros x y e. unfold Z.sub. rewrite inject_Z_plus, inject_Z_opp. ring.
  - unfold dec_val. simpl. rewrite inject_Z_mult, pow10_plus. ring.
  - apply dec_div_val.
  - simpl. set (n := qtrunc _).
    apply (dec_lift_val (fun x y => x - y * n)%Z (fun p q => p - q * inject_Z n)%Q).
    + intros x y e. unfold Z.sub. rewrite inject_Z_plus, inject_Z_opp, inject_Z_mult. ring.
    + intros p p' Hp q q' Hq. by rewrite Hp, Hq.
  - unfold dec_val. simpl. rewrite inject_Z_opp. ring.
  - unfold dec_val. cbn [dAbs Dec_Decimal coef expo]. rewrite Qabs_Qmult.
    rewrite (Qabs_pos (pow10 (expo a))) by (apply Qlt_le_weak, pow10_pos). reflexivity.
  - unfold dec_val at 1. simpl. change (pow10 0) with 1%Q. ring.
  - unfold dec_val at 1. simpl. change (pow10 0) with 1%Q. ring.
  - unfold dec_val at 1. simpl. change (pow10 0) with 1%Q. ring.
  - by_cmp a b.
  - by_cmp a b.
  - apply dec_sign_val.
  - by_sgn a. rewrite Z.ltb_lt. tauto.
  - by_sgn a. rewrite Z.ltb_lt. tauto.
  - by_sgn a. rewrite Z.eqb_eq. tauto.
  - by_cmp a b.
  - by_cmp a b.
  - by_cmp a b.
  - by_cmp a b.
  - by_cmp a b.
  - apply numeral_value_print.
  - unfold numeral_value in H. simpl. unfold dec_parse.
    destruct (parse_numeral s) as [[m k]|]; [|done]. injection H as <-.
    eexists. split; [done|]. reflexivity.
  - reflexivity.
Qed.
