(* ===== verification/Types.v ===== *)
(** * The data of the trader service

    One record per Go struct, with the struct's fields in order under a short
    prefix ([i_] Instrument, [vi_] the venue adapters' Instrument, [o_] Order,
    [c_] ArbitrageCombination, [x_] ArbitrageExecution, [l_] ArbitrageLeg,
    [b_] BBO, [t_] TwapJob, ...), an [Eta] instance for field updates and the
    struct's zero value.  Amounts are the decimal numerals the structs store as
    strings.  [Metadata] lists the entries of the Go map in the order one
    iteration visits them; a value that is not a string carries the text
    [fmt.Sprint] gives it. *)
From Stdlib Require Import ZArith String.
From stdpp Require Import base strings list.
From S2P Require Import Prelude.

Inductive MetaValue :=
| MetaString (s : string)
| MetaNil
| MetaOther (sprint : string).
Definition Metadata : Type := list (string * MetaValue).

(** [VenueReference], exchange/types.go. *)
Record VenueReference := mkVenueReference {
  vr_ClientOrderID : string;
  vr_VenueOrderID : string;
  vr_Cloid : string;
  vr_TxHash : string;
  vr_Nonce : Z;
  vr_AccountIndex : Z;
  vr_APIKeyIndex : Z;
  vr_ClientOrderIndex : Z;
  vr_EventAt : GoTime;
  vr_ReconcileStatus : string
}.
#[export] Instance eta_VenueReference : Eta VenueReference := fun r =>
  mkVenueReference (r.(vr_ClientOrderID)) (r.(vr_VenueOrderID)) (r.(vr_Cloid)) (r.(vr_TxHash)) (r.(vr_Nonce))
    (r.(vr_AccountIndex)) (r.(vr_APIKeyIndex)) (r.(vr_ClientOrderIndex)) (r.(vr_EventAt))
    (r.(vr_ReconcileStatus)).
Definition zero_VenueReference : VenueReference :=
  mkVenueReference EmptyString EmptyString EmptyString EmptyString 0 0 0 0 zeroTime EmptyString.

(** [Instrument], types.go. *)
Record Instrument := mkInstrument {
  i_ID : Z;
  i_Exchange : string;
  i_ContractType : string;
  i_ExchangeSymbol : string;
  i_BaseAsset : string;
  i_QuoteAsset : string;
  i_SettleAsset : string;
  i_ContractSize : string;
  i_PriceTick : string;
  i_QuantityStep : string;
  i_MinQuantity : string;
  i_MinNotional : string;
  i_MinQuantityStatus : string;
  i_MinNotionalStatus : string;
  i_MaxQuantity : string;
  i_MarketQuantityStep : string;
  i_MarketMinQuantity : string;
  i_MarketMaxQuantity : string;
  i_MarketMinNotional : string;
  i_MaxQuantityStatus : string;
  i_MarketQuantityStepStatus : string;
  i_MarketMinQuantityStatus : string;
  i_MarketMaxQuantityStatus : string;
  i_MarketMinNotionalStatus : string;
  i_Metadata : Metadata
}.
#[export] Instance eta_Instrument : Eta Instrument := fun r =>
  mkInstrument (r.(i_ID)) (r.(i_Exchange)) (r.(i_ContractType)) (r.(i_ExchangeSymbol)) (r.(i_BaseAsset))
    (r.(i_QuoteAsset)) (r.(i_SettleAsset)) (r.(i_ContractSize)) (r.(i_PriceTick))
    (r.(i_QuantityStep)) (r.(i_MinQuantity)) (r.(i_MinNotional)) (r.(i_MinQuantityStatus))
    (r.(i_MinNotionalStatus)) (r.(i_MaxQuantity)) (r.(i_MarketQuantityStep))
    (r.(i_MarketMinQuantity)) (r.(i_MarketMaxQuantity)) (r.(i_MarketMinNotional))
    (r.(i_MaxQuantityStatus)) (r.(i_MarketQuantityStepStatus)) (r.(i_MarketMinQuantityStatus))
    (r.(i_MarketMaxQuantityStatus)) (r.(i_MarketMinNotionalStatus)) (r.(i_Metadata)).
Definition zero_Instrument : Instrument :=
  mkInstrument 0 EmptyString EmptyString EmptyString EmptyString EmptyString EmptyString EmptyString
    EmptyString EmptyString EmptyString EmptyString EmptyString EmptyString EmptyString
    EmptyString EmptyString EmptyString EmptyString EmptyString EmptyString EmptyString
    EmptyString EmptyString [].

(** [Instrument], exchange/types.go. *)
Record VenueInstrument := mkVenueInstrument {
  vi_Exchange : string;
  vi_ContractType : string;
  vi_ExchangeSymbol : string;
  vi_BaseAsset : string;
  vi_QuoteAsset : string;
  vi_SettleAsset : string;
  vi_ContractSize : string;
  vi_PriceTick : string;
  vi_QuantityStep : string;
  vi_MinQuantity : string;
  vi_MinNotional : string;
  vi_MinQuantityStatus : string;
  vi_MinNotionalStatus : string;
  vi_MaxQuantity : string;
  vi_MarketQuantityStep : string;
  vi_MarketMinQuantity : string;
  vi_MarketMaxQuantity : string;
  vi_MarketMinNotional : string;
  vi_MaxQuantityStatus : string;
  vi_MarketQuantityStepStatus : string;
  vi_MarketMinQuantityStatus : string;
  vi_MarketMaxQuantityStatus : string;
  vi_MarketMinNotionalStatus : string;
  vi_Metadata : Metadata
}.
#[export] Instance eta_VenueInstrument : Eta VenueInstrument := fun r =>
  mkVenueInstrument (r.(vi_Exchange)) (r.(vi_ContractType)) (r.(vi_ExchangeSymbol)) (r.(vi_BaseAsset))
    (r.(vi_QuoteAsset)) (r.(vi_SettleAsset)) (r.(vi_ContractSize)) (r.(vi_PriceTick))
    (r.(vi_QuantityStep)) (r.(vi_MinQuantity)) (r.(vi_MinNotional)) (r.(vi_MinQuantityStatus))
    (r.(vi_MinNotionalStatus)) (r.(vi_MaxQuantity)) (r.(vi_MarketQuantityStep))
    (r.(vi_MarketMinQuantity)) (r.(vi_MarketMaxQuantity)) (r.(vi_MarketMinNotional))
    (r.(vi_MaxQuantityStatus)) (r.(vi_MarketQuantityStepStatus))
    (r.(vi_MarketMinQuantityStatus)) (r.(vi_MarketMaxQuantityStatus))
    (r.(vi_MarketMinNotionalStatus)) (r.(vi_Metadata)).
Definition zero_VenueInstrument : VenueInstrument :=
  mkVenueInstrument EmptyString EmptyString EmptyString EmptyString EmptyString EmptyString EmptyString
    EmptyString EmptyString EmptyString EmptyString EmptyString EmptyString EmptyString
    EmptyString EmptyString EmptyString EmptyString EmptyString EmptyString EmptyString
    EmptyString EmptyString [].

(** [OrderActualFee], types.go. *)
Record OrderActualFee := mkOrderActualFee {
  af_Amount : string;
  af_Currency : string
}.
#[export] Instance eta_OrderActualFee : Eta OrderActualFee := fun r =>
  mkOrderActualFee (r.(af_Amount)) (r.(af_Currency)).
Definition zero_OrderActualFee : OrderActualFee :=
  mkOrderActualFee EmptyString EmptyString.

(** [Order], types.go. *)
Record Order := mkOrder {
  o_ID : string;
  o_IdempotencyKey : string;
  o_OwnerUsername : string;
  o_TradingAccountID : Z;
  o_ProductName : string;
  o_Exchange : string;
  o_InstrumentID : Z;
  o_ContractType : string;
  o_ExchangeSymbol : string;
  o_BaseAsset : string;
  o_QuoteAsset : string;
  o_ClientOrderID : string;
  o_VenueOrderID : string;
  o_Side : string;
  o_OrderType : string;
  o_Quantity : string;
  o_Price : string;
  o_FilledQuantity : string;
  o_AveragePrice : string;
  o_Status : string;
  o_ErrorCode : string;
  o_ErrorMessage : string;
  o_RequestFingerprint : string;
  o_CreatedAt : GoTime;
  o_UpdatedAt : GoTime;
  o_LastReconciledAt : GoTime;
  o_LastStreamEventAt : GoTime;
  o_LastVenueEventAt : GoTime;
  o_SyncState : string;
  o_ReconcileFailures : Z;
  o_TwapJobID : string;
  o_TwapSliceIndex : Z;
  o_TwapAttemptIndex : Z;
  o_ArbitrageExecutionID : string;
  o_ArbitrageLeg : string;
  o_ArbitrageRole : string;
  o_ReduceOnly : bool;
  o_AbsenceConfirmations : Z;
  o_LastFilledAt : GoTime;
  o_ActualFees : list OrderActualFee;
  o_LiquidityRole : string
}.
#[export] Instance eta_Order : Eta Order := fun r =>
  mkOrder (r.(o_ID)) (r.(o_IdempotencyKey)) (r.(o_OwnerUsername)) (r.(o_TradingAccountID))
    (r.(o_ProductName)) (r.(o_Exchange)) (r.(o_InstrumentID)) (r.(o_ContractType))
    (r.(o_ExchangeSymbol)) (r.(o_BaseAsset)) (r.(o_QuoteAsset)) (r.(o_ClientOrderID))
    (r.(o_VenueOrderID)) (r.(o_Side)) (r.(o_OrderType)) (r.(o_Quantity)) (r.(o_Price))
    (r.(o_FilledQuantity)) (r.(o_AveragePrice)) (r.(o_Status)) (r.(o_ErrorCode))
    (r.(o_ErrorMessage)) (r.(o_RequestFingerprint)) (r.(o_CreatedAt)) (r.(o_UpdatedAt))
    (r.(o_LastReconciledAt)) (r.(o_LastStreamEventAt)) (r.(o_LastVenueEventAt))
    (r.(o_SyncState)) (r.(o_ReconcileFailures)) (r.(o_TwapJobID)) (r.(o_TwapSliceIndex))
    (r.(o_TwapAttemptIndex)) (r.(o_ArbitrageExecutionID)) (r.(o_ArbitrageLeg))
    (r.(o_ArbitrageRole)) (r.(o_ReduceOnly)) (r.(o_AbsenceConfirmations)) (r.(o_LastFilledAt))
    (r.(o_ActualFees)) (r.(o_LiquidityRole)).
Definition zero_Order : Order :=
  mkOrder EmptyString EmptyString EmptyString 0 EmptyString EmptyString 0 EmptyString EmptyString
    EmptyString EmptyString EmptyString EmptyString EmptyString EmptyString EmptyString
    EmptyString EmptyString EmptyString EmptyString EmptyString EmptyString EmptyString
    zeroTime zeroTime zeroTime zeroTime zeroTime EmptyString 0 EmptyString 0 0 EmptyString
    EmptyString EmptyString false 0 zeroTime [] EmptyString.

(** [PlaceOrderInput], types.go. *)
Record PlaceOrderInput := mkPlaceOrderInput {
  pi_Token : string;
  pi_TradingAccountID : Z;
  pi_InstrumentID : Z;
  pi_Side : string;
  pi_OrderType : string;
  pi_Quantity : string;
  pi_Price : string;
  pi_IdempotencyKey : string
}.
#[export] Instance eta_PlaceOrderInput : Eta PlaceOrderInput := fun r =>
  mkPlaceOrderInput (r.(pi_Token)) (r.(pi_TradingAccountID)) (r.(pi_InstrumentID)) (r.(pi_Side))
    (r.(pi_OrderType)) (r.(pi_Quantity)) (r.(pi_Price)) (r.(pi_IdempotencyKey)).
Definition zero_PlaceOrderInput : PlaceOrderInput :=
  mkPlaceOrderInput EmptyString 0 0 EmptyString EmptyString EmptyString EmptyString EmptyString.

(** [Result], exchange/types.go. *)
Record VenueResult := mkVenueResult {
  r_VenueOrderID : string;
  r_Status : string;
  r_FilledQuantity : string;
  r_AveragePrice : string;
  r_ErrorCode : string;
  r_ErrorMessage : string;
  r_Raw : Metadata;
  r_Reference : VenueReference;
  r_LocalCommandAck : bool
}.
#[export] Instance eta_VenueResult : Eta VenueResult := fun r =>
  mkVenueResult (r.(r_VenueOrderID)) (r.(r_Status)) (r.(r_FilledQuantity)) (r.(r_AveragePrice))
    (r.(r_ErrorCode)) (r.(r_ErrorMessage)) (r.(r_Raw)) (r.(r_Reference))
    (r.(r_LocalCommandAck)).
Definition zero_VenueResult : VenueResult :=
  mkVenueResult EmptyString EmptyString EmptyString EmptyString EmptyString EmptyString []
    zero_VenueReference false.

(** [OrderResolution], exchange/types.go. *)
Record OrderResolution := mkOrderResolution {
  or_Result : VenueResult;
  or_Found : bool;
  or_Active : bool;
  or_ConfirmedAbsent : bool
}.
#[export] Instance eta_OrderResolution : Eta OrderResolution := fun r =>
  mkOrderResolution (r.(or_Result)) (r.(or_Found)) (r.(or_Active)) (r.(or_ConfirmedAbsent)).
Definition zero_OrderResolution : OrderResolution :=
  mkOrderResolution zero_VenueResult false false false.

(** [OrderFill], types.go. *)
Record OrderFill := mkOrderFill {
  of_TradeID : string;
  of_Quantity : string;
  of_Price : string;
  of_ExecutedAt : GoTime;
  of_FeeAmount : string;
  of_FeeCurrency : string;
  of_LiquidityRole : string
}.
#[export] Instance eta_OrderFill : Eta OrderFill := fun r =>
  mkOrderFill (r.(of_TradeID)) (r.(of_Quantity)) (r.(of_Price)) (r.(of_ExecutedAt)) (r.(of_FeeAmount))
    (r.(of_FeeCurrency)) (r.(of_LiquidityRole)).
Definition zero_OrderFill : OrderFill :=
  mkOrderFill EmptyString EmptyString EmptyString zeroTime EmptyString EmptyString EmptyString.

(** [TwapJob], types.go. *)
Record TwapJob := mkTwapJob {
  t_ID : string;
  t_IdempotencyKey : string;
  t_RequestFingerprint : string;
  t_OwnerUsername : string;
  t_TradingAccountID : Z;
  t_ProductName : string;
  t_Exchange : string;
  t_InstrumentID : Z;
  t_ContractType : string;
  t_ExchangeSymbol : string;
  t_BaseAsset : string;
  t_QuoteAsset : string;
  t_Side : string;
  t_TotalQuantity : string;
  t_FilledQuantity : string;
  t_AveragePrice : string;
  t_StartAt : GoTime;
  t_EndAt : GoTime;
  t_IntervalSeconds : Z;
  t_LimitPrice : string;
  t_MaxQuantity : string;
  t_ExecutionType : string;
  t_OrderTimeoutSeconds : Z;
  t_Status : string;
  t_CurrentSlice : Z;
  t_CurrentAttempt : Z;
  t_NextActionAt : GoTime;
  t_ActiveOrderID : string;
  t_SchedulerLeaseUntil : GoTime;
  t_SchedulerFailures : Z;
  t_ErrorMessage : string;
  t_CreatedAt : GoTime;
  t_UpdatedAt : GoTime;
  t_StartedAt : GoTime;
  t_ClosedAt : GoTime
}.
#[export] Instance eta_TwapJob : Eta TwapJob := fun r =>
  mkTwapJob (r.(t_ID)) (r.(t_IdempotencyKey)) (r.(t_RequestFingerprint)) (r.(t_OwnerUsername))
    (r.(t_TradingAccountID)) (r.(t_ProductName)) (r.(t_Exchange)) (r.(t_InstrumentID))
    (r.(t_ContractType)) (r.(t_ExchangeSymbol)) (r.(t_BaseAsset)) (r.(t_QuoteAsset))
    (r.(t_Side)) (r.(t_TotalQuantity)) (r.(t_FilledQuantity)) (r.(t_AveragePrice))
    (r.(t_StartAt)) (r.(t_EndAt)) (r.(t_IntervalSeconds)) (r.(t_LimitPrice))
    (r.(t_MaxQuantity)) (r.(t_ExecutionType)) (r.(t_OrderTimeoutSeconds)) (r.(t_Status))
    (r.(t_CurrentSlice)) (r.(t_CurrentAttempt)) (r.(t_NextActionAt)) (r.(t_ActiveOrderID))
    (r.(t_SchedulerLeaseUntil)) (r.(t_SchedulerFailures)) (r.(t_ErrorMessage))
    (r.(t_CreatedAt)) (r.(t_UpdatedAt)) (r.(t_StartedAt)) (r.(t_ClosedAt)).
Definition zero_TwapJob : TwapJob :=
  mkTwapJob EmptyString EmptyString EmptyString EmptyString 0 EmptyString EmptyString 0 EmptyString
    EmptyString EmptyString EmptyString EmptyString EmptyString EmptyString EmptyString
    zeroTime zeroTime 0 EmptyString EmptyString EmptyString 0 EmptyString 0 0 zeroTime
    EmptyString zeroTime 0 EmptyString zeroTime zeroTime zeroTime zeroTime.

(** [CreateTwapInput], types.go. *)
Record CreateTwapInput := mkCreateTwapInput {
  ti_Token : string;
  ti_TradingAccountID : Z;
  ti_InstrumentID : Z;
  ti_Side : string;
  ti_TotalQuantity : string;
  ti_StartAt : GoTime;
  ti_EndAt : GoTime;
  ti_IntervalSeconds : Z;
  ti_LimitPrice : string;
  ti_MaxQuantity : string;
  ti_ExecutionType : string;
  ti_OrderTimeoutSeconds : Z;
  ti_IdempotencyKey : string
}.
#[export] Instance eta_CreateTwapInput : Eta CreateTwapInput := fun r =>
  mkCreateTwapInput (r.(ti_Token)) (r.(ti_TradingAccountID)) (r.(ti_InstrumentID)) (r.(ti_Side))
    (r.(ti_TotalQuantity)) (r.(ti_StartAt)) (r.(ti_EndAt)) (r.(ti_IntervalSeconds))
    (r.(ti_LimitPrice)) (r.(ti_MaxQuantity)) (r.(ti_ExecutionType))
    (r.(ti_OrderTimeoutSeconds)) (r.(ti_IdempotencyKey)).
Definition zero_CreateTwapInput : CreateTwapInput :=
  mkCreateTwapInput EmptyString 0 0 EmptyString EmptyString zeroTime zeroTime 0 EmptyString EmptyString
    EmptyString 0 EmptyString.

(** [ArbitrageLeg], arbitrage_types.go. *)
Record ArbitrageLeg := mkArbitrageLeg {
  l_TradingAccountID : Z;
  l_InstrumentID : Z;
  l_ProductName : string;
  l_AccountName : string;
  l_Exchange : string;
  l_ContractType : string;
  l_ExchangeSymbol : string;
  l_BaseAsset : string;
  l_QuoteAsset : string
}.
#[export] Instance eta_ArbitrageLeg : Eta ArbitrageLeg := fun r =>
  mkArbitrageLeg (r.(l_TradingAccountID)) (r.(l_InstrumentID)) (r.(l_ProductName)) (r.(l_AccountName))
    (r.(l_Exchange)) (r.(l_ContractType)) (r.(l_ExchangeSymbol)) (r.(l_BaseAsset))
    (r.(l_QuoteAsset)).
Definition zero_ArbitrageLeg : ArbitrageLeg :=
  mkArbitrageLeg 0 0 EmptyString EmptyString EmptyString EmptyString EmptyString EmptyString EmptyString.

(** [ArbitrageCombination], arbitrage_types.go. *)
Record ArbitrageCombination := mkArbitrageCombination {
  c_ID : string;
  c_IdempotencyKey : string;
  c_RequestFingerprint : string;
  c_OwnerUsername : string;
  c_LegA : ArbitrageLeg;
  c_LegB : ArbitrageLeg;
  c_AskThresholdBps : string;
  c_BidThresholdBps : string;
  c_TargetNotional : string;
  c_OrderNotional : string;
  c_RunMode : string;
  c_EntryDirection : string;
  c_LegALeverage : string;
  c_LegBLeverage : string;
  c_ExitPolicy : string;
  c_ExitAnnualizedRate : string;
  c_ExitAfterSeconds : Z;
  c_EarlyExitFunding8hAnnualizedFloor : string;
  c_EarlyExitLiquidationDistancePct : string;
  c_TargetReachedAt : GoTime;
  c_ScheduledExitAt : GoTime;
  c_OneShotPhase : string;
  c_ExecutionMode : string;
  c_MakerLeg : string;
  c_Status : string;
  c_RuntimeState : string;
  c_PositionNotional : string;
  c_CumulativeTurnoverNotional : string;
  c_GrossTurnoverNotional : string;
  c_LegABasePosition : string;
  c_LegBBasePosition : string;
  c_CarryBaseQuantity : string;
  c_LegAAverageEntryPrice : string;
  c_LegBAverageEntryPrice : string;
  c_AverageEntrySpreadBps : string;
  c_LegAUnrealizedPnl : string;
  c_LegBUnrealizedPnl : string;
  c_RealizedSpreadPnl : string;
  c_EstimatedFundingPnl : string;
  c_EstimatedTradingFee : string;
  c_MetricsQuality : string;
  c_NotionalExposureSeconds : string;
  c_HoldingSeconds : string;
  c_ExposureUpdatedAt : GoTime;
  c_CombinedPositionAnnualized : string;
  c_FundingHistoryComplete : bool;
  c_LegAVenueBaselineBasePosition : string;
  c_LegBVenueBaselineBasePosition : string;
  c_VenueBaselineCapturedAt : GoTime;
  c_LegAVenueBasePosition : string;
  c_LegBVenueBasePosition : string;
  c_LegAVenueNotional : string;
  c_LegBVenueNotional : string;
  c_LegAVenueValuationPrice : string;
  c_LegBVenueValuationPrice : string;
  c_LegAVenueValuationAt : GoTime;
  c_LegBVenueValuationAt : GoTime;
  c_LegAPositionDifference : string;
  c_LegBPositionDifference : string;
  c_LegAReconciliationAdjustment : string;
  c_LegBReconciliationAdjustment : string;
  c_LastPositionReconciledAt : GoTime;
  c_CurrentAskSpreadBps : string;
  c_CurrentBidSpreadBps : string;
  c_MarketDataStale : bool;
  c_ErrorMessage : string;
  c_ConsecutiveFailures : Z;
  c_NextRetryAt : GoTime;
  c_PositionUncertain : bool;
  c_LastFailureKey : string;
  c_RepeatedFailureCount : Z;
  c_CircuitOpen : bool;
  c_Version : Z;
  c_SchedulerLeaseUntil : GoTime;
  c_CreatedAt : GoTime;
  c_UpdatedAt : GoTime;
  c_ClosedAt : GoTime;
  c_MetricsCalculatedAt : GoTime;
  c_FinalMetricsStatus : string;
  c_FinalMetricsRetryCount : Z;
  c_FinalMetricsLastError : string;
  c_FinalMetricsNextRetryAt : GoTime;
  c_FinalMetricsRetryFinite : bool;
  c_FinalMetricsCompletedAt : GoTime;
  c_LegALiquidationDistancePct : string;
  c_LegBLiquidationDistancePct : string
}.
#[export] Instance eta_ArbitrageCombination : Eta ArbitrageCombination := fun r =>
  mkArbitrageCombination (r.(c_ID)) (r.(c_IdempotencyKey)) (r.(c_RequestFingerprint)) (r.(c_OwnerUsername))
    (r.(c_LegA)) (r.(c_LegB)) (r.(c_AskThresholdBps)) (r.(c_BidThresholdBps))
    (r.(c_TargetNotional)) (r.(c_OrderNotional)) (r.(c_RunMode)) (r.(c_EntryDirection))
    (r.(c_LegALeverage)) (r.(c_LegBLeverage)) (r.(c_ExitPolicy)) (r.(c_ExitAnnualizedRate))
    (r.(c_ExitAfterSeconds)) (r.(c_EarlyExitFunding8hAnnualizedFloor))
    (r.(c_EarlyExitLiquidationDistancePct)) (r.(c_TargetReachedAt)) (r.(c_ScheduledExitAt))
    (r.(c_OneShotPhase)) (r.(c_ExecutionMode)) (r.(c_MakerLeg)) (r.(c_Status))
    (r.(c_RuntimeState)) (r.(c_PositionNotional)) (r.(c_CumulativeTurnoverNotional))
    (r.(c_GrossTurnoverNotional)) (r.(c_LegABasePosition)) (r.(c_LegBBasePosition))
    (r.(c_CarryBaseQuantity)) (r.(c_LegAAverageEntryPrice)) (r.(c_LegBAverageEntryPrice))
    (r.(c_AverageEntrySpreadBps)) (r.(c_LegAUnrealizedPnl)) (r.(c_LegBUnrealizedPnl))
    (r.(c_RealizedSpreadPnl)) (r.(c_EstimatedFundingPnl)) (r.(c_EstimatedTradingFee))
    (r.(c_MetricsQuality)) (r.(c_NotionalExposureSeconds)) (r.(c_HoldingSeconds))
    (r.(c_ExposureUpdatedAt)) (r.(c_CombinedPositionAnnualized))
    (r.(c_FundingHistoryComplete)) (r.(c_LegAVenueBaselineBasePosition))
    (r.(c_LegBVenueBaselineBasePosition)) (r.(c_VenueBaselineCapturedAt))
    (r.(c_LegAVenueBasePosition)) (r.(c_LegBVenueBasePosition)) (r.(c_LegAVenueNotional))
    (r.(c_LegBVenueNotional)) (r.(c_LegAVenueValuationPrice)) (r.(c_LegBVenueValuationPrice))
    (r.(c_LegAVenueValuationAt)) (r.(c_LegBVenueValuationAt)) (r.(c_LegAPositionDifference))
    (r.(c_LegBPositionDifference)) (r.(c_LegAReconciliationAdjustment))
    (r.(c_LegBReconciliationAdjustment)) (r.(c_LastPositionReconciledAt))
    (r.(c_CurrentAskSpreadBps)) (r.(c_CurrentBidSpreadBps)) (r.(c_MarketDataStale))
    (r.(c_ErrorMessage)) (r.(c_ConsecutiveFailures)) (r.(c_NextRetryAt))
    (r.(c_PositionUncertain)) (r.(c_LastFailureKey)) (r.(c_RepeatedFailureCount))
    (r.(c_CircuitOpen)) (r.(c_Version)) (r.(c_SchedulerLeaseUntil)) (r.(c_CreatedAt))
    (r.(c_UpdatedAt)) (r.(c_ClosedAt)) (r.(c_MetricsCalculatedAt)) (r.(c_FinalMetricsStatus))
    (r.(c_FinalMetricsRetryCount)) (r.(c_FinalMetricsLastError))
    (r.(c_FinalMetricsNextRetryAt)) (r.(c_FinalMetricsRetryFinite))
    (r.(c_FinalMetricsCompletedAt)) (r.(c_LegALiquidationDistancePct))
    (r.(c_LegBLiquidationDistancePct)).
Definition zero_ArbitrageCombination : ArbitrageCombination :=
  mkArbitrageCombination EmptyString EmptyString EmptyString EmptyString zero_ArbitrageLeg zero_ArbitrageLeg
    EmptyString EmptyString EmptyString EmptyString EmptyString EmptyString EmptyString
    EmptyString EmptyString EmptyString 0 EmptyString EmptyString zeroTime zeroTime
    EmptyString EmptyString EmptyString EmptyString EmptyString EmptyString EmptyString
    EmptyString EmptyString EmptyString EmptyString EmptyString EmptyString EmptyString
    EmptyString EmptyString EmptyString EmptyString EmptyString EmptyString EmptyString
    EmptyString zeroTime EmptyString false EmptyString EmptyString zeroTime EmptyString
    EmptyString EmptyString EmptyString EmptyString EmptyString zeroTime zeroTime EmptyString
    EmptyString EmptyString EmptyString zeroTime EmptyString EmptyString false EmptyString 0
    zeroTime false EmptyString 0 false 0 zeroTime zeroTime zeroTime zeroTime zeroTime
    EmptyString 0 EmptyString zeroTime false zeroTime EmptyString EmptyString.

(** [ArbitrageExecution], arbitrage_types.go. *)
Record ArbitrageExecution := mkArbitrageExecution {
  x_ID : string;
  x_CombinationID : string;
  x_Direction : string;
  x_Sequence : Z;
  x_Status : string;
  x_TriggerAskSpread : string;
  x_TriggerBidSpread : string;
  x_TriggerLegABid : string;
  x_TriggerLegAAsk : string;
  x_TriggerLegBBid : string;
  x_TriggerLegBAsk : string;
  x_TargetBaseQuantity : string;
  x_RequestedNotional : string;
  x_PositionEffect : string;
  x_ReduceOnly : bool;
  x_LastCloseClip : bool;
  x_LegAFilledQuantity : string;
  x_LegBFilledQuantity : string;
  x_DeltaNotional : string;
  x_MakerOrderID : string;
  x_HedgeOrderID : string;
  x_HedgeSequence : Z;
  x_Attempt : Z;
  x_ErrorMessage : string;
  x_CreatedAt : GoTime;
  x_UpdatedAt : GoTime;
  x_ClosedAt : GoTime
}.
#[export] Instance eta_ArbitrageExecution : Eta ArbitrageExecution := fun r =>
  mkArbitrageExecution (r.(x_ID)) (r.(x_CombinationID)) (r.(x_Direction)) (r.(x_Sequence)) (r.(x_Status))
    (r.(x_TriggerAskSpread)) (r.(x_TriggerBidSpread)) (r.(x_TriggerLegABid))
    (r.(x_TriggerLegAAsk)) (r.(x_TriggerLegBBid)) (r.(x_TriggerLegBAsk))
    (r.(x_TargetBaseQuantity)) (r.(x_RequestedNotional)) (r.(x_PositionEffect))
    (r.(x_ReduceOnly)) (r.(x_LastCloseClip)) (r.(x_LegAFilledQuantity))
    (r.(x_LegBFilledQuantity)) (r.(x_DeltaNotional)) (r.(x_MakerOrderID)) (r.(x_HedgeOrderID))
    (r.(x_HedgeSequence)) (r.(x_Attempt)) (r.(x_ErrorMessage)) (r.(x_CreatedAt))
    (r.(x_UpdatedAt)) (r.(x_ClosedAt)).
Definition zero_ArbitrageExecution : ArbitrageExecution :=
  mkArbitrageExecution EmptyString EmptyString EmptyString 0 EmptyString EmptyString EmptyString EmptyString
    EmptyString EmptyString EmptyString EmptyString EmptyString EmptyString false false
    EmptyString EmptyString EmptyString EmptyString EmptyString 0 0 EmptyString zeroTime
    zeroTime zeroTime.

(** [Key], marketdata/types.go. *)
Record Key := mkKey {
  k_Venue : string;
  k_Product : string;
  k_Symbol : string
}.
#[export] Instance eta_Key : Eta Key := fun r =>
  mkKey (r.(k_Venue)) (r.(k_Product)) (r.(k_Symbol)).
Definition zero_Key : Key :=
  mkKey EmptyString EmptyString EmptyString.

(** [BBO], marketdata/types.go. *)
Record BBO := mkBBO {
  b_Key : Key;
  b_BidPrice : string;
  b_AskPrice : string;
  b_BidQuantity : string;
  b_AskQuantity : string;
  b_VenueTimestamp : GoTime;
  b_ReceiveTimestamp : GoTime
}.
#[export] Instance eta_BBO : Eta BBO := fun r =>
  mkBBO (r.(b_Key)) (r.(b_BidPrice)) (r.(b_AskPrice)) (r.(b_BidQuantity)) (r.(b_AskQuantity))
    (r.(b_VenueTimestamp)) (r.(b_ReceiveTimestamp)).
Definition zero_BBO : BBO :=
  mkBBO zero_Key EmptyString EmptyString EmptyString EmptyString zeroTime zeroTime.

(** [Credentials], types.go: the account a venue request is signed for. *)
Record Credentials := mkCredentials {
  cr_TradingAccountID : Z;
  cr_ProductName : string;
  cr_Exchange : string;
  cr_AccountName : string;
  cr_APIKey : string;
  cr_APISecret : string;
  cr_Passphrase : string;
  cr_CredentialKind : string;
  cr_SigningAddress : string;
  cr_VaultAddress : string;
  cr_AccountIndex : option Z;
  cr_APIKeyIndex : option Z
}.
Definition zero_Credentials : Credentials :=
  mkCredentials 0 EmptyString EmptyString EmptyString EmptyString EmptyString EmptyString EmptyString
    EmptyString EmptyString None None.

(** [OrderRequest], exchange/types.go. *)
Record OrderRequest := mkOrderRequest {
  rq_Instrument : VenueInstrument;
  rq_ClientOrderID : string;
  rq_Side : string;
  rq_OrderType : string;
  rq_Quantity : string;
  rq_Price : string;
  rq_TimeInForce : string;
  rq_PostOnly : bool;
  rq_ReduceOnly : bool
}.

(** [QueryRequest], exchange/types.go. *)
Record QueryRequest := mkQueryRequest {
  qr_Instrument : VenueInstrument;
  qr_ClientOrderID : string;
  qr_VenueOrderID : string;
  qr_CreatedAt : GoTime
}.

(** [CancelRequest], exchange/types.go. *)
Record CancelRequest := mkCancelRequest {
  cq_Instrument : VenueInstrument;
  cq_ClientOrderID : string;
  cq_VenueOrderID : string
}.

(** [BBO], exchange/types.go. *)
Record VenueBBO := mkVenueBBO {
  vb_BidPrice : string;
  vb_AskPrice : string;
  vb_Timestamp : GoTime
}.

(** [StreamUpdate], types.go. *)
Record StreamUpdate := mkStreamUpdate {
  su_Result : VenueResult;
  su_EventAt : GoTime;
  su_ReceivedAt : GoTime;
  su_Fills : list OrderFill;
  su_SkipVenueWatermark : bool
}.
#[export] Instance eta_StreamUpdate : Eta StreamUpdate := fun r =>
  mkStreamUpdate (r.(su_Result)) (r.(su_EventAt)) (r.(su_ReceivedAt)) (r.(su_Fills))
    (r.(su_SkipVenueWatermark)).
