(* ===== verification/Sha256.v ===== *)
(** * SHA-256 (crypto/sha256)

    The trader hashes the job identifier and the slice to spread the slices of
    a TWAP over their windows, and hashes requests into fingerprints.  The
    function is FIPS 180-4 on lists of bytes, with 32-bit words as integers;
    the digest of the standard's test message is checked below. *)
From Stdlib Require Import ZArith String Ascii List.
From stdpp Require Import base strings list.
From S2P Require Import Prelude.

Definition word32 (x : Z) : Z := Z.land x 0xffffffff.
Definition rotr (x n : Z) : Z := Z.lor (Z.shiftr x n) (word32 (Z.shiftl x (32 - n))).

(** The largest [r] below [2^n], grown from [r0] bit by bit, with [r^e <= x]. *)
Fixpoint intRoot (e x : Z) (n : nat) (r0 : Z) : Z :=
  match n with
  | O => r0
  | S k => let r := r0 + 2 ^ Z.of_nat k in intRoot e x k (if r ^ e <=? x then r else r0)
  end.

Definition isPrime (p : Z) : bool := forallb (fun d => negb (p mod Z.of_nat d =? 0)) (List.seq 2 (Z.to_nat (Z.sqrt p) - 1)).

(** The first primes: 311 is the sixty-fourth. *)
Definition shaPrimes : list Z := Eval vm_compute in List.filter isPrime (map Z.of_nat (List.seq 2 310)).

(** The first 32 bits of the fractional parts of the cube roots of the primes,
    and of the square roots of the first eight. *)
Definition shaK : list Z := Eval vm_compute in map (fun p => word32 (intRoot 3 (p * 2 ^ 96) 40 0)) shaPrimes.

Definition shaInit : list Z := Eval vm_compute in map (fun p => word32 (intRoot 2 (p * 2 ^ 64) 40 0)) (firstn 8 shaPrimes).

Definition bytes_of_string (s : string) : list Z :=
  map (fun c => Z.of_nat (nat_of_ascii c)) (list_ascii_of_string s).

(** The [n] bytes of [x], most significant first. *)
Fixpoint big_endian (n : nat) (x : Z) : list Z :=
  match n with
  | O => []
  | S k => big_endian k (Z.shiftr x 8) ++ [Z.land x 255]
  end.

Definition from_big_endian (l : list Z) : Z := fold_left (fun acc b => 256 * acc + b) l 0.

(** A one bit, zeros up to 56 modulo 64, the length in bits on 64 bits. *)
Definition sha_pad (msg : list Z) : list Z :=
  let n := Z.of_nat (length msg) in
  let zeros := (55 - n) mod 64 in
  msg ++ [128] ++ repeat 0 (Z.to_nat zeros) ++ big_endian 8 (8 * n).

Fixpoint chunks (size fuel : nat) (l : list Z) : list (list Z) :=
  match fuel, l with
  | _, [] => []
  | O, _ => []
  | S k, _ => firstn size l :: chunks size k (skipn size l)
  end.

Definition sigma0 (x : Z) : Z := Z.lxor (Z.lxor (rotr x 7) (rotr x 18)) (Z.shiftr x 3).
Definition sigma1 (x : Z) : Z := Z.lxor (Z.lxor (rotr x 17) (rotr x 19)) (Z.shiftr x 10).

(** The message schedule, latest word first. *)
Fixpoint schedule (n : nat) (w : list Z) : list Z :=
  match n with
  | O => w
  | S k =>
      let next := word32 (sigma1 (nth 1 w 0) + nth 6 w 0 + sigma0 (nth 14 w 0) + nth 15 w 0) in
      schedule k (next :: w)
  end.

Definition round (st : list Z) (kw : Z * Z) : list Z :=
  match st with
  | [a; b; c; d; e; f; g; h] =>
      let s1 := Z.lxor (Z.lxor (rotr e 6) (rotr e 11)) (rotr e 25) in
      let ch := Z.lxor (Z.land e f) (Z.land (Z.lxor e 0xffffffff) g) in
      let t1 := h + s1 + ch + fst kw + snd kw in
      let s0 := Z.lxor (Z.lxor (rotr a 2) (rotr a 13)) (rotr a 22) in
      let maj := Z.lxor (Z.lxor (Z.land a b) (Z.land a c)) (Z.land b c) in
      [word32 (t1 + s0 + maj); a; b; c; word32 (d + t1); e; f; g]
  | _ => st
  end.

Definition compress (st block : list Z) : list Z :=
  let words := map from_big_endian (chunks 4 16 block) in
  let w := rev (schedule 48 (rev words)) in
  let st' := fold_left round (combine shaK w) st in
  map (fun '(x, y) => word32 (x + y)) (combine st st').

Definition Sum256 (msg : list Z) : list Z :=
  let padded := sha_pad msg in
  concat (map (big_endian 4) (fold_left compress (chunks 64 (length padded) padded) shaInit)).

Definition hex_byte (b : Z) : string :=
  String (hex_digit (Z.to_nat (b / 16))) (String (hex_digit (Z.to_nat (b mod 16))) EmptyString).

(** [hex.EncodeToString]. *)
Definition EncodeToString (l : list Z) : string := String.concat "" (map hex_byte l).

Example sha_abc : EncodeToString (Sum256 (bytes_of_string "abc")) =
  "ba7816bf8f01cfea414140de5dae2223b00361a396177a9cb410ff61f20015ad"%string.
Proof. vm_compute. reflexivity. Qed.
