(* ===== verification/Quantity.v ===== *)
(** * Quantities: parsing, steps and venue units

    The arithmetic every order goes through: [parseDecimal],
    [parsePositiveDecimal], [floorToStep] and [ceilToStep]
    (twap_scheduler.go, validate.go), [commonQuantityStep]
    (arbitrage_math.go), and the conversion between base-asset quantities and
    venue contracts (exchange/quantity.go). *)
From Stdlib Require Import ZArith QArith Qround Qabs Qminmax Lqa String.
From stdpp Require Import base strings list.
From S2P Require Import Prelude Decimal DecimalRef Types.

Section Quantity.
Context {D : Type} `{!Decimal D}.
Local Open Scope dec_scope.

Definition parseDecimal (value : string) : D :=
  match dNewFromString (TrimSpace value) with
  | Some parsed => parsed
  | None => dZero
  end.

Definition parsePositiveDecimal (value : string) : D :=
  match dNewFromString (TrimSpace value) with
  | Some parsed => if dIsPositive parsed then parsed else dZero
  | None => dZero
  end.

Definition floorToStep (value step : D) : D :=
  if negb (dIsPositive step) then value
  else dFloor (value / step) * step.

Definition ceilToStep (value step : D) : D :=
  if negb (dIsPositive step) then value
  else dCeil (value / step) * step.

(** [scaled]: the coefficient at the smaller exponent. *)
Definition scaledCoefficient (exponent : Z) (value : D) : Z :=
  let shift := (dExponent value - exponent)%Z in
  let result := dCoefficient value in
  Z.abs (if (0 <? shift)%Z then result * 10 ^ shift else result)%Z.

Definition commonQuantityStep (a b : D) : D :=
  if negb (dIsPositive a) || negb (dIsPositive b) then dZero
  else
    let exponent := if (dExponent b <? dExponent a)%Z then dExponent b else dExponent a in
    let aInt := scaledCoefficient exponent a in
    let bInt := scaledCoefficient exponent b in
    let gcd := Z.gcd aInt bInt in
    if (Z.sgn gcd =? 0)%Z then dZero
    else dNewFromBigInt (aInt * bInt / gcd)%Z exponent.

(** ** exchange/quantity.go *)

Definition metadataString (instrument : VenueInstrument) (name : string) : string :=
  let fix go entries :=
    match entries with
    | [] => EmptyString
    | (key, value) :: rest =>
        if negb (EqualFold key name) then go rest
        else match value with
             | MetaString text => text
             | MetaOther text => text
             | MetaNil => go rest
             end
    end
  in go (vi_Metadata instrument).

Definition metadataDecimal (instrument : VenueInstrument) (name : string) : D :=
  match dNewFromString (TrimSpace (metadataString instrument name)) with
  | Some parsed => parsed
  | None => dZero
  end.

Definition errContractSize : GoError :=
  mkError [ErrInvalidQuantity] "invalid order quantity: contract size unavailable".

(** The factor, whether the venue counts contracts, or the error. *)
Definition quantityFactor (instrument : VenueInstrument) : Result (D * bool) :=
  if negb (vi_ContractType instrument =?s "perpetual") then Ok (dNewFromInt 1, false)
  else
    let exchange := ToLower (TrimSpace (vi_Exchange instrument)) in
    if negb (exchange =?s "okx") && negb (exchange =?s "gate") then Ok (dNewFromInt 1, false)
    else match dNewFromString (TrimSpace (vi_ContractSize instrument)) with
         | Some size =>
             if negb (dIsPositive size) then Err errContractSize
             else if exchange =?s "okx" then
               let multiplier := metadataDecimal instrument "ctMult" in
               Ok (if dIsPositive multiplier then size * multiplier else size, true)
             else Ok (size, true)
         | None => Err errContractSize
         end.

Definition venueQuantityStep (instrument : VenueInstrument) (factor : D) : D :=
  match dNewFromString (TrimSpace (vi_QuantityStep instrument)) with
  | Some baseStep =>
      if negb (dIsPositive baseStep) || negb (dIsPositive factor) then dZero
      else baseStep / factor
  | None => dZero
  end.

Definition errVenueStep (step : D) : GoError :=
  mkError [ErrInvalidQuantity]
    (String.append
      "invalid order quantity: quantity is not an exact multiple of venue step "
      (dString step)).

Definition ToVenueQuantity (instrument : VenueInstrument) (baseQuantity : string) : Result string :=
  match dNewFromString (TrimSpace baseQuantity) with
  | None => Err (mkError [ErrInvalidQuantity] "invalid order quantity: invalid quantity")
  | Some quantity =>
      if negb (dIsPositive quantity)
      then Err (mkError [ErrInvalidQuantity] "invalid order quantity: invalid quantity")
      else
        let? (factor, contracts) := quantityFactor instrument in
        if negb contracts then Ok (dString quantity)
        else
          let wire := quantity / factor in
          let step := venueQuantityStep instrument factor in
          let step := if negb (dIsPositive step) then dNewFromInt 1 else step in
          if negb (wire / step =? dTruncate0 (wire / step)) then Err (errVenueStep step)
          else Ok (dString wire)
  end.

Definition FromVenueQuantity (instrument : VenueInstrument) (venueQuantity : string) : Result string :=
  match dNewFromString (TrimSpace venueQuantity) with
  | None => Err (mkError [ErrOther] "invalid venue quantity")
  | Some quantity =>
      let? (factor, contracts) := quantityFactor instrument in
      let quantity := if (contracts : bool) then quantity * factor else quantity in
      Ok (dString (dAbs quantity))
  end.

Definition BaseQuantityStep (instrument : VenueInstrument) (venueStep : string) : Result string :=
  match dNewFromString (TrimSpace venueStep) with
  | None => Err (mkError [ErrOther] "invalid venue quantity step")
  | Some step =>
      if negb (dIsPositive step) then Err (mkError [ErrOther] "invalid venue quantity step")
      else
        let? (factor, contracts) := quantityFactor instrument in
        let step := if (contracts : bool) then step * factor else step in
        Ok (dString step)
  end.

(** [toVenueInstrument], service.go. *)
Definition toVenueInstrument (i : Instrument) : VenueInstrument :=
  mkVenueInstrument (i_Exchange i) (i_ContractType i) (i_ExchangeSymbol i) (i_BaseAsset i)
    (i_QuoteAsset i) (i_SettleAsset i) (i_ContractSize i) (i_PriceTick i) (i_QuantityStep i)
    (i_MinQuantity i) (i_MinNotional i) (i_MinQuantityStatus i) (i_MinNotionalStatus i)
    (i_MaxQuantity i) (i_MarketQuantityStep i) (i_MarketMinQuantity i) (i_MarketMaxQuantity i)
    (i_MarketMinNotional i) (i_MaxQuantityStatus i) (i_MarketQuantityStepStatus i)
    (i_MarketMinQuantityStatus i) (i_MarketMaxQuantityStatus i) (i_MarketMinNotionalStatus i)
    (i_Metadata i).
End Quantity.

(** ** Facts *)

Section QuantityFacts.
Context {D : Type} `{!Decimal D} `{!DecimalLaws D}.
Local Open Scope Q_scope.

Lemma parsePositiveDecimal_cases (s : string) :
  let d := parsePositiveDecimal (D := D) s in
  (dNewFromString (TrimSpace s) = Some d /\ 0 < dval d) \/ (d = dZero /\ dval d == 0).
Proof.
  unfold parsePositiveDecimal. destruct (dNewFromString (TrimSpace s)) as [d|].
  - destruct (dIsPositive_reflect d); [by left|]. right. split; [done|apply dZero_val].
  - right. split; [done|apply dZero_val].
Qed.

Lemma parsePositiveDecimal_nonneg (s : string) : 0 <= dval (parsePositiveDecimal (D := D) s).
Proof. destruct (parsePositiveDecimal_cases s) as [[_ H]|[_ H]]; lra. Qed.

Lemma parseDecimal_String (a : D) : dval (parseDecimal (D := D) (dString a)) == dval a.
Proof.
  unfold parseDecimal. rewrite dString_TrimSpace.
  destruct (dNewFromString_String a) as (d & -> & E). exact E.
Qed.

(** The quotient of a step computation, after rounding to 16 digits, keeps
    every integer bound of the exact quotient. *)
Lemma dDiv_floor_ge (v s : D) :
  0 < dval s -> (Qfloor (dval v / dval s) <= Qfloor (dval (v / s)%dec))%Z.
Proof.
  intros Hs. rewrite dDiv_val by lra.
  apply inject_Z_lt_plus1.
  pose proof (Qfloor_spec (dval v / dval s)) as [H1 _].
  pose proof (qround_ge_int DivisionPrecision _ _ ltac:(done) H1).
  pose proof (Qfloor_spec (qround DivisionPrecision (dval v / dval s))) as [_ H2]. lra.
Qed.

Lemma dDiv_ceil_le (v s : D) :
  0 < dval s -> (Qceiling (dval (v / s)%dec) <= Qceiling (dval v / dval s))%Z.
Proof.
  intros Hs. rewrite dDiv_val by lra.
  apply inject_Z_lt_plus1.
  pose proof (Qceiling_spec (dval v / dval s)) as [H1 _].
  pose proof (qround_le_int DivisionPrecision _ _ ltac:(done) H1).
  pose proof (Qceiling_spec (qround DivisionPrecision (dval v / dval s))) as [_ H2]. lra.
Qed.

Lemma floorToStep_pos (v s : D) :
  0 < dval s ->
  dval (floorToStep v s) == inject_Z (Qfloor (dval (v / s)%dec)) * dval s.
Proof.
  intros Hs. unfold floorToStep. destruct (dIsPositive_reflect s); [|lra].
  cbn [negb]. by rewrite dMul_val, dFloor_val.
Qed.

Lemma ceilToStep_pos (v s : D) :
  0 < dval s ->
  dval (ceilToStep v s) == inject_Z (Qceiling (dval (v / s)%dec)) * dval s.
Proof.
  intros Hs. unfold ceilToStep. destruct (dIsPositive_reflect s); [|lra].
  cbn [negb]. by rewrite dMul_val, dCeil_val.
Qed.

Lemma floorToStep_bounds (v s : D) :
  0 < dval s ->
  dval v - dval s < dval (floorToStep v s) /\
  dval (floorToStep v s) <= dval v + divEps * dval s.
Proof.
  intros Hs. rewrite floorToStep_pos by done.
  pose proof (dDiv_floor_ge v s Hs) as H. rewrite Zle_Qle in H.
  pose proof (Qfloor_spec (dval v / dval s)) as [_ H1].
  pose proof (Qfloor_spec (dval (v / s)%dec)) as [H2 _].
  pose proof (dDiv_bounds v s (Qpos_nonzero _ Hs)) as [_ H3].
  set (n := inject_Z (Qfloor (dval (v / s)%dec))) in *.
  assert (dval v == dval v / dval s * dval s) as Hv by (field; lra).
  set (q := dval v / dval s) in *. rewrite Hv. split; nra.
Qed.

Lemma floorToStep_nonneg (v s : D) : 0 <= dval v -> 0 <= dval (floorToStep v s).
Proof.
  intros Hv. destruct (dIsPositive_reflect s) as [Hs|Hs].
  - rewrite floorToStep_pos by done.
    assert (0 <= inject_Z (Qfloor (dval (v / s)%dec))); [|nra].
    change 0 with (inject_Z 0). rewrite <- Zle_Qle. change 0%Z with (Qfloor 0).
    apply Qfloor_resp_le. by apply dDiv_nonneg.
  - unfold floorToStep. destruct (dIsPositive_reflect s); done.
Qed.

Lemma ceilToStep_bounds (v s : D) :
  0 < dval s ->
  dval v - divEps * dval s <= dval (ceilToStep v s) /\
  dval (ceilToStep v s) < dval v + dval s.
Proof.
  intros Hs. rewrite ceilToStep_pos by done.
  pose proof (dDiv_ceil_le v s Hs) as H. rewrite Zle_Qle in H.
  pose proof (Qceiling_spec (dval v / dval s)) as [_ H1].
  pose proof (Qceiling_spec (dval (v / s)%dec)) as [H2 _].
  pose proof (dDiv_bounds v s (Qpos_nonzero _ Hs)) as [H3 _].
  set (n := inject_Z (Qceiling (dval (v / s)%dec))) in *.
  assert (dval v == dval v / dval s * dval s) as Hv by (field; lra).
  set (q := dval v / dval s) in *. rewrite Hv. split; nra.
Qed.

Lemma floorToStep_noStep (v s : D) : ~ 0 < dval s -> floorToStep v s = v.
Proof. intros H. unfold floorToStep. destruct (dIsPositive_reflect s); done. Qed.

(** The slack of one step computation. *)
Definition stepEps (s : D) : Q := divEps * Qmax 0 (dval s).

Lemma stepEps_nonneg (s : D) : 0 <= stepEps s.
Proof. unfold stepEps. pose proof divEps_pos. pose proof (Q.le_max_l 0 (dval s)). nra. Qed.

Lemma floorToStep_le (v s : D) : dval (floorToStep v s) <= dval v + stepEps s.
Proof.
  destruct (dIsPositive_reflect s) as [Hs|Hs].
  - pose proof (floorToStep_bounds v s Hs) as [_ H]. unfold stepEps.
    rewrite Q.max_r by lra. lra.
  - rewrite floorToStep_noStep by done. pose proof (stepEps_nonneg s). lra.
Qed.

(** A value and a step on a common decimal grid on which the step is below
    [2 * 10^16] units: the quotient is never rounded across an integer. *)
Definition onGrid (v s : D) : Prop :=
  exists (e a b : Z), dval v == inject_Z a * pow10 e /\ dval s == inject_Z b * pow10 e
                      /\ (0 < b < 2 * 10 ^ 16)%Z.

Lemma onGrid_quotient (v s : D) (a b e : Z) :
  dval v == inject_Z a * pow10 e -> dval s == inject_Z b * pow10 e -> (0 < b)%Z ->
  dval v / dval s == inject_Z a / inject_Z b.
Proof.
  intros -> -> Hb. pose proof (pow10_pos e).
  assert (0 < inject_Z b) by (change 0 with (inject_Z 0); by rewrite <- Zlt_Qlt).
  field. lra.
Qed.

Lemma floorToStep_exact (v s : D) :
  onGrid v s ->
  dval (floorToStep v s) == inject_Z (Qfloor (dval v / dval s)) * dval s
  /\ dval (floorToStep v s) <= dval v.
Proof.
  intros (e & a & b & Ha & Hb & Hlo & Hhi). pose proof (pow10_pos e) as Hp.
  assert (0 < inject_Z b) as Hb0 by (change 0 with (inject_Z 0); by rewrite <- Zlt_Qlt).
  assert (0 < dval s) as Hs by (rewrite Hb; nra).
  assert (Qfloor (dval (v / s)%dec) = Qfloor (dval v / dval s)) as E.
  { rewrite dDiv_val by lra. rewrite (onGrid_quotient v s a b e) by done.
    set (m := Qfloor (inject_Z a / inject_Z b)).
    pose proof (Qfloor_spec (inject_Z a / inject_Z b)) as [H1 H2].
    assert (inject_Z a / inject_Z b <= inject_Z m + 1 - / inject_Z b) as H3.
    { apply Qle_shift_div_r; [done|].
      assert ((inject_Z m + 1 - / inject_Z b) * inject_Z b
              == inject_Z (m * b + b - 1)) as ->.
      { unfold Z.sub. rewrite !inject_Z_plus, inject_Z_mult.
        change (inject_Z (- (1))) with (- (1)). field. lra. }
      rewrite <- Zle_Qle.
      assert (a < m * b + b)%Z; [|lia].
      rewrite Zlt_Qlt, inject_Z_plus, inject_Z_mult.
      assert (inject_Z a == inject_Z a / inject_Z b * inject_Z b) as -> by (field; lra).
      fold m in H2. nra. }
    assert (divEps < / inject_Z b) as Heps.
    { apply Qlt_shift_inv_l; [done|].
      assert (inject_Z b < inject_Z (2 * 10 ^ 16)) as Hlt by (by rewrite <- Zlt_Qlt).
      unfold divEps.
      change (inject_Z (2 * 10 ^ 16)) with (20000000000000000 # 1) in Hlt.
      assert ((1 # 2) / pow10 DivisionPrecision == (1 # 20000000000000000)) as -> by reflexivity.
      lra. }
    pose proof (qround_err DivisionPrecision (inject_Z a / inject_Z b)) as Herr.
    apply Qabs_Qle_condition in Herr as [_ Herr].
    fold divEps in Herr.
    apply Qfloor_unique.
    - apply qround_ge_int; done.
    - lra. }
  rewrite floorToStep_pos by done. rewrite E. split; [done|].
  pose proof (Qfloor_spec (dval v / dval s)) as [H1 _].
  assert (dval v == dval v / dval s * dval s) as Hv by (field; lra).
  rewrite Hv at 2. nra.
Qed.

(** ** Common steps *)

Lemma dCoefficient_pos (a : D) : 0 < dval a -> (0 < dCoefficient a)%Z.
Proof.
  unfold dval. intros H. pose proof (pow10_pos (dExponent a)).
  rewrite Zlt_Qlt. change (inject_Z 0) with 0. nra.
Qed.

Lemma scaledCoefficient_val (a : D) (e : Z) :
  0 < dval a -> (e <= dExponent a)%Z ->
  dval a == inject_Z (scaledCoefficient e a) * pow10 e /\ (0 < scaledCoefficient e a)%Z.
Proof.
  intros Ha He. pose proof (dCoefficient_pos a Ha) as Hc.
  assert (scaledCoefficient e a = dCoefficient a * 10 ^ (dExponent a - e))%Z as ->.
  { unfold scaledCoefficient. destruct (Z.ltb_spec 0 (dExponent a - e)).
    - apply Z.abs_eq. pose proof (Z.pow_pos_nonneg 10 (dExponent a - e)). nia.
    - replace (dExponent a - e)%Z with 0%Z by lia. lia. }
  split.
  - unfold dval. rewrite inject_Z_mult, <- pow10_Z by lia.
    rewrite <- Qmult_assoc, <- pow10_plus. by replace (dExponent a - e + e)%Z with (dExponent a) by lia.
  - pose proof (Z.pow_pos_nonneg 10 (dExponent a - e)). nia.
Qed.

(** [q] is a whole number of steps [s]. *)
Definition multipleOf (q s : Q) : Prop := exists n : Z, q == inject_Z n * s.

Lemma grid_multiple (m n : Z) (p : Q) :
  0 < p -> (inject_Z m * p == inject_Z n * p)%Q -> m = n.
Proof.
  intros Hp E. apply Qmult_inj_r in E; [|lra]. unfold Qeq in E. simpl in E. lia.
Qed.

Lemma commonQuantityStep_val (a b : D) :
  0 < dval a -> 0 < dval b ->
  exists e A B, dval a == inject_Z A * pow10 e /\ dval b == inject_Z B * pow10 e
    /\ (0 < A)%Z /\ (0 < B)%Z
    /\ dval (commonQuantityStep a b) == inject_Z (Z.lcm A B) * pow10 e.
Proof.
  intros Ha Hb.
  set (e := if (dExponent b <? dExponent a)%Z then dExponent b else dExponent a).
  assert (e <= dExponent a /\ e <= dExponent b)%Z as [He1 He2].
  { unfold e. destruct (Z.ltb_spec (dExponent b) (dExponent a)); lia. }
  destruct (scaledCoefficient_val a e Ha He1) as [Va HA].
  destruct (scaledCoefficient_val b e Hb He2) as [Vb HB].
  set (A := scaledCoefficient e a) in *. set (B := scaledCoefficient e b) in *.
  exists e, A, B. split_and!; try done.
  unfold commonQuantityStep. fold e. fold A. fold B.
  destruct (dIsPositive_reflect a); [|lra]. destruct (dIsPositive_reflect b); [|lra]. cbn [negb orb].
  assert (0 < Z.gcd A B)%Z as Hg.
  { pose proof (Z.gcd_nonneg A B). pose proof (Z.gcd_eq_0_l A B). lia. }
  destruct (Z.eqb_spec (Z.sgn (Z.gcd A B)) 0); [lia|].
  rewrite dNewFromBigInt_val.
  assert (A * B / Z.gcd A B = Z.lcm A B)%Z as ->; [|reflexivity].
  unfold Z.lcm. destruct (Z.gcd_divide_r A B) as [k Hk].
  rewrite Z.abs_eq; [|apply Z.mul_nonneg_nonneg; [lia|apply Z.div_pos; lia]].
  rewrite Hk at 1 3. rewrite Z.mul_assoc, !Z.div_mul by lia. done.
Qed.

(** The common quantity step of two positive steps is their least common
    multiple: it is positive, a whole number of each step, and divides every
    quantity that is a whole number of both. *)
Theorem commonQuantityStep_lcm (a b : D) :
  0 < dval a -> 0 < dval b ->
  let step := dval (commonQuantityStep a b) in
  0 < step /\ multipleOf step (dval a) /\ multipleOf step (dval b) /\
  (forall q, multipleOf q (dval a) -> multipleOf q (dval b) -> multipleOf q step).
Proof.
  intros Ha Hb step.
  destruct (commonQuantityStep_val a b Ha Hb) as (e & A & B & Va & Vb & HA & HB & Vs).
  pose proof (pow10_pos e) as Hp. unfold step, multipleOf. split_and!.
  - rewrite Vs. assert (0 < Z.lcm A B)%Z as Hl.
    { pose proof (Z.lcm_nonneg A B). pose proof (Z.lcm_eq_0 A B). lia. }
    rewrite Zlt_Qlt in Hl. change (inject_Z 0) with 0 in Hl. nra.
  - destruct (Z.divide_lcm_l A B) as [k Hk]. exists k. rewrite Vs, Va, Hk, inject_Z_mult. ring.
  - destruct (Z.divide_lcm_r A B) as [k Hk]. exists k. rewrite Vs, Vb, Hk, inject_Z_mult. ring.
  - intros q [i Hi] [j Hj].
    assert (i * A = j * B)%Z as Hij.
    { apply (grid_multiple _ _ (pow10 e) Hp). rewrite !inject_Z_mult, <- !Qmult_assoc.
      rewrite <- Va, <- Vb. by rewrite <- Hi, <- Hj. }
    destruct (Z.lcm_least A B (i * A)) as [k Hk]; [by exists i|by exists j|].
    exists k. rewrite Vs, Hi, Va, !Qmult_assoc, <- !inject_Z_mult. by rewrite Hk.
Qed.

(** Flooring to a positive step gives a whole number of steps that is
    less than one step below the value and above it by at most the
    16-digit rounding of the division; on a decimal grid on which the step
    is below [2 * 10^16] units the result never exceeds the value. *)
Theorem floorToStep_spec (v s : D) :
  0 < dval s ->
  let r := dval (floorToStep v s) in
  multipleOf r (dval s) /\ dval v - dval s < r /\ r <= dval v + divEps * dval s
  /\ (onGrid v s -> r <= dval v).
Proof.
  intros Hs r. pose proof (floorToStep_bounds v s Hs) as [H1 H2]. split_and!; try done.
  - eexists. by apply floorToStep_pos.
  - intros Hg. by apply floorToStep_exact.
Qed.

(** The 16-digit division makes [floorToStep] round up: there are values
    just below a multiple of the step whose floor is that multiple, above
    the value (0.99999999999999999 floored to step 1 is 1). *)
Theorem floorToStep_can_exceed :
  exists v s : D, 0 < dval s /\ dval v < dval (floorToStep v s).
Proof.
  destruct (dNewFromString_val (D := D) "0.99999999999999999" _ eq_refl) as (v & _ & Hv).
  destruct (dNewFromString_val (D := D) "1" _ eq_refl) as (s & _ & Hs).
  exists v, s. assert (0 < dval s) as Hs0 by (rewrite Hs; reflexivity). split; [done|].
  rewrite floorToStep_pos by done.
  assert (dval (v / s)%dec == 1) as E.
  { rewrite dDiv_val by (by apply Qpos_nonzero). rewrite Hv, Hs. reflexivity. }
  rewrite E, Hs, Hv. reflexivity.
Qed.

(** ** Venue units *)

Lemma quantityFactor_pos (i : VenueInstrument) (f : D) (c : bool) :
  quantityFactor i = Ok (f, c) -> 0 < dval f.
Proof.
  assert (0 < dval (dNewFromInt (D := D) 1)) as H1 by (rewrite dNewFromInt_val; reflexivity).
  unfold quantityFactor. repeat case_if; try (intros [= <- <-]; done).
  all: destruct (dNewFromString _) as [size|]; [|done].
  all: destruct (dIsPositive_reflect size); cbn [negb]; [|done].
  all: repeat case_if; intros [= <- <-]; try done.
  all: destruct (dIsPositive_reflect (metadataDecimal i "ctMult")); try done.
  all: rewrite dMul_val; nra.
Qed.

(** C39: converting a base quantity to venue units and back returns it up to
    the 16-digit rounding of one division by the contract size, and exactly
    for venues that count base units. *)
Theorem venue_quantity_roundtrip (i : VenueInstrument) (q : D) (w : string) :
  ToVenueQuantity (D := D) i (dString q) = Ok w ->
  exists b f c, FromVenueQuantity (D := D) i w = Ok b /\ quantityFactor i = Ok (f, c) /\
    Qabs (dval (parseDecimal (D := D) b) - dval q) <= (if (c : bool) then divEps * dval f else 0).
Proof.
  unfold ToVenueQuantity, FromVenueQuantity. rewrite dString_TrimSpace.
  destruct (dNewFromString_String q) as (q' & -> & Eq).
  destruct (dIsPositive_reflect q') as [Hq|]; cbn [negb]; [|done].
  destruct (quantityFactor i) as [[f c]|] eqn:Hf; [|done].
  pose proof (quantityFactor_pos i f c Hf) as Hf0. destruct c; cbn [negb].
  - generalize (if negb (dIsPositive (venueQuantityStep i f)) then dNewFromInt 1
                else venueQuantityStep i f).
    intros st. case_if; [done|].
    intros [= <-]. rewrite dString_TrimSpace.
    destruct (dNewFromString_String (q' / f)%dec) as (x & -> & Ex).
    do 3 eexists. split_and!; [done|done|]. rewrite parseDecimal_String, dAbs_val, dMul_val, Ex.
    pose proof (dDiv_bounds q' f (Qpos_nonzero _ Hf0)) as [B1 B2].
    pose proof (dDiv_nonneg q' f (Qlt_le_weak _ _ Hq) Hf0) as Hn.
    rewrite (Qabs_pos (dval (q' / f)%dec * dval f)) by nra. rewrite <- Eq.
    assert (dval q' == dval q' / dval f * dval f) as Hv by (field; lra).
    apply Qabs_Qle_condition. rewrite Hv. set (z := dval q' / dval f) in *. split; nra.
  - intros [= <-]. rewrite dString_TrimSpace.
    destruct (dNewFromString_String q') as (x & -> & Ex).
    do 3 eexists. split_and!; [done|done|]. rewrite parseDecimal_String, dAbs_val, Ex.
    rewrite (Qabs_pos (dval q')) by lra. apply Qabs_Qle_condition. lra.
Qed.
End QuantityFacts.

(** ** Concrete instances of the theorems *)

Section QuantityWitnesses.
Local Open Scope Q_scope.

(** Steps 0.01 and 0.025 have the common step 0.05. *)
Lemma commonQuantityStep_lcm_witness :
  let step := dval (commonQuantityStep (mkDec 1 (-2)) (mkDec 25 (-3))) in
  step == (5 # 100) /\ 0 < step /\ multipleOf step (dval (mkDec 25 (-3))).
Proof.
  split; [reflexivity|].
  destruct (commonQuantityStep_lcm (mkDec 1 (-2)) (mkDec 25 (-3))) as (H1 & _ & H2 & _);
    [reflexivity..|]. exact (conj H1 H2).
Defined.

(** 1.2345 floored to 0.01 is 1.23. *)
Lemma floorToStep_spec_witness :
  dval (floorToStep (mkDec 12345 (-4)) (mkDec 1 (-2))) == (123 # 100) /\
  dval (floorToStep (mkDec 12345 (-4)) (mkDec 1 (-2))) <= dval (mkDec 12345 (-4)).
Proof.
  split; [reflexivity|].
  apply (floorToStep_spec (mkDec 12345 (-4)) (mkDec 1 (-2))); [reflexivity|].
  exists (-4)%Z, 12345%Z, 100%Z. split_and!; reflexivity.
Defined.

Lemma floorToStep_can_exceed_witness :
  exists v s : Dec, 0 < dval s /\ dval v < dval (floorToStep v s).
Proof. exact (floorToStep_can_exceed (D := Dec)). Defined.

(** An OKX perpetual of contract size 0.1: 2.5 base units are 25 contracts. *)
Definition okxSwap : VenueInstrument :=
  zero_VenueInstrument <| vi_Exchange := "okx" |> <| vi_ContractType := "perpetual" |>
    <| vi_ContractSize := "0.1" |> <| vi_QuantityStep := "0.1" |>.

Lemma venue_quantity_roundtrip_witness :
  ToVenueQuantity (D := Dec) okxSwap (dString (mkDec 25 (-1))) = Ok "25"%string /\
  exists b f c, FromVenueQuantity (D := Dec) okxSwap "25" = Ok b /\
    quantityFactor okxSwap = Ok (f, c) /\
    Qabs (dval (parseDecimal (D := Dec) b) - dval (mkDec 25 (-1)))
      <= (if (c : bool) then divEps * dval f else 0).
Proof.
  split; [vm_compute; reflexivity|].
  apply (venue_quantity_roundtrip okxSwap (mkDec 25 (-1)) "25"). vm_compute. reflexivity.
Defined.
End QuantityWitnesses.
