(* ===== verification/Validate.v ===== *)
(** * Order validation (validate.go)

    Normalisation of user input, the instrument's trading rules and the checks
    every order passes before it is sent: positive quantity on the step grid,
    minimum and maximum quantity, limit price on the tick grid, minimum
    notional.  Error texts are the ones the code formats. *)
From Stdlib Require Import ZArith QArith Qround Qabs Qminmax Lqa String.
From stdpp Require Import base strings list.
From S2P Require Import Prelude Decimal DecimalRef Types Quantity.

Definition ConstraintKnown : string := "known".
Definition ConstraintNotApplicable : string := "not_applicable".
Definition ConstraintUnknown : string := "unknown".

Definition errInvalidArgument : GoError := mkError [ErrInvalidArgument] "invalid argument".
Definition errInstrumentUnavailable : GoError :=
  mkError [ErrInstrumentUnavailable] "instrument unavailable".

(** [fmt.Errorf("%w: ...", ErrInvalidArgument, ...)]. *)
Definition invalidArgument (parts : list string) : GoError :=
  mkError [ErrInvalidArgument] (Join ("invalid argument: "%string :: parts) "").

(** ... with a trailing [: %w] of [ErrOrderBelowMinimum]. *)
Definition belowMinimum (parts : list string) : GoError :=
  mkError [ErrInvalidArgument; ErrOrderBelowMinimum]
    (Join ("invalid argument: "%string :: parts ++ [": order below minimum"%string]) "").

(** ** Closing clips *)

(** [arbitrageFlattening], arbitrage_math.go. *)
Definition arbitrageFlattening (c : ArbitrageCombination) : bool :=
  EqualFold (TrimSpace (c_Status c)) "closing" ||
  (EqualFold (TrimSpace (c_Status c)) "running" &&
   EqualFold (TrimSpace (c_RunMode c)) "one_shot" &&
   EqualFold (TrimSpace (c_OneShotPhase c)) "exiting").

Definition allowBelowMinNotional (x : ArbitrageExecution) (i : Instrument) : bool :=
  x_LastCloseClip x && EqualFold (TrimSpace (x_PositionEffect x)) "close" &&
  x_ReduceOnly x && EqualFold (i_ContractType i) "perpetual".

Definition allowBelowMinNotionalCombo
    (c : ArbitrageCombination) (x : ArbitrageExecution) (i : Instrument) : bool :=
  allowBelowMinNotional x i && arbitrageFlattening c.

(** [hasOneShotFinalFlattenIdempotency], arbitrage_one_shot_final_flatten.go. *)
Definition hasOneShotFinalFlattenIdempotency (orders : list Order) (executionID : string) : bool :=
  existsb (fun o => (TrimSpace (o_ArbitrageExecutionID o) =?s TrimSpace executionID) &&
                    Contains (o_IdempotencyKey o) ":final-flatten:") orders.

Definition lastCloseClipMustMatchFillsOrders
    (c : ArbitrageCombination) (x : ArbitrageExecution) (orders : list Order) : bool :=
  if hasOneShotFinalFlattenIdempotency orders (x_ID x) then false
  else arbitrageFlattening c && x_LastCloseClip x &&
       EqualFold (TrimSpace (x_PositionEffect x)) "close" && x_ReduceOnly x.

Definition lastCloseClipMustMatchFills (c : ArbitrageCombination) (x : ArbitrageExecution) : bool :=
  lastCloseClipMustMatchFillsOrders c x [].

Section Validate.
Context {D : Type} `{!Decimal D}.
Local Open Scope dec_scope.

Definition normalizePlaceInput (input : PlaceOrderInput) : Result PlaceOrderInput :=
  let input := input
    <| pi_Token := TrimSpace (pi_Token input) |>
    <| pi_Side := ToLower (TrimSpace (pi_Side input)) |>
    <| pi_OrderType := ToLower (TrimSpace (pi_OrderType input)) |>
    <| pi_Quantity := TrimSpace (pi_Quantity input) |>
    <| pi_Price := TrimSpace (pi_Price input) |>
    <| pi_IdempotencyKey := TrimSpace (pi_IdempotencyKey input) |> in
  if (pi_Token input =?s "") || (pi_TradingAccountID input <=? 0)%Z
     || (pi_InstrumentID input <=? 0)%Z || (pi_IdempotencyKey input =?s "")
     || (negb (pi_Side input =?s "buy") && negb (pi_Side input =?s "sell"))
     || (negb (pi_OrderType input =?s "market") && negb (pi_OrderType input =?s "limit"))
  then Err errInvalidArgument
  else
    match dNewFromString (D := D) (pi_Quantity input) with
    | None => Err errInvalidArgument
    | Some quantity =>
        if negb (dIsPositive quantity) then Err errInvalidArgument
        else if (pi_OrderType input =?s "market") && negb (pi_Price input =?s "")
        then Err errInvalidArgument
        else if pi_OrderType input =?s "limit" then
          match dNewFromString (D := D) (pi_Price input) with
          | None => Err errInvalidArgument
          | Some price =>
              if negb (dIsPositive price) then Err errInvalidArgument
              else Ok (input <| pi_Price := dString price |> <| pi_Quantity := dString quantity |>)
          end
        else Ok (input <| pi_Quantity := dString quantity |>)
    end.

(** ** Instrument rules *)

Definition ruleDecimal (value status : string) : D :=
  if negb (status =?s ConstraintKnown) then dZero else parsePositiveDecimal value.

Definition statusKnown (status : string) : bool :=
  (status =?s ConstraintKnown) || (status =?s ConstraintNotApplicable).

Definition instrumentRulesReady (i : Instrument) (orderType : string) : bool :=
  let t := ToLower (TrimSpace orderType) in
  if t =?s "limit" then
    dIsPositive (parsePositiveDecimal (D := D) (i_QuantityStep i)) &&
    dIsPositive (parsePositiveDecimal (D := D) (i_PriceTick i)) &&
    statusKnown (i_MinQuantityStatus i) && statusKnown (i_MaxQuantityStatus i) &&
    statusKnown (i_MinNotionalStatus i)
  else if t =?s "market" then
    dIsPositive (ruleDecimal (i_MarketQuantityStep i) (i_MarketQuantityStepStatus i)) &&
    statusKnown (i_MarketMinQuantityStatus i) && statusKnown (i_MarketMaxQuantityStatus i) &&
    statusKnown (i_MarketMinNotionalStatus i)
  else false.

Definition validateMinimumRule (quantity : D) (value status : string) : Result unit :=
  if status =?s ConstraintKnown then
    let minimum := parsePositiveDecimal value in
    if negb (dIsPositive minimum) then Err errInstrumentUnavailable
    else if quantity <? minimum
    then Err (belowMinimum ["quantity "; dString quantity; " is below minimum "; dString minimum]%string)
    else Ok tt
  else if status =?s ConstraintNotApplicable then Ok tt
  else Err errInstrumentUnavailable.

Definition validateMaximumRule (quantity : D) (value status : string) : Result unit :=
  if status =?s ConstraintKnown then
    let maximum := parsePositiveDecimal value in
    if negb (dIsPositive maximum) then Err errInstrumentUnavailable
    else if quantity >? maximum
    then Err (invalidArgument ["quantity "; dString quantity; " exceeds maximum "; dString maximum]%string)
    else Ok tt
  else if status =?s ConstraintNotApplicable then Ok tt
  else Err errInstrumentUnavailable.

Definition validateNotionalRule (quantity : D) (referencePrice value status : string) : Result unit :=
  if status =?s ConstraintKnown then
    let minimum := parsePositiveDecimal value in
    let price := parsePositiveDecimal referencePrice in
    if negb (dIsPositive minimum) || negb (dIsPositive price) then Err errInstrumentUnavailable
    else if quantity * price <? minimum
    then Err (belowMinimum ["notional "; dString (quantity * price); " is below minimum "; dString minimum]%string)
    else Ok tt
  else if status =?s ConstraintNotApplicable then Ok tt
  else Err errInstrumentUnavailable.

(** The canonical quantity and price, or the error. *)
Definition prepareOrderMode (i : Instrument) (orderType quantity price referencePrice : string)
    (skipMinNotional : bool) : Result (string * string) :=
  match dNewFromString (D := D) quantity with
  | None => Err (invalidArgument ["quantity "; quoted quantity; " must be positive"]%string)
  | Some qty =>
      if negb (dIsPositive qty)
      then Err (invalidArgument ["quantity "; quoted quantity; " must be positive"]%string)
      else
        let orderType := ToLower (TrimSpace orderType) in
        let market := orderType =?s "market" in
        let step := if market
          then ruleDecimal (i_MarketQuantityStep i) (i_MarketQuantityStepStatus i)
          else parsePositiveDecimal (i_QuantityStep i) in
        let minQuantity := if market then i_MarketMinQuantity i else i_MinQuantity i in
        let minQuantityStatus :=
          if market then i_MarketMinQuantityStatus i else i_MinQuantityStatus i in
        let maxQuantity := if market then i_MarketMaxQuantity i else i_MaxQuantity i in
        let maxQuantityStatus :=
          if market then i_MarketMaxQuantityStatus i else i_MaxQuantityStatus i in
        let minNotional := if market then i_MarketMinNotional i else i_MinNotional i in
        let minNotionalStatus :=
          if market then i_MarketMinNotionalStatus i else i_MinNotionalStatus i in
        if negb market && negb (orderType =?s "limit")
        then Err (invalidArgument ["unsupported order type "; quoted orderType]%string)
        else if negb (dIsPositive step) || negb (dIsZero (dMod qty step))
        then Err (invalidArgument ["quantity "; dString qty; " does not satisfy "; orderType;
                                   " step "; dString step]%string)
        else
          let? _ := validateMinimumRule qty minQuantity minQuantityStatus in
          let? _ := validateMaximumRule qty maxQuantity maxQuantityStatus in
          let? (canonicalPrice, referencePrice) :=
            if orderType =?s "limit" then
              match dNewFromString (D := D) price with
              | None => Err (invalidArgument ["limit price "; quoted price; " must be positive"]%string)
              | Some px =>
                  if negb (dIsPositive px)
                  then Err (invalidArgument ["limit price "; quoted price; " must be positive"]%string)
                  else
                    let tick := parsePositiveDecimal (i_PriceTick i) in
                    if negb (dIsPositive tick) || negb (dIsZero (dMod px tick))
                    then Err (invalidArgument ["price "; dString px; " does not satisfy tick ";
                                               dString tick]%string)
                    else Ok (dString px, dString px)
              end
            else Ok (""%string, referencePrice) in
          let? _ := if skipMinNotional then Ok tt
                    else validateNotionalRule qty referencePrice minNotional minNotionalStatus in
          Ok (dString qty, canonicalPrice)
  end.

Definition prepareOrder (i : Instrument) (orderType quantity price referencePrice : string) :=
  prepareOrderMode i orderType quantity price referencePrice false.

Definition prepareOrderSkippingMinNotional
    (i : Instrument) (orderType quantity price referencePrice : string) :=
  prepareOrderMode i orderType quantity price referencePrice true.

Definition prepareArbitrageOrder (i : Instrument)
    (orderType quantity price referencePrice : string) (x : ArbitrageExecution) :=
  if allowBelowMinNotional x i
  then prepareOrderSkippingMinNotional i orderType quantity price referencePrice
  else prepareOrder i orderType quantity price referencePrice.

Definition validateInstrumentRules (i : Instrument) (orderType quantity price : string) : Result unit :=
  let? _ := prepareOrder i orderType quantity price price in Ok tt.

(** ** TWAP input *)

(** The number of slices, in [int64] arithmetic. *)
Definition twapSlices (startAt endAt : GoTime) (intervalSeconds : Z) : Z :=
  let interval := wrap64 (intervalSeconds * Second)%Z in
  Z.quot (wrap64 (wrap64 (TimeSub endAt startAt + interval)%Z - 1)%Z) interval.

Definition normalizeTwapInput (input : CreateTwapInput) (now : GoTime) : Result CreateTwapInput :=
  let input := input
    <| ti_Token := TrimSpace (ti_Token input) |>
    <| ti_Side := ToLower (TrimSpace (ti_Side input)) |>
    <| ti_TotalQuantity := TrimSpace (ti_TotalQuantity input) |>
    <| ti_LimitPrice := TrimSpace (ti_LimitPrice input) |>
    <| ti_MaxQuantity := TrimSpace (ti_MaxQuantity input) |>
    <| ti_ExecutionType := ToLower (TrimSpace (ti_ExecutionType input)) |>
    <| ti_IdempotencyKey := TrimSpace (ti_IdempotencyKey input) |> in
  if (ti_Token input =?s "") || (ti_TradingAccountID input <=? 0)%Z
     || (ti_InstrumentID input <=? 0)%Z || (ti_IdempotencyKey input =?s "")
     || (negb (ti_Side input =?s "buy") && negb (ti_Side input =?s "sell"))
     || (negb (ti_ExecutionType input =?s "maker") && negb (ti_ExecutionType input =?s "market"))
     || IsZeroTime (ti_StartAt input) || IsZeroTime (ti_EndAt input)
     || negb (TimeAfter (ti_EndAt input) (ti_StartAt input))
     || (ti_IntervalSeconds input <=? 0)%Z
     || (7 * 24 * Hour <? TimeSub (ti_EndAt input) (ti_StartAt input))%Z
     || TimeAfter (ti_StartAt input) (TimeAdd now (30 * 24 * Hour)%Z)
  then Err errInvalidArgument
  else if TimeBefore (ti_StartAt input) (TimeAdd now (- Minute)%Z) then Err errInvalidArgument
  else
    match dNewFromString (D := D) (ti_TotalQuantity input) with
    | None => Err errInvalidArgument
    | Some total =>
        if negb (dIsPositive total) then Err errInvalidArgument
        else
          let input := input <| ti_TotalQuantity := dString total |> in
          let? input :=
            if ti_LimitPrice input =?s "" then Ok input
            else match dNewFromString (D := D) (ti_LimitPrice input) with
                 | None => Err errInvalidArgument
                 | Some price =>
                     if negb (dIsPositive price) then Err errInvalidArgument
                     else Ok (input <| ti_LimitPrice := dString price |>)
                 end in
          let? input :=
            if ti_MaxQuantity input =?s "" then Ok input
            else match dNewFromString (D := D) (ti_MaxQuantity input) with
                 | None => Err errInvalidArgument
                 | Some maxQty =>
                     if negb (dIsPositive maxQty) then Err errInvalidArgument
                     else
                       let slices := twapSlices (ti_StartAt input) (ti_EndAt input)
                                       (ti_IntervalSeconds input) in
                       if maxQty * dNewFromInt slices <? total then Err errInvalidArgument
                       else Ok (input <| ti_MaxQuantity := dString maxQty |>)
                 end in
          if ti_ExecutionType input =?s "maker" then
            if (ti_OrderTimeoutSeconds input <=? 0)%Z
               || (ti_IntervalSeconds input <=? ti_OrderTimeoutSeconds input)%Z
            then Err errInvalidArgument
            else Ok input
          else if negb (ti_OrderTimeoutSeconds input =? 0)%Z then Err errInvalidArgument
          else Ok input
    end.

Definition validateTwapInstrument (i : Instrument) (input : CreateTwapInput) : Result unit :=
  let? _ := validateInstrumentRules i "market" (ti_TotalQuantity input) "" in
  let? _ := if ti_MaxQuantity input =?s "" then Ok tt
            else validateInstrumentRules i "market" (ti_MaxQuantity input) "" in
  if ti_LimitPrice input =?s "" then Ok tt
  else validateInstrumentRules i "limit" (ti_TotalQuantity input) (ti_LimitPrice input).
End Validate.

(** ** The specification of an acceptable order

    A rule of the instrument is a value and a status: it binds when the status
    is [known], is absent when [not_applicable], and an order cannot be checked
    against it (so is refused) when it is unknown or not a positive number. *)

Section ValidateSpec.
Context {D : Type} `{!Decimal D}.
Local Open Scope Q_scope.

Definition ruleHolds (value status : string) (P : Q -> Prop) : Prop :=
  let v := dval (parsePositiveDecimal (D := D) value) in
  (status = ConstraintKnown /\ 0 < v /\ P v) \/ status = ConstraintNotApplicable.

(** The order [qty] at [px] (limit) or at the reference price [ref] (market)
    respects every rule of the instrument. *)
Definition orderAdmissible (i : Instrument) (market : bool) (qty px ref : Q) (skip : bool) : Prop :=
  let step := dval (if market
    then ruleDecimal (D := D) (i_MarketQuantityStep i) (i_MarketQuantityStepStatus i)
    else parsePositiveDecimal (i_QuantityStep i)) in
  let tick := dval (parsePositiveDecimal (D := D) (i_PriceTick i)) in
  0 < qty /\ 0 < step /\ multipleOf qty step /\
  ruleHolds (if market then i_MarketMinQuantity i else i_MinQuantity i)
    (if market then i_MarketMinQuantityStatus i else i_MinQuantityStatus i) (fun m => m <= qty) /\
  ruleHolds (if market then i_MarketMaxQuantity i else i_MaxQuantity i)
    (if market then i_MarketMaxQuantityStatus i else i_MaxQuantityStatus i) (fun m => qty <= m) /\
  (market = false -> 0 < px /\ 0 < tick /\ multipleOf px tick) /\
  (skip = false ->
   ruleHolds (if market then i_MarketMinNotional i else i_MinNotional i)
    (if market then i_MarketMinNotionalStatus i else i_MinNotionalStatus i)
    (fun m => let p := if market then ref else px in 0 < p /\ m <= qty * p)).
End ValidateSpec.

Section ValidateFacts.
Context {D : Type} `{!Decimal D} `{!DecimalLaws D}.
Local Open Scope Q_scope.

Lemma qtrunc_int (n : Z) : qtrunc (inject_Z n) = n.
Proof. unfold qtrunc. case_if; [apply Qfloor_Z|apply Qceiling_Z]. Qed.

Lemma qtrunc_proper (a b : Q) : a == b -> qtrunc a = qtrunc b.
Proof. intros E. unfold qtrunc. rewrite E. by destruct (Qle_bool 0 b); [apply Qfloor_comp|apply Qceiling_comp]. Qed.

(** A zero remainder is divisibility. *)
Lemma dMod_multiple (a s : D) :
  0 < dval s -> dIsZero (dMod a s) = true <-> multipleOf (dval a) (dval s).
Proof.
  intros Hs. rewrite dIsZero_val, dMod_val by lra. split.
  - intros H. exists (qtrunc (dval a / dval s)). lra.
  - intros [n Hn].
    assert (qtrunc (dval a / dval s) = n) as ->.
    { rewrite <- (qtrunc_int n). apply qtrunc_proper. rewrite Hn. field. lra. }
    lra.
Qed.

Lemma step_test (q s : D) :
  negb (dIsPositive s) || negb (dIsZero (dMod q s)) = false <-> 0 < dval s /\ multipleOf (dval q) (dval s).
Proof.
  destruct (dIsPositive_reflect s) as [H|H]; cbn [negb orb].
  - rewrite negb_false_iff, dMod_multiple by done. tauto.
  - split; [done|]. intros [? _]. lra.
Qed.

Lemma rule_iff (value status : string) (bad : D -> bool) (e : D -> GoError) (P : Q -> Prop) :
  (forall m, bad m = false <-> P (dval m)) ->
  (if status =?s ConstraintKnown then
     let m := parsePositiveDecimal value in
     if negb (dIsPositive m) then Err errInstrumentUnavailable
     else if bad m then Err (e m) else Ok tt
   else if status =?s ConstraintNotApplicable then Ok tt
   else Err errInstrumentUnavailable) = Ok tt <-> ruleHolds (D := D) value status P.
Proof.
  intros HP. unfold ruleHolds; cbv zeta.
  destruct (String.eqb_spec status ConstraintKnown) as [->|Hk].
  - destruct (dIsPositive_reflect (parsePositiveDecimal (D := D) value)) as [Hp|Hp]; cbn [negb].
    + destruct (bad _) eqn:E; split; intros H; try done.
      * destruct H as [(_ & _ & H)|?]; [|done]. apply HP in H. congruence.
      * left. by rewrite <- HP.
    + split; [done|]. intros [(_ & ? & _)|?]; [lra|done].
  - destruct (String.eqb_spec status ConstraintNotApplicable); split; try done; [by right|].
    intros [(? & _)|?]; done.
Qed.

Lemma validateMinimumRule_iff (q : D) (value status : string) :
  validateMinimumRule q value status = Ok tt <-> ruleHolds (D := D) value status (fun m => m <= dval q).
Proof.
  unfold validateMinimumRule.
  apply (rule_iff value status (fun m => q <? m)%dec
    (fun m => belowMinimum ["quantity "; dString q; " is below minimum "; dString m]%string)
    (fun m => m <= dval q)). intros m. dec; split; intros; try done; lra.
Qed.

Lemma validateMaximumRule_iff (q : D) (value status : string) :
  validateMaximumRule q value status = Ok tt <-> ruleHolds (D := D) value status (fun m => dval q <= m).
Proof.
  unfold validateMaximumRule.
  apply (rule_iff value status (fun m => q >? m)%dec
    (fun m => invalidArgument ["quantity "; dString q; " exceeds maximum "; dString m]%string)
    (fun m => dval q <= m)). intros m. dec; split; intros; try done; lra.
Qed.

Lemma validateNotionalRule_iff (q : D) (ref value status : string) :
  let p := dval (parsePositiveDecimal (D := D) ref) in
  validateNotionalRule q ref value status = Ok tt <->
  ruleHolds (D := D) value status (fun m => 0 < p /\ m <= dval q * p).
Proof.
  unfold validateNotionalRule, ruleHolds; cbv zeta.
  destruct (String.eqb_spec status ConstraintKnown) as [->|Hk].
  - set (m := parsePositiveDecimal value). set (p := parsePositiveDecimal ref).
    destruct (dIsPositive_reflect m), (dIsPositive_reflect p); cbn [negb orb].
    2-4: split; [done|]; intros [(_ & ? & ? & _)|?]; [lra|done].
    destruct (dLessThan_reflect (q * p)%dec m) as [H|H]; rewrite dMul_val in H; split; try done.
    + intros [(_ & _ & _ & ?)|?]; [lra|done].
    + intros _. left. split_and!; try done. lra.
  - destruct (String.eqb_spec status ConstraintNotApplicable); split; try done; [by right|].
    intros [(? & _)|?]; done.
Qed.

Lemma let_ok_iff {A} (r : Result unit) (k : Result A) (a : A) :
  (let? _ := r in k) = Ok a <-> r = Ok tt /\ k = Ok a.
Proof. destruct r as [[]|e]; split; try done; by intros [? ?]. Qed.

Lemma parsePositiveDecimal_String (a : D) :
  0 < dval a -> dval (parsePositiveDecimal (D := D) (dString a)) == dval a.
Proof.
  intros Ha. unfold parsePositiveDecimal. rewrite dString_TrimSpace.
  destruct (dNewFromString_String a) as (d & -> & E).
  destruct (dIsPositive_reflect d); [done|lra].
Qed.

Lemma ruleHolds_ext (value status : string) (P P' : Q -> Prop) :
  (forall m, P m <-> P' m) ->
  ruleHolds (D := D) value status P <-> ruleHolds (D := D) value status P'.
Proof. intros H. unfold ruleHolds. by setoid_rewrite H. Qed.

(** The price of a market order plays no role. *)
Lemma orderAdmissible_market (i : Instrument) (q px px' ref : Q) (skip : bool) :
  orderAdmissible (D := D) i true q px ref skip -> orderAdmissible (D := D) i true q px' ref skip.
Proof. unfold orderAdmissible; cbv zeta. intros (? & ? & ? & ? & ? & _ & ?). split_and!; done. Qed.

(** The checks of a market order, in order. *)
Lemma prepareOrderMode_market (i : Instrument) (t quantity price ref : string) (skip : bool) (qty : D) :
  ToLower (TrimSpace t) = "market"%string -> dNewFromString quantity = Some qty ->
  forall r, prepareOrderMode (D := D) i t quantity price ref skip = Ok r <->
  r = (dString qty, ""%string) /\
  orderAdmissible (D := D) i true (dval qty) 0 (dval (parsePositiveDecimal (D := D) ref)) skip.
Proof.
  intros Et Eq r. unfold prepareOrderMode, orderAdmissible. rewrite Eq, Et. cbn [String.eqb Ascii.eqb Bool.eqb negb andb].
  destruct (dIsPositive_reflect qty) as [Hq|Hq]; cbn [negb].
  2: { split; [done|]. intros (_ & ? & _). lra. }
  match goal with |- context [if ?b then Err (invalidArgument ("quantity "%string :: _)) else _] =>
    destruct b eqn:E end.
  { split; [done|]. intros (_ & _ & Hs & Hm & _). rewrite (proj2 (step_test _ _) (conj Hs Hm)) in E. done. }
  apply step_test in E as [Hs Hm].
  rewrite !let_ok_iff, validateMinimumRule_iff, validateMaximumRule_iff.
  destruct skip.
  - split.
    + intros (H1 & H2 & _ & [= <-]). split_and!; done.
    + intros (-> & _ & _ & _ & H1 & H2 & _). done.
  - rewrite validateNotionalRule_iff. split.
    + intros (H1 & H2 & H3 & [= <-]). split_and!; done.
    + intros (-> & _ & _ & _ & H1 & H2 & _ & H3). by specialize (H3 eq_refl).
Qed.

(** The checks of a limit order, whose notional is taken at its own price. *)
Lemma prepareOrderMode_limit (i : Instrument) (t quantity price ref : string) (skip : bool) (qty : D) :
  ToLower (TrimSpace t) = "limit"%string -> dNewFromString quantity = Some qty ->
  forall r, prepareOrderMode (D := D) i t quantity price ref skip = Ok r <->
  exists px, dNewFromString price = Some px /\ r = (dString qty, dString px) /\
  orderAdmissible (D := D) i false (dval qty) (dval px) (dval (parsePositiveDecimal (D := D) ref)) skip.
Proof.
  intros Et Eq r. unfold prepareOrderMode, orderAdmissible. rewrite Eq, Et. cbn [String.eqb Ascii.eqb Bool.eqb negb andb].
  destruct (dIsPositive_reflect qty) as [Hq|Hq]; cbn [negb].
  2: { split; [done|]. intros (px & _ & _ & ? & _). lra. }
  match goal with |- context [if ?b then Err (invalidArgument ("quantity "%string :: _)) else _] =>
    destruct b eqn:E end.
  { split; [done|]. intros (px & _ & _ & _ & Hs & Hm & _).
    rewrite (proj2 (step_test _ _) (conj Hs Hm)) in E. done. }
  apply step_test in E as [Hs Hm].
  rewrite !let_ok_iff, validateMinimumRule_iff, validateMaximumRule_iff.
  destruct (dNewFromString price) as [px|].
  2: { split; [by intros (_ & _ & ?)|]. by intros (px & ? & _). }
  destruct (dIsPositive_reflect px) as [Hp|Hp]; cbn [negb].
  2: { split; [by intros (_ & _ & ?)|]. intros (px' & [= ->] & _ & _ & _ & _ & _ & _ & H & _).
       destruct (H eq_refl) as [? _]. lra. }
  match goal with |- context [if ?b then Err (invalidArgument ("price "%string :: _)) else _] =>
    destruct b eqn:E end.
  { split; [by intros (_ & _ & ?)|]. intros (px' & [= <-] & _ & _ & _ & _ & _ & _ & H & _).
    destruct (H eq_refl) as (_ & Ht & Hpm). rewrite (proj2 (step_test _ _) (conj Ht Hpm)) in E. done. }
  apply step_test in E as [Ht Hpm]. cbv match. rewrite let_ok_iff.
  assert (validateNotionalRule qty (dString px) (i_MinNotional i) (i_MinNotionalStatus i) = Ok tt
          <-> ruleHolds (D := D) (i_MinNotional i) (i_MinNotionalStatus i)
                (fun m => 0 < dval px /\ m <= dval qty * dval px)) as Hn.
  { rewrite validateNotionalRule_iff. apply ruleHolds_ext. intros m.
    by rewrite parsePositiveDecimal_String. }
  split.
  - intros (H1 & H2 & H3 & [= <-]). exists px. split_and!; try done.
    intros ->. by apply Hn.
  - intros (px' & [= <-] & -> & _ & _ & _ & H1 & H2 & _ & H3). split_and!; try done.
    destruct skip; [done|]. apply Hn. by apply H3.
Qed.

Lemma prepareOrderMode_inv (i : Instrument) (t quantity price ref : string) (skip : bool)
    (cq cp : string) :
  prepareOrderMode (D := D) i t quantity price ref skip = Ok (cq, cp) ->
  exists (market : bool) (qty px : D),
    ToLower (TrimSpace t) = (if market then "market" else "limit")%string /\
    dNewFromString quantity = Some qty /\ cq = dString qty /\
    (if market then px = dZero /\ cp = ""%string
     else dNewFromString price = Some px /\ cp = dString px) /\
    orderAdmissible (D := D) i market (dval qty) (dval px)
      (dval (parsePositiveDecimal (D := D) ref)) skip.
Proof.
  intros H. assert (H' := H). unfold prepareOrderMode in H'.
  destruct (dNewFromString quantity) as [qty|] eqn:Eq; [|done].
  destruct (negb (dIsPositive qty)); [done|]. cbv zeta in H'.
  destruct (String.eqb_spec (ToLower (TrimSpace t)) "market") as [Et|Nm].
  + destruct (proj1 (prepareOrderMode_market i t quantity price ref skip qty Et Eq _) H) as [Er Ha].
    injection Er as -> ->. exists true, qty, dZero. split_and!; try done.
    by apply orderAdmissible_market with 0.
  + destruct (String.eqb_spec (ToLower (TrimSpace t)) "limit") as [Et|]; [|done].
    destruct (proj1 (prepareOrderMode_limit i t quantity price ref skip qty Et Eq _) H)
      as (px & Ep & Er & Ha).
    injection Er as -> ->. by exists false, qty, px.
Qed.

(** C2: [prepareOrderMode] accepts an order exactly when its numerals parse to
    an admissible order: a positive quantity on the step grid, within the
    instrument's quantity bounds, a limit price on the tick grid and, unless
    the check is skipped, a notional at least the minimum; a rule of unknown
    status always refuses.  It then returns the canonical numerals. *)
Theorem prepareOrderMode_iff (i : Instrument) (t quantity price ref : string) (skip : bool)
    (cq cp : string) :
  prepareOrderMode (D := D) i t quantity price ref skip = Ok (cq, cp) <->
  exists (market : bool) (qty px : D),
    ToLower (TrimSpace t) = (if market then "market" else "limit")%string /\
    dNewFromString quantity = Some qty /\ cq = dString qty /\
    (if market then px = dZero /\ cp = ""%string
     else dNewFromString price = Some px /\ cp = dString px) /\
    orderAdmissible (D := D) i market (dval qty) (dval px)
      (dval (parsePositiveDecimal (D := D) ref)) skip.
Proof.
  split.
  - apply prepareOrderMode_inv.
  - intros (market & qty & px & Et & Eq & -> & Hp & Ha). destruct market.
    + destruct Hp as [-> ->]. apply (prepareOrderMode_market i t quantity price ref skip qty); [done..|].
      split; [done|]. by apply orderAdmissible_market with (dval (D := D) dZero).
    + destruct Hp as [Ep ->]. apply (prepareOrderMode_limit i t quantity price ref skip qty); [done..|].
      by exists px.
Qed.

Lemma ruleHolds_statusKnown (value status : string) (P : Q -> Prop) :
  ruleHolds (D := D) value status P -> statusKnown status = true.
Proof. by intros [(-> & _)| ->]. Qed.

(** An order [prepareOrder] accepts is for an instrument whose rules are
    complete for that order type: the readiness test the scheduler runs before
    it starts a combination never refuses an instrument that can trade. *)
Theorem prepareOrder_ready (i : Instrument) (t quantity price ref : string) (r : string * string) :
  prepareOrder (D := D) i t quantity price ref = Ok r -> instrumentRulesReady (D := D) i t = true.
Proof.
  destruct r as [cq cp]. intros H. unfold prepareOrder in H.
  apply prepareOrderMode_inv in H as (market & qty & px & Et & _ & _ & _ & Ha).
  unfold instrumentRulesReady; cbv zeta. rewrite Et.
  destruct Ha as (_ & Hs & _ & Hmin%ruleHolds_statusKnown & Hmax%ruleHolds_statusKnown & Hp & Hn).
  specialize (Hn eq_refl). apply ruleHolds_statusKnown in Hn.
  destruct market; cbn [String.eqb Ascii.eqb Bool.eqb].
  - rewrite Hmin, Hmax, Hn, (proj2 (dIsPositive_val _) Hs). done.
  - destruct (Hp eq_refl) as (_ & Ht & _).
    rewrite Hmin, Hmax, Hn, (proj2 (dIsPositive_val _) Hs), (proj2 (dIsPositive_val _) Ht). done.
Qed.

(** Only the final reduce-only close clip of a perpetual may be below the
    minimum notional: an order [prepareArbitrageOrder] accepts and
    [prepareOrder] refuses belongs to such a clip, and still satisfies every
    rule but the notional one. *)
Theorem prepareArbitrageOrder_below_min (i : Instrument) (t quantity price ref : string)
    (x : ArbitrageExecution) (r : string * string) :
  prepareArbitrageOrder (D := D) i t quantity price ref x = Ok r ->
  prepareOrder (D := D) i t quantity price ref <> Ok r ->
  x_LastCloseClip x = true /\ x_ReduceOnly x = true /\
  EqualFold (TrimSpace (x_PositionEffect x)) "close" = true /\
  EqualFold (i_ContractType i) "perpetual" = true /\
  exists (market : bool) (qty px : D), dNewFromString quantity = Some qty /\
    orderAdmissible (D := D) i market (dval qty) (dval px)
      (dval (parsePositiveDecimal (D := D) ref)) true.
Proof.
  unfold prepareArbitrageOrder. destruct (allowBelowMinNotional x i) eqn:Ea; [|done].
  intros H _. unfold allowBelowMinNotional in Ea. bool_to_prop. split_and!; [done..|].
  destruct r as [cq cp]. apply prepareOrderMode_inv in H as (m & qty & px & _ & Eq & _ & _ & Ha).
  by exists m, qty, px.
Qed.

(** A TWAP job is validated as a market order without a reference price,
    so on an instrument whose market minimum notional is known the validation
    always fails, whatever the quantity. *)
Theorem validateTwapInstrument_known_notional (i : Instrument) (input : CreateTwapInput) :
  i_MarketMinNotionalStatus i = ConstraintKnown ->
  validateTwapInstrument (D := D) i input <> Ok tt.
Proof.
  intros Hk H. unfold validateTwapInstrument, validateInstrumentRules in H.
  destruct (prepareOrder i "market" (ti_TotalQuantity input) "" "") as [[cq cp]|e] eqn:E; [|done].
  unfold prepareOrder in E.
  apply prepareOrderMode_inv in E as (market & qty & px & Et & _ & _ & _ & Ha).
  destruct market; [|discriminate Et].
  destruct Ha as (_ & _ & _ & _ & _ & _ & Hn). destruct (Hn eq_refl) as [(_ & _ & Hp & _)|Hna].
  - enough (dval (parsePositiveDecimal (D := D) "") == 0) by lra.
    destruct (parsePositiveDecimal_cases (D := D) "") as [[Hs _]|[_ Hz]]; [|done].
    rewrite dNewFromString_empty in Hs. discriminate Hs.
  - rewrite Hk in Hna. discriminate Hna.
Qed.

(** ** TWAP input *)

Lemma TimeSub_exact (t u : GoTime) (b : Z) :
  (u < t)%Z -> (TimeSub t u <= b)%Z -> (b < int64_max)%Z -> TimeSub t u = (t - u)%Z.
Proof. unfold TimeSub, int64_min, int64_max. lia. Qed.

Lemma wrap64_id (z : Z) : (int64_min <= z <= int64_max)%Z -> wrap64 z = z.
Proof. unfold wrap64, int64_min, int64_max. intros H. rewrite Z.mod_small; lia. Qed.

(** Within a week and for an interval that fits 32 bits the slice count is the
    exact ceiling. *)
Lemma twapSlices_ceil (s e : GoTime) (n : Z) :
  (s < e)%Z -> (TimeSub e s <= 7 * 24 * Hour)%Z -> (0 < n < 2 ^ 31)%Z ->
  twapSlices s e n = ((e - s + n * Second - 1) / (n * Second))%Z.
Proof.
  intros Hse Hd Hn. unfold twapSlices; cbv zeta.
  rewrite (TimeSub_exact e s (7 * 24 * Hour)) in * by done.
  unfold Hour, Minute, Second in *.
  rewrite (wrap64_id (n * 1000000000)) by (unfold int64_min, int64_max; lia).
  rewrite (wrap64_id (e - s + n * 1000000000)) by (unfold int64_min, int64_max; lia).
  rewrite wrap64_id by (unfold int64_min, int64_max; lia).
  apply Z.quot_div_nonneg; lia.
Qed.

(** The value of an optional numeral field: empty, or the canonical numeral of
    a positive number. *)
Definition optionalPositive (s : string) : Prop :=
  s = ""%string \/ exists d : D, s = dString d /\ 0 < dval d.

Lemma dString_nonempty (a : D) : dString a <> ""%string.
Proof. destruct (dString_val a) as (q & Hq & _). intros E. rewrite E in Hq. discriminate Hq. Qed.

Lemma dString_inj (a b : D) : dString a = dString b -> dval a == dval b.
Proof.
  intros E. destruct (dString_val a) as (p & Hp & <-). destruct (dString_val b) as (q & Hq & <-).
  rewrite E, Hq in Hp. by injection Hp as ->.
Qed.

Lemma twap_timeout_inv (et : string) (ot iv : Z) (n r : CreateTwapInput) :
  (if et =?s "maker" then
     if (ot <=? 0)%Z || (iv <=? ot)%Z then Err errInvalidArgument else Ok n
   else if negb (ot =? 0)%Z then Err errInvalidArgument else Ok n) = Ok r ->
  r = n /\ ((et = "maker"%string /\ (0 < ot < iv)%Z) \/ (et <> "maker"%string /\ ot = 0%Z)).
Proof.
  destruct (String.eqb_spec et "maker"); repeat case_if; intros [= ->]; (split; [done|]);
    bool_to_prop; [left|right]; split; done || lia.
Qed.

(** A TWAP request that passes normalisation names an account, an
    instrument, a side and an execution type, starts between one minute ago
    and thirty days ahead, lasts at most a week, has a positive quantity and,
    when it caps the slice quantity, enough slices (counted with the last
    partial interval) to fill the total; a maker job times its orders out
    within one interval and a market job has no timeout. *)
Theorem normalizeTwapInput_sound (input r : CreateTwapInput) (now : GoTime) :
  normalizeTwapInput (D := D) input now = Ok r ->
  (0 < ti_TradingAccountID r)%Z /\ (0 < ti_InstrumentID r)%Z /\
  ti_Token r <> ""%string /\ ti_IdempotencyKey r <> ""%string /\
  (ti_Side r = "buy" \/ ti_Side r = "sell")%string /\
  (now - Minute <= ti_StartAt r <= now + 30 * 24 * Hour)%Z /\
  (ti_StartAt r < ti_EndAt r <= ti_StartAt r + 7 * 24 * Hour)%Z /\
  (0 < ti_IntervalSeconds r)%Z /\
  (exists total : D, ti_TotalQuantity r = dString total /\ 0 < dval total /\
     forall m : D, ti_MaxQuantity r = dString m -> (ti_IntervalSeconds r < 2 ^ 31)%Z ->
       let I := (ti_IntervalSeconds r * Second)%Z in
       0 < dval m /\
       dval total <= dval m * inject_Z ((ti_EndAt r - ti_StartAt r + I - 1) / I)) /\
  optionalPositive (ti_LimitPrice r) /\ optionalPositive (ti_MaxQuantity r) /\
  ((ti_ExecutionType r = "maker"%string /\
    (0 < ti_OrderTimeoutSeconds r < ti_IntervalSeconds r)%Z) \/
   (ti_ExecutionType r = "market"%string /\ ti_OrderTimeoutSeconds r = 0%Z)).
Proof.
  unfold normalizeTwapInput. cbv zeta.
  match goal with |- context [ti_Token ?n =?s ""] => generalize n end.
  intros [tok acct inst side tq sA eA iv lp mq et ot ik] H. unfold setter in H.
  cbn [ti_Token ti_TradingAccountID ti_InstrumentID ti_Side ti_TotalQuantity ti_StartAt ti_EndAt
    ti_IntervalSeconds ti_LimitPrice ti_MaxQuantity ti_ExecutionType ti_OrderTimeoutSeconds
    ti_IdempotencyKey] in H.
  match type of H with (if ?b then _ else _) = _ => destruct b eqn:Eg; [done|] end.
  match type of H with (if ?b then _ else _) = _ => destruct b eqn:Es; [done|] end.
  destruct (dNewFromString tq) as [total|] eqn:Et; [|done].
  destruct (dIsPositive_reflect total) as [Htot|]; cbn [negb] in H; [|done].
  assert (exists lp' mq', optionalPositive lp' /\ optionalPositive mq' /\
    r = mkCreateTwapInput tok acct inst side (dString total) sA eA iv lp' mq' et ot ik /\
    (forall m : D, mq' = dString m -> 0 < dval m /\ dval total <= dval m * inject_Z (twapSlices sA eA iv)) /\
    ((et = "maker"%string /\ (0 < ot < iv)%Z) \/ (et <> "maker"%string /\ ot = 0%Z)))
    as (lp' & mq' & Hlp & Hmq & -> & Hslices & Het).
  { destruct (String.eqb_spec lp "") as [->|_].
    2: destruct (dNewFromString lp) as [price|]; [|done];
       destruct (dIsPositive_reflect price); cbn [negb] in H; [|done].
    all: cbn in H; destruct (String.eqb_spec mq "") as [->|_].
    2, 4: destruct (dNewFromString mq) as [m|]; [|done];
       destruct (dIsPositive_reflect m); cbn [negb] in H; [|done];
       destruct (dLessThan_reflect (m * dNewFromInt (twapSlices sA eA iv))%dec total) as [|Hle]; [done|];
       cbn in H; rewrite dMul_val, dNewFromInt_val in Hle.
    all: cbn in H; apply (twap_timeout_inv et ot iv) in H as [-> Het].
    all: do 2 eexists; split_and!; [..|reflexivity| |exact Het].
    all: try (left; reflexivity); try (right; eexists; split; [reflexivity|done]).
    all: try (intros x Hx; symmetry in Hx; by apply dString_nonempty in Hx).
    all: intros x Hx; apply dString_inj in Hx; rewrite <- Hx; split; [done|lra]. }
  cbn [ti_Token ti_TradingAccountID ti_InstrumentID ti_Side ti_TotalQuantity ti_StartAt ti_EndAt
    ti_IntervalSeconds ti_LimitPrice ti_MaxQuantity ti_ExecutionType ti_OrderTimeoutSeconds
    ti_IdempotencyKey]. clear H.
  unfold TimeAfter, TimeBefore, TimeAdd in *. bool_to_prop.
  assert (TimeSub eA sA <= 7 * 24 * Hour)%Z as Hd by done.
  assert (TimeSub eA sA = eA - sA)%Z as Hsub by (by apply (TimeSub_exact eA sA (7 * 24 * Hour))).
  split_and!; try lia; try (by apply String.eqb_neq); try done.
  - destruct (String.eqb_spec side "buy"); [by left|].
    destruct (String.eqb_spec side "sell"); [by right|done].
  - exists total. split_and!; try done. intros m Hm Hiv. destruct (Hslices m Hm) as [Hp Hle].
    split; [done|]. by rewrite twapSlices_ceil in Hle by (done || lia).
  - destruct Het as [?|[Hne ->]]; [by left|right].
    destruct (String.eqb_spec et "maker"); [done|].
    by destruct (String.eqb_spec et "market").
Qed.
End ValidateFacts.

(** ** Concrete instances of the theorems *)

Section ValidateWitnesses.
Local Open Scope Q_scope.

(** A perpetual with complete rules: step 0.001, tick 0.1, quantities from
    0.001 to 100, notional of at least 5. *)
Definition ruledPerp : Instrument :=
  zero_Instrument <| i_Exchange := "binance" |> <| i_ContractType := "perpetual" |>
    <| i_QuantityStep := "0.001" |> <| i_PriceTick := "0.1" |>
    <| i_MinQuantity := "0.001" |> <| i_MinQuantityStatus := "known" |>
    <| i_MaxQuantity := "100" |> <| i_MaxQuantityStatus := "known" |>
    <| i_MinNotional := "5" |> <| i_MinNotionalStatus := "known" |>
    <| i_MarketQuantityStep := "0.001" |> <| i_MarketQuantityStepStatus := "known" |>
    <| i_MarketMinQuantity := "0.001" |> <| i_MarketMinQuantityStatus := "known" |>
    <| i_MarketMaxQuantity := "50" |> <| i_MarketMaxQuantityStatus := "known" |>
    <| i_MarketMinNotional := "5" |> <| i_MarketMinNotionalStatus := "known" |>.

Lemma prepareOrderMode_iff_witness :
  prepareOrderMode (D := Dec) ruledPerp " LIMIT" "0.5" "100.1" "" false = Ok ("0.5", "100.1")%string /\
  exists (market : bool) (qty px : Dec),
    dNewFromString "0.5" = Some qty /\
    orderAdmissible (D := Dec) ruledPerp market (dval qty) (dval px)
      (dval (parsePositiveDecimal (D := Dec) "")) false.
Proof.
  split; [vm_compute; reflexivity|].
  destruct (proj1 (prepareOrderMode_iff (D := Dec) ruledPerp " LIMIT" "0.5" "100.1" "" false
    "0.5" "100.1")) as (m & q & p & _ & Hq & _ & _ & Ha); [vm_compute; reflexivity|].
  exists m, q, p. exact (conj Hq Ha).
Defined.

Lemma prepareOrder_ready_witness :
  prepareOrder (D := Dec) ruledPerp "market" "0.5" "" "100" = Ok ("0.5", "")%string /\
  instrumentRulesReady (D := Dec) ruledPerp "market" = true.
Proof.
  split; [vm_compute; reflexivity|].
  apply (prepareOrder_ready (D := Dec) ruledPerp "market" "0.5" "" "100" ("0.5", "")%string).
  vm_compute. reflexivity.
Defined.

(** The last reduce-only clip of 0.01 at 100 has notional 1, below the minimum. *)
Definition lastClip : ArbitrageExecution :=
  zero_ArbitrageExecution <| x_PositionEffect := "close" |> <| x_ReduceOnly := true |>
    <| x_LastCloseClip := true |>.

Lemma prepareArbitrageOrder_below_min_witness :
  prepareArbitrageOrder (D := Dec) ruledPerp "market" "0.01" "" "100" lastClip = Ok ("0.01", "")%string /\
  exists (market : bool) (qty px : Dec), dNewFromString "0.01" = Some qty /\
    orderAdmissible (D := Dec) ruledPerp market (dval qty) (dval px)
      (dval (parsePositiveDecimal (D := Dec) "100")) true.
Proof.
  split; [vm_compute; reflexivity|].
  apply (prepareArbitrageOrder_below_min (D := Dec) ruledPerp "market" "0.01" "" "100" lastClip
    ("0.01", "")%string); [vm_compute; reflexivity|vm_compute; discriminate].
Defined.

Lemma validateTwapInstrument_known_notional_witness :
  i_MarketMinNotionalStatus ruledPerp = ConstraintKnown /\
  validateTwapInstrument (D := Dec) ruledPerp
    (zero_CreateTwapInput <| ti_TotalQuantity := "10" |>) <> Ok tt.
Proof.
  split; [reflexivity|]. apply (validateTwapInstrument_known_notional (D := Dec)). reflexivity.
Defined.

(** One hour from now, ten units in slices of five minutes and at most one
    unit: twelve slices. *)
Definition twapRequest : CreateTwapInput :=
  mkCreateTwapInput "token" 7 9 "Buy" " 10 " (1700000000 * Second)%Z (1700003600 * Second)%Z 300 "" "1"
    "maker" 60 "key".

Lemma normalizeTwapInput_sound_witness :
  exists r, normalizeTwapInput (D := Dec) twapRequest (1700000000 * Second)%Z = Ok r /\
    (ti_Side r = "buy" \/ ti_Side r = "sell")%string /\ ti_MaxQuantity r = dString (mkDec 1 0).
Proof.
  eexists. split; [vm_compute; reflexivity|]. split; [|reflexivity].
  apply (normalizeTwapInput_sound (D := Dec) twapRequest _ (1700000000 * Second)%Z).
  vm_compute. reflexivity.
Defined.
End ValidateWitnesses.
