(* ===== verification/ArbMath.v ===== *)
(** * Arbitrage position arithmetic (arbitrage_math.go)

    Spreads between the two legs of a combination, the direction of a trade,
    the position that may still be opened or closed, quantities on the steps
    both venues accept, the carry between the legs, and the tests that decide
    whether a closing combination is down to dust.

    A Go result [(value, ok)] whose value is zero when [ok] is false is an
    [option]; [(zero, reason, false)] is [inl reason]. *)
From Stdlib Require Import ZArith QArith Qround Qabs Qminmax Lqa String.
From stdpp Require Import base strings list.
From S2P Require Import Prelude Decimal DecimalRef Types Quantity Validate.

(** ** Sides, order types and statuses *)

(** [(legA, legB, ok)] of [arbitrageLegSides]. *)
Definition arbitrageLegSides (direction : string) : option (string * string) :=
  let d := ToLower (TrimSpace direction) in
  if d =?s "ask" then Some ("buy", "sell")%string
  else if d =?s "bid" then Some ("sell", "buy")%string
  else None.

Definition arbitrageOrderTypes (c : ArbitrageCombination) : string * string :=
  if c_ExecutionMode c =?s "simultaneous_market" then
    (if l_ContractType (c_LegA c) =?s "spot" then "limit" else "market",
     if l_ContractType (c_LegB c) =?s "spot" then "limit" else "market")%string
  else ("limit", "limit")%string.

Definition terminalStatus (status : string) : bool :=
  (status =?s "filled") || (status =?s "canceled") || (status =?s "rejected") || (status =?s "expired").

Definition makerPositionSign (side : string) : Z :=
  if EqualFold (TrimSpace side) "sell" then (-1)%Z else 1%Z.

Definition bboPriceForSide (bbo : BBO) (side : string) : string :=
  if EqualFold (TrimSpace side) "sell" then b_BidPrice bbo else b_AskPrice bbo.

Definition bboQuantityForSide (bbo : BBO) (side : string) : string :=
  if EqualFold (TrimSpace side) "sell" then b_BidQuantity bbo else b_AskQuantity bbo.

Definition Stale (b : BBO) (now : GoTime) (maxAge : Duration) : bool :=
  (maxAge <=? 0) || IsZeroTime (b_ReceiveTimestamp b) ||
  (maxAge <? TimeSub now (b_ReceiveTimestamp b)).

Definition closeFlattenBothPerpetual (contractA contractB : string) : bool :=
  EqualFold (TrimSpace contractA) "perpetual" && EqualFold (TrimSpace contractB) "perpetual".

Definition closeFlattenSnapshotFresh (at_ now : GoTime) : bool :=
  if IsZeroTime at_ || TimeEqual at_ unixEpoch then false
  else let age := TimeSub now at_ in (0 <=? age) && (age <=? 2 * Minute).

Definition circuitOpenBaselineComplete (c : ArbitrageCombination) : bool :=
  timeSet (c_VenueBaselineCapturedAt c).

(** [latestOrderUpdatedAt]: the greatest update time, the zero time for none. *)
Definition latestOrderUpdatedAt (orders : list Order) : GoTime :=
  fold_left (fun latest o => if TimeAfter (o_UpdatedAt o) latest then o_UpdatedAt o else latest)
    orders zeroTime.

Definition arbitrageMinOpenNotional : Z := 20.
Definition arbitrageMaxOrderNotional : Z := 1000.
Definition arbitrageRandomNotionalMax : Z := 20.

Record arbitragePositionPlan (D : Type) := mkPositionPlan {
  pp_Direction : string;
  pp_Effect : string;
  pp_ReduceOnly : bool;
  pp_RequestedNotional : D
}.
Arguments mkPositionPlan {D}.
Arguments pp_Direction {D}.
Arguments pp_Effect {D}.
Arguments pp_ReduceOnly {D}.
Arguments pp_RequestedNotional {D}.

Record closeFlattenTinyOwnedInput := mkTinyOwned {
  tiny_Combination : ArbitrageCombination;
  tiny_InstrumentA : Instrument;
  tiny_InstrumentB : Instrument;
  tiny_BBOA : BBO;
  tiny_BBOB : BBO;
  tiny_Now : GoTime;
  tiny_LatestOrderAt : GoTime;
  tiny_RequireOrders : bool;
  tiny_SignalBBOStale : Duration
}.

Section ArbMath.
Context {D : Type} `{!Decimal D}.
Local Open Scope dec_scope.

Definition tenThousand : D := dNewFromInt 10000.

(** ** Spreads *)

Definition calculateArbitrageSpreads (legABid legAAsk legBBid legBAsk : D) : option (D * D) :=
  if negb (dIsPositive legABid) || negb (dIsPositive legAAsk) ||
     negb (dIsPositive legBBid) || negb (dIsPositive legBAsk)
  then None
  else Some ((legBAsk / legAAsk - dNewFromInt 1) * tenThousand,
             (legBBid / legABid - dNewFromInt 1) * tenThousand).

(** The open and the close spread. *)
Definition executableArbitrageSpreads (c : ArbitrageCombination)
    (legABid legAAsk legBBid legBAsk : D) : option (D * D) :=
  if EqualFold (TrimSpace (c_ExecutionMode c)) "simultaneous_market" then
    if negb (dIsPositive legABid) || negb (dIsPositive legAAsk) ||
       negb (dIsPositive legBBid) || negb (dIsPositive legBAsk)
    then None
    else Some ((legBBid / legAAsk - dNewFromInt 1) * tenThousand,
               (legBAsk / legABid - dNewFromInt 1) * tenThousand)
  else match calculateArbitrageSpreads legABid legAAsk legBBid legBAsk with
       | None => None
       | Some (quoteAsk, quoteBid) =>
           if EqualFold (TrimSpace (c_MakerLeg c)) "a" then Some (quoteBid, quoteAsk)
           else Some (quoteAsk, quoteBid)
       end.

Definition arbitrageTriggered (askSpread bidSpread askThreshold bidThreshold : D) : string :=
  if askSpread >=? askThreshold then "ask"
  else if bidSpread <=? bidThreshold then "bid"
  else "".

Definition selectArbitragePositionDirection
    (openSpread closeSpread openThreshold closeThreshold position target : D) : string :=
  if (position <? target) && (openSpread >=? openThreshold) then "ask"
  else if closeSpread <=? closeThreshold then "bid"
  else "".

Definition opportunityStillValid (c : ArbitrageCombination) (legA legB : BBO) (direction : string) : bool :=
  if EqualFold (TrimSpace (c_RunMode c)) "one_shot" then true
  else match executableArbitrageSpreads c
               (parsePositiveDecimal (b_BidPrice legA)) (parsePositiveDecimal (b_AskPrice legA))
               (parsePositiveDecimal (b_BidPrice legB)) (parsePositiveDecimal (b_AskPrice legB)) with
       | None => false
       | Some (open, close) =>
           let d := ToLower (TrimSpace direction) in
           if d =?s "ask" then open >=? parseDecimal (c_AskThresholdBps c)
           else if d =?s "bid" then close <=? parseDecimal (c_BidThresholdBps c)
           else false
       end.

(** ** Positions *)

Definition arbitragePositionOverTarget (notional target : D) : bool :=
  dIsPositive target && (dAbs notional >=? target).

Definition planArbitragePosition (venueNotional target order : D) (direction : string)
    : option (arbitragePositionPlan D) :=
  if negb (dIsPositive target) || negb (dIsPositive order) then None
  else
    let d := ToLower (TrimSpace direction) in
    if d =?s "ask" then
      let size := dMin order (target - venueNotional) in
      if negb (dIsPositive size) then None
      else Some (mkPositionPlan "ask" "open" false size)
    else if d =?s "bid" then
      if negb (dIsPositive venueNotional) then None
      else
        let size := dMin order venueNotional in
        if negb (dIsPositive size) then None
        else Some (mkPositionPlan "bid" "close" true size)
    else None.

(** The baselines the venue held before the combination, once captured. *)
Definition venueBaselines (c : ArbitrageCombination) : D * D :=
  if timeSet (c_VenueBaselineCapturedAt c)
  then (parseDecimal (c_LegAVenueBaselineBasePosition c), parseDecimal (c_LegBVenueBaselineBasePosition c))
  else (dZero, dZero).

Definition arbitrageCloseableBase (c : ArbitrageCombination) : D :=
  let '(baselineA, baselineB) := venueBaselines c in
  let legAAvailable := baselineA + parseDecimal (c_LegABasePosition c) in
  let legBAvailable := dNeg (baselineB + parseDecimal (c_LegBBasePosition c)) in
  if dIsPositive legAAvailable && dIsPositive legBAvailable
  then dMin legAAvailable legBAvailable
  else if dIsNegative legAAvailable && dIsNegative legBAvailable
  then dMin (dAbs legAAvailable) (dAbs legBAvailable)
  else dZero.

(** [ownedPairedQuantity], arbitrage_one_shot_exit.go. *)
Definition ownedPairedQuantity (ownedA ownedB : D) : D :=
  if dIsZero ownedA || dIsZero ownedB || (dSign ownedA =? dSign ownedB)%Z then dZero
  else dMin (dAbs ownedA) (dAbs ownedB).

Definition arbitrageOwnedCloseableBase (c : ArbitrageCombination) : D :=
  ownedPairedQuantity (parseDecimal (c_LegABasePosition c)) (parseDecimal (c_LegBBasePosition c)).

Definition arbitragePairedCloseDirection (legA legB : D) : option string :=
  if dIsPositive legA && dIsNegative legB then Some "bid"%string
  else if dIsNegative legA && dIsPositive legB then Some "ask"%string
  else None.

Definition arbitrageOwnedCloseDirection (c : ArbitrageCombination) : option string :=
  arbitragePairedCloseDirection
    (parseDecimal (c_LegABasePosition c)) (parseDecimal (c_LegBBasePosition c)).

Definition arbitrageVenueReduceDirection (c : ArbitrageCombination) : option string :=
  let '(baselineA, baselineB) := venueBaselines c in
  arbitragePairedCloseDirection
    (baselineA + parseDecimal (c_LegABasePosition c)) (baselineB + parseDecimal (c_LegBBasePosition c)).

Definition pairedAskNotional (legA legB : D) : D :=
  if dIsPositive legA && dIsPositive legB then dMin legA legB
  else if dIsNegative legA && dIsNegative legB then dNeg (dMin (dAbs legA) (dAbs legB))
  else dZero.

(** [(venueNotional, comboNotional, baselineCaptured)]. *)
Definition arbitragePositionNotionals (c : ArbitrageCombination) (legAMid legBMid : D) : D * D * bool :=
  if negb (dIsPositive legAMid) || negb (dIsPositive legBMid) then (dZero, dZero, false)
  else
    let baselineCaptured := timeSet (c_VenueBaselineCapturedAt c) in
    let '(baselineA, baselineB) := venueBaselines c in
    let comboA := parseDecimal (c_LegABasePosition c) in
    let comboB := parseDecimal (c_LegBBasePosition c) in
    (pairedAskNotional ((baselineA + comboA) * legAMid) (dNeg (baselineB + comboB) * legBMid),
     pairedAskNotional (comboA * legAMid) (dNeg comboB * legBMid),
     baselineCaptured).

Definition capSpotReduceQuantity (quantity comboBase : D) (side : string) (step : D) : D :=
  let s := ToLower (TrimSpace side) in
  let available :=
    if s =?s "sell" then if dIsPositive comboBase then comboBase else dZero
    else if s =?s "buy" then if dIsNegative comboBase then dAbs comboBase else dZero
    else dZero in
  if negb (dIsPositive available) then dZero
  else floorToStep (dMin quantity available) step.

Definition signedPositionDelta (direction : string) (fillA fillB mark : D) : D :=
  let completed := dMin fillA fillB * mark in
  if negb (dIsPositive completed) then dZero
  else if EqualFold (TrimSpace direction) "bid" then dNeg completed
  else completed.

Definition executionNotional (c : ArbitrageCombination) (x : ArbitrageExecution) : D :=
  parsePositiveDecimal (x_RequestedNotional x).

Definition executionHasExposure (x : ArbitrageExecution) : bool :=
  if dIsPositive (parseDecimal (D := D) (x_LegAFilledQuantity x)) ||
     dIsPositive (parseDecimal (D := D) (x_LegBFilledQuantity x)) then true
  else if (x_Status x =?s "maker_open") || (x_Status x =?s "maker_canceling")
  then negb (x_MakerOrderID x =?s "")
  else if (x_Status x =?s "hedging") || (x_Status x =?s "reconciling")
  then negb (x_MakerOrderID x =?s "") || negb (x_HedgeOrderID x =?s "")
  else false.

(** [2 << (failures - 1)] seconds, capped, in [int] arithmetic. *)
Definition arbitrageBackoff (failures : Z) : D :=
  if (failures <=? 0)%Z then dNewFromInt 2
  else
    let seconds := int_shl 2 (failures - 1)%Z in
    let seconds := if (60 <? seconds)%Z then 60%Z else seconds in
    dNewFromInt seconds.

Definition baseQuantityForNotional (notional price step : D) : D :=
  if negb (dIsPositive notional) || negb (dIsPositive price) then dZero
  else floorToStep (notional / price) step.

Definition deltaNotional (legABaseFilled legBBaseFilled markPrice : D) : D :=
  if negb (dIsPositive markPrice) then dZero
  else dAbs (legABaseFilled - legBBaseFilled) * markPrice.

(** ** Carry *)

Definition makerQuantityWithinCarryBudget (requested carry : D) (side : string) (roundBaseCap step : D) : D :=
  let requested := floorToStep (dMin requested roundBaseCap) step in
  if negb (dIsPositive requested) || dIsZero carry then requested
  else
    let makerSign := dNewFromInt 1 in
    let makerSign := if EqualFold (TrimSpace side) "sell" then dNeg makerSign else makerSign in
    if negb (dSign carry =? dSign makerSign)%Z then requested
    else
      let headroom := roundBaseCap - dAbs carry in
      if negb (dIsPositive headroom) then dZero
      else floorToStep (dMin requested headroom) step.

Definition carrySameSignAsMaker (carry : D) (makerSide : string) : bool :=
  negb (dIsZero carry) && (dSign carry =? makerPositionSign makerSide)%Z.

Definition expectedCarryAfterMaker (carry makerQty : D) (makerSide : string) : D :=
  if EqualFold (TrimSpace makerSide) "sell" then carry - makerQty else carry + makerQty.

Definition carryBeforeExecutionFromFills (refreshedCarry legAFilled legBFilled : D) (direction : string)
    : Result D :=
  let d := ToLower (TrimSpace direction) in
  if d =?s "ask" then Ok (refreshedCarry - (legAFilled - legBFilled))
  else if d =?s "bid" then Ok (refreshedCarry - (legBFilled - legAFilled))
  else Err (invalidArgument ["unsupported arbitrage direction "; quoted direction]%string).

Definition carryHedgeSide (carry : D) : string :=
  if dIsNegative carry then "buy" else "sell".

(** ** Executable quantities *)

Definition instrumentOrderStep (i : Instrument) (orderType : string) : D :=
  if EqualFold (TrimSpace orderType) "market"
  then ruleDecimal (i_MarketQuantityStep i) (i_MarketQuantityStepStatus i)
  else parsePositiveDecimal (i_QuantityStep i).

Definition prepareSizedOrder (i : Instrument)
    (orderType quantity price referencePrice effect : string) (reduceOnly lastClip : bool) : Result unit :=
  let? _ := prepareArbitrageOrder (D := D) i orderType quantity price referencePrice
    (zero_ArbitrageExecution <| x_PositionEffect := effect |> <| x_ReduceOnly := reduceOnly |>
       <| x_LastCloseClip := lastClip |>) in
  Ok tt.

Definition preflightPrice (i : Instrument) (orderType : string) (reference : D) : string :=
  if negb (orderType =?s "limit") then ""
  else
    let tick := parsePositiveDecimal (i_PriceTick i) in
    if negb (dIsPositive tick) then ""
    else dString (floorToStep reference tick).

(** The quantity both legs can trade, or the reason there is none. *)
Definition arbitrageExecutableBase (c : ArbitrageCombination) (iA iB : Instrument) (bboA bboB : BBO)
    (direction effect : string) (notional : D) (lastClip : bool) : string + D :=
  match arbitrageLegSides direction with
  | None => inl "invalid close size"%string
  | Some (aSide, bSide) =>
      if negb (dIsPositive notional) then inl "invalid close size"%string
      else
        let priceA := parsePositiveDecimal (if aSide =?s "sell" then b_BidPrice bboA else b_AskPrice bboA) in
        let priceB := parsePositiveDecimal (if bSide =?s "sell" then b_BidPrice bboB else b_AskPrice bboB) in
        if negb (dIsPositive priceA) || negb (dIsPositive priceB) then inl "missing bbo price"%string
        else
          let '(orderTypeA, orderTypeB) := arbitrageOrderTypes c in
          let step := commonQuantityStep (instrumentOrderStep iA orderTypeA)
                        (instrumentOrderStep iB orderTypeB) in
          if negb (dIsPositive step) then inl "quantity step is invalid"%string
          else
            let quantity := floorToStep (dMin (notional / priceA) (notional / priceB)) step in
            let quantity :=
              if EqualFold direction "bid"
              then floorToStep (dMin quantity (arbitrageCloseableBase c)) step
              else quantity in
            if negb (dIsPositive quantity) then inl "quantity floored to zero"%string
            else
              let closing := EqualFold (TrimSpace effect) "close" in
              match prepareSizedOrder iA orderTypeA (dString quantity)
                      (preflightPrice iA orderTypeA priceA) (dString priceA) effect closing lastClip with
              | Err e => inl (err_text e)
              | Ok _ =>
                  match prepareSizedOrder iB orderTypeB (dString quantity)
                          (preflightPrice iB orderTypeB priceB) (dString priceB) effect closing lastClip with
                  | Err e => inl (err_text e)
                  | Ok _ =>
                      match ToVenueQuantity (D := D) (toVenueInstrument iA) (dString quantity) with
                      | Err e => inl (err_text e)
                      | Ok _ =>
                          match ToVenueQuantity (D := D) (toVenueInstrument iB) (dString quantity) with
                          | Err e => inl (err_text e)
                          | Ok _ => inr quantity
                          end
                      end
                  end
              end
  end.

(** ** Closing a combination that holds dust *)

Definition closeFlattenQuantityStep (i : Instrument) : D :=
  let step := instrumentOrderStep i "market" in
  if negb (dIsPositive step) then parsePositiveDecimal (i_QuantityStep i) else step.

Definition positionDifferenceWithinMarketStep (difference step : D) : bool :=
  if negb (dIsPositive step) then false
  else dIsZero (floorToStep (dAbs difference) step).

(** [wall] is the clock read when the input carries no time. *)
Definition closeFlattenTinyOwnedContext (wall : GoTime) (in_ : closeFlattenTinyOwnedInput) : bool :=
  let now := if IsZeroTime (tiny_Now in_) then wall else tiny_Now in_ in
  let c := tiny_Combination in_ in
  if negb (EqualFold (TrimSpace (c_Status c)) "closing") then false
  else if c_PositionUncertain c then false
  else if negb (closeFlattenBothPerpetual (l_ContractType (c_LegA c)) (l_ContractType (c_LegB c)))
  then false
  else if negb (circuitOpenBaselineComplete c) then false
  else if negb (positionDifferenceWithinMarketStep (parseDecimal (c_LegAPositionDifference c))
                  (closeFlattenQuantityStep (tiny_InstrumentA in_)))
       || negb (positionDifferenceWithinMarketStep (parseDecimal (c_LegBPositionDifference c))
                  (closeFlattenQuantityStep (tiny_InstrumentB in_)))
  then false
  else closeFlattenSnapshotFresh (c_LastPositionReconciledAt c) now.

Definition closeFlattenSide (base : D) : string :=
  if dIsNegative base then "buy" else "sell".

Definition closeFlattenQuantity (i : Instrument) (base : D) : D :=
  floorToStep (dAbs base) (closeFlattenQuantityStep i).

Definition closeFlattenOwnedExecutablePrice (owned : D) (bbo : BBO) : D :=
  if dIsZero owned then dZero
  else parsePositiveDecimal (bboPriceForSide bbo (closeFlattenSide owned)).

(** [(owned, venue, baseline)] of a leg. *)
Definition closeFlattenOwnedLegValues (c : ArbitrageCombination) (legName : string) : D * D * D :=
  if EqualFold (TrimSpace legName) "b" then
    (parseDecimal (c_LegBBasePosition c), parseDecimal (c_LegBVenueBasePosition c),
     parseDecimal (c_LegBVenueBaselineBasePosition c))
  else
    (parseDecimal (c_LegABasePosition c), parseDecimal (c_LegAVenueBasePosition c),
     parseDecimal (c_LegAVenueBaselineBasePosition c)).

Definition closeFlattenOwnedVenueReducible (c : ArbitrageCombination) (legName : string) : bool :=
  let '(owned, venue, baseline) := closeFlattenOwnedLegValues c legName in
  if dIsZero owned then true
  else
    let delta := venue - baseline in
    if negb (dSign delta =? dSign owned)%Z then false
    else dAbs delta >=? dAbs owned.

Definition closeFlattenOwnedPlaceBase (c : ArbitrageCombination) (i : Instrument) (legName : string) : D :=
  let '(owned, venue, baseline) := closeFlattenOwnedLegValues c legName in
  if dIsZero owned then dZero
  else
    let unsigned := dMin (dAbs owned) (dAbs (venue - baseline)) in
    let stepped := closeFlattenQuantity i unsigned in
    if negb (dIsPositive stepped) then dZero
    else if dIsNegative owned then dNeg stepped
    else stepped.

Definition closeFlattenOwnedBBOUnusable (owned : D) (bbo : BBO) (now : GoTime) (stale : Duration) : bool :=
  if dIsZero owned then false
  else if Stale bbo now stale then true
  else negb (dIsPositive (closeFlattenOwnedExecutablePrice owned bbo)).

Definition closeFlattenTinyOwnedWaitingSnapshot (wall : GoTime) (in_ : closeFlattenTinyOwnedInput) : bool :=
  let now := if IsZeroTime (tiny_Now in_) then wall else tiny_Now in_ in
  let c := tiny_Combination in_ in
  if negb (closeFlattenTinyOwnedContext wall in_) then false
  else if tiny_RequireOrders in_ && negb (IsZeroTime (tiny_LatestOrderAt in_)) &&
          TimeBefore (c_LastPositionReconciledAt c) (tiny_LatestOrderAt in_)
  then true
  else
    let legA := parseDecimal (c_LegABasePosition c) in
    let legB := parseDecimal (c_LegBBasePosition c) in
    closeFlattenOwnedBBOUnusable legA (tiny_BBOA in_) now (tiny_SignalBBOStale in_) ||
    closeFlattenOwnedBBOUnusable legB (tiny_BBOB in_) now (tiny_SignalBBOStale in_).

Definition closeFlattenTinyOwnedPositions (wall : GoTime) (in_ : closeFlattenTinyOwnedInput) : bool :=
  let c := tiny_Combination in_ in
  if negb (closeFlattenTinyOwnedContext wall in_) then false
  else if closeFlattenTinyOwnedWaitingSnapshot wall in_ then false
  else
    let legA := parseDecimal (c_LegABasePosition c) in
    let legB := parseDecimal (c_LegBBasePosition c) in
    if dIsZero legA && dIsZero legB then false
    else if negb (closeFlattenOwnedVenueReducible c "a") || negb (closeFlattenOwnedVenueReducible c "b")
    then false
    else
      let threshold := dNewFromInt arbitrageMinOpenNotional in
      if negb (dIsZero legA) &&
         negb (dAbs legA * closeFlattenOwnedExecutablePrice legA (tiny_BBOA in_) <? threshold)
      then false
      else if negb (dIsZero legB) &&
         negb (dAbs legB * closeFlattenOwnedExecutablePrice legB (tiny_BBOB in_) <? threshold)
      then false
      else true.

(** ** Reopening a tripped circuit *)

Definition circuitOpenNotionalWithinTarget (comboNotional target : D) : bool :=
  if negb (dIsPositive target) then false else dAbs comboNotional <=? target.

(** [executableHedgeQuantity], arbitrage_executor.go: the quantity, whether it
    can be ordered, and the error. *)
Definition executableHedgeQuantity (target price : D) (i : Instrument) (skipMinNotional : bool)
    : D * bool * option GoError :=
  let quantity := floorToStep target (parsePositiveDecimal (i_QuantityStep i)) in
  if negb (dIsPositive quantity) then (dZero, false, None)
  else
    let checkNotional :=
      if skipMinNotional then (quantity, true, None)
      else if i_MinNotionalStatus i =?s ConstraintKnown then
        let minimum := parsePositiveDecimal (i_MinNotional i) in
        if negb (dIsPositive minimum) || negb (dIsPositive price)
        then (quantity, false, Some errInstrumentUnavailable)
        else if quantity * price <? minimum then (quantity, false, None)
        else (quantity, true, None)
      else if i_MinNotionalStatus i =?s ConstraintNotApplicable then (quantity, true, None)
      else (quantity, false, Some errInstrumentUnavailable) in
    if i_MinQuantityStatus i =?s ConstraintKnown then
      let minimum := parsePositiveDecimal (i_MinQuantity i) in
      if negb (dIsPositive minimum) then (quantity, false, Some errInstrumentUnavailable)
      else if quantity <? minimum then (quantity, false, None)
      else checkNotional
    else if i_MinQuantityStatus i =?s ConstraintNotApplicable then checkNotional
    else (quantity, false, Some errInstrumentUnavailable).

Definition circuitOpenCarryDust (carry : D) (iA iB : Instrument) (markA markB : D) : bool :=
  if dIsZero carry then true
  else
    let target := dAbs carry in
    let '(_, eligibleA, errA) := executableHedgeQuantity target markA iA false in
    let '(_, eligibleB, errB) := executableHedgeQuantity target markB iB false in
    match errA, errB with
    | None, None => negb eligibleA && negb eligibleB
    | _, _ => false
    end.

Definition circuitOpenLegsNotSameDirection (localA localB : D) : bool :=
  if dIsZero localA || dIsZero localB then true
  else negb (dSign localA =? dSign localB)%Z.

Definition circuitOpenOrderMatchesVenue (order : Order) (result : VenueResult) : bool :=
  if negb (terminalStatus (o_Status order)) || negb (terminalStatus (r_Status result)) then false
  else if negb (EqualFold (TrimSpace (o_Status order)) (TrimSpace (r_Status result))) then false
  else parseDecimal (D := D) (o_FilledQuantity order) =? parseDecimal (r_FilledQuantity result).

Definition signedFilledBase (order : Order) : D :=
  let filled := parseDecimal (o_FilledQuantity order) in
  if negb (dIsPositive filled) then dZero
  else if EqualFold (TrimSpace (o_Side order)) "sell" then dNeg filled
  else filled.
End ArbMath.

(** ** Facts *)

Section ArbMathFacts.
Context {D : Type} `{!Decimal D} `{!DecimalLaws D}.
Local Open Scope Q_scope.

(** The position of a leg after an order of [q] on [side]. *)
Definition applySide (side : string) (position q : Q) : Q :=
  if side =?s "sell" then position - q else position + q.

(** A planned trade never overshoots: an open trade keeps the position at
    or below the target, a close trade is reduce-only and stops at zero, both
    are positive and at most one order; and a plan is refused only when the
    target or the order is not positive, the direction is unknown or there is
    no room in that direction. *)
Theorem planArbitragePosition_spec (venue target order : D) (direction : string) :
  let d := ToLower (TrimSpace direction) in
  match planArbitragePosition venue target order direction with
  | Some p =>
      let size := dval (pp_RequestedNotional p) in
      0 < size <= dval order /\
      ((d = "ask"%string /\ p = mkPositionPlan "ask" "open" false (pp_RequestedNotional p) /\
        dval venue + size <= dval target) \/
       (d = "bid"%string /\ p = mkPositionPlan "bid" "close" true (pp_RequestedNotional p) /\
        0 <= dval venue - size < dval venue))
  | None =>
      dval target <= 0 \/ dval order <= 0 \/ (d <> "ask" /\ d <> "bid")%string \/
      (d = "ask"%string /\ dval target <= dval venue) \/ (d = "bid"%string /\ dval venue <= 0)
  end.
Proof.
  cbv zeta. unfold planArbitragePosition.
  destruct (dIsPositive_reflect target) as [Ht|], (dIsPositive_reflect order) as [Ho|];
    cbn [negb orb]; try lra; try (left; lra); try (right; left; lra).
  destruct (String.eqb_spec (ToLower (TrimSpace direction)) "ask") as [E|Na]; [rewrite E|].
  - destruct (dIsPositive_reflect (dMin order (target - venue)%dec)) as [Hs|Hs]; cbn [negb].
    + cbn [pp_RequestedNotional]. dec; (split; [lra|left; split_and!; [done..|lra]]).
    + right; right; right; left. split; [done|]. dec.
  - destruct (String.eqb_spec (ToLower (TrimSpace direction)) "bid") as [E|Nb]; [rewrite E|].
    + destruct (dIsPositive_reflect venue) as [Hv|Hv]; cbn [negb].
      2: right; right; right; right; split; [done|lra].
      destruct (dIsPositive_reflect (dMin order venue)) as [Hs|Hs]; cbn [negb].
      * cbn [pp_RequestedNotional]. dec; (split; [lra|right; split_and!; [done..|lra|lra]]).
      * exfalso. dec.
    + by right; right; left.
Qed.

(** The venue position of both legs: baseline plus what the combination owns. *)
Definition venuePosition (c : ArbitrageCombination) : Q * Q :=
  let '(baselineA, baselineB) := venueBaselines (D := D) c in
  (dval baselineA + dval (parseDecimal (D := D) (c_LegABasePosition c)),
   dval baselineB + dval (parseDecimal (D := D) (c_LegBBasePosition c))).

Lemma venuePosition_cases (c : ArbitrageCombination) (a b : Q) :
  venuePosition c = (a, b) ->
  match arbitrageVenueReduceDirection (D := D) c with
  | Some d =>
      (d = "bid"%string /\ 0 < a /\ b < 0 \/ d = "ask"%string /\ a < 0 /\ 0 < b) /\
      dval (arbitrageCloseableBase (D := D) c) == Qmin (Qabs a) (Qabs b)
  | None => dval (arbitrageCloseableBase (D := D) c) == 0
  end.
Proof.
  unfold venuePosition, arbitrageVenueReduceDirection, arbitrageCloseableBase.
  destruct (venueBaselines c) as [bA bB]. intros [= <- <-].
  unfold arbitragePairedCloseDirection.
  set (pA := parseDecimal (c_LegABasePosition c)). set (pB := parseDecimal (c_LegBBasePosition c)).
  destruct (dIsPositive_reflect (bA + pA)%dec), (dIsNegative_reflect (bB + pB)%dec),
    (dIsNegative_reflect (bA + pA)%dec), (dIsPositive_reflect (bB + pB)%dec),
    (dIsPositive_reflect (dNeg (bB + pB)%dec)), (dIsNegative_reflect (dNeg (bB + pB)%dec));
    cbn [andb]; dec_val; try lra; try (split; [first [left; split_and!; done|right; split_and!; done]|]).
  - rewrite (Qabs_pos (dval bA + _)) by lra. rewrite (Qabs_neg (dval bB + _)) by lra. reflexivity.
  - rewrite (Qabs_opp (dval bB + _)). reflexivity.
Qed.

(** The closeable quantity is safe to trade reduce-only: it is positive
    exactly when the legs hold opposite positions, and trading any quantity up
    to it in the reduce direction moves both venue positions towards zero
    without crossing it. *)
Theorem closeable_reduces_both_legs (c : ArbitrageCombination) (a b : Q) :
  venuePosition c = (a, b) ->
  match arbitrageVenueReduceDirection (D := D) c with
  | None => dval (arbitrageCloseableBase (D := D) c) == 0 /\ ~ a * b < 0
  | Some d =>
      a * b < 0 /\ 0 < dval (arbitrageCloseableBase (D := D) c) /\
      exists sideA sideB, arbitrageLegSides d = Some (sideA, sideB) /\
      forall q, 0 <= q -> q <= dval (arbitrageCloseableBase (D := D) c) ->
        Qabs (applySide sideA a q) == Qabs a - q /\ Qabs (applySide sideB b q) == Qabs b - q
  end.
Proof.
  intros Hv. pose proof (venuePosition_cases c a b Hv) as H.
  unfold venuePosition, arbitrageVenueReduceDirection in *.
  destruct (venueBaselines c) as [bA bB].
  destruct (arbitragePairedCloseDirection _ _) as [d|] eqn:Ed.
  - destruct H as [Hd Hc].
    assert (a * b < 0 /\ 0 < Qmin (Qabs a) (Qabs b)) as [H1 H2].
    { destruct Hd as [(_ & ? & ?)|(_ & ? & ?)]; split; [nra| |nra|];
      repeat qminmax1; repeat qabs1; lra. }
    split_and!; [done|by rewrite Hc|].
    destruct Hd as [(-> & ? & ?)|(-> & ? & ?)]; do 2 eexists; (split; [reflexivity|]);
      intros q Hq Hle; rewrite Hc, Q.min_glb_iff in Hle; destruct Hle as [Ha Hb];
      unfold applySide; cbn.
    + rewrite (Qabs_pos a) in * by lra. rewrite (Qabs_neg b) in * by lra.
      rewrite (Qabs_pos (a - q)), (Qabs_neg (b + q)) by lra. lra.
    + rewrite (Qabs_neg a) in * by lra. rewrite (Qabs_pos b) in * by lra.
      rewrite (Qabs_neg (a + q)), (Qabs_pos (b - q)) by lra. lra.
  - split; [done|]. injection Hv as <- <-. unfold arbitragePairedCloseDirection in Ed.
    intros Hn. destruct (dIsPositive_reflect (bA + parseDecimal (c_LegABasePosition c))%dec),
      (dIsNegative_reflect (bB + parseDecimal (c_LegBBasePosition c))%dec),
      (dIsNegative_reflect (bA + parseDecimal (c_LegABasePosition c))%dec),
      (dIsPositive_reflect (bB + parseDecimal (c_LegBBasePosition c))%dec); try done;
      dec_val; nra.
Qed.

(** ** Carry *)

(** The carry after a maker fill of [q], [1] or [-1] times [q] away. *)
Lemma expectedCarryAfterMaker_val (carry q : D) (side : string) :
  dval (expectedCarryAfterMaker carry q side) ==
  dval carry + inject_Z (makerPositionSign side) * dval q.
Proof.
  unfold expectedCarryAfterMaker, makerPositionSign.
  destruct (EqualFold (TrimSpace side) "sell"); dec_val;
    [change (inject_Z (-1)) with (- (1))|change (inject_Z 1) with 1]; lra.
Qed.

Lemma makerSign_val (side : string) :
  dSign (if EqualFold (TrimSpace side) "sell" then dNeg (dNewFromInt (D := D) 1) else dNewFromInt 1)
  = makerPositionSign side.
Proof.
  unfold makerPositionSign. case_if; [apply dSign_neg|apply dSign_pos]; dec_val; reflexivity.
Qed.

Lemma makerPositionSign_cases (side : string) :
  makerPositionSign side = 1%Z \/ makerPositionSign side = (-1)%Z.
Proof. unfold makerPositionSign. case_if; [by right|by left]. Qed.

(** C38: the maker quantity respects the carry budget: it is at most the
    request and the round cap, and a full fill leaves a carry whose size is at
    most the larger of the cap and the carry it started from (each bound up to
    the 16-digit rounding of the two step computations). *)
Theorem makerQuantity_within_carry_budget (requested carry cap step : D) (side : string) :
  0 <= dval requested -> 0 <= dval cap ->
  let r := makerQuantityWithinCarryBudget requested carry side cap step in
  0 <= dval r /\
  dval r <= dval requested + 2 * stepEps step /\ dval r <= dval cap + 2 * stepEps step /\
  Qabs (dval (expectedCarryAfterMaker carry r side)) <=
    Qmax (dval cap) (Qabs (dval carry)) + 2 * stepEps step.
Proof.
  intros Hr Hc r.
  set (r1 := floorToStep (dMin requested cap) step).
  pose proof (stepEps_nonneg step) as He.
  assert (0 <= dval r1) as H0.
  { apply floorToStep_nonneg. rewrite dMin_val. by apply Q.min_glb. }
  assert (dval r1 <= dval requested + stepEps step /\ dval r1 <= dval cap + stepEps step) as [H1 H2].
  { pose proof (floorToStep_le (dMin requested cap) step) as H. rewrite dMin_val in H.
    pose proof (Q.le_min_l (dval requested) (dval cap)).
    pose proof (Q.le_min_r (dval requested) (dval cap)). split; unfold r1; lra. }
  assert (0 <= dval r /\ dval r <= dval r1 + stepEps step /\
    (dSign carry = makerPositionSign side -> 0 < dval r -> Qabs (dval carry) + dval r <= dval cap + stepEps step))
    as (Ha & Hb & Hs).
  { unfold r, makerQuantityWithinCarryBudget. fold r1. rewrite makerSign_val.
    destruct (dIsPositive_reflect r1) as [Hp|Hp]; cbn [negb orb]; [|split_and!; lra].
    destruct (dIsZero_reflect carry) as [Hz|Hz].
    { split_and!; try lra. intros _ _. rewrite Hz. change (Qabs 0) with 0. lra. }
    destruct (Z.eqb_spec (dSign carry) (makerPositionSign side)) as [E|E]; cbn [negb]; [|split_and!; [lra..|done]].
    destruct (dIsPositive_reflect (cap - dAbs carry)%dec) as [Hh|Hh]; cbn [negb].
    2: { rewrite dZero_val. split_and!; lra. }
    pose proof (floorToStep_le (dMin r1 (cap - dAbs carry)%dec) step) as H.
    assert (0 <= dval (floorToStep (dMin r1 (cap - dAbs carry)%dec) step)) as Hn.
    { apply floorToStep_nonneg. rewrite dMin_val. apply Q.min_glb; lra. }
    rewrite dMin_val, dSub_val, dAbs_val in *.
    pose proof (Q.le_min_l (dval r1) (dval cap - Qabs (dval carry))).
    pose proof (Q.le_min_r (dval r1) (dval cap - Qabs (dval carry))). split_and!; lra. }
  split_and!; try lra.
  rewrite expectedCarryAfterMaker_val.
  pose proof (Q.le_max_l (dval cap) (Qabs (dval carry))) as Hm1.
  pose proof (Q.le_max_r (dval cap) (Qabs (dval carry))) as Hm2.
  set (M := Qmax _ _) in *. clearbody M.
  apply Qabs_Qle_condition.
  destruct (Qlt_le_dec 0 (dval r)) as [Hp|Hp].
  - destruct (makerPositionSign_cases side) as [E|E]; rewrite E in *;
      [change (inject_Z 1) with 1|change (inject_Z (-1)) with (- (1))];
      destruct (dSign_cases carry) as [[? Es]|[[? Es]|[? Es]]]; rewrite Es in Hs;
      try specialize (Hs eq_refl Hp); qabs1; lra.
  - assert (dval r == 0) as -> by lra. qabs1; lra.
Qed.

(** The carry before an execution is recovered from the carry after it:
    whatever the fills of the two legs, undoing them in the execution's
    direction returns the carry they were applied to; an unknown direction is
    refused. *)
Theorem carryBeforeExecution_inverts (carry fillA fillB : D) (direction sideA sideB : string) :
  arbitrageLegSides direction = Some (sideA, sideB) ->
  exists before,
    carryBeforeExecutionFromFills
      (expectedCarryAfterMaker (expectedCarryAfterMaker carry fillA sideA) fillB sideB)
      fillA fillB direction = Ok before /\ deq before carry.
Proof.
  unfold arbitrageLegSides, carryBeforeExecutionFromFills; cbv zeta.
  destruct (ToLower (TrimSpace direction) =?s "ask") eqn:E1;
    [|destruct (ToLower (TrimSpace direction) =?s "bid") eqn:E2; [|done]]; intros [= <- <-];
    eexists; (split; [reflexivity|]); unfold deq; rewrite !dSub_val, !expectedCarryAfterMaker_val;
    change (makerPositionSign "buy") with 1%Z; change (makerPositionSign "sell") with (-1)%Z;
    change (inject_Z 1) with 1; change (inject_Z (-1)) with (- (1)); lra.
Qed.

(** ** Spreads *)

Lemma dDiv_mono (a b a' b' : D) :
  0 < dval b -> 0 < dval b' -> dval a * dval b' <= dval a' * dval b ->
  dval (a / b)%dec <= dval (a' / b')%dec.
Proof.
  intros Hb Hb' H. rewrite !dDiv_val by lra. apply qround_mono.
  apply Qle_shift_div_l; [done|].
  assert (dval a / dval b * dval b' == dval a * dval b' / dval b) as -> by (field; lra).
  by apply Qle_shift_div_r.
Qed.

Lemma spread_mono (q q' : D) :
  dval q <= dval q' ->
  dval ((q - dNewFromInt 1) * tenThousand)%dec <= dval ((q' - dNewFromInt 1) * tenThousand)%dec.
Proof. intros H. unfold tenThousand. dec_val. change (inject_Z 10000) with 10000. lra. Qed.

(** Taking both legs at market is never shown a better spread than quoting
    one leg: on uncrossed books the open spread of a simultaneous-market
    combination is at most, and its close spread at least, that of the same
    combination with a maker leg, whichever leg it is. *)
Theorem simultaneous_spreads_conservative (c c' : ArbitrageCombination) (bidA askA bidB askB : D)
    (open close open' close' : D) :
  dval bidA <= dval askA -> dval bidB <= dval askB ->
  EqualFold (TrimSpace (c_ExecutionMode c)) "simultaneous_market" = true ->
  EqualFold (TrimSpace (c_ExecutionMode c')) "simultaneous_market" = false ->
  executableArbitrageSpreads c bidA askA bidB askB = Some (open, close) ->
  executableArbitrageSpreads c' bidA askA bidB askB = Some (open', close') ->
  dval open <= dval open' /\ dval close' <= dval close.
Proof.
  intros HA HB E E'. unfold executableArbitrageSpreads, calculateArbitrageSpreads. rewrite E, E'.
  destruct (dIsPositive_reflect bidA), (dIsPositive_reflect askA), (dIsPositive_reflect bidB),
    (dIsPositive_reflect askB); cbn [negb orb]; try done.
  intros [= <- <-]. destruct (EqualFold (TrimSpace (c_MakerLeg c')) "a"); intros [= <- <-];
    split; apply spread_mono, dDiv_mono; try done; nra.
Qed.

(** A direction the thresholds select is still valid on the same quotes. *)
Lemma selected_direction_valid (c : ArbitrageCombination) (legA legB : BBO) (open close position target : D) :
  executableArbitrageSpreads c
    (parsePositiveDecimal (b_BidPrice legA)) (parsePositiveDecimal (b_AskPrice legA))
    (parsePositiveDecimal (b_BidPrice legB)) (parsePositiveDecimal (b_AskPrice legB)) = Some (open, close) ->
  let d := selectArbitragePositionDirection open close (parseDecimal (c_AskThresholdBps c))
             (parseDecimal (c_BidThresholdBps c)) position target in
  d <> ""%string -> opportunityStillValid (D := D) c legA legB d = true.
Proof.
  intros Hs d Hd. unfold opportunityStillValid. rewrite Hs.
  destruct (EqualFold (TrimSpace (c_RunMode c)) "one_shot"); [done|].
  subst d. revert Hd. unfold selectArbitragePositionDirection.
  destruct (position <? target)%dec, (open >=? _)%dec eqn:E1, (close <=? _)%dec eqn:E2; cbn; done.
Qed.

(** ** Backoff *)

(** The retry delay doubles from two seconds and is capped at sixty for
    up to 62 failures, but the unguarded shift overflows beyond: the delay
    is negative after 63 failures and zero after 64 or more. *)
Theorem arbitrageBackoff_overflow (failures : Z) :
  dval (arbitrageBackoff (D := D) failures) ==
  inject_Z (if (failures <=? 0)%Z then 2
            else if (failures <=? 62)%Z then Z.min 60 (2 ^ failures)
            else if (failures =? 63)%Z then - 2 ^ 63 else 0).
Proof.
  unfold arbitrageBackoff; cbv zeta.
  destruct (Z.leb_spec failures 0); [apply dNewFromInt_val|].
  rewrite dNewFromInt_val. unfold int_shl.
  assert (2 * 2 ^ (failures - 1) = 2 ^ failures)%Z as E.
  { rewrite <- Z.pow_succ_r by lia. f_equal. lia. }
  rewrite E. destruct (Z.leb_spec failures 62).
  - destruct (Z.leb_spec 64 (failures - 1)); [lia|].
    rewrite wrap64_id.
    + destruct (Z.ltb_spec 60 (2 ^ failures)); f_equiv; f_equal; lia.
    + pose proof (Z.pow_le_mono_r 2 failures 62). pose proof (Z.pow_pos_nonneg 2 failures).
      unfold int64_min, int64_max. lia.
  - destruct (Z.eqb_spec failures 63) as [->|]; [reflexivity|].
    destruct (Z.leb_spec 64 (failures - 1)); [reflexivity|].
    assert (failures = 64%Z) as -> by lia. reflexivity.
Qed.

(** ** Hedge quantities *)

Lemma executableHedgeQuantity_iff (target price : D) (i : Instrument) (skip : bool) (q : D) :
  executableHedgeQuantity target price i skip = (q, true, None) <->
  q = floorToStep target (parsePositiveDecimal (i_QuantityStep i)) /\ 0 < dval q /\
  ruleHolds (D := D) (i_MinQuantity i) (i_MinQuantityStatus i) (fun m => m <= dval q) /\
  (skip = false ->
   ruleHolds (D := D) (i_MinNotional i) (i_MinNotionalStatus i)
     (fun m => 0 < dval price /\ m <= dval q * dval price)).
Proof.
  unfold executableHedgeQuantity, ruleHolds; cbv zeta.
  set (f := floorToStep target (parsePositiveDecimal (i_QuantityStep i))).
  destruct (dIsPositive_reflect f) as [Hf|Hf]; cbn [negb].
  2: { split; [done|]. intros (-> & ? & _). lra. }
  destruct (String.eqb_spec (i_MinQuantityStatus i) ConstraintKnown) as [->|Nk];
    [|destruct (String.eqb_spec (i_MinQuantityStatus i) ConstraintNotApplicable) as [->|Nn]];
    (destruct skip; [|destruct (String.eqb_spec (i_MinNotionalStatus i) ConstraintKnown) as [->|Nk'];
    [|destruct (String.eqb_spec (i_MinNotionalStatus i) ConstraintNotApplicable) as [->|Nn']]]).
  all: repeat match goal with
    | |- context [dIsPositive ?a] => destruct (dIsPositive_reflect a)
    | |- context [dLessThan ?a ?b] => destruct (dLessThan_reflect a b)
    end; cbn [negb orb].
  all: dec_val; clearbody f; split; [intros E; try discriminate E; injection E as E; subst q|
               intros (-> & ? & Hm & Hn)]; try done.
  all: try (split_and!; try done; intros; try done; first [right; reflexivity|left; split_and!; first [done|lra]]).
  all: exfalso; try specialize (Hn eq_refl);
    destruct Hm as [(? & ? & ?)|?]; try done; try lra;
    destruct Hn as [(? & ? & ? & ?)|?]; first [done|lra].
Qed.

(** ** Closing dust *)

(** What the tests guarantee of one leg: nothing owned, or a positive
    executable price at which the owned quantity is worth less than the
    minimum notional, and a venue position beyond the baseline, on the same
    side, that covers it. *)
Definition tinyLeg (owned venue baseline price : Q) : Prop :=
  owned == 0 \/
  (0 < price /\ Qabs owned * price < inject_Z arbitrageMinOpenNotional /\
   0 < owned * (venue - baseline) /\ Qabs owned <= Qabs (venue - baseline)).

Lemma closeFlattenOwnedVenueReducible_val (c : ArbitrageCombination) (leg : string) (owned venue baseline : D) :
  closeFlattenOwnedLegValues c leg = (owned, venue, baseline) ->
  closeFlattenOwnedVenueReducible (D := D) c leg = true ->
  dval owned == 0 \/
  (0 < dval owned * (dval venue - dval baseline) /\
   Qabs (dval owned) <= Qabs (dval venue - dval baseline)).
Proof.
  intros E. unfold closeFlattenOwnedVenueReducible. rewrite E.
  destruct (dIsZero_reflect owned) as [|Hnz]; [by left|]. intros H. right.
  destruct (Z.eqb_spec (dSign (venue - baseline)%dec) (dSign owned)) as [Es|]; cbn [negb] in H; [|done].
  destruct (dGreaterThanOrEqual_reflect (dAbs (venue - baseline)%dec) (dAbs owned)) as [Hge|]; [|done].
  split; [|dec_val; lra].
  destruct (dSign_cases (venue - baseline)%dec) as [[Hd Hs]|[[Hd Hs]|[Hd Hs]]],
    (dSign_cases owned) as [[Ho Hs']|[[Ho Hs']|[Ho Hs']]]; rewrite Hs, Hs' in Es; try done; dec_val; nra.
Qed.

Lemma tinyLeg_intro (c : ArbitrageCombination) (leg : string) (owned venue baseline : D) (bbo : BBO)
    (now : GoTime) (stale : Duration) :
  closeFlattenOwnedLegValues c leg = (owned, venue, baseline) ->
  closeFlattenOwnedVenueReducible (D := D) c leg = true ->
  closeFlattenOwnedBBOUnusable owned bbo now stale = false ->
  negb (dIsZero owned) &&
    negb (dAbs owned * closeFlattenOwnedExecutablePrice owned bbo <? dNewFromInt arbitrageMinOpenNotional)%dec
    = false ->
  tinyLeg (dval owned) (dval venue) (dval baseline) (dval (closeFlattenOwnedExecutablePrice owned bbo)) /\
  (~ dval owned == 0 -> Stale bbo now stale = false).
Proof.
  intros E Hr. pose proof (closeFlattenOwnedVenueReducible_val c leg owned venue baseline E Hr) as Hv.
  unfold closeFlattenOwnedBBOUnusable. destruct (dIsZero_reflect owned) as [Hz|Hz]; cbn [negb andb].
  { intros _ _. split; [by left|done]. }
  destruct (Stale bbo now stale); [done|].
  destruct (dIsPositive_reflect (closeFlattenOwnedExecutablePrice owned bbo)) as [Hp|]; [|done].
  intros _ Hn. bool_to_prop.
  destruct (dLessThan_reflect (dAbs owned * closeFlattenOwnedExecutablePrice owned bbo)%dec
    (dNewFromInt arbitrageMinOpenNotional)) as [Hlt|]; [|done].
  split; [|done]. right. destruct Hv as [?|[? ?]]; [done|].
  rewrite dMul_val, dAbs_val, dNewFromInt_val in Hlt. done.
Qed.

(** A closing combination is written off as dust only on evidence: it is
    closing, its position is not uncertain, the venue snapshot is at most two
    minutes old and not older than its last order, something is still owned,
    and each owned leg is worth less than the minimum notional at a fresh
    positive price and is covered by the venue's position on the same side. *)
Theorem closeFlattenTinyOwned_evidence (wall : GoTime) (in_ : closeFlattenTinyOwnedInput) :
  closeFlattenTinyOwnedPositions (D := D) wall in_ = true ->
  let c := tiny_Combination in_ in
  let now := if IsZeroTime (tiny_Now in_) then wall else tiny_Now in_ in
  let '(ownedA, venueA, baselineA) := closeFlattenOwnedLegValues (D := D) c "a" in
  let '(ownedB, venueB, baselineB) := closeFlattenOwnedLegValues (D := D) c "b" in
  EqualFold (TrimSpace (c_Status c)) "closing" = true /\ c_PositionUncertain c = false /\
  (0 <= TimeSub now (c_LastPositionReconciledAt c) <= 2 * Minute)%Z /\
  (tiny_RequireOrders in_ = true -> tiny_LatestOrderAt in_ <> zeroTime ->
     (tiny_LatestOrderAt in_ <= c_LastPositionReconciledAt c)%Z) /\
  (~ dval ownedA == 0 \/ ~ dval ownedB == 0) /\
  tinyLeg (dval ownedA) (dval venueA) (dval baselineA)
    (dval (closeFlattenOwnedExecutablePrice ownedA (tiny_BBOA in_))) /\
  tinyLeg (dval ownedB) (dval venueB) (dval baselineB)
    (dval (closeFlattenOwnedExecutablePrice ownedB (tiny_BBOB in_))) /\
  (~ dval ownedA == 0 -> Stale (tiny_BBOA in_) now (tiny_SignalBBOStale in_) = false) /\
  (~ dval ownedB == 0 -> Stale (tiny_BBOB in_) now (tiny_SignalBBOStale in_) = false).
Proof.
  unfold closeFlattenTinyOwnedPositions. intros H.
  destruct (closeFlattenTinyOwnedContext wall in_) eqn:Ec; cbn [negb] in H; [|done].
  destruct (closeFlattenTinyOwnedWaitingSnapshot wall in_) eqn:Ew; [done|].
  unfold closeFlattenTinyOwnedWaitingSnapshot in Ew. rewrite Ec in Ew. cbn [negb] in Ew. cbv zeta in *.
  destruct (tiny_RequireOrders in_ && _ && _) eqn:Eo; [done|].
  apply orb_false_iff in Ew as [EwA EwB].
  unfold closeFlattenTinyOwnedContext in Ec; cbv zeta in Ec.
  repeat match type of Ec with (if ?b then _ else _) = true => destruct b eqn:?; [done|] end.
  repeat match type of H with (if ?b then _ else _) = true => destruct b eqn:?; [done|] end.
  bool_to_prop.
  set (c := tiny_Combination in_) in *.
  change (closeFlattenOwnedLegValues c "a") with
    (parseDecimal (D := D) (c_LegABasePosition c), parseDecimal (D := D) (c_LegAVenueBasePosition c),
     parseDecimal (D := D) (c_LegAVenueBaselineBasePosition c)).
  change (closeFlattenOwnedLegValues c "b") with
    (parseDecimal (D := D) (c_LegBBasePosition c), parseDecimal (D := D) (c_LegBVenueBasePosition c),
     parseDecimal (D := D) (c_LegBVenueBaselineBasePosition c)).
  cbv iota beta.
  pose proof (tinyLeg_intro c "a" _ _ _ _ _ _ eq_refl H0 EwA Heqb6) as [TA SA].
  pose proof (tinyLeg_intro c "b" _ _ _ _ _ _ eq_refl H1 EwB Heqb7) as [TB SB].
  split_and!; try done.
  1-2: unfold closeFlattenSnapshotFresh in Ec; destruct (IsZeroTime _ || _); [done|];
       bool_to_prop; lia.
  - intros Hq Hz. rewrite Hq in Eo. unfold IsZeroTime, TimeBefore in Eo.
    apply Z.eqb_neq in Hz. rewrite Hz in Eo. cbn [negb andb] in Eo. bool_to_prop. lia.
  - destruct (dIsZero_reflect (parseDecimal (D := D) (c_LegABasePosition c))); [right|by left].
    by destruct (dIsZero_reflect (parseDecimal (D := D) (c_LegBBasePosition c))).
Qed.

(** The quantity placed to flatten a leg never turns the position: it has
    the sign of what the combination owns and is at most that and at most what
    the venue holds beyond the baseline, up to the rounding of one step. *)
Theorem closeFlattenOwnedPlaceBase_bounded (c : ArbitrageCombination) (i : Instrument) (leg : string)
    (owned venue baseline : D) :
  closeFlattenOwnedLegValues c leg = (owned, venue, baseline) ->
  let p := dval (closeFlattenOwnedPlaceBase (D := D) c i leg) in
  let eps := stepEps (closeFlattenQuantityStep (D := D) i) in
  0 <= p * dval owned /\ Qabs p <= Qabs (dval owned) + eps /\
  Qabs p <= Qabs (dval venue - dval baseline) + eps.
Proof.
  intros E p eps. subst p eps. unfold closeFlattenOwnedPlaceBase. rewrite E.
  pose proof (stepEps_nonneg (closeFlattenQuantityStep (D := D) i)) as He.
  pose proof (Qabs_nonneg (dval owned)). pose proof (Qabs_nonneg (dval venue - dval baseline)).
  assert (Qabs 0 == 0) as Hz0 by reflexivity.
  destruct (dIsZero_reflect owned) as [Hz|Hz]; [rewrite dZero_val, Hz0; split_and!; lra|].
  set (u := dMin (dAbs owned) (dAbs (venue - baseline)%dec)).
  destruct (dIsPositive_reflect (closeFlattenQuantity i u)) as [Hp|]; cbn [negb];
    [|rewrite dZero_val, Hz0; split_and!; lra].
  pose proof (floorToStep_le (dAbs u) (closeFlattenQuantityStep i)) as Hle.
  fold (closeFlattenQuantity i u) in Hle. rewrite dAbs_val in Hle.
  assert (Qabs (dval u) <= Qabs (dval owned) /\ Qabs (dval u) <= Qabs (dval venue - dval baseline)) as [H1 H2].
  { unfold u. rewrite dMin_val, !dAbs_val, dSub_val.
    assert (0 <= Qmin (Qabs (dval owned)) (Qabs (dval venue - dval baseline))) by (by apply Q.min_glb).
    rewrite (Qabs_pos (Qmin _ _)) by done. split; [apply Q.le_min_l|apply Q.le_min_r]. }
  set (q := closeFlattenQuantity i u) in *. destruct (dIsNegative_reflect owned).
  - rewrite dNeg_val, (Qabs_neg (- dval q)) by lra. split_and!; nra.
  - rewrite (Qabs_pos (dval q)) by lra. split_and!; nra.
Qed.
End ArbMathFacts.

(** ** Concrete instances of the theorems *)

Section ArbMathWitnesses.
Local Open Scope Q_scope.

Lemma planArbitragePosition_spec_witness :
  exists p, planArbitragePosition (mkDec 950 0) (mkDec 1000 0) (mkDec 200 0) " Ask" = Some p /\
    dval (mkDec 950 0) + dval (pp_RequestedNotional p) <= dval (mkDec 1000 0).
Proof.
  eexists. split; [vm_compute; reflexivity|].
  pose proof (planArbitragePosition_spec (mkDec 950 0) (mkDec 1000 0) (mkDec 200 0) " Ask") as H.
  destruct H as [_ [(_ & _ & H)|(H & _)]]; [exact H|discriminate H].
Defined.

(** Long 2 on leg A and short 3 on leg B: two units close on both legs. *)
Definition pairedCombo : ArbitrageCombination :=
  zero_ArbitrageCombination <| c_LegABasePosition := "2" |> <| c_LegBBasePosition := "-3" |>.

Lemma closeable_reduces_both_legs_witness :
  arbitrageVenueReduceDirection (D := Dec) pairedCombo = Some "bid"%string /\
  exists sideA sideB, arbitrageLegSides "bid" = Some (sideA, sideB) /\
  forall q, 0 <= q -> q <= dval (arbitrageCloseableBase (D := Dec) pairedCombo) ->
    Qabs (applySide sideA (0 + 2) q) == Qabs (0 + 2) - q /\
    Qabs (applySide sideB (0 + -3) q) == Qabs (0 + -3) - q.
Proof.
  split; [vm_compute; reflexivity|].
  exact (proj2 (proj2 (closeable_reduces_both_legs (D := Dec) pairedCombo (0 + 2) (0 + -3) eq_refl))).
Defined.

(** Carry 3 of a cap of 4 leaves a maker buy one unit of headroom. *)
Lemma makerQuantity_within_carry_budget_witness :
  let r := makerQuantityWithinCarryBudget (mkDec 5 0) (mkDec 3 0) "buy" (mkDec 4 0) (mkDec 1 (-1)) in
  dval r == 1 /\ Qabs (dval (expectedCarryAfterMaker (mkDec 3 0) r "buy")) <=
    Qmax (dval (mkDec 4 0)) (Qabs (dval (mkDec 3 0))) + 2 * stepEps (mkDec 1 (-1)).
Proof.
  split; [vm_compute; reflexivity|].
  apply (makerQuantity_within_carry_budget (mkDec 5 0) (mkDec 3 0) (mkDec 4 0) (mkDec 1 (-1)) "buy");
    discriminate.
Defined.

Lemma carryBeforeExecution_inverts_witness :
  exists before,
    carryBeforeExecutionFromFills
      (expectedCarryAfterMaker (expectedCarryAfterMaker (mkDec 1 0) (mkDec 5 0) "buy") (mkDec 3 0) "sell")
      (mkDec 5 0) (mkDec 3 0) "ASK" = Ok before /\ deq before (mkDec 1 0).
Proof. apply (carryBeforeExecution_inverts (mkDec 1 0) (mkDec 5 0) (mkDec 3 0)). reflexivity. Defined.

Definition simultaneousCombo : ArbitrageCombination :=
  zero_ArbitrageCombination <| c_ExecutionMode := "simultaneous_market" |>.

Lemma simultaneous_spreads_conservative_witness :
  exists open close open' close',
    executableArbitrageSpreads simultaneousCombo (mkDec 99 0) (mkDec 100 0) (mkDec 101 0) (mkDec 102 0)
      = Some (open, close) /\
    executableArbitrageSpreads zero_ArbitrageCombination (mkDec 99 0) (mkDec 100 0) (mkDec 101 0) (mkDec 102 0)
      = Some (open', close') /\
    dval open <= dval open' /\ dval close' <= dval close.
Proof.
  do 4 eexists. split; [vm_compute; reflexivity|]. split; [vm_compute; reflexivity|].
  apply (simultaneous_spreads_conservative simultaneousCombo zero_ArbitrageCombination
    (mkDec 99 0) (mkDec 100 0) (mkDec 101 0) (mkDec 102 0));
    first [vm_compute; reflexivity|vm_compute; discriminate].
Defined.

Lemma arbitrageBackoff_overflow_witness :
  dval (arbitrageBackoff (D := Dec) 63) == inject_Z (- 2 ^ 63) /\
  dval (arbitrageBackoff (D := Dec) 100) == 0.
Proof.
  split; [exact (arbitrageBackoff_overflow (D := Dec) 63)|exact (arbitrageBackoff_overflow (D := Dec) 100)].
Defined.

(** A closing pair of perpetuals down to 0.1 on each leg, worth 10 quote units. *)
Definition dustLeg : ArbitrageLeg := zero_ArbitrageLeg <| l_ContractType := "perpetual" |>.
Definition dustTime : GoTime := (1700000000 * Second)%Z.
Definition dustCombo : ArbitrageCombination :=
  zero_ArbitrageCombination <| c_Status := "closing" |> <| c_LegA := dustLeg |> <| c_LegB := dustLeg |>
    <| c_VenueBaselineCapturedAt := dustTime |> <| c_LastPositionReconciledAt := dustTime |>
    <| c_LegABasePosition := "0.1" |> <| c_LegBBasePosition := "-0.1" |>
    <| c_LegAVenueBasePosition := "0.1" |> <| c_LegBVenueBasePosition := "-0.1" |>.
Definition dustBBO : BBO :=
  zero_BBO <| b_BidPrice := "100" |> <| b_AskPrice := "100.1" |> <| b_ReceiveTimestamp := dustTime |>.
Definition dustInput : closeFlattenTinyOwnedInput :=
  mkTinyOwned dustCombo ruledPerp ruledPerp dustBBO dustBBO dustTime dustTime true Second.

Lemma closeFlattenTinyOwned_evidence_witness :
  closeFlattenTinyOwnedPositions (D := Dec) dustTime dustInput = true /\
  c_PositionUncertain dustCombo = false.
Proof.
  split; [vm_compute; reflexivity|].
  pose proof (closeFlattenTinyOwned_evidence (D := Dec) dustTime dustInput) as H.
  specialize (H ltac:(vm_compute; reflexivity)). cbv zeta in H.
  destruct (closeFlattenOwnedLegValues (tiny_Combination dustInput) "a") as [[? ?] ?].
  destruct (closeFlattenOwnedLegValues (tiny_Combination dustInput) "b") as [[? ?] ?].
  exact (proj1 (proj2 H)).
Defined.

Lemma closeFlattenOwnedPlaceBase_bounded_witness :
  dval (closeFlattenOwnedPlaceBase (D := Dec) dustCombo ruledPerp "b") == - (1 # 10) /\
  0 <= dval (closeFlattenOwnedPlaceBase (D := Dec) dustCombo ruledPerp "b") * dval (mkDec (-1) (-1)).
Proof.
  split; [vm_compute; reflexivity|].
  pose proof (closeFlattenOwnedPlaceBase_bounded (D := Dec) dustCombo ruledPerp "b"
    (mkDec (-1) (-1)) (mkDec (-1) (-1)) dZero) as H.
  specialize (H ltac:(vm_compute; reflexivity)). exact (proj1 H).
Defined.
End ArbMathWitnesses.
