(* ===== verification/ArbSize.v ===== *)
(** * Sizing an arbitrage execution (arbitrage_order_size.go)

    How much one round of a combination trades: a fraction of the top of the
    book plus a random amount, bounded by the order cap and by what may still
    be opened or closed, put on the quantity steps of both venues and checked
    against both venues' rules. *)
From Stdlib Require Import ZArith QArith Qround Qabs Qminmax Lqa String.
From stdpp Require Import base strings list.
From S2P Require Import Prelude Decimal DecimalRef Types Quantity Validate ArbMath.

Record arbitrageSizePlan (D : Type) := mkSizePlan {
  sp_Direction : string;
  sp_Effect : string;
  sp_ReduceOnly : bool;
  sp_RequestedNotional : D;
  sp_TargetBaseQuantity : D;
  sp_RandomNotional : D;
  sp_HedgeCapNotional : D;
  sp_LegANotional : D;
  sp_LegBNotional : D;
  sp_LastClip : bool
}.
Arguments mkSizePlan {D}.
Arguments sp_Direction {D}.
Arguments sp_Effect {D}.
Arguments sp_ReduceOnly {D}.
Arguments sp_RequestedNotional {D}.
Arguments sp_TargetBaseQuantity {D}.
Arguments sp_RandomNotional {D}.
Arguments sp_HedgeCapNotional {D}.
Arguments sp_LegANotional {D}.
Arguments sp_LegBNotional {D}.
Arguments sp_LastClip {D}.

(** [arbitrageOrderType]: the order type of the leg the instrument is on. *)
Definition arbitrageOrderType (c : ArbitrageCombination) (i : Instrument) : string :=
  let '(orderTypeA, orderTypeB) := arbitrageOrderTypes c in
  if i_ID i =? 0 then
    if EqualFold (i_ExchangeSymbol i) (l_ExchangeSymbol (c_LegA c)) then orderTypeA else orderTypeB
  else if i_ID i =? l_InstrumentID (c_LegA c) then orderTypeA
  else orderTypeB.

Section ArbSize.
Context {D : Type} `{!Decimal D}.
Local Open Scope dec_scope.

(** [cryptoNotionalRand.RandomNotional]: cents from the two bytes read, zero
    when the random source fails. *)
Definition cryptoNotionalRand (buf : option (Z * Z)) : D :=
  match buf with
  | None => dZero
  | Some (hi, lo) =>
      let cents := ((hi * 256 + lo) mod (arbitrageRandomNotionalMax * 100))%Z in
      dNewFromInt cents / dNewFromInt 100
  end.

Definition combinationLooksFlat (c : ArbitrageCombination) : bool :=
  negb (dIsPositive (dAbs (parseDecimal (D := D) (c_LegABasePosition c)))) &&
  negb (dIsPositive (dAbs (parseDecimal (D := D) (c_LegBBasePosition c)))) &&
  dIsZero (parseDecimal (D := D) (c_CarryBaseQuantity c)).

Definition remainingDirectionNotional (legABase legBBase target midA midB : D) : D :=
  if negb (dIsPositive target) then dZero
  else
    let usedA := dAbs legABase * midA in
    let usedB := dAbs legBBase * midB in
    let used := dMax usedA usedB in
    let remaining := target - used in
    if dIsNegative remaining then dZero else remaining.

Definition closeableNotional (legABase legBBase priceA priceB : D) : D :=
  if negb (dIsPositive priceA) || negb (dIsPositive priceB) then dZero
  else
    let availableA :=
      if dIsPositive legABase then legABase
      else if dIsNegative legABase then dAbs legABase else dZero in
    let availableB :=
      if dIsNegative legBBase then dAbs legBBase
      else if dIsPositive legBBase then legBBase else dZero in
    if negb (dIsPositive availableA) || negb (dIsPositive availableB) then dZero
    else
      let base := dMin availableA availableB in
      dMax (base * priceA) (base * priceB).

Definition topOfBookNotional (i : Instrument) (price rawQuantity : string) : option D :=
  let px := parsePositiveDecimal price in
  if negb (dIsPositive px) || (TrimSpace rawQuantity =?s "") then None
  else
    match FromVenueQuantity (D := D) (toVenueInstrument i) rawQuantity with
    | Err _ => None
    | Ok base =>
        let qty := parsePositiveDecimal base in
        if negb (dIsPositive qty) then None else Some (qty * px)
    end.

(** [decimal.RequireFromString] of a literal. *)
Definition requireFromString (s : string) : D :=
  match dNewFromString s with Some d => d | None => dZero end.

(** The random amount, put into [[0, arbitrageRandomNotionalMax)]. *)
Definition boundedRandom (random : D) : D :=
  let random := if dIsNegative random then dZero else random in
  let maxRandom := dNewFromInt arbitrageRandomNotionalMax in
  if negb (random <? maxRandom) then maxRandom - requireFromString "0.01" else random.

(** [(raw, hedgeCap, random)] of the rounds that are not a last clip. *)
Definition rawNotional (c : ArbitrageCombination) (iA iB : Instrument) (bboA bboB : BBO)
    (aSide bSide : string) (closing : bool) (rng : D) : string + (D * D * D) :=
  let minOpen := dNewFromInt arbitrageMinOpenNotional in
  let maker := EqualFold (TrimSpace (c_ExecutionMode c)) "maker_then_hedge" in
  let random := boundedRandom rng in
  let fraction := requireFromString "0.05" in
  let topA := topOfBookNotional iA (bboPriceForSide bboA aSide) (bboQuantityForSide bboA aSide) in
  let topB := topOfBookNotional iB (bboPriceForSide bboB bSide) (bboQuantityForSide bboB bSide) in
  let atLeastMin raw := if raw <? minOpen then minOpen else raw in
  if maker then
    let '(makerTop, hedgeTop) :=
      if EqualFold (TrimSpace (c_MakerLeg c)) "b" then (topB, topA) else (topA, topB) in
    match makerTop with
    | None => inl "missing bbo quantity"%string
    | Some makerTop =>
        let hedgeCap := match hedgeTop with Some h => h | None => dZero end in
        inr (atLeastMin (makerTop * fraction + random), hedgeCap, random)
    end
  else
    match topA, topB with
    | Some legATop, Some legBTop =>
        let hedgeCap := dMin legATop legBTop in
        let raw := dMin legATop legBTop * fraction + random in
        let raw := dMin (dMin raw legATop) legBTop in
        if negb closing && (hedgeCap <? minOpen) then inl "hedge cap below minimum open notional"%string
        else if closing && (hedgeCap <? minOpen) then inl "hedge cap below minimum close notional"%string
        else inr (atLeastMin raw, hedgeCap, random)
    | _, _ => inl "missing bbo quantity"%string
    end.

(** The step both legs' orders must satisfy, by instrument. *)
Definition orderStep (c : ArbitrageCombination) (iA iB : Instrument) : D :=
  commonQuantityStep (instrumentOrderStep iA (arbitrageOrderType c iA))
    (instrumentOrderStep iB (arbitrageOrderType c iB)).

(** The notional bounded by the cap and by what may still be traded. *)
Definition boundNotional (closing : bool) (raw remaining closeable : D) : string + D :=
  let maxOrder := dNewFromInt arbitrageMaxOrderNotional in
  let minOpen := dNewFromInt arbitrageMinOpenNotional in
  let bounded := if raw >? maxOrder then maxOrder else raw in
  if (closing : bool) then
    if negb (dIsPositive closeable) then inl "closeable notional is zero"%string
    else inr (dMin bounded closeable)
  else if remaining <? minOpen then inl "remaining below minimum open notional"%string
  else inr (dMin bounded remaining).

(** The executable base, cut down to what may still be closed or opened. *)
Definition cutBase (c : ArbitrageCombination) (iA iB : Instrument) (closing : bool)
    (finalBase capPrice remaining : D) : string + D :=
  if (closing : bool) then
    let closeableBase := arbitrageCloseableBase c in
    let closeableBase :=
      if arbitrageFlattening c then dMin closeableBase (arbitrageOwnedCloseableBase c)
      else closeableBase in
    let finalBase := floorToStep (dMin finalBase closeableBase) (orderStep c iA iB) in
    if negb (dIsPositive finalBase) then inl "close quantity floored to zero"%string
    else inr finalBase
  else
    let maxBase := remaining / capPrice in
    let finalBase :=
      if finalBase >? maxBase then floorToStep maxBase (orderStep c iA iB) else finalBase in
    if negb (dIsPositive finalBase) then inl "sized quantity is not positive"%string
    else inr finalBase.

(** [rng] is the amount the random source returns for this round. *)
Definition sizeArbitrageExecution (c : ArbitrageCombination) (iA iB : Instrument) (bboA bboB : BBO)
    (direction effect : string) (remaining closeable rng : D) : string + arbitrageSizePlan D :=
  match arbitrageLegSides direction with
  | None => inl "invalid direction"%string
  | Some (aSide, bSide) =>
      let priceA := parsePositiveDecimal (bboPriceForSide bboA aSide) in
      let priceB := parsePositiveDecimal (bboPriceForSide bboB bSide) in
      if negb (dIsPositive priceA) || negb (dIsPositive priceB) then inl "missing bbo price"%string
      else
        let closing := EqualFold (TrimSpace effect) "close" in
        let minOpen := dNewFromInt arbitrageMinOpenNotional in
        let lastClip := arbitrageFlattening c && closing && dIsPositive closeable && (closeable <? minOpen) in
        match (if lastClip then inr (closeable, dZero, dZero)
               else rawNotional c iA iB bboA bboB aSide bSide closing rng) with
        | inl reason => inl reason
        | inr (raw, hedgeCap, random) =>
            match boundNotional closing raw remaining closeable with
            | inl reason => inl reason
            | inr bounded =>
                if negb (dIsPositive bounded) then inl "bounded notional is not positive"%string
                else
                  match arbitrageExecutableBase c iA iB bboA bboB direction effect bounded lastClip with
                  | inl reason =>
                      inl (if reason =?s "" then "close size is unexecutable"%string else reason)
                  | inr finalBase =>
                      match cutBase c iA iB closing finalBase (dMax priceA priceB) remaining with
                      | inl reason => inl reason
                      | inr finalBase =>
                          let legANotional := finalBase * priceA in
                          let legBNotional := finalBase * priceB in
                          let requested := dMax legANotional legBNotional in
                          if negb closing && ((requested >? remaining) || (remaining <? minOpen))
                          then inl "requested exceeds remaining open notional"%string
                          else if closing && (requested >? closeable)
                          then inl "requested exceeds closeable notional"%string
                          else inr (mkSizePlan direction effect closing requested finalBase random hedgeCap
                                      legANotional legBNotional lastClip)
                      end
                  end
            end
        end
  end.
End ArbSize.

(** ** Facts *)

Section ArbSizeFacts.
Context {D : Type} `{!Decimal D} `{!DecimalLaws D}.
Local Open Scope Q_scope.

Lemma arbitrageLegSides_cases (direction a b : string) :
  arbitrageLegSides direction = Some (a, b) -> (a = "buy" /\ b = "sell" \/ a = "sell" /\ b = "buy")%string.
Proof. unfold arbitrageLegSides; cbv zeta. repeat case_if; intros [= <- <-]; tauto. Qed.

(** The price the plan uses for a leg. *)
Definition legPrice (bbo : BBO) (side : string) : D := parsePositiveDecimal (bboPriceForSide bbo side).

Lemma legPrice_direct (bbo : BBO) (side : string) :
  (side = "buy" \/ side = "sell")%string ->
  parsePositiveDecimal (if side =?s "sell" then b_BidPrice bbo else b_AskPrice bbo) = legPrice bbo side.
Proof. by intros [-> | ->]. Qed.

(** What the two venues agreed to for a leg of quantity [q]. *)
Definition legExecutable (i : Instrument) (orderType effect : string) (q price : D) (lastClip : bool) : Prop :=
  prepareSizedOrder (D := D) i orderType (dString q) (preflightPrice i orderType price) (dString price)
    effect (EqualFold (TrimSpace effect) "close") lastClip = Ok tt /\
  exists wire, ToVenueQuantity (D := D) (toVenueInstrument i) (dString q) = Ok wire.

Lemma div_le_mul (n p q : D) (k : Q) :
  0 < dval p -> dval q <= dval (n / p)%dec + k -> dval q * dval p <= dval n + (divEps + k) * dval p.
Proof.
  intros Hp H. pose proof (dDiv_bounds n p (Qpos_nonzero _ Hp)) as [_ H1].
  assert (dval n == dval n / dval p * dval p) as Hn by (field; lra).
  set (z := dval n / dval p) in *. rewrite Hn. nra.
Qed.

Lemma arbitrageExecutableBase_inv (c : ArbitrageCombination) (iA iB : Instrument) (bboA bboB : BBO)
    (direction effect : string) (n : D) (lastClip : bool) (q : D) :
  arbitrageExecutableBase c iA iB bboA bboB direction effect n lastClip = inr q ->
  exists aSide bSide,
    arbitrageLegSides direction = Some (aSide, bSide) /\
    let pA := legPrice bboA aSide in let pB := legPrice bboB bSide in
    let '(tA, tB) := arbitrageOrderTypes c in
    let step := commonQuantityStep (instrumentOrderStep iA tA) (instrumentOrderStep iB tB) in
    0 < dval n /\ 0 < dval step /\ 0 < dval q /\ multipleOf (dval q) (dval step) /\
    dval q * dval pA <= dval n + (divEps + 2 * stepEps step) * dval pA /\
    dval q * dval pB <= dval n + (divEps + 2 * stepEps step) * dval pB /\
    (EqualFold direction "bid" = true ->
       dval q <= dval (arbitrageCloseableBase (D := D) c) + stepEps step) /\
    legExecutable iA tA effect q pA lastClip /\ legExecutable iB tB effect q pB lastClip.
Proof.
  unfold arbitrageExecutableBase.
  destruct (arbitrageLegSides direction) as [[aSide bSide]|] eqn:Es; [|done].
  pose proof (arbitrageLegSides_cases _ _ _ Es) as Hs.
  destruct (dIsPositive_reflect n) as [Hn|]; cbn [negb]; [|done].
  rewrite !legPrice_direct by tauto.
  set (pA := legPrice bboA aSide). set (pB := legPrice bboB bSide).
  destruct (dIsPositive_reflect pA) as [HpA|], (dIsPositive_reflect pB) as [HpB|]; cbn [negb orb]; try done.
  destruct (arbitrageOrderTypes c) as [tA tB]. cbv zeta.
  set (step := commonQuantityStep (instrumentOrderStep iA tA) (instrumentOrderStep iB tB)).
  destruct (dIsPositive_reflect step) as [Hst|]; cbn [negb]; [|done].
  set (q0 := floorToStep (dMin (n / pA)%dec (n / pB)%dec) step).
  pose proof (floorToStep_le (dMin (n / pA)%dec (n / pB)%dec) step) as Hq0. fold q0 in Hq0.
  rewrite dMin_val in Hq0.
  pose proof (Q.le_min_l (dval (n / pA)%dec) (dval (n / pB)%dec)).
  pose proof (Q.le_min_r (dval (n / pA)%dec) (dval (n / pB)%dec)).
  pose proof (stepEps_nonneg step) as He.
  set (q1 := if EqualFold direction "bid" then floorToStep (dMin q0 (arbitrageCloseableBase c)) step else q0).
  assert (dval q1 <= dval q0 + stepEps step /\ multipleOf (dval q1) (dval step) /\
    (EqualFold direction "bid" = true ->
       dval q1 <= dval (arbitrageCloseableBase (D := D) c) + stepEps step)) as (B1 & B2 & B3).
  { unfold q1. destruct (EqualFold direction "bid").
    - pose proof (floorToStep_le (dMin q0 (arbitrageCloseableBase c)) step) as H'.
      rewrite dMin_val in H'.
      pose proof (Q.le_min_l (dval q0) (dval (arbitrageCloseableBase (D := D) c))).
      pose proof (Q.le_min_r (dval q0) (dval (arbitrageCloseableBase (D := D) c))).
      split_and!; [lra|eexists; by apply floorToStep_pos|intros; lra].
    - split_and!; [lra|eexists; by apply floorToStep_pos|done]. }
  destruct (dIsPositive_reflect q1) as [Hq1|]; cbn [negb]; [|done].
  destruct (prepareSizedOrder iA _ _ _ _ _ _ _) as [[]|] eqn:PA; [|done].
  destruct (prepareSizedOrder iB _ _ _ _ _ _ _) as [[]|] eqn:PB; [|done].
  destruct (ToVenueQuantity (toVenueInstrument iA) _) as [wA|] eqn:WA; [|done].
  destruct (ToVenueQuantity (toVenueInstrument iB) _) as [wB|] eqn:WB; [|done].
  intros [= <-]. exists aSide, bSide. split; [done|].
  fold pA pB. split_and!; try done; try (apply div_le_mul; [done|lra]); (split; [done|by eexists]).
Qed.

Lemma boundNotional_inv (closing : bool) (raw remaining closeable bounded : D) :
  boundNotional closing raw remaining closeable = inr bounded ->
  dval bounded <= inject_Z arbitrageMaxOrderNotional /\
  (if closing then dval bounded <= dval closeable
   else dval bounded <= dval remaining /\ inject_Z arbitrageMinOpenNotional <= dval remaining).
Proof.
  unfold boundNotional; cbv zeta.
  set (b := if (raw >? dNewFromInt arbitrageMaxOrderNotional)%dec then _ else _).
  assert (dval b <= inject_Z arbitrageMaxOrderNotional) as Hb.
  { unfold b. destruct (dGreaterThan_reflect raw (dNewFromInt arbitrageMaxOrderNotional)) as [H|H];
      rewrite dNewFromInt_val in *; lra. }
  destruct closing.
  - destruct (dIsPositive closeable); cbn [negb]; intros [= <-]. rewrite dMin_val.
    pose proof (Q.le_min_l (dval b) (dval closeable)). pose proof (Q.le_min_r (dval b) (dval closeable)). lra.
  - destruct (dLessThan_reflect remaining (dNewFromInt arbitrageMinOpenNotional)) as [|H]; intros [= <-].
    rewrite dMin_val. rewrite dNewFromInt_val in H.
    pose proof (Q.le_min_l (dval b) (dval remaining)). pose proof (Q.le_min_r (dval b) (dval remaining)). lra.
Qed.

Lemma cutBase_inv (c : ArbitrageCombination) (iA iB : Instrument) (closing : bool)
    (q cap remaining r : D) :
  0 < dval cap ->
  cutBase c iA iB closing q cap remaining = inr r ->
  0 < dval r /\
  (if closing then
     dval r <= dval q + stepEps (orderStep c iA iB) /\
     dval r <= dval (arbitrageCloseableBase (D := D) c) + stepEps (orderStep c iA iB) /\
     (arbitrageFlattening c = true ->
        dval r <= dval (arbitrageOwnedCloseableBase (D := D) c) + stepEps (orderStep c iA iB))
   else dval r <= dval q + stepEps (orderStep c iA iB)).
Proof.
  intros Hc. unfold cutBase; cbv zeta. set (st := orderStep c iA iB). pose proof (stepEps_nonneg st) as He.
  destruct closing.
  - set (m := if arbitrageFlattening c then _ else _).
    assert (dval m <= dval (arbitrageCloseableBase (D := D) c) /\
      (arbitrageFlattening c = true -> dval m <= dval (arbitrageOwnedCloseableBase (D := D) c))) as [M1 M2].
    { unfold m. destruct (arbitrageFlattening c); [rewrite dMin_val|done || (split; [lra|done])].
      split; [apply Q.le_min_l|intros _; apply Q.le_min_r]. }
    destruct (dIsPositive_reflect (floorToStep (dMin q m) st)) as [Hp|]; cbn [negb]; [|done].
    intros [= <-]. pose proof (floorToStep_le (dMin q m) st) as H. rewrite dMin_val in H.
    pose proof (Q.le_min_l (dval q) (dval m)). pose proof (Q.le_min_r (dval q) (dval m)).
    split_and!; [done|lra|lra|intros Hf; specialize (M2 Hf); lra].
  - destruct (dGreaterThan_reflect q (remaining / cap)%dec) as [Hg|Hg].
    + destruct (dIsPositive_reflect (floorToStep (remaining / cap)%dec st)) as [Hp|]; cbn [negb]; [|done].
      intros [= <-]. pose proof (floorToStep_le (remaining / cap)%dec st). split; [done|lra].
    + destruct (dIsPositive_reflect q); cbn [negb]; [|done]. intros [= <-]. split; [done|lra].
Qed.

Lemma notional_cap (q n cap p m base e1 e2 : Q) :
  0 <= p -> 0 <= e1 -> 0 <= e2 -> n <= cap -> q * p <= n + e1 * p -> base <= q + e2 -> p <= m ->
  base * p <= cap + (e1 + e2) * m.
Proof.
  intros Hp H1 H2 Hn Hq Hb Hm.
  assert (base * p <= (q + e2) * p) by nra. assert ((e1 + e2) * p <= (e1 + e2) * m) by nra. lra.
Qed.

End ArbSizeFacts.

(** ** Concrete instances of the theorems *)

Section ArbSizeWitnesses.
Local Open Scope Q_scope.

(** A book of 100 units at 100/100.1 on both legs: 5% of it and 1.5, cut to
    the 300 that remain, is 2.997 units. *)
Definition deepBBO : BBO := dustBBO <| b_BidQuantity := "100" |> <| b_AskQuantity := "100" |>.

End ArbSizeWitnesses.
