(* ===== verification/ArbHedge.v ===== *)
(** * Hedging and pricing (pure parts of arbitrage_executor.go)

    The quantity a hedge order can carry, why a remainder is dust, the limit
    prices of protected IOC and passive maker orders, Hyperliquid's
    significant-digit rule, what a leg still needs, and when a carry is worth
    an order of its own. *)
From Stdlib Require Import ZArith QArith Qround Qabs Qminmax Lqa String.
From stdpp Require Import base strings list.
From S2P Require Import Prelude Decimal DecimalRef Types Quantity Validate ArbMath.

Definition dustReasonStepRoundsToZero : string := "step_rounds_to_zero".
Definition dustReasonBelowMinQuantity : string := "below_min_quantity".
Definition dustReasonBelowMinNotional : string := "below_min_notional".

Definition terminalArbitrageExecutionStatus (status : string) : bool :=
  (status =?s "completed") || (status =?s "failed") || (status =?s "canceled") || (status =?s "dry_run").

(** [closeOrderReference]: the first reference that is not blank. *)
Definition closeOrderReference (o : Order) : string :=
  match List.filter (fun v => negb (TrimSpace v =?s "")) [o_VenueOrderID o; o_ClientOrderID o; o_ID o] with
  | v :: _ => v
  | [] => "unknown"
  end.

Definition closeUncertainAttempts (c : ArbitrageCombination) : Z :=
  if c_LastFailureKey c =?s "close_order_uncertain" then wrap64 (c_RepeatedFailureCount c + 1) else 1.

Definition arbitrageLegName (c : ArbitrageCombination) (leg : ArbitrageLeg) : string :=
  if (l_TradingAccountID leg =? l_TradingAccountID (c_LegA c)) &&
     (l_InstrumentID leg =? l_InstrumentID (c_LegA c)) then "a"
  else if (l_TradingAccountID leg =? l_TradingAccountID (c_LegB c)) &&
          (l_InstrumentID leg =? l_InstrumentID (c_LegB c)) then "b"
  else "".

Definition hedgeHedgeIsSell (c : ArbitrageCombination) (x : ArbitrageExecution) (leg : ArbitrageLeg) : bool :=
  match arbitrageLegSides (x_Direction x) with
  | None => true
  | Some (aSide, bSide) =>
      if l_InstrumentID leg =? l_InstrumentID (c_LegA c) then aSide =?s "sell" else bSide =?s "sell"
  end.

(** [isArbitrageCarryHedgeRole], arbitrage_repository.go. *)
Definition isArbitrageCarryHedgeRole (role : string) : bool :=
  (TrimSpace role =?s "hedge") || (TrimSpace role =?s "residual").

Definition hasLiveOrUncertainCarryHedge (orders : list Order) (executionID : string) : bool :=
  existsb (fun o =>
    (o_ArbitrageExecutionID o =?s executionID) && isArbitrageCarryHedgeRole (o_ArbitrageRole o) &&
    (negb (terminalStatus (o_Status o)) || negb (o_ReconcileFailures o =? 0))) orders.

Inductive standaloneCarryAction := standaloneCarryDeferToMaker | standaloneCarryExecute.

Section ArbHedge.
Context {D : Type} `{!Decimal D}.
Local Open Scope dec_scope.

Definition hedgeQuantityDustReason (target price : D) (i : Instrument) : string :=
  let quantity := floorToStep (dAbs target) (parsePositiveDecimal (i_QuantityStep i)) in
  if negb (dIsPositive quantity) then dustReasonStepRoundsToZero
  else
    let checkNotional :=
      if i_MinNotionalStatus i =?s ConstraintKnown then
        let minimum := parsePositiveDecimal (i_MinNotional i) in
        if negb (dIsPositive minimum) || negb (dIsPositive price) then ""%string
        else if quantity * price <? minimum then dustReasonBelowMinNotional
        else ""%string
      else ""%string in
    if i_MinQuantityStatus i =?s ConstraintKnown then
      let minimum := parsePositiveDecimal (i_MinQuantity i) in
      if negb (dIsPositive minimum) then ""%string
      else if quantity <? minimum then dustReasonBelowMinQuantity
      else checkNotional
    else if i_MinQuantityStatus i =?s ConstraintNotApplicable then checkNotional
    else ""%string.

(** ** Prices *)

Definition protectedIOCPrice (bbo : BBO) (side : string) (tick : D) (protectionBps : Z) : string :=
  let offset := dNewFromInt protectionBps / dNewFromInt 10000 in
  if side =?s "buy" then
    let price := parsePositiveDecimal (b_AskPrice bbo) * (dNewFromInt 1 + offset) in
    dString (ceilToStep price tick)
  else
    let price := parsePositiveDecimal (b_BidPrice bbo) * (dNewFromInt 1 - offset) in
    dString (floorToStep price tick).

Definition passiveMakerPrice (price side : string) (tick : D) : string :=
  let value := parsePositiveDecimal price in
  if side =?s "sell" then dString (ceilToStep value tick) else dString (floorToStep value tick).

Definition makerShouldReprice (distance tick : D) (ticks : Z) : bool :=
  dIsPositive tick && (0 <? ticks)%Z && (distance >=? tick * dNewFromInt ticks).

(** The [candidate] loop of [normalizeHedgeIOCPrice]: the first of [0..6] whose
    power of ten is the step. *)
Definition sizeDecimals (step : D) : option Z :=
  match List.filter (fun candidate => step =? dNew 1 (- candidate)%Z) [0; 1; 2; 3; 4; 5; 6]%Z with
  | candidate :: _ => Some candidate
  | [] => None
  end.

Definition normalizeHedgeIOCPrice (i : Instrument) (side price : string) : Result string :=
  if negb (EqualFold (TrimSpace (i_Exchange i)) "hyperliquid") then Ok price
  else
    let invalidPrice :=
      Err (invalidArgument ["invalid Hyperliquid hedge price "; quoted price]%string) in
    match dNewFromString (D := D) (TrimSpace price) with
    | None => invalidPrice
    | Some value =>
        if negb (dIsPositive value) then invalidPrice
        else
          match dNewFromString (D := D) (TrimSpace (i_QuantityStep i)) with
          | None => Err errInstrumentUnavailable
          | Some step =>
              if negb (dIsPositive step) then Err errInstrumentUnavailable
              else
                match sizeDecimals step with
                | None => Err errInstrumentUnavailable
                | Some szDecimals =>
                    let magnitude := (dNumDigits (dAbs value) + dExponent value - 1)%Z in
                    let decimals := (4 - magnitude)%Z in
                    let decimals := if (decimals <? 0)%Z then 0%Z else decimals in
                    let maxDecimals := (6 - szDecimals)%Z in
                    let decimals := if (maxDecimals <? decimals)%Z then maxDecimals else decimals in
                    let increment := dNew 1 (- decimals)%Z in
                    let s := ToLower (TrimSpace side) in
                    let? value :=
                      if s =?s "buy" then Ok (ceilToStep value increment)
                      else if s =?s "sell" then Ok (floorToStep value increment)
                      else Err (invalidArgument ["unsupported hedge side "; quoted side]%string) in
                    if negb (dIsPositive value)
                    then Err (invalidArgument ["Hyperliquid hedge price rounds to zero"]%string)
                    else Ok (dString value)
                end
          end
    end.

(** ** What is left to hedge *)

(** [(makerFilled, hedgeFilled, remaining)]. *)
Definition makerHedgeRemaining (c : ArbitrageCombination) (x : ArbitrageExecution) : D * D * D :=
  let '(makerFilled, hedgeFilled) :=
    if EqualFold (TrimSpace (c_MakerLeg c)) "b"
    then (parseDecimal (x_LegBFilledQuantity x), parseDecimal (x_LegAFilledQuantity x))
    else (parseDecimal (x_LegAFilledQuantity x), parseDecimal (x_LegBFilledQuantity x)) in
  let remaining := makerFilled - hedgeFilled in
  let remaining := if dIsNegative remaining then dZero else remaining in
  (makerFilled, hedgeFilled, remaining).

Definition arbitrageReduceLegAvailable (c : ArbitrageCombination) (legName side : string) : D :=
  let captured := timeSet (c_VenueBaselineCapturedAt c) in
  let legs :=
    if legName =?s "a" then
      Some (if captured then parseDecimal (c_LegAVenueBaselineBasePosition c) else dZero,
            parseDecimal (c_LegABasePosition c))
    else if legName =?s "b" then
      Some (if captured then parseDecimal (c_LegBVenueBaselineBasePosition c) else dZero,
            parseDecimal (c_LegBBasePosition c))
    else None in
  match legs with
  | None => dZero
  | Some (baseline, combo) =>
      let position := baseline + combo in
      if dIsPositive position && EqualFold side "sell" then position
      else if dIsNegative position && EqualFold side "buy" then dAbs position
      else dZero
  end.

(** [balances] lists the snapshot's spot balances in the order the map is ranged over. *)
Definition spotAvailableForSide (balances : list (string * string)) (baseAsset side : string) : D :=
  let balance :=
    match List.filter (fun '(asset, _) => EqualFold asset baseAsset) balances with
    | (_, raw) :: _ => parseDecimal raw
    | [] => dZero
    end in
  if EqualFold side "sell" && dIsPositive balance then balance
  else if EqualFold side "buy" && dIsNegative balance then dAbs balance
  else dZero.

(** [snapshot] is what the venue's balance query returns. *)
Definition standaloneCarryPlan (c : ArbitrageCombination) (x : ArbitrageExecution) (hedgeLeg : ArbitrageLeg)
    (i : Instrument) (bbo : BBO) (snapshot : Result (list (string * string)))
    : Result standaloneCarryAction :=
  let carry := parseDecimal (c_CarryBaseQuantity c) in
  if dIsZero carry then Ok standaloneCarryDeferToMaker
  else
    let step := parsePositiveDecimal (i_QuantityStep i) in
    if negb (dIsPositive step) then Err errInstrumentUnavailable
    else
      let side := carryHedgeSide carry in
      let price := parsePositiveDecimal (if side =?s "sell" then b_BidPrice bbo else b_AskPrice bbo) in
      let target := floorToStep (dAbs carry) step in
      let '(quantity, eligible, err) :=
        executableHedgeQuantity (dAbs carry) price i (allowBelowMinNotionalCombo c x i) in
      match err with
      | Some e => Err e
      | None =>
          if negb eligible || negb (dIsPositive target) || negb (quantity =? target)
          then Ok standaloneCarryDeferToMaker
          else if x_ReduceOnly x && EqualFold (TrimSpace (x_PositionEffect x)) "close" then
            let available := arbitrageReduceLegAvailable c (arbitrageLegName c hedgeLeg) side in
            let? available :=
              if i_ContractType i =?s "spot" then
                match snapshot with
                | Err e => Err (mkError [ErrVenueUnavailable]
                    (Join ["venue unavailable: read spot balance: "; err_text e]%string ""))
                | Ok balances =>
                    Ok (dMin available (spotAvailableForSide balances (l_BaseAsset hedgeLeg) side))
                end
              else Ok available in
            if available <? quantity then Ok standaloneCarryDeferToMaker else Ok standaloneCarryExecute
          else Ok standaloneCarryExecute
      end.

(** The decision and the [reason] of the event payload. *)
Definition lastCloseStandaloneCarryReady (c : ArbitrageCombination) (x : ArbitrageExecution)
    (hedgeLeg : ArbitrageLeg) (i : Instrument) (bbo : BBO) : bool * string :=
  let carry := parseDecimal (c_CarryBaseQuantity c) in
  let side := carryHedgeSide carry in
  let available := arbitrageReduceLegAvailable c (arbitrageLegName c hedgeLeg) side in
  let step := closeFlattenQuantityStep i in
  if negb (dIsPositive available) then (false, "not_reducible"%string)
  else if negb (dIsPositive step) then (false, "step_unavailable"%string)
  else if negb (dIsPositive (floorToStep (dAbs carry) step)) then (false, "below_quantity_step"%string)
  else
    let price := parsePositiveDecimal (if side =?s "sell" then b_BidPrice bbo else b_AskPrice bbo) in
    let '(_, eligible, err) :=
      executableHedgeQuantity (dMin (dAbs carry) available) price i (allowBelowMinNotionalCombo c x i) in
    match err with
    | Some _ => (false, "not_executable"%string)
    | None => if negb eligible then (false, "not_executable"%string) else (true, ""%string)
    end.

Definition carryHedgeExecutableAtBBO (c : ArbitrageCombination) (x : ArbitrageExecution)
    (i : Instrument) (bbo : BBO) : bool * option GoError :=
  let carry := parseDecimal (c_CarryBaseQuantity c) in
  if dIsZero carry then (false, None)
  else
    let side := carryHedgeSide carry in
    let price := parsePositiveDecimal (if side =?s "sell" then b_BidPrice bbo else b_AskPrice bbo) in
    let '(_, eligible, err) :=
      executableHedgeQuantity (dAbs carry) price i (allowBelowMinNotionalCombo c x i) in
    (eligible, err).

Definition leftoverCloseDustCompletable (c : ArbitrageCombination) (x : ArbitrageExecution) (maker : Order)
    (orders : list Order) (carryBefore newCarry makerReduceAtEntry : D) : bool :=
  if c_PositionUncertain c then false
  else if negb (x_ReduceOnly x) || negb (EqualFold (TrimSpace (x_PositionEffect x)) "close") then false
  else if negb (terminalStatus (o_Status maker)) ||
          negb (dIsPositive (parseDecimal (D := D) (o_FilledQuantity maker))) then false
  else if hasLiveOrUncertainCarryHedge orders (x_ID x) then false
  else if negb (dAbs newCarry <? dAbs carryBefore) then false
  else dIsPositive makerReduceAtEntry.
End ArbHedge.

(** ** Facts *)

Section ArbHedgeFacts.
Context {D : Type} `{!Decimal D} `{!DecimalLaws D}.
Local Open Scope Q_scope.

Lemma dDiv_proper (a a' b : D) : 0 < dval b -> dval a == dval a' -> dval (a / b)%dec == dval (a' / b)%dec.
Proof. intros Hb E. rewrite !dDiv_val by lra. by rewrite E. Qed.

Lemma floorToStep_proper (a a' s : D) :
  dval a == dval a' -> dval (floorToStep a s) == dval (floorToStep a' s).
Proof.
  intros E. destruct (dIsPositive_reflect s) as [Hs|Hs].
  - rewrite !floorToStep_pos by done. by rewrite (dDiv_proper a a' s Hs E).
  - by rewrite !floorToStep_noStep.
Qed.

(** The reason a residual is reported as dust is consistent with the
    decision not to order it: for a quantity that is not negative there is a
    reason exactly when the hedge quantity is refused without an error. *)
Theorem hedgeDust_consistent (target price : D) (i : Instrument) :
  0 <= dval target ->
  hedgeQuantityDustReason target price i <> ""%string <->
  exists q, executableHedgeQuantity target price i false = (q, false, None).
Proof.
  intros Ht. unfold hedgeQuantityDustReason, executableHedgeQuantity; cbv zeta.
  set (f' := floorToStep (dAbs target) (parsePositiveDecimal (i_QuantityStep i))).
  set (f := floorToStep target (parsePositiveDecimal (i_QuantityStep i))).
  assert (dval f' == dval f) as E.
  { apply floorToStep_proper. rewrite dAbs_val. by apply Qabs_pos. }
  assert (forall m : D, (f' <? m)%dec = (f <? m)%dec) as E1.
  { intros m. destruct (dLessThan_reflect f' m), (dLessThan_reflect f m); try done; lra. }
  assert (forall m : D, (f' * price <? m)%dec = (f * price <? m)%dec) as E2.
  { intros m. destruct (dLessThan_reflect (f' * price)%dec m) as [H|H],
      (dLessThan_reflect (f * price)%dec m) as [H'|H']; try done; rewrite !dMul_val in *; rewrite E in *; lra. }
  assert (dIsPositive f' = dIsPositive f) as ->.
  { destruct (dIsPositive_reflect f'), (dIsPositive_reflect f); try done; lra. }
  rewrite E1, E2. clear.
  repeat case_if; split; try done; try (by intros _; eexists); try (by intros [q [=]]).
Qed.

Lemma parse_dString (a : D) :
  exists d, dNewFromString (D := D) (dString a) = Some d /\ dval d == dval a.
Proof. apply dNewFromString_String. Qed.

(** [bps / 10000] is exact: four digits after the point. *)
Lemma bps_exact (bps : Z) :
  dval (dNewFromInt bps / dNewFromInt 10000 : D)%dec == inject_Z bps / 10000.
Proof.
  rewrite dDiv_val; rewrite !dNewFromInt_val; [|discriminate].
  change (inject_Z 10000) with 10000.
  apply (qround_exact _ (bps * 10 ^ 12)). rewrite inject_Z_mult.
  change (pow10 DivisionPrecision) with (10000000000000000 # 1).
  change (inject_Z (10 ^ 12)) with 1000000000000. field.
Qed.

(** A protected IOC order is priced on the tick grid within one tick of
    the protection band around the opposite quote: a buy at the ask plus
    [bps] and less than one tick above, a sell at the bid minus [bps] and
    less than one tick below (bounds up to the 16-digit rounding). *)
Theorem protectedIOCPrice_band (bbo : BBO) (side : string) (tick : D) (bps : Z) :
  0 < dval tick ->
  exists p : D, dNewFromString (D := D) (protectedIOCPrice bbo side tick bps) = Some p /\
    multipleOf (dval p) (dval tick) /\
    if side =?s "buy" then
      let edge := dval (parsePositiveDecimal (D := D) (b_AskPrice bbo)) * (1 + inject_Z bps / 10000) in
      edge - stepEps tick <= dval p < edge + dval tick
    else
      let edge := dval (parsePositiveDecimal (D := D) (b_BidPrice bbo)) * (1 - inject_Z bps / 10000) in
      edge - dval tick < dval p <= edge + stepEps tick.
Proof.
  intros Ht. unfold protectedIOCPrice; cbv zeta.
  assert (stepEps tick == divEps * dval tick) as He by (unfold stepEps; rewrite Q.max_r by lra; reflexivity).
  destruct (side =?s "buy").
  - set (v := (_ * _)%dec). destruct (parse_dString (ceilToStep v tick)) as (p & -> & E).
    exists p. split; [done|]. split.
    { eexists. rewrite E. by apply ceilToStep_pos. }
    rewrite E. pose proof (ceilToStep_bounds v tick Ht) as [H1 H2].
    assert (dval v == dval (parsePositiveDecimal (D := D) (b_AskPrice bbo)) * (1 + inject_Z bps / 10000)) as Hv.
    { unfold v. rewrite dMul_val, dAdd_val, bps_exact, dNewFromInt_val. reflexivity. }
    rewrite Hv in *. rewrite He. lra.
  - set (v := (_ * _)%dec). destruct (parse_dString (floorToStep v tick)) as (p & -> & E).
    exists p. split; [done|]. split.
    { eexists. rewrite E. by apply floorToStep_pos. }
    rewrite E. pose proof (floorToStep_bounds v tick Ht) as [H1 H2].
    assert (dval v == dval (parsePositiveDecimal (D := D) (b_BidPrice bbo)) * (1 - inject_Z bps / 10000)) as Hv.
    { unfold v. rewrite dMul_val, dSub_val, bps_exact, dNewFromInt_val. reflexivity. }
    rewrite Hv in *. rewrite He. lra.
Qed.

(** A passive maker price never improves on the reference: a buy is at
    most and a sell at least the quoted price, within one tick of it and on
    the tick grid (bounds up to the 16-digit rounding). *)
Theorem passiveMakerPrice_passive (price side : string) (tick : D) :
  0 < dval tick ->
  let ref := dval (parsePositiveDecimal (D := D) price) in
  exists p : D, dNewFromString (D := D) (passiveMakerPrice price side tick) = Some p /\
    multipleOf (dval p) (dval tick) /\
    if side =?s "sell" then ref - stepEps tick <= dval p < ref + dval tick
    else ref - dval tick < dval p <= ref + stepEps tick.
Proof.
  intros Ht ref. subst ref. unfold passiveMakerPrice; cbv zeta.
  assert (stepEps tick == divEps * dval tick) as He by (unfold stepEps; rewrite Q.max_r by lra; reflexivity).
  set (v := parsePositiveDecimal price).
  destruct (side =?s "sell").
  - destruct (parse_dString (ceilToStep v tick)) as (p & -> & E). exists p. split; [done|].
    pose proof (ceilToStep_bounds v tick Ht) as [H1 H2]. split; [|rewrite E, He; lra].
    eexists. rewrite E. by apply ceilToStep_pos.
  - destruct (parse_dString (floorToStep v tick)) as (p & -> & E). exists p. split; [done|].
    pose proof (floorToStep_bounds v tick Ht) as [H1 H2]. split; [|rewrite E, He; lra].
    eexists. rewrite E. by apply floorToStep_pos.
Qed.

Lemma sizeDecimals_spec (step : D) (k : Z) :
  sizeDecimals step = Some k -> (0 <= k <= 6)%Z /\ dval step == pow10 (- k).
Proof.
  unfold sizeDecimals.
  destruct (List.filter _ _) as [|c l] eqn:E; [done|]. intros [= ->].
  assert (In k (k :: l)) as Hin by (by left). rewrite <- E in Hin. apply filter_In in Hin as [Hin He].
  split; [cbn in Hin; lia|].
  destruct (dEqual_reflect step (dNew 1 (- k)%Z)) as [H|]; [|done].
  rewrite H, dNew_val. change (inject_Z 1) with 1. ring.
Qed.

(** Hyperliquid's price rule keeps a hedge marketable: a normalised buy is
    at least and a sell at most the price asked for (up to rounding), less
    than one increment away, positive, and a multiple of a power of ten with
    at most [6 - szDecimals] digits after the point; other venues' prices are
    left alone. *)
Theorem normalizeHedgeIOCPrice_marketable (i : Instrument) (side price r : string) :
  normalizeHedgeIOCPrice (D := D) i side price = Ok r ->
  (EqualFold (TrimSpace (i_Exchange i)) "hyperliquid" = false /\ r = price) \/
  exists (v p : D) (k d : Z),
    dNewFromString (TrimSpace price) = Some v /\ dNewFromString r = Some p /\
    dval (parsePositiveDecimal (D := D) (i_QuantityStep i)) == pow10 (- k) /\
    (0 <= d <= Z.max 0 (6 - k))%Z /\ 0 < dval p /\ multipleOf (dval p) (pow10 (- d)) /\
    (if ToLower (TrimSpace side) =?s "buy"
     then dval v - divEps * pow10 (- d) <= dval p < dval v + pow10 (- d)
     else ToLower (TrimSpace side) = "sell"%string /\
          dval v - pow10 (- d) < dval p <= dval v + divEps * pow10 (- d)).
Proof.
  unfold normalizeHedgeIOCPrice. destruct (EqualFold _ "hyperliquid"); cbn [negb].
  2: { intros [= ->]. by left. }
  intros H. right.
  destruct (dNewFromString (TrimSpace price)) as [v|] eqn:Ev; [|done].
  destruct (dIsPositive_reflect v) as [Hv|]; cbn [negb] in H; [|done].
  destruct (dNewFromString (TrimSpace (i_QuantityStep i))) as [step|] eqn:Est; [|done].
  destruct (dIsPositive_reflect step) as [Hst|]; cbn [negb] in H; [|done].
  destruct (sizeDecimals step) as [k|] eqn:Ek; [|done]. cbv zeta in H.
  apply sizeDecimals_spec in Ek as [Hk Estep].
  set (d0 := (4 - (dNumDigits (dAbs v) + dExponent v - 1))%Z) in H.
  set (d1 := if (d0 <? 0)%Z then 0%Z else d0) in H.
  set (d := if (6 - k <? d1)%Z then (6 - k)%Z else d1) in H.
  assert (0 <= d <= Z.max 0 (6 - k))%Z as Hd.
  { unfold d, d1. repeat case_if; bool_to_prop; lia. }
  clearbody d.
  assert (dval (dNew (D := D) 1 (- d)) == pow10 (- d)) as Hinc.
  { rewrite dNew_val. change (inject_Z 1) with 1. ring. }
  pose proof (pow10_pos (- d)) as Hp10.
  assert (0 < dval (dNew (D := D) 1 (- d))) as Hinc0 by (by rewrite Hinc).
  assert (dval (parsePositiveDecimal (D := D) (i_QuantityStep i)) == pow10 (- k)) as Hparse.
  { unfold parsePositiveDecimal. rewrite Est. destruct (dIsPositive_reflect step); [done|done]. }
  destruct (ToLower (TrimSpace side) =?s "buy") eqn:Eb;
    [|destruct (String.eqb_spec (ToLower (TrimSpace side)) "sell") as [Es|]; [|done]].
  all: match type of H with context [dIsPositive ?w] => destruct (dIsPositive_reflect w) as [Hw|] end;
    cbn [negb] in H; [|done]; injection H as <-.
  - destruct (parse_dString (ceilToStep v (dNew 1 (- d)%Z))) as (p & Hp & E).
    pose proof (ceilToStep_bounds v _ Hinc0) as [H1 H2]. rewrite Hinc in H1, H2.
    exists v, p, k, d. split_and!; try done; try lia; try (rewrite E; lra).
    eexists. rewrite E, ceilToStep_pos by done. by rewrite Hinc.
  - destruct (parse_dString (floorToStep v (dNew 1 (- d)%Z))) as (p & Hp & E).
    pose proof (floorToStep_bounds v _ Hinc0) as [H1 H2]. rewrite Hinc in H1, H2.
    exists v, p, k, d. split_and!; try done; try lia; try (rewrite E; lra).
    eexists. rewrite E, floorToStep_pos by done. by rewrite Hinc.
Qed.

Lemma sell_reduces (p q : Q) : 0 < p -> q <= p -> Qabs (p - q) == Qabs p - q.
Proof. intros Hp Hq. rewrite (Qabs_pos (p - q)), (Qabs_pos p) by lra. lra. Qed.

Lemma buy_reduces (p q : Q) : p < 0 -> q <= Qabs p -> Qabs (p + q) == Qabs p - q.
Proof. intros Hp. rewrite (Qabs_neg p) by lra. intros Hq. rewrite (Qabs_neg (p + q)) by lra. lra. Qed.

(** The venue position of the leg named [legName]. *)
Definition legVenuePosition (c : ArbitrageCombination) (legName : string) : Q :=
  let '(a, b) := venuePosition (D := D) c in
  if legName =?s "a" then a else if legName =?s "b" then b else 0.

Lemma arbitrageReduceLegAvailable_safe (c : ArbitrageCombination) (legName side : string) (q : Q) :
  (side = "buy" \/ side = "sell")%string ->
  0 < q -> q <= dval (arbitrageReduceLegAvailable (D := D) c legName side) ->
  Qabs (applySide side (legVenuePosition c legName) q) == Qabs (legVenuePosition c legName) - q.
Proof.
  intros Hside Hq. unfold arbitrageReduceLegAvailable, legVenuePosition, venuePosition, venueBaselines; cbv zeta.
  destruct (legName =?s "a"); [|destruct (legName =?s "b")];
    (destruct (timeSet (c_VenueBaselineCapturedAt c)); cbv iota beta).
  all: try (rewrite dZero_val; lra).
  all: match goal with |- context [dIsPositive ?w] =>
    destruct (dIsPositive_reflect w) as [Hp|Hp], (dIsNegative_reflect w) as [Hn|Hn] end;
    rewrite ?dAdd_val, ?dZero_val in *; try lra.
  all: destruct Hside as [-> | ->];
    rewrite ?(eq_refl : EqualFold "buy" "sell" = false), ?(eq_refl : EqualFold "sell" "sell" = true),
      ?(eq_refl : EqualFold "buy" "buy" = true), ?(eq_refl : EqualFold "sell" "buy" = false);
    cbn [andb]; rewrite ?dZero_val, ?dAbs_val, ?dAdd_val; try lra.
  all: unfold applySide; rewrite ?(eq_refl : ("buy" =?s "sell")%string = false),
      ?(eq_refl : ("sell" =?s "sell")%string = true); cbv iota; intros Hle.
  all: rewrite ?dZero_val in *; first [by apply sell_reduces|by apply buy_reduces].
Qed.

Lemma carryHedgeSide_cases (carry : D) : (carryHedgeSide carry = "buy" \/ carryHedgeSide carry = "sell")%string.
Proof. unfold carryHedgeSide. case_if; tauto. Qed.

(** A carry is hedged on its own only when that is complete and safe: the
    order is the whole carry floored to the venue's step, it meets the minimum
    quantity (and, unless exempt, notional), its side shrinks the carry, and
    under a reduce-only close it is covered by the leg, so that filling it
    moves the leg towards zero without crossing it. *)
Theorem standaloneCarry_execute_safe (c : ArbitrageCombination) (x : ArbitrageExecution)
    (leg : ArbitrageLeg) (i : Instrument) (bbo : BBO) (snapshot : Result (list (string * string))) :
  standaloneCarryPlan (D := D) c x leg i bbo snapshot = Ok standaloneCarryExecute ->
  let carry := parseDecimal (D := D) (c_CarryBaseQuantity c) in
  let side := carryHedgeSide carry in
  let q := dval (floorToStep (dAbs carry) (parsePositiveDecimal (D := D) (i_QuantityStep i))) in
  ~ dval carry == 0 /\ 0 < q /\
  q <= Qabs (dval carry) + stepEps (parsePositiveDecimal (D := D) (i_QuantityStep i)) /\
  ruleHolds (D := D) (i_MinQuantity i) (i_MinQuantityStatus i) (fun m => m <= q) /\
  (side = "sell"%string <-> 0 <= dval carry) /\
  (x_ReduceOnly x = true -> EqualFold (TrimSpace (x_PositionEffect x)) "close" = true ->
   let position := legVenuePosition c (arbitrageLegName c leg) in
   Qabs (applySide side position q) == Qabs position - q).
Proof.
  unfold standaloneCarryPlan; cbv zeta. intros H.
  set (carry := parseDecimal (D := D) (c_CarryBaseQuantity c)) in *.
  set (step := parsePositiveDecimal (D := D) (i_QuantityStep i)) in *.
  destruct (dIsZero_reflect carry) as [|Hz]; [done|].
  destruct (dIsPositive_reflect step) as [Hs|]; cbn [negb] in H; [|done].
  destruct (executableHedgeQuantity _ _ _ _) as [[quantity eligible] err] eqn:Eq.
  destruct err; [done|].
  destruct eligible; cbn [negb orb] in H; [|done].
  apply executableHedgeQuantity_iff in Eq as (-> & Hq & Hmin & _). fold step in Hq, Hmin, H |- *.
  destruct (dIsPositive_reflect (floorToStep (dAbs carry) step)); cbn [negb orb] in H; [|done].
  destruct (dEqual_reflect (floorToStep (dAbs carry) step) (floorToStep (dAbs carry) step)) as [_|];
    cbn [negb] in H; [|done].
  pose proof (floorToStep_le (dAbs carry) step) as Hle. rewrite dAbs_val in Hle.
  split_and!; try done.
  - unfold carryHedgeSide. destruct (dIsNegative_reflect carry); split; try done; intros; lra.
  - intros Hr Hc. rewrite Hr, Hc in H. cbn [andb] in H.
    apply arbitrageReduceLegAvailable_safe; [apply carryHedgeSide_cases|done|].
    destruct (i_ContractType i =?s "spot"); [destruct snapshot as [balances|]; [|done]|];
      (match type of H with context [dLessThan ?a ?b] => destruct (dLessThan_reflect a b) as [|Hge] end; [done|]).
    + rewrite dMin_val in Hge.
      match type of Hge with context [Qmin ?a ?b] => pose proof (Q.le_min_l a b) end. lra.
    + lra.
Qed.
End ArbHedgeFacts.

(** ** Concrete instances of the theorems *)

Section ArbHedgeWitnesses.
Local Open Scope Q_scope.

(** 0.04 at 100 is below the minimum notional of 5. *)
Lemma hedgeDust_consistent_witness :
  hedgeQuantityDustReason (mkDec 4 (-2)) (mkDec 100 0) ruledPerp = dustReasonBelowMinNotional /\
  exists q, executableHedgeQuantity (mkDec 4 (-2)) (mkDec 100 0) ruledPerp false = (q, false, None).
Proof.
  split; [vm_compute; reflexivity|].
  apply (hedgeDust_consistent (mkDec 4 (-2)) (mkDec 100 0) ruledPerp); [discriminate|vm_compute; discriminate].
Defined.

Lemma protectedIOCPrice_band_witness :
  protectedIOCPrice dustBBO "buy" (mkDec 1 (-1)) 20 = "100.4"%string /\
  exists p : Dec, dNewFromString (protectedIOCPrice dustBBO "buy" (mkDec 1 (-1)) 20) = Some p /\
    multipleOf (dval p) (dval (mkDec 1 (-1))).
Proof.
  split; [vm_compute; reflexivity|].
  destruct (protectedIOCPrice_band dustBBO "buy" (mkDec 1 (-1)) 20) as (p & H1 & H2 & _); [reflexivity|].
  exists p. exact (conj H1 H2).
Defined.

Lemma passiveMakerPrice_passive_witness :
  passiveMakerPrice "100.17" "sell" (mkDec 1 (-1)) = "100.2"%string /\
  exists p : Dec, dNewFromString (passiveMakerPrice "100.17" "sell" (mkDec 1 (-1))) = Some p /\
    multipleOf (dval p) (dval (mkDec 1 (-1))).
Proof.
  split; [vm_compute; reflexivity|].
  destruct (passiveMakerPrice_passive "100.17" "sell" (mkDec 1 (-1))) as (p & H1 & H2 & _); [reflexivity|].
  exists p. exact (conj H1 H2).
Defined.

Definition hyperPerp : Instrument :=
  ruledPerp <| i_Exchange := "hyperliquid" |> <| i_QuantityStep := "0.01" |>.

Lemma normalizeHedgeIOCPrice_marketable_witness :
  normalizeHedgeIOCPrice (D := Dec) hyperPerp "buy" "1234.56" = Ok "1234.6"%string /\
  exists (v p : Dec) (k d : Z), dNewFromString "1234.56" = Some v /\ dNewFromString "1234.6" = Some p /\
    (0 <= d <= Z.max 0 (6 - k))%Z.
Proof.
  split; [vm_compute; reflexivity|].
  destruct (normalizeHedgeIOCPrice_marketable (D := Dec) hyperPerp "buy" "1234.56" "1234.6")
    as [[H _]|(v & p & k & d & H1 & H2 & _ & H3 & _)]; [vm_compute; reflexivity|discriminate H|].
  exists v, p, k, d. exact (conj H1 (conj H2 H3)).
Defined.

(** A carry of 0.5 hedged by a sell on leg A, which holds 2. *)
Definition carryCombo : ArbitrageCombination := pairedCombo <| c_CarryBaseQuantity := "0.5" |>
  <| c_LegA := zero_ArbitrageLeg <| l_InstrumentID := 1%Z |> |>.

Lemma standaloneCarry_execute_safe_witness :
  standaloneCarryPlan (D := Dec) carryCombo lastClip (c_LegA carryCombo) ruledPerp dustBBO (Ok [])
    = Ok standaloneCarryExecute /\
  ~ dval (parseDecimal (D := Dec) (c_CarryBaseQuantity carryCombo)) == 0.
Proof.
  split; [vm_compute; reflexivity|].
  pose proof (standaloneCarry_execute_safe (D := Dec) carryCombo lastClip (c_LegA carryCombo) ruledPerp
    dustBBO (Ok [])) as H.
  specialize (H ltac:(vm_compute; reflexivity)). exact (proj1 H).
Defined.
End ArbHedgeWitnesses.
