(* ===== verification/WorkPermit.v ===== *)
(** * Execution work permits (execution_work_permit.go)

    A pool of worker slots in two banks, one of them reserved for urgent work,
    and the permit an execution holds while it works.  The sequential
    operations are functions on a pool and a permit.  [Step] interleaves them:
    every channel send or receive, every update of the atomic counter and
    every critical section of a permit's mutex is a step of its own, so that
    the window of [Acquire] between its two lock sections is there. *)
From Stdlib Require Import ZArith Lia.
From stdpp Require Import base list relations.
From S2P Require Import Prelude.

Inductive workPermitClass := workPermitNewExecution | workPermitUrgent.
Inductive permitBank := permitNone | permitGeneral | permitReserved.

#[export] Instance workPermitClass_eq_dec : EqDecision workPermitClass.
Proof. solve_decision. Defined.
#[export] Instance permitBank_eq_dec : EqDecision permitBank.
Proof. solve_decision. Defined.

(** The limits: workers not reserved, workers reserved for urgent work. *)
Definition workPermitLimits (workers : Z) : Z * Z :=
  let workers := if workers <=? 0 then 16 else workers in
  if workers =? 1 then (1, 0)
  else
    let urgentReserved := Z.quot workers 4 in
    let urgentReserved := if urgentReserved <? 1 then 1 else urgentReserved in
    let urgentReserved := if workers - 1 <? urgentReserved then workers - 1 else urgentReserved in
    let normalLimit := workers - urgentReserved in
    let normalLimit := if normalLimit <? 1 then 1 else normalLimit in
    (normalLimit, urgentReserved).

(** The buffered channels as their capacity and number of elements. *)
Record workPermitPool := mkPool {
  generalCap : Z;
  reservedCap : Z;
  general : Z;
  reserved : Z;
  inUse : Z
}.
#[export] Instance eta_workPermitPool : Eta workPermitPool := fun p =>
  mkPool (generalCap p) (reservedCap p) (general p) (reserved p) (inUse p).

Definition newWorkPermitPool (workers : Z) : workPermitPool :=
  let '(normal, reserved) := workPermitLimits workers in mkPool normal reserved 0 0 0.

(** A nil pool grants everything. *)
Definition InUse (p : option workPermitPool) : Z :=
  match p with None => 0 | Some p => inUse p end.

(** ** Channel operations *)

Definition canSend (b : permitBank) (p : workPermitPool) : bool :=
  match b with
  | permitGeneral => general p <? generalCap p
  | permitReserved => reserved p <? reservedCap p
  | permitNone => false
  end.

Definition bankCount (b : permitBank) (p : workPermitPool) : Z :=
  match b with permitGeneral => general p | permitReserved => reserved p | permitNone => 0 end.

Definition bankAdd (b : permitBank) (n : Z) (p : workPermitPool) : workPermitPool :=
  match b with
  | permitGeneral => p <| general := general p + n |>
  | permitReserved => p <| reserved := reserved p + n |>
  | permitNone => p
  end.

Definition addInUse (n : Z) (p : workPermitPool) : workPermitPool := p <| inUse := inUse p + n |>.

(** [tryAcquire]: the bank of the slot and the pool after, when there is a slot. *)
Definition tryAcquirePool (p : workPermitPool) (class : workPermitClass) : option (permitBank * workPermitPool) :=
  let take b := Some (b, addInUse 1 (bankAdd b 1 p)) in
  match class with
  | workPermitUrgent =>
      if canSend permitReserved p then take permitReserved
      else if canSend permitGeneral p then take permitGeneral
      else None
  | workPermitNewExecution => if canSend permitGeneral p then take permitGeneral else None
  end.

Definition tryAcquire (p : option workPermitPool) (class : workPermitClass)
    : option (permitBank * option workPermitPool) :=
  match p with
  | None => Some (permitNone, None)
  | Some p => match tryAcquirePool p class with
              | Some (b, p') => Some (b, Some p')
              | None => None
              end
  end.

(** [release]: [None] when the receive would block on an empty channel. *)
Definition release (p : option workPermitPool) (b : permitBank) : option (option workPermitPool) :=
  match p with
  | None => Some None
  | Some p =>
      match b with
      | permitNone => Some (Some p)
      | _ => if bankCount b p <=? 0 then None else Some (Some (addInUse (-1) (bankAdd b (-1) p)))
      end
  end.

(** ** One permit, sequentially *)

(** The state of a permit and its pool, without its mutex. *)
Record executionWorkPermit := mkPermitSeq { pool : option workPermitPool; held : bool; bank : permitBank }.

Definition newExecutionWorkPermit (p : option workPermitPool) : executionWorkPermit :=
  mkPermitSeq p false permitNone.

Definition TryAcquire (e : executionWorkPermit) (class : workPermitClass) : bool * executionWorkPermit :=
  if held e then (true, e)
  else match tryAcquire (pool e) class with
       | None => (false, e)
       | Some (b, p) => (true, mkPermitSeq p true b)
       end.

(** [None] when the release blocks. *)
Definition Yield (e : executionWorkPermit) : option executionWorkPermit :=
  if negb (held e) then Some e
  else match release (pool e) (bank e) with
       | None => None
       | Some p => Some (mkPermitSeq p false permitNone)
       end.

(** ** Permits under contention

    A permit's mutex is held through [TryAcquire] and through [Yield]: the
    section in progress is the [lock] field of the permit.  [Acquire] takes
    the mutex twice, briefly, and its program counter between them is that of
    a thread. *)

Inductive Lock :=
| Unlocked
| TryPool (class : workPermitClass)      (** about to try the first bank *)
| TryGeneral                             (** urgent, reserved bank full *)
| TryAdd (b : permitBank)                (** slot taken, counter not yet *)
| TrySet (b : permitBank)                (** counter updated, about to set [held] *)
| YieldRecv                              (** about to give the slot back *)
| YieldDec                               (** slot given back, counter not yet *)
| YieldSet.                              (** about to clear [held] *)

Record Permit := mkPermit { p_held : bool; p_bank : permitBank; p_lock : Lock }.

Inductive AcquirePc :=
| AcqPool (class : workPermitClass)      (** first lock section done *)
| AcqBlock                               (** urgent, waiting on both banks *)
| AcqAdd (b : permitBank)
| AcqLock (b : permitBank)               (** about to take the mutex again *)
| RelRecv (b : permitBank)               (** someone else holds: give the slot back *)
| RelDec.

Record Thread := mkThread { t_permit : nat; t_pc : AcquirePc }.

Record Sys := mkSys { s_pool : workPermitPool; s_permits : list Permit; s_threads : list Thread }.

Definition unlockedPermit (e : Permit) : Prop := p_lock e = Unlocked.

(** The first bank a class tries. *)
Definition firstBank (class : workPermitClass) : permitBank :=
  match class with workPermitUrgent => permitReserved | workPermitNewExecution => permitGeneral end.

(** Steps of a permit's critical sections. *)
Inductive PermitStep : workPermitPool -> Permit -> workPermitPool -> Permit -> Prop :=
| TryStart p b class :
    PermitStep p (mkPermit false b Unlocked) p (mkPermit false b (TryPool class))
| TryFirst p h b class :
    canSend (firstBank class) p = true ->
    PermitStep p (mkPermit h b (TryPool class))
      (bankAdd (firstBank class) 1 p) (mkPermit h b (TryAdd (firstBank class)))
| TryFirstFull p h b :
    canSend permitReserved p = false ->
    PermitStep p (mkPermit h b (TryPool workPermitUrgent)) p (mkPermit h b TryGeneral)
| TryFail p h b :
    canSend permitGeneral p = false ->
    PermitStep p (mkPermit h b (TryPool workPermitNewExecution)) p (mkPermit h b Unlocked)
| TrySecond p h b :
    canSend permitGeneral p = true ->
    PermitStep p (mkPermit h b TryGeneral) (bankAdd permitGeneral 1 p) (mkPermit h b (TryAdd permitGeneral))
| TrySecondFail p h b :
    canSend permitGeneral p = false ->
    PermitStep p (mkPermit h b TryGeneral) p (mkPermit h b Unlocked)
| TryCount p h b b' :
    PermitStep p (mkPermit h b (TryAdd b')) (addInUse 1 p) (mkPermit h b (TrySet b'))
| TryDone p h b b' :
    PermitStep p (mkPermit h b (TrySet b')) p (mkPermit true b' Unlocked)
| YieldStart p b :
    PermitStep p (mkPermit true b Unlocked) p (mkPermit true b YieldRecv)
| YieldReceive p h b :
    0 < bankCount b p ->
    PermitStep p (mkPermit h b YieldRecv) (bankAdd b (-1) p) (mkPermit h b YieldDec)
| YieldCount p h b :
    PermitStep p (mkPermit h b YieldDec) (addInUse (-1) p) (mkPermit h b YieldSet)
| YieldDone p h b :
    PermitStep p (mkPermit h b YieldSet) p (mkPermit false permitNone Unlocked).

(** Steps of [Acquire] outside the mutex: the new counter, [None] when it returns. *)
Inductive AcquireStep : workPermitPool -> AcquirePc -> workPermitPool -> option AcquirePc -> Prop :=
| AcqFirst p class :
    canSend (firstBank class) p = true ->
    AcquireStep p (AcqPool class) (bankAdd (firstBank class) 1 p) (Some (AcqAdd (firstBank class)))
| AcqFirstFull p :
    canSend permitReserved p = false ->
    AcquireStep p (AcqPool workPermitUrgent) p (Some AcqBlock)
| AcqCancelNew p : AcquireStep p (AcqPool workPermitNewExecution) p None
| AcqEither p b :
    b <> permitNone -> canSend b p = true ->
    AcquireStep p AcqBlock (bankAdd b 1 p) (Some (AcqAdd b))
| AcqCancel p : AcquireStep p AcqBlock p None
| AcqCount p b : AcquireStep p (AcqAdd b) (addInUse 1 p) (Some (AcqLock b))
| RelReceive p b :
    0 < bankCount b p -> AcquireStep p (RelRecv b) (bankAdd b (-1) p) (Some RelDec)
| RelCount p : AcquireStep p RelDec (addInUse (-1) p) None.

Definition setThread (i : nat) (t : Thread) (pc : option AcquirePc) (ts : list Thread) : list Thread :=
  match pc with
  | Some pc => <[i := mkThread (t_permit t) pc]> ts
  | None => delete i ts
  end.

Inductive Step : Sys -> Sys -> Prop :=
| StepPermit s j e p' e' :
    s_permits s !! j = Some e -> PermitStep (s_pool s) e p' e' ->
    Step s (mkSys p' (<[j := e']> (s_permits s)) (s_threads s))
| StepAcquireStart s j e class :
    s_permits s !! j = Some e -> p_lock e = Unlocked -> p_held e = false ->
    Step s (mkSys (s_pool s) (s_permits s) (mkThread j (AcqPool class) :: s_threads s))
| StepAcquire s i t p' pc' :
    s_threads s !! i = Some t -> AcquireStep (s_pool s) (t_pc t) p' pc' ->
    Step s (mkSys p' (s_permits s) (setThread i t pc' (s_threads s)))
| StepSecondHeld s i j b e :
    s_threads s !! i = Some (mkThread j (AcqLock b)) ->
    s_permits s !! j = Some e -> p_lock e = Unlocked -> p_held e = true ->
    Step s (mkSys (s_pool s) (s_permits s) (<[i := mkThread j (RelRecv b)]> (s_threads s)))
| StepSecondTake s i j b e :
    s_threads s !! i = Some (mkThread j (AcqLock b)) ->
    s_permits s !! j = Some e -> p_lock e = Unlocked -> p_held e = false ->
    Step s (mkSys (s_pool s) (<[j := mkPermit true b Unlocked]> (s_permits s)) (delete i (s_threads s))).

Definition newSys (workers : Z) (permits : nat) : Sys :=
  mkSys (newWorkPermitPool workers) (replicate permits (mkPermit false permitNone Unlocked)) [].

Definition Reachable (workers : Z) (permits : nat) (s : Sys) : Prop :=
  rtc Step (newSys workers permits) s.

(** ** Accounting *)

(** The slots of bank [b] a permit stands for. *)
Definition permitSlots (b : permitBank) (e : Permit) : Z :=
  match p_lock e with
  | TryAdd b' | TrySet b' => if decide (b' = b) then 1 else 0
  | YieldDec | YieldSet => 0
  | _ => if p_held e then if decide (p_bank e = b) then 1 else 0 else 0
  end.

(** The slots of bank [b] an [Acquire] in progress carries. *)
Definition threadSlots (b : permitBank) (t : Thread) : Z :=
  match t_pc t with
  | AcqAdd b' | AcqLock b' | RelRecv b' => if decide (b' = b) then 1 else 0
  | _ => 0
  end.

(** How far the counter is from the number of slots taken. *)
Definition permitLag (e : Permit) : Z :=
  match p_lock e with TryAdd _ => -1 | YieldDec => 1 | _ => 0 end.
Definition threadLag (t : Thread) : Z :=
  match t_pc t with AcqAdd _ => -1 | RelDec => 1 | _ => 0 end.

Definition sumf {A} (f : A -> Z) (l : list A) : Z := foldr (fun x n => f x + n) 0 l.

Definition slots (b : permitBank) (s : Sys) : Z :=
  sumf (permitSlots b) (s_permits s) + sumf (threadSlots b) (s_threads s).
Definition lag (s : Sys) : Z := sumf permitLag (s_permits s) + sumf threadLag (s_threads s).

(** A permit that is not held has no bank, a held one has; its sections start
    from the right state and carry a real bank. *)
Definition permitOk (e : Permit) : Prop :=
  (p_held e = true <-> p_bank e <> permitNone) /\
  match p_lock e with
  | Unlocked => True
  | TryPool _ | TryGeneral => p_held e = false
  | TryAdd b | TrySet b => p_held e = false /\ b <> permitNone
  | YieldRecv | YieldDec | YieldSet => p_held e = true
  end.

Definition threadOk (t : Thread) : Prop :=
  match t_pc t with AcqAdd b | AcqLock b | RelRecv b => b <> permitNone | _ => True end.

Record Inv (workers : Z) (s : Sys) : Prop := {
  inv_caps : (generalCap (s_pool s), reservedCap (s_pool s)) = workPermitLimits workers;
  inv_general : general (s_pool s) = slots permitGeneral s;
  inv_reserved : reserved (s_pool s) = slots permitReserved s;
  inv_general_cap : general (s_pool s) <= generalCap (s_pool s);
  inv_reserved_cap : reserved (s_pool s) <= reservedCap (s_pool s);
  inv_inUse : inUse (s_pool s) = general (s_pool s) + reserved (s_pool s) + lag s;
  inv_permits : Forall permitOk (s_permits s);
  inv_threads : Forall threadOk (s_threads s)
}.

Lemma sumf_insert {A} (f : A -> Z) (l : list A) (i : nat) (x y : A) :
  l !! i = Some x -> sumf f (<[i := y]> l) = sumf f l - f x + f y.
Proof.
  revert i. induction l as [|z l IH]; intros [|i] H; try done; simpl in *.
  - injection H as ->. lia.
  - rewrite (IH i H). lia.
Qed.

Lemma sumf_delete {A} (f : A -> Z) (l : list A) (i : nat) (x : A) :
  l !! i = Some x -> sumf f (delete i l) = sumf f l - f x.
Proof.
  revert i. induction l as [|z l IH]; intros [|i] H; try done; simpl in *.
  - injection H as ->. lia.
  - rewrite (IH i H). lia.
Qed.

Lemma sumf_nonneg {A} (f : A -> Z) (l : list A) : (forall x, 0 <= f x) -> 0 <= sumf f l.
Proof. intros H. induction l as [|x l IH]; simpl; [lia|]. pose proof (H x). lia. Qed.

Lemma sumf_member {A} (f : A -> Z) (l : list A) (i : nat) (x : A) :
  (forall x, 0 <= f x) -> l !! i = Some x -> f x <= sumf f l.
Proof.
  intros H Hi. pose proof (sumf_delete f l i x Hi). pose proof (sumf_nonneg f (delete i l) H). lia.
Qed.

Lemma permitSlots_nonneg b e : 0 <= permitSlots b e.
Proof. unfold permitSlots. destruct (p_lock e); repeat case_decide; try case_match; lia. Qed.
Lemma threadSlots_nonneg b t : 0 <= threadSlots b t.
Proof. unfold threadSlots. destruct (t_pc t); try case_decide; lia. Qed.

Lemma slots_nonneg b s : 0 <= slots b s.
Proof.
  unfold slots. pose proof (sumf_nonneg _ (s_permits s) (permitSlots_nonneg b)).
  pose proof (sumf_nonneg _ (s_threads s) (threadSlots_nonneg b)). lia.
Qed.

Lemma inv_init (workers : Z) (n : nat) : Inv workers (newSys workers n).
Proof.
  assert (forall f, f (mkPermit false permitNone Unlocked) = 0 ->
    sumf f (replicate n (mkPermit false permitNone Unlocked)) = 0) as Hs.
  { intros f Hf. induction n; simpl; lia. }
  unfold newSys, newWorkPermitPool.
  assert (0 <= (workPermitLimits workers).1 /\ 0 <= (workPermitLimits workers).2) as [H1 H2].
  { unfold workPermitLimits; cbv zeta. repeat case_if; simpl; bool_to_prop; lia. }
  destruct (workPermitLimits workers) as [normal res] eqn:E. simpl in *.
  split; simpl; try done; unfold slots, lag; simpl; rewrite ?Hs by done; try lia.
  apply Forall_replicate. by split.
Qed.

(** What a step on the pool and one permit changes. *)
Lemma PermitStep_delta p e p' e' :
  PermitStep p e p' e' -> permitOk e ->
  permitOk e' /\ generalCap p' = generalCap p /\ reservedCap p' = reservedCap p /\
  general p' - general p = permitSlots permitGeneral e' - permitSlots permitGeneral e /\
  reserved p' - reserved p = permitSlots permitReserved e' - permitSlots permitReserved e /\
  (general p <= generalCap p -> general p' <= generalCap p) /\
  (reserved p <= reservedCap p -> reserved p' <= reservedCap p) /\
  inUse p' - inUse p = general p' - general p + (reserved p' - reserved p) + (permitLag e' - permitLag e).
Proof.
  intros H [Hb Hl].
  destruct H as [p b class|p h b class Hc|p h b Hc|p h b Hc|p h b Hc|p h b Hc|p h b b'|p h b b'|p b
    |p h b Hc|p h b|p h b]; unfold permitOk, permitSlots, permitLag in *; simpl in *;
    try (destruct class); try match type of Hl with _ /\ _ => destruct Hl as [-> Hl] end; subst;
    try destruct b; try destruct b'; try destruct h; simpl in *; bool_to_prop;
    try (exfalso; destruct Hb as [Hb1 Hb2]; (by apply Hb1) || (by assert (false = true) by (by apply Hb2)));
    split_and!; try lia; try done; try (split; done).
Qed.

Lemma AcquireStep_delta p t p' pc' :
  AcquireStep p (t_pc t) p' pc' -> threadOk t ->
  let t' := from_option (fun pc => [mkThread (t_permit t) pc]) [] pc' in
  Forall threadOk t' /\ generalCap p' = generalCap p /\ reservedCap p' = reservedCap p /\
  general p' - general p = sumf (threadSlots permitGeneral) t' - threadSlots permitGeneral t /\
  reserved p' - reserved p = sumf (threadSlots permitReserved) t' - threadSlots permitReserved t /\
  (general p <= generalCap p -> general p' <= generalCap p) /\
  (reserved p <= reservedCap p -> reserved p' <= reservedCap p) /\
  inUse p' - inUse p =
    general p' - general p + (reserved p' - reserved p) + (sumf threadLag t' - threadLag t).
Proof.
  destruct t as [j pc]. simpl. intros H Hok.
  destruct H as [p class Hc|p Hc|p|p b Hb Hc|p|p b|p b Hc|p];
    unfold threadOk, threadSlots, threadLag in *; simpl in *;
    try destruct class; try destruct b; simpl in *; bool_to_prop; try done;
    split_and!; try lia; try done; repeat constructor; done.
Qed.

Lemma sumf_setThread (f : Thread -> Z) (i : nat) (t : Thread) (pc : option AcquirePc) (ts : list Thread) :
  ts !! i = Some t ->
  sumf f (setThread i t pc ts) =
  sumf f ts - f t + sumf f (from_option (fun pc => [mkThread (t_permit t) pc]) [] pc).
Proof.
  intros H. destruct pc; simpl; [rewrite (sumf_insert f ts i t) by done|rewrite (sumf_delete f ts i t) by done];
    simpl; lia.
Qed.

Lemma Forall_setThread (P : Thread -> Prop) (i : nat) (t : Thread) (pc : option AcquirePc) (ts : list Thread) :
  Forall P ts -> Forall P (from_option (fun pc => [mkThread (t_permit t) pc]) [] pc) ->
  Forall P (setThread i t pc ts).
Proof.
  intros H H'. destruct pc; simpl in *; [|by apply Forall_delete].
  apply Forall_insert; [done|]. by inversion H'.
Qed.

Lemma inv_step (workers : Z) (s s' : Sys) : Inv workers s -> Step s s' -> Inv workers s'.
Proof.
  intros [Hcap Hg Hr Hgc Hrc Hu Hp Ht] H.
  destruct H as [s j e p' e' Hj Hs|s j e class Hj Hl Hh|s i t p' pc' Hi Hs|s i j b e Hi Hj Hl Hh
    |s i j b e Hi Hj Hl Hh].
  - pose proof (Forall_lookup_1 _ _ _ _ Hp Hj) as Hok.
    destruct (PermitStep_delta _ _ _ _ Hs Hok) as (Hok' & C1 & C2 & D1 & D2 & B1 & B2 & U).
    split; unfold slots, lag in *; simpl; rewrite ?(sumf_insert _ _ j e) by done; rewrite ?C1, ?C2; try lia.
    + done.
    + by apply Forall_insert.
    + done.
  - assert (forall b', threadSlots b' (mkThread j (AcqPool class)) = 0) as Hs0 by done.
    assert (threadLag (mkThread j (AcqPool class)) = 0) as Hl0 by done.
    split; unfold slots, lag in *; simpl; rewrite ?Hs0, ?Hl0; try done; try lia.
    by constructor.
  - pose proof (Forall_lookup_1 _ _ _ _ Ht Hi) as Hok.
    destruct (AcquireStep_delta _ _ _ _ Hs Hok) as (Hok' & C1 & C2 & D1 & D2 & B1 & B2 & U).
    split; unfold slots, lag in *; simpl; rewrite ?(sumf_setThread _ i t) by done; rewrite ?C1, ?C2; try lia.
    + done.
    + done.
    + by apply Forall_setThread.
  - pose proof (Forall_lookup_1 _ _ _ _ Ht Hi) as Hok.
    assert (forall b', threadSlots b' (mkThread j (RelRecv b)) = threadSlots b' (mkThread j (AcqLock b))) as Hs0 by done.
    assert (threadLag (mkThread j (RelRecv b)) = threadLag (mkThread j (AcqLock b))) as Hl0 by done.
    split; unfold slots, lag in *; simpl; rewrite ?(sumf_insert _ _ i _ _ Hi), ?Hs0, ?Hl0;
      try done; try lia.
    by apply Forall_insert.
  - pose proof (Forall_lookup_1 _ _ _ _ Ht Hi) as Hok. simpl in Hok.
    pose proof (Forall_lookup_1 _ _ _ _ Hp Hj) as Hokp.
    assert (p_bank e = permitNone) as Hb.
    { destruct (p_bank e) eqn:E; [done|..]; destruct Hokp as [[_ H2] _];
        rewrite E, Hh in H2; by specialize (H2 ltac:(done)). }
    assert (forall b', permitSlots b' e = 0) as Hs0 by (intros b'; unfold permitSlots; by rewrite Hl, Hh).
    assert (permitLag e = 0) as Hl0 by (unfold permitLag; by rewrite Hl).
    assert (forall b', permitSlots b' (mkPermit true b Unlocked) = threadSlots b' (mkThread j (AcqLock b))) as Hs1 by done.
    assert (permitLag (mkPermit true b Unlocked) = 0 /\ threadLag (mkThread j (AcqLock b)) = 0) as [Hl1 Hl2] by done.
    split; unfold slots, lag in *; simpl; rewrite ?(sumf_insert _ _ j _ _ Hj), ?(sumf_delete _ _ i _ Hi);
      rewrite ?Hs0, ?Hl0, ?Hs1; try done; try lia.
    + apply Forall_insert; [done|]. split; [|done]. cbn. unfold threadOk in Hok; cbn in Hok. split; done.
    + by apply Forall_delete.
Qed.

Lemma inv_reachable (workers : Z) (n : nat) (s : Sys) : Reachable workers n s -> Inv workers s.
Proof.
  unfold Reachable. intros H. remember (newSys workers n) as s0 eqn:E.
  assert (Inv workers s0) as H0 by (subst; apply inv_init). clear E.
  induction H as [|s0 s1 s2 Hs _ IH]; [done|]. apply IH. by apply (inv_step _ s0).
Qed.

(** ** Properties *)

(** The split of the workers: every limit is used, at least one slot is
    general, and with two workers or more at least one is kept for urgent
    work and never more than half of them. *)
Theorem workPermitLimits_split (workers : Z) :
  let '(normal, urgent) := workPermitLimits workers in
  let total := if workers <=? 0 then 16 else workers in
  normal + urgent = total /\ 1 <= normal /\ (2 <= total -> 1 <= urgent) /\ 2 * urgent <= total.
Proof.
  unfold workPermitLimits; cbv zeta. set (w := if workers <=? 0 then 16 else workers).
  assert (1 <= w) by (unfold w; destruct (Z.leb_spec workers 0); lia).
  destruct (Z.eqb_spec w 1); [split_and!; lia|].
  pose proof (Z.quot_lt w 4). pose proof (Z.mul_quot_le w 4).
  repeat case_if; bool_to_prop; split_and!; lia.
Qed.

(** Under every interleaving the slots taken are exactly the slots held by
    permits or carried by an [Acquire] in progress, they never exceed the
    limits, and a permit is held exactly when it has a bank. *)
Theorem permits_accounted (workers : Z) (n : nat) (s : Sys) :
  Reachable workers n s ->
  let '(normal, urgent) := workPermitLimits workers in
  0 <= general (s_pool s) <= normal /\ 0 <= reserved (s_pool s) <= urgent /\
  general (s_pool s) = slots permitGeneral s /\ reserved (s_pool s) = slots permitReserved s /\
  (forall e, e ∈ s_permits s -> p_held e = true <-> p_bank e <> permitNone).
Proof.
  intros H%inv_reachable. destruct H as [Hcap Hg Hr Hgc Hrc _ Hp _]. rewrite <- Hcap.
  pose proof (slots_nonneg permitGeneral s). pose proof (slots_nonneg permitReserved s).
  split_and!; try lia. intros e He. rewrite Forall_forall in Hp. apply (Hp e He).
Qed.

Lemma slots_member_thread (b : permitBank) (s : Sys) (i : nat) (t : Thread) :
  s_threads s !! i = Some t -> threadSlots b t <= slots b s.
Proof.
  intros H. unfold slots. pose proof (sumf_member _ _ _ _ (threadSlots_nonneg b) H).
  pose proof (sumf_nonneg _ (s_permits s) (permitSlots_nonneg b)). lia.
Qed.

Lemma slots_member_permit (b : permitBank) (s : Sys) (j : nat) (e : Permit) :
  s_permits s !! j = Some e -> permitSlots b e <= slots b s.
Proof.
  intros H. unfold slots. pose proof (sumf_member _ _ _ _ (permitSlots_nonneg b) H).
  pose proof (sumf_nonneg _ (s_threads s) (threadSlots_nonneg b)). lia.
Qed.

Lemma Inv_bankCount (workers : Z) (s : Sys) (b : permitBank) :
  Inv workers s -> b <> permitNone -> bankCount b (s_pool s) = slots b s.
Proof. intros [_ Hg Hr _ _ _ _ _] Hb. by destruct b. Qed.

(** Giving a slot back never blocks: whenever [Yield] or the losing side
    of a concurrent [Acquire] is about to receive from a bank's channel, that
    channel holds a slot, so the step is enabled. *)
Theorem release_never_blocks (workers : Z) (n : nat) (s : Sys) :
  Reachable workers n s ->
  (forall i t b, s_threads s !! i = Some t -> t_pc t = RelRecv b -> 0 < bankCount b (s_pool s)) /\
  (forall j e, s_permits s !! j = Some e -> p_lock e = YieldRecv ->
     0 < bankCount (p_bank e) (s_pool s)).
Proof.
  intros H%inv_reachable. split.
  - intros i t b Hi Hpc. pose proof (Forall_lookup_1 _ _ _ _ (inv_threads _ _ H) Hi) as Hok.
    unfold threadOk in Hok. rewrite Hpc in Hok.
    rewrite (Inv_bankCount workers) by done.
    pose proof (slots_member_thread b s i t Hi) as Hm. unfold threadSlots in Hm.
    rewrite Hpc, decide_True in Hm by done. lia.
  - intros j e Hj Hl. pose proof (Forall_lookup_1 _ _ _ _ (inv_permits _ _ H) Hj) as [Hb Hk].
    rewrite Hl in Hk.
    rewrite (Inv_bankCount workers) by (done || by apply Hb).
    pose proof (slots_member_permit (p_bank e) s j e Hj) as Hm. unfold permitSlots in Hm.
    rewrite Hl, Hk, decide_True in Hm by done. lia.
Qed.

(** Nothing leaks: once no operation is in progress the counter, the
    slots taken and the permits held agree, however the operations were
    interleaved. *)
Theorem quiescent_permits_exact (workers : Z) (n : nat) (s : Sys) :
  Reachable workers n s ->
  s_threads s = [] -> Forall unlockedPermit (s_permits s) ->
  inUse (s_pool s) = general (s_pool s) + reserved (s_pool s) /\
  inUse (s_pool s) = Z.of_nat (length (filter (fun e => p_held e = true) (s_permits s))).
Proof.
  intros H%inv_reachable Ht Hu. destruct H as [_ Hg Hr _ _ Hi Hp _].
  unfold slots, lag in *. rewrite Ht in *. simpl in *.
  assert (sumf permitLag (s_permits s) = 0 /\
    sumf (permitSlots permitGeneral) (s_permits s) + sumf (permitSlots permitReserved) (s_permits s)
    = Z.of_nat (length (filter (fun e => p_held e = true) (s_permits s)))) as [E1 E2].
  { clear Hg Hr Hi Ht. induction (s_permits s) as [|e l IH]; [done|].
    inversion Hu as [|? ? He Hu']; subst. inversion Hp as [|? ? Hok Hp']; subst.
    destruct (IH Hp' Hu') as [I1 I2]. unfold unlockedPermit in He. simpl. rewrite filter_cons.
    assert (permitLag e = 0) as -> by (unfold permitLag; by rewrite He).
    assert (permitSlots permitGeneral e + permitSlots permitReserved e = if p_held e then 1 else 0) as Es.
    { unfold permitSlots. rewrite He. destruct Hok as [Hb _]. destruct (p_held e) eqn:Eh; [|done].
      destruct (p_bank e) eqn:Eb; [|done..]. exfalso. by apply Hb. }
    destruct (p_held e) eqn:Eh; case_decide; try done; simpl; lia. }
  lia.
Qed.

(** The permit [j] of a system seen alone. *)
Definition seqView (s : Sys) (e : Permit) : executionWorkPermit :=
  mkPermitSeq (Some (s_pool s)) (p_held e) (p_bank e).

(** A permit and its pool stepping without interference. *)
Definition Solo (x y : workPermitPool * Permit) : Prop := PermitStep x.1 x.2 y.1 y.2.

Lemma Solo_intro p e p' e' : PermitStep p e p' e' -> Solo (p, e) (p', e').
Proof. done. Qed.

Lemma solo_lift (x y : workPermitPool * Permit) (ps : list Permit) (ts : list Thread) (j : nat) :
  rtc Solo x y -> ps !! j = Some x.2 ->
  rtc Step (mkSys x.1 ps ts) (mkSys y.1 (<[j := y.2]> ps) ts).
Proof.
  intros H. revert ps. induction H as [x|x y z Hxy _ IH]; intros ps Hj.
  - by rewrite list_insert_id.
  - apply rtc_l with (mkSys y.1 (<[j := y.2]> ps) ts); [by eapply StepPermit|].
    rewrite <- (list_insert_insert_eq ps j z.2 y.2). apply IH.
    apply list_lookup_insert_eq. by eapply lookup_lt_Some.
Qed.

Lemma solo_try (p : workPermitPool) (b : permitBank) (class : workPermitClass) (b' : permitBank) p' :
  tryAcquirePool p class = Some (b', p') ->
  rtc Solo (p, mkPermit false b Unlocked) (p', mkPermit true b' Unlocked).
Proof.
  intros H.
  assert (exists l1, rtc Solo (p, mkPermit false b Unlocked) (p, mkPermit false b l1) /\
    canSend b' p = true /\ p' = addInUse 1 (bankAdd b' 1 p) /\
    Solo (p, mkPermit false b l1) (bankAdd b' 1 p, mkPermit false b (TryAdd b'))) as (l1 & R & Hc & -> & S1).
  { unfold tryAcquirePool in H. destruct class.
    - destruct (canSend permitGeneral p) eqn:E; [|done]. injection H as <- <-.
      exists (TryPool workPermitNewExecution). split_and!; try done; [|by apply (TryFirst p false b workPermitNewExecution)].
      apply rtc_once. apply TryStart.
    - destruct (canSend permitReserved p) eqn:E.
      + injection H as <- <-. exists (TryPool workPermitUrgent).
        split_and!; try done; [|by apply (TryFirst p false b workPermitUrgent)].
        apply rtc_once. apply TryStart.
      + destruct (canSend permitGeneral p) eqn:E'; [|done]. injection H as <- <-.
        exists TryGeneral. split_and!; try done; [|by apply TrySecond].
        eapply rtc_l; [apply Solo_intro, (TryStart p b workPermitUrgent)|]. apply rtc_once. by apply TryFirstFull. }
  etrans; [exact R|]. eapply rtc_l; [exact S1|].
  eapply rtc_l; [apply Solo_intro, TryCount|]. apply rtc_once. apply TryDone.
Qed.

Lemma solo_yield (p p' : workPermitPool) (b : permitBank) :
  b <> permitNone -> release (Some p) b = Some (Some p') ->
  rtc Solo (p, mkPermit true b Unlocked) (p', mkPermit false permitNone Unlocked).
Proof.
  intros Hb H. assert (0 < bankCount b p /\ p' = addInUse (-1) (bankAdd b (-1) p)) as [Hc ->].
  { unfold release in H. destruct b; [done|..];
      (match type of H with (if ?t then _ else _) = _ => destruct t eqn:E end; [done|];
       injection H as <-; split; [apply Z.leb_gt in E; lia|done]). }
  eapply rtc_l; [apply Solo_intro, YieldStart|]. eapply rtc_l; [by apply Solo_intro, YieldReceive|].
  eapply rtc_l; [apply Solo_intro, YieldCount|]. apply rtc_once. apply YieldDone.
Qed.

(** The sequential operations are runs of the interleaving semantics: from
    any state in which a permit's mutex is free, [TryAcquire] and [Yield],
    executed without interference, take the permit and the pool to the result
    the functions compute. *)
Theorem sequential_runs (s : Sys) (j : nat) (e : Permit) (class : workPermitClass) (p' : workPermitPool)
    (ok h' : bool) (b' : permitBank) :
  s_permits s !! j = Some e -> p_lock e = Unlocked -> permitOk e ->
  TryAcquire (seqView s e) class = (ok, mkPermitSeq (Some p') h' b') \/
  Yield (seqView s e) = Some (mkPermitSeq (Some p') h' b') ->
  rtc Step s (mkSys p' (<[j := mkPermit h' b' Unlocked]> (s_permits s)) (s_threads s)).
Proof.
  destruct e as [h b l], s as [p ps ts]. simpl. intros Hj -> [Hok _] H.
  apply (solo_lift (p, mkPermit h b Unlocked) (p', mkPermit h' b' Unlocked)); [|done]. simpl in *.
  unfold TryAcquire, Yield, seqView in H. cbn [held pool bank p_held p_bank s_pool negb] in H. destruct h.
  - destruct H as [H|H]; [injection H as <- <- <- <-; apply rtc_refl|].
    destruct (release (Some p) b) as [q|] eqn:Er; [|done]. injection H as -> <- <-.
    apply solo_yield; [by apply Hok|done].
  - destruct H as [H|H]; [|injection H as <- <- <-; apply rtc_refl].
    unfold tryAcquire in H. destruct (tryAcquirePool p class) as [[b1 p1]|] eqn:Et.
    + injection H as <- <- <- <-. by apply (solo_try _ _ class).
    + injection H as <- <- <- <-. apply rtc_refl.
Qed.

(** ** Concrete instances of the theorems *)

(** Two [Acquire]s race for one permit of a pool of four workers: both take a
    general slot, the second finds the permit held and gives its slot back. *)
Lemma race_reachable :
  Reachable 4 1 (mkSys (mkPool 3 1 2 0 2) [mkPermit true permitGeneral Unlocked]
    [mkThread 0 (RelRecv permitGeneral)]).
Proof.
  unfold Reachable, newSys, newWorkPermitPool. simpl.
  eapply rtc_l; [by eapply (StepAcquireStart _ 0 _ workPermitNewExecution)|]. simpl.
  eapply rtc_l; [by eapply (StepAcquireStart _ 0 _ workPermitNewExecution)|]. simpl.
  eapply rtc_l; [eapply (StepAcquire _ 0); [reflexivity|by apply AcqFirst]|]. simpl.
  eapply rtc_l; [eapply (StepAcquire _ 1); [reflexivity|by apply AcqFirst]|]. simpl.
  eapply rtc_l; [eapply (StepAcquire _ 0); [reflexivity|apply AcqCount]|]. simpl.
  eapply rtc_l; [eapply (StepAcquire _ 1); [reflexivity|apply AcqCount]|]. simpl.
  eapply rtc_l; [by eapply (StepSecondTake _ 0 0)|]. simpl.
  eapply rtc_l; [by eapply (StepSecondHeld _ 0 0)|]. simpl.
  apply rtc_refl.
Qed.

(** ... and the race resolved: one slot taken, one permit held. *)
Lemma race_resolved :
  Reachable 4 1 (mkSys (mkPool 3 1 1 0 1) [mkPermit true permitGeneral Unlocked] []).
Proof.
  unfold Reachable. etrans; [apply race_reachable|].
  eapply rtc_l; [eapply (StepAcquire _ 0); [reflexivity|by apply RelReceive]|]. simpl.
  eapply rtc_l; [eapply (StepAcquire _ 0); [reflexivity|apply RelCount]|]. simpl.
  apply rtc_refl.
Qed.

Lemma permits_accounted_witness :
  let s := mkSys (mkPool 3 1 2 0 2) [mkPermit true permitGeneral Unlocked]
    [mkThread 0 (RelRecv permitGeneral)] in
  Reachable 4 1 s /\ general (s_pool s) = slots permitGeneral s.
Proof.
  intros s. split; [apply race_reachable|].
  exact (proj1 (proj2 (proj2 (permits_accounted 4 1 s race_reachable)))).
Defined.

Lemma release_never_blocks_witness :
  0 < bankCount permitGeneral (mkPool 3 1 2 0 2).
Proof.
  exact (proj1 (release_never_blocks 4 1 _ race_reachable) 0%nat _ permitGeneral eq_refl eq_refl).
Defined.

Lemma quiescent_permits_exact_witness :
  inUse (mkPool 3 1 1 0 1) = Z.of_nat (length (filter (fun e => p_held e = true)
    [mkPermit true permitGeneral Unlocked])).
Proof.
  apply (quiescent_permits_exact 4 1 _ race_resolved); [reflexivity|].
  apply Forall_singleton. reflexivity.
Defined.

Lemma sequential_runs_witness :
  rtc Step (newSys 4 1) (mkSys (mkPool 3 1 0 1 1) [mkPermit true permitReserved Unlocked] []).
Proof.
  apply (sequential_runs (newSys 4 1) 0 (mkPermit false permitNone Unlocked) workPermitUrgent
    (mkPool 3 1 0 1 1) true true permitReserved); [reflexivity|reflexivity| |left; reflexivity].
  split; [split; discriminate || (intros H; exfalso; apply H; reflexivity)|exact I].
Defined.
