(* ===== verification/SchedResources.v ===== *)
(** * Execution resources of the scheduler (arbitrage_scheduler.go)

    An execution needs a slot, a work permit, room in the use counts of both
    accounts and venues, and the running flag of its combination.  They are
    taken one after the other and given back in the other order, by the
    goroutine of each combination, interleaved with the others.  The first part
    has the operations as the scheduler calls them, the second the goroutines
    as a step relation over the same operations. *)
From Stdlib Require Import ZArith String.
From stdpp Require Import base strings list gmap.
From S2P Require Import Prelude Types WorkPermit.

#[local] Set Warnings "-clear-no-such-hyp".
#[local] Arguments sumf : simpl never.

(** ** State and operations *)

(** [executionSlots] as its capacity and number of elements, [workPermits],
    [accountUse] and [venueUse] with their limits. *)
Record Resources := mkResources {
  rp_slotCap : Z;
  rp_slots : Z;
  rp_permits : workPermitPool;
  rp_maxAccount : Z;
  rp_maxVenue : Z;
  rp_accountUse : gmap Z Z;
  rp_venueUse : gmap string Z
}.
#[export] Instance eta_Resources : Eta Resources := fun r =>
  mkResources (rp_slotCap r) (rp_slots r) (rp_permits r) (rp_maxAccount r) (rp_maxVenue r) (rp_accountUse r) (rp_venueUse r).

Definition newResources (workers maxAccount maxVenue : Z) : Resources :=
  let workers := if workers <=? 0 then 16 else workers in
  mkResources workers 0 (newWorkPermitPool workers) (if maxAccount <=? 0 then 4 else maxAccount)
    (if maxVenue <=? 0 then 16 else maxVenue) ∅ ∅.

(** The accounts and venues of a combination, each once. *)
Definition arbitrageAccountIDs (item : ArbitrageCombination) : list Z :=
  let a := l_TradingAccountID (c_LegA item) in
  let b := l_TradingAccountID (c_LegB item) in
  if a =? b then [a] else [a; b].
Definition arbitrageVenues (item : ArbitrageCombination) : list string :=
  let a := l_Exchange (c_LegA item) in
  let b := l_Exchange (c_LegB item) in
  if a =?s b then [a] else [a; b].

Section Use.
Context {K : Type} `{Countable K}.

(** A count of a Go map: an absent key counts zero. *)
Definition useOf (m : gmap K Z) (k : K) : Z := default 0 (m !! k).
Definition incUse (m : gmap K Z) (k : K) : gmap K Z := <[k := useOf m k + 1]> m.
Definition decUse (m : gmap K Z) (k : K) : gmap K Z := if 1 <? useOf m k then <[k := useOf m k - 1]> m else delete k m.
Definition hasRoom (limit : Z) (m : gmap K Z) (ks : list K) : bool := forallb (fun k => negb (limit <=? useOf m k)) ks.
End Use.

Definition tryAcquireSlot (r : Resources) : option Resources :=
  if rp_slots r <? rp_slotCap r then Some (r <| rp_slots := rp_slots r + 1 |>) else None.

(** A receive from the empty channel would block. *)
Definition releaseSlot (r : Resources) : option Resources :=
  if rp_slots r <=? 0 then None else Some (r <| rp_slots := rp_slots r - 1 |>).

Definition acquireExecutionCapacity (item : ArbitrageCombination) (r : Resources) : option Resources :=
  if negb (hasRoom (rp_maxAccount r) (rp_accountUse r) (arbitrageAccountIDs item)) then None
  else if negb (hasRoom (rp_maxVenue r) (rp_venueUse r) (arbitrageVenues item)) then None
  else Some (r <| rp_accountUse := fold_left incUse (arbitrageAccountIDs item) (rp_accountUse r) |>
               <| rp_venueUse := fold_left incUse (arbitrageVenues item) (rp_venueUse r) |>).

Definition releaseExecutionCapacity (item : ArbitrageCombination) (r : Resources) : Resources :=
  r <| rp_accountUse := fold_left decUse (arbitrageAccountIDs item) (rp_accountUse r) |>
    <| rp_venueUse := fold_left decUse (arbitrageVenues item) (rp_venueUse r) |>.

Definition acquirePermit (class : workPermitClass) (r : Resources) : option (permitBank * Resources) :=
  match tryAcquirePool (rp_permits r) class with
  | Some (b, p) => Some (b, r <| rp_permits := p |>)
  | None => None
  end.

(** [permit.Close], [None] when the receive would block. *)
Definition closePermit (b : permitBank) (r : Resources) : option Resources :=
  match release (Some (rp_permits r)) b with
  | Some (Some p) => Some (r <| rp_permits := p |>)
  | _ => None
  end.

(** [executionResources] *)
Record executionResources := mkExecutionResources { er_bank : permitBank; er_takeSlot : bool }.

(** [tryAcquireExecutionResources]: what was acquired, the resources and the
    running flag after. *)
Definition tryAcquireExecutionResources (item : ArbitrageCombination) (running : bool) (class : workPermitClass) (takeSlot : bool)
    (r : Resources) : option executionResources * Resources * bool :=
  match (if takeSlot then tryAcquireSlot r else Some r) with
  | None => (None, r, running)
  | Some r1 =>
      let giveSlot r' := if takeSlot then default r' (releaseSlot r') else r' in
      match acquirePermit class r1 with
      | None => (None, giveSlot r1, running)
      | Some (b, r2) =>
          let givePermit r' := default r' (closePermit b r') in
          match acquireExecutionCapacity item r2 with
          | None => (None, giveSlot (givePermit r2), running)
          | Some r3 =>
              if running then (None, giveSlot (givePermit (releaseExecutionCapacity item r3)), running)
              else (Some (mkExecutionResources b takeSlot), r3, true)
          end
      end
  end.

(** [releaseExecutionResources] *)
Definition releaseExecutionResources (item : ArbitrageCombination) (res : executionResources) (r : Resources) : Resources :=
  let r := releaseExecutionCapacity item r in
  let r := default r (closePermit (er_bank res) r) in
  if er_takeSlot res then default r (releaseSlot r) else r.

(** ** The goroutines *)

Inductive Stage := StSlot | StPermit | StCapacity | StFlag | StRunning | StGiveCapacity | StGivePermit | StGiveSlot.
#[export] Instance Stage_eq_dec : EqDecision Stage.
Proof. solve_decision. Defined.

(** A call of [tryAcquireExecutionResources], and the execution it starts:
    its runtime, the combination, what it asked for and where it is. *)
Record Worker := mkWorker {
  wk_runtime : nat;
  wk_item : ArbitrageCombination;
  wk_class : workPermitClass;
  wk_takeSlot : bool;
  wk_bank : permitBank;
  wk_stage : Stage
}.
#[export] Instance eta_Worker : Eta Worker := fun w =>
  mkWorker (wk_runtime w) (wk_item w) (wk_class w) (wk_takeSlot w) (wk_bank w) (wk_stage w).

(** [sy_running]: the runtimes whose [executionRunning] is set. *)
Record SchedSys := mkSchedSys { sy_resources : Resources; sy_running : gset nat; sy_workers : list Worker }.

Inductive schedStep : SchedSys -> SchedSys -> Prop :=
| sched_call r run ws rt item class takeSlot :
    schedStep (mkSchedSys r run ws) (mkSchedSys r run (ws ++ [mkWorker rt item class takeSlot permitNone StSlot]))
| sched_slot r run ws i w r' : ws !! i = Some w -> wk_stage w = StSlot ->
    (if wk_takeSlot w then tryAcquireSlot r else Some r) = Some r' ->
    schedStep (mkSchedSys r run ws) (mkSchedSys r' run (<[i := w <| wk_stage := StPermit |>]> ws))
| sched_no_slot r run ws i w : ws !! i = Some w -> wk_stage w = StSlot -> wk_takeSlot w = true -> tryAcquireSlot r = None ->
    schedStep (mkSchedSys r run ws) (mkSchedSys r run (delete i ws))
| sched_permit r run ws i w b r' : ws !! i = Some w -> wk_stage w = StPermit -> acquirePermit (wk_class w) r = Some (b, r') ->
    schedStep (mkSchedSys r run ws) (mkSchedSys r' run (<[i := w <| wk_bank := b |> <| wk_stage := StCapacity |>]> ws))
| sched_no_permit r run ws i w : ws !! i = Some w -> wk_stage w = StPermit -> acquirePermit (wk_class w) r = None ->
    schedStep (mkSchedSys r run ws) (mkSchedSys r run (<[i := w <| wk_stage := StGiveSlot |>]> ws))
| sched_capacity r run ws i w r' : ws !! i = Some w -> wk_stage w = StCapacity -> acquireExecutionCapacity (wk_item w) r = Some r' ->
    schedStep (mkSchedSys r run ws) (mkSchedSys r' run (<[i := w <| wk_stage := StFlag |>]> ws))
| sched_no_capacity r run ws i w : ws !! i = Some w -> wk_stage w = StCapacity -> acquireExecutionCapacity (wk_item w) r = None ->
    schedStep (mkSchedSys r run ws) (mkSchedSys r run (<[i := w <| wk_stage := StGivePermit |>]> ws))
| sched_start r run ws i w : ws !! i = Some w -> wk_stage w = StFlag -> wk_runtime w ∉ run ->
    schedStep (mkSchedSys r run ws) (mkSchedSys r ({[wk_runtime w]} ∪ run) (<[i := w <| wk_stage := StRunning |>]> ws))
| sched_already r run ws i w : ws !! i = Some w -> wk_stage w = StFlag -> wk_runtime w ∈ run ->
    schedStep (mkSchedSys r run ws) (mkSchedSys r run (<[i := w <| wk_stage := StGiveCapacity |>]> ws))
| sched_yield r run ws i w r' : ws !! i = Some w -> wk_stage w = StRunning -> closePermit (wk_bank w) r = Some r' ->
    schedStep (mkSchedSys r run ws) (mkSchedSys r' run (<[i := w <| wk_bank := permitNone |>]> ws))
| sched_reacquire r run ws i w class b r' : ws !! i = Some w -> wk_stage w = StRunning -> wk_bank w = permitNone ->
    acquirePermit class r = Some (b, r') ->
    schedStep (mkSchedSys r run ws) (mkSchedSys r' run (<[i := w <| wk_bank := b |>]> ws))
| sched_finish r run ws i w : ws !! i = Some w -> wk_stage w = StRunning ->
    schedStep (mkSchedSys r run ws) (mkSchedSys r (run ∖ {[wk_runtime w]}) (<[i := w <| wk_stage := StGiveCapacity |>]> ws))
| sched_give_capacity r run ws i w : ws !! i = Some w -> wk_stage w = StGiveCapacity ->
    schedStep (mkSchedSys r run ws)
      (mkSchedSys (releaseExecutionCapacity (wk_item w) r) run (<[i := w <| wk_stage := StGivePermit |>]> ws))
| sched_give_permit r run ws i w r' : ws !! i = Some w -> wk_stage w = StGivePermit -> closePermit (wk_bank w) r = Some r' ->
    schedStep (mkSchedSys r run ws) (mkSchedSys r' run (<[i := w <| wk_bank := permitNone |> <| wk_stage := StGiveSlot |>]> ws))
| sched_give_slot r run ws i w r' : ws !! i = Some w -> wk_stage w = StGiveSlot ->
    (if wk_takeSlot w then releaseSlot r else Some r) = Some r' ->
    schedStep (mkSchedSys r run ws) (mkSchedSys r' run (delete i ws)).

Definition newSchedSys (workers maxAccount maxVenue : Z) : SchedSys := mkSchedSys (newResources workers maxAccount maxVenue) ∅ [].
Definition schedReachable (workers maxAccount maxVenue : Z) (s : SchedSys) : Prop :=
  rtc schedStep (newSchedSys workers maxAccount maxVenue) s.

(** ** What a worker holds *)

Definition hasSlot (st : Stage) : bool := match st with StSlot => false | _ => true end.
Definition isRunning (st : Stage) : bool := match st with StRunning => true | _ => false end.
Definition holdsSlot (w : Worker) : Z := if wk_takeSlot w && hasSlot (wk_stage w) then 1 else 0.
Definition holdsBank (b : permitBank) (w : Worker) : Z := if decide (wk_bank w = b) then 1 else 0.
Definition hasCapacity (st : Stage) : bool := match st with StFlag | StRunning | StGiveCapacity => true | _ => false end.
Definition holdsAccount (a : Z) (w : Worker) : Z := if hasCapacity (wk_stage w) && bool_decide (a ∈ arbitrageAccountIDs (wk_item w)) then 1 else 0.
Definition holdsVenue (v : string) (w : Worker) : Z := if hasCapacity (wk_stage w) && bool_decide (v ∈ arbitrageVenues (wk_item w)) then 1 else 0.
Definition holdsFlag (rt : nat) (w : Worker) : Z := if isRunning (wk_stage w) && Nat.eqb (wk_runtime w) rt then 1 else 0.

(** A bank only at the stages that have a permit. *)
Definition bankOk (w : Worker) : Prop :=
  match wk_stage w with
  | StSlot | StPermit | StGiveSlot => wk_bank w = permitNone
  | _ => True
  end.

(** Counts and limits of a use map. *)
Definition useSound {K} `{Countable K} (limit : Z) (m : gmap K Z) (held : K -> Z) : Prop :=
  (forall k, useOf m k = held k /\ useOf m k <= limit) /\ (forall k n, m !! k = Some n -> 0 < n).

Record SchedInv (workers maxAccount maxVenue : Z) (s : SchedSys) : Prop := {
  iv_limits : rp_slotCap (sy_resources s) = rp_slotCap (newResources workers maxAccount maxVenue) /\
    rp_maxAccount (sy_resources s) = rp_maxAccount (newResources workers maxAccount maxVenue) /\
    rp_maxVenue (sy_resources s) = rp_maxVenue (newResources workers maxAccount maxVenue) /\
    generalCap (rp_permits (sy_resources s)) = generalCap (rp_permits (newResources workers maxAccount maxVenue)) /\
    reservedCap (rp_permits (sy_resources s)) = reservedCap (rp_permits (newResources workers maxAccount maxVenue));
  iv_slots : rp_slots (sy_resources s) = sumf holdsSlot (sy_workers s) /\ rp_slots (sy_resources s) <= rp_slotCap (sy_resources s);
  iv_general : general (rp_permits (sy_resources s)) = sumf (holdsBank permitGeneral) (sy_workers s) /\
    general (rp_permits (sy_resources s)) <= generalCap (rp_permits (sy_resources s));
  iv_reserved : reserved (rp_permits (sy_resources s)) = sumf (holdsBank permitReserved) (sy_workers s) /\
    reserved (rp_permits (sy_resources s)) <= reservedCap (rp_permits (sy_resources s));
  iv_accounts : useSound (rp_maxAccount (sy_resources s)) (rp_accountUse (sy_resources s)) (fun a => sumf (holdsAccount a) (sy_workers s));
  iv_venues : useSound (rp_maxVenue (sy_resources s)) (rp_venueUse (sy_resources s)) (fun v => sumf (holdsVenue v) (sy_workers s));
  iv_flags : forall rt, sumf (holdsFlag rt) (sy_workers s) = if decide (rt ∈ sy_running s) then 1 else 0;
  iv_banks : Forall bankOk (sy_workers s)
}.

(** ** Facts *)

Section UseFacts.
Context {K : Type} `{Countable K}.

Definition member (ks : list K) (k : K) : Z := if bool_decide (k ∈ ks) then 1 else 0.

Lemma member_cons k0 ks k : k0 ∉ ks -> member (k0 :: ks) k = (if bool_decide (k = k0) then 1 else 0) + member ks k.
Proof.
  intros Hn. unfold member. destruct (decide (k = k0)) as [->|Hne].
  - rewrite (bool_decide_true (k0 ∈ k0 :: ks)), (bool_decide_true (k0 = k0)), (bool_decide_false (k0 ∈ ks)); set_solver.
  - rewrite (bool_decide_false (k = k0)) by done. destruct (decide (k ∈ ks)).
    + rewrite !bool_decide_true; set_solver.
    + rewrite !bool_decide_false; set_solver.
Qed.

Lemma incUse_use (m : gmap K Z) k0 k : useOf (incUse m k0) k = useOf m k + if bool_decide (k = k0) then 1 else 0.
Proof. unfold useOf at 1, incUse. case_bool_decide; subst; [rewrite lookup_insert_eq; cbn; lia|rewrite lookup_insert_ne by done; unfold useOf; lia]. Qed.

Lemma decUse_use (m : gmap K Z) k0 k : 0 < useOf m k0 -> useOf (decUse m k0) k = useOf m k - if bool_decide (k = k0) then 1 else 0.
Proof.
  intros Hp. unfold decUse. destruct (Z.ltb_spec 1 (useOf m k0)).
  - unfold useOf at 1. case_bool_decide; subst; [rewrite lookup_insert_eq; cbn; lia|rewrite lookup_insert_ne by done; unfold useOf; lia].
  - unfold useOf at 1. case_bool_decide; subst; [rewrite lookup_delete_eq; cbn; lia|rewrite lookup_delete_ne by done; unfold useOf; lia].
Qed.

Definition positive (m : gmap K Z) : Prop := forall k n, m !! k = Some n -> 0 < n.

Lemma positive_use m k : positive m -> 0 <= useOf m k.
Proof. intros Hp. unfold useOf. destruct (m !! k) as [n|] eqn:E; cbn; [pose proof (Hp _ _ E); lia|lia]. Qed.

Lemma incUses ks (m : gmap K Z) : NoDup ks -> positive m ->
  positive (fold_left incUse ks m) /\ forall k, useOf (fold_left incUse ks m) k = useOf m k + member ks k.
Proof.
  revert m. induction ks as [|k0 ks IH]; intros m Hn Hp; cbn [fold_left]; [split; [done|]; intros k; unfold member; rewrite bool_decide_false; [lia|apply not_elem_of_nil]|].
  apply NoDup_cons in Hn as [H0 Hn]. destruct (IH (incUse m k0) Hn) as [P U].
  { intros k n. unfold incUse. intros [[<- <-]|[_ Hk]]%lookup_insert_Some; [pose proof (positive_use m k0 Hp); lia|by eapply Hp]. }
  split; [done|]. intros k. rewrite U, incUse_use, member_cons by done. lia.
Qed.

Lemma decUses ks (m : gmap K Z) : NoDup ks -> positive m -> (forall k, k ∈ ks -> 0 < useOf m k) ->
  positive (fold_left decUse ks m) /\ forall k, useOf (fold_left decUse ks m) k = useOf m k - member ks k.
Proof.
  revert m. induction ks as [|k0 ks IH]; intros m Hn Hp Hu; cbn [fold_left]; [split; [done|]; intros k; unfold member; rewrite bool_decide_false; [lia|apply not_elem_of_nil]|].
  apply NoDup_cons in Hn as [H0 Hn]. assert (0 < useOf m k0) as Hu0 by (apply Hu; by left).
  destruct (IH (decUse m k0) Hn) as [P U].
  { intros k n. unfold decUse. destruct (Z.ltb_spec 1 (useOf m k0)).
    - intros [[<- <-]|[_ Hk]]%lookup_insert_Some; [lia|by eapply Hp].
    - intros [_ Hk]%lookup_delete_Some. by eapply Hp. }
  { intros k Hk. rewrite decUse_use by done. rewrite bool_decide_false by (by intros ->). rewrite Z.sub_0_r. apply Hu. by right. }
  split; [done|]. intros k. rewrite U, decUse_use, member_cons by done. lia.
Qed.

Lemma hasRoom_lt limit (m : gmap K Z) ks k : hasRoom limit m ks = true -> k ∈ ks -> useOf m k < limit.
Proof.
  unfold hasRoom. rewrite forallb_forall. intros Hr Hk. apply list_elem_of_In in Hk. specialize (Hr k Hk).
  destruct (Z.leb_spec limit (useOf m k)); [done|lia].
Qed.

Lemma use_inc limit (m : gmap K Z) held held' ks :
  NoDup ks -> hasRoom limit m ks = true -> useSound limit m held -> (forall k, held' k = held k + member ks k) ->
  useSound limit (fold_left incUse ks m) held'.
Proof.
  intros Hn Hr [U P] E. destruct (incUses ks m Hn P) as [P' U']. split; [|done]. intros k. destruct (U k) as [E1 Hle].
  rewrite U', E. split; [lia|]. unfold member. case_bool_decide as Hin; [|lia]. pose proof (hasRoom_lt _ _ _ _ Hr Hin). lia.
Qed.

Lemma use_dec limit (m : gmap K Z) held held' ks :
  NoDup ks -> (forall k, k ∈ ks -> 0 < held k) -> useSound limit m held -> (forall k, held' k = held k - member ks k) ->
  useSound limit (fold_left decUse ks m) held'.
Proof.
  intros Hn Hh [U P] E. destruct (decUses ks m Hn P) as [P' U'].
  { intros k Hk. destruct (U k) as [-> _]. by apply Hh. }
  split; [|done]. intros k. destruct (U k) as [E1 Hle]. rewrite U', E. split; [lia|]. unfold member. case_bool_decide; lia.
Qed.

Lemma use_same limit (m : gmap K Z) held held' : useSound limit m held -> (forall k, held' k = held k) -> useSound limit m held'.
Proof. intros [U P] E. split; [|done]. intros k. rewrite E. apply U. Qed.
End UseFacts.

Lemma accounts_NoDup item : NoDup (arbitrageAccountIDs item).
Proof. unfold arbitrageAccountIDs. destruct (Z.eqb_spec (l_TradingAccountID (c_LegA item)) (l_TradingAccountID (c_LegB item))); repeat constructor; set_solver. Qed.
Lemma venues_NoDup item : NoDup (arbitrageVenues item).
Proof. unfold arbitrageVenues. destruct (String.eqb_spec (l_Exchange (c_LegA item)) (l_Exchange (c_LegB item))); repeat constructor; set_solver. Qed.

Lemma sumf_app {A} (f : A -> Z) (l1 l2 : list A) : sumf f (l1 ++ l2) = sumf f l1 + sumf f l2.
Proof. unfold sumf. rewrite foldr_app. induction l1 as [|x l1 IH]; cbn; [lia|]. rewrite IH. lia. Qed.

Lemma holdsSlot_nonneg w : 0 <= holdsSlot w. Proof. unfold holdsSlot. by destruct (_ && _). Qed.
Lemma holdsBank_nonneg b w : 0 <= holdsBank b w. Proof. unfold holdsBank. by destruct (decide _). Qed.
Lemma holdsAccount_nonneg a w : 0 <= holdsAccount a w. Proof. unfold holdsAccount. by destruct (_ && _). Qed.
Lemma holdsVenue_nonneg a w : 0 <= holdsVenue a w. Proof. unfold holdsVenue. by destruct (_ && _). Qed.
Lemma holdsFlag_nonneg a w : 0 <= holdsFlag a w. Proof. unfold holdsFlag. by destruct (_ && _). Qed.

Lemma acquirePermit_spec class r b r' :
  acquirePermit class r = Some (b, r') ->
  exists p, r' = r <| rp_permits := p |> /\ generalCap p = generalCap (rp_permits r) /\ reservedCap p = reservedCap (rp_permits r) /\
    (b = permitGeneral /\ general p = general (rp_permits r) + 1 /\ reserved p = reserved (rp_permits r) /\ general (rp_permits r) < generalCap (rp_permits r) \/
     b = permitReserved /\ reserved p = reserved (rp_permits r) + 1 /\ general p = general (rp_permits r) /\ reserved (rp_permits r) < reservedCap (rp_permits r)).
Proof.
  unfold acquirePermit, tryAcquirePool, canSend. intros Hp. destruct class;
    destruct (Z.ltb_spec (general (rp_permits r)) (generalCap (rp_permits r))); destruct (Z.ltb_spec (reserved (rp_permits r)) (reservedCap (rp_permits r)));
    cbn in Hp; try done; injection Hp as <- <-; eexists; (split; [reflexivity|]); cbn; (split; [done|]); (split; [done|]); auto.
Qed.

Lemma closePermit_spec b r r' :
  closePermit b r = Some r' ->
  exists p, r' = r <| rp_permits := p |> /\ generalCap p = generalCap (rp_permits r) /\ reservedCap p = reservedCap (rp_permits r) /\
    general p = general (rp_permits r) - (if decide (b = permitGeneral) then 1 else 0) /\
    reserved p = reserved (rp_permits r) - (if decide (b = permitReserved) then 1 else 0).
Proof.
  unfold closePermit, release. destruct b; cbn; [intros [= <-]; exists (rp_permits r); split; [by destruct r|]; split_and!; repeat case_decide; try done; lia|..];
    (destruct (_ <=? 0); [done|]); intros [= <-]; eexists; (split; [reflexivity|]); cbn; split_and!; repeat case_decide; try done; lia.
Qed.

(** What the step of one worker, replaced by [w'], must change: the counts by
    what the worker gains and loses. *)
Definition workerSum (f : Worker -> Z) (w' : option Worker) : Z := from_option f 0 w'.
Definition setWorker (i : nat) (w' : option Worker) (ws : list Worker) : list Worker :=
  match w' with Some w' => <[i := w']> ws | None => delete i ws end.

Lemma sumf_setWorker f i w w' ws : ws !! i = Some w -> sumf f (setWorker i w' ws) = sumf f ws - f w + workerSum f w'.
Proof. intros Hi. unfold setWorker, workerSum. destruct w'; cbn [from_option]; [by apply sumf_insert|]. rewrite (sumf_delete _ _ _ w) by done. lia. Qed.

Lemma Forall_setWorker P i w' ws : Forall P ws -> from_option P True w' -> Forall P (setWorker i w' ws).
Proof. intros Hf Hw. destruct w'; cbn in *; [by apply Forall_insert|by apply Forall_delete]. Qed.

Lemma sched_move n ma mv r run ws i w w' r' run' :
  SchedInv n ma mv (mkSchedSys r run ws) -> ws !! i = Some w ->
  (rp_slotCap r' = rp_slotCap r /\ rp_maxAccount r' = rp_maxAccount r /\ rp_maxVenue r' = rp_maxVenue r /\
   generalCap (rp_permits r') = generalCap (rp_permits r) /\ reservedCap (rp_permits r') = reservedCap (rp_permits r)) ->
  (rp_slots r' = rp_slots r - holdsSlot w + workerSum holdsSlot w' /\ (rp_slots r' <= rp_slots r \/ rp_slots r' <= rp_slotCap r)) ->
  (general (rp_permits r') = general (rp_permits r) - holdsBank permitGeneral w + workerSum (holdsBank permitGeneral) w' /\
   (general (rp_permits r') <= general (rp_permits r) \/ general (rp_permits r') <= generalCap (rp_permits r))) ->
  (reserved (rp_permits r') = reserved (rp_permits r) - holdsBank permitReserved w + workerSum (holdsBank permitReserved) w' /\
   (reserved (rp_permits r') <= reserved (rp_permits r) \/ reserved (rp_permits r') <= reservedCap (rp_permits r))) ->
  useSound (rp_maxAccount r) (rp_accountUse r') (fun a => sumf (holdsAccount a) ws - holdsAccount a w + workerSum (holdsAccount a) w') ->
  useSound (rp_maxVenue r) (rp_venueUse r') (fun a => sumf (holdsVenue a) ws - holdsVenue a w + workerSum (holdsVenue a) w') ->
  (forall rt, (if decide (rt ∈ run) then 1 else 0) - holdsFlag rt w + workerSum (holdsFlag rt) w' = if decide (rt ∈ run') then 1 else 0) ->
  from_option bankOk True w' ->
  SchedInv n ma mv (mkSchedSys r' run' (setWorker i w' ws)).
Proof.
  intros [L [S1 S2] [G1 G2] [R1 R2] A V F B] Hi (L1 & L2 & L3 & L4 & L5) Hs Hg Hr Ha Hv Hf Hb. cbn [sy_resources sy_workers sy_running] in *.
  constructor; cbn [sy_resources sy_workers sy_running].
  - rewrite L1, L2, L3, L4, L5. exact L.
  - rewrite (sumf_setWorker _ i w) by done. rewrite L1. lia.
  - rewrite (sumf_setWorker _ i w) by done. rewrite L4. lia.
  - rewrite (sumf_setWorker _ i w) by done. rewrite L5. lia.
  - rewrite L2. eapply use_same; [exact Ha|]. intros k. by rewrite (sumf_setWorker _ i w) by done.
  - rewrite L3. eapply use_same; [exact Hv|]. intros k. by rewrite (sumf_setWorker _ i w) by done.
  - intros rt. rewrite (sumf_setWorker _ i w), F by done. apply Hf.
  - by apply Forall_setWorker.
Qed.

Lemma hasCapacity_same w w' : wk_item w' = wk_item w -> hasCapacity (wk_stage w') = hasCapacity (wk_stage w) ->
  (forall a, holdsAccount a w' = holdsAccount a w) /\ (forall a, holdsVenue a w' = holdsVenue a w).
Proof. unfold holdsAccount, holdsVenue. by intros -> ->. Qed.

Lemma limits_nonneg n : 0 <= (workPermitLimits n).1 /\ 0 <= (workPermitLimits n).2.
Proof. unfold workPermitLimits; cbv zeta. repeat case_if; simpl; bool_to_prop; lia. Qed.

Lemma sched_init n ma mv : SchedInv n ma mv (newSchedSys n ma mv).
Proof.
  constructor; cbn; try done.
  - split; [done|]. destruct (Z.leb_spec n 0); lia.
  - destruct (limits_nonneg (if n <=? 0 then 16 else n)) as [Hn _]. unfold newWorkPermitPool. by destruct (workPermitLimits _).
  - destruct (limits_nonneg (if n <=? 0 then 16 else n)) as [_ Hn]. unfold newWorkPermitPool. by destruct (workPermitLimits _).
  - split; [|done]. intros k. unfold useOf. rewrite lookup_empty. unfold sumf. cbn. destruct (Z.leb_spec ma 0); lia.
  - split; [|done]. intros k. unfold useOf. rewrite lookup_empty. unfold sumf. cbn. destruct (Z.leb_spec mv 0); lia.
Qed.

(** The counts of a worker that keeps its capacity. *)
Lemma use_kept (limit : Z) {K} `{Countable K} (m : gmap K Z) (f : K -> Worker -> Z) ws w w' :
  useSound limit m (fun k => sumf (f k) ws) -> (forall k, workerSum (f k) w' = f k w) ->
  useSound limit m (fun k => sumf (f k) ws - f k w + workerSum (f k) w').
Proof. intros Hu E. eapply use_same; [exact Hu|]. intros k. rewrite E. cbn. lia. Qed.

Lemma holdsAccount_stage a w st : wk_stage w = st ->
  holdsAccount a w = if hasCapacity st then member (arbitrageAccountIDs (wk_item w)) a else 0.
Proof. unfold holdsAccount, member. intros ->. by destruct (hasCapacity st). Qed.
Lemma holdsVenue_stage a w st : wk_stage w = st ->
  holdsVenue a w = if hasCapacity st then member (arbitrageVenues (wk_item w)) a else 0.
Proof. unfold holdsVenue, member. intros ->. by destruct (hasCapacity st). Qed.

(** A step of a worker whose capacity and limits stay. *)
Lemma step_keeps_capacity n ma mv r run ws i w w' r' run' :
  SchedInv n ma mv (mkSchedSys r run ws) -> ws !! i = Some w ->
  rp_slotCap r' = rp_slotCap r -> rp_maxAccount r' = rp_maxAccount r -> rp_maxVenue r' = rp_maxVenue r ->
  rp_accountUse r' = rp_accountUse r -> rp_venueUse r' = rp_venueUse r ->
  generalCap (rp_permits r') = generalCap (rp_permits r) -> reservedCap (rp_permits r') = reservedCap (rp_permits r) ->
  from_option (fun w' => wk_item w' = wk_item w /\ hasCapacity (wk_stage w') = hasCapacity (wk_stage w))
    (hasCapacity (wk_stage w) = false) w' ->
  (rp_slots r' = rp_slots r - holdsSlot w + workerSum holdsSlot w' /\ (rp_slots r' <= rp_slots r \/ rp_slots r' <= rp_slotCap r)) ->
  (general (rp_permits r') = general (rp_permits r) - holdsBank permitGeneral w + workerSum (holdsBank permitGeneral) w' /\
   (general (rp_permits r') <= general (rp_permits r) \/ general (rp_permits r') <= generalCap (rp_permits r))) ->
  (reserved (rp_permits r') = reserved (rp_permits r) - holdsBank permitReserved w + workerSum (holdsBank permitReserved) w' /\
   (reserved (rp_permits r') <= reserved (rp_permits r) \/ reserved (rp_permits r') <= reservedCap (rp_permits r))) ->
  (forall rt, (if decide (rt ∈ run) then 1 else 0) - holdsFlag rt w + workerSum (holdsFlag rt) w' = if decide (rt ∈ run') then 1 else 0) ->
  from_option bankOk True w' ->
  SchedInv n ma mv (mkSchedSys r' run' (setWorker i w' ws)).
Proof.
  intros HI Hi L1 L2 L3 U1 U2 L4 L5 Hw Hs Hg Hr Hf Hb.
  assert ((forall k, workerSum (holdsAccount k) w' = holdsAccount k w) /\ (forall k, workerSum (holdsVenue k) w' = holdsVenue k w)) as [Ea Ev].
  { destruct w' as [w'|]; cbn in *; [destruct Hw; by apply hasCapacity_same|]. unfold holdsAccount, holdsVenue. by rewrite Hw. }
  eapply sched_move; try done; rewrite ?U1, ?U2; apply use_kept; try done; apply HI.
Qed.

(** The counts a stage holds, computed. *)
Ltac stage_counts Hst :=
  unfold workerSum, holdsSlot, holdsBank, holdsFlag, bankOk, hasCapacity; cbn; rewrite ?Hst; cbn.

Lemma bank_at n ma mv r run ws i w : SchedInv n ma mv (mkSchedSys r run ws) -> ws !! i = Some w -> bankOk w.
Proof. intros [_ _ _ _ _ _ _ B] Hi. eapply Forall_lookup_1; [exact B|exact Hi]. Qed.

Lemma flag_at n ma mv r run ws i w : SchedInv n ma mv (mkSchedSys r run ws) -> ws !! i = Some w -> wk_stage w = StRunning -> wk_runtime w ∈ run.
Proof.
  intros [_ _ _ _ _ _ F _] Hi Hst. specialize (F (wk_runtime w)). cbn in F.
  pose proof (sumf_member (holdsFlag (wk_runtime w)) ws i w (holdsFlag_nonneg _) Hi) as Hm.
  assert (holdsFlag (wk_runtime w) w = 1) as E by (unfold holdsFlag; rewrite Hst; cbn; by rewrite Nat.eqb_refl).
  case_decide; [done|lia].
Qed.

(** Closes what a step leaves to check, with the stage computed. *)
Ltac settle_with t :=
  stage_counts t; first [done|lia|split; [done|done]|intros; case_decide; lia|idtac].

Lemma step_call n ma mv r run ws w : wk_stage w = StSlot -> wk_bank w = permitNone ->
  SchedInv n ma mv (mkSchedSys r run ws) -> SchedInv n ma mv (mkSchedSys r run (ws ++ [w])).
Proof.
  intros Hst Hb [L S G R A V F B].
  assert (forall f : Worker -> Z, f w = 0 -> sumf f (ws ++ [w]) = sumf f ws) as E.
  { intros f Hf. rewrite sumf_app. unfold sumf at 2. cbn. lia. }
  constructor; cbn in *; rewrite ?E; try done.
  - unfold holdsSlot. rewrite Hst. cbn. by rewrite andb_false_r.
  - unfold holdsBank. by rewrite Hb.
  - unfold holdsBank. by rewrite Hb.
  - eapply use_same; [exact A|]. intros k. cbn. apply E. by rewrite (holdsAccount_stage _ _ _ Hst).
  - eapply use_same; [exact V|]. intros k. cbn. apply E. by rewrite (holdsVenue_stage _ _ _ Hst).
  - intros rt. rewrite E; [apply F|]. unfold holdsFlag. by rewrite Hst.
  - apply Forall_app; split; [done|]. repeat constructor. unfold bankOk. by rewrite Hst.
Qed.

Lemma step_capacity n ma mv r run ws i w r' :
  SchedInv n ma mv (mkSchedSys r run ws) -> ws !! i = Some w -> wk_stage w = StCapacity ->
  acquireExecutionCapacity (wk_item w) r = Some r' ->
  SchedInv n ma mv (mkSchedSys r' run (<[i := w <| wk_stage := StFlag |>]> ws)).
Proof.
  intros HI Hi Hst Ha. unfold acquireExecutionCapacity in Ha.
  destruct (hasRoom _ (rp_accountUse r) _) eqn:Ra; [|done]. destruct (hasRoom _ (rp_venueUse r) _) eqn:Rv; [|done]. injection Ha as <-.
  apply (sched_move n ma mv r run ws i w (Some (w <| wk_stage := StFlag |>)) _ run HI Hi); try (settle_with Hst; fail).
  - cbn. eapply use_inc; [apply accounts_NoDup|exact Ra|apply HI|]. intros k. cbn [workerSum from_option].
    rewrite (holdsAccount_stage _ _ _ Hst), (holdsAccount_stage k (w <| wk_stage := StFlag |>) StFlag) by done. cbn. lia.
  - cbn. eapply use_inc; [apply venues_NoDup|exact Rv|apply HI|]. intros k. cbn [workerSum from_option].
    rewrite (holdsVenue_stage _ _ _ Hst), (holdsVenue_stage k (w <| wk_stage := StFlag |>) StFlag) by done. cbn. lia.
Qed.

Lemma step_give_capacity n ma mv r run ws i w :
  SchedInv n ma mv (mkSchedSys r run ws) -> ws !! i = Some w -> wk_stage w = StGiveCapacity ->
  SchedInv n ma mv (mkSchedSys (releaseExecutionCapacity (wk_item w) r) run (<[i := w <| wk_stage := StGivePermit |>]> ws)).
Proof.
  intros HI Hi Hst.
  apply (sched_move n ma mv r run ws i w (Some (w <| wk_stage := StGivePermit |>)) _ run HI Hi); try (settle_with Hst; fail).
  - cbn. eapply use_dec; [apply accounts_NoDup| |apply HI|].
    + intros k Hk. cbn. pose proof (sumf_member (holdsAccount k) ws i w (holdsAccount_nonneg k) Hi) as Hm.
      rewrite (holdsAccount_stage _ _ _ Hst) in Hm. cbn in Hm. unfold member in Hm. rewrite bool_decide_true in Hm by done. lia.
    + intros k. rewrite (holdsAccount_stage _ _ _ Hst). cbn. lia.
  - cbn. eapply use_dec; [apply venues_NoDup| |apply HI|].
    + intros k Hk. cbn. pose proof (sumf_member (holdsVenue k) ws i w (holdsVenue_nonneg k) Hi) as Hm.
      rewrite (holdsVenue_stage _ _ _ Hst) in Hm. cbn in Hm. unfold member in Hm. rewrite bool_decide_true in Hm by done. lia.
    + intros k. rewrite (holdsVenue_stage _ _ _ Hst). cbn. lia.
Qed.

Lemma step_permit n ma mv r run ws i w w' class b r' :
  SchedInv n ma mv (mkSchedSys r run ws) -> ws !! i = Some w -> wk_bank w = permitNone -> acquirePermit class r = Some (b, r') ->
  wk_bank w' = b -> wk_item w' = wk_item w -> hasCapacity (wk_stage w') = hasCapacity (wk_stage w) -> holdsSlot w' = holdsSlot w ->
  (forall rt, holdsFlag rt w' = holdsFlag rt w) -> bankOk w' ->
  SchedInv n ma mv (mkSchedSys r' run (<[i := w']> ws)).
Proof.
  intros HI Hi Hb Ha Hw1 Hw2 Hw3 Hw4 Hw5 Hw6. destruct (acquirePermit_spec _ _ _ _ Ha) as (p & -> & C1 & C2 & Hp).
  apply (step_keeps_capacity n ma mv r run ws i w (Some w') _ run HI Hi); try done; cbn.
  - rewrite Hw4. lia.
  - unfold holdsBank. rewrite Hw1, Hb. destruct Hp as [(-> & ? & ? & ?)|(-> & ? & ? & ?)]; repeat case_decide; try done; lia.
  - unfold holdsBank. rewrite Hw1, Hb. destruct Hp as [(-> & ? & ? & ?)|(-> & ? & ? & ?)]; repeat case_decide; try done; lia.
  - intros rt. rewrite Hw5. lia.
Qed.

Lemma step_close n ma mv r run ws i w w' r' :
  SchedInv n ma mv (mkSchedSys r run ws) -> ws !! i = Some w -> closePermit (wk_bank w) r = Some r' ->
  wk_bank w' = permitNone -> wk_item w' = wk_item w -> hasCapacity (wk_stage w') = hasCapacity (wk_stage w) -> holdsSlot w' = holdsSlot w ->
  (forall rt, holdsFlag rt w' = holdsFlag rt w) -> bankOk w' ->
  SchedInv n ma mv (mkSchedSys r' run (<[i := w']> ws)).
Proof.
  intros HI Hi Ha Hw1 Hw2 Hw3 Hw4 Hw5 Hw6. destruct (closePermit_spec _ _ _ Ha) as (p & -> & C1 & C2 & G & R).
  apply (step_keeps_capacity n ma mv r run ws i w (Some w') _ run HI Hi); try done; cbn.
  - rewrite Hw4. lia.
  - unfold holdsBank. rewrite Hw1. repeat case_decide; try done; lia.
  - unfold holdsBank. rewrite Hw1. repeat case_decide; try done; lia.
  - intros rt. rewrite Hw5. lia.
Qed.

Lemma step_slot n ma mv r run ws i w r' :
  SchedInv n ma mv (mkSchedSys r run ws) -> ws !! i = Some w -> wk_stage w = StSlot -> 
  (if wk_takeSlot w then tryAcquireSlot r else Some r) = Some r' ->
  SchedInv n ma mv (mkSchedSys r' run (<[i := w <| wk_stage := StPermit |>]> ws)).
Proof.
  intros HI Hi Hst Ha. pose proof (bank_at _ _ _ _ _ _ _ _ HI Hi) as Hbk. unfold bankOk in Hbk. rewrite Hst in Hbk.
  assert (rp_slots r' = rp_slots r + (if wk_takeSlot w then 1 else 0) /\ (rp_slots r' <= rp_slots r \/ rp_slots r' <= rp_slotCap r) /\ r' = r <| rp_slots := rp_slots r' |>) as (Hs & Hc & Hr).
  { unfold tryAcquireSlot in Ha. destruct (wk_takeSlot w); [destruct (Z.ltb_spec (rp_slots r) (rp_slotCap r)); [|done]|];
      injection Ha as <-; cbn; (split; [lia|]); (split; [lia|by destruct r]). }
  rewrite Hr. apply (step_keeps_capacity n ma mv r run ws i w (Some (w <| wk_stage := StPermit |>)) _ run HI Hi); try (settle_with Hst; fail).
  - settle_with Hst. rewrite andb_false_r, andb_true_r. split; [lia|done].
Qed.

Lemma step_give_slot n ma mv r run ws i w r' :
  SchedInv n ma mv (mkSchedSys r run ws) -> ws !! i = Some w -> wk_stage w = StGiveSlot -> 
  (if wk_takeSlot w then releaseSlot r else Some r) = Some r' ->
  SchedInv n ma mv (mkSchedSys r' run (delete i ws)).
Proof.
  intros HI Hi Hst Ha. pose proof (bank_at _ _ _ _ _ _ _ _ HI Hi) as Hbk. unfold bankOk in Hbk. rewrite Hst in Hbk.
  assert (rp_slots r' = rp_slots r - (if wk_takeSlot w then 1 else 0) /\ r' = r <| rp_slots := rp_slots r' |>) as (Hs & Hr).
  { unfold releaseSlot in Ha. destruct (wk_takeSlot w); [destruct (Z.leb_spec (rp_slots r) 0); [done|]|];
      injection Ha as <-; cbn; (split; [lia|by destruct r]). }
  rewrite Hr. apply (step_keeps_capacity n ma mv r run ws i w None _ run HI Hi); try (settle_with Hst; fail).
  - settle_with Hst. rewrite andb_true_r. destruct (wk_takeSlot w); cbn; lia.
  - settle_with Hst. rewrite Hbk. repeat case_decide; try done; lia.
  - settle_with Hst. rewrite Hbk. repeat case_decide; try done; lia.
Qed.

Lemma sched_step_inv n ma mv s s' : SchedInv n ma mv s -> schedStep s s' -> SchedInv n ma mv s'.
Proof.
  intros HI Hstep. inversion Hstep as
    [r run ws rt item class takeSlot|r run ws i w r' Hi Hst Ha|r run ws i w Hi Hst Ht Ha|r run ws i w b r' Hi Hst Ha|r run ws i w Hi Hst Ha
    |r run ws i w r' Hi Hst Ha|r run ws i w Hi Hst Ha|r run ws i w Hi Hst Ha|r run ws i w Hi Hst Ha
    |r run ws i w r' Hi Hst Ha|r run ws i w class b r' Hi Hst Hb Ha|r run ws i w Hi Hst
    |r run ws i w Hi Hst|r run ws i w r' Hi Hst Ha|r run ws i w r' Hi Hst Ha]; subst; try pose proof (bank_at _ _ _ _ _ _ _ _ HI Hi) as Hbk.
  all: try (unfold bankOk in Hbk; rewrite Hst in Hbk).
  - by apply step_call.
  - by eapply step_slot.
  - apply (step_keeps_capacity n ma mv r run ws i w None r run HI Hi); try (settle_with Hst; fail);
      settle_with Hst; rewrite ?andb_false_r, ?Hbk; repeat case_decide; try done; lia.
  - apply (step_permit n ma mv r run ws i w _ (wk_class w) b r' HI Hi); try done; intros; unfold holdsSlot, holdsFlag, bankOk; cbn; by rewrite ?Hst.
  - apply (step_keeps_capacity n ma mv r run ws i w (Some (w <| wk_stage := StGiveSlot |>)) r run HI Hi); settle_with Hst.
  - by eapply step_capacity.
  - apply (step_keeps_capacity n ma mv r run ws i w (Some (w <| wk_stage := StGivePermit |>)) r run HI Hi); settle_with Hst.
  - apply (step_keeps_capacity n ma mv r run ws i w (Some (w <| wk_stage := StRunning |>)) r _ HI Hi); settle_with Hst.
    intros rt. destruct (Nat.eqb_spec (wk_runtime w) rt) as [<-|Hne]; repeat case_decide; set_solver by lia.
  - apply (step_keeps_capacity n ma mv r run ws i w (Some (w <| wk_stage := StGiveCapacity |>)) r run HI Hi); settle_with Hst.
  - apply (step_close n ma mv r run ws i w _ r' HI Hi Ha); try done; unfold bankOk; cbn; by rewrite ?Hst.
  - apply (step_permit n ma mv r run ws i w _ class b r' HI Hi Hb Ha); try done; unfold bankOk; cbn; by rewrite ?Hst.
  - pose proof (flag_at _ _ _ _ _ _ _ _ HI Hi Hst) as Hin.
    apply (step_keeps_capacity n ma mv r run ws i w (Some (w <| wk_stage := StGiveCapacity |>)) r _ HI Hi); settle_with Hst.
    intros rt. destruct (Nat.eqb_spec (wk_runtime w) rt) as [<-|Hne]; repeat case_decide; set_solver by lia.
  - by apply step_give_capacity.
  - apply (step_close n ma mv r run ws i w _ r' HI Hi Ha); try done; intros; unfold holdsSlot, holdsFlag; cbn; by rewrite ?Hst.
  - by eapply step_give_slot.
Qed.

Lemma sched_reachable_inv n ma mv s : schedReachable n ma mv s -> SchedInv n ma mv s.
Proof.
  unfold schedReachable. intros Hr. remember (newSchedSys n ma mv) as s0 eqn:E. assert (SchedInv n ma mv s0) as H0 by (subst; apply sched_init).
  clear E. induction Hr as [|s1 s2 s3 Hs _ IH]; [done|]. apply IH. by eapply sched_step_inv.
Qed.

Lemma held_close n ma mv r run ws i w : SchedInv n ma mv (mkSchedSys r run ws) -> ws !! i = Some w -> is_Some (closePermit (wk_bank w) r).
Proof.
  intros [_ _ [G _] [R _] _ _ _ _] Hi. cbn in *. unfold closePermit, release.
  pose proof (sumf_member _ ws i w (holdsBank_nonneg permitGeneral) Hi) as Hg. pose proof (sumf_member _ ws i w (holdsBank_nonneg permitReserved) Hi) as Hr.
  assert (forall b, wk_bank w = b -> holdsBank b w = 1) as E by (intros b Hb; unfold holdsBank; by rewrite decide_True).
  destruct (wk_bank w) eqn:Eb; cbn; [done| |].
  - rewrite E in Hg by done. destruct (Z.leb_spec (general (rp_permits r)) 0); [lia|done].
  - rewrite E in Hr by done. destruct (Z.leb_spec (reserved (rp_permits r)) 0); [lia|done].
Qed.

Lemma held_slot n ma mv r run ws i w : SchedInv n ma mv (mkSchedSys r run ws) -> ws !! i = Some w -> hasSlot (wk_stage w) = true ->
  is_Some (if wk_takeSlot w then releaseSlot r else Some r).
Proof.
  intros [_ [S _] _ _ _ _ _ _] Hi Hst. cbn in *. pose proof (sumf_member _ ws i w holdsSlot_nonneg Hi) as Hs.
  assert (holdsSlot w = if wk_takeSlot w then 1 else 0) as E by (unfold holdsSlot; rewrite Hst; by rewrite andb_true_r).
  destruct (wk_takeSlot w); [|done]. unfold releaseSlot. destruct (Z.leb_spec (rp_slots r) 0); [lia|done].
Qed.

Lemma one_flag n ma mv r run ws i j w1 w2 : SchedInv n ma mv (mkSchedSys r run ws) -> ws !! i = Some w1 -> ws !! j = Some w2 -> i <> j ->
  wk_stage w1 = StRunning -> wk_stage w2 = StRunning -> wk_runtime w1 <> wk_runtime w2.
Proof.
  intros [_ _ _ _ _ _ F _] Hi Hj Hne H1 H2 Heq. specialize (F (wk_runtime w1)). cbn in F.
  pose proof (sumf_delete (holdsFlag (wk_runtime w1)) ws i w1 Hi) as Hd.
  assert (exists k, delete i ws !! k = Some w2) as [k Hk].
  { destruct (decide (j < i)%nat); [exists j; by rewrite list_lookup_delete_lt|]. exists (j - 1)%nat. rewrite list_lookup_delete_ge by lia.
    by replace (S (j - 1)) with j by lia. }
  pose proof (sumf_member (holdsFlag (wk_runtime w1)) _ k w2 (holdsFlag_nonneg _) Hk) as Hm.
  assert (holdsFlag (wk_runtime w1) w1 = 1 /\ holdsFlag (wk_runtime w1) w2 = 1) as [E1 E2].
  { unfold holdsFlag. rewrite H1, H2, Heq. cbn. by rewrite Nat.eqb_refl. }
  case_decide; lia.
Qed.

Lemma use_empty {K} `{Countable K} (limit : Z) (m : gmap K Z) (f : K -> Worker -> Z) : useSound limit m (fun k => sumf (f k) []) -> m = ∅.
Proof.
  intros [U P]. apply map_eq. intros k. rewrite lookup_empty. destruct (m !! k) as [v|] eqn:E; [|done].
  pose proof (P _ _ E). destruct (U k) as [Ek _]. unfold useOf in Ek. rewrite E in Ek. cbn in Ek. unfold sumf in Ek. cbn in Ek. lia.
Qed.


(** ** A call without interference *)

(** Two maps of counts that say the same of every key. *)
Lemma use_eq {K} `{Countable K} (m1 m2 : gmap K Z) : positive m1 -> positive m2 -> (forall k, useOf m1 k = useOf m2 k) -> m1 = m2.
Proof.
  intros P1 P2 E. apply map_eq. intros k. specialize (E k). unfold useOf in E.
  destruct (m1 !! k) as [x|] eqn:E1, (m2 !! k) as [y|] eqn:E2; cbn in E; try done; [by subst|pose proof (P1 _ _ E1); lia|pose proof (P2 _ _ E2); lia].
Qed.

Lemma inc_dec {K} `{Countable K} ks (m : gmap K Z) : NoDup ks -> positive m -> fold_left decUse ks (fold_left incUse ks m) = m.
Proof.
  intros Hn P. destruct (incUses ks m Hn P) as [P1 U1]. destruct (decUses ks _ Hn P1) as [P2 U2].
  { intros k Hk. rewrite U1. unfold member. rewrite bool_decide_true by done. pose proof (positive_use m k P). lia. }
  apply use_eq; [done|done|]. intros k. rewrite U2, U1. lia.
Qed.

Definition resourcesPositive (r : Resources) : Prop :=
  0 <= rp_slots r /\ 0 <= general (rp_permits r) /\ 0 <= reserved (rp_permits r) /\ positive (rp_accountUse r) /\ positive (rp_venueUse r).

Lemma capacity_roundtrip item r r' : resourcesPositive r -> acquireExecutionCapacity item r = Some r' -> releaseExecutionCapacity item r' = r.
Proof.
  intros (_ & _ & _ & Pa & Pv). unfold acquireExecutionCapacity. destruct (negb _); [done|]. destruct (negb _); [done|]. intros [= <-].
  unfold releaseExecutionCapacity. cbn. rewrite !inc_dec by (done || apply accounts_NoDup || apply venues_NoDup). by destruct r.
Qed.

Lemma permit_roundtrip class r b r' : resourcesPositive r -> acquirePermit class r = Some (b, r') -> closePermit b r' = Some r.
Proof.
  intros (_ & Pg & Pr & _ & _). unfold acquirePermit, closePermit, tryAcquirePool, release, canSend. destruct r as [sc sl p ma mv au vu], p as [gc rc g re iu]. cbn in *.
  intros Hp. destruct class; destruct (Z.ltb_spec g gc); destruct (Z.ltb_spec re rc); cbn in Hp; try done; injection Hp as <- <-; cbn;
    match goal with |- context [?x <=? 0] => destruct (Z.leb_spec x 0) end; try lia; cbn;
    unfold addInUse; cbn; rewrite <- !Z.add_assoc, !Z.add_0_r; reflexivity.
Qed.

Lemma slot_roundtrip r r' : resourcesPositive r -> tryAcquireSlot r = Some r' -> releaseSlot r' = Some r.
Proof.
  intros (Ps & _). unfold tryAcquireSlot, releaseSlot. destruct (Z.ltb_spec (rp_slots r) (rp_slotCap r)); [|done]. intros [= <-]. cbn.
  destruct (Z.leb_spec (rp_slots r + 1) 0); [lia|]. replace (rp_slots r + 1 - 1) with (rp_slots r) by lia. by destruct r.
Qed.

Lemma slot_positive (takeSlot : bool) r r' : resourcesPositive r -> (if takeSlot then tryAcquireSlot r else Some r) = Some r' -> resourcesPositive r'.
Proof.
  intros Hp Ha. destruct takeSlot; [|by injection Ha as <-]. unfold tryAcquireSlot in Ha. destruct (_ <? _); [|done]. injection Ha as <-.
  destruct Hp as (? & ? & ? & ? & ?). unfold resourcesPositive. cbn. split_and!; try done. lia.
Qed.

Lemma permit_positive class r b r' : resourcesPositive r -> acquirePermit class r = Some (b, r') -> resourcesPositive r'.
Proof.
  intros (? & ? & ? & ? & ?) (p & -> & _ & _ & Hp)%acquirePermit_spec. unfold resourcesPositive. cbn.
  destruct Hp as [(_ & ? & ? & _)|(_ & ? & ? & _)]; split_and!; try done; lia.
Qed.

(** A call of the acquisition that no other goroutine interrupts either
    fails and leaves every count as it was, whatever resource was the missing
    one, or sets the running flag of a combination that had none, and the
    release of what it acquired then restores the resources exactly. *)
Theorem acquire_release_exact item running class takeSlot r res r' running' :
  resourcesPositive r -> tryAcquireExecutionResources item running class takeSlot r = (res, r', running') ->
  match res with
  | None => r' = r /\ running' = running
  | Some res => running = false /\ running' = true /\ releaseExecutionResources item res r' = r
  end.
Proof.
  intros Hp. unfold tryAcquireExecutionResources.
  destruct (if takeSlot then tryAcquireSlot r else Some r) as [r1|] eqn:E1; [|by intros [= <- <- <-]].
  pose proof (slot_positive _ _ _ Hp E1) as Hp1.
  assert ((if takeSlot then default r1 (releaseSlot r1) else r1) = r) as B1.
  { destruct takeSlot; [by rewrite (slot_roundtrip _ _ Hp E1)|by injection E1]. }
  destruct (acquirePermit class r1) as [[b r2]|] eqn:E2; [|by intros [= <- <- <-]].
  pose proof (permit_positive _ _ _ _ Hp1 E2) as Hp2. pose proof (permit_roundtrip _ _ _ _ Hp1 E2) as B2.
  destruct (acquireExecutionCapacity item r2) as [r3|] eqn:E3; [|intros [= <- <- <-]; by rewrite B2].
  pose proof (capacity_roundtrip _ _ _ Hp2 E3) as B3.
  destruct running; intros [= <- <- <-]; [by rewrite B3, B2|]. split; [done|]. split; [done|].
  unfold releaseExecutionResources. cbn. by rewrite B3, B2.
Qed.

(** ** Witnesses *)

Definition exampleLeg (account : Z) (venue : string) : ArbitrageLeg := (zero_ArbitrageLeg <| l_TradingAccountID := account |>) <| l_Exchange := venue |>.
Definition exampleCombination : ArbitrageCombination :=
  (zero_ArbitrageCombination <| c_LegA := exampleLeg 1 "okx"%string |>) <| c_LegB := exampleLeg 2 "binance"%string |>.


Lemma acquire_release_exact_witness :
  exists res r', tryAcquireExecutionResources exampleCombination false workPermitUrgent true (newResources 4 1 1) = (Some res, r', true) /\
    releaseExecutionResources exampleCombination res r' = newResources 4 1 1.
Proof.
  assert (resourcesPositive (newResources 4 1 1)) as Hp by (unfold resourcesPositive, positive; vm_compute; split_and!; done).
  pose proof (acquire_release_exact exampleCombination false workPermitUrgent true (newResources 4 1 1) _ _ _ Hp eq_refl) as H.
  eexists _, _. split; [reflexivity|]. exact (proj2 (proj2 H)).
Defined.
