(* ===== verification/Resolution.v ===== *)
(** * Resolving orders whose state is uncertain

    [resolveVenueOrder] (order_resolution.go) turns the answers of a venue into
    a verdict, [confirmedAbsentZeroFillReject] rejects an order the venue has
    confirmed absent often enough, and confirmed_absent_finalize.go cancels the
    execution such orders belong to.  The venue adapter is a parameter: its
    answers to [GetOrder] and, if it is a resolver, to [ResolveOrder]. *)
From Stdlib Require Import ZArith QArith Lqa String.
From stdpp Require Import base strings list.
From S2P Require Import Prelude Decimal DecimalRef Types Quantity Validate ArbMath ArbHedge.

Definition confirmedAbsentRejectAfter : Z := 3.
Definition errorConfirmedAbsentAfterUncertainSubmit : string := "CONFIRMED_ABSENT_AFTER_UNCERTAIN_SUBMIT".

(** ** Statuses *)

(** [normalizeStatus], exchange/types.go. *)
Definition normalizeStatus (value : string) : string :=
  let v := ToLower (TrimSpace value) in
  let lower := ToLower value in
  let oneOf l := existsb (String.eqb v) l in
  if oneOf ["new"; "live"; "open"; "submitted"; "untriggered"; "partiallyfilled"; "partial-fill";
         "partially_filled"]%string
  then if Contains lower "partial" then "partially_filled" else "open"
  else if oneOf ["filled"; "closed"; "completely_filled"]%string then "filled"
  else if oneOf ["canceled"; "cancelled"; "cancel"; "deactivated"]%string then "canceled"
  else if oneOf ["rejected"; "expire"; "expired"]%string
  then if Contains lower "expir" then "expired" else "rejected"
  else if oneOf ["pending"; "created"]%string then "pending"
  else if Contains lower "partial" then "partially_filled"
  else if Contains lower "fill" then "filled"
  else if Contains lower "cancel" then "canceled"
  else if Contains lower "reject" then "rejected"
  else if Contains lower "expir" then "expired"
  else if Contains lower "new" || Contains lower "live" || Contains lower "open" then "open"
  else "unknown".

(** [terminalOrderStatus], exchange/types.go. *)
Definition terminalOrderStatus (status : string) : bool := terminalStatus (normalizeStatus status).

(** [terminalVenueStatus], order_terminal.go. *)
Definition terminalVenueStatus (status : string) : bool := terminalStatus (ToLower (TrimSpace status)).

Definition isAuthoritativeTerminalResult (result : VenueResult) (stream : bool) (mergedStatus : string) : bool :=
  if negb (terminalVenueStatus mergedStatus) then false
  else if stream then true
  else terminalVenueStatus (r_Status result).

Definition resolvedVenueOrder (result : VenueResult) : bool :=
  let status := ToLower (TrimSpace (r_Status result)) in
  negb (status =?s "") && negb (status =?s "unknown").

(** ** Querying a venue *)

(** An adapter's answers: a result with or without an error. *)
Class VenueAdapter (Request : Type) := {
  GetOrder : Request -> VenueResult * option GoError;
  ResolveOrder : option (Request -> OrderResolution * option GoError)
}.

Definition errUncertain (text : string) : GoError :=
  mkError [ErrUncertain] (String.append "venue result uncertain: " text).

(** The part of [resolveVenueOrder] after a resolver answered. *)
Definition checkResolution (answer : OrderResolution * option GoError) : OrderResolution * option GoError :=
  let '(resolution, resolveErr) := answer in
  match resolveErr with
  | Some e => (resolution, Some e)
  | None =>
      if or_Found resolution then
        if or_ConfirmedAbsent resolution
        then (resolution, Some (errUncertain "resolver returned contradictory found and absent evidence"))
        else if negb (resolvedVenueOrder (or_Result resolution))
        then (resolution, Some (errUncertain "resolver returned an invalid order state"))
        else (resolution <| or_Active := negb (terminalStatus (r_Status (or_Result resolution))) |>, None)
      else if or_ConfirmedAbsent resolution then
        if or_Active resolution || resolvedVenueOrder (or_Result resolution)
        then (resolution, Some (errUncertain "resolver returned order state with confirmed absence"))
        else (resolution, None)
      else (resolution, Some (errUncertain "resolver returned neither an order nor confirmed absence"))
  end.

Section Resolve.
Context {Request : Type} `{!VenueAdapter Request}.

Definition resolveVenueOrder (request : Request) : OrderResolution * option GoError :=
  let '(result, err) := GetOrder request in
  let only := zero_OrderResolution <| or_Result := result |> in
  if (match err with None => true | Some _ => false end) && resolvedVenueOrder result then
    (mkOrderResolution result true (negb (terminalStatus (r_Status result))) false, None)
  else
    match err with
    | Some e =>
        if negb (errorsIs e ErrOrderNotFound) then (only, Some e)
        else match ResolveOrder with
             | None => (only, Some e)
             | Some resolver => checkResolution (resolver request)
             end
    | None =>
        match ResolveOrder with
        | None => (only, Some (errUncertain "venue returned no resolved order state"))
        | Some resolver => checkResolution (resolver request)
        end
    end.

(** A verdict without an error is one of two, never both: the venue knows
    the order, its status is a real one and [Active] says exactly that it is
    not terminal; or the order is confirmed absent, with no trace of an order
    state, and that only after the direct query found nothing usable. *)
Theorem resolveVenueOrder_verdict (request : Request) (v : OrderResolution) :
  resolveVenueOrder request = (v, None) ->
  (or_Found v = true /\ or_ConfirmedAbsent v = false /\ resolvedVenueOrder (or_Result v) = true /\
   or_Active v = negb (terminalStatus (r_Status (or_Result v)))) \/
  (or_Found v = false /\ or_ConfirmedAbsent v = true /\ or_Active v = false /\
   resolvedVenueOrder (or_Result v) = false /\
   match GetOrder request with
   | (_, Some e) => errorsIs e ErrOrderNotFound = true
   | (result, None) => resolvedVenueOrder result = false
   end).
Proof.
  assert (forall a w, checkResolution a = (w, None) ->
    (or_Found w = true /\ or_ConfirmedAbsent w = false /\ resolvedVenueOrder (or_Result w) = true /\
     or_Active w = negb (terminalStatus (r_Status (or_Result w)))) \/
    (or_Found w = false /\ or_ConfirmedAbsent w = true /\ or_Active w = false /\
     resolvedVenueOrder (or_Result w) = false)) as Hc.
  { intros [[res f a c] err] w. unfold checkResolution. cbn.
    destruct err; [done|]. destruct f, c; try done.
    - destruct (resolvedVenueOrder res) eqn:E; [|done]. cbn. intros [= <-]. by left.
    - destruct a; [done|]. destruct (resolvedVenueOrder res) eqn:E; [done|]. cbn. intros [= <-]. by right. }
  unfold resolveVenueOrder. destruct (GetOrder request) as [result [e|]]; cbn [andb].
  - destruct (errorsIs e ErrOrderNotFound); cbn [negb]; [|done].
    destruct ResolveOrder as [resolver|]; [|done]. intros [?|?]%Hc; [by left|right]. tauto.
  - destruct (resolvedVenueOrder result) eqn:E.
    + intros [= <-]. by left.
    + destruct ResolveOrder as [resolver|]; [|done]. intros [?|?]%Hc; [by left|right]. tauto.
Qed.

(** Every failed resolution is explained: it is the venue's own error, of
    the direct query or of the resolver, or it is marked uncertain; an
    uncertain answer is never turned into a verdict. *)
Lemma resolveVenueOrder_errors (request : Request) (v : OrderResolution) (e : GoError) :
  resolveVenueOrder request = (v, Some e) ->
  errorsIs e ErrUncertain = true \/
  snd (GetOrder request) = Some e \/
  exists resolver, ResolveOrder = Some resolver /\ snd (resolver request) = Some e.
Proof.
  assert (forall a w e', checkResolution a = (w, Some e') ->
    errorsIs e' ErrUncertain = true \/ snd a = Some e') as Hc.
  { intros [[res f a c] err] w e'. unfold checkResolution. cbn.
    destruct err; [intros [= _ ->]; by right|].
    repeat case_match; try done; intros [= _ <-]; by left. }
  unfold resolveVenueOrder. destruct (GetOrder request) as [result [e0|]]; cbn [andb snd].
  - destruct (errorsIs e0 ErrOrderNotFound); cbn [negb]; [|intros [= _ ->]; tauto].
    destruct ResolveOrder as [resolver|]; [|intros [= _ ->]; tauto].
    intros [?|?]%Hc; [tauto|]. right; right. by exists resolver.
  - destruct (resolvedVenueOrder result); [done|].
    destruct ResolveOrder as [resolver|]; [|intros [= _ <-]; by left].
    intros [?|?]%Hc; [tauto|]. right; right. by exists resolver.
Qed.
End Resolve.

(** ** Rejecting absent orders *)

Section Absent.
Context {D : Type} `{!Decimal D}.

Definition strictZeroFilledQuantity (value : string) : bool :=
  match dNewFromString (D := D) (TrimSpace value) with
  | Some parsed => dIsZero parsed
  | None => false
  end.

Definition confirmedAbsentZeroFillReject (o : Order) : option VenueResult :=
  if terminalStatus (o_Status o) then None
  else if negb (TrimSpace (o_VenueOrderID o) =?s "") then None
  else
    let filled := TrimSpace (o_FilledQuantity o) in
    if negb (filled =?s "") && negb (strictZeroFilledQuantity filled) then None
    else if wrap64 (o_AbsenceConfirmations o + 1) <? confirmedAbsentRejectAfter then None
    else Some (zero_VenueResult <| r_Status := "rejected" |> <| r_FilledQuantity := "0" |>
                 <| r_ErrorCode := errorConfirmedAbsentAfterUncertainSubmit |>).

Definition confirmedAbsentReliableZeroFill (o : Order) : bool :=
  EqualFold (TrimSpace (o_Status o)) "rejected" && (TrimSpace (o_VenueOrderID o) =?s "") &&
  (o_ErrorCode o =?s errorConfirmedAbsentAfterUncertainSubmit) &&
  strictZeroFilledQuantity (o_FilledQuantity o).

Definition explicitVenueRejectedZeroFill (o : Order) : bool :=
  if negb (EqualFold (TrimSpace (o_Status o)) "rejected") then false
  else if negb (TrimSpace (o_VenueOrderID o) =?s "") || negb (strictZeroFilledQuantity (o_FilledQuantity o))
  then false
  else
    let code := TrimSpace (o_ErrorCode o) in
    if (code =?s "") || (code =?s errorConfirmedAbsentAfterUncertainSubmit) then false
    else
      let lower := ToLower code in
      if Contains lower "timeout" || Contains lower "uncertain" || Contains lower "unknown" then false
      else true.

Definition filledWithZeroQuantity (o : Order) : bool :=
  EqualFold (TrimSpace (o_Status o)) "filled" && strictZeroFilledQuantity (o_FilledQuantity o).

(** ** Finalising the execution *)

Definition confirmedAbsentFinalizeEligible (c : ArbitrageCombination) : bool :=
  (c_Status c =?s "running") && negb (c_CircuitOpen c).

Inductive confirmedAbsentFinalizeResult :=
  confirmedAbsentFinalizeSkipped | confirmedAbsentFinalizeCanceledExec | confirmedAbsentFinalizeRecovered.

(** The loop over the orders: [None] when one of them forbids the decision,
    otherwise whether the signature was seen. *)
Fixpoint absentSignature (executionID : string) (orders : list Order) (seen : bool) : option bool :=
  match orders with
  | [] => Some seen
  | o :: rest =>
      if negb (o_ArbitrageExecutionID o =?s executionID) then absentSignature executionID rest seen
      else if negb (terminalStatus (o_Status o)) || (0 <? o_ReconcileFailures o) then None
      else if filledWithZeroQuantity o then None
      else if negb (strictZeroFilledQuantity (o_FilledQuantity o)) then None
      else absentSignature executionID rest (seen || confirmedAbsentReliableZeroFill o)
  end.

Definition evaluateConfirmedAbsentZeroFillFinalize (c : ArbitrageCombination) (x : ArbitrageExecution)
    (orders : list Order) (executions : list ArbitrageExecution) : confirmedAbsentFinalizeResult :=
  if negb (confirmedAbsentFinalizeEligible c) then confirmedAbsentFinalizeSkipped
  else if negb (strictZeroFilledQuantity (x_LegAFilledQuantity x)) ||
          negb (strictZeroFilledQuantity (x_LegBFilledQuantity x)) then confirmedAbsentFinalizeSkipped
  else match absentSignature (x_ID x) orders false with
       | Some true => confirmedAbsentFinalizeCanceledExec
       | _ => confirmedAbsentFinalizeSkipped
       end.

(** The rows [FinalizeConfirmedAbsentZeroFillExecution] locks and writes.  The
    transaction is one atomic step here, and every statement of it succeeds:
    a database error rolls everything back and changes nothing. *)
Record FinalizeStore := mkFinalizeStore {
  fs_Combinations : list ArbitrageCombination;
  fs_Executions : list ArbitrageExecution;
  fs_Orders : list Order;
  fs_Events : list (string * string * string)
}.

Definition confirmedAbsentCanceledEvent : string := "confirmed_absent_canceled".
Definition arbitrageOrderReconcileError : string :=
  "order state remained uncertain after bounded reconciliation".

Definition FinalizeConfirmedAbsentZeroFillExecution (st : FinalizeStore) (executionID : string) (now : GoTime)
    : confirmedAbsentFinalizeResult * FinalizeStore :=
  let skip := (confirmedAbsentFinalizeSkipped, st) in
  if executionID =?s "" then skip
  else match List.find (fun x => x_ID x =?s executionID) (fs_Executions st) with
  | None => skip
  | Some row =>
      match List.find (fun c => c_ID c =?s x_CombinationID row) (fs_Combinations st) with
      | None => skip
      | Some combo =>
          let executions :=
            List.filter (fun x => x_CombinationID x =?s x_CombinationID row) (fs_Executions st) in
          match List.find (fun x => x_ID x =?s executionID) executions with
          | None => skip
          | Some execution =>
              let orders := List.filter (fun o =>
                existsb (fun x => x_ID x =?s o_ArbitrageExecutionID o) executions) (fs_Orders st) in
              match evaluateConfirmedAbsentZeroFillFinalize combo execution orders executions with
              | confirmedAbsentFinalizeSkipped => skip
              | outcome =>
                  let canceledNow := negb (terminalArbitrageExecutionStatus (x_Status execution)) in
                  let executions' := List.map (fun x =>
                    if (x_ID x =?s x_ID execution) && negb (terminalArbitrageExecutionStatus (x_Status x))
                    then x <| x_Status := "canceled" |> <| x_ErrorMessage := "" |> <| x_UpdatedAt := now |>
                           <| x_ClosedAt := if TimeEqual (x_ClosedAt x) unixEpoch then now else x_ClosedAt x |>
                    else x) (fs_Executions st) in
                  let protected := List.find (fun c => (c_ID c =?s c_ID combo) &&
                    (c_Status c =?s "running") && negb (c_CircuitOpen c)) (fs_Combinations st) in
                  match protected, canceledNow with
                  | None, false => skip
                  | _, _ =>
                      let combinations' := List.map (fun c =>
                        if (c_ID c =?s c_ID combo) && (c_Status c =?s "running") && negb (c_CircuitOpen c)
                        then c <| c_PositionUncertain := true |> <| c_RuntimeState := "position_uncertain" |>
                               <| c_ErrorMessage := arbitrageOrderReconcileError |>
                               <| c_Version := c_Version c + 1 |> <| c_UpdatedAt := now |>
                        else c) (fs_Combinations st) in
                      (outcome, mkFinalizeStore combinations' executions' (fs_Orders st)
                        (fs_Events st ++ [(c_ID combo, x_ID execution, confirmedAbsentCanceledEvent)]))
                  end
              end
          end
      end
  end.
End Absent.

(** ** Facts *)

Lemma normalizeStatus_range (value : string) :
  normalizeStatus value ∈
    ["open"; "partially_filled"; "filled"; "canceled"; "rejected"; "expired"; "pending"; "unknown"]%string.
Proof.
  unfold normalizeStatus; cbv zeta.
  repeat match goal with |- context [if ?b then _ else _] => destruct b end;
    apply list_elem_of_In; cbn; tauto.
Qed.

(** A status that has been normalised is left alone. *)
Lemma normalizeStatus_idempotent (value : string) :
  normalizeStatus (normalizeStatus value) = normalizeStatus value.
Proof.
  pose proof (normalizeStatus_range value) as H. apply list_elem_of_In in H. cbn in H.
  repeat (destruct H as [<-|H]; [vm_compute; reflexivity|]). done.
Qed.

Section AbsentFacts.
Context {D : Type} `{!Decimal D} `{!DecimalLaws D}.
Local Open Scope Q_scope.

Lemma strictZero_zero : strictZeroFilledQuantity (D := D) "0" = true.
Proof.
  unfold strictZeroFilledQuantity.
  destruct (dNewFromString_val (D := D) "0" 0 eq_refl) as (d & E & Hd).
  change (TrimSpace "0") with "0"%string. rewrite E. apply dIsZero_val. rewrite Hd. reflexivity.
Qed.

(** The order with a venue result written to it. *)
Definition withResult (o : Order) (r : VenueResult) : Order :=
  o <| o_Status := r_Status r |> <| o_FilledQuantity := r_FilledQuantity r |>
    <| o_ErrorCode := r_ErrorCode r |>.

(** An order is rejected as absent only when it is not terminal, has no
    venue identifier, no fill and at least three confirmations of absence; and
    the rejection leaves the signature that finalisation looks for, which is
    terminal and is never taken for a rejection by the venue itself. *)
Theorem absent_reject_signature (o : Order) (r : VenueResult) :
  (o_AbsenceConfirmations o < 2 ^ 31)%Z -> (0 <= o_AbsenceConfirmations o)%Z ->
  confirmedAbsentZeroFillReject (D := D) o = Some r ->
  terminalStatus (o_Status o) = false /\ TrimSpace (o_VenueOrderID o) = ""%string /\
  (TrimSpace (o_FilledQuantity o) = ""%string \/
   strictZeroFilledQuantity (D := D) (TrimSpace (o_FilledQuantity o)) = true) /\
  (confirmedAbsentRejectAfter <= o_AbsenceConfirmations o + 1)%Z /\
  confirmedAbsentReliableZeroFill (D := D) (withResult o r) = true /\
  explicitVenueRejectedZeroFill (D := D) (withResult o r) = false /\
  filledWithZeroQuantity (D := D) (withResult o r) = false /\
  terminalStatus (o_Status (withResult o r)) = true.
Proof.
  intros Hhi Hlo. unfold confirmedAbsentZeroFillReject; cbv zeta.
  destruct (terminalStatus (o_Status o)) eqn:Et; [done|].
  destruct (String.eqb_spec (TrimSpace (o_VenueOrderID o)) "") as [Ev|]; cbn [negb]; [|done].
  destruct (negb (TrimSpace (o_FilledQuantity o) =?s "") && _) eqn:Ef; [done|].
  destruct (Z.ltb_spec (wrap64 (o_AbsenceConfirmations o + 1)) confirmedAbsentRejectAfter) as [|Hc]; [done|].
  intros [= <-].
  rewrite Validate.wrap64_id in Hc by (unfold int64_min, int64_max; lia).
  unfold confirmedAbsentReliableZeroFill, explicitVenueRejectedZeroFill, filledWithZeroQuantity, withResult.
  cbn [o_Status o_VenueOrderID o_ErrorCode o_FilledQuantity r_Status r_FilledQuantity r_ErrorCode setter
    zero_VenueResult]. rewrite Ev, strictZero_zero. split_and!; try done.
  apply andb_false_iff in Ef. rewrite !negb_false_iff, String.eqb_eq in Ef. tauto.
Qed.

Lemma absentSignature_spec (executionID : string) (orders : list Order) (seen : bool) :
  absentSignature (D := D) executionID orders seen = Some true ->
  Forall (fun o => o_ArbitrageExecutionID o = executionID ->
    terminalStatus (o_Status o) = true /\ (o_ReconcileFailures o <= 0)%Z /\
    strictZeroFilledQuantity (D := D) (o_FilledQuantity o) = true /\
    EqualFold (TrimSpace (o_Status o)) "filled" = false) orders /\
  (seen = true \/ Exists (fun o => o_ArbitrageExecutionID o = executionID /\
     confirmedAbsentReliableZeroFill (D := D) o = true) orders).
Proof.
  revert seen. induction orders as [|o rest IH]; intros seen; cbn [absentSignature].
  - intros [= ->]. split; [done|by left].
  - destruct (String.eqb_spec (o_ArbitrageExecutionID o) executionID) as [E|E]; cbn [negb].
    + destruct (negb (terminalStatus (o_Status o)) || _) eqn:Et; [done|].
      destruct (filledWithZeroQuantity o) eqn:Efz; [done|].
      destruct (strictZeroFilledQuantity (o_FilledQuantity o)) eqn:Ez; cbn [negb]; [|done].
      intros H. apply IH in H as [Hf Hs]. bool_to_prop. split.
      * constructor; [|done]. intros _. split_and!; try done.
        unfold filledWithZeroQuantity in Efz. rewrite Ez, andb_true_r in Efz. done.
      * destruct Hs as [Hs|Hs]; [|right; by apply Exists_cons_tl].
        apply orb_true_iff in Hs as [->|Hr]; [by left|right]. by apply Exists_cons_hd.
    + intros H. apply IH in H as [Hf Hs]. split; [by constructor|].
      destruct Hs as [->|Hs]; [by left|right]. by apply Exists_cons_tl.
Qed.

Lemma evaluate_canceled (c : ArbitrageCombination) (x : ArbitrageExecution) (orders : list Order)
    (executions : list ArbitrageExecution) :
  evaluateConfirmedAbsentZeroFillFinalize (D := D) c x orders executions <> confirmedAbsentFinalizeSkipped ->
  evaluateConfirmedAbsentZeroFillFinalize (D := D) c x orders executions = confirmedAbsentFinalizeCanceledExec /\
  c_Status c = "running"%string /\ c_CircuitOpen c = false /\
  strictZeroFilledQuantity (D := D) (x_LegAFilledQuantity x) = true /\
  strictZeroFilledQuantity (D := D) (x_LegBFilledQuantity x) = true /\
  absentSignature (D := D) (x_ID x) orders false = Some true.
Proof.
  unfold evaluateConfirmedAbsentZeroFillFinalize, confirmedAbsentFinalizeEligible.
  destruct (String.eqb_spec (c_Status c) "running"), (c_CircuitOpen c); cbn [andb negb]; try done.
  destruct (strictZeroFilledQuantity (x_LegAFilledQuantity x)),
    (strictZeroFilledQuantity (x_LegBFilledQuantity x)); cbn [negb orb]; try done.
  destruct (absentSignature _ _ _) as [[]|]; done.
Qed.

Lemma decide_skip (r : confirmedAbsentFinalizeResult) :
  r = confirmedAbsentFinalizeSkipped \/ r <> confirmedAbsentFinalizeSkipped.
Proof. destruct r; [by left|by right..]. Qed.

Lemma find_elem {A} (f : A -> bool) (l : list A) (x : A) :
  List.find f l = Some x -> x ∈ l /\ f x = true.
Proof. intros H. apply List.find_some in H as [H1 H2]. split; [by apply list_elem_of_In|done]. Qed.

(** The orders of the combination's executions include all of the execution's. *)
Lemma own_orders (orders : list Order) (executions : list ArbitrageExecution) (x : ArbitrageExecution)
    (P : Order -> Prop) :
  x ∈ executions ->
  let own := List.filter (fun o => existsb (fun y => x_ID y =?s o_ArbitrageExecutionID o) executions) orders in
  Forall (fun o => o_ArbitrageExecutionID o = x_ID x -> P o) own ->
  Forall (fun o => o_ArbitrageExecutionID o = x_ID x -> P o) orders.
Proof.
  intros Hx own. rewrite !Forall_forall. intros H o Ho E. apply H; [|done].
  apply list_elem_of_In, filter_In. split; [by apply list_elem_of_In|].
  apply existsb_exists. exists x. split; [by apply list_elem_of_In|]. by rewrite E, String.eqb_refl.
Qed.

(** Finalisation cancels an execution only on complete evidence and
    touches nothing else: the combination runs with its circuit closed, both
    legs and every order of the execution are terminal, reconciled and
    unfilled, and one of them carries the absence signature; then the
    execution is terminal, the combination is marked uncertain, orders and
    fills are as they were and one event is recorded.  A skipped finalisation
    changes nothing. *)
Theorem finalize_absent_safe (st st' : FinalizeStore) (executionID : string) (now : GoTime)
    (out : confirmedAbsentFinalizeResult) :
  FinalizeConfirmedAbsentZeroFillExecution (D := D) st executionID now = (out, st') ->
  (out = confirmedAbsentFinalizeSkipped /\ st' = st) \/
  (out = confirmedAbsentFinalizeCanceledExec /\ fs_Orders st' = fs_Orders st /\
   exists combo x,
     combo ∈ fs_Combinations st /\ x ∈ fs_Executions st /\ x_ID x = executionID /\
     x_CombinationID x = c_ID combo /\ c_Status combo = "running"%string /\ c_CircuitOpen combo = false /\
     strictZeroFilledQuantity (D := D) (x_LegAFilledQuantity x) = true /\
     strictZeroFilledQuantity (D := D) (x_LegBFilledQuantity x) = true /\
     Forall (fun o => o_ArbitrageExecutionID o = executionID ->
       terminalStatus (o_Status o) = true /\
       strictZeroFilledQuantity (D := D) (o_FilledQuantity o) = true) (fs_Orders st) /\
     Exists (fun o => o_ArbitrageExecutionID o = executionID /\
       confirmedAbsentReliableZeroFill (D := D) o = true) (fs_Orders st) /\
     Forall (fun x' => x_ID x' = executionID -> terminalArbitrageExecutionStatus (x_Status x') = true)
       (fs_Executions st') /\
     Forall (fun c' => c_ID c' = c_ID combo -> c_Status c' = "running"%string ->
       c_CircuitOpen c' = false -> c_PositionUncertain c' = true) (fs_Combinations st') /\
     fs_Events st' = fs_Events st ++ [(c_ID combo, executionID, confirmedAbsentCanceledEvent)]).
Proof.
  unfold FinalizeConfirmedAbsentZeroFillExecution; cbv zeta.
  destruct (executionID =?s ""); [intros [= <- <-]; by left|].
  destruct (List.find _ (fs_Executions st)) as [row|]; [|intros [= <- <-]; by left].
  destruct (List.find _ (fs_Combinations st)) as [combo|] eqn:Ec; [|intros [= <- <-]; by left].
  set (executions := List.filter _ (fs_Executions st)).
  destruct (List.find _ executions) as [x|] eqn:Ex; [|intros [= <- <-]; by left].
  apply find_elem in Ec as [Hc Ec]. apply find_elem in Ex as [Hx Ex]. bool_to_prop.
  assert (x ∈ fs_Executions st /\ x_CombinationID x = c_ID combo) as [Hx' Hxc].
  { apply list_elem_of_In, filter_In in Hx as [H1 H2]. split; [by apply list_elem_of_In|].
    bool_to_prop. by rewrite H2, Ec. }
  set (orders := List.filter _ (fs_Orders st)).
  destruct (decide_skip (evaluateConfirmedAbsentZeroFillFinalize combo x orders executions)) as [->|Hne];
    [intros [= <- <-]; by left|].
  apply evaluate_canceled in Hne as (-> & Hr & Ho & HA & HB & Hs).
  apply absentSignature_spec in Hs as [Hall [|Hex]]; [done|].
  rewrite Ex in *.
  assert (Forall (fun o => o_ArbitrageExecutionID o = executionID ->
       terminalStatus (o_Status o) = true /\
       strictZeroFilledQuantity (D := D) (o_FilledQuantity o) = true) (fs_Orders st)) as Hall'.
  { rewrite <- Ex. apply (own_orders _ executions x); [done|]. rewrite Ex.
    eapply Forall_impl; [exact Hall|]. cbv beta. intros o H E. destruct (H E) as (? & _ & ? & _). done. }
  assert (Exists (fun o => o_ArbitrageExecutionID o = executionID /\
       confirmedAbsentReliableZeroFill (D := D) o = true) (fs_Orders st)) as Hex'.
  { apply Exists_exists in Hex as (o & Hin & Ho'). apply Exists_exists. exists o. split; [|done].
    apply list_elem_of_In, filter_In in Hin as [Hin _]. by apply list_elem_of_In. }
  intros H. right.
  match type of H with match ?p with _ => _ end = _ => destruct p as [pc|] eqn:Ep end.
  2: { exfalso. pose proof (List.find_none _ _ Ep combo (proj1 (list_elem_of_In _ _) Hc)) as Hn.
       cbv beta in Hn. rewrite String.eqb_refl, Hr, Ho in Hn. discriminate Hn. }
  injection H as <- <-. split; [done|]. split; [done|].
  exists combo, x. cbn [fs_Executions fs_Combinations fs_Events]. split_and!; try done.
  - apply Forall_map, Forall_true. intros y. cbv beta.
    destruct (String.eqb_spec (x_ID y) executionID) as [E|E]; cbn [andb]; [|done].
    destruct (terminalArbitrageExecutionStatus (x_Status y)) eqn:Et; cbn [negb]; [done|]. intros _. reflexivity.
  - apply Forall_map, Forall_true. intros y. cbv beta.
    destruct (String.eqb_spec (c_ID y) (c_ID combo)) as [E|E]; cbn [andb]; [|done].
    destruct (String.eqb_spec (c_Status y) "running"), (c_CircuitOpen y) eqn:Eo; cbn [andb negb]; try done.
    intros _ _ H. congruence.
Qed.
End AbsentFacts.

(** ** Concrete instances of the theorems *)

Section ResolutionWitnesses.
Local Open Scope Q_scope.

(** A venue that does not know the order and whose resolver confirms its absence. *)
Definition absentVenue : VenueAdapter unit := {|
  GetOrder := fun _ => (zero_VenueResult, Some (mkError [ErrOrderNotFound] "venue order not found"));
  ResolveOrder := Some (fun _ => (mkOrderResolution zero_VenueResult false false true, None))
|}.

Lemma resolveVenueOrder_verdict_witness :
  resolveVenueOrder (VenueAdapter0 := absentVenue) tt
    = (mkOrderResolution zero_VenueResult false false true, None) /\
  resolvedVenueOrder zero_VenueResult = false.
Proof.
  split; [reflexivity|].
  destruct (resolveVenueOrder_verdict (VenueAdapter0 := absentVenue) tt
    (mkOrderResolution zero_VenueResult false false true)) as [(H & _)|(_ & _ & _ & H & _)];
    [reflexivity|discriminate H|exact H].
Defined.

(** A pending order whose absence was confirmed twice before. *)
Definition absentOrder : Order :=
  zero_Order <| o_Status := "pending" |> <| o_AbsenceConfirmations := 2%Z |>
    <| o_ArbitrageExecutionID := "x" |>.

Lemma absent_reject_signature_witness :
  exists r, confirmedAbsentZeroFillReject (D := Dec) absentOrder = Some r /\
    confirmedAbsentReliableZeroFill (D := Dec) (withResult absentOrder r) = true.
Proof.
  eexists. split; [vm_compute; reflexivity|].
  apply (absent_reject_signature (D := Dec) absentOrder); [reflexivity|discriminate|vm_compute; reflexivity].
Defined.

Definition absentStore : FinalizeStore :=
  mkFinalizeStore [zero_ArbitrageCombination <| c_ID := "c" |> <| c_Status := "running" |>]
    [zero_ArbitrageExecution <| x_ID := "x" |> <| x_CombinationID := "c" |> <| x_Status := "hedging" |>
       <| x_LegAFilledQuantity := "0" |> <| x_LegBFilledQuantity := "0" |>]
    [absentOrder <| o_Status := "rejected" |> <| o_FilledQuantity := "0" |>
       <| o_ErrorCode := errorConfirmedAbsentAfterUncertainSubmit |>] [].

Lemma finalize_absent_safe_witness :
  exists out st', FinalizeConfirmedAbsentZeroFillExecution (D := Dec) absentStore "x" 5%Z = (out, st') /\
    out = confirmedAbsentFinalizeCanceledExec /\ fs_Orders st' = fs_Orders absentStore.
Proof.
  do 2 eexists. split; [vm_compute; reflexivity|].
  pose proof (fun st' out => finalize_absent_safe (D := Dec) absentStore st' "x" 5%Z out) as H.
  specialize (H _ _ ltac:(vm_compute; reflexivity)).
  destruct H as [[H _]|(H & H' & _)]; [discriminate H|exact (conj H H')].
Defined.
End ResolutionWitnesses.
