(* ===== verification/FillAverage.v ===== *)
(** * Average fill price (order_fill_average.go, order_fill_fee.go)

    A tracker that accumulates the fills of an order, each trade once however
    often it is reported, and writes the volume-weighted average once the
    fills cover the venue's own cumulative quantity.  States are shared: the
    tracker's map and every handle hold a pointer, so the model keeps a heap
    of states and the addresses the map and the handles hold. *)
From Stdlib Require Import ZArith QArith Qround Qabs Qminmax Lqa String.
From stdpp Require Import base strings list gmap.
From S2P Require Import Prelude Decimal DecimalRef Types Quantity ArbMath.

#[local] Set Warnings "-clear-no-such-hyp".

Definition orderFillAveragePruneScan : nat := 8.
Definition orderFillAverageCoverageWarnInterval : Duration := 10 * Second.

Definition hyperliquidArbitrageFillAverageEnabled (o : Order) : bool :=
  EqualFold (TrimSpace (o_Exchange o)) "hyperliquid" && negb (TrimSpace (o_ArbitrageExecutionID o) =?s "").

(** [orderFillAverageState] without its mutex. *)
Record orderFillAverageState (D : Type) := mkFillState {
  s_refs : Z;
  s_terminal : bool;
  s_expiresAt : GoTime;
  s_ensured : bool;
  s_authoritativeQty : D;
  s_fillQty : D;
  s_fillNotional : D;
  s_lastPricedQty : D;
  s_seenTradeIDs : gset string;
  s_seededPriced : bool;
  s_averageFinalized : bool;
  s_lastCoverageWarn : GoTime
}.
Arguments mkFillState {D}.
Arguments s_refs {D}.
Arguments s_terminal {D}.
Arguments s_expiresAt {D}.
Arguments s_ensured {D}.
Arguments s_authoritativeQty {D}.
Arguments s_fillQty {D}.
Arguments s_fillNotional {D}.
Arguments s_lastPricedQty {D}.
Arguments s_seenTradeIDs {D}.
Arguments s_seededPriced {D}.
Arguments s_averageFinalized {D}.
Arguments s_lastCoverageWarn {D}.
#[export] Instance eta_orderFillAverageState D : Eta (orderFillAverageState D) := fun s =>
  mkFillState (s_refs s) (s_terminal s) (s_expiresAt s) (s_ensured s) (s_authoritativeQty s)
    (s_fillQty s) (s_fillNotional s) (s_lastPricedQty s) (s_seenTradeIDs s) (s_seededPriced s)
    (s_averageFinalized s) (s_lastCoverageWarn s).

Record orderFillAveragePending (D : Type) := mkPending {
  pd_orderID : string;
  pd_newTradeIDs : gset string;
  pd_deltaFillQty : D;
  pd_deltaFillNotional : D;
  pd_candidateAuthoritativeQty : D;
  pd_candidateLastPricedQty : D;
  pd_writeAverage : bool
}.
Arguments mkPending {D}.
Arguments pd_orderID {D}.
Arguments pd_newTradeIDs {D}.
Arguments pd_deltaFillQty {D}.
Arguments pd_deltaFillNotional {D}.
Arguments pd_candidateAuthoritativeQty {D}.
Arguments pd_candidateLastPricedQty {D}.
Arguments pd_writeAverage {D}.
#[export] Instance eta_orderFillAveragePending D : Eta (orderFillAveragePending D) := fun p =>
  mkPending (pd_orderID p) (pd_newTradeIDs p) (pd_deltaFillQty p) (pd_deltaFillNotional p)
    (pd_candidateAuthoritativeQty p) (pd_candidateLastPricedQty p) (pd_writeAverage p).

(** A handle: the order and the address of its state. *)
Record orderFillAverageHandle := mkHandle { h_orderID : string; h_state : nat }.

Record orderFillAverageTracker (D : Type) := mkTracker {
  tr_byID : gmap string nat;
  tr_heap : gmap nat (orderFillAverageState D);
  tr_next : nat
}.
Arguments mkTracker {D}.
Arguments tr_byID {D}.
Arguments tr_heap {D}.
Arguments tr_next {D}.

(** ** Fees of a fill *)

Definition orderLiquidityRole (makerCount takerCount otherCount : Z) : string :=
  if (0 <? otherCount) || ((makerCount =? 0) && (takerCount =? 0)) then "unknown"
  else if (0 <? makerCount) && (0 <? takerCount) then "mixed"
  else if 0 <? makerCount then "maker"
  else "taker".

Section FillAverage.
Context {D : Type} `{!Decimal D}.
Local Open Scope dec_scope.

(** The amount and currency, when known, and the role. *)
Definition normalizeStoredFillFee (f : OrderFill) : option (string * string) * string :=
  let role := ToLower (TrimSpace (of_LiquidityRole f)) in
  let role := if (role =?s "maker") || (role =?s "taker") || (role =?s "unknown") then role
              else "unknown"%string in
  if TrimSpace (of_TradeID f) =?s "" then (None, role)
  else
    let rawAmount := TrimSpace (of_FeeAmount f) in
    let currency := ToUpper (TrimSpace (of_FeeCurrency f)) in
    if (rawAmount =?s "") || (currency =?s "") then (None, role)
    else match dNewFromString (D := D) rawAmount with
         | None => (None, role)
         | Some amount => (Some (dString amount, currency), role)
         end.

(** ** One state *)

Definition emptyFillState : orderFillAverageState D :=
  mkFillState 0 false zeroTime false dZero dZero dZero dZero ∅ false false zeroTime.

Definition ensureLocked (s : orderFillAverageState D) (o : Order) : orderFillAverageState D :=
  if s_ensured s then s
  else
    let filled := parseDecimal (o_FilledQuantity o) in
    let average := parseDecimal (o_AveragePrice o) in
    let s := s <| s_ensured := true |> <| s_authoritativeQty := filled |> in
    if dIsPositive average then
      s <| s_fillQty := filled |> <| s_fillNotional := filled * average |> <| s_lastPricedQty := filled |>
        <| s_seededPriced := true |> <| s_averageFinalized := true |>
    else
      s <| s_fillQty := dZero |> <| s_fillNotional := dZero |> <| s_lastPricedQty := dZero |>
        <| s_seededPriced := false |> <| s_averageFinalized := false |>.

Definition observeFillLocked (s : orderFillAverageState D) (pending : orderFillAveragePending D)
    (f : OrderFill) : orderFillAveragePending D :=
  let tradeID := TrimSpace (of_TradeID f) in
  if tradeID =?s "" then pending
  else if bool_decide (tradeID ∈ s_seenTradeIDs s) then pending
  else if bool_decide (tradeID ∈ pd_newTradeIDs pending) then pending
  else
    match dNewFromString (TrimSpace (of_Quantity f)) with
    | None => pending
    | Some quantity =>
        if negb (dIsPositive quantity) then pending
        else
          match dNewFromString (TrimSpace (of_Price f)) with
          | None => pending
          | Some price =>
              if negb (dIsPositive price) then pending
              else pending <| pd_newTradeIDs := {[tradeID]} ∪ pd_newTradeIDs pending |>
                     <| pd_deltaFillQty := pd_deltaFillQty pending + quantity |>
                     <| pd_deltaFillNotional := pd_deltaFillNotional pending + quantity * price |>
          end
    end.

(** [warnFillCoverageLocked]: only the time of the last warning is state. *)
Definition warnFillCoverageLocked (s : orderFillAverageState D) (now : GoTime) : orderFillAverageState D :=
  if negb (IsZeroTime (s_lastCoverageWarn s)) &&
     (TimeSub now (s_lastCoverageWarn s) <? orderFillAverageCoverageWarnInterval)%Z
  then s else s <| s_lastCoverageWarn := now |>.

(** The state after, the pending change and the average to write, if any. *)
Definition Prepare (s : orderFillAverageState D) (orderID : string) (o : Order)
    (status authoritativeQty : string) (incoming inserted : list OrderFill) (now : GoTime)
    : orderFillAverageState D * orderFillAveragePending D * option string :=
  let s := ensureLocked s o in
  let fills := if s_seededPriced s then inserted else incoming in
  let pending := mkPending orderID ∅ dZero dZero (parseDecimal authoritativeQty) (s_lastPricedQty s) false in
  let pending := fold_left (observeFillLocked s) fills pending in
  let candidateFillQty := s_fillQty s + pd_deltaFillQty pending in
  let candidateNotional := s_fillNotional s + pd_deltaFillNotional pending in
  let auth := pd_candidateAuthoritativeQty pending in
  if negb (s_averageFinalized s) && terminalStatus status && dIsPositive auth &&
     (candidateFillQty =? auth) && dIsPositive candidateFillQty
  then (s, pending <| pd_writeAverage := true |> <| pd_candidateLastPricedQty := auth |>,
        Some (dString (candidateNotional / candidateFillQty)))
  else
    let s := if dIsPositive auth && negb (candidateFillQty =? auth)
             then warnFillCoverageLocked s now else s in
    (s, pending, None).

Definition Commit (s : orderFillAverageState D) (pending : orderFillAveragePending D)
    : orderFillAverageState D :=
  if pd_orderID pending =?s "" then s
  else
    let s := s <| s_seenTradeIDs := pd_newTradeIDs pending ∪ s_seenTradeIDs s |>
               <| s_fillQty := s_fillQty s + pd_deltaFillQty pending |>
               <| s_fillNotional := s_fillNotional s + pd_deltaFillNotional pending |>
               <| s_authoritativeQty := pd_candidateAuthoritativeQty pending |> in
    if pd_writeAverage pending
    then s <| s_lastPricedQty := pd_candidateLastPricedQty pending |> <| s_averageFinalized := true |>
    else s.

(** ** The tracker *)

Definition newOrderFillAverageTracker : orderFillAverageTracker D := mkTracker ∅ ∅ 0.

(** [addr] is the pointer [state]: nil pointers are addresses not on the heap. *)
Definition canPruneLocked (t : orderFillAverageTracker D) (orderID : string) (addr : option nat)
    (now : GoTime) : bool :=
  match addr with
  | None => false
  | Some a =>
      match tr_heap t !! a with
      | None => false
      | Some s =>
          if negb (s_terminal s) || IsZeroTime (s_expiresAt s) || negb (s_refs s =? 0)%Z then false
          else if TimeBefore now (s_expiresAt s) then false
          else bool_decide (tr_byID t !! orderID = Some a)
      end
  end.

Definition pruneOne (t : orderFillAverageTracker D) (orderID : string) (now : GoTime)
    : orderFillAverageTracker D :=
  if canPruneLocked t orderID (tr_byID t !! orderID) now
  then mkTracker (delete orderID (tr_byID t)) (tr_heap t) (tr_next t)
  else t.

(** [scan] is the order in which the map is ranged over. *)
Definition pruneLocked (t : orderFillAverageTracker D) (currentID : string) (scan : list string)
    (now : GoTime) : orderFillAverageTracker D :=
  let t := pruneOne t currentID now in
  let others := List.filter (fun id => negb (id =?s currentID)) scan in
  fold_left (fun t id => pruneOne t id now) (firstn orderFillAveragePruneScan others) t.

Definition Acquire (t : orderFillAverageTracker D) (orderID : string) (scan : list string) (now : GoTime)
    : orderFillAverageHandle * orderFillAverageTracker D :=
  let orderID := TrimSpace orderID in
  let t := pruneLocked t orderID scan now in
  let '(a, t) :=
    match tr_byID t !! orderID with
    | Some a => (a, t)
    | None => let a := tr_next t in
              (a, mkTracker (<[orderID := a]> (tr_byID t)) (<[a := emptyFillState]> (tr_heap t)) (S a))
    end in
  (mkHandle orderID a,
   mkTracker (tr_byID t) (alter (fun s => s <| s_refs := (s_refs s + 1)%Z |>) a (tr_heap t)) (tr_next t)).

Definition Release (t : orderFillAverageTracker D) (h : orderFillAverageHandle) (markTerminal : bool)
    (expiresAt now : GoTime) : orderFillAverageTracker D :=
  match tr_heap t !! h_state h with
  | None => t
  | Some s =>
      if h_orderID h =?s "" then t
      else
        let s := if (0 <? s_refs s)%Z then s <| s_refs := (s_refs s - 1)%Z |> else s in
        let s := if markTerminal then s <| s_terminal := true |> <| s_expiresAt := expiresAt |> else s in
        let t := mkTracker (tr_byID t) (<[h_state h := s]> (tr_heap t)) (tr_next t) in
        if canPruneLocked t (h_orderID h) (Some (h_state h)) now
        then mkTracker (delete (h_orderID h) (tr_byID t)) (tr_heap t) (tr_next t)
        else t
  end.

(** Commit through a handle writes the shared state. *)
Definition updateState (t : orderFillAverageTracker D) (h : orderFillAverageHandle)
    (f : orderFillAverageState D -> orderFillAverageState D) : orderFillAverageTracker D :=
  mkTracker (tr_byID t) (alter f (h_state h) (tr_heap t)) (tr_next t).
End FillAverage.

(** ** The reference: each trade once *)

Section FillReference.
Context {D : Type} `{!Decimal D}.

(** A fill that counts: a trade id, a positive quantity and a positive price. *)
Definition validFill (f : OrderFill) : option (string * D * D) :=
  let id := TrimSpace (of_TradeID f) in
  if id =?s "" then None
  else match dNewFromString (TrimSpace (of_Quantity f)), dNewFromString (TrimSpace (of_Price f)) with
       | Some q, Some p => if dIsPositive q && dIsPositive p then Some (id, q, p) else None
       | _, _ => None
       end.

(** The first valid report of every trade not in [seen]. *)
Fixpoint distinctFills (seen : gset string) (fills : list OrderFill) : list (string * D * D) :=
  match fills with
  | [] => []
  | f :: rest =>
      match validFill f with
      | Some (id, q, p) =>
          if bool_decide (id ∈ seen) then distinctFills seen rest
          else (id, q, p) :: distinctFills ({[id]} ∪ seen) rest
      | None => distinctFills seen rest
      end
  end.

Definition fillIDs (l : list (string * D * D)) : gset string := list_to_set (map (fun '(id, _, _) => id) l).
Definition totalQty (l : list (string * D * D)) : Q :=
  foldr (fun '(_, q, _) acc => (dval q + acc)%Q) 0%Q l.
Definition totalNotional (l : list (string * D * D)) : Q :=
  foldr (fun '(_, q, p) acc => (dval q * dval p + acc)%Q) 0%Q l.
End FillReference.

Section FillAverageFacts.
Context {D : Type} `{!Decimal D} `{!DecimalLaws D}.
Local Open Scope Q_scope.

Lemma totalQty_cons (id : string) (q p : D) (l : list (string * D * D)) :
  totalQty ((id, q, p) :: l) = dval q + totalQty l.
Proof. reflexivity. Qed.
Lemma totalNotional_cons (id : string) (q p : D) (l : list (string * D * D)) :
  totalNotional ((id, q, p) :: l) = dval q * dval p + totalNotional l.
Proof. reflexivity. Qed.

Lemma observeFill_valid (s : orderFillAverageState D) (pd : orderFillAveragePending D) (f : OrderFill) :
  observeFillLocked s pd f =
  match validFill f with
  | Some (id, q, p) =>
      if bool_decide (id ∈ s_seenTradeIDs s ∪ pd_newTradeIDs pd) then pd
      else pd <| pd_newTradeIDs := {[id]} ∪ pd_newTradeIDs pd |>
              <| pd_deltaFillQty := (pd_deltaFillQty pd + q)%dec |>
              <| pd_deltaFillNotional := (pd_deltaFillNotional pd + q * p)%dec |>
  | None => pd
  end.
Proof.
  unfold observeFillLocked, validFill; cbv zeta.
  destruct (TrimSpace (of_TradeID f) =?s ""); [done|].
  set (id := TrimSpace (of_TradeID f)).
  destruct (decide (id ∈ s_seenTradeIDs s ∪ pd_newTradeIDs pd)) as [H|H].
  - assert (bool_decide (id ∈ s_seenTradeIDs s) || bool_decide (id ∈ pd_newTradeIDs pd) = true) as Ho.
    { apply elem_of_union in H as [H|H]; rewrite (bool_decide_true _ H); [done|apply orb_true_r]. }
    destruct (bool_decide (id ∈ s_seenTradeIDs s)), (bool_decide (id ∈ pd_newTradeIDs pd)); try done.
    all: repeat case_match; simplify_eq/=; try done; by rewrite (bool_decide_true _ H) in *.
  - rewrite (bool_decide_false (id ∈ s_seenTradeIDs s)) by set_solver.
    rewrite (bool_decide_false (id ∈ pd_newTradeIDs pd)) by set_solver.
    destruct (dNewFromString (TrimSpace (of_Quantity f))) as [q|],
      (dNewFromString (TrimSpace (of_Price f))) as [p|]; try done.
    + destruct (dIsPositive q), (dIsPositive p); cbn [negb andb]; try done.
      by rewrite (bool_decide_false _ H).
    + by destruct (dIsPositive q).
Qed.

(** Reading a batch adds its trades that are new, once each. *)
Lemma observe_batch (s : orderFillAverageState D) (fills : list OrderFill) (pd : orderFillAveragePending D) :
  let l := distinctFills (s_seenTradeIDs s ∪ pd_newTradeIDs pd) fills in
  let pd' := fold_left (observeFillLocked s) fills pd in
  pd_newTradeIDs pd' = fillIDs l ∪ pd_newTradeIDs pd /\
  dval (pd_deltaFillQty pd') == dval (pd_deltaFillQty pd) + totalQty l /\
  dval (pd_deltaFillNotional pd') == dval (pd_deltaFillNotional pd) + totalNotional l /\
  pd_orderID pd' = pd_orderID pd /\ pd_writeAverage pd' = pd_writeAverage pd /\
  pd_candidateAuthoritativeQty pd' = pd_candidateAuthoritativeQty pd.
Proof.
  cbv zeta. revert pd. induction fills as [|f fills IH]; intros pd; cbn [fold_left distinctFills].
  - split_and!; try done; [clear; set_solver|cbn; lra..].
  - rewrite observeFill_valid. destruct (validFill f) as [[[id q] p]|]; [|apply IH].
    destruct (decide (id ∈ s_seenTradeIDs s ∪ pd_newTradeIDs pd)) as [H|H].
    + rewrite !(bool_decide_true _ H). apply IH.
    + rewrite !(bool_decide_false _ H).
      match goal with |- context [fold_left _ fills ?x] => set (pd1 := x) end.
      specialize (IH pd1).
      assert (s_seenTradeIDs s ∪ pd_newTradeIDs pd1 = {[id]} ∪ (s_seenTradeIDs s ∪ pd_newTradeIDs pd)) as E.
      { subst pd1. cbn. clear; set_solver. }
      rewrite E in IH. destruct IH as (I1 & I2 & I3 & I4 & I5 & I6). rewrite I1, I4, I5, I6.
      split_and!; try done.
      * subst pd1. unfold fillIDs. cbn. clear; set_solver.
      * rewrite I2. subst pd1. cbn [pd_deltaFillQty setter]. rewrite dAdd_val, totalQty_cons. lra.
      * rewrite I3. subst pd1. cbn [pd_deltaFillNotional setter]. rewrite dAdd_val, dMul_val, totalNotional_cons. lra.
Qed.

Lemma distinctFills_app (seen : gset string) (a b : list OrderFill) :
  distinctFills (D := D) seen (a ++ b) =
  distinctFills seen a ++ distinctFills (fillIDs (distinctFills (D := D) seen a) ∪ seen) b.
Proof.
  revert seen. induction a as [|f a IH]; intros seen; cbn [distinctFills app].
  - cbn. f_equal. unfold fillIDs. cbn. set_solver.
  - destruct (validFill f) as [[[id q] p]|]; [|apply IH].
    destruct (bool_decide (id ∈ seen)); [apply IH|].
    cbn [app]. f_equal. rewrite IH. f_equal. f_equal. unfold fillIDs. cbn. set_solver.
Qed.

Lemma distinctFills_fresh (seen : gset string) (fills : list OrderFill) (id : string) :
  id ∈ map (fun '(id, _, _) => id) (distinctFills (D := D) seen fills) -> id ∉ seen.
Proof.
  revert seen. induction fills as [|f fills IH]; intros seen; cbn [distinctFills map].
  - intros H. by apply elem_of_nil in H.
  - destruct (validFill f) as [[[x q] p]|]; [|apply IH].
    case_bool_decide; [apply IH|]. cbn [map]. rewrite elem_of_cons. intros [->|H']; [done|].
    apply IH in H'. set_solver.
Qed.

Lemma distinctFills_NoDup (seen : gset string) (fills : list OrderFill) :
  NoDup (map (fun '(id, _, _) => id) (distinctFills (D := D) seen fills)).
Proof.
  revert seen. induction fills as [|f fills IH]; intros seen; cbn [distinctFills map]; [constructor|].
  destruct (validFill f) as [[[x q] p]|]; [|apply IH]. case_bool_decide; [apply IH|].
  cbn [map]. constructor; [|apply IH]. intros H'%distinctFills_fresh. set_solver.
Qed.

(** Every valid fill of a list has its trade among the distinct ones. *)
Lemma distinctFills_covers (seen : gset string) (fills : list OrderFill) (f : OrderFill) (id : string) (q p : D) :
  f ∈ fills -> validFill f = Some (id, q, p) -> id ∈ fillIDs (distinctFills (D := D) seen fills) ∪ seen.
Proof.
  revert seen. induction fills as [|g fills IH]; intros seen Hf Hv; [by apply elem_of_nil in Hf|].
  cbn [distinctFills]. apply elem_of_cons in Hf as [<-|Hf].
  - rewrite Hv. case_bool_decide; [set_solver|]. unfold fillIDs. cbn. set_solver.
  - specialize (IH) as IH'. destruct (validFill g) as [[[x q'] p']|]; [|by apply IH'].
    case_bool_decide; [by apply IH'|]. specialize (IH' ({[x]} ∪ seen) Hf Hv).
    unfold fillIDs in *. cbn. set_solver.
Qed.

(** Reporting known fills again adds nothing. *)
Lemma distinctFills_again (fills again : list OrderFill) :
  (forall f, f ∈ again -> f ∈ fills) ->
  distinctFills (D := D) (fillIDs (distinctFills (D := D) ∅ fills)) again = [].
Proof.
  induction again as [|f again IH]; intros H; [done|]. cbn [distinctFills].
  destruct (validFill f) as [[[id q] p]|] eqn:E.
  - rewrite bool_decide_true; [apply IH; set_solver|].
    pose proof (distinctFills_covers ∅ fills f id q p (H f ltac:(set_solver)) E). set_solver.
  - apply IH. set_solver.
Qed.

Lemma totals_app (a b : list (string * D * D)) :
  totalQty (a ++ b) == totalQty a + totalQty b /\ totalNotional (a ++ b) == totalNotional a + totalNotional b.
Proof.
  induction a as [|[[id q] p] a [I1 I2]]; cbn [app]; [unfold totalQty, totalNotional; cbn [foldr]; split; lra|].
  rewrite !totalQty_cons, !totalNotional_cons, I1, I2. split; lra.
Qed.

Lemma fillIDs_app (a b : list (string * D * D)) : fillIDs (a ++ b) = fillIDs a ∪ fillIDs b.
Proof. unfold fillIDs. rewrite map_app. apply list_to_set_app_L. Qed.

(** ** Rounds of prepare and commit on an order *)

(** What the venue reports in one round. *)
Record Round := mkRound {
  rd_status : string; rd_authoritative : string;
  rd_incoming : list OrderFill; rd_inserted : list OrderFill; rd_now : GoTime
}.

Definition runRound (orderID : string) (o : Order) (s : orderFillAverageState D) (r : Round)
    : orderFillAverageState D * option string :=
  let '(s', pd, avg) := Prepare s orderID o (rd_status r) (rd_authoritative r) (rd_incoming r)
                          (rd_inserted r) (rd_now r) in
  (Commit s' pd, avg).

Definition runRounds (orderID : string) (o : Order) (rounds : list Round) (s : orderFillAverageState D)
    : orderFillAverageState D :=
  fold_left (fun s r => fst (runRound orderID o s r)) rounds s.

(** The state of an order whose fills are [l], priced from its own trades. *)
Record Tracks (s : orderFillAverageState D) (l : list (string * D * D)) : Prop := {
  tk_ids : s_seenTradeIDs s = fillIDs l;
  tk_qty : dval (s_fillQty s) == totalQty l;
  tk_notional : dval (s_fillNotional s) == totalNotional l;
  tk_seeded : s_ensured s = true -> s_seededPriced s = false;
  tk_fresh : s_ensured s = false -> l = [] /\ s_averageFinalized s = false
}.

Lemma tracks_empty : Tracks emptyFillState [].
Proof. split; try done; cbn [s_fillQty s_fillNotional emptyFillState]; rewrite dZero_val; reflexivity. Qed.

(** An order that had no average when it was first seen. *)
Definition unpriced (o : Order) : Prop := dIsPositive (parseDecimal (D := D) (o_AveragePrice o)) = false.

Lemma ensure_tracks (s : orderFillAverageState D) (o : Order) (l : list (string * D * D)) :
  unpriced o -> Tracks s l ->
  let s' := ensureLocked s o in
  Tracks s' l /\ s_ensured s' = true /\ s_seededPriced s' = false /\
  s_averageFinalized s' = s_averageFinalized s.
Proof.
  intros Ho [T1 T2 T3 T4 T5]. unfold ensureLocked, unpriced in *. cbv zeta. destruct (s_ensured s) eqn:E.
  - split; [by split; rewrite ?E|]. rewrite E. split_and!; try done. by apply T4.
  - rewrite Ho. destruct (T5 eq_refl) as [-> Hf]. split; [|by cbn].
    split; cbn [s_seenTradeIDs s_fillQty s_fillNotional s_ensured s_seededPriced s_averageFinalized setter];
      try done; rewrite dZero_val; reflexivity.
Qed.

Lemma warn_tracks (s : orderFillAverageState D) (now : GoTime) (l : list (string * D * D)) :
  Tracks s l -> Tracks (warnFillCoverageLocked s now) l /\
  s_averageFinalized (warnFillCoverageLocked s now) = s_averageFinalized s /\
  s_ensured (warnFillCoverageLocked s now) = s_ensured s.
Proof. intros [T1 T2 T3 T4 T5]. unfold warnFillCoverageLocked. case_if; split_and!; try done; by split. Qed.

Lemma commit_tracks (s : orderFillAverageState D) (pd : orderFillAveragePending D)
    (l n : list (string * D * D)) :
  Tracks s l -> s_ensured s = true -> pd_orderID pd <> ""%string -> pd_newTradeIDs pd = fillIDs n ->
  dval (pd_deltaFillQty pd) == totalQty n -> dval (pd_deltaFillNotional pd) == totalNotional n ->
  Tracks (Commit s pd) (l ++ n) /\ s_ensured (Commit s pd) = true /\
  s_averageFinalized (Commit s pd) = s_averageFinalized s || pd_writeAverage pd.
Proof.
  intros [T1 T2 T3 T4 T5] He Hid Hn Hq Hv. unfold Commit.
  rewrite (proj2 (String.eqb_neq _ _) Hid). destruct (totals_app l n) as [A1 A2].
  destruct (pd_writeAverage pd); (split; [split|]);
    cbn [s_seenTradeIDs s_fillQty s_fillNotional s_ensured s_seededPriced s_averageFinalized setter];
    rewrite ?fillIDs_app, ?dAdd_val, ?orb_true_r, ?orb_false_r; try done; try congruence;
    try (by rewrite T1, Hn, (comm_L (∪))); lra.
Qed.

(** One round: the new distinct trades are counted, and the average is written
    exactly when it is due. *)
Lemma runRound_tracks (orderID : string) (o : Order) (s : orderFillAverageState D) (r : Round)
    (l : list (string * D * D)) :
  orderID <> ""%string -> unpriced o -> Tracks s l ->
  let l' := l ++ distinctFills (fillIDs l) (rd_incoming r) in
  let '(s', avg) := runRound orderID o s r in
  Tracks s' l' /\ s_ensured s' = true /\
  s_averageFinalized s' = s_averageFinalized s || bool_decide (is_Some avg) /\
  (forall a, avg = Some a ->
     s_averageFinalized s = false /\ terminalStatus (rd_status r) = true /\ 0 < totalQty l' /\
     totalQty l' == dval (parseDecimal (D := D) (rd_authoritative r)) /\
     exists d, dNewFromString a = Some d /\
       dval d == qround DivisionPrecision (totalNotional l' / totalQty l')).
Proof.
  intros Hid Ho HT l'. unfold runRound, Prepare. cbv zeta.
  destruct (ensure_tracks s o l Ho HT) as (HT1 & He & Hsd & Hf). set (s1 := ensureLocked s o) in *.
  rewrite Hsd.
  set (pd0 := mkPending orderID ∅ dZero dZero _ _ false).
  pose proof (observe_batch s1 (rd_incoming r) pd0) as (O1 & O2 & O3 & O4 & O5 & O6). cbv zeta in *.
  set (pd := fold_left (observeFillLocked s1) (rd_incoming r) pd0) in *.
  assert (s_seenTradeIDs s1 ∪ pd_newTradeIDs pd0 = fillIDs l) as Es.
  { rewrite (tk_ids _ _ HT1). cbn. clear. set_solver. }
  rewrite Es in *. set (n := distinctFills (fillIDs l) (rd_incoming r)) in *.
  cbn [pd0 pd_deltaFillQty pd_deltaFillNotional pd_newTradeIDs pd_orderID pd_writeAverage
    pd_candidateAuthoritativeQty] in O1, O2, O3, O4, O5, O6.
  rewrite dZero_val in O2, O3.
  destruct (totals_app l n) as [A1 A2].
  assert (pd_newTradeIDs pd = fillIDs n) as O1' by (rewrite O1; clear; set_solver).
  assert (dval (pd_deltaFillQty pd) == totalQty n) as O2' by lra.
  assert (dval (pd_deltaFillNotional pd) == totalNotional n) as O3' by lra.
  assert (pd_orderID pd <> ""%string) as O4' by (by rewrite O4).
  match goal with |- context [if ?b then _ else _] => destruct b eqn:Ew end.
  - bool_to_prop. destruct (commit_tracks s1 (pd <| pd_writeAverage := true |>
      <| pd_candidateLastPricedQty := pd_candidateAuthoritativeQty pd |>) l n) as (C1 & C2 & C3); try done.
    split_and!; try done.
    { rewrite C3. cbn. by rewrite !orb_true_r. }
    intros a [= <-]. rewrite Hf in *.
    assert (dval (s_fillQty s1 + pd_deltaFillQty pd)%dec == totalQty l') as Q1.
    { rewrite dAdd_val, (tk_qty _ _ HT1), O2'. unfold l'. by rewrite A1. }
    assert (dval (s_fillNotional s1 + pd_deltaFillNotional pd)%dec == totalNotional l') as Q2.
    { rewrite dAdd_val, (tk_notional _ _ HT1), O3'. unfold l'. by rewrite A2. }
    destruct (dIsPositive_reflect (s_fillQty s1 + pd_deltaFillQty pd)%dec) as [Hp|]; [|done].
    destruct (dEqual_reflect (s_fillQty s1 + pd_deltaFillQty pd)%dec (pd_candidateAuthoritativeQty pd)) as [He'|];
      [|done].
    rewrite Q1 in Hp, He'. rewrite O6 in He'. split_and!; try done.
    destruct (dNewFromString_String
      ((s_fillNotional s1 + pd_deltaFillNotional pd) / (s_fillQty s1 + pd_deltaFillQty pd))%dec) as (d & -> & Hd).
    exists d. split; [done|]. rewrite Hd, dDiv_val by (rewrite Q1; lra). by rewrite Q1, Q2.
  - match goal with |- context [Commit ?s2 pd] => set (s2' := s2) end.
    assert (Tracks s2' l /\ s_ensured s2' = true /\ s_averageFinalized s2' = s_averageFinalized s1)
      as (W1 & W2 & W3).
    { unfold s2'. case_if; [|done]. destruct (warn_tracks s1 (rd_now r) l HT1) as (? & ? & ?).
      split_and!; try done. congruence. }
    destruct (commit_tracks s2' pd l n) as (C1 & C2 & C3); try done. split_and!; try done.
    rewrite C3, W3, Hf, O5. done.
Qed.

Lemma runRounds_tracks (orderID : string) (o : Order) (rounds : list Round) :
  orderID <> ""%string -> unpriced o ->
  Tracks (runRounds orderID o rounds emptyFillState)
    (distinctFills ∅ (concat (map rd_incoming rounds))).
Proof.
  intros Hid Ho. induction rounds as [|r rounds IH] using rev_ind; [apply tracks_empty|].
  unfold runRounds in *. rewrite fold_left_app. cbn [fold_left].
  pose proof (runRound_tracks orderID o _ r _ Hid Ho IH) as H. cbv zeta in H.
  destruct (runRound orderID o _ r) as [s' avg]. destruct H as [H _]. cbn [fst].
  rewrite map_app, concat_app, distinctFills_app. cbn [map concat]. rewrite app_nil_r.
  by rewrite (right_id_L ∅ (∪)).
Qed.

(** Every trade is counted exactly once: however the fills of an order are
    split into reports and repeated, the quantity and the notional accumulated
    are those of the first valid report of each trade. *)
Theorem fills_counted_once (orderID : string) (o : Order) (rounds : list Round) :
  orderID <> ""%string -> unpriced o ->
  let s := runRounds orderID o rounds emptyFillState in
  let l := distinctFills ∅ (concat (map rd_incoming rounds)) in
  NoDup (map (fun '(id, _, _) => id) l) /\
  dval (s_fillQty s) == totalQty l /\ dval (s_fillNotional s) == totalNotional l /\
  (forall again : list OrderFill, (forall f, f ∈ again -> f ∈ concat (map rd_incoming rounds)) ->
     distinctFills (D := D) (s_seenTradeIDs s) again = []).
Proof.
  intros Hid Ho s l. destruct (runRounds_tracks orderID o rounds Hid Ho) as [T1 T2 T3 _ _].
  split_and!; try done.
  - apply distinctFills_NoDup.
  - intros again Hsub. subst s. rewrite T1. by apply distinctFills_again.
Qed.

(** Once written, an average stays final. *)
Lemma finalized_stays (orderID : string) (o : Order) (later : list Round) (s : orderFillAverageState D)
    (l : list (string * D * D)) :
  orderID <> ""%string -> unpriced o -> Tracks s l -> s_averageFinalized s = true ->
  s_averageFinalized (runRounds orderID o later s) = true /\
  exists l2, Tracks (runRounds orderID o later s) l2.
Proof.
  intros Hid Ho HT Hf. induction later as [|q later [I1 (l2 & I2)]] using rev_ind; [split; [done|by eexists]|].
  unfold runRounds in *. rewrite fold_left_app. cbn [fold_left].
  pose proof (runRound_tracks orderID o _ q _ Hid Ho I2) as H. cbv zeta in H.
  destruct (runRound orderID o _ q) as [s2 avg]. destruct H as (H & _ & Hfin & _). cbn [fst].
  split; [by rewrite Hfin, I1|by eexists].
Qed.

(** An average is written for an order at most once, and only when the
    fills account for exactly the quantity the venue reports for a terminal
    order; it is then the volume-weighted price of the distinct trades. *)
Theorem average_written_once (orderID : string) (o : Order) (rounds : list Round) (r : Round)
    (s' : orderFillAverageState D) (a : string) :
  orderID <> ""%string -> unpriced o ->
  runRound orderID o (runRounds orderID o rounds emptyFillState) r = (s', Some a) ->
  let l := distinctFills ∅ (concat (map rd_incoming (rounds ++ [r]))) in
  terminalStatus (rd_status r) = true /\ 0 < totalQty l /\
  totalQty l == dval (parseDecimal (D := D) (rd_authoritative r)) /\
  (exists d, dNewFromString a = Some d /\
     dval d == qround DivisionPrecision (totalNotional l / totalQty l)) /\
  (forall later r', snd (runRound orderID o (runRounds orderID o later s') r') = None).
Proof.
  intros Hid Ho E l.
  pose proof (runRounds_tracks orderID o rounds Hid Ho) as HT.
  pose proof (runRound_tracks orderID o _ r _ Hid Ho HT) as H. cbv zeta in H. rewrite E in H.
  destruct H as (HT' & He & Hf & Ha). destruct (Ha a eq_refl) as (_ & H1 & H2 & H3 & H4).
  assert (l = distinctFills ∅ (concat (map rd_incoming rounds)) ++
    distinctFills (fillIDs (distinctFills (D := D) ∅ (concat (map rd_incoming rounds)))) (rd_incoming r)) as El.
  { unfold l. rewrite map_app, concat_app, distinctFills_app. cbn [map concat]. rewrite app_nil_r.
    by rewrite (right_id_L ∅ (∪)). }
  rewrite El. split_and!; try done.
  intros later r'.
  assert (s_averageFinalized s' = true) as Hf'.
  { rewrite Hf. apply orb_true_r. }
  assert (s_averageFinalized (runRounds orderID o later s') = true /\
    exists l2, Tracks (runRounds orderID o later s') l2) as [Hl (l2 & HT2)].
  { by apply (finalized_stays orderID o later s' _ Hid Ho HT'). }
  pose proof (runRound_tracks orderID o _ r' _ Hid Ho HT2) as H. cbv zeta in H.
  destruct (runRound orderID o _ r') as [s2 [a'|]]; [|done].
  destruct H as (_ & _ & _ & Ha'). destruct (Ha' a' eq_refl) as (Hc & _). congruence.
Qed.
End FillAverageFacts.

(** ** Sharing

    Every holder of a handle works on the state the map has for its order:
    two reports of the same order never accumulate in different states. *)

Section Sharing.
Context {D : Type} `{!Decimal D}.

Definition handlesOf (hs : list orderFillAverageHandle) (a : nat) : nat :=
  length (filter (fun h => h_state h = a) hs).

(** Tracker and outstanding handles. *)
Inductive TrackerStep :
    orderFillAverageTracker D * list orderFillAverageHandle ->
    orderFillAverageTracker D * list orderFillAverageHandle -> Prop :=
| StepTake t hs orderID scan now h t' :
    Acquire t orderID scan now = (h, t') -> TrackerStep (t, hs) (t', h :: hs)
| StepGive t hs i h markTerminal expiresAt now :
    hs !! i = Some h -> TrackerStep (t, hs) (Release t h markTerminal expiresAt now, delete i hs)
| StepWork t hs h f :
    h ∈ hs -> (forall s, s_refs (f s) = s_refs s) -> TrackerStep (t, hs) (updateState t h f, hs).

Record TrackerInv (t : orderFillAverageTracker D) (hs : list orderFillAverageHandle) : Prop := {
  ti_shared : forall h, h ∈ hs -> tr_byID t !! h_orderID h = Some (h_state h);
  ti_refs : forall a s, tr_heap t !! a = Some s -> Z.of_nat (handlesOf hs a) <= s_refs s;
  ti_byID : forall id a, tr_byID t !! id = Some a -> is_Some (tr_heap t !! a);
  ti_heap : forall a, is_Some (tr_heap t !! a) -> (a < tr_next t)%nat
}.

Lemma handlesOf_elem (hs : list orderFillAverageHandle) (h : orderFillAverageHandle) :
  h ∈ hs -> (0 < handlesOf hs (h_state h))%nat.
Proof.
  intros H. unfold handlesOf. destruct (filter _ hs) as [|x l] eqn:E; cbn; [|lia].
  assert (h ∈ filter (fun h' => h_state h' = h_state h) hs) as Hin by (by apply list_elem_of_filter).
  rewrite E in Hin. by apply elem_of_nil in Hin.
Qed.

Lemma handlesOf_delete (hs : list orderFillAverageHandle) (i : nat) (h : orderFillAverageHandle) (a : nat) :
  hs !! i = Some h -> handlesOf hs a = ((if decide (h_state h = a) then 1 else 0) + handlesOf (delete i hs) a)%nat.
Proof.
  unfold handlesOf. revert i. induction hs as [|x hs IH]; intros [|i] H; try done; cbn in H.
  - injection H as ->. change (delete 0%nat (h :: hs)) with hs. rewrite filter_cons. case_decide; cbn; lia.
  - change (delete (S i) (x :: hs)) with (x :: delete i hs). rewrite !filter_cons. specialize (IH i H).
    destruct (decide (h_state x = a)); cbn [length]; lia.
Qed.

(** A pruned state has no holder. *)
Lemma canPrune_refs (t : orderFillAverageTracker D) (id : string) (a : nat) (now : GoTime) :
  canPruneLocked t id (Some a) now = true ->
  tr_byID t !! id = Some a /\ exists s, tr_heap t !! a = Some s /\ s_refs s = 0.
Proof.
  unfold canPruneLocked. destruct (tr_heap t !! a) as [s|]; [|done].
  destruct (negb (s_terminal s) || _ || _) eqn:E; [done|]. case_if; [done|].
  intros H. apply bool_decide_eq_true in H. bool_to_prop. split; [done|by exists s].
Qed.

Lemma prune_inv (t : orderFillAverageTracker D) (hs : list orderFillAverageHandle) (id : string) (a : nat) now :
  TrackerInv t hs -> canPruneLocked t id (Some a) now = true ->
  TrackerInv (mkTracker (delete id (tr_byID t)) (tr_heap t) (tr_next t)) hs.
Proof.
  intros [I1 I2 I3 I4] H. apply canPrune_refs in H as (Hid & s & Hs & Hr).
  split; cbn [tr_byID tr_heap tr_next]; try done.
  - intros h Hh. rewrite lookup_delete_ne; [by apply I1|]. intros ->.
    specialize (I1 h Hh). rewrite Hid in I1. injection I1 as ->.
    pose proof (handlesOf_elem hs h Hh). specialize (I2 _ _ Hs). lia.
  - intros id' a' Ha'. apply lookup_delete_Some in Ha' as [_ Ha']. by apply (I3 id').
Qed.

Lemma pruneOne_inv t hs id now : TrackerInv t hs -> TrackerInv (pruneOne t id now) hs.
Proof.
  intros H. unfold pruneOne. destruct (tr_byID t !! id) as [a|] eqn:E; [|done].
  destruct (canPruneLocked t id (Some a) now) eqn:Ec; [|done]. by apply (prune_inv t hs id a now).
Qed.

Lemma pruneLocked_inv t hs id scan now : TrackerInv t hs -> TrackerInv (pruneLocked t id scan now) hs.
Proof.
  intros H. unfold pruneLocked; cbv zeta. generalize (firstn orderFillAveragePruneScan
    (List.filter (fun id' => negb (id' =?s id)) scan)). intros l.
  assert (TrackerInv (pruneOne t id now) hs) as H' by (by apply pruneOne_inv).
  revert H'. generalize (pruneOne t id now). induction l as [|x l IH]; intros t' H'; [done|].
  cbn [fold_left]. apply IH. by apply pruneOne_inv.
Qed.

Lemma acquire_inv t hs orderID scan now h t' :
  TrackerInv t hs -> Acquire t orderID scan now = (h, t') -> TrackerInv t' (h :: hs).
Proof.
  intros HI. unfold Acquire; cbv zeta. set (id := TrimSpace orderID).
  pose proof (pruneLocked_inv t hs id scan now HI) as HP.
  generalize dependent (pruneLocked t id scan now). clear HI t. intros t HP.
  assert (exists a t1, (match tr_byID t !! id with
    | Some a => (a, t)
    | None => (tr_next t, mkTracker (<[id := tr_next t]> (tr_byID t))
        (<[tr_next t := emptyFillState]> (tr_heap t)) (S (tr_next t)))
    end) = (a, t1) /\ TrackerInv t1 hs /\ tr_byID t1 !! id = Some a) as (a & t1 & -> & [I1 I2 I3 I4] & Ha).
  { destruct (tr_byID t !! id) as [a|] eqn:E; [by exists a, t|].
    do 2 eexists. split; [reflexivity|]. destruct HP as [I1 I2 I3 I4]. cbn [tr_byID].
    split; [|apply lookup_insert_eq].
    assert (tr_heap t !! tr_next t = None) as Hn.
    { destruct (tr_heap t !! tr_next t) eqn:Eh; [|done]. specialize (I4 (tr_next t) ltac:(by eexists)). lia. }
    split; cbn [tr_byID tr_heap tr_next].
    - intros h' Hh'. rewrite lookup_insert_ne; [by apply I1|]. intros ->. rewrite I1 in E; done.
    - intros a s Hs. apply lookup_insert_Some in Hs as [[<- <-]|[? Hs]]; [|by apply I2].
      cbn. destruct (handlesOf hs (tr_next t)) eqn:Eh; [lia|]. exfalso.
      unfold handlesOf in Eh. destruct (filter _ hs) as [|x l] eqn:Ef; [done|].
      assert (x ∈ filter (fun h' => h_state h' = tr_next t) hs) as Hx by (rewrite Ef; left).
      apply list_elem_of_filter in Hx as [Hx1 Hx2]. apply I1 in Hx2. apply I3 in Hx2.
      rewrite Hx1, Hn in Hx2. by destruct Hx2.
    - intros id' a' H'. apply lookup_insert_Some in H' as [[<- <-]|[? H']].
      + rewrite lookup_insert_eq. by eexists.
      + apply I3 in H'. destruct H' as [s Hs]. exists s. rewrite lookup_insert_ne; [done|]. intros <-.
        by rewrite Hn in Hs.
    - intros a' H'. destruct (decide (a' = tr_next t)) as [->|Hne]; [lia|].
      rewrite lookup_insert_ne in H' by done. apply I4 in H'. lia. }
  intros [= <- <-]. split; cbn [tr_byID tr_heap tr_next].
  - intros h' [->|Hh']%elem_of_cons; [done|by apply I1].
  - intros a' s Hs. unfold handlesOf. rewrite filter_cons. cbn [h_state].
    destruct (decide (a = a')) as [<-|Hne].
    + rewrite lookup_alter_eq in Hs. destruct (tr_heap t1 !! a) as [s0|] eqn:E0; [|done].
      injection Hs as <-. specialize (I2 _ _ E0). unfold handlesOf in I2. cbn. lia.
    + rewrite lookup_alter_ne in Hs by done. by apply I2.
  - intros id' a' H'. apply I3 in H'. rewrite lookup_alter_is_Some. done.
  - intros a' H'. rewrite lookup_alter_is_Some in H'. by apply I4.
Qed.

Lemma release_inv t hs i h markTerminal expiresAt now :
  TrackerInv t hs -> hs !! i = Some h ->
  TrackerInv (Release t h markTerminal expiresAt now) (delete i hs).
Proof.
  intros [I1 I2 I3 I4] Hi.
  assert (h ∈ hs) as Hh by (by eapply list_elem_of_lookup_2).
  assert (forall h', h' ∈ delete i hs -> h' ∈ hs) as Hsub.
  { intros h' H'. by apply (list_subseteq_delete i hs). }
  destruct (I3 _ _ (I1 h Hh)) as [s Hs]. unfold Release. rewrite Hs.
  destruct (h_orderID h =?s "").
  { split; try done; [by intros h' H'; apply I1, Hsub|]. intros a s' Hs'. specialize (I2 _ _ Hs').
    rewrite (handlesOf_delete hs i h a Hi) in I2. lia. }
  pose proof (handlesOf_elem hs h Hh) as Hpos. pose proof (I2 _ _ Hs) as Hr.
  set (s1 := if (0 <? s_refs s)%Z then s <| s_refs := (s_refs s - 1)%Z |> else s).
  assert (s_refs s1 = s_refs s - 1) as E1.
  { unfold s1. destruct (Z.ltb_spec 0 (s_refs s)); [done|lia]. }
  set (s2 := if markTerminal then s1 <| s_terminal := true |> <| s_expiresAt := expiresAt |> else s1).
  assert (s_refs s2 = s_refs s - 1) as E2 by (unfold s2; by destruct markTerminal).
  cbv zeta. set (t1 := mkTracker (tr_byID t) (<[h_state h := s2]> (tr_heap t)) (tr_next t)).
  assert (TrackerInv t1 (delete i hs)) as HI.
  { split; unfold t1; cbn [tr_byID tr_heap tr_next].
    - intros h' H'. by apply I1, Hsub.
    - intros a s' H'. apply lookup_insert_Some in H' as [[<- <-]|[Hne H']].
      + rewrite (handlesOf_delete hs i h (h_state h) Hi), decide_True in Hr by done. lia.
      + specialize (I2 _ _ H'). rewrite (handlesOf_delete hs i h a Hi) in I2. lia.
    - intros id a H'. apply I3 in H'. rewrite lookup_insert_is_Some.
      destruct (decide (h_state h = a)); [by left|by right].
    - intros a H'. rewrite lookup_insert_is_Some in H'. destruct H' as [<-|[_ H']]; [|by apply I4].
      apply I4. by eexists. }
  destruct (canPruneLocked t1 (h_orderID h) (Some (h_state h)) now) eqn:Ec; [|done].
  by apply (prune_inv t1 _ _ (h_state h) now).
Qed.

Lemma update_inv t hs h f :
  TrackerInv t hs -> (forall s, s_refs (f s) = s_refs s) -> TrackerInv (updateState t h f) hs.
Proof.
  intros [I1 I2 I3 I4] Hf. unfold updateState. split; cbn [tr_byID tr_heap tr_next]; try done.
  - intros a s Hs. destruct (decide (h_state h = a)) as [<-|Hne].
    + rewrite lookup_alter_eq in Hs. destruct (tr_heap t !! h_state h) eqn:E; [|done].
      injection Hs as <-. rewrite Hf. by apply I2.
    + rewrite lookup_alter_ne in Hs by done. by apply I2.
  - intros id a H'. rewrite lookup_alter_is_Some. by apply (I3 id).
  - intros a H'. rewrite lookup_alter_is_Some in H'. by apply I4.
Qed.

(** However acquisitions, releases, expiry and commits interleave, every
    outstanding handle refers to the state the tracker has for its order, so
    that two holders of one order always share one state; pruning never drops
    a state that is in use. *)
Theorem handles_share_state (t : orderFillAverageTracker D) (hs : list orderFillAverageHandle)
    (h1 h2 : orderFillAverageHandle) :
  rtc TrackerStep (newOrderFillAverageTracker, []) (t, hs) ->
  h1 ∈ hs -> h2 ∈ hs -> h_orderID h1 = h_orderID h2 ->
  h_state h1 = h_state h2 /\ tr_byID t !! h_orderID h1 = Some (h_state h1) /\
  exists s, tr_heap t !! h_state h1 = Some s /\ 0 < s_refs s.
Proof.
  intros Hr H1 H2 E.
  assert (forall x y, rtc TrackerStep x y -> TrackerInv x.1 x.2 -> TrackerInv y.1 y.2) as Hpres.
  { intros x y H. induction H as [|x y z Hs _ IH]; [done|]. intros HI. apply IH. clear IH.
    destruct Hs as [? ? ? ? ? ? ? Ha|? ? ? ? ? ? ? Hi|? ? ? ? _ Hf]; cbn [fst snd] in *.
    - by eapply acquire_inv.
    - by apply release_inv.
    - by apply update_inv. }
  apply Hpres in Hr; [|split; cbn; try done; [intros ? Hn; by apply elem_of_nil in Hn|by intros ? [? ?]]].
  destruct Hr as [I1 I2 I3 I4]. cbn [fst snd] in *.
  pose proof (I1 h1 H1) as L1. pose proof (I1 h2 H2) as L2. rewrite E in L1. rewrite L1 in L2.
  injection L2 as L2. rewrite E. split_and!; try done.
  destruct (I3 _ _ L1) as [s Hs]. exists s. split; [done|].
  pose proof (handlesOf_elem hs h1 H1). specialize (I2 _ _ Hs). lia.
Qed.
End Sharing.

(** ** Concrete instances of the theorems *)

Section FillAverageWitnesses.
Local Open Scope Q_scope.

Definition fillA : OrderFill := zero_OrderFill <| of_TradeID := "t1" |> <| of_Quantity := "1" |> <| of_Price := "100" |>.
Definition fillB : OrderFill := zero_OrderFill <| of_TradeID := "t2" |> <| of_Quantity := "3" |> <| of_Price := "104" |>.

(** The first trade is reported twice; the order ends filled with 4. *)
Definition firstRound : Round := mkRound "partially_filled" "1" [fillA; fillA] [] 0%Z.
Definition lastRound : Round := mkRound "filled" "4" [fillA; fillB] [] 0%Z.

Lemma fills_counted_once_witness :
  let s := runRounds (D := Dec) "o" zero_Order [firstRound; lastRound] emptyFillState in
  dval (s_fillQty s) == 4 /\
  dval (s_fillQty s) == totalQty (D := Dec)
    (distinctFills ∅ (concat (map rd_incoming [firstRound; lastRound]))).
Proof.
  split; [vm_compute; reflexivity|].
  pose proof (fills_counted_once (D := Dec) "o" zero_Order [firstRound; lastRound]) as H.
  specialize (H ltac:(discriminate) ltac:(vm_compute; reflexivity)). exact (proj1 (proj2 H)).
Defined.

Lemma average_written_once_witness :
  exists s', runRound (D := Dec) "o" zero_Order
      (runRounds "o" zero_Order [firstRound] emptyFillState) lastRound = (s', Some "103"%string) /\
    forall later r', snd (runRound (D := Dec) "o" zero_Order (runRounds "o" zero_Order later s') r') = None.
Proof.
  destruct (runRound (D := Dec) "o" zero_Order (runRounds "o" zero_Order [firstRound] emptyFillState)
    lastRound) as [s' avg] eqn:E.
  assert (avg = Some "103"%string) as Ha by (apply (f_equal snd) in E; cbn [snd] in E; rewrite <- E; vm_compute; reflexivity).
  subst avg. exists s'. split; [reflexivity|].
  pose proof (average_written_once (D := Dec) "o" zero_Order [firstRound] lastRound s' "103"
    ltac:(discriminate) ltac:(vm_compute; reflexivity) E) as H.
  exact (proj2 (proj2 (proj2 (proj2 H)))).
Defined.

(** Two holders of one order. *)
Lemma handles_share_state_witness :
  exists t hs, rtc (TrackerStep (D := Dec)) (newOrderFillAverageTracker, []) (t, hs) /\
    length hs = 2%nat /\ forall h1 h2, h1 ∈ hs -> h2 ∈ hs -> h_orderID h1 = h_orderID h2 ->
      h_state h1 = h_state h2.
Proof.
  eexists; eexists. split.
  - eapply rtc_l; [eapply (StepTake _ _ "o" [] 0%Z); reflexivity|].
    eapply rtc_l; [eapply (StepTake _ _ " o" [] 0%Z); reflexivity|]. apply rtc_refl.
  - split; [reflexivity|]. intros h1 h2 H1 H2 E.
    eapply (handles_share_state (D := Dec)); [|exact H1|exact H2|exact E].
    eapply rtc_l; [eapply (StepTake _ _ "o" [] 0%Z); reflexivity|].
    eapply rtc_l; [eapply (StepTake _ _ " o" [] 0%Z); reflexivity|]. apply rtc_refl.
Defined.
End FillAverageWitnesses.
