(* ===== verification/OrderStream.v ===== *)
(** * Private order streams (orderstream/types.go, manager.go, recent_fill_average.go)

    One private stream per account and venue carries the reports of orders and
    trades.  This file has the data of the package and what is done to one
    report: the normal form of a key, the reducer that drops the duplicate and
    regressing reports of the decentralised venues, and the cache of recent
    average prices.  The manager that shares the streams is StreamManager. *)
From Stdlib Require Import ZArith QArith Lqa String Ascii.
From stdpp Require Import base strings list gmap sorting.
From S2P Require Import Prelude Decimal DecimalRef Types Quantity.

#[local] Set Warnings "-clear-no-such-hyp".

(** ** Keys and credentials *)

(** [orderstream.Key]: one private stream of an account. *)
Record StreamKey := mkStreamKey { sk_Account : string; sk_Venue : string; sk_Product : string }.
#[export] Instance StreamKey_eq_dec : EqDecision StreamKey.
Proof. solve_decision. Defined.
#[export] Instance StreamKey_countable : Countable StreamKey.
Proof.
  refine (inj_countable' (fun k => (sk_Account k, sk_Venue k, sk_Product k))
    (fun '(a, v, p) => mkStreamKey a v p) _). by intros [].
Defined.

(** The errors of the package. *)
Inductive StreamError :=
| ErrClosed
| ErrUnsupportedKey (what : string)
| ErrNoSession
| ErrCredentialMismatch
| ErrStreamCredentials (what : string)
| ErrClientOrderIDRequired.

Definition streamVenues : list string :=
  ["binance"; "okx"; "bybit"; "bitget"; "gate"; "hyperliquid"; "lighter"; "aster"]%string.
Definition streamProducts : list string := ["spot"; "perpetual"]%string.
(** The venues whose private streams are account-wide. *)
Definition unifiedVenues : list string := ["binance"; "okx"; "bybit"; "bitget"]%string.

Definition normalized (k : StreamKey) : StreamKey + StreamError :=
  let account := TrimSpace (sk_Account k) in
  let venue := ToLower (TrimSpace (sk_Venue k)) in
  let product := ToLower (TrimSpace (sk_Product k)) in
  if account =?s "" then inr (ErrUnsupportedKey "empty account")
  else if negb (bool_decide (venue ∈ streamVenues)) then inr (ErrUnsupportedKey ("venue " ++ quoted venue))
  else if negb (bool_decide (product ∈ streamProducts)) then inr (ErrUnsupportedKey ("product " ++ quoted product))
  else inl (mkStreamKey account venue (if bool_decide (venue ∈ unifiedVenues) then "perpetual" else product)).

(** [orderstream.Credentials] *)
Record StreamCredentials := mkStreamCredentials {
  sc_APIKey : string;
  sc_Secret : string;
  sc_Passphrase : string;
  sc_CredentialKind : string;
  sc_SigningAddress : string;
  sc_VaultAddress : string;
  sc_AccountIndex : option Z;
  sc_APIKeyIndex : option Z;
  sc_AuthToken : string
}.

Definition blank (s : string) : bool := TrimSpace s =?s "".

Definition validateCredentials (c : StreamCredentials) (venue : string) : option StreamError :=
  if venue =?s "hyperliquid" then
    if blank (sc_Secret c) || blank (sc_SigningAddress c)
    then Some (ErrStreamCredentials "Hyperliquid order stream requires agent key and signing address") else None
  else if venue =?s "lighter" then
    let valid := match sc_AccountIndex c, sc_APIKeyIndex c with
                 | Some account, Some key => negb (account <? 0) && negb (key <? 0) && negb (255 <? key)
                 | _, _ => false
                 end in
    if blank (sc_Secret c) || negb valid
    then Some (ErrStreamCredentials "Lighter order stream requires API private key and valid indexes") else None
  else if blank (sc_Secret c) || blank (sc_APIKey c)
  then Some (ErrStreamCredentials "order stream credentials require API key and secret") else None.

Definition optionalIntEqual (left right : option Z) : bool :=
  match left, right with
  | None, None => true
  | Some l, Some r => l =? r
  | _, _ => false
  end.

Definition credentialsEqual (left right : StreamCredentials) : bool :=
  (sc_APIKey left =?s sc_APIKey right) && (sc_Secret left =?s sc_Secret right) &&
  (sc_Passphrase left =?s sc_Passphrase right) && (sc_CredentialKind left =?s sc_CredentialKind right) &&
  (sc_SigningAddress left =?s sc_SigningAddress right) && (sc_VaultAddress left =?s sc_VaultAddress right) &&
  optionalIntEqual (sc_AccountIndex left) (sc_AccountIndex right) &&
  optionalIntEqual (sc_APIKeyIndex left) (sc_APIKeyIndex right) && (sc_AuthToken left =?s sc_AuthToken right).

(** ** Reports *)

Inductive UpdateType := UpdateOrder | UpdateTrade | UpdateConnection.
#[export] Instance UpdateType_eq_dec : EqDecision UpdateType.
Proof. solve_decision. Defined.

(** [orderstream.Update] *)
Record Update := mkUpdate {
  ou_Type : UpdateType;
  ou_Account : string;
  ou_Venue : string;
  ou_Product : string;
  ou_ClientOrderID : string;
  ou_VenueOrderID : string;
  ou_Status : string;
  ou_CumulativeFilled : string;
  ou_AveragePrice : string;
  ou_LastFilled : string;
  ou_LastPrice : string;
  ou_TradeID : string;
  ou_ErrorCode : string;
  ou_ErrorMessage : string;
  ou_EventTime : GoTime;
  ou_Sequence : Z;
  ou_Error : string;
  ou_FeeAmount : string;
  ou_FeeCurrency : string;
  ou_LiquidityRole : string
}.
#[export] Instance eta_Update : Eta Update := fun u =>
  mkUpdate (ou_Type u) (ou_Account u) (ou_Venue u) (ou_Product u) (ou_ClientOrderID u) (ou_VenueOrderID u) (ou_Status u)
    (ou_CumulativeFilled u) (ou_AveragePrice u) (ou_LastFilled u) (ou_LastPrice u) (ou_TradeID u) (ou_ErrorCode u)
    (ou_ErrorMessage u) (ou_EventTime u) (ou_Sequence u) (ou_Error u) (ou_FeeAmount u) (ou_FeeCurrency u) (ou_LiquidityRole u).

(** The zero value [Update{}]; its type is the empty string, which no report
    has, and which the reducer compares with those of reports only: the type of
    a report is never the zero type, so any type but those of reports would do
    and connection stands for it. *)
Definition zero_Update : Update :=
  mkUpdate UpdateConnection "" "" "" "" "" "" "" "" "" "" "" "" "" zeroTime 0 "" "" "" "".

Definition baseUpdate (type : UpdateType) (key : StreamKey) (received : GoTime) : Update :=
  mkUpdate type (sk_Account key) (sk_Venue key) (sk_Product key) "" "" "unknown" "" "" "" "" "" "" "" received 0 "" "" "" "".

Definition isDEXVenue (venue : string) : bool := (venue =?s "aster") || (venue =?s "hyperliquid") || (venue =?s "lighter").

Definition isTerminalStreamStatus (status : string) : bool :=
  (status =?s "filled") || (status =?s "canceled") || (status =?s "rejected") || (status =?s "expired").

Definition terminalStreamRank (status : string) : Z :=
  if status =?s "filled" then 2 else if isTerminalStreamStatus status then 1 else 0.

Definition sameDEXUpdate (left right : Update) : bool :=
  bool_decide (ou_Type left = ou_Type right) &&
  (ou_ClientOrderID left =?s ou_ClientOrderID right) && (ou_VenueOrderID left =?s ou_VenueOrderID right) &&
  (ou_Status left =?s ou_Status right) && (ou_CumulativeFilled left =?s ou_CumulativeFilled right) &&
  (ou_LastFilled left =?s ou_LastFilled right) && (ou_TradeID left =?s ou_TradeID right) &&
  (ou_ErrorCode left =?s ou_ErrorCode right) && (ou_ErrorMessage left =?s ou_ErrorMessage right).

(** ** The reducer *)

(** [orderState] and [tradeIDs] of a session. *)
Record DEXState := mkDEXState { dx_orderState : gmap string Update; dx_tradeIDs : gset string }.
#[export] Instance eta_DEXState : Eta DEXState := fun d => mkDEXState (dx_orderState d) (dx_tradeIDs d).

Definition NUL : string := String "000" "".
Definition clientEntry (id : string) : string := ("client:" ++ id)%string.
Definition venueEntry (id : string) : string := ("venue:" ++ id)%string.
Definition tradeKey (u : Update) : string := (ou_VenueOrderID u ++ NUL ++ ou_TradeID u)%string.

Definition dexPreviousUpdate (states : gmap string Update) (u : Update) : option Update :=
  match (if ou_ClientOrderID u =?s "" then None else states !! clientEntry (ou_ClientOrderID u)) with
  | Some previous => Some previous
  | None => if ou_VenueOrderID u =?s "" then None else states !! venueEntry (ou_VenueOrderID u)
  end.

Section Reducer.
Context {D : Type} `{!Decimal D}.
Local Open Scope dec_scope.

(** A trade is reported once. *)
Definition admitTrade (d : DEXState) (u : Update) : option DEXState :=
  if bool_decide (ou_Type u = UpdateTrade) && negb (ou_TradeID u =?s "") then
    if bool_decide (tradeKey u ∈ dx_tradeIDs d) then None
    else Some (d <| dx_tradeIDs := {[tradeKey u]} ∪ dx_tradeIDs d |>)
  else Some d.

(** The identifiers a report does not carry are those of the previous one. *)
Definition completeIDs (previous : option Update) (u : Update) : Update :=
  match previous with
  | None => u
  | Some p =>
      let u := if ou_ClientOrderID u =?s "" then u <| ou_ClientOrderID := ou_ClientOrderID p |> else u in
      if ou_VenueOrderID u =?s "" then u <| ou_VenueOrderID := ou_VenueOrderID p |> else u
  end.

(** A Hyperliquid fill whose client order is known under another venue order. *)
Definition venueOrderMismatch (venue : string) (states : gmap string Update) (previous : option Update) (u : Update) : bool :=
  match previous with
  | None => false
  | Some _ =>
      if (venue =?s "hyperliquid") && bool_decide (ou_Type u = UpdateTrade) &&
         negb (ou_ClientOrderID u =?s "") && negb (ou_VenueOrderID u =?s "")
      then match states !! clientEntry (ou_ClientOrderID u), states !! venueEntry (ou_VenueOrderID u) with
           | Some c, Some v => negb (ou_VenueOrderID c =?s "") && negb (ou_VenueOrderID v =?s "") &&
                               negb (ou_VenueOrderID c =?s ou_VenueOrderID v)
           | _, _ => false
           end
      else false
  end.

(** The cumulative quantity of an order report never falls below the known one. *)
Definition keepCumulative (p u : Update) : Update :=
  if bool_decide (ou_Type u = UpdateOrder) && negb (ou_CumulativeFilled p =?s "") &&
     ((ou_CumulativeFilled u =?s "") ||
      dLessThan (parseDecimal (D := D) (ou_CumulativeFilled u)) (parseDecimal (ou_CumulativeFilled p)))
  then u <| ou_CumulativeFilled := ou_CumulativeFilled p |> else u.

(** Whether [u], with its cumulative quantity kept, is news after [p]. *)
Definition admitAfter (p u : Update) : bool :=
  let regress := negb (isTerminalStreamStatus (ou_Status u)) ||
                 (terminalStreamRank (ou_Status u) <=? terminalStreamRank (ou_Status p))%Z in
  let noFill := negb (bool_decide (ou_Type u = UpdateTrade)) || (ou_CumulativeFilled u =?s "") ||
                dLessThanOrEqual (parseDecimal (D := D) (ou_CumulativeFilled u)) (parseDecimal (ou_CumulativeFilled p)) in
  if isTerminalStreamStatus (ou_Status p) && regress && noFill then false
  else if (0 <? ou_Sequence u)%Z && (0 <? ou_Sequence p)%Z && (ou_Sequence u <? ou_Sequence p)%Z &&
          negb (isTerminalStreamStatus (ou_Status u)) then false
  else negb (sameDEXUpdate p u).

(** Where the report is remembered. *)
Definition rememberUpdate (u : Update) (states : gmap string Update) : gmap string Update :=
  let states := if ou_ClientOrderID u =?s "" then states else <[clientEntry (ou_ClientOrderID u) := u]> states in
  if ou_VenueOrderID u =?s "" then states else <[venueEntry (ou_VenueOrderID u) := u]> states.

(** [reduceDEXUpdateLocked]: the state after, and the report to publish. *)
Definition reduceDEXUpdateLocked (venue : string) (d : DEXState) (u : Update) : DEXState * option Update :=
  if negb (isDEXVenue venue) || bool_decide (ou_Type u = UpdateConnection) then (d, Some u)
  else match admitTrade d u with
  | None => (d, None)
  | Some d =>
      let previous := dexPreviousUpdate (dx_orderState d) u in
      let u := completeIDs previous u in
      if venueOrderMismatch venue (dx_orderState d) previous u then (d, None)
      else if (venue =?s "hyperliquid") && bool_decide (ou_Type u = UpdateTrade) && (ou_ClientOrderID u =?s "") then (d, None)
      else
        let u := match previous with Some p => keepCumulative p u | None => u end in
        let admitted := match previous with Some p => admitAfter p u | None => true end in
        if admitted then (d <| dx_orderState := rememberUpdate u (dx_orderState d) |>, Some u) else (d, None)
  end.
End Reducer.

(** ** Recent average prices *)

Definition recentFillAverageTTL : Duration := 20 * Minute.
Definition recentFillAverageExpireScanLimit : nat := 32.

Record RecentFillAverage := mkRecentFill {
  rf_Key : StreamKey;
  rf_ClientOrderID : string;
  rf_VenueOrderID : string;
  rf_Status : string;
  rf_CumulativeFilled : string;
  rf_AveragePrice : string;
  rf_EventTime : GoTime;
  rf_Sequence : Z;
  rf_ExpiresAt : GoTime
}.

(** The nodes by address; both indices and the list hold addresses, oldest
    first.  [fc_next] is the address of the next node. *)
Record recentFillCache := mkFillCache {
  fc_nodes : gmap nat RecentFillAverage;
  fc_byClient : gmap string nat;
  fc_byVenue : gmap string nat;
  fc_order : list nat;
  fc_next : nat
}.
#[export] Instance eta_recentFillCache : Eta recentFillCache := fun c =>
  mkFillCache (fc_nodes c) (fc_byClient c) (fc_byVenue c) (fc_order c) (fc_next c).

Definition newRecentFillCache : recentFillCache := mkFillCache ∅ ∅ ∅ [] 0.

Definition fillAverageIndexKey (key : StreamKey) (id : string) : string :=
  (sk_Venue key ++ NUL ++ sk_Account key ++ NUL ++ sk_Product key ++ NUL ++ id)%string.

Definition fillAverageNewer (next prev : RecentFillAverage) : bool :=
  if TimeAfter (rf_EventTime next) (rf_EventTime prev) then true
  else if TimeBefore (rf_EventTime next) (rf_EventTime prev) then false
  else rf_Sequence prev <? rf_Sequence next.

Definition fillAverageIDsMatch (s : RecentFillAverage) (clientID venueID : string) : bool :=
  if (clientID =?s "") && (venueID =?s "") then false
  else if negb (clientID =?s "") && negb (rf_ClientOrderID s =?s "") && negb (clientID =?s rf_ClientOrderID s) then false
  else if negb (venueID =?s "") && negb (rf_VenueOrderID s =?s "") && negb (venueID =?s rf_VenueOrderID s) then false
  else if negb (clientID =?s "") && (rf_ClientOrderID s =?s clientID) then true
  else negb (venueID =?s "") && (rf_VenueOrderID s =?s venueID).

(** Deletes an entry that still leads to [node]. *)
Definition dropIndex (key : StreamKey) (id : string) (node : nat) (index : gmap string nat) : gmap string nat :=
  if id =?s "" then index
  else if bool_decide (index !! fillAverageIndexKey key id = Some node)
       then delete (fillAverageIndexKey key id) index else index.
Definition putIndex (key : StreamKey) (id : string) (node : nat) (index : gmap string nat) : gmap string nat :=
  if id =?s "" then index else <[fillAverageIndexKey key id := node]> index.

Definition findLocked (c : recentFillCache) (key : StreamKey) (clientID venueID : string) : option nat :=
  match (if clientID =?s "" then None else fc_byClient c !! fillAverageIndexKey key clientID) with
  | Some node => Some node
  | None => if venueID =?s "" then None else fc_byVenue c !! fillAverageIndexKey key venueID
  end.

Definition indexLocked (node : nat) (v : RecentFillAverage) (c : recentFillCache) : recentFillCache :=
  c <| fc_byClient := putIndex (rf_Key v) (rf_ClientOrderID v) node (fc_byClient c) |>
    <| fc_byVenue := putIndex (rf_Key v) (rf_VenueOrderID v) node (fc_byVenue c) |>.

Definition reindexLocked (node : nat) (prev next : RecentFillAverage) (c : recentFillCache) : recentFillCache :=
  let c := if rf_ClientOrderID prev =?s rf_ClientOrderID next then c
           else c <| fc_byClient := dropIndex (rf_Key prev) (rf_ClientOrderID prev) node (fc_byClient c) |> in
  let c := if rf_VenueOrderID prev =?s rf_VenueOrderID next then c
           else c <| fc_byVenue := dropIndex (rf_Key prev) (rf_VenueOrderID prev) node (fc_byVenue c) |> in
  indexLocked node next (c <| fc_nodes := <[node := next]> (fc_nodes c) |>).

Definition removeNodeLocked (node : nat) (v : RecentFillAverage) (c : recentFillCache) : recentFillCache :=
  c <| fc_order := List.filter (fun n => negb (Nat.eqb n node)) (fc_order c) |>
    <| fc_byClient := dropIndex (rf_Key v) (rf_ClientOrderID v) node (fc_byClient c) |>
    <| fc_byVenue := dropIndex (rf_Key v) (rf_VenueOrderID v) node (fc_byVenue c) |>.

(** [expireSomeLocked] with [n] elements left to scan. *)
Fixpoint expireSomeLocked (n : nat) (now : GoTime) (c : recentFillCache) : recentFillCache :=
  match n, fc_order c with
  | S k, node :: rest =>
      match fc_nodes c !! node with
      | None => expireSomeLocked k now (c <| fc_order := rest |>)
      | Some v =>
          if TimeBefore now (rf_ExpiresAt v) then c
          else expireSomeLocked k now (removeNodeLocked node v c)
      end
  | _, _ => c
  end.

Section FillCache.
Context {D : Type} `{!Decimal D}.

(** The snapshot a report gives, if it prices a fill of a known order. *)
Definition snapshotOf (now : GoTime) (key : StreamKey) (u : Update) : option RecentFillAverage :=
  let clientID := TrimSpace (ou_ClientOrderID u) in
  let venueID := TrimSpace (ou_VenueOrderID u) in
  if (clientID =?s "") && (venueID =?s "") then None
  else if negb (dIsPositive (parseDecimal (D := D) (ou_AveragePrice u))) ||
          negb (dIsPositive (parseDecimal (D := D) (ou_CumulativeFilled u))) then None
  else Some (mkRecentFill key clientID venueID (ou_Status u) (TrimSpace (ou_CumulativeFilled u))
               (TrimSpace (ou_AveragePrice u)) (ou_EventTime u) (ou_Sequence u) (TimeAdd now recentFillAverageTTL)).

Definition remember (now : GoTime) (key : StreamKey) (u : Update) (c : recentFillCache) : recentFillCache :=
  match snapshotOf now key u with
  | None => c
  | Some next =>
      let c := expireSomeLocked recentFillAverageExpireScanLimit now c in
      match findLocked c key (rf_ClientOrderID next) (rf_VenueOrderID next) with
      | Some node =>
          match fc_nodes c !! node with
          | Some prev =>
              if negb (fillAverageNewer next prev) then c
              else (reindexLocked node prev next c)
                     <| fc_order := List.filter (fun n => negb (Nat.eqb n node)) (fc_order c) ++ [node] |>
          | None => c
          end
      | None =>
          let node := fc_next c in
          indexLocked node next
            (c <| fc_nodes := <[node := next]> (fc_nodes c) |> <| fc_order := fc_order c ++ [node] |>
               <| fc_next := S node |>)
      end
  end.

Definition lookupRecent (now : GoTime) (key : StreamKey) (clientOrderID venueOrderID : string) (c : recentFillCache)
    : option RecentFillAverage * recentFillCache :=
  let clientID := TrimSpace clientOrderID in
  let venueID := TrimSpace venueOrderID in
  let c := expireSomeLocked recentFillAverageExpireScanLimit now c in
  match findLocked c key clientID venueID with
  | None => (None, c)
  | Some node =>
      match fc_nodes c !! node with
      | None => (None, c)
      | Some v =>
          if negb (TimeBefore now (rf_ExpiresAt v)) then (None, removeNodeLocked node v c)
          else if negb (fillAverageIDsMatch v clientID venueID) then (None, c)
          else (Some v, c)
      end
  end.
End FillCache.

(** ** Facts: the reducer *)

Section ReducerFacts.
Context {D : Type} `{!Decimal D} `{!DecimalLaws D}.

(** The reports of a session, in the order they are read. *)
Fixpoint reduceAll (venue : string) (d : DEXState) (us : list Update) : DEXState * list Update :=
  match us with
  | [] => (d, [])
  | u :: rest =>
      let '(d1, out) := reduceDEXUpdateLocked (D := D) venue d u in
      let '(d2, outs) := reduceAll venue d1 rest in
      (d2, match out with Some v => v :: outs | None => outs end)
  end.

Lemma admitTrade_states d u d' : admitTrade d u = Some d' -> dx_orderState d' = dx_orderState d /\ dx_tradeIDs d ⊆ dx_tradeIDs d'.
Proof. unfold admitTrade. intros H. repeat (case_match; simplify_eq/=; try done); split; try done; set_solver. Qed.

Lemma reduce_tradeIDs venue d u d' out :
  reduceDEXUpdateLocked (D := D) venue d u = (d', out) -> dx_tradeIDs d ⊆ dx_tradeIDs d'.
Proof.
  unfold reduceDEXUpdateLocked. destruct (_ || _); [by intros [= <- _]|].
  destruct (admitTrade d u) as [d1|] eqn:E; [|by intros [= <- _]]. apply admitTrade_states in E as [_ E].
  destruct (venueOrderMismatch _ _ _ _); [by intros [= <- _]|]. destruct (_ && _); [by intros [= <- _]|].
  destruct (match dexPreviousUpdate _ _ with Some _ => _ | None => true end); by intros [= <- _].
Qed.

Lemma reduceAll_tradeIDs venue us d d' outs :
  reduceAll venue d us = (d', outs) -> dx_tradeIDs d ⊆ dx_tradeIDs d'.
Proof.
  revert d d' outs. induction us as [|u us IH]; intros d d' outs; cbn; [by intros [= <- _]|].
  destruct (reduceDEXUpdateLocked _ _ _) as [d1 out] eqn:E1. apply reduce_tradeIDs in E1.
  destruct (reduceAll _ _ _) as [d2 os] eqn:E2. apply IH in E2. intros [= <- _]. set_solver.
Qed.

(** The previous report of an order and the one published after it: its status
    never leaves a terminal state but for a stronger one, and the cumulative
    quantity never falls. *)
Definition advances (p u : Update) : Prop :=
  (terminalStreamRank (ou_Status p) <= terminalStreamRank (ou_Status u)) /\
  (0 < terminalStreamRank (ou_Status p) -> terminalStreamRank (ou_Status p) < terminalStreamRank (ou_Status u)) /\
  (ou_CumulativeFilled p <> ""%string -> ou_CumulativeFilled u <> ""%string /\
     (dval (parseDecimal (D := D) (ou_CumulativeFilled p)) <= dval (parseDecimal (D := D) (ou_CumulativeFilled u)))%Q).

Lemma terminalStreamRank_spec status :
  0 <= terminalStreamRank status /\ (isTerminalStreamStatus status = true <-> 0 < terminalStreamRank status).
Proof.
  unfold terminalStreamRank. destruct (String.eqb_spec status "filled") as [->|]; [done|].
  destruct (isTerminalStreamStatus status); split; try lia; split; intros; lia || done.
Qed.

#[export] Instance advances_trans : Transitive advances.
Proof.
  intros a b c (H1 & H2 & H3) (G1 & G2 & G3). split; [lia|]. split; [lia|]. intros Ha.
  destruct (H3 Ha) as [Hb Hab]. destruct (G3 Hb) as [Hc Hbc]. split; [done|]. lra.
Qed.

Lemma keepCumulative_fields p u :
  ou_Status (keepCumulative (D := D) p u) = ou_Status u /\ ou_Type (keepCumulative (D := D) p u) = ou_Type u /\
  ou_ClientOrderID (keepCumulative (D := D) p u) = ou_ClientOrderID u /\ ou_VenueOrderID (keepCumulative (D := D) p u) = ou_VenueOrderID u.
Proof. unfold keepCumulative. by destruct (_ && _). Qed.

Lemma keepCumulative_grows p u :
  ou_Type u = UpdateOrder -> ou_CumulativeFilled p <> ""%string ->
  ou_CumulativeFilled (keepCumulative (D := D) p u) <> ""%string /\
  (dval (parseDecimal (D := D) (ou_CumulativeFilled p)) <= dval (parseDecimal (D := D) (ou_CumulativeFilled (keepCumulative (D := D) p u))))%Q.
Proof.
  intros Ht Hp. unfold keepCumulative. rewrite bool_decide_true by done.
  destruct (String.eqb_spec (ou_CumulativeFilled p) ""); [done|]. cbn [negb andb].
  destruct (String.eqb_spec (ou_CumulativeFilled u) ""); cbn [orb]; [split; [done|]; cbn; lra|].
  destruct (dLessThan_reflect (parseDecimal (D := D) (ou_CumulativeFilled u)) (parseDecimal (ou_CumulativeFilled p)));
    [split; [done|]; cbn; lra|]. split; [done|]. by apply Qnot_lt_le.
Qed.

Lemma admitAfter_advances p u :
  ou_Type u = UpdateOrder -> admitAfter (D := D) p (keepCumulative (D := D) p u) = true ->
  advances p (keepCumulative (D := D) p u).
Proof.
  intros Ht Ha. destruct (keepCumulative_fields p u) as (Es & Et & _).
  assert (terminalStreamRank (ou_Status p) <= terminalStreamRank (ou_Status u) /\
    (0 < terminalStreamRank (ou_Status p) -> terminalStreamRank (ou_Status p) < terminalStreamRank (ou_Status u))) as [H1 H2].
  { unfold admitAfter in Ha. rewrite Es, Et, Ht in Ha. cbn [bool_decide negb orb] in Ha.
    destruct (terminalStreamRank_spec (ou_Status p)) as [Np Tp]. destruct (terminalStreamRank_spec (ou_Status u)) as [Nu Tu].
    destruct (isTerminalStreamStatus (ou_Status p)) eqn:Ep.
    - cbn [andb] in Ha. destruct (isTerminalStreamStatus (ou_Status u)); [|done]. cbn [negb orb] in Ha.
      destruct (Z.leb_spec (terminalStreamRank (ou_Status u)) (terminalStreamRank (ou_Status p))); [done|]. lia.
    - assert (~ 0 < terminalStreamRank (ou_Status p)) by (intros H; apply Tp in H; done). lia. }
  unfold advances. rewrite Es. split; [done|]. split; [done|]. intros Hp. by apply keepCumulative_grows.
Qed.

Lemma entry_apart a b : clientEntry a <> venueEntry b.
Proof. done. Qed.
Lemma clientEntry_inj a b : clientEntry a = clientEntry b -> a = b.
Proof. intros H. by injection H. Qed.

Lemma rememberUpdate_client (v : Update) states c :
  rememberUpdate v states !! clientEntry c =
  if bool_decide (c = ou_ClientOrderID v /\ c <> ""%string) then Some v else states !! clientEntry c.
Proof.
  unfold rememberUpdate.
  assert (forall m : gmap string Update,
    (if ou_VenueOrderID v =?s "" then m else <[venueEntry (ou_VenueOrderID v) := v]> m) !! clientEntry c = m !! clientEntry c) as E.
  { intros m. destruct (_ =?s _); [done|]. by rewrite lookup_insert_ne. }
  cbv zeta. rewrite E. destruct (String.eqb_spec (ou_ClientOrderID v) "") as [E0|E0].
  - rewrite bool_decide_false; [done|]. intros [-> ?]. done.
  - case_bool_decide as Hc; [destruct Hc as [-> _]; by rewrite lookup_insert_eq|].
    rewrite lookup_insert_ne; [done|]. intros H%clientEntry_inj. apply Hc. by subst.
Qed.

Lemma completeIDs_keeps previous u :
  ou_ClientOrderID u <> ""%string ->
  ou_ClientOrderID (completeIDs previous u) = ou_ClientOrderID u /\ ou_Type (completeIDs previous u) = ou_Type u.
Proof.
  intros H. destruct previous as [p|]; [|done]. cbn. destruct (String.eqb_spec (ou_ClientOrderID u) ""); [done|].
  by destruct (_ =?s _).
Qed.

(** A report that names its client order: what it publishes names it too, and
    is remembered; the other orders are untouched. *)
Lemma reduce_client venue d u d' out :
  isDEXVenue venue = true -> ou_ClientOrderID u <> ""%string -> ou_Type u <> UpdateConnection ->
  reduceDEXUpdateLocked (D := D) venue d u = (d', out) ->
  match out with
  | None => dx_orderState d' = dx_orderState d
  | Some v => ou_ClientOrderID v = ou_ClientOrderID u /\
      (forall c, dx_orderState d' !! clientEntry c = if bool_decide (c = ou_ClientOrderID u) then Some v else dx_orderState d !! clientEntry c) /\
      (ou_Type u = UpdateOrder -> forall p, dx_orderState d !! clientEntry (ou_ClientOrderID u) = Some p -> advances p v)
  end.
Proof.
  intros Hv Hc Ht. unfold reduceDEXUpdateLocked. rewrite Hv, bool_decide_false by done. cbn [negb orb].
  destruct (admitTrade d u) as [d1|] eqn:E1; [|by intros [= <- <-]]. apply admitTrade_states in E1 as [E1 _]. rewrite E1.
  set (previous := dexPreviousUpdate _ _). destruct (completeIDs_keeps previous u Hc) as [Ec Et].
  destruct (venueOrderMismatch _ _ _ _); [by intros [= <- <-]|]. destruct (_ && _); [by intros [= <- <-]|].
  set (u1 := completeIDs previous u) in *.
  set (u2 := match previous with Some p => keepCumulative p u1 | None => u1 end).
  assert (ou_ClientOrderID u2 = ou_ClientOrderID u) as Ec2.
  { unfold u2. destruct previous as [p|]; [|done]. destruct (keepCumulative_fields p u1) as (_ & _ & -> & _). done. }
  destruct (match previous with Some p => admitAfter p u2 | None => true end) eqn:Ha; [|by intros [= <- <-]].
  intros [= <- <-]. split; [done|]. split.
  - intros c. cbn [dx_orderState setter]. rewrite rememberUpdate_client, Ec2.
    destruct (decide (c = ou_ClientOrderID u)) as [->|Hn]; [by rewrite !bool_decide_true|].
    rewrite !bool_decide_false; [done|done|]. by intros [? _].
  - intros Hto p Hp. assert (previous = Some p) as Epr.
    { unfold previous, dexPreviousUpdate. destruct (String.eqb_spec (ou_ClientOrderID u) ""); [done|]. by rewrite Hp. }
    unfold u2 in *. rewrite Epr in *. apply admitAfter_advances; [congruence|done].
Qed.

(** A trade that was read is in the set afterwards, whether or not it could be
    given to a reader. *)
Lemma reduce_marks_trade venue d u :
  isDEXVenue venue = true -> ou_Type u = UpdateTrade -> ou_TradeID u <> ""%string ->
  tradeKey u ∈ dx_tradeIDs (fst (reduceDEXUpdateLocked (D := D) venue d u)).
Proof.
  intros Hv Ht Hid. unfold reduceDEXUpdateLocked, admitTrade. rewrite Hv, (bool_decide_false (ou_Type u = UpdateConnection)) by congruence.
  rewrite (bool_decide_true (ou_Type u = UpdateTrade)) by done. destruct (String.eqb_spec (ou_TradeID u) ""); [done|]. cbn [negb orb andb].
  destruct (bool_decide (tradeKey u ∈ dx_tradeIDs d)) eqn:E; [by apply bool_decide_eq_true in E|].
  destruct (venueOrderMismatch _ _ _ _); [cbn; set_solver|]. destruct (_ && _ && _); [cbn; set_solver|].
  destruct (match dexPreviousUpdate _ _ with Some _ => _ | None => true end); cbn; set_solver.
Qed.
Lemma reduceAll_marks_trade venue us d d' outs u :
  isDEXVenue venue = true -> u ∈ us -> ou_Type u = UpdateTrade -> ou_TradeID u <> ""%string ->
  reduceAll venue d us = (d', outs) -> tradeKey u ∈ dx_tradeIDs d'.
Proof.
  intros Hv Hin Ht Hid. revert d outs. induction us as [|w us IH]; [by apply not_elem_of_nil in Hin|]. intros d outs. cbn.
  destruct (reduceDEXUpdateLocked _ _ _) as [d1 out] eqn:E1. destruct (reduceAll _ d1 us) as [d2 os] eqn:E2. intros [= <- _].
  apply elem_of_cons in Hin as [<-|Hin].
  - pose proof (reduce_marks_trade venue d u Hv Ht Hid) as Hm. rewrite E1 in Hm. apply reduceAll_tradeIDs in E2. set_solver.
  - by eapply IH.
Qed.

(** On the decentralised venues, whatever is repeated, stale or out of
    order in the feed, the reports of an order that reach its readers only move
    forward: no report follows a terminal one but a fill after a cancellation,
    and the cumulative quantity never falls; a trade is let through once. *)
Theorem dex_reports_monotone (venue c : string) (us : list Update) (d d' : DEXState) (outs : list Update) :
  isDEXVenue venue = true ->
  Forall (fun u => ou_ClientOrderID u <> ""%string /\ ou_Type u <> UpdateConnection /\
                   (ou_ClientOrderID u = c -> ou_Type u = UpdateOrder)) us ->
  reduceAll venue d us = (d', outs) ->
  StronglySorted advances (List.filter (fun v => ou_ClientOrderID v =?s c) outs) /\
  forall u again, u ∈ us -> ou_Type u = UpdateTrade -> ou_TradeID u <> ""%string ->
    ou_Type again = UpdateTrade -> ou_TradeID again <> ""%string -> tradeKey again = tradeKey u ->
    snd (reduceDEXUpdateLocked (D := D) venue d' again) = None.
Proof.
  intros Hv Hus Hr. split.
  - enough (StronglySorted advances (List.filter (fun v => ou_ClientOrderID v =?s c) outs) /\
      forall p, dx_orderState d !! clientEntry c = Some p -> Forall (advances p) (List.filter (fun v => ou_ClientOrderID v =?s c) outs))
      by tauto.
    revert d outs Hr. induction Hus as [|u us (Hc & Ht & Ho) _ IH]; intros d outs; cbn; [intros [= <- <-]; repeat constructor|].
    destruct (reduceDEXUpdateLocked _ _ _) as [d1 out] eqn:E1. destruct (reduceAll _ d1 us) as [d2 os] eqn:E2.
    intros [= -> <-]. destruct (IH _ _ E2) as [IH1 IH2]. apply reduce_client in E1; [|done..].
    destruct out as [v|]; [|by rewrite <- E1]. destruct E1 as (Ev & El & Ea). cbn [List.filter].
    rewrite (El c) in IH2. rewrite Ev. destruct (String.eqb_spec (ou_ClientOrderID u) c) as [<-|Hn].
    + rewrite bool_decide_true in IH2 by done. specialize (IH2 _ eq_refl). split; [by constructor|].
      intros p Hp. specialize (Ea (Ho eq_refl) p Hp). constructor; [done|].
      eapply Forall_impl; [exact IH2|]. intros w Hw. by etransitivity.
    + rewrite bool_decide_false in IH2 by congruence. done.
  - intros u again Hin Ht Hid Ht' Hid' Hk. pose proof (reduceAll_marks_trade _ _ _ _ _ _ Hv Hin Ht Hid Hr) as Hm.
    unfold reduceDEXUpdateLocked. rewrite Hv, bool_decide_false by congruence. cbn [negb orb].
    unfold admitTrade. rewrite bool_decide_true by done. destruct (String.eqb_spec (ou_TradeID again) ""); [done|].
    cbn [negb andb]. by rewrite Hk, bool_decide_true.
Qed.


(** A fill without a cumulative quantity, as Hyperliquid reports its fills,
    that is read after the terminal report of its order reaches no reader. *)
Lemma late_fill_dropped venue d u p :
  isDEXVenue venue = true -> ou_Type u = UpdateTrade -> ou_CumulativeFilled u = ""%string -> ou_ClientOrderID u <> ""%string ->
  isTerminalStreamStatus (ou_Status u) = false ->
  dx_orderState d !! clientEntry (ou_ClientOrderID u) = Some p -> isTerminalStreamStatus (ou_Status p) = true ->
  snd (reduceDEXUpdateLocked (D := D) venue d u) = None.
Proof.
  intros Hv Ht Hcum Hc Hs Hp Hterm. unfold reduceDEXUpdateLocked. rewrite Hv, bool_decide_false by congruence. cbn [negb orb].
  destruct (admitTrade d u) as [d1|] eqn:E1; [|done]. apply admitTrade_states in E1 as [E1 _]. rewrite E1.
  assert (dexPreviousUpdate (dx_orderState d) u = Some p) as ->.
  { unfold dexPreviousUpdate. destruct (String.eqb_spec (ou_ClientOrderID u) ""); [done|]. by rewrite Hp. }
  set (u1 := completeIDs (Some p) u).
  assert (ou_Type u1 = UpdateTrade /\ ou_Status u1 = ou_Status u /\ ou_CumulativeFilled u1 = ""%string) as (Et & Es & Ecf).
  { unfold u1. cbn. destruct (String.eqb_spec (ou_ClientOrderID u) ""); [done|]. by destruct (_ =?s _). }
  destruct (venueOrderMismatch _ _ _ _); [done|]. destruct (_ && _ && _); [done|].
  assert (keepCumulative p u1 = u1) as -> by (unfold keepCumulative; by rewrite Et).
  unfold admitAfter. by rewrite Hterm, Et, Es, Hs, Ecf.
Qed.

(** A fill that comes before its order is known is not given to a reader, and
    is not let through when it is sent again, even if the order is known by
    then: it was marked as read. *)
Lemma unrouted_fill_lost d states u :
  ou_Type u = UpdateTrade -> ou_TradeID u <> ""%string -> ou_ClientOrderID u = ""%string ->
  dx_orderState d !! venueEntry (ou_VenueOrderID u) = None ->
  let d1 := fst (reduceDEXUpdateLocked (D := D) "hyperliquid" d u) in
  snd (reduceDEXUpdateLocked (D := D) "hyperliquid" d u) = None /\
  snd (reduceDEXUpdateLocked (D := D) "hyperliquid" (d1 <| dx_orderState := states |>) u) = None.
Proof.
  intros Ht Hid Hc Hn d1. split.
  - unfold reduceDEXUpdateLocked. rewrite bool_decide_false by congruence. cbn [negb orb isDEXVenue].
    destruct (admitTrade d u) as [d2|] eqn:E1; [|done]. apply admitTrade_states in E1 as [E1 _]. rewrite E1.
    unfold dexPreviousUpdate. rewrite Hc. cbn [String.eqb]. rewrite Hn.
    destruct (_ =?s _); cbn; rewrite Ht, Hc; done.
  - assert (tradeKey u ∈ dx_tradeIDs d1) as Hm by (by apply reduce_marks_trade). clearbody d1.
    unfold reduceDEXUpdateLocked, admitTrade. rewrite (bool_decide_false (ou_Type u = UpdateConnection)) by congruence.
    rewrite (bool_decide_true (ou_Type u = UpdateTrade)) by done. destruct (String.eqb_spec (ou_TradeID u) ""); [done|]. cbn [negb andb orb isDEXVenue].
    by rewrite bool_decide_true.
Qed.
End ReducerFacts.

(** ** Facts: keys *)

Lemma trim_right_idem s : trim_right (trim_right s) = trim_right s.
Proof.
  induction s as [|c r IH]; [done|]. cbn [trim_right]. destruct (trim_right r) as [|c' r'] eqn:E.
  - destruct (is_space_ascii c) eqn:Hc; cbn [trim_right]; by rewrite ?Hc.
  - cbn [trim_right] in *. by rewrite IH.
Qed.

Lemma TrimSpace_idem s : TrimSpace (TrimSpace s) = TrimSpace s.
Proof.
  unfold TrimSpace. induction s as [|c r IH]; [done|]. cbn [trim_left]. destruct (is_space_ascii c) eqn:Hc; [done|].
  transitivity (trim_right (trim_right (String c r))); [|apply trim_right_idem].
  f_equal. cbn [trim_right]. destruct (trim_right r); rewrite ?Hc; cbn [trim_left]; by rewrite Hc.
Qed.

Lemma normalized_ok k k' :
  normalized k = inl k' -> sk_Account k' = TrimSpace (sk_Account k) /\ sk_Account k' <> ""%string /\
    sk_Venue k' ∈ streamVenues /\ sk_Product k' ∈ streamProducts /\
    (sk_Venue k' ∈ unifiedVenues -> sk_Product k' = "perpetual"%string).
Proof.
  unfold normalized. destruct (String.eqb_spec (TrimSpace (sk_Account k)) ""); [done|].
  case_bool_decide as Hv; [|done]. cbn [negb]. case_bool_decide as Hp; [|done]. cbn [negb]. intros [= <-]. cbn.
  split; [done|]. split; [done|]. split; [done|]. case_bool_decide as Hu; [|done].
  split; [|done]. apply elem_of_cons. right. apply elem_of_cons. by left.
Qed.

(** A normal key is its own normal form: the manager and the cache agree on
    the stream a caller names. *)
Lemma normalized_idem k k' : normalized k = inl k' -> normalized k' = inl k'.
Proof.
  intros H. pose proof (normalized_ok k k' H) as (Ea & Hne & Hv & Hp & Hu). destruct k' as [account venue product]. cbn in *.
  unfold normalized. cbn [sk_Account sk_Venue sk_Product].
  assert (ToLower (TrimSpace venue) = venue) as -> by (unfold streamVenues in Hv; set_unfold; naive_solver).
  assert (ToLower (TrimSpace product) = product) as -> by (unfold streamProducts in Hp; set_unfold; naive_solver).
  rewrite Ea, TrimSpace_idem, <- Ea. destruct (String.eqb_spec account ""); [done|].
  rewrite (bool_decide_true (venue ∈ streamVenues)), (bool_decide_true (product ∈ streamProducts)) by done. cbn [negb].
  case_bool_decide as Hc; [by rewrite Hu|done].
Qed.

(** ** Facts: recent averages *)

Section FillCacheFacts.
Context {D : Type} `{!Decimal D}.

(** The parts of an index key are separated by a NUL byte. *)
Fixpoint hasNUL (s : string) : bool :=
  match s with EmptyString => false | String c r => Ascii.eqb c "000" || hasNUL r end.
Definition cleanKey (k : StreamKey) : Prop :=
  hasNUL (sk_Venue k) = false /\ hasNUL (sk_Account k) = false /\ hasNUL (sk_Product k) = false.

Lemma split_NUL (a b x y : string) :
  hasNUL a = false -> hasNUL b = false -> (a ++ NUL ++ x)%string = (b ++ NUL ++ y)%string -> a = b /\ x = y.
Proof.
  revert b. induction a as [|c a IH]; intros [|c' b] Ha Hb H.
  - by injection H.
  - exfalso. injection H as <- _. cbn in Hb. done.
  - exfalso. injection H as -> _. cbn in Ha. done.
  - cbn in Ha, Hb. apply orb_false_iff in Ha as [_ Ha]. apply orb_false_iff in Hb as [_ Hb].
    injection H as -> H. destruct (IH b Ha Hb H) as [-> ->]. done.
Qed.

Lemma fillAverageIndexKey_inj k1 k2 id1 id2 :
  cleanKey k1 -> cleanKey k2 -> fillAverageIndexKey k1 id1 = fillAverageIndexKey k2 id2 -> k2 = k1 /\ id2 = id1.
Proof.
  intros (V1 & A1 & P1) (V2 & A2 & P2) H. unfold fillAverageIndexKey in H.
  apply split_NUL in H as [Ev H]; [|done..]. apply split_NUL in H as [Ea H]; [|done..].
  apply split_NUL in H as [Ep H]; [|done..]. destruct k1, k2; cbn in *. by subst.
Qed.

Definition indexSound (c : recentFillCache) (index : gmap string nat) (id : RecentFillAverage -> string) : Prop :=
  forall k n, index !! k = Some n -> n ∈ fc_order c /\
    exists v, fc_nodes c !! n = Some v /\ k = fillAverageIndexKey (rf_Key v) (id v) /\ id v <> ""%string.

(** Both indices lead to nodes of the list, under the identifiers those have. *)
Record CacheSound (c : recentFillCache) : Prop := {
  cs_nodup : NoDup (fc_order c);
  cs_nodes : forall n, n ∈ fc_order c -> is_Some (fc_nodes c !! n);
  cs_fresh : forall n, is_Some (fc_nodes c !! n) -> (n < fc_next c)%nat;
  cs_keys : forall n v, fc_nodes c !! n = Some v -> cleanKey (rf_Key v);
  cs_client : indexSound c (fc_byClient c) rf_ClientOrderID;
  cs_venue : indexSound c (fc_byVenue c) rf_VenueOrderID
}.

Lemma dropIndex_lookup key id node index k n :
  dropIndex key id node index !! k = Some n ->
  index !! k = Some n /\ (id <> ""%string -> k = fillAverageIndexKey key id -> n <> node).
Proof.
  unfold dropIndex. destruct (String.eqb_spec id ""); [done|]. case_bool_decide as E.
  - intros [Hn H]%lookup_delete_Some. split; [done|]. intros _ ->. done.
  - intros H. split; [done|]. intros _ -> ->. done.
Qed.

Lemma drop_order (l : list nat) node n : n ∈ List.filter (fun m => negb (Nat.eqb m node)) l <-> n ∈ l /\ n <> node.
Proof.
  rewrite !list_elem_of_In, filter_In. destruct (Nat.eqb_spec n node); cbn; split; intros [? ?]; done.
Qed.

Lemma removeNode_sound c node v :
  CacheSound c -> fc_nodes c !! node = Some v -> CacheSound (removeNodeLocked node v c).
Proof.
  intros [N1 N2 N3 Hkeys C V] Hv.
  assert (forall index id, indexSound c index id ->
    indexSound (removeNodeLocked node v c) (dropIndex (rf_Key v) (id v) node index) id) as Hd.
  { intros index id Hi k n [Hk Hne]%dropIndex_lookup. destruct (Hi k n Hk) as (Ho & w & Hw & Ek & Eid).
    split; [|by exists w]. cbn. apply drop_order. split; [done|]. intros ->.
    assert (w = v) as -> by congruence. by apply Hne. }
  constructor; [|intros n [? _]%drop_order; by apply N2|done|done|by apply Hd|by apply Hd].
  cbn. apply NoDup_ListNoDup, List.NoDup_filter, NoDup_ListNoDup, N1.
Qed.

Lemma expireSome_sound k now c : CacheSound c -> CacheSound (expireSomeLocked k now c).
Proof.
  revert c. induction k as [|k IH]; intros c Hc; cbn; [by destruct (fc_order c)|].
  destruct (fc_order c) as [|node rest] eqn:Eo; [done|].
  destruct (cs_nodes c Hc node) as [v Hv]; [rewrite Eo; by left|]. rewrite Hv.
  destruct (TimeBefore _ _); [done|]. apply IH. by apply removeNode_sound.
Qed.

(** A node that has not expired is not removed. *)
Lemma expireSome_keeps k now c node v :
  fc_nodes c !! node = Some v -> TimeBefore now (rf_ExpiresAt v) = true ->
  fc_nodes (expireSomeLocked k now c) = fc_nodes c /\ fc_next (expireSomeLocked k now c) = fc_next c /\
  (forall x, fc_byClient c !! x = Some node -> fc_byClient (expireSomeLocked k now c) !! x = Some node) /\
  (forall x, fc_byVenue c !! x = Some node -> fc_byVenue (expireSomeLocked k now c) !! x = Some node).
Proof.
  revert c. induction k as [|k IH]; intros c Hv Ht; cbn; [by destruct (fc_order c)|].
  destruct (fc_order c) as [|m rest]; [done|]. destruct (fc_nodes c !! m) as [w|] eqn:Hw.
  - destruct (TimeBefore now (rf_ExpiresAt w)) eqn:Hb; [done|].
    destruct (IH (removeNodeLocked m w c)) as (E1 & E2 & H1 & H2); [done|done|].
    split; [done|]. split; [done|].
    assert (forall key id index x, index !! x = Some node -> dropIndex key id m index !! x = Some node) as Hd.
    { intros key id index x Hx. unfold dropIndex. destruct (_ =?s _); [done|]. case_bool_decide as E; [|done].
      rewrite lookup_delete_ne; [done|]. intros <-. rewrite Hx in E. injection E as <-.
      rewrite Hv in Hw. injection Hw as <-. congruence. }
    split; intros x Hx; [apply H1|apply H2]; cbn; by apply Hd.
  - destruct (IH (c <| fc_order := rest |>)) as (E1 & E2 & H1 & H2); [done|done|]. split_and!; [exact E1|exact E2|exact H1|exact H2].
Qed.

(** Writing the value [v] of a node into both indices. *)
Lemma putIndex_sound c c' index id node v :
  (forall k n, index !! k = Some n -> n <> node -> n ∈ fc_order c' /\
     exists w, fc_nodes c' !! n = Some w /\ k = fillAverageIndexKey (rf_Key w) (id w) /\ id w <> ""%string) ->
  (forall k, index !! k = Some node -> k = fillAverageIndexKey (rf_Key v) (id v) /\ id v <> ""%string) ->
  node ∈ fc_order c' -> fc_nodes c' !! node = Some v -> fc_order c = fc_order c' -> fc_nodes c = fc_nodes c' ->
  indexSound c (putIndex (rf_Key v) (id v) node index) id.
Proof.
  intros Ho Hn Hin Hv Eo En k n Hk. rewrite Eo, En. revert Hk. unfold putIndex.
  assert (index !! k = Some n -> n ∈ fc_order c' ∧
    ∃ w, fc_nodes c' !! n = Some w ∧ k = fillAverageIndexKey (rf_Key w) (id w) ∧ id w ≠ ""%string) as Hold.
  { intros Hk. destruct (decide (n = node)) as [->|Hne]; [|by apply Ho]. split; [done|]. exists v. split; [done|]. by apply Hn. }
  destruct (String.eqb_spec (id v) ""); [done|].
  intros [[<- <-]|[_ Hk]]%lookup_insert_Some; [|by apply Hold]. split; [done|]. by exists v.
Qed.

Lemma find_sound c key clientID venueID node :
  CacheSound c -> cleanKey key -> findLocked c key clientID venueID = Some node ->
  node ∈ fc_order c /\ exists v, fc_nodes c !! node = Some v /\ rf_Key v = key /\
    (clientID <> ""%string /\ rf_ClientOrderID v = clientID \/ venueID <> ""%string /\ rf_VenueOrderID v = venueID).
Proof.
  intros [_ _ _ Hk C V] Hclean. unfold findLocked.
  destruct (String.eqb_spec clientID "") as [|Hc].
  2:{ destruct (fc_byClient c !! _) as [n|] eqn:E.
    - intros [= <-]. destruct (C _ _ E) as (Ho & v & Hv & Ei & _). apply fillAverageIndexKey_inj in Ei as [Ek Ei]; [|done|by eapply Hk].
      split; [done|]. exists v. auto 10.
    - clear E. destruct (String.eqb_spec venueID ""); [done|]. intros E. destruct (V _ _ E) as (Ho & v & Hv & Ei & _).
      apply fillAverageIndexKey_inj in Ei as [Ek Ei]; [|done|by eapply Hk]. split; [done|]. exists v. auto 10. }
  destruct (String.eqb_spec venueID ""); [done|]. intros E. destruct (V _ _ E) as (Ho & v & Hv & Ei & _).
  apply fillAverageIndexKey_inj in Ei as [Ek Ei]; [|done|by eapply Hk]. split; [done|]. exists v. auto 10.
Qed.

Lemma snapshotOf_key now key u next : snapshotOf (D := D) now key u = Some next ->
  rf_Key next = key /\ rf_ExpiresAt next = TimeAdd now recentFillAverageTTL /\
  rf_ClientOrderID next = TrimSpace (ou_ClientOrderID u) /\ rf_VenueOrderID next = TrimSpace (ou_VenueOrderID u).
Proof. unfold snapshotOf. intros H. repeat (case_match; simplify_eq/=; try done). Qed.

(** The entries that lead to a node before its value changes. *)
Lemma reindex_entries c (index : gmap string nat) id node prev next :
  indexSound c index id -> fc_nodes c !! node = Some prev -> rf_Key prev = rf_Key next ->
  let index' := if id prev =?s id next then index else dropIndex (rf_Key prev) (id prev) node index in
  (forall k n, index' !! k = Some n -> index !! k = Some n) /\
  (forall k, index' !! k = Some node -> k = fillAverageIndexKey (rf_Key next) (id next) /\ id next <> ""%string).
Proof.
  intros Hi Hp Ek. destruct (String.eqb_spec (id prev) (id next)) as [E|E]; split.
  - done.
  - intros k Hk. destruct (Hi _ _ Hk) as (_ & v & Hv & -> & Hne). assert (v = prev) as -> by congruence.
    by rewrite <- Ek, <- E.
  - by intros k n [? _]%dropIndex_lookup.
  - intros k [Hk Hn]%dropIndex_lookup. destruct (Hi _ _ Hk) as (_ & v & Hv & -> & Hne).
    assert (v = prev) as -> by congruence. by destruct (Hn Hne eq_refl).
Qed.

Lemma remember_sound now key u c : cleanKey key -> CacheSound c -> CacheSound (remember (D := D) now key u c).
Proof.
  intros Hclean Hc. unfold remember. destruct (snapshotOf now key u) as [next|] eqn:Es; [|done].
  apply snapshotOf_key in Es as (Ek & _). apply (expireSome_sound recentFillAverageExpireScanLimit now) in Hc.
  generalize dependent (expireSomeLocked recentFillAverageExpireScanLimit now c). clear c. intros c Hc.
  destruct (findLocked _ _ _ _) as [node|] eqn:Ef.
  - apply find_sound in Ef as (Hin & prev & Hp & Ekp & _); [|done|done]. rewrite Hp. destruct (negb _); [done|].
    destruct Hc as [N1 N2 N3 Hk C V]. set (c' := _ <| fc_order := _ |>).
    assert (fc_nodes c' = <[node := next]> (fc_nodes c)) as En by (unfold c', reindexLocked; by repeat destruct (_ =?s _)).
    assert (fc_next c' = fc_next c) as Enx by (unfold c', reindexLocked; by repeat destruct (_ =?s _)).
    assert (forall n, n ∈ fc_order c' <-> n ∈ fc_order c) as Eo.
    { intros n. unfold c'. cbn. rewrite elem_of_app, drop_order, list_elem_of_singleton.
      destruct (decide (n = node)) as [->|]; tauto. }
    assert (forall index index' id, indexSound c index id -> 
       index' = putIndex (rf_Key next) (id next) node (if id prev =?s id next then index else dropIndex (rf_Key prev) (id prev) node index) ->
       indexSound c' index' id) as Hput.
    { intros index index' id Hi ->. destruct (reindex_entries c index id node prev next Hi Hp) as [H1 H2]; [congruence|].
      eapply (putIndex_sound c' c'); [|exact H2|by apply Eo|by rewrite En, lookup_insert_eq|done|done].
      intros k n Hkn Hne. destruct (Hi k n (H1 _ _ Hkn)) as (Ho & w & Hw & E). split; [by apply Eo|].
      exists w. by rewrite En, lookup_insert_ne. }
    constructor.
    + unfold c'. cbn. apply NoDup_app. split; [apply NoDup_ListNoDup, List.NoDup_filter, NoDup_ListNoDup, N1|].
      split; [|apply NoDup_singleton]. intros n [_ Hn]%drop_order Hn'%list_elem_of_singleton. done.
    + intros n Hn. rewrite En. destruct (decide (n = node)) as [->|]; [by rewrite lookup_insert_eq|].
      rewrite lookup_insert_ne by done. by apply N2, Eo.
    + intros n. rewrite En, Enx. destruct (decide (n = node)) as [->|]; [intros _; apply N3; by eexists|].
      rewrite lookup_insert_ne by done. apply N3.
    + intros n v. rewrite En. intros [[<- <-]|[_ Hv]]%lookup_insert_Some; [by rewrite Ek|by eapply Hk].
    + apply (Hput (fc_byClient c)); [done|]. unfold c', reindexLocked. by repeat destruct (_ =?s _).
    + apply (Hput (fc_byVenue c)); [done|]. unfold c', reindexLocked. by repeat destruct (_ =?s _).
  - destruct Hc as [N1 N2 N3 Hk C V]. set (c' := indexLocked _ _ _). set (node := fc_next c) in *.
    assert (forall n, n ∈ fc_order c -> n <> node) as Hfresh.
    { intros n Hn ->. pose proof (N3 _ (N2 _ Hn)). unfold node in *. lia. }
    assert (forall n, n ∈ fc_order c' <-> n ∈ fc_order c \/ n = node) as Eo
      by (intros n; cbn; rewrite elem_of_app, list_elem_of_singleton; done).
    assert (forall index id, indexSound c index id -> indexSound c' (putIndex (rf_Key next) (id next) node index) id) as Hput.
    { intros index id Hi. eapply (putIndex_sound c' c'); [| |apply Eo; by right|apply lookup_insert_eq|done|done].
      - intros k n Hkn Hne. destruct (Hi k n Hkn) as (Ho & w & Hw & E). split; [apply Eo; by left|].
        exists w. cbn. by rewrite lookup_insert_ne.
      - intros k Hkn. destruct (Hi k node Hkn) as (Ho & _). by destruct (Hfresh node Ho). }
    constructor.
    + cbn. apply NoDup_app. split; [done|]. split; [|apply NoDup_singleton]. intros n Hn Hn'%list_elem_of_singleton.
      by apply (Hfresh n).
    + intros n [Hn| ->]%Eo; cbn; [rewrite lookup_insert_ne by (intros <-; by apply (Hfresh node)); by apply N2|by rewrite lookup_insert_eq].
    + intros n. cbn. intros [v [[<- _]|[_ Hv]]%lookup_insert_Some]; [lia|]. pose proof (N3 n (ex_intro _ v Hv)). lia.
    + intros n v. cbn. intros [[_ <-]|[_ Hv]]%lookup_insert_Some; [by rewrite Ek|by eapply Hk].
    + apply (Hput _ _ C).
    + apply (Hput _ _ V).
Qed.

Lemma lookup_sound now key clientID venueID c : CacheSound c -> CacheSound (snd (lookupRecent now key clientID venueID c)).
Proof.
  intros Hc. unfold lookupRecent. apply (expireSome_sound recentFillAverageExpireScanLimit now) in Hc.
  destruct (findLocked _ _ _ _) as [node|]; [|done]. destruct (fc_nodes _ !! node) as [v|] eqn:Hv; [|done].
  destruct (negb _); [by apply removeNode_sound|]. by destruct (negb _).
Qed.

Inductive CacheOp := CacheRemember (now : GoTime) (key : StreamKey) (u : Update) | CacheLookup (now : GoTime) (key : StreamKey) (clientID venueID : string).
Definition cacheStep (c : recentFillCache) (op : CacheOp) : recentFillCache :=
  match op with
  | CacheRemember now key u => remember (D := D) now key u c
  | CacheLookup now key clientID venueID => snd (lookupRecent now key clientID venueID c)
  end.
Definition cacheKey (op : CacheOp) : StreamKey := match op with CacheRemember _ key _ | CacheLookup _ key _ _ => key end.
Definition runCache (ops : list CacheOp) : recentFillCache := fold_left cacheStep ops newRecentFillCache.

Lemma runCache_sound ops : Forall (fun op => cleanKey (cacheKey op)) ops -> CacheSound (runCache ops).
Proof.
  intros H. unfold runCache. assert (CacheSound newRecentFillCache) as H0.
  { constructor; cbn.
    - constructor.
    - intros n Hn. by apply not_elem_of_nil in Hn.
    - intros n [v Hv]. by rewrite lookup_empty in Hv.
    - intros n v Hv. by rewrite lookup_empty in Hv.
    - intros k n Hv. by rewrite lookup_empty in Hv.
    - intros k n Hv. by rewrite lookup_empty in Hv. }
  revert H0. generalize newRecentFillCache. induction H as [|op ops Hop _ IH]; intros c Hc; [done|]. apply IH.
  destruct op; [by apply remember_sound|by apply lookup_sound].
Qed.

Lemma fillAverageIDsMatch_agrees v clientID venueID :
  fillAverageIDsMatch v clientID venueID = true ->
  (clientID <> ""%string -> rf_ClientOrderID v <> ""%string -> rf_ClientOrderID v = clientID) /\
  (venueID <> ""%string -> rf_VenueOrderID v <> ""%string -> rf_VenueOrderID v = venueID).
Proof.
  unfold fillAverageIDsMatch. destruct (_ && _); [done|]. intros H. split; intros H1 H2.
  - destruct (String.eqb_spec clientID ""); [done|]. destruct (String.eqb_spec (rf_ClientOrderID v) ""); [done|].
    destruct (String.eqb_spec clientID (rf_ClientOrderID v)) as [E|]; [by symmetry|done].
  - destruct (_ && _ && _); [done|]. destruct (String.eqb_spec venueID ""); [done|]. destruct (String.eqb_spec (rf_VenueOrderID v) ""); [done|].
    destruct (String.eqb_spec venueID (rf_VenueOrderID v)) as [E|]; [by symmetry|done].
Qed.

(** What an accepted report leaves in the cache. *)
Lemma remember_stores now key u c next :
  cleanKey key -> CacheSound c -> snapshotOf (D := D) now key u = Some next ->
  (forall node prev, findLocked (expireSomeLocked recentFillAverageExpireScanLimit now c) key (rf_ClientOrderID next) (rf_VenueOrderID next) = Some node ->
     fc_nodes (expireSomeLocked recentFillAverageExpireScanLimit now c) !! node = Some prev -> fillAverageNewer next prev = true) ->
  exists node, fc_nodes (remember (D := D) now key u c) !! node = Some next /\
    (rf_ClientOrderID next <> ""%string -> fc_byClient (remember (D := D) now key u c) !! fillAverageIndexKey key (rf_ClientOrderID next) = Some node) /\
    (rf_VenueOrderID next <> ""%string -> fc_byVenue (remember (D := D) now key u c) !! fillAverageIndexKey key (rf_VenueOrderID next) = Some node).
Proof.
  intros Hclean Hc Es Hnew. unfold remember. rewrite Es. apply snapshotOf_key in Es as (Ek & _). cbv zeta.
  apply (expireSome_sound recentFillAverageExpireScanLimit now) in Hc.
  generalize dependent (expireSomeLocked recentFillAverageExpireScanLimit now c). clear c. intros c Hc Hnew.
  assert (forall node index id, id <> ""%string -> putIndex (rf_Key next) id node index !! fillAverageIndexKey key id = Some node) as Hput.
  { intros node index id Hid. unfold putIndex. destruct (String.eqb_spec id ""); [done|]. by rewrite Ek, lookup_insert_eq. }
  destruct (findLocked _ _ _ _) as [node|] eqn:Ef.
  - destruct (find_sound _ _ _ _ _ Hc Hclean Ef) as (_ & prev & Hp & _). rewrite Hp, (Hnew _ _ eq_refl Hp). cbn [negb].
    exists node. split; [unfold reindexLocked; repeat destruct (_ =?s _); apply lookup_insert_eq|].
    split; intros Hid; unfold reindexLocked; repeat destruct (_ =?s _); by apply Hput.
  - exists (fc_next c). split; [apply lookup_insert_eq|]. split; intros Hid; by apply Hput.
Qed.

#[local] Opaque recentFillAverageExpireScanLimit.

(** The cache of recent averages answers about the order it is asked for.
    After any use of it, an answer is for the account asked for, has not
    expired and contradicts neither identifier; and a report that prices a
    fill, unless a newer one is known, is found under its identifiers until it
    expires. *)
Theorem recent_average_roundtrip (ops : list CacheOp) (key : StreamKey) :
  Forall (fun op => cleanKey (cacheKey op)) ops -> cleanKey key ->
  (forall now clientID venueID v c', lookupRecent now key clientID venueID (runCache ops) = (Some v, c') ->
     rf_Key v = key /\ now < rf_ExpiresAt v /\
     (TrimSpace clientID <> ""%string /\ rf_ClientOrderID v = TrimSpace clientID \/
      TrimSpace venueID <> ""%string /\ rf_VenueOrderID v = TrimSpace venueID) /\
     (TrimSpace clientID <> ""%string -> rf_ClientOrderID v <> ""%string -> rf_ClientOrderID v = TrimSpace clientID) /\
     (TrimSpace venueID <> ""%string -> rf_VenueOrderID v <> ""%string -> rf_VenueOrderID v = TrimSpace venueID)) /\
  (forall now u next now', snapshotOf (D := D) now key u = Some next ->
     (forall node prev, let c := expireSomeLocked recentFillAverageExpireScanLimit now (runCache ops) in
        findLocked c key (rf_ClientOrderID next) (rf_VenueOrderID next) = Some node -> fc_nodes c !! node = Some prev ->
        fillAverageNewer next prev = true) ->
     now' < now + recentFillAverageTTL ->
     fst (lookupRecent now' key (ou_ClientOrderID u) (ou_VenueOrderID u) (remember (D := D) now key u (runCache ops))) = Some next).
Proof.
  intros Hops Hclean. apply runCache_sound in Hops. generalize dependent (runCache ops). clear ops. intros c Hc. split.
  - intros now clientID venueID v c' H. unfold lookupRecent in H.
    apply (expireSome_sound recentFillAverageExpireScanLimit now) in Hc.
    destruct (findLocked _ _ _ _) as [node|] eqn:Ef; [|done].
    destruct (find_sound _ _ _ _ _ Hc Hclean Ef) as (_ & w & Hw & Ekw & Hid). rewrite Hw in H.
    unfold TimeBefore in H. destruct (Z.ltb_spec now (rf_ExpiresAt w)); [|done]. cbn [negb] in H.
    destruct (fillAverageIDsMatch w _ _) eqn:Em; [|done]. injection H as <- _. split; [done|]. split; [done|]. split; [done|].
    by apply fillAverageIDsMatch_agrees.
  - intros now u next now' Es Hnew Ht. destruct (remember_stores now key u c next Hclean Hc Es Hnew) as (node & Hn & Hcl & Hve).
    pose proof (snapshotOf_key _ _ _ _ Es) as (Ek & Ee & Eci & Evi).
    assert (TimeBefore now' (rf_ExpiresAt next) = true) as Hb by (rewrite Ee; unfold TimeBefore, TimeAdd; by apply Z.ltb_lt).
    unfold lookupRecent. set (c1 := remember now key u c) in *.
    destruct (expireSome_keeps recentFillAverageExpireScanLimit now' c1 node next Hn Hb) as (E1 & _ & H1 & H2).
    rewrite <- Eci, <- Evi. set (c2 := expireSomeLocked _ now' c1) in *.
    assert (rf_ClientOrderID next <> ""%string \/ rf_VenueOrderID next <> ""%string) as Hsome.
    { unfold snapshotOf in Es. rewrite <- Eci, <- Evi in Es. destruct (String.eqb_spec (rf_ClientOrderID next) ""); [|by left].
      destruct (String.eqb_spec (rf_VenueOrderID next) ""); [done|by right]. }
    assert (exists n, findLocked c2 key (rf_ClientOrderID next) (rf_VenueOrderID next) = Some n /\ fc_nodes c2 !! n = Some next) as (n & Hf & Hn2).
    { exists node. rewrite E1. split; [|done]. unfold findLocked. destruct (String.eqb_spec (rf_ClientOrderID next) "").
      - destruct (String.eqb_spec (rf_VenueOrderID next) ""); [tauto|]. by apply H2, Hve.
      - by rewrite (H1 _ (Hcl n)). }
    rewrite Hf, Hn2, Hb. cbn [negb]. enough (fillAverageIDsMatch next (rf_ClientOrderID next) (rf_VenueOrderID next) = true) as -> by done.
    unfold fillAverageIDsMatch. rewrite !String.eqb_refl. rewrite !andb_true_r, !andb_false_r.
    destruct (String.eqb_spec (rf_ClientOrderID next) ""), (String.eqb_spec (rf_VenueOrderID next) ""); cbn; tauto.
Qed.
#[local] Transparent recentFillAverageExpireScanLimit.
End FillCacheFacts.

(** ** Witnesses *)

Definition hyperKey : StreamKey := mkStreamKey "7" "hyperliquid" "perpetual".
Definition report (status cumulative : string) (sequence : Z) : Update :=
  (baseUpdate UpdateOrder hyperKey 0) <| ou_ClientOrderID := "0xclient"%string |> <| ou_VenueOrderID := "49"%string |>
    <| ou_Status := status |> <| ou_CumulativeFilled := cumulative |> <| ou_Sequence := sequence |>.
Definition hyperReports : list Update :=
  [report "new" "1" 10; report "new" "1" 10; report "new" "0.5" 9; report "filled" "2" 11; report "new" "1" 12].
Definition emptyDEX : DEXState := mkDEXState ∅ ∅.

Lemma dex_reports_monotone_witness :
  map ou_Status (snd (reduceAll (D := Dec) "hyperliquid" emptyDEX hyperReports)) = ["new"; "filled"]%string /\
  StronglySorted (advances (D := Dec))
    (List.filter (fun v => ou_ClientOrderID v =?s "0xclient") (snd (reduceAll (D := Dec) "hyperliquid" emptyDEX hyperReports))).
Proof.
  split; [vm_compute; reflexivity|]. destruct (reduceAll (D := Dec) "hyperliquid" emptyDEX hyperReports) as [d' outs] eqn:E.
  pose proof (dex_reports_monotone (D := Dec) "hyperliquid" "0xclient" hyperReports emptyDEX d' outs eq_refl) as H.
  specialize (H ltac:(unfold hyperReports; repeat (constructor; [repeat split; discriminate|]); constructor) E).
  exact (proj1 H).
Defined.

Definition pricedReport : Update := (report "filled" "2" 11) <| ou_AveragePrice := "100.5"%string |>.

Lemma recent_average_roundtrip_witness :
  exists next, snapshotOf (D := Dec) 0 hyperKey pricedReport = Some next /\ rf_AveragePrice next = "100.5"%string /\
    fst (lookupRecent 5 hyperKey "0xclient" "49" (remember (D := Dec) 0 hyperKey pricedReport newRecentFillCache)) = Some next.
Proof.
  destruct (snapshotOf (D := Dec) 0 hyperKey pricedReport) as [next|] eqn:E; [|vm_compute in E; discriminate E].
  exists next. split; [reflexivity|]. split; [vm_compute in E; injection E as <-; reflexivity|].
  assert (cleanKey hyperKey) as Hk by (repeat split).
  pose proof (recent_average_roundtrip (D := Dec) [] hyperKey (Forall_nil_2 _) Hk) as H.
  apply (proj2 H 0 pricedReport next 5 E); [|reflexivity].
  intros node prev c Hf. vm_compute in E. injection E as <-. vm_compute in Hf. discriminate Hf.
Defined.
