(* ===== verification/StreamManager.v ===== *)
(** * The manager of the private streams (orderstream/manager.go, disconnect.go)

    Subscribers of one account share a session; each subscriber and each
    watcher of an order has a buffered channel, and a full channel drops its
    oldest report.  Sessions and channels are shared and closed by several
    goroutines, so the model keeps a heap of each, with the addresses the maps
    of the manager hold; a send on a closed channel or a second close is a
    panic, [None].  A session connects in its own goroutine, whose steps are
    interleaved with the calls of the subscribers.

    Every operation holds the mutex from its first to its last access, and is
    one transition.  The range over a map visits the channels in the order of
    [map_to_list]; the channels of a session are different, so the order is
    not observable.  Logging and the context goroutines that close a
    subscription are left out: the latter call [Close] at some time. *)
From Stdlib Require Import ZArith String Ascii.
From stdpp Require Import base strings list gmap.
From S2P Require Import Prelude Decimal DecimalRef Types Quantity OrderStream.

#[local] Set Warnings "-clear-no-such-hyp".

(** Unsigned 64-bit counters. *)
Definition u64 (z : Z) : Z := z mod 2 ^ 64.

(** ** State *)

(** [chan Update]: its capacity, what it holds, oldest first. *)
Record Chan := mkChan { ch_cap : nat; ch_buf : list Update; ch_closed : bool }.
#[export] Instance eta_Chan : Eta Chan := fun c => mkChan (ch_cap c) (ch_buf c) (ch_closed c).

Record session := mkSession {
  ss_key : StreamKey;
  ss_credentials : StreamCredentials;
  ss_canceled : bool;
  ss_refs : Z;
  ss_nextID : Z;
  ss_subs : gmap Z nat;
  ss_watchers : gmap string (gmap Z nat);
  ss_dex : DEXState;
  ss_healthy : bool;
  ss_lastEvent : GoTime;
  ss_generation : Z;
  ss_idleTimer : bool
}.
#[export] Instance eta_session : Eta session := fun s =>
  mkSession (ss_key s) (ss_credentials s) (ss_canceled s) (ss_refs s) (ss_nextID s) (ss_subs s) (ss_watchers s) (ss_dex s)
    (ss_healthy s) (ss_lastEvent s) (ss_generation s) (ss_idleTimer s).

Definition newSession (key : StreamKey) (credentials : StreamCredentials) : session :=
  mkSession key credentials false 0 0 ∅ ∅ (mkDEXState ∅ ∅) false zeroTime 0 false.

Record Manager := mkManager {
  sm_idleTimeout : Duration;
  sm_parsers : gset string;
  sm_sessions : gmap StreamKey nat;
  sm_heap : gmap nat session;
  sm_chans : gmap nat Chan;
  sm_nextSession : nat;
  sm_nextChan : nat;
  sm_closed : bool;
  sm_updates : Z;
  sm_dropped : Z;
  sm_fillAverages : recentFillCache
}.
#[export] Instance eta_Manager : Eta Manager := fun m =>
  mkManager (sm_idleTimeout m) (sm_parsers m) (sm_sessions m) (sm_heap m) (sm_chans m) (sm_nextSession m) (sm_nextChan m)
    (sm_closed m) (sm_updates m) (sm_dropped m) (sm_fillAverages m).

Definition newManager (idleTimeout : Duration) (parsers : gset string) : Manager :=
  mkManager (if idleTimeout =? 0 then 5 * Minute else idleTimeout) parsers ∅ ∅ ∅ 0 0 false 0 0 newRecentFillCache.

(** ** Channels *)

(** [make(chan Update, cap)] *)
Definition makeChan (cap : nat) (m : Manager) : nat * Manager :=
  (sm_nextChan m, m <| sm_chans := <[sm_nextChan m := mkChan cap [] false]> (sm_chans m) |> <| sm_nextChan := S (sm_nextChan m) |>).

(** [close(channel)]; a closed channel panics. *)
Definition closeChan (c : nat) (m : Manager) : option Manager :=
  match sm_chans m !! c with
  | Some ch => if ch_closed ch then None else Some (m <| sm_chans := <[c := ch <| ch_closed := true |>]> (sm_chans m) |>)
  | None => None
  end.

Fixpoint closeChans (cs : list nat) (m : Manager) : option Manager :=
  match cs with
  | [] => Some m
  | c :: rest => match closeChan c m with Some m => closeChans rest m | None => None end
  end.

(** The buffer after [send] tries to put [u] in it, and whether a report was
    counted as dropped.  Readers receive without the mutex: [r1] is what they
    take between the first and the second [select], [r2] what they take
    between the second and the third. *)
Definition sendBuf (cap : nat) (r1 r2 : nat) (u : Update) (buf : list Update) : list Update * bool :=
  if (length buf <? cap)%nat then (buf ++ [u], false)
  else
    let buf := drop 1 (drop r1 buf) in
    let buf := drop r2 buf in
    (if (length buf <? cap)%nat then buf ++ [u] else buf, true).

(** [m.send]; a send on a closed channel panics. *)
Definition send (receives : nat -> nat * nat) (u : Update) (c : nat) (m : Manager) : option Manager :=
  match sm_chans m !! c with
  | Some ch =>
      if ch_closed ch then None
      else
        let '(buf, full) := sendBuf (ch_cap ch) (fst (receives c)) (snd (receives c)) u (ch_buf ch) in
        let m := m <| sm_chans := <[c := ch <| ch_buf := buf |>]> (sm_chans m) |> in
        Some (if full then m <| sm_dropped := u64 (sm_dropped m + 1) |> else m)
  | None => None
  end.

Fixpoint sendAll (receives : nat -> nat * nat) (u : Update) (cs : list nat) (m : Manager) : option Manager :=
  match cs with
  | [] => Some m
  | c :: rest => match send receives u c m with Some m => sendAll receives u rest m | None => None end
  end.

(** ** Sessions *)

Definition putSession (a : nat) (s : session) (m : Manager) : Manager := m <| sm_heap := <[a := s]> (sm_heap m) |>.

(** [m.sessions[current.key] == current] *)
Definition isCurrent (m : Manager) (a : nat) (s : session) : bool := bool_decide (sm_sessions m !! ss_key s = Some a).

Definition channelsOf (w : gmap Z nat) : list nat := map snd (map_to_list w).
Definition watchChannels (s : session) : list nat := flat_map (fun kw => channelsOf (snd kw)) (map_to_list (ss_watchers s)).

(** [closeWatchersLocked] *)
Definition closeWatchersLocked (a : nat) (s : session) (m : Manager) : option (session * Manager) :=
  match closeChans (watchChannels s) m with
  | Some m => let s := s <| ss_watchers := ∅ |> in Some (s, putSession a s m)
  | None => None
  end.

(** The first part of [Subscribe]: the session of the key, unless it is idle
    with other credentials, in which case it is retired. *)
Definition retireMismatched (key : StreamKey) (credentials : StreamCredentials) (m : Manager) : option (option nat * Manager) :=
  match sm_sessions m !! key with
  | None => Some (None, m)
  | Some a =>
      match sm_heap m !! a with
      | None => Some (None, m)
      | Some s =>
          if negb (credentialsEqual (ss_credentials s) credentials) && (ss_refs s =? 0) then
            let m := m <| sm_sessions := delete key (sm_sessions m) |> in
            match closeWatchersLocked a (s <| ss_canceled := true |>) m with
            | Some (_, m) => Some (None, m)
            | None => None
            end
          else Some (Some a, m)
      end
  end.

(** The new subscriber of session [a]: its identifier and channel. *)
Definition addSubscriber (a : nat) (s : session) (m : Manager) : Z * nat * Manager :=
  let id := u64 (ss_nextID s + 1) in
  let '(c, m) := makeChan 64 m in
  (id, c, putSession a (s <| ss_idleTimer := false |> <| ss_nextID := id |> <| ss_subs := <[id := c]> (ss_subs s) |>
                          <| ss_refs := ss_refs s + 1 |>) m).

(** A [Subscription]: its session, identifier and channel. *)
Record Subscription := mkSubscription { sb_session : nat; sb_id : Z; sb_updates : nat }.

Definition checkSubscribe (m : Manager) (key : StreamKey) (credentials : StreamCredentials) : StreamKey + StreamError :=
  match normalized key with
  | inr e => inr e
  | inl k =>
      match validateCredentials credentials (sk_Venue k) with
      | Some e => inr e
      | None =>
          if ((sk_Venue k =?s "okx") || (sk_Venue k =?s "bitget")) && blank (sc_Passphrase credentials)
          then inr (ErrStreamCredentials (sk_Venue k ++ " order stream credentials require passphrase"))
          else if negb (bool_decide (sk_Venue k ∈ sm_parsers m)) then inr (ErrUnsupportedKey ("no parser for venue " ++ quoted (sk_Venue k)))
          else inl k
      end
  end.

(** [Subscribe]; a new session starts its goroutine. *)
Definition Subscribe (key : StreamKey) (credentials : StreamCredentials) (m : Manager)
    : option ((Subscription + StreamError) * Manager) :=
  match checkSubscribe m key credentials with
  | inr e => Some (inr e, m)
  | inl k =>
      if sm_closed m then Some (inr ErrClosed, m)
      else match retireMismatched k credentials m with
      | None => None
      | Some (current, m) =>
          let '(a, s, m) :=
            match current with
            | Some a => (a, default (newSession k credentials) (sm_heap m !! a), m)
            | None =>
                let a := sm_nextSession m in
                (a, newSession k credentials,
                 putSession a (newSession k credentials)
                   (m <| sm_sessions := <[k := a]> (sm_sessions m) |> <| sm_nextSession := S a |>))
            end in
          if negb (credentialsEqual (ss_credentials s) credentials) then Some (inr ErrCredentialMismatch, m)
          else
            let '(id, c, m) := addSubscriber a s m in
            Some (inl (mkSubscription a id c), m)
      end
  end.

(** [watchOrder] on the session at [a] *)
Definition watchOrder (a : nat) (clientOrderID : string) (m : Manager) : (Z * nat + StreamError) * Manager :=
  if clientOrderID =?s "" then (inr ErrClientOrderIDRequired, m)
  else match sm_heap m !! a with
  | None => (inr ErrClosed, m)
  | Some s =>
      if sm_closed m || negb (isCurrent m a s) then (inr ErrClosed, m)
      else
        let id := u64 (ss_nextID s + 1) in
        let '(c, m) := makeChan 16 m in
        let w := default ∅ (ss_watchers s !! clientOrderID) in
        (inl (id, c), putSession a (s <| ss_nextID := id |>
                                      <| ss_watchers := <[clientOrderID := <[id := c]> w]> (ss_watchers s) |>) m)
  end.

(** [Manager.WatchOrder] *)
Definition WatchOrder (key : StreamKey) (clientOrderID : string) (m : Manager) : (Z * nat + StreamError) * Manager :=
  match normalized key with
  | inr e => (inr e, m)
  | inl k =>
      match sm_sessions m !! k with
      | None => (inr ErrNoSession, m)
      | Some a => watchOrder a clientOrderID m
      end
  end.

(** [unsubscribe] *)
Definition unsubscribe (a : nat) (id : Z) (m : Manager) : option Manager :=
  match sm_heap m !! a with
  | None => Some m
  | Some s =>
      if negb (isCurrent m a s) then Some m
      else match ss_subs s !! id with
      | None => Some m
      | Some c =>
          match closeChan c m with
          | None => None
          | Some m =>
              let s := s <| ss_subs := delete id (ss_subs s) |> <| ss_refs := ss_refs s - 1 |> in
              let m := putSession a s m in
              if ss_refs s =? 0 then
                match closeWatchersLocked a s m with
                | None => None
                | Some (s, m) =>
                    Some (if sm_idleTimeout m <=? 0
                          then putSession a (s <| ss_canceled := true |>) (m <| sm_sessions := delete (ss_key s) (sm_sessions m) |>)
                          else putSession a (s <| ss_idleTimer := true |>) m)
                end
              else Some m
          end
      end
  end.

(** [expireIdle]; a timer that was stopped too late may still call it. *)
Definition expireIdle (a : nat) (m : Manager) : option Manager :=
  match sm_heap m !! a with
  | None => Some m
  | Some s =>
      if negb (isCurrent m a s) || negb (ss_refs s =? 0) then Some m
      else
        let m := m <| sm_sessions := delete (ss_key s) (sm_sessions m) |> in
        match closeWatchersLocked a (s <| ss_idleTimer := false |> <| ss_canceled := true |>) m with
        | Some (_, m) => Some m
        | None => None
        end
  end.

(** [closeWatch] *)
Definition closeWatch (a : nat) (clientOrderID : string) (id : Z) (m : Manager) : option Manager :=
  match sm_heap m !! a with
  | None => Some m
  | Some s =>
      let w := default ∅ (ss_watchers s !! clientOrderID) in
      match w !! id with
      | None => Some m
      | Some c =>
          match closeChan c m with
          | None => None
          | Some m =>
              let w := delete id w in
              Some (putSession a (s <| ss_watchers := if bool_decide (w = ∅) then delete clientOrderID (ss_watchers s)
                                                      else <[clientOrderID := w]> (ss_watchers s) |>) m)
          end
      end
  end.

(** [BindClientVenueIDs] *)
Definition BindClientVenueIDs (key : StreamKey) (clientOrderID venueOrderID : string) (m : Manager) : Manager :=
  let clientOrderID := TrimSpace clientOrderID in
  let venueOrderID := TrimSpace venueOrderID in
  if (clientOrderID =?s "") || (venueOrderID =?s "") then m
  else match normalized key with
  | inr _ => m
  | inl k =>
      match sm_sessions m !! k with
      | None => m
      | Some a =>
          match sm_heap m !! a with
          | None => m
          | Some s =>
              if sm_closed m then m
              else
                let states := dx_orderState (ss_dex s) in
                let client := default zero_Update (states !! clientEntry clientOrderID) in
                let client := if ou_ClientOrderID client =?s "" then client <| ou_ClientOrderID := clientOrderID |> else client in
                let states := <[clientEntry clientOrderID := client <| ou_VenueOrderID := venueOrderID |>]> states in
                let venue := default zero_Update (states !! venueEntry venueOrderID) in
                let venue := if ou_VenueOrderID venue =?s "" then venue <| ou_VenueOrderID := venueOrderID |> else venue in
                let states := <[venueEntry venueOrderID := venue <| ou_ClientOrderID := clientOrderID |>]> states in
                putSession a (s <| ss_dex := (ss_dex s) <| dx_orderState := states |> |>) m
          end
      end
  end.

Definition Healthy (key : StreamKey) (m : Manager) : bool :=
  match normalized key with
  | inr _ => false
  | inl k => match sm_sessions m !! k with
             | None => false
             | Some a => match sm_heap m !! a with Some s => isCurrent m a s && ss_healthy s | None => false end
             end
  end.

(** [Subscription.Generation] *)
Definition Generation (a : nat) (m : Manager) : Z :=
  match sm_heap m !! a with Some s => if isCurrent m a s then ss_generation s else 0 | None => 0 end.

(** ** Publishing *)

Section Publish.
Context {D : Type} `{!Decimal D}.

(** The channels a report goes to. *)
Definition targets (s : session) (u : Update) : list nat :=
  channelsOf (ss_subs s) ++
  (if ou_ClientOrderID u =?s "" then [] else channelsOf (default ∅ (ss_watchers s !! ou_ClientOrderID u))).

Definition publishLocked (receives : nat -> nat * nat) (s : session) (u : Update) (m : Manager) : option Manager :=
  sendAll receives u (targets s u) (m <| sm_updates := u64 (sm_updates m + 1) |>).

Definition touch (now : GoTime) (a : nat) (m : Manager) : Manager :=
  match sm_heap m !! a with
  | Some s => if isCurrent m a s then putSession a (s <| ss_lastEvent := now |>) m else m
  | None => m
  end.

Definition setConnectionState (now : GoTime) (receives : nat -> nat * nat) (a : nat) (healthy : bool) (cause : string)
    (m : Manager) : option Manager :=
  match sm_heap m !! a with
  | None => Some m
  | Some s =>
      if negb (isCurrent m a s) then Some m
      else
        let u := (baseUpdate UpdateConnection (ss_key s) now) <| ou_Status := if healthy then "connected"%string else "disconnected"%string |> in
        let u := if healthy then u else u <| ou_Error := cause |> in
        let s := s <| ss_healthy := healthy |>
                   <| ss_generation := if healthy then u64 (ss_generation s + 1) else ss_generation s |> <| ss_lastEvent := now |> in
        publishLocked receives s u (putSession a s m)
  end.

Definition rememberRecentFillAverage (now : GoTime) (key : StreamKey) (u : Update) (m : Manager) : Manager :=
  match normalized key with
  | inr _ => m
  | inl k => m <| sm_fillAverages := remember (D := D) now k u (sm_fillAverages m) |>
  end.

Definition publish (now : GoTime) (receives : nat -> nat * nat) (a : nat) (u : Update) (m : Manager) : option Manager :=
  match sm_heap m !! a with
  | None => Some m
  | Some s =>
      if negb (isCurrent m a s) then Some m
      else
        let '(dex, out) := reduceDEXUpdateLocked (D := D) (sk_Venue (ss_key s)) (ss_dex s) u in
        match out with
        | None => Some (putSession a (s <| ss_dex := dex |>) m)
        | Some u =>
            let s := s <| ss_dex := dex |> <| ss_lastEvent := now |> in
            publishLocked receives s u (rememberRecentFillAverage now (ss_key s) u (putSession a s m))
        end
  end.
End Publish.

(** ** Closing *)

(** What [Close] does to one session of the map. *)
Definition closeSession (a : nat) (m : Manager) : option Manager :=
  match sm_heap m !! a with
  | None => Some m
  | Some s =>
      match closeChans (channelsOf (ss_subs s)) m with
      | None => None
      | Some m =>
          match closeWatchersLocked a (s <| ss_subs := ∅ |> <| ss_idleTimer := false |> <| ss_canceled := true |>) m with
          | Some (_, m) => Some m
          | None => None
          end
      end
  end.

Fixpoint closeSessions (l : list (StreamKey * nat)) (m : Manager) : option Manager :=
  match l with
  | [] => Some m
  | (k, a) :: rest =>
      match closeSession a (m <| sm_sessions := delete k (sm_sessions m) |>) with
      | Some m => closeSessions rest m
      | None => None
      end
  end.

(** [Close]; the contexts are canceled after the mutex is released and before
    [Close] waits for the goroutines. *)
Definition Close (m : Manager) : option Manager :=
  if sm_closed m then Some m
  else closeSessions (map_to_list (sm_sessions m)) (m <| sm_closed := true |>).

(** [Stats]: sessions, healthy ones, references, watchers. *)
Definition Stats (m : Manager) : Z * Z * Z * Z :=
  fold_left (fun '(n, h, r, w) s =>
      (n + 1, (if ss_healthy s then h + 1 else h), u64 (r + ss_refs s), w + Z.of_nat (length (watchChannels s))))
    (omap (fun ka => sm_heap m !! snd ka) (map_to_list (sm_sessions m))) (0, 0, 0, 0).

(** ** The calls, in any order *)

(** A reader takes the oldest report of a channel. *)
Definition receive (c : nat) (m : Manager) : Manager :=
  match sm_chans m !! c with
  | Some ch => m <| sm_chans := <[c := ch <| ch_buf := drop 1 (ch_buf ch) |>]> (sm_chans m) |>
  | None => m
  end.

(** Calls of subscribers, timers, readers and the goroutines of the sessions;
    a session is a pointer, an address. *)
Inductive Op :=
| OpSubscribe (key : StreamKey) (credentials : StreamCredentials)
| OpWatchOrder (key : StreamKey) (clientOrderID : string)
| OpSessionWatch (a : nat) (clientOrderID : string)
| OpUnsubscribe (a : nat) (id : Z)
| OpExpireIdle (a : nat)
| OpCloseWatch (a : nat) (clientOrderID : string) (id : Z)
| OpBind (key : StreamKey) (clientOrderID venueOrderID : string)
| OpTouch (now : GoTime) (a : nat)
| OpConnection (now : GoTime) (receives : nat -> nat * nat) (a : nat) (healthy : bool) (cause : string)
| OpPublish (now : GoTime) (receives : nat -> nat * nat) (a : nat) (u : Update)
| OpReceive (c : nat)
| OpClose.

Section Calls.
Context {D : Type} `{!Decimal D}.

Definition exec (op : Op) (m : Manager) : option Manager :=
  match op with
  | OpSubscribe key credentials => option_map snd (Subscribe key credentials m)
  | OpWatchOrder key clientOrderID => Some (snd (WatchOrder key clientOrderID m))
  | OpSessionWatch a clientOrderID => Some (snd (watchOrder a clientOrderID m))
  | OpUnsubscribe a id => unsubscribe a id m
  | OpExpireIdle a => expireIdle a m
  | OpCloseWatch a clientOrderID id => closeWatch a clientOrderID id m
  | OpBind key clientOrderID venueOrderID => Some (BindClientVenueIDs key clientOrderID venueOrderID m)
  | OpTouch now a => Some (touch now a m)
  | OpConnection now receives a healthy cause => setConnectionState now receives a healthy cause m
  | OpPublish now receives a u => publish (D := D) now receives a u m
  | OpReceive c => Some (receive c m)
  | OpClose => Close m
  end.

Fixpoint execs (ops : list Op) (m : Manager) : option Manager :=
  match ops with
  | [] => Some m
  | op :: rest => match exec op m with Some m => execs rest m | None => None end
  end.
End Calls.

(** ** Facts: channels *)

Definition isOpen (m : Manager) (c : nat) : Prop := exists ch, sm_chans m !! c = Some ch /\ ch_closed ch = false.

Definition chanFits (ch : Chan) : Prop := (0 < ch_cap ch)%nat /\ (length (ch_buf ch) <= ch_cap ch)%nat.

Lemma sendBuf_fits cap r1 r2 u buf :
  (0 < cap)%nat -> (length buf <= cap)%nat ->
  exists kept, fst (sendBuf cap r1 r2 u buf) = kept ++ [u] /\ (length kept < cap)%nat /\ kept `suffix_of` buf.
Proof.
  intros Hc Hl. unfold sendBuf. destruct (Nat.ltb_spec (length buf) cap) as [H|H].
  - exists buf. split; [done|]. split; [done|]. done.
  - exists (drop r2 (drop 1 (drop r1 buf))). cbn [fst].
    assert (length (drop r2 (drop 1 (drop r1 buf))) < cap)%nat as Hlt by (rewrite !length_drop; lia).
    destruct (Nat.ltb_spec (length (drop r2 (drop 1 (drop r1 buf)))) cap); [|lia]. split; [done|]. split; [done|].
    rewrite !drop_drop. eexists. symmetry. apply take_drop.
Qed.

Lemma closeChans_ok cs m :
  NoDup cs -> Forall (isOpen m) cs ->
  exists chans', closeChans cs m = Some (m <| sm_chans := chans' |>) /\
    (forall c, c ∉ cs -> chans' !! c = sm_chans m !! c) /\
    (forall c, c ∈ cs -> chans' !! c = (fun ch => ch <| ch_closed := true |>) <$> sm_chans m !! c).
Proof.
  revert m. induction cs as [|c cs IH]; intros m Hn Ho; cbn.
  { exists (sm_chans m). split; [by destruct m|]. split; [done|]. intros c Hc. by apply not_elem_of_nil in Hc. }
  apply NoDup_cons in Hn as [Hc Hn]. apply Forall_cons in Ho as [(ch & Hch & Hopen) Ho].
  unfold closeChan. rewrite Hch, Hopen.
  destruct (IH (m <| sm_chans := <[c := ch <| ch_closed := true |>]> (sm_chans m) |>)) as (chans' & E & H1 & H2); [done| |].
  { apply Forall_forall. intros x Hx. rewrite Forall_forall in Ho. destruct (Ho x Hx) as (xh & Hxh & Hxo).
    exists xh. split; [|done]. cbn. rewrite lookup_insert_ne; [done|]. by intros ->. }
  exists chans'. split; [done|]. cbn in H1, H2. split.
  - intros x [Hx Hxs]%not_elem_of_cons. rewrite H1 by done. by rewrite lookup_insert_ne.
  - intros x Hx. destruct (decide (x = c)) as [->|Hne].
    + rewrite H1, lookup_insert_eq, Hch by done. done.
    + apply elem_of_cons in Hx as [?|Hx]; [done|]. rewrite H2 by done. by rewrite lookup_insert_ne.
Qed.

(** What [send] leaves in a channel. *)
Definition sent (receives : nat -> nat * nat) (u : Update) (c : nat) (ch : Chan) : Chan :=
  ch <| ch_buf := fst (sendBuf (ch_cap ch) (fst (receives c)) (snd (receives c)) u (ch_buf ch)) |>.

Lemma sendAll_ok receives u cs m :
  NoDup cs -> Forall (isOpen m) cs ->
  exists chans' dropped, sendAll receives u cs m = Some (m <| sm_chans := chans' |> <| sm_dropped := dropped |>) /\
    (forall c, c ∉ cs -> chans' !! c = sm_chans m !! c) /\
    (forall c, c ∈ cs -> chans' !! c = sent receives u c <$> sm_chans m !! c).
Proof.
  revert m. induction cs as [|c cs IH]; intros m Hn Ho; cbn.
  { exists (sm_chans m), (sm_dropped m). split; [by destruct m|]. split; [done|]. intros c Hc. by apply not_elem_of_nil in Hc. }
  apply NoDup_cons in Hn as [Hc Hn]. apply Forall_cons in Ho as [(ch & Hch & Hopen) Ho].
  unfold send. rewrite Hch, Hopen. destruct (sendBuf _ _ _ _ _) as [buf full] eqn:Eb.
  set (m1 := m <| sm_chans := <[c := ch <| ch_buf := buf |>]> (sm_chans m) |>).
  set (m2 := if full then _ else _).
  assert (sm_chans m2 = <[c := ch <| ch_buf := buf |>]> (sm_chans m)) as Em2 by (unfold m2; by destruct full).
  destruct (IH m2) as (chans' & dropped & E & H1 & H2); [done| |].
  { apply Forall_forall. intros x Hx. rewrite Forall_forall in Ho. destruct (Ho x Hx) as (xh & Hxh & Hxo).
    exists xh. split; [|done]. rewrite Em2, lookup_insert_ne; [done|]. by intros ->. }
  exists chans', dropped. split; [rewrite E; unfold m2, m1; by destruct full|]. rewrite Em2 in H1, H2. split.
  - intros x [Hx Hxs]%not_elem_of_cons. rewrite H1 by done. by rewrite lookup_insert_ne.
  - intros x Hx. destruct (decide (x = c)) as [->|Hne].
    + rewrite H1, lookup_insert_eq, Hch by done. cbn. unfold sent. by rewrite Eb.
    + apply elem_of_cons in Hx as [?|Hx]; [done|]. rewrite H2 by done. by rewrite lookup_insert_ne.
Qed.

(** ** Facts: the invariant *)

(** A place of a session that holds a channel: a subscriber, or a watcher of
    an order. *)
Definition Slot : Type := (Z + string * Z)%type.
Definition slot (s : session) (o : Slot) : option nat :=
  match o with
  | inl id => ss_subs s !! id
  | inr (clientOrderID, id) => match ss_watchers s !! clientOrderID with Some w => w !! id | None => None end
  end.
Definition slotID (o : Slot) : Z := match o with inl id | inr (_, id) => id end.
Definition vacant (s : session) : Prop := forall o, slot s o = None.

Definition holds (m : Manager) (a : nat) (o : Slot) (c : nat) : Prop :=
  exists s, sm_heap m !! a = Some s /\ slot s o = Some c.

(** After [n] calls: the sessions of the map count their subscribers, the
    others hold nothing; identifiers are below the counter; a channel is in one
    place only, and open as long as it is there. *)
Record Sound (n : Z) (m : Manager) : Prop := {
  so_live : forall k a, sm_sessions m !! k = Some a -> exists s, sm_heap m !! a = Some s /\ ss_key s = k /\
    ss_canceled s = false /\ ss_refs s = Z.of_nat (size (ss_subs s));
  so_dead : forall a s, sm_heap m !! a = Some s -> sm_sessions m !! ss_key s <> Some a -> vacant s /\ ss_canceled s = true;
  so_ids : forall a s, sm_heap m !! a = Some s -> 0 <= ss_nextID s <= n /\ forall o c, slot s o = Some c -> slotID o <= ss_nextID s;
  so_once : forall a1 a2 o1 o2 c, holds m a1 o1 c -> holds m a2 o2 c -> a1 = a2 /\ o1 = o2;
  so_open : forall a o c, holds m a o c -> isOpen m c;
  so_chan : forall c ch, sm_chans m !! c = Some ch -> (c < sm_nextChan m)%nat /\ chanFits ch;
  so_heap : forall a s, sm_heap m !! a = Some s -> (a < sm_nextSession m)%nat
}.

Lemma Sound_mono n n' m : n <= n' -> Sound n m -> Sound n' m.
Proof.
  intros Hn [H1 H2 H3 H4 H5 H6 H7]. constructor; try done. intros a s Hs. destruct (H3 a s Hs) as [? ?]. split; [lia|done].
Qed.

(** A call rewrites the session at [a], from [s] to [s'], and channels. *)
Record Rewrites (n : Z) (m m' : Manager) (a : nat) (s s' : session) : Prop := {
  rw_old : sm_heap m !! a = Some s \/ sm_heap m !! a = None /\ vacant s;
  rw_heap : sm_heap m' = <[a := s']> (sm_heap m);
  rw_sessions : forall k b, b <> a -> sm_sessions m' !! k = Some b <-> sm_sessions m !! k = Some b;
  rw_key : forall k, sm_sessions m' !! k = Some a -> k = ss_key s';
  rw_keep : ss_key s' = ss_key s \/ sm_heap m !! a = None;
  rw_live : sm_sessions m' !! ss_key s' = Some a -> ss_canceled s' = false /\ ss_refs s' = Z.of_nat (size (ss_subs s'));
  rw_dead : sm_sessions m' !! ss_key s' <> Some a -> vacant s' /\ ss_canceled s' = true;
  rw_ids : 0 <= ss_nextID s' <= n /\ forall o c, slot s' o = Some c -> slotID o <= ss_nextID s';
  rw_slots : forall o c, slot s' o = Some c -> isOpen m' c /\
    (slot s o = Some c \/ c = sm_nextChan m /\ forall o', slot s' o' = Some c -> o' = o);
  rw_others : forall b o c, b <> a -> holds m b o c -> isOpen m' c;
  rw_chan : forall c ch, sm_chans m' !! c = Some ch -> (c < sm_nextChan m')%nat /\ chanFits ch;
  rw_nextChan : (sm_nextChan m <= sm_nextChan m')%nat;
  rw_next : (sm_nextSession m <= sm_nextSession m')%nat /\ (a < sm_nextSession m')%nat
}.

Lemma rewrites_sound n m m' a s s' : Sound n m -> Rewrites n m m' a s s' -> Sound n m'.
Proof.
  intros [S1 S2 S3 S4 S5 S6 S7] [Ro Rh Rs Rk Rkeep Rl Rd Ri Rsl Roth Rch Rnc [Rn1 Rn2]].
  assert (forall b o c, holds m' b o c -> b = a /\ slot s' o = Some c \/ b <> a /\ holds m b o c) as Hholds.
  { intros b o c (t & Ht & Hc). rewrite Rh in Ht. apply lookup_insert_Some in Ht as [[<- <-]|[Hne Ht]]; [by left|right].
    split; [done|]. by exists t. }
  assert (forall o c, slot s o = Some c -> holds m a o c) as Hold.
  { intros o c Hc. destruct Ro as [Ro|[_ Ro]]; [by exists s|]. by rewrite Ro in Hc. }
  assert (forall b o, ~ holds m b o (sm_nextChan m)) as Hfresh.
  { intros b o Hb. destruct (S5 _ _ _ Hb) as (ch & Hch & _). destruct (S6 _ _ Hch). lia. }
  assert (forall b o o' c, b <> a -> holds m b o c -> slot s' o' = Some c -> False) as Happart.
  { intros b o o' c Hb Hc Hc'. destruct (Rsl _ _ Hc') as [_ [Hs|[-> _]]]; [|by eapply Hfresh].
    destruct (S4 _ _ _ _ _ Hc (Hold _ _ Hs)). done. }
  constructor.
  - intros k b Hb. destruct (decide (b = a)) as [->|Hne].
    + pose proof (Rk k Hb) as ->. exists s'. rewrite Rh, lookup_insert_eq. destruct (Rl Hb). done.
    + rewrite Rs in Hb by done. destruct (S1 k b Hb) as (t & Ht & E). exists t. by rewrite Rh, lookup_insert_ne.
  - intros b t Ht Hn. rewrite Rh in Ht. apply lookup_insert_Some in Ht as [[<- <-]|[Hne Ht]]; [by apply Rd|].
    apply (S2 b t Ht). intros H. apply Hn. by rewrite Rs.
  - intros b t Ht. rewrite Rh in Ht. apply lookup_insert_Some in Ht as [[<- <-]|[Hne Ht]]; [done|]. by apply (S3 b).
  - intros a1 a2 o1 o2 c [[-> H1]|[Hn1 H1]]%Hholds [[-> H2]|[Hn2 H2]]%Hholds.
    + split; [done|]. destruct (Rsl _ _ H1) as [_ [G1|[-> U]]]; [|symmetry; by apply U].
      destruct (Rsl _ _ H2) as [_ [G2|[-> U]]]; [|by apply U]. by destruct (S4 _ _ _ _ _ (Hold _ _ G1) (Hold _ _ G2)).
    + by destruct (Happart _ _ _ _ Hn2 H2 H1).
    + by destruct (Happart _ _ _ _ Hn1 H1 H2).
    + by apply (S4 _ _ _ _ c).
  - intros b o c [[-> H]|[Hne H]]%Hholds; [by apply (Rsl o)|by eapply Roth].
  - done.
  - intros b t Ht. rewrite Rh in Ht. apply lookup_insert_Some in Ht as [[<- _]|[Hne Ht]]; [done|].
    pose proof (S7 _ _ Ht). lia.
Qed.

(** The channels of a sound session are different and open. *)
Lemma channelsOf_elem (w : gmap Z nat) c : c ∈ channelsOf w <-> exists id, w !! id = Some c.
Proof.
  unfold channelsOf. rewrite list_elem_of_In, in_map_iff. split.
  - intros ([id c'] & <- & H). exists id. by apply elem_of_map_to_list, list_elem_of_In.
  - intros (id & H). exists (id, c). split; [done|]. by apply list_elem_of_In, elem_of_map_to_list.
Qed.

Lemma channelsOf_NoDup (w : gmap Z nat) :
  (forall i j c, w !! i = Some c -> w !! j = Some c -> i = j) -> NoDup (channelsOf w).
Proof.
  intros H. unfold channelsOf. apply NoDup_fmap_2_strong; [|apply NoDup_map_to_list].
  intros [i c] [j c'] Hi Hj E. cbn in E. subst c'. apply elem_of_map_to_list in Hi, Hj. by rewrite (H _ _ _ Hi Hj).
Qed.

Lemma watchChannels_elem s c : c ∈ watchChannels s <-> exists client id, slot s (inr (client, id)) = Some c.
Proof.
  unfold watchChannels. rewrite list_elem_of_In, in_flat_map. split.
  - intros ([client w] & Hw & Hc). apply list_elem_of_In, elem_of_map_to_list in Hw.
    apply list_elem_of_In, channelsOf_elem in Hc as [id Hc]. exists client, id. cbn. by rewrite Hw.
  - intros (client & id & H). cbn in H. destruct (ss_watchers s !! client) as [w|] eqn:Hw; [|done].
    exists (client, w). split; [by apply list_elem_of_In, elem_of_map_to_list|]. apply list_elem_of_In, channelsOf_elem. by exists id.
Qed.

Lemma watchChannels_NoDup s :
  (forall o1 o2 c, slot s o1 = Some c -> slot s o2 = Some c -> o1 = o2) -> NoDup (watchChannels s).
Proof.
  intros H. unfold watchChannels.
  assert (forall l : list (string * gmap Z nat), NoDup l -> (forall kw, kw ∈ l -> ss_watchers s !! kw.1 = Some kw.2) ->
    NoDup (flat_map (fun kw => channelsOf (snd kw)) l)) as Hl.
  { induction l as [|[k w] l IH]; intros Hn Hin; [constructor|]. apply NoDup_cons in Hn as [Hk Hn]. cbn.
    assert (ss_watchers s !! k = Some w) as Hw by (apply (Hin (k, w)); by left).
    apply NoDup_app. split; [|split].
    - apply channelsOf_NoDup. intros i j c Hi Hj.
      assert ((inr (k, i) : Slot) = inr (k, j)) as E by (apply (H _ _ c); cbn; by rewrite Hw). by injection E.
    - intros c [i Hi]%channelsOf_elem Hc. apply list_elem_of_In, in_flat_map in Hc as ([k' w'] & Hin' & Hc).
      apply list_elem_of_In in Hin'. apply list_elem_of_In, channelsOf_elem in Hc as [j Hj].
      pose proof (Hin (k', w') ltac:(by right)) as Hw'. cbn in Hw', Hj.
      assert ((inr (k, i) : Slot) = inr (k', j)) as E by (apply (H _ _ c); cbn; [by rewrite Hw|by rewrite Hw']).
      injection E as <- <-. assert (w' = w) as -> by congruence. done.
    - apply IH; [done|]. intros kw Hkw. apply Hin. by right. }
  apply Hl; [apply NoDup_map_to_list|]. intros [k w] Hkw. by apply elem_of_map_to_list in Hkw.
Qed.

Lemma Sound_slots n m a s : Sound n m -> sm_heap m !! a = Some s ->
  (forall o1 o2 c, slot s o1 = Some c -> slot s o2 = Some c -> o1 = o2) /\ (forall o c, slot s o = Some c -> isOpen m c).
Proof.
  intros S Hs. split.
  - intros o1 o2 c H1 H2. apply (so_once n m S a a o1 o2 c); by exists s.
  - intros o c H. apply (so_open n m S a o c). by exists s.
Qed.

(** ** Facts: every call *)

(** Closing the channels [cs] of the session at [a], which gives them up. *)
Definition closes (m : Manager) (cs : list nat) (chans' : gmap nat Chan) : Prop :=
  (forall c, c ∉ cs -> chans' !! c = sm_chans m !! c) /\
  (forall c, c ∈ cs -> chans' !! c = (fun ch => ch <| ch_closed := true |>) <$> sm_chans m !! c).

Lemma closes_chan n m cs chans' c ch :
  Sound n m -> closes m cs chans' -> chans' !! c = Some ch -> (c < sm_nextChan m)%nat /\ chanFits ch.
Proof.
  intros S [H1 H2] Hc. destruct (decide (c ∈ cs)) as [Hin|Hin].
  - rewrite H2 in Hc by done. destruct (sm_chans m !! c) as [ch0|] eqn:E; [|done]. injection Hc as <-.
    destruct (so_chan n m S c ch0 E) as [? [? ?]]. done.
  - rewrite H1 in Hc by done. by apply (so_chan n m S).
Qed.

Lemma gives_up_sound n m m' a s s' cs :
  Sound n m -> sm_heap m !! a = Some s -> sm_heap m' = <[a := s']> (sm_heap m) ->
  ss_key s' = ss_key s -> ss_nextID s' = ss_nextID s ->
  (forall o c, slot s' o = Some c -> slot s o = Some c /\ c ∉ cs) ->
  (forall c, c ∈ cs -> exists o, slot s o = Some c) -> closes m cs (sm_chans m') ->
  (sm_sessions m' = sm_sessions m \/ sm_sessions m !! ss_key s = Some a /\ sm_sessions m' = delete (ss_key s) (sm_sessions m)) ->
  (sm_sessions m' !! ss_key s' = Some a -> ss_canceled s' = false /\ ss_refs s' = Z.of_nat (size (ss_subs s'))) ->
  (sm_sessions m' !! ss_key s' <> Some a -> vacant s' /\ ss_canceled s' = true) ->
  sm_nextChan m' = sm_nextChan m -> sm_nextSession m' = sm_nextSession m -> Sound n m'.
Proof.
  intros S Hs Hh Hk Hid Hsl Hcs Hcl Hse Hl Hd Hnc Hns. eapply (rewrites_sound n m m' a s s'); [done|]. constructor.
  - by left.
  - done.
  - intros k b Hb. destruct Hse as [->|[Hcur ->]]; [done|]. destruct (decide (k = ss_key s)) as [->|Hne].
    + rewrite lookup_delete_eq. split; [done|]. intros E. congruence.
    + by rewrite lookup_delete_ne.
  - intros k Hka. rewrite Hk. assert (sm_sessions m !! k = Some a) as Hka'.
    { destruct Hse as [E|[_ E]]; rewrite E in Hka; [done|]. by apply lookup_delete_Some in Hka as [_ ?]. }
    destruct (so_live n m S k a Hka') as (t & Ht & Et & _). congruence.
  - by left.
  - done.
  - done.
  - destruct (so_ids n m S a s Hs) as [H1 H2]. rewrite Hid. split; [done|]. intros o c Hc. apply (H2 o c), Hsl, Hc.
  - intros o c Hc. destruct (Hsl o c Hc) as [Hc0 Hout]. split; [|by left].
    destruct (proj2 (Sound_slots n m a s S Hs) o c Hc0) as (ch & Hch & Ho). exists ch. split; [|done]. by rewrite (proj1 Hcl).
  - intros b o c Hb Hc. destruct (so_open n m S b o c Hc) as (ch & Hch & Ho). exists ch. split; [|done].
    rewrite (proj1 Hcl); [done|]. intros Hin. destruct (Hcs c Hin) as [o' Ho'].
    destruct (so_once n m S b a o o' c Hc); [by exists s|done].
  - intros c ch Hch. rewrite Hnc. by eapply closes_chan.
  - by rewrite Hnc.
  - rewrite Hns. split; [done|]. by eapply (so_heap n m S).
Qed.

(** The session at [a] changes nothing but its reports and its state; channels
    take and give reports. *)
Lemma reports_sound n m m' a s s' :
  Sound n m -> sm_heap m !! a = Some s -> sm_heap m' = <[a := s']> (sm_heap m) ->
  ss_key s' = ss_key s -> ss_nextID s' = ss_nextID s -> ss_canceled s' = ss_canceled s -> ss_refs s' = ss_refs s ->
  ss_subs s' = ss_subs s -> ss_watchers s' = ss_watchers s -> sm_sessions m' = sm_sessions m ->
  (forall c, isOpen m c -> isOpen m' c) -> (forall c ch, sm_chans m' !! c = Some ch -> (c < sm_nextChan m')%nat /\ chanFits ch) ->
  sm_nextChan m' = sm_nextChan m -> sm_nextSession m' = sm_nextSession m -> Sound n m'.
Proof.
  intros S Hs Hh Hk Hid Hca Hre Hsu Hwa Hse Ho Hch Hnc Hns.
  assert (forall o, slot s' o = slot s o) as Hsl by (intros [|[? ?]]; cbn; by rewrite ?Hsu, ?Hwa).
  eapply (rewrites_sound n m m' a s s'); [done|]. constructor.
  - by left.
  - done.
  - intros k b _. by rewrite Hse.
  - intros k Hka. rewrite Hse in Hka. destruct (so_live n m S k a Hka) as (t & Ht & Et & _). congruence.
  - by left.
  - rewrite Hse, Hk, Hca, Hre, Hsu. intros Hka. destruct (so_live n m S _ a Hka) as (t & Ht & _ & E). congruence.
  - rewrite Hse, Hk, Hca. intros Hka. destruct (so_dead n m S a s Hs Hka) as [V C]. split; [|done]. intros o. by rewrite Hsl.
  - destruct (so_ids n m S a s Hs) as [H1 H2]. rewrite Hid. split; [done|]. intros o c. rewrite Hsl. apply H2.
  - intros o c. rewrite Hsl. intros Hc. split; [|by left]. by eapply Ho, Sound_slots.
  - intros b o c _ Hc. by eapply Ho, (so_open n m S).
  - done.
  - by rewrite Hnc.
  - rewrite Hns. split; [done|]. by eapply (so_heap n m S).
Qed.

Lemma targets_elem s u c :
  c ∈ targets s u <-> exists o, slot s o = Some c /\
    match o with inl _ => True | inr (client, _) => client = ou_ClientOrderID u /\ client <> ""%string end.
Proof.
  unfold targets. rewrite elem_of_app, channelsOf_elem. split.
  - intros [[id H]|H]; [by exists (inl id)|]. destruct (String.eqb_spec (ou_ClientOrderID u) ""); [by apply not_elem_of_nil in H|].
    apply channelsOf_elem in H as [id H]. exists (inr (ou_ClientOrderID u, id)). cbn.
    destruct (ss_watchers s !! _); [done|]. cbn in H. by rewrite lookup_empty in H.
  - intros ([id|[client id]] & H & Hc); [left; by exists id|right]. destruct Hc as [-> Hne].
    destruct (String.eqb_spec (ou_ClientOrderID u) ""); [done|]. apply channelsOf_elem. exists id. cbn in H.
    by destruct (ss_watchers s !! _).
Qed.

Lemma targets_ok n m a s u :
  Sound n m -> sm_heap m !! a = Some s -> NoDup (targets s u) /\ Forall (isOpen m) (targets s u).
Proof.
  intros S Hs. destruct (Sound_slots n m a s S Hs) as [Hinj Hopen]. split.
  - unfold targets. apply NoDup_app. split; [|split].
    + apply channelsOf_NoDup. intros i j c Hi Hj. assert ((inl i : Slot) = inl j) as E by (by apply (Hinj _ _ c)). by injection E.
    + intros c [i Hi]%channelsOf_elem Hc. destruct (_ =?s _); [by apply not_elem_of_nil in Hc|].
      apply channelsOf_elem in Hc as [j Hj]. destruct (ss_watchers s !! ou_ClientOrderID u) as [w|] eqn:Ew; cbn in Hj; [|by rewrite lookup_empty in Hj].
      assert ((inl i : Slot) = inr (ou_ClientOrderID u, j)) as E by (apply (Hinj _ _ c); cbn; [done|by rewrite Ew]). done.
    + destruct (_ =?s _); [constructor|]. apply channelsOf_NoDup. intros i j c Hi Hj.
      destruct (ss_watchers s !! ou_ClientOrderID u) as [w|] eqn:Ew; cbn in Hi, Hj; [|by rewrite lookup_empty in Hj].
      assert ((inr (ou_ClientOrderID u, i) : Slot) = inr (ou_ClientOrderID u, j)) as E by (apply (Hinj _ _ c); cbn; by rewrite Ew).
      by injection E.
  - apply Forall_forall. intros c (o & Ho & _)%targets_elem. by eapply Hopen.
Qed.

Lemma publishLocked_ok n m a s u receives :
  Sound n m -> sm_heap m !! a = Some s ->
  exists chans' dropped, publishLocked receives s u m =
      Some (m <| sm_updates := u64 (sm_updates m + 1) |> <| sm_chans := chans' |> <| sm_dropped := dropped |>) /\
    Sound n (m <| sm_updates := u64 (sm_updates m + 1) |> <| sm_chans := chans' |> <| sm_dropped := dropped |>) /\
    (forall c, c ∉ targets s u -> chans' !! c = sm_chans m !! c) /\
    (forall c, c ∈ targets s u -> chans' !! c = sent receives u c <$> sm_chans m !! c).
Proof.
  intros S Hs. destruct (targets_ok n m a s u S Hs) as [Hn Ho]. unfold publishLocked.
  destruct (sendAll_ok receives u (targets s u) (m <| sm_updates := u64 (sm_updates m + 1) |>)) as (chans' & dropped & E & H1 & H2); [done|done|].
  exists chans', dropped. split; [done|]. split; [|done]. cbn in H1, H2.
  assert (forall c ch, chans' !! c = Some ch -> exists ch0, sm_chans m !! c = Some ch0 /\ ch_closed ch = ch_closed ch0 /\ chanFits ch) as Hch.
  { intros c ch Hc. destruct (decide (c ∈ targets s u)) as [Hin|Hin].
    - rewrite H2 in Hc by done. destruct (sm_chans m !! c) as [ch0|] eqn:E0; [|done]. injection Hc as <-. exists ch0. split; [done|].
      split; [done|]. destruct (so_chan n m S c ch0 E0) as [_ [Hcap Hlen]]. split; [done|]. unfold sent. cbn.
      destruct (sendBuf_fits (ch_cap ch0) (fst (receives c)) (snd (receives c)) u (ch_buf ch0) Hcap Hlen) as (kept & -> & Hk & _).
      rewrite length_app. cbn. lia.
    - rewrite H1 in Hc by done. exists ch. split; [done|]. split; [done|]. by apply (so_chan n m S c). }
  apply (reports_sound n m _ a s s); try done.
  - cbn. by rewrite insert_id.
  - intros c (ch & Hc & Hop). cbn in *. destruct (chans' !! c) as [ch'|] eqn:Ec'.
    + destruct (Hch _ _ Ec') as (ch0 & Hc0 & Ecl & _). exists ch'. split; [done|]. congruence.
    + destruct (decide (c ∈ targets s u)) as [Hin|Hin]; [rewrite H2 in Ec' by done; by rewrite Hc in Ec'|rewrite H1 in Ec' by done; congruence].
  - intros c ch Hc. cbn in Hc |- *. destruct (Hch _ _ Hc) as (ch0 & Hc0 & _ & Hf). split; [|done]. by apply (so_chan n m S c ch0).
Qed.

(** Changes of a session that concern neither its channels nor its counters. *)
Lemma putSession_sound n m a s s' :
  Sound n m -> sm_heap m !! a = Some s ->
  ss_key s' = ss_key s -> ss_nextID s' = ss_nextID s -> ss_canceled s' = ss_canceled s -> ss_refs s' = ss_refs s ->
  ss_subs s' = ss_subs s -> ss_watchers s' = ss_watchers s -> Sound n (putSession a s' m).
Proof. intros S Hs ? ? ? ? ? ?. apply (reports_sound n m _ a s s'); try done. apply (so_chan n m S). Qed.

Lemma fillAverages_sound n m c : Sound n m -> Sound n (m <| sm_fillAverages := c |>).
Proof. intros [H1 H2 H3 H4 H5 H6 H7]. by constructor. Qed.

Lemma receive_sound n m c : Sound n m -> Sound n (receive c m).
Proof.
  intros S. unfold receive. destruct (sm_chans m !! c) as [ch|] eqn:Ec; [|done]. destruct S as [H1 H2 H3 H4 H5 H6 H7]. constructor; try done.
  - intros a o c' Ha. destruct (H5 a o c' Ha) as (ch' & Hc' & Ho). unfold isOpen. cbn. destruct (decide (c' = c)) as [->|Hne].
    + rewrite lookup_insert_eq. eexists. split; [done|]. cbn. congruence.
    + rewrite lookup_insert_ne by done. by exists ch'.
  - intros c' ch'. cbn. intros [[<- <-]|[_ Hc']]%lookup_insert_Some; [|by apply H6]. destruct (H6 _ _ Ec) as [? [? ?]].
    split; [done|]. split; [done|]. cbn. rewrite length_drop. lia.
Qed.

Lemma touch_sound n m now a : Sound n m -> Sound n (touch now a m).
Proof.
  intros S. unfold touch. destruct (sm_heap m !! a) as [s|] eqn:Hs; [|done]. destruct (isCurrent m a s); [|done].
  by apply (putSession_sound n m a s).
Qed.

Lemma bind_sound n m key c v : Sound n m -> Sound n (BindClientVenueIDs key c v m).
Proof.
  intros S. unfold BindClientVenueIDs. destruct (_ || _); [done|]. destruct (normalized key) as [k|]; [|done].
  destruct (sm_sessions m !! k) as [a|]; [|done]. destruct (sm_heap m !! a) as [s|] eqn:Hs; [|done]. destruct (sm_closed m); [done|].
  by apply (putSession_sound n m a s).
Qed.

Lemma connection_sound n m now receives a healthy cause :
  Sound n m -> exists m', setConnectionState now receives a healthy cause m = Some m' /\ Sound n m' /\
    sm_sessions m' = sm_sessions m /\ sm_closed m' = sm_closed m.
Proof.
  intros S. unfold setConnectionState. destruct (sm_heap m !! a) as [s|] eqn:Hs; [|by exists m]. destruct (negb _); [by exists m|]. cbv zeta.
  set (s' := s <| ss_healthy := _ |> <| ss_generation := _ |> <| ss_lastEvent := _ |>). set (u := if healthy then _ else _).
  destruct (publishLocked_ok n (putSession a s' m) a s' u receives) as (chans' & dropped & -> & S' & _).
  - by apply (putSession_sound n m a s).
  - apply lookup_insert_eq.
  - eexists. split; [done|]. done.
Qed.

Section PublishFacts.
Context {D : Type} `{!Decimal D}.

Lemma publish_sound n m now receives a u :
  Sound n m -> exists m', publish (D := D) now receives a u m = Some m' /\ Sound n m' /\
    sm_sessions m' = sm_sessions m /\ sm_closed m' = sm_closed m.
Proof.
  intros S. unfold publish. destruct (sm_heap m !! a) as [s|] eqn:Hs; [|by exists m]. destruct (negb _); [by exists m|].
  destruct (reduceDEXUpdateLocked _ _ _) as [dex [v|]].
  2:{ eexists. split; [done|]. split; [|done]. by apply (putSession_sound n m a s). }
  cbv zeta. set (s' := s <| ss_dex := _ |> <| ss_lastEvent := _ |>). unfold rememberRecentFillAverage.
  assert (forall m1, sm_heap m1 = sm_heap (putSession a s' m) -> Sound n m1 -> sm_sessions m1 = sm_sessions m -> sm_closed m1 = sm_closed m ->
    exists m', publishLocked receives s' v m1 = Some m' /\ Sound n m' /\ sm_sessions m' = sm_sessions m /\ sm_closed m' = sm_closed m) as Hp.
  { intros m1 Hh S1 E1 E2. destruct (publishLocked_ok n m1 a s' v receives S1) as (chans' & dropped & -> & S' & _).
    - rewrite Hh. apply lookup_insert_eq.
    - eexists. split; [done|]. done. }
  assert (Sound n (putSession a s' m)) as S1 by (by apply (putSession_sound n m a s)).
  destruct (normalized _); apply Hp; try done. by apply fillAverages_sound.
Qed.
End PublishFacts.

Lemma closeWatchers_ok n m m1 a s s1 :
  Sound n m -> sm_heap m !! a = Some s -> sm_chans m1 = sm_chans m -> ss_watchers s1 = ss_watchers s ->
  exists chans', closeWatchersLocked a s1 m1 =
      Some (s1 <| ss_watchers := ∅ |>, putSession a (s1 <| ss_watchers := ∅ |>) (m1 <| sm_chans := chans' |>)) /\
    closes m (watchChannels s) chans'.
Proof.
  intros S Hs Hc Hw. destruct (Sound_slots n m a s S Hs) as [Hinj Hopen]. unfold closeWatchersLocked.
  assert (watchChannels s1 = watchChannels s) as -> by (unfold watchChannels; by rewrite Hw).
  destruct (closeChans_ok (watchChannels s) m1) as (chans' & -> & H1 & H2).
  - by apply watchChannels_NoDup.
  - apply Forall_forall. intros c (client & id & H)%watchChannels_elem. unfold isOpen. rewrite Hc. by eapply Hopen.
  - exists chans'. split; [done|]. split; intros c Hcc; rewrite <- Hc; auto.
Qed.

Lemma watch_slots s c : c ∈ watchChannels s -> exists o, slot s o = Some c.
Proof. intros (client & id & H)%watchChannels_elem. by eexists. Qed.

(** Without its watchers, a session keeps the channels of its subscribers. *)
Lemma subs_only s s' n m a o c :
  Sound n m -> sm_heap m !! a = Some s -> ss_subs s' = ss_subs s -> ss_watchers s' = ∅ ->
  slot s' o = Some c -> slot s o = Some c /\ c ∉ watchChannels s.
Proof.
  intros S Hs Hsu Hwa H. destruct o as [id|[client id]]; cbn in H; [|by rewrite Hwa, lookup_empty in H]. rewrite Hsu in H.
  split; [done|]. intros (client & i & Hc)%watchChannels_elem.
  pose proof (proj1 (Sound_slots n m a s S Hs) (inl id) (inr (client, i)) c H Hc). done.
Qed.

Lemma no_refs s : ss_refs s = Z.of_nat (size (ss_subs s)) -> (ss_refs s =? 0) = true -> ss_subs s = ∅.
Proof. intros E H%Z.eqb_eq. apply map_size_empty_inv. lia. Qed.

Lemma empty_vacant s : ss_subs s = ∅ -> ss_watchers s = ∅ -> vacant s.
Proof. intros Hs Hw [id|[client id]]; cbn; [rewrite Hs|rewrite Hw]; by rewrite lookup_empty. Qed.

(** Retiring an idle session of the map: it leaves the map and loses its
    watchers. *)
Lemma retire_sound n m a s s1 :
  Sound n m -> sm_sessions m !! ss_key s = Some a -> sm_heap m !! a = Some s -> (ss_refs s =? 0) = true ->
  ss_key s1 = ss_key s -> ss_nextID s1 = ss_nextID s -> ss_subs s1 = ss_subs s -> ss_watchers s1 = ss_watchers s -> ss_canceled s1 = true ->
  exists s' m', closeWatchersLocked a s1
      (m <| sm_sessions := delete (ss_key s) (sm_sessions m) |>) = Some (s', m') /\
    Sound n m' /\ sm_sessions m' = delete (ss_key s) (sm_sessions m) /\ sm_closed m' = sm_closed m.
Proof.
  intros S Hcur Hs Hr Hk1 Hn1 Hsu1 Hw1 Hca1. destruct (so_live n m S _ _ Hcur) as (t & Ht & _ & Hca & Hre).
  assert (t = s) as -> by congruence. pose proof (no_refs s Hre Hr) as Hsub.
  destruct (closeWatchers_ok n m (m <| sm_sessions := delete (ss_key s) (sm_sessions m) |>) a s s1) as (chans' & -> & Hcl); [done..|].
  eexists _, _. split; [done|]. split; [|done].
  eapply (gives_up_sound n m _ a s (s1 <| ss_watchers := ∅ |>) (watchChannels s)); try done; cbn; rewrite ?Hk1.
  - intros o c H. by refine (subs_only s _ n m a o c S Hs _ _ H).
  - apply watch_slots.
  - by right.
  - by rewrite lookup_delete_eq.
  - intros _. split; [|done]. apply empty_vacant; [cbn; congruence|done].
Qed.

Lemma expireIdle_sound n m a :
  Sound n m -> exists m', expireIdle a m = Some m' /\ Sound n m' /\
    (sm_sessions m' = sm_sessions m \/ exists k, sm_sessions m' = delete k (sm_sessions m)) /\ sm_closed m' = sm_closed m.
Proof.
  intros S. unfold expireIdle. destruct (sm_heap m !! a) as [s|] eqn:Hs; [|exists m; auto]. unfold isCurrent.
  case_bool_decide as Hcur; [|exists m; auto]. cbn [negb orb]. destruct (ss_refs s =? 0) eqn:Hr; [|exists m; auto]. cbn [negb].
  destruct (retire_sound n m a s (s <| ss_idleTimer := false |> <| ss_canceled := true |>) S Hcur Hs Hr)
    as (s' & m' & -> & S' & E1 & E2); [done..|]. exists m'. eauto 10.
Qed.

Lemma retireMismatched_sound n m k credentials :
  Sound n m -> exists current m', retireMismatched k credentials m = Some (current, m') /\ Sound n m' /\ sm_closed m' = sm_closed m /\
    match current with
    | Some a => m' = m /\ sm_sessions m !! k = Some a
    | None => sm_sessions m' !! k = None
    end.
Proof.
  intros S. unfold retireMismatched. destruct (sm_sessions m !! k) as [a|] eqn:Hk; [|by eexists None, m].
  destruct (so_live n m S k a Hk) as (s & Hs & Eks & _). rewrite Hs. destruct (negb _); cbn [andb]; [|by eexists (Some a), m].
  destruct (ss_refs s =? 0) eqn:Hr; [|by eexists (Some a), m]. subst k.
  destruct (retire_sound n m a s (s <| ss_canceled := true |>) S Hk Hs Hr) as (s' & m' & -> & S' & E1 & E2); [done..|]. eexists None, m'. split; [done|]. split; [done|].
  split; [done|]. rewrite E1. apply lookup_delete_eq.
Qed.

Lemma slot_closeWatch s client id w c :
  ss_watchers s !! client = Some w -> w !! id = Some c ->
  let w' := delete id w in
  let s' := s <| ss_watchers := if bool_decide (w' = ∅) then delete client (ss_watchers s) else <[client := w']> (ss_watchers s) |> in
  forall o, slot s' o = if bool_decide (o = inr (client, id)) then None else slot s o.
Proof.
  intros Hw Hc w' s' o. destruct o as [i|[cl i]]; cbn [slot]; [by rewrite bool_decide_false|].
  unfold s'. cbn [ss_watchers setter]. assert (forall j, w' !! j = if bool_decide (j = id) then None else w !! j) as Hw'.
  { intros j. unfold w'. case_bool_decide; subst; [apply lookup_delete_eq|by apply lookup_delete_ne]. }
  destruct (decide (cl = client)) as [->|Hne].
  - rewrite Hw. transitivity (w' !! i).
    + case_bool_decide as E; [rewrite lookup_delete_eq, E; by rewrite lookup_empty|by rewrite lookup_insert_eq].
    + rewrite Hw'. destruct (decide (i = id)) as [->|Hi]; [by rewrite !bool_decide_true|].
      rewrite !bool_decide_false; [done|congruence|done].
  - transitivity (match ss_watchers s !! cl with Some w0 => w0 !! i | None => None end).
    + case_bool_decide; [by rewrite lookup_delete_ne|by rewrite lookup_insert_ne].
    + rewrite bool_decide_false; [done|congruence].
Qed.

Lemma closeOne_ok n m a o s c :
  Sound n m -> sm_heap m !! a = Some s -> slot s o = Some c ->
  exists chans', closeChan c m = Some (m <| sm_chans := chans' |>) /\ closes m [c] chans'.
Proof.
  intros S Hs Hc. destruct (closeChans_ok [c] m) as (chans' & E & H1 & H2).
  - apply NoDup_singleton.
  - apply Forall_singleton. by apply (Sound_slots n m a s S Hs) in Hc.
  - exists chans'. split; [|done]. cbn in E. by destruct (closeChan c m).
Qed.

Lemma closeWatch_sound n m a client id :
  Sound n m -> exists m', closeWatch a client id m = Some m' /\ Sound n m' /\ sm_sessions m' = sm_sessions m /\ sm_closed m' = sm_closed m.
Proof.
  intros S. unfold closeWatch. destruct (sm_heap m !! a) as [s|] eqn:Hs; [|by exists m]. cbv zeta.
  destruct (ss_watchers s !! client) as [w|] eqn:Hw; cbn [default]; [|rewrite lookup_empty; by exists m].
  cbn. destruct (w !! id) as [c|] eqn:Hc; [|by exists m].
  assert (slot s (inr (client, id)) = Some c) as Hsl by (cbn; by rewrite Hw).
  destruct (closeOne_ok n m a _ s c S Hs Hsl) as (chans' & -> & Hcl). eexists. split; [done|]. split; [|done].
  pose proof (slot_closeWatch s client id w c Hw Hc) as Hs'. cbv zeta in Hs'.
  eapply (gives_up_sound n m _ a s _ [c]); try done.
  - intros o c' Ho. rewrite Hs' in Ho. case_bool_decide as E; [done|]. split; [done|].
    intros ->%list_elem_of_singleton. apply E. by apply (proj1 (Sound_slots n m a s S Hs) o (inr (client, id)) c).
  - intros c' ->%list_elem_of_singleton. by eexists.
  - by left.
  - cbn. intros Hk. destruct (so_live n m S _ a Hk) as (t & Ht & _ & E). congruence.
  - cbn. intros Hk. destruct (so_dead n m S a s Hs Hk) as [V _]. by rewrite V in Hsl.
Qed.

Lemma unsubscribe_sound n m a id :
  Sound n m -> exists m', unsubscribe a id m = Some m' /\ Sound n m' /\
    (sm_sessions m' = sm_sessions m \/ exists k, sm_sessions m' = delete k (sm_sessions m)) /\ sm_closed m' = sm_closed m.
Proof.
  intros S. unfold unsubscribe. destruct (sm_heap m !! a) as [s|] eqn:Hs; [|exists m; auto]. unfold isCurrent.
  case_bool_decide as Hcur; [|exists m; auto]. cbn [negb]. destruct (ss_subs s !! id) as [c|] eqn:Hc; [|exists m; auto].
  destruct (closeOne_ok n m a (inl id) s c S Hs Hc) as (chans' & -> & Hcl). cbv zeta.
  set (s1 := s <| ss_subs := _ |> <| ss_refs := _ |>). set (m1 := putSession a s1 _).
  destruct (so_live n m S _ _ Hcur) as (t & Ht & _ & Hca & Hre). assert (t = s) as -> by congruence.
  assert (ss_refs s1 = Z.of_nat (size (ss_subs s1))) as Hre1.
  { unfold s1. cbn. assert (is_Some (ss_subs s !! id)) as Hi by (by eexists). rewrite (map_size_delete_Some _ _ Hi), Hre.
    assert (size (ss_subs s) <> 0%nat) by (apply map_size_non_empty_iff; intros E; by rewrite E, lookup_empty in Hc). lia. }
  assert (Sound n m1) as S1.
  { eapply (gives_up_sound n m m1 a s s1 [c]); try done.
    - intros o c' Ho. destruct o as [i|[cl i]]; cbn in Ho.
      + apply lookup_delete_Some in Ho as [Hne Ho]. split; [done|]. intros ->%list_elem_of_singleton.
        assert ((inl i : Slot) = inl id) as E by (by apply (proj1 (Sound_slots n m a s S Hs) _ _ c)). congruence.
      + split; [done|]. intros ->%list_elem_of_singleton.
        assert ((inr (cl, i) : Slot) = inl id) as E by (by apply (proj1 (Sound_slots n m a s S Hs) _ _ c)). done.
    - intros c' ->%list_elem_of_singleton. by exists (inl id).
    - by left. }
  destruct (ss_refs s1 =? 0) eqn:Hr; [|exists m1; auto].
  assert (sm_heap m1 !! a = Some s1) as Hs1 by apply lookup_insert_eq.
  destruct (closeWatchers_ok n m1 m1 a s1 s1) as (chans2 & -> & Hcl2); [done..|].
  pose proof (no_refs s1 Hre1 Hr) as Hsub. eexists. split; [done|]. cbn [sm_idleTimeout putSession setter].
  destruct (sm_idleTimeout m1 <=? 0).
  - split; [|split; [by right; eexists|done]].
    eapply (gives_up_sound n m1 _ a s1 (s1 <| ss_watchers := ∅ |> <| ss_canceled := true |>) (watchChannels s1)); try done; cbn.
    + by rewrite !insert_insert_eq.
    + intros o c' H. by refine (subs_only s1 _ n m1 a o c' S1 Hs1 _ _ H).
    + apply watch_slots.
    + right. done.
    + by rewrite lookup_delete_eq.
    + intros _. split; [|done]. by apply empty_vacant.
  - split; [|by split; [left|]].
    eapply (gives_up_sound n m1 _ a s1 (s1 <| ss_watchers := ∅ |> <| ss_idleTimer := true |>) (watchChannels s1)); try done; cbn.
    + by rewrite !insert_insert_eq.
    + intros o c' H. by refine (subs_only s1 _ n m1 a o c' S1 Hs1 _ _ H).
    + apply watch_slots.
    + by left.
Qed.

Lemma makeChan_open m c cap : isOpen m c -> (c < sm_nextChan m)%nat -> isOpen (snd (makeChan cap m)) c.
Proof. intros (ch & Hc & Ho) Hlt. exists ch. split; [|done]. cbn. by rewrite lookup_insert_ne by lia. Qed.

(** A session that takes a new channel into the free place [o]. *)
Lemma takes_sound n m m' a s s' o cap :
  0 <= n < 2 ^ 64 - 1 -> (0 < cap)%nat -> Sound n m ->
  sm_heap m !! a = Some s \/ sm_heap m !! a = None /\ vacant s /\ ss_nextID s = 0 ->
  sm_heap m' = <[a := s']> (sm_heap m) -> ss_key s' = ss_key s -> ss_nextID s' = u64 (ss_nextID s + 1) -> slotID o = ss_nextID s' ->
  (forall o', slot s' o' = if bool_decide (o' = o) then Some (sm_nextChan m) else slot s o') ->
  sm_sessions m' !! ss_key s = Some a -> (forall k b, b <> a -> sm_sessions m' !! k = Some b <-> sm_sessions m !! k = Some b) ->
  (forall k, sm_sessions m' !! k = Some a -> k = ss_key s) -> ss_canceled s' = false -> ss_refs s' = Z.of_nat (size (ss_subs s')) ->
  sm_chans m' = sm_chans (snd (makeChan cap m)) -> sm_nextChan m' = Datatypes.S (sm_nextChan m) ->
  (sm_nextSession m <= sm_nextSession m')%nat -> (a < sm_nextSession m')%nat -> Sound (n + 1) m'.
Proof.
  intros Hn Hcap S Hold Hh Hk Hid Hso Hsl Hcur Hse Hka Hca Hre Hch Hnc Hns Ha.
  assert (0 <= ss_nextID s <= n /\ forall o' c, slot s o' = Some c -> slotID o' <= ss_nextID s) as [Hids Hle].
  { destruct Hold as [Hs|(_ & V & E)]; [by apply (so_ids n m S a)|]. split; [lia|]. intros o' c H. by rewrite V in H. }
  assert (u64 (ss_nextID s + 1) = ss_nextID s + 1) as Eid by (apply Z.mod_small; lia).
  assert (forall b o' c, holds m b o' c -> isOpen m' c /\ (c < sm_nextChan m)%nat) as Hopen.
  { intros b o' c Hb. destruct (so_open n m S b o' c Hb) as (ch & Hc & Ho). assert (c < sm_nextChan m)%nat as Hlt by (by apply (so_chan n m S c ch)).
    split; [|done]. unfold isOpen. rewrite Hch. by apply makeChan_open; [exists ch|]. }
  assert (isOpen m' (sm_nextChan m)) as Hnew.
  { exists (mkChan cap [] false). rewrite Hch. cbn. by rewrite lookup_insert_eq. }
  assert (forall o' c, slot s o' = Some c -> holds m a o' c) as Hheld.
  { intros o' c Hc. destruct Hold as [Hs|(_ & V & _)]; [by exists s|by rewrite V in Hc]. }
  eapply (rewrites_sound (n + 1) m m' a s s'); [apply (Sound_mono n); [lia|done]|]. constructor.
  - destruct Hold as [?|(? & ? & _)]; [by left|by right].
  - done.
  - done.
  - intros k Hk'. rewrite Hk. by apply Hka.
  - by left.
  - done.
  - rewrite Hk. done.
  - rewrite Hid, Eid. split; [lia|]. intros o' c. rewrite Hsl. case_bool_decide as E; [intros _; subst o'; lia|].
    intros Hc%Hle. lia.
  - intros o' c. rewrite Hsl. case_bool_decide as E.
    + intros [= <-]. split; [done|]. right. split; [done|]. intros o''. rewrite Hsl. subst o'. case_bool_decide as E'; [done|].
      intros Hc%Hheld%Hopen. lia.
    + intros Hc. split; [by apply Hopen with a o', Hheld|by left].
  - intros b o' c _ Hb. by apply (Hopen b o').
  - intros c ch. rewrite Hch, Hnc. cbn. intros [[<- <-]|[_ Hc]]%lookup_insert_Some.
    + split; [lia|]. split; [done|]. cbn. lia.
    + destruct (so_chan n m S c ch Hc). split; [lia|done].
  - rewrite Hnc. lia.
  - done.
Qed.

Lemma credentialsEqual_refl c : credentialsEqual c c = true.
Proof.
  unfold credentialsEqual, optionalIntEqual. rewrite !String.eqb_refl.
  destruct (sc_AccountIndex c), (sc_APIKeyIndex c); rewrite ?Z.eqb_refl; done.
Qed.

Lemma newSession_vacant k credentials : vacant (newSession k credentials).
Proof. by apply empty_vacant. Qed.

(** The session after it took the channel [c] of a subscriber, or of a watcher
    of [client]. *)
Definition withSub (s : session) (c : nat) : session :=
  s <| ss_idleTimer := false |> <| ss_nextID := u64 (ss_nextID s + 1) |>
    <| ss_subs := <[u64 (ss_nextID s + 1) := c]> (ss_subs s) |> <| ss_refs := ss_refs s + 1 |>.
Definition withWatch (s : session) (client : string) (c : nat) : session :=
  s <| ss_nextID := u64 (ss_nextID s + 1) |>
    <| ss_watchers := <[client := <[u64 (ss_nextID s + 1) := c]> (default ∅ (ss_watchers s !! client))]> (ss_watchers s) |>.

(** A call keeps the invariant, and the map is empty once the manager is
    closed. *)
Definition Kept (n : Z) (m m' : Manager) : Prop :=
  Sound n m' /\ (sm_closed m' = true -> sm_sessions m' = ∅).

Lemma Subscribe_sound n m key credentials :
  0 <= n < 2 ^ 64 - 1 -> Sound n m -> (sm_closed m = true -> sm_sessions m = ∅) ->
  exists r m', Subscribe key credentials m = Some (r, m') /\ Kept (n + 1) m m'.
Proof.
  intros Hn S Hcl. unfold Subscribe, Kept. assert (Sound (n + 1) m) as Sm by (apply (Sound_mono n); [lia|done]).
  destruct (checkSubscribe m key credentials) as [k|e]; [|by eexists _, m].
  destruct (sm_closed m) eqn:Ec; [eexists _, m; split; [done|split; [done|by intros _; apply Hcl]]|].
  destruct (retireMismatched_sound n m k credentials S) as (current & m1 & -> & S1 & Ec1 & Hcur).
  destruct current as [a|].
  - destruct Hcur as [-> Hk]. destruct (so_live n m S k a Hk) as (s & Hs & Ek & Hca & Hre). rewrite Hs. cbn [default from_option id].
    destruct (negb _); [eexists _, m; split; [done|]; by rewrite Ec|]. eexists _, _. split; [reflexivity|]. split; [|cbn; by rewrite Ec].
    eapply (takes_sound n m _ a s (withSub s (sm_nextChan m)) (inl (u64 (ss_nextID s + 1))) 64); try done; cbn; try lia.
    + by left.
    + intros [i|o']; cbn; [|by rewrite bool_decide_false]. destruct (decide (i = u64 (ss_nextID s + 1))) as [->|Hne].
      * by rewrite lookup_insert_eq, bool_decide_true.
      * rewrite lookup_insert_ne by done. rewrite bool_decide_false; [done|]. congruence.
    + by rewrite Ek.
    + intros k' Hk'. destruct (so_live n m S k' a Hk') as (t & Ht & Et & _). congruence.
    + destruct (so_ids n m S a s Hs) as [Hr Hle]. rewrite map_size_insert_None, Hre; [lia|].
      destruct (ss_subs s !! u64 (ss_nextID s + 1)) eqn:E; [|done]. specialize (Hle (inl (u64 (ss_nextID s + 1))) _ E).
      cbn in Hle. assert (u64 (ss_nextID s + 1) = ss_nextID s + 1) by (apply Z.mod_small; lia). lia.
    + by eapply (so_heap n m S).
  - cbn [ss_credentials newSession]. rewrite credentialsEqual_refl. cbn [negb]. eexists _, _. split; [reflexivity|]. split; [|cbn; by rewrite Ec1, Ec].
    assert (forall b s0, sm_heap m1 !! b = Some s0 -> b <> sm_nextSession m1) as Hfresh
      by (intros b s0 Hb ->; pose proof (so_heap n m1 S1 _ _ Hb); lia).
    eapply (takes_sound n m1 _ (sm_nextSession m1) (newSession k credentials) (withSub (newSession k credentials) (sm_nextChan m1)) (inl 1) 64); try done; cbn; try lia.
    + right. destruct (sm_heap m1 !! sm_nextSession m1) eqn:E; [by destruct (Hfresh _ _ E)|]. split; [done|]. split; [apply newSession_vacant|done].
    + by rewrite insert_insert_eq.
    + intros [i|[? ?]]; cbn; [|rewrite lookup_empty; by rewrite bool_decide_false]. change (u64 1) with 1. destruct (decide (i = 1)) as [->|Hne].
      * by rewrite lookup_insert_eq, bool_decide_true.
      * rewrite lookup_insert_ne, lookup_empty by done. rewrite bool_decide_false; [done|]. congruence.
    + by rewrite lookup_insert_eq.
    + intros k' b Hb. destruct (decide (k' = k)) as [->|Hne]; [rewrite lookup_insert_eq, Hcur; split; congruence|by rewrite lookup_insert_ne].
    + intros k' [[<- _]|[_ Hk']]%lookup_insert_Some; [done|]. destruct (so_live n m1 S1 _ _ Hk') as (t & Ht & _). by destruct (Hfresh _ _ Ht).
Qed.

Lemma watchOrder_sound n m a client :
  0 <= n < 2 ^ 64 - 1 -> Sound n m -> (sm_closed m = true -> sm_sessions m = ∅) ->
  Kept (n + 1) m (snd (watchOrder a client m)).
Proof.
  intros Hn S Hcl. unfold watchOrder, Kept. assert (Sound (n + 1) m) as Sm by (apply (Sound_mono n); [lia|done]).
  destruct (_ =?s _); [done|]. destruct (sm_heap m !! a) as [s|] eqn:Hs; [|done]. unfold isCurrent.
  destruct (sm_closed m) eqn:Ec; [split; [done|by intros _; apply Hcl]|]. case_bool_decide as Hcur; cbn [negb orb]; [|split; [done|]; cbn; by rewrite Ec].
  destruct (so_live n m S _ a Hcur) as (t & Ht & _ & Hca & Hre). assert (t = s) as -> by congruence. split; [|cbn; by rewrite Ec].
  eapply (takes_sound n m _ a s (withWatch s client (sm_nextChan m)) (inr (client, u64 (ss_nextID s + 1))) 16); try done; cbn; try lia.
  - by left.
  - intros [i|[cl i]]; cbn; [by rewrite bool_decide_false|]. destruct (decide (cl = client)) as [->|Hne].
    + rewrite lookup_insert_eq. destruct (decide (i = u64 (ss_nextID s + 1))) as [->|Hi].
      * by rewrite lookup_insert_eq, bool_decide_true.
      * rewrite lookup_insert_ne by done. rewrite bool_decide_false by congruence. by destruct (ss_watchers s !! client).
    + rewrite lookup_insert_ne by done. rewrite bool_decide_false; [done|]. congruence.
  - intros k' Hk'. destruct (so_live n m S k' a Hk') as (t & Ht' & Et & _). congruence.
  - by eapply (so_heap n m S).
Qed.

Lemma closeChans_app l1 l2 m :
  closeChans (l1 ++ l2) m = match closeChans l1 m with Some m1 => closeChans l2 m1 | None => None end.
Proof. revert m. induction l1 as [|c l1 IH]; intros m; cbn; [done|]. destruct (closeChan c m); [apply IH|done]. Qed.

Lemma closeSession_sound n m k a :
  Sound n m -> sm_sessions m !! k = Some a ->
  exists m', closeSession a (m <| sm_sessions := delete k (sm_sessions m) |>) = Some m' /\ Sound n m' /\
    sm_sessions m' = delete k (sm_sessions m) /\ sm_closed m' = sm_closed m.
Proof.
  intros S Hk. destruct (so_live n m S k a Hk) as (s & Hs & Ek & _). subst k. destruct (Sound_slots n m a s S Hs) as [Hinj Hopen].
  set (m0 := m <| sm_sessions := _ |>). unfold closeSession. change (sm_heap m0) with (sm_heap m). rewrite Hs.
  set (s1 := s <| ss_subs := ∅ |> <| ss_idleTimer := false |> <| ss_canceled := true |>).
  set (cs := channelsOf (ss_subs s) ++ watchChannels s).
  assert (forall c, c ∈ cs -> exists o, slot s o = Some c) as Hcs.
  { intros c [[id H]%channelsOf_elem|H%watch_slots]%elem_of_app; [by exists (inl id)|done]. }
  destruct (closeChans_ok cs m0) as (chans' & Ec & H1 & H2).
  - apply NoDup_app. split; [|split].
    + apply channelsOf_NoDup. intros i j c Hi Hj. assert ((inl i : Slot) = inl j) as E by (by apply (Hinj _ _ c)). by injection E.
    + intros c [i Hi]%channelsOf_elem (cl & j & Hj)%watchChannels_elem. by pose proof (Hinj (inl i) _ c Hi Hj).
    + by apply watchChannels_NoDup.
  - apply Forall_forall. intros c [o Ho]%Hcs. by apply (Hopen o).
  - unfold cs in Ec. rewrite closeChans_app in Ec. destruct (closeChans (channelsOf (ss_subs s)) m0) as [m1|]; [|done].
    unfold closeWatchersLocked. change (watchChannels s1) with (watchChannels s). rewrite Ec. eexists. split; [done|]. split; [|done].
    eapply (gives_up_sound n m _ a s (s1 <| ss_watchers := ∅ |>) cs); try done; cbn.
    + intros [id|[cl id]] c; cbn; by rewrite lookup_empty.
    + by right.
    + by rewrite lookup_delete_eq.
    + intros _. split; [by apply empty_vacant|done].
Qed.

Lemma closeSessions_sound n l m :
  Sound n m -> NoDup (map fst l) -> (forall k a, sm_sessions m !! k = Some a <-> (k, a) ∈ l) ->
  exists m', closeSessions l m = Some m' /\ Sound n m' /\ sm_sessions m' = ∅.
Proof.
  revert m. induction l as [|[k a] l IH]; intros m S Hn Hl; cbn [closeSessions].
  { exists m. split; [done|]. split; [done|]. apply map_empty. intros k. destruct (sm_sessions m !! k) as [a|] eqn:E; [|done].
    apply Hl in E. by apply not_elem_of_nil in E. }
  cbn in Hn. apply NoDup_cons in Hn as [Hk Hn].
  destruct (closeSession_sound n m k a S) as (m1 & -> & S1 & E1 & _); [apply Hl; by left|].
  apply IH; [done|done|]. intros k' a'. rewrite E1, lookup_delete_Some, Hl. split.
  - intros [Hne [[= -> ->]|H]%elem_of_cons]; done.
  - intros H. split; [|by right]. intros <-. apply Hk. apply list_elem_of_In, in_map_iff. exists (k, a'). split; [done|]. by apply list_elem_of_In.
Qed.

Lemma Close_sound n m : Sound n m -> (sm_closed m = true -> sm_sessions m = ∅) ->
  exists m', Close m = Some m' /\ Sound n m' /\ sm_sessions m' = ∅.
Proof.
  intros S Hcl. unfold Close. destruct (sm_closed m) eqn:Ec; [exists m; split; [done|]; split; [done|by apply Hcl]|].
  apply closeSessions_sound.
  - destruct S as [H1 H2 H3 H4 H5 H6 H7]. by constructor.
  - apply NoDup_fst_map_to_list.
  - intros k a. by rewrite elem_of_map_to_list.
Qed.

Section CallFacts.
Context {D : Type} `{!Decimal D}.

Lemma exec_kept n op m :
  0 <= n < 2 ^ 64 - 1 -> Sound n m -> (sm_closed m = true -> sm_sessions m = ∅) ->
  exists m', exec (D := D) op m = Some m' /\ Kept (n + 1) m m'.
Proof.
  intros Hn S Hcl. unfold Kept.
  assert (forall m', Sound n m' -> Sound (n + 1) m') as Hup by (intros m'; apply Sound_mono; lia).
  assert (forall o, (exists m', o = Some m' /\ Sound n m' /\
    (sm_sessions m' = sm_sessions m \/ exists k, sm_sessions m' = delete k (sm_sessions m)) /\ sm_closed m' = sm_closed m) ->
    exists m', o = Some m' /\ Sound (n + 1) m' /\ (sm_closed m' = true -> sm_sessions m' = ∅)) as Hst.
  { intros o (m' & -> & S' & Hse & Ec). exists m'. split; [done|]. split; [by apply Hup|]. rewrite Ec. intros Hc.
    destruct Hse as [->|[k ->]]; [by apply Hcl|]. by rewrite Hcl, delete_empty. }
  assert (forall m', Sound n m' -> sm_sessions m' = sm_sessions m -> sm_closed m' = sm_closed m ->
    exists m'', Some m' = Some m'' /\ Sound (n + 1) m'' /\ (sm_closed m'' = true -> sm_sessions m'' = ∅)) as Hsome.
  { intros m' S' E1 E2. apply Hst. exists m'. auto. }
  destruct op as [key cr|key cl|a cl|a id|a|a cl id|key cl v|now a|now r a h cause|now r a u|c|]; cbn [exec].
  - destruct (Subscribe_sound n m key cr Hn S Hcl) as (r & m' & -> & K). exists m'. split; [done|]. apply K.
  - eexists. split; [done|]. unfold WatchOrder. destruct (normalized key) as [k|]; [|by split; [apply Hup|]].
    destruct (sm_sessions m !! k); [|by split; [apply Hup|]]. by apply watchOrder_sound.
  - eexists. split; [done|]. by apply watchOrder_sound.
  - apply Hst. by apply unsubscribe_sound.
  - apply Hst. by apply expireIdle_sound.
  - apply Hst. destruct (closeWatch_sound n m a cl id S) as (m' & -> & S' & E1 & E2). exists m'. auto.
  - apply Hsome; [by apply bind_sound|unfold BindClientVenueIDs; by repeat case_match..].
  - apply Hsome; [by apply touch_sound|unfold touch; by repeat case_match..].
  - apply Hst. destruct (connection_sound n m now r a h cause S) as (m' & -> & S' & E1 & E2). exists m'. auto.
  - apply Hst. destruct (publish_sound (D := D) n m now r a u S) as (m' & -> & S' & E1 & E2). exists m'. auto.
  - apply Hsome; [by apply receive_sound|unfold receive; by case_match..].
  - destruct (Close_sound n m S Hcl) as (m' & -> & S' & E). exists m'. split; [done|]. split; [by apply Hup|done].
Qed.

Lemma newManager_sound timeout parsers : Sound 0 (newManager timeout parsers).
Proof.
  constructor; cbn; try (intros ? ?; rewrite lookup_empty; done).
  - intros a1 a2 o1 o2 c (s & Hs & _). cbn in Hs. by rewrite lookup_empty in Hs.
  - intros a o c (s & Hs & _). cbn in Hs. by rewrite lookup_empty in Hs.
Qed.

Lemma execs_kept ops n m :
  0 <= n -> n + Z.of_nat (length ops) < 2 ^ 64 -> Sound n m -> (sm_closed m = true -> sm_sessions m = ∅) ->
  exists m', execs (D := D) ops m = Some m' /\ Kept (n + Z.of_nat (length ops)) m m'.
Proof.
  revert n m. induction ops as [|op ops IH]; intros n m Hn Hlen S Hcl; cbn [execs length] in *.
  { exists m. rewrite Z.add_0_r. done. }
  destruct (exec_kept n op m) as (m1 & -> & S1 & Hcl1); [lia|done|done|].
  destruct (IH (n + 1) m1) as (m' & -> & S' & Hcl'); [lia|lia|done|done|]. exists m'. split; [done|].
  replace (n + Z.of_nat (Datatypes.S (length ops))) with (n + 1 + Z.of_nat (length ops)) by lia. done.
Qed.

(** C35: the stream manager never panics.  Whatever calls its users, timers and
    sessions make, in whatever order, no channel is closed twice and none is
    sent to after it was closed; a session in use counts its subscribers, one
    that was given up holds nothing, no channel belongs to two readers and no
    buffer exceeds its capacity; after Close no session is left. *)
Theorem stream_manager_never_panics (timeout : Duration) (parsers : gset string) (ops : list Op) :
  Z.of_nat (length ops) < 2 ^ 64 ->
  exists m, execs (D := D) ops (newManager timeout parsers) = Some m /\ Sound (Z.of_nat (length ops)) m /\
    (sm_closed m = true -> sm_sessions m = ∅).
Proof.
  intros Hlen. destruct (execs_kept ops 0 (newManager timeout parsers)) as (m & E & K); [lia|lia|apply newManager_sound|done|].
  exists m. split; [done|]. exact K.
Qed.

Lemma reachable_sound timeout parsers ops m :
  Z.of_nat (length ops) < 2 ^ 64 -> execs (D := D) ops (newManager timeout parsers) = Some m ->
  Sound (Z.of_nat (length ops)) m /\ (sm_closed m = true -> sm_sessions m = ∅).
Proof.
  intros Hlen E. destruct (execs_kept ops 0 (newManager timeout parsers)) as (m' & E' & K); [lia|lia|apply newManager_sound|done|].
  assert (m' = m) as -> by congruence. exact K.
Qed.

(** A published report reaches every reader.  When a session in use accepts
    a report, it becomes the newest of the channel of each of its subscribers
    and of each watcher of that order, within the channel's capacity, what was
    there before losing at most its oldest reports, whatever the readers take
    meanwhile; no other channel changes, and nobody waits. *)
Theorem publish_delivers timeout parsers ops m now receives a s u dex v :
  Z.of_nat (length ops) < 2 ^ 64 -> execs (D := D) ops (newManager timeout parsers) = Some m ->
  sm_heap m !! a = Some s -> isCurrent m a s = true ->
  reduceDEXUpdateLocked (D := D) (sk_Venue (ss_key s)) (ss_dex s) u = (dex, Some v) ->
  exists m', publish (D := D) now receives a u m = Some m' /\
    (forall o c, slot s o = Some c -> match o with inl _ => True | inr (client, _) => client = ou_ClientOrderID v /\ client <> ""%string end ->
       exists ch ch' kept, sm_chans m !! c = Some ch /\ sm_chans m' !! c = Some ch' /\ ch_closed ch' = false /\
         ch_buf ch' = kept ++ [v] /\ kept `suffix_of` ch_buf ch /\ (length (ch_buf ch') <= ch_cap ch')%nat) /\
    (forall c, c ∉ targets s v -> sm_chans m' !! c = sm_chans m !! c).
Proof.
  intros Hlen Hr Hs Hcur Hred. destruct (reachable_sound _ _ _ _ Hlen Hr) as [S _]. set (n := Z.of_nat (length ops)) in S.
  unfold publish. rewrite Hs, Hcur, Hred. cbn [negb]. cbv zeta. set (s' := s <| ss_dex := dex |> <| ss_lastEvent := now |>).
  set (m1 := rememberRecentFillAverage _ _ _ _).
  assert (Sound n m1 /\ sm_heap m1 !! a = Some s' /\ sm_chans m1 = sm_chans m) as (S1 & Hs1 & Ec1).
  { assert (Sound n (putSession a s' m)) as S0 by (by apply (putSession_sound n m a s)). unfold m1, rememberRecentFillAverage.
    destruct (normalized _); (split; [|split; [apply lookup_insert_eq|done]]); [by apply fillAverages_sound|done]. }
  destruct (publishLocked_ok n m1 a s' v receives S1 Hs1) as (chans' & dropped & -> & S2 & H1 & H2).
  change (targets s' v) with (targets s v) in H1, H2. rewrite Ec1 in H1, H2. eexists. split; [done|]. cbn. split; [|done].
  intros o c Ho Hm. assert (c ∈ targets s v) as Hin by (apply targets_elem; by exists o).
  destruct (proj2 (Sound_slots n m a s S Hs) o c Ho) as (ch & Hch & Hop). destruct (so_chan n m S c ch Hch) as [_ [Hcap Hl]].
  destruct (sendBuf_fits (ch_cap ch) (fst (receives c)) (snd (receives c)) v (ch_buf ch) Hcap Hl) as (kept & Ek & Hk & Hsuf).
  exists ch, (sent receives v c ch), kept. rewrite H2, Hch by done. split; [done|]. split; [done|]. split; [done|]. unfold sent. cbn.
  rewrite Ek. split; [done|]. split; [done|]. rewrite length_app. cbn. lia.
Qed.
End CallFacts.

(** ** Facts: a subscriber stays *)

(** The channel of subscriber [id] of the session at [a]. *)
Definition subscribed (m : Manager) (a : nat) (id : Z) (c : nat) : Prop := holds m a (inl id) c.

Lemma subscribed_put m m' a b s s' id c :
  sm_heap m' = <[b := s']> (sm_heap m) -> sm_heap m !! b = Some s ->
  (forall x, a = b -> ss_subs s !! id = Some x -> ss_subs s' !! id = Some x) ->
  subscribed m a id c -> subscribed m' a id c.
Proof.
  intros Hh Hb Hsub (t & Ht & Hc). unfold subscribed, holds. rewrite Hh. destruct (decide (a = b)) as [->|Hne].
  - assert (t = s) as -> by congruence. exists s'. rewrite lookup_insert_eq. split; [done|]. by apply Hsub.
  - exists t. by rewrite lookup_insert_ne.
Qed.

Lemma closeChans_heap cs m m' : closeChans cs m = Some m' -> sm_heap m' = sm_heap m.
Proof.
  revert m. induction cs as [|c cs IH]; intros m; cbn; [by intros [= <-]|]. unfold closeChan at 1.
  destruct (sm_chans m !! c) as [ch|]; [|done]. destruct (ch_closed ch); [done|]. intros H%IH. exact H.
Qed.

Lemma sendAll_heap receives u cs m m' : sendAll receives u cs m = Some m' -> sm_heap m' = sm_heap m.
Proof.
  revert m. induction cs as [|c cs IH]; intros m; cbn; [by intros [= <-]|]. unfold send at 1.
  destruct (sm_chans m !! c) as [ch|]; [|done]. destruct (ch_closed ch); [done|]. destruct (sendBuf _ _ _ _ _) as [buf full].
  intros H%IH. rewrite H. by destruct full.
Qed.

Lemma closeWatchers_heap a s m s' m' :
  closeWatchersLocked a s m = Some (s', m') -> s' = s <| ss_watchers := ∅ |> /\ sm_heap m' = <[a := s <| ss_watchers := ∅ |>]> (sm_heap m).
Proof.
  unfold closeWatchersLocked. destruct (closeChans _ _) as [m1|] eqn:E; [|done]. apply closeChans_heap in E. intros [= <- <-].
  split; [done|]. cbn. by rewrite E.
Qed.

(** An idle session has no subscriber to lose. *)
Lemma retired_subscribed n m m1 a b s s1 s' m' id c :
  Sound n m -> sm_sessions m !! ss_key s = Some b -> sm_heap m !! b = Some s -> (ss_refs s =? 0) = true ->
  sm_heap m1 = sm_heap m -> closeWatchersLocked b s1 m1 = Some (s', m') -> subscribed m a id c -> subscribed m' a id c.
Proof.
  intros S Hcur Hs Hr Hm1 E Hsub. apply closeWatchers_heap in E as [_ E]. rewrite Hm1 in E.
  eapply (subscribed_put m m' a b s); [exact E|done| |done]. intros x -> Hx. exfalso.
  destruct (so_live n m S _ _ Hcur) as (t & Ht & _ & _ & Hre). assert (t = s) as -> by congruence.
  by rewrite (no_refs s Hre Hr), lookup_empty in Hx.
Qed.

Lemma watchOrder_subscribed m a id c b cl : subscribed m a id c -> subscribed (snd (watchOrder b cl m)) a id c.
Proof.
  intros Hsub. unfold watchOrder. destruct (_ =?s _); [done|]. destruct (sm_heap m !! b) as [s|] eqn:Hs; [|done].
  destruct (_ || _); [done|]. cbn. by eapply (subscribed_put m _ a b s).
Qed.

Lemma Subscribe_subscribed n m a id c key credentials r m' :
  0 <= n < 2 ^ 64 - 1 -> Sound n m -> Subscribe key credentials m = Some (r, m') -> subscribed m a id c -> subscribed m' a id c.
Proof.
  intros Hn S H Hsub. unfold Subscribe in H. destruct (checkSubscribe m key credentials) as [k|e]; [|by injection H as _ <-].
  destruct (sm_closed m); [by injection H as _ <-|]. destruct (retireMismatched k credentials m) as [[current m1]|] eqn:Er; [|done].
  destruct (retireMismatched_sound n m k credentials S) as (cur' & m1' & Er' & S1 & _ & Hcur). rewrite Er in Er'. injection Er' as <- <-.
  assert (subscribed m1 a id c) as Hsub1.
  { unfold retireMismatched in Er. destruct (sm_sessions m !! k) as [b|] eqn:Hk; [|by injection Er as _ <-].
    destruct (so_live n m S k b Hk) as (s & Hs & Eks & _). rewrite Hs in Er. destruct (negb _); cbn [andb] in Er; [|by injection Er as _ <-].
    destruct (ss_refs s =? 0) eqn:Hr; [|by injection Er as _ <-]. destruct (closeWatchersLocked _ _ _) as [[s' m2]|] eqn:E; [|done].
    injection Er as _ <-. subst k. eapply retired_subscribed; [exact S|exact Hk|exact Hs|exact Hr| |exact E|done]. done. }
  clear Er Hsub. destruct current as [b|].
  - destruct Hcur as [-> Hk]. destruct (so_live n m S k b Hk) as (s & Hs & _). rewrite Hs in H. change (default (newSession k credentials) (Some s)) with s in H.
    destruct (negb _); [by injection H as _ <-|]. injection H as _ <-. eapply (subscribed_put m _ a b s); [reflexivity|done| |done].
    intros x -> Hx. cbn. rewrite lookup_insert_ne; [done|]. intros E. destruct (so_ids n m S b s Hs) as [Hr Hle].
    specialize (Hle (inl id) x Hx). cbn in Hle. assert (u64 (ss_nextID s + 1) = ss_nextID s + 1) by (apply Z.mod_small; lia). lia.
  - cbn [ss_credentials newSession] in H. rewrite credentialsEqual_refl in H. injection H as _ <-. destruct Hsub1 as (t & Ht & Hc).
    exists t. split; [|done]. cbn. pose proof (so_heap n m1 S1 a t Ht). rewrite !lookup_insert_ne by lia. done.
Qed.

Section Stays.
Context {D : Type} `{!Decimal D}.

(** The calls that end subscription [id] of the session at [a]. *)
Definition ends (a : nat) (id : Z) (op : Op) : bool :=
  match op with
  | OpUnsubscribe b i => (Nat.eqb a b && (id =? i))%bool
  | OpClose => true
  | _ => false
  end.

Lemma exec_subscribed n op m m' a id c :
  0 <= n < 2 ^ 64 - 1 -> Sound n m -> exec (D := D) op m = Some m' -> ends a id op = false ->
  subscribed m a id c -> subscribed m' a id c.
Proof.
  intros Hn S H He Hsub.
  destruct op as [key cr|key cl|b cl|b i|b|b cl i|key cl v|now b|now r b h cause|now r b u|x|]; cbn [exec] in H; [..|done].
  - destruct (Subscribe key cr m) as [[r m1]|] eqn:E; [|done]. injection H as <-. by eapply Subscribe_subscribed.
  - injection H as <-. unfold WatchOrder. destruct (normalized key) as [k|]; [|done].
    destruct (sm_sessions m !! k); [|done]. by apply watchOrder_subscribed.
  - injection H as <-. by apply watchOrder_subscribed.
  - unfold unsubscribe in H. destruct (sm_heap m !! b) as [s|] eqn:Hs; [|by injection H as <-].
    destruct (isCurrent m b s) eqn:Hcur; [|by injection H as <-]. cbn [negb] in H. destruct (ss_subs s !! i) as [c1|] eqn:Hc1; [|by injection H as <-].
    destruct (closeChan c1 m) as [m1|] eqn:E1; [|done]. assert (sm_heap m1 = sm_heap m) as Em1.
    { apply (closeChans_heap [c1]). cbn. by rewrite E1. }
    cbv zeta in H. set (s1 := s <| ss_subs := _ |> <| ss_refs := _ |>) in H.
    assert (forall x s2, ss_subs s2 = ss_subs s1 -> a = b -> ss_subs s !! id = Some x -> ss_subs s2 !! id = Some x) as Hkeep.
    { intros x s2 E -> Hx. rewrite E. cbn in He. rewrite Nat.eqb_refl in He. cbn in He. apply Z.eqb_neq in He. cbn. by rewrite lookup_delete_ne. }
    destruct (ss_refs s1 =? 0); [|injection H as <-; eapply (subscribed_put m _ a b s s1); [cbn; by rewrite Em1|done| |done]; intros x; by apply Hkeep].
    destruct (closeWatchersLocked b s1 _) as [[s2 m2]|] eqn:E2; [|done]. apply closeWatchers_heap in E2 as [-> E2]. injection H as <-.
    cbn in E2. rewrite Em1, insert_insert_eq in E2.
    destruct (sm_idleTimeout m2 <=? 0); (eapply (subscribed_put m _ a b s); [cbn; rewrite E2, insert_insert_eq; reflexivity|done| |done]);
      intros x; by apply Hkeep.
  - unfold expireIdle in H. destruct (sm_heap m !! b) as [s|] eqn:Hs; [|by injection H as <-]. unfold isCurrent in H.
    case_bool_decide as Hcur; [|by injection H as <-]. destruct (ss_refs s =? 0) eqn:Hr; [|by injection H as <-]. cbn [negb orb] in H.
    destruct (closeWatchersLocked _ _ _) as [[s2 m2]|] eqn:E; [|done]. injection H as <-.
    eapply retired_subscribed; [exact S|exact Hcur|exact Hs|exact Hr| |exact E|done]. done.
  - unfold closeWatch in H. destruct (sm_heap m !! b) as [s|] eqn:Hs; [|by injection H as <-]. cbv zeta in H.
    destruct (default ∅ (ss_watchers s !! cl) !! i) as [c1|]; [|by injection H as <-]. destruct (closeChan c1 m) as [m1|] eqn:E1; [|done].
    assert (sm_heap m1 = sm_heap m) as Em1 by (apply (closeChans_heap [c1]); cbn; by rewrite E1).
    injection H as <-. eapply (subscribed_put m _ a b s); [cbn; rewrite Em1; reflexivity|done|done|done].
  - injection H as <-. unfold BindClientVenueIDs. destruct (_ || _); [done|]. destruct (normalized key) as [k|]; [|done].
    destruct (sm_sessions m !! k) as [b|]; [|done]. destruct (sm_heap m !! b) as [s|] eqn:Hs; [|done]. destruct (sm_closed m); [done|].
    by eapply (subscribed_put m _ a b s).
  - injection H as <-. unfold touch. destruct (sm_heap m !! b) as [s|] eqn:Hs; [|done]. destruct (isCurrent m b s); [|done].
    by eapply (subscribed_put m _ a b s).
  - unfold setConnectionState in H. destruct (sm_heap m !! b) as [s|] eqn:Hs; [|by injection H as <-]. destruct (negb _); [by injection H as <-|].
    cbv zeta in H. unfold publishLocked in H. apply sendAll_heap in H. eapply (subscribed_put m _ a b s); [exact H|done|done|done].
  - unfold publish in H. destruct (sm_heap m !! b) as [s|] eqn:Hs; [|by injection H as <-]. destruct (negb _); [by injection H as <-|].
    destruct (reduceDEXUpdateLocked _ _ _) as [dex [v|]]; [|injection H as <-; by eapply (subscribed_put m _ a b s)].
    cbv zeta in H. unfold publishLocked in H. apply sendAll_heap in H. unfold rememberRecentFillAverage in H.
    destruct (normalized _); (eapply (subscribed_put m _ a b s); [exact H|done|done|done]).
  - injection H as <-. unfold receive. by destruct (sm_chans m !! x).
Qed.

(** A subscriber keeps its stream.  From the moment [Subscribe] returns
    until that subscription is closed or the manager is, whatever others
    subscribe, unsubscribe, watch or let expire, its session stays registered
    and not canceled, and its channel stays open and its own. *)
Theorem subscriber_keeps_stream timeout parsers ops later m m1 m2 key credentials sub :
  Z.of_nat (length ops + 1 + length later) < 2 ^ 64 ->
  execs (D := D) ops (newManager timeout parsers) = Some m -> Subscribe key credentials m = Some (inl sub, m1) ->
  execs (D := D) later m1 = Some m2 -> Forall (fun op => ends (sb_session sub) (sb_id sub) op = false) later ->
  exists s, sm_heap m2 !! sb_session sub = Some s /\ ss_subs s !! sb_id sub = Some (sb_updates sub) /\
    sm_sessions m2 !! ss_key s = Some (sb_session sub) /\ ss_canceled s = false /\ isOpen m2 (sb_updates sub).
Proof.
  intros Hlen Hr Hsub Hl He.
  assert (exists S0, Sound S0 m /\ S0 = Z.of_nat (length ops) /\ (sm_closed m = true -> sm_sessions m = ∅)) as (n & S & En & Hcl).
  { destruct (execs_kept (D := D) ops 0 (newManager timeout parsers)) as (m' & E & K & Kc); [lia|lia|apply newManager_sound|done|].
    rewrite Hr in E. injection E as <-. eauto. }
  destruct (Subscribe_sound n m key credentials) as (r & m1' & E1 & S1 & Hcl1); [lia|done|done|].
  rewrite Hsub in E1. injection E1 as <- <-.
  assert (subscribed m1 (sb_session sub) (sb_id sub) (sb_updates sub)) as Hh.
  { unfold Subscribe in Hsub. destruct (checkSubscribe m key credentials) as [k|e]; [|done]. destruct (sm_closed m); [done|].
    destruct (retireMismatched k credentials m) as [[current m0]|]; [|done].
    destruct current as [b|]; (destruct (negb _) in Hsub; [done|]); injection Hsub as <- <-; cbn; eexists; cbn;
      (split; [apply lookup_insert_eq|]); cbn; apply lookup_insert_eq. }
  clear Hsub Hr. assert (n + 1 + Z.of_nat (length later) < 2 ^ 64) as Hlen' by lia. clear Hlen En S Hcl.
  assert (0 <= n + 1) as Hpos. { pose proof (so_live _ _ S1) as _. destruct Hh as (s & Hs & _). pose proof (so_ids _ _ S1 _ _ Hs). lia. }
  revert S1 Hcl1 Hh Hl Hlen' Hpos. generalize (n + 1). clear n. intros n.
  revert n m1. induction He as [|op later Hop _ IH]; intros n m1 S1 Hcl1 Hh Hl Hlen Hpos; cbn [execs length] in *.
  - injection Hl as <-. destruct Hh as (s & Hs & Hc). exists s. split; [done|]. split; [done|].
    destruct (decide (sm_sessions m1 !! ss_key s = Some (sb_session sub))) as [Hcur|Hcur].
    + split; [done|]. destruct (so_live n m1 S1 _ _ Hcur) as (t & Ht & _ & Hca & _). assert (t = s) as -> by congruence. split; [done|].
      apply (so_open n m1 S1 (sb_session sub) (inl (sb_id sub))). by exists s.
    + destruct (so_dead n m1 S1 _ s Hs Hcur) as [V _]. by rewrite V in Hc.
  - destruct (exec (D := D) op m1) as [m1'|] eqn:Ex; [|done].
    destruct (exec_kept (D := D) n op m1) as (m'' & E'' & S'' & Hcl''); [lia|done|done|]. rewrite Ex in E''. injection E'' as <-.
    apply (IH (n + 1) m1'); [done|done| |done|lia|lia]. eapply exec_subscribed; [|exact S1|exact Ex|exact Hop|exact Hh]. lia.
Qed.
End Stays.

(** ** Errors of a connection (disconnect.go) *)

(** What [errors.As] finds in an error: the reason of a [disconnectError], a
    network timeout, a close of the websocket. *)
Record ConnError := mkConnError { ce_text : string; ce_reason : option string; ce_timeout : bool; ce_close : bool }.

Definition classifyIOError (e : ConnError) : string :=
  if ce_timeout e then "read_timeout" else if ce_close e then "remote_close" else "network_io".

Definition classifyDisconnect (err : option ConnError) : string :=
  match err with
  | None => "unknown"
  | Some e => match ce_reason e with
              | Some reason => if reason =?s "" then classifyIOError e else reason
              | None => classifyIOError e
              end
  end.

Definition classifyConnectError (err : option ConnError) : string :=
  match err with
  | None => "unknown"
  | Some e =>
      let reason := classifyDisconnect err in
      if negb (reason =?s "unknown") && negb (reason =?s "network_io") then reason
      else
        let message := ToLower (ce_text e) in
        if Contains message "authenticate" || Contains message "authentication" then "authentication_failed"
        else if Contains message "subscribe" || Contains message "subscription" then "subscription_failed"
        else classifyIOError e
  end.

(** ** The goroutine of a session *)

Inductive RunPc :=
| RunTop
| RunConnecting
| RunConnected
| RunReading
| RunPublishing (us : list Update)
| RunFailed (e : ConnError)
| RunDown (delay : Duration) (e : ConnError)
| RunWaiting (delay : Duration)
| RunDone.

Record Run := mkRun { rn_session : nat; rn_backoff : Duration; rn_attempted : bool; rn_lastDelay : Duration; rn_pc : RunPc }.
#[export] Instance eta_Run : Eta Run := fun r => mkRun (rn_session r) (rn_backoff r) (rn_attempted r) (rn_lastDelay r) (rn_pc r).

Section Running.
Context {D : Type} `{!Decimal D}.
(** [reconnectInitial] and [reconnectMax]. *)
Context (initial max : Duration).

Definition startRun (a : nat) : Run := mkRun a initial false 0 RunTop.

Definition hyperliquidFillFieldsValid (px sz oid tid : string) : bool :=
  if blank oid || blank tid then false
  else match dNewFromString (D := D) (TrimSpace px), dNewFromString (D := D) (TrimSpace sz) with
       | Some price, Some size => dIsPositive price && dIsPositive size
       | _, _ => false
       end.

(** The reports of a payload that [consume] publishes. *)
Definition consumable (venue : string) (u : Update) : bool :=
  negb ((venue =?s "hyperliquid") && bool_decide (ou_Type u = UpdateTrade) &&
        negb (hyperliquidFillFieldsValid (ou_LastPrice u) (ou_LastFilled u) (ou_VenueOrderID u) (ou_TradeID u))).

(** One step of [run]: the call it makes of the manager, if any.  [canceled] is
    the session's context; once it is done the connection is closed by a
    goroutine of [consume], and [dead] says that this has happened: a read of
    a closed connection fails. *)
Inductive runStep (canceled dead : bool) : Run -> option Op -> Run -> Prop :=
| run_stop r : rn_pc r = RunTop -> canceled = true -> runStep canceled dead r None (r <| rn_pc := RunDone |>)
| run_connect r : rn_pc r = RunTop -> canceled = false -> runStep canceled dead r None (r <| rn_pc := RunConnecting |>)
| run_connect_error r e : rn_pc r = RunConnecting -> runStep canceled dead r None (r <| rn_pc := RunFailed e |>)
| run_connected r : rn_pc r = RunConnecting ->
    runStep canceled dead r None (r <| rn_backoff := initial |> <| rn_pc := RunConnected |>)
| run_up r now receives : rn_pc r = RunConnected ->
    runStep canceled dead r (Some (OpConnection now receives (rn_session r) true "")) (r <| rn_pc := RunReading |>)
| run_read r now venue us : rn_pc r = RunReading -> dead = false ->
    runStep canceled dead r (Some (OpTouch now (rn_session r))) (r <| rn_pc := RunPublishing (List.filter (consumable venue) us) |>)
| run_publish r now receives u us : rn_pc r = RunPublishing (u :: us) ->
    runStep canceled dead r (Some (OpPublish now receives (rn_session r) u)) (r <| rn_pc := RunPublishing us |>)
| run_published r : rn_pc r = RunPublishing [] -> runStep canceled dead r None (r <| rn_pc := RunReading |>)
| run_read_error r e : rn_pc r = RunReading -> runStep canceled dead r None (r <| rn_pc := RunFailed e |>)
| run_failed_stop r e : rn_pc r = RunFailed e -> canceled = true -> runStep canceled dead r None (r <| rn_pc := RunDone |>)
| run_failed r e jitter : rn_pc r = RunFailed e -> canceled = false ->
    runStep canceled dead r None (r <| rn_attempted := true |> <| rn_pc := RunDown (wrap64 (rn_backoff r + jitter)) e |>)
| run_down r delay e now receives : rn_pc r = RunDown delay e ->
    runStep canceled dead r (Some (OpConnection now receives (rn_session r) false (ce_text e))) (r <| rn_pc := RunWaiting delay |>)
| run_wait_stop r delay : rn_pc r = RunWaiting delay -> canceled = true -> runStep canceled dead r None (r <| rn_pc := RunDone |>)
| run_retry r delay : rn_pc r = RunWaiting delay ->
    runStep canceled dead r None
      (r <| rn_lastDelay := delay |> <| rn_backoff := Z.min max (wrap64 (rn_backoff r * 2)) |> <| rn_pc := RunTop |>).

(** The delays stay within the configured bounds. *)
Definition backoffBounded (r : Run) : Prop := initial <= rn_backoff r <= max.

Lemma runStep_backoff canceled dead r op r' :
  0 < initial <= max -> max < 2 ^ 62 -> runStep canceled dead r op r' -> backoffBounded r -> backoffBounded r'.
Proof.
  intros Hi Hm Hs Hb. unfold backoffBounded in *. destruct Hs; cbn; try lia.
  assert (wrap64 (rn_backoff r * 2) = rn_backoff r * 2) as ->; [|lia].
  unfold wrap64. rewrite Z.mod_small by lia. lia.
Qed.

(** The steps left to a goroutine whose context is canceled and whose
    connection is closed. *)
Definition runMeasure (r : Run) : nat :=
  match rn_pc r with
  | RunDone => 0
  | RunTop | RunFailed _ => 1
  | RunWaiting _ | RunReading => 2
  | RunDown _ _ | RunConnected => 3
  | RunConnecting => 4
  | RunPublishing us => 3 + length us
  end.

Lemma runStep_decreases r op r' : runStep true true r op r' -> (runMeasure r' < runMeasure r)%nat.
Proof. unfold runMeasure. destruct 1 as [? E|? E|? ? E|? E|? ? ? E|? ? ? ? E|? ? ? ? ? E|? E|? ? E|? ? E|? ? ? E|? ? ? ? ? E|? ? E|? ? E]; rewrite E; cbn; try done; lia. Qed.

Lemma runStep_progress canceled r : rn_pc r <> RunDone -> exists op r', runStep canceled true r op r'.
Proof.
  intros H. destruct (rn_pc r) as [| | | |us|e|d e|d|] eqn:E; [..|done].
  - destruct canceled; eexists _, _; [by apply run_stop|by apply run_connect].
  - eexists _, _. by apply (run_connect_error _ _ _ (mkConnError "" None false false)).
  - eexists _, _. by apply (run_up _ _ _ 0 (fun _ => (0, 0)%nat)).
  - eexists _, _. by apply (run_read_error _ _ _ (mkConnError "" None false false)).
  - destruct us as [|u us]; eexists _, _; [by apply run_published|by apply (run_publish _ _ _ 0 (fun _ => (0, 0)%nat) u us)].
  - destruct canceled; eexists _, _; [by apply (run_failed_stop _ _ _ e)|by apply (run_failed _ _ _ e 0)].
  - eexists _, _. by apply (run_down _ _ _ d e 0 (fun _ => (0, 0)%nat)).
  - eexists _, _. by apply (run_retry _ _ _ d).
Qed.

(** A run of [k] steps after the context was canceled. *)
Inductive runSteps : nat -> Run -> Run -> Prop :=
| runs_none r : runSteps 0 r r
| runs_step k r op r1 r2 : runStep true true r op r1 -> runSteps k r1 r2 -> runSteps (S k) r r2.

Lemma runSteps_bound k r r' : runSteps k r r' -> (k + runMeasure r' <= runMeasure r)%nat.
Proof. induction 1 as [|k r op r1 r2 Hs _ IH]; [lia|]. apply runStep_decreases in Hs. lia. Qed.

End Running.

(** ** Witnesses *)

Definition hyperCredentials : StreamCredentials := mkStreamCredentials "" "agent-key" "" "" "0xuser" "" None None "".
Definition nobodyReads : nat -> nat * nat := fun _ => (0, 0)%nat.
Definition watchedOps : list Op :=
  [OpSubscribe hyperKey hyperCredentials; OpConnection 0 nobodyReads 0 true ""; OpSessionWatch 0 "0xclient";
   OpPublish 1 nobodyReads 0 (report "new" "1" 10); OpPublish 2 nobodyReads 0 (report "new" "1" 10)].
Definition hyperManager : Manager := newManager 0 {["hyperliquid"%string]}.

(** The reports in the channels of the subscriber and of the watcher. *)
Definition statusesIn (c : nat) (m : option Manager) : list string :=
  match m with
  | Some m => match sm_chans m !! c with Some ch => map ou_Status (ch_buf ch) | None => [] end
  | None => []
  end.

Example watched_runs :
  statusesIn 0 (execs (D := Dec) watchedOps hyperManager) = ["connected"; "new"]%string /\
  statusesIn 1 (execs (D := Dec) watchedOps hyperManager) = ["new"]%string.
Proof. vm_compute. done. Qed.

Lemma stream_manager_never_panics_witness :
  exists m, execs (D := Dec) (watchedOps ++ [OpClose; OpUnsubscribe 0 1; OpCloseWatch 0 "0xclient" 2]) hyperManager = Some m /\
    sm_sessions m = ∅.
Proof.
  pose proof (stream_manager_never_panics (D := Dec) 0 {["hyperliquid"%string]}
    (watchedOps ++ [OpClose; OpUnsubscribe 0 1; OpCloseWatch 0 "0xclient" 2]) eq_refl) as H.
  destruct H as (m & E & _ & Hc). exists m. split; [exact E|]. apply Hc.
  assert (option_map sm_closed (execs (D := Dec) (watchedOps ++ [OpClose; OpUnsubscribe 0 1; OpCloseWatch 0 "0xclient" 2]) hyperManager) = Some true)
    as Ev by (vm_compute; reflexivity).
  unfold hyperManager in Ev. rewrite E in Ev. cbn in Ev. by injection Ev.
Defined.

Lemma publish_delivers_witness :
  exists m m' ch, execs (D := Dec) watchedOps hyperManager = Some m /\
    publish (D := Dec) 3 nobodyReads 0 (report "filled" "2" 11) m = Some m' /\ sm_chans m' !! 1%nat = Some ch /\
    last (ch_buf ch) = Some (report "filled" "2" 11).
Proof.
  assert (exists m s dex, execs (D := Dec) watchedOps hyperManager = Some m /\ sm_heap m !! 0%nat = Some s /\ isCurrent m 0 s = true /\
    slot s (inr ("0xclient"%string, 2)) = Some 1%nat /\
    reduceDEXUpdateLocked (D := Dec) (sk_Venue (ss_key s)) (ss_dex s) (report "filled" "2" 11) = (dex, Some (report "filled" "2" 11)))
    as (m & s & dex & E & Hs & Hcur & Hsl & Hr).
  { destruct (execs (D := Dec) watchedOps hyperManager) as [m|] eqn:E; [|vm_compute in E; discriminate E].
    destruct (sm_heap m !! 0%nat) as [s|] eqn:Hs; [|vm_compute in E; injection E as <-; vm_compute in Hs; discriminate Hs].
    exists m, s. eexists. split; [reflexivity|]. split; [exact Hs|].
    vm_compute in E. injection E as <-. vm_compute in Hs. injection Hs as <-. repeat split; vm_compute; reflexivity. }
  pose proof (publish_delivers (D := Dec) 0 {["hyperliquid"%string]} watchedOps m 3 nobodyReads 0 s (report "filled" "2" 11) dex _ eq_refl E Hs Hcur Hr) as H.
  destruct H as (m' & Ep & Hd & _). destruct (Hd (inr ("0xclient"%string, 2)) 1%nat Hsl) as (ch & ch' & kept & _ & Hc' & _ & Eb & _); [by split|].
  exists m, m', ch'. split; [exact E|]. split; [exact Ep|]. split; [exact Hc'|]. rewrite Eb. apply last_snoc.
Defined.

Lemma subscriber_keeps_stream_witness :
  exists m sub m1 m2 s, execs (D := Dec) watchedOps hyperManager = Some m /\ Subscribe hyperKey hyperCredentials m = Some (inl sub, m1) /\
    execs (D := Dec) [OpUnsubscribe 0 1; OpExpireIdle 0] m1 = Some m2 /\
    sm_heap m2 !! sb_session sub = Some s /\ sm_sessions m2 !! ss_key s = Some (sb_session sub).
Proof.
  destruct (execs (D := Dec) watchedOps hyperManager) as [m|] eqn:E; [|vm_compute in E; discriminate E].
  destruct (Subscribe hyperKey hyperCredentials m) as [[[sub|e] m1]|] eqn:E1; [|vm_compute in E; injection E as <-; vm_compute in E1; discriminate E1..].
  destruct (execs (D := Dec) [OpUnsubscribe 0 1; OpExpireIdle 0] m1) as [m2|] eqn:E2;
    [|vm_compute in E; injection E as <-; vm_compute in E1; injection E1 as _ <-; vm_compute in E2; discriminate E2].
  assert (Forall (fun op => ends (sb_session sub) (sb_id sub) op = false) [OpUnsubscribe 0 1; OpExpireIdle 0]) as Hl.
  { clear E2. vm_compute in E. injection E as <-. vm_compute in E1. injection E1 as <- _. repeat constructor. }
  pose proof (subscriber_keeps_stream (D := Dec) 0 {["hyperliquid"%string]} watchedOps [OpUnsubscribe 0 1; OpExpireIdle 0]
    m m1 m2 hyperKey hyperCredentials sub eq_refl E E1 E2 Hl) as H.
  destruct H as (s & Hs & _ & Hk & _). exists m, sub, m1, m2, s. repeat split; assumption.
Defined.

