(* ===== verification/Metrics.v ===== *)
(** * Position metrics (arbitrage_position_metrics.go)

    The cost basis of each leg is replayed from the fills of a combination:
    average entry price, realised profit, and the inventory attributed to the
    combination when the account already held a position at the venue.  From
    the replay come the notional exposure over time, the funding and fee
    estimates and the annualised return.

    Two conversions from [float64] are parameters: [seconds d] is
    [decimal.NewFromFloat(d.Seconds())] and [hoursSeconds h] is
    [decimal.NewFromFloat(h*3600)], on an abstract type [Float]. *)
From Stdlib Require Import ZArith QArith Qround Qabs Qminmax Lqa String Sorted Permutation.
From stdpp Require Import base strings list gmap.
From S2P Require Import Prelude Decimal DecimalRef Types Quantity ArbMath.

#[local] Set Warnings "-clear-no-such-hyp".

Definition annualSeconds : Z := 365 * 24 * 60 * 60.
Definition metricsQualityComplete : string := "complete".
Definition metricsQualityEstimated : string := "estimated".
Definition metricsQualityPartial : string := "partial".

Record arbitrageMetricFill (D : Type) := mkFill {
  f_orderID : string;
  f_leg : string;
  f_side : string;
  f_quantity : D;
  f_price : D;
  f_at : GoTime
}.
Arguments mkFill {D}.
Arguments f_orderID {D}.
Arguments f_leg {D}.
Arguments f_side {D}.
Arguments f_quantity {D}.
Arguments f_price {D}.
Arguments f_at {D}.
#[export] Instance eta_arbitrageMetricFill D : Eta (arbitrageMetricFill D) := fun f =>
  mkFill (f_orderID f) (f_leg f) (f_side f) (f_quantity f) (f_price f) (f_at f).

Record arbitrageLegCost (D : Type) := mkCost {
  k_position : D;
  k_average : D;
  k_realized : D
}.
Arguments mkCost {D}.
Arguments k_position {D}.
Arguments k_average {D}.
Arguments k_realized {D}.
#[export] Instance eta_arbitrageLegCost D : Eta (arbitrageLegCost D) := fun c =>
  mkCost (k_position c) (k_average c) (k_realized c).

Record arbitrageReplay (D : Type) := mkReplay {
  rp_fills : list (arbitrageMetricFill D);
  rp_grossTurnover : D;
  rp_coverageComplete : bool;
  rp_orderRowCount : Z;
  rp_fillRowCount : Z;
  rp_loadDuration : Duration
}.
Arguments mkReplay {D}.
Arguments rp_fills {D}.
Arguments rp_grossTurnover {D}.
Arguments rp_coverageComplete {D}.
Arguments rp_orderRowCount {D}.
Arguments rp_fillRowCount {D}.
Arguments rp_loadDuration {D}.
#[export] Instance eta_arbitrageReplay D : Eta (arbitrageReplay D) := fun r =>
  mkReplay (rp_fills r) (rp_grossTurnover r) (rp_coverageComplete r) (rp_orderRowCount r)
    (rp_fillRowCount r) (rp_loadDuration r).

(** A row of the replay query. *)
Record replayRow := mkRow {
  rw_id : string;
  rw_leg : string;
  rw_side : string;
  rw_quantityRaw : string;
  rw_priceRaw : string;
  rw_at : GoTime
}.

Inductive MetricsApplyReason :=
| MetricsApplied | MetricsActiveWork | MetricsVersionConflict
| MetricsNotReady | MetricsInactive | MetricsAlreadyCurrent.

Record accountFeeSnapshot := mkFeeSnapshot {
  fs_exchange : string;
  fs_spotMaker : option string;
  fs_spotTaker : option string;
  fs_contractMaker : option string;
  fs_contractTaker : option string
}.

Record terminalFilledOrder (D : Type) := mkTerminalFilled {
  tf_accountID : Z;
  tf_exchange : string;
  tf_contractType : string;
  tf_role : string;
  tf_quantity : D;
  tf_price : D
}.
Arguments mkTerminalFilled {D}.
Arguments tf_accountID {D}.
Arguments tf_exchange {D}.
Arguments tf_contractType {D}.
Arguments tf_role {D}.
Arguments tf_quantity {D}.
Arguments tf_price {D}.

Record arbitragePositionMetricsWritePlan := mkWritePlan {
  wp_fillOK : bool;
  wp_writeAnnualized : bool;
  wp_quality : string;
  wp_fundingHistoryComplete : bool
}.

(** A failing [for rows.Next()] loop: the error of a scan or of the driver. *)
Definition rowError (text : string) : GoError := mkError [ErrOther] text.

(** A query: rows that scan or fail to, then the error [rows.Err()] reports. *)
Record rowSet (A : Type) := mkRows { rs_rows : list (Result A); rs_err : option GoError }.
Arguments mkRows {A}.
Arguments rs_rows {A}.
Arguments rs_err {A}.

(** The two legs and the venue positions a replay carries along. *)
Record replayState (D : Type) := mkReplayState {
  rs_legA : arbitrageLegCost D;
  rs_legB : arbitrageLegCost D;
  rs_venueA : D;
  rs_venueB : D
}.
Arguments mkReplayState {D}.
Arguments rs_legA {D}.
Arguments rs_legB {D}.
Arguments rs_venueA {D}.
Arguments rs_venueB {D}.

(** The variables of the exposure replay. *)
Record exposureState (D : Type) := mkExposure {
  ex_replay : replayState D;
  ex_cursor : GoTime;
  ex_notionalSeconds : D;
  ex_holdingSeconds : D
}.
Arguments mkExposure {D}.
Arguments ex_replay {D}.
Arguments ex_cursor {D}.
Arguments ex_notionalSeconds {D}.
Arguments ex_holdingSeconds {D}.

Section Metrics.
Context {D : Type} `{!Decimal D}.
Context {Float : Type} (seconds : Duration -> D) (hoursSeconds : Float -> D).
Local Open Scope dec_scope.

(** ** Cost basis *)

Definition signedQuantity (f : arbitrageMetricFill D) : D :=
  if f_side f =?s "sell" then dNeg (f_quantity f) else f_quantity f.

Definition applyArbitrageFill (s : arbitrageLegCost D) (f : arbitrageMetricFill D) : arbitrageLegCost D :=
  let signed := signedQuantity f in
  if dIsZero (k_position s) then s <| k_position := signed |> <| k_average := f_price f |>
  else if (dSign (k_position s) =? dSign signed)%Z then
    let total := dAbs (k_position s) + dAbs signed in
    s <| k_average := (k_average s * dAbs (k_position s) + f_price f * dAbs signed) / total |>
      <| k_position := k_position s + signed |>
  else
    let closed := dMin (dAbs (k_position s)) (dAbs signed) in
    let s' := s <| k_realized := k_realized s
                 + (f_price f - k_average s) * closed * dNewFromInt (dSign (k_position s)) |> in
    let next := k_position s + signed in
    if dIsZero next then s' <| k_position := dZero |> <| k_average := dZero |>
    else
      (if negb (dSign next =? dSign (k_position s))%Z then s' <| k_average := f_price f |> else s')
        <| k_position := next |>.

(** The new cost state and the new venue position. *)
Definition applyAttributedArbitrageFill (s : arbitrageLegCost D) (venuePosition : D)
    (f : arbitrageMetricFill D) (askSign : D) : arbitrageLegCost D * D :=
  let signed := signedQuantity f in
  let askQuantity := signed * askSign in
  let venueAskPosition := venuePosition * askSign in
  let attributed :=
    if dIsPositive askQuantity then
      let neutralized := dMin askQuantity (dMax (dNeg venueAskPosition) dZero) in
      askQuantity - neutralized
    else if dIsNegative askQuantity then
      let owned := k_position s * askSign in
      if dIsPositive owned then dMin (dAbs askQuantity) owned else dZero
    else dZero in
  (if dIsPositive attributed then applyArbitrageFill s (f <| f_quantity := attributed |>) else s,
   venuePosition + signed).

Definition zeroCost : arbitrageLegCost D := mkCost dZero dZero dZero.

Definition startReplay (baselines : option (D * D)) : replayState D :=
  match baselines with
  | Some (a, b) => mkReplayState zeroCost zeroCost a b
  | None => mkReplayState zeroCost zeroCost dZero dZero
  end.

Definition applyLegA (st : replayState D) (f : arbitrageMetricFill D) : replayState D :=
  let '(l, v) := applyAttributedArbitrageFill (rs_legA st) (rs_venueA st) f (dNewFromInt 1) in
  mkReplayState l (rs_legB st) v (rs_venueB st).

Definition applyLegB (st : replayState D) (f : arbitrageMetricFill D) : replayState D :=
  let '(l, v) := applyAttributedArbitrageFill (rs_legB st) (rs_venueB st) f (dNewFromInt (-1)) in
  mkReplayState (rs_legA st) l (rs_venueA st) v.

Fixpoint replayCostsLoop (st : replayState D) (fills : list (arbitrageMetricFill D)) (until : GoTime)
    : replayState D :=
  match fills with
  | [] => st
  | f :: rest =>
      if negb (IsZeroTime until) && TimeAfter (f_at f) until then st
      else replayCostsLoop
             (if f_leg f =?s "a" then applyLegA st f
              else if f_leg f =?s "b" then applyLegB st f else st) rest until
  end.

Definition replayArbitrageCosts (fills : list (arbitrageMetricFill D)) (until : GoTime)
    (baselines : option (D * D)) : arbitrageLegCost D * arbitrageLegCost D :=
  let st := replayCostsLoop (startReplay baselines) fills until in
  (rs_legA st, rs_legB st).

(** ** Exposure over time *)

(** The closure [settle]. *)
Definition settle (e : exposureState D) (at_ : GoTime) : exposureState D :=
  if TimeBefore at_ (ex_cursor e) then e
  else
    let elapsed := seconds (TimeSub at_ (ex_cursor e)) in
    let legA := rs_legA (ex_replay e) in
    let legB := rs_legB (ex_replay e) in
    let paired := dMin (dAbs (k_position legA)) (dAbs (k_position legB)) in
    let mark := (k_average legA + k_average legB) / dNewFromInt 2 in
    if dIsPositive paired && dIsPositive mark
    then mkExposure (ex_replay e) at_ (ex_notionalSeconds e + paired * mark * elapsed)
           (ex_holdingSeconds e + elapsed)
    else mkExposure (ex_replay e) at_ (ex_notionalSeconds e) (ex_holdingSeconds e).

Definition applyExposureFill (e : exposureState D) (f : arbitrageMetricFill D) : exposureState D :=
  mkExposure (if f_leg f =?s "a" then applyLegA (ex_replay e) f else applyLegB (ex_replay e) f)
    (ex_cursor e) (ex_notionalSeconds e) (ex_holdingSeconds e).

Fixpoint exposureLoop (e : exposureState D) (fills : list (arbitrageMetricFill D)) (start end_ : GoTime)
    : exposureState D :=
  match fills with
  | [] => e
  | f :: rest =>
      if TimeBefore (f_at f) start then exposureLoop (applyExposureFill e f) rest start end_
      else if TimeAfter (f_at f) end_ then e
      else exposureLoop (applyExposureFill (settle e (f_at f)) f) rest start end_
  end.

Definition replayArbitrageExposure (fills : list (arbitrageMetricFill D)) (start end_ : GoTime)
    (baselines : option (D * D)) : D * D :=
  if TimeBefore end_ start then (dZero, dZero)
  else
    let e := settle (exposureLoop (mkExposure (startReplay baselines) start dZero dZero)
                       fills start end_) end_ in
    (ex_notionalSeconds e, ex_holdingSeconds e).

(** ** Loading the fills *)

(** The order [sort.SliceStable] is given: by time, then by order id. *)
Definition fillLess (f g : arbitrageMetricFill D) : bool :=
  if TimeEqual (f_at f) (f_at g) then string_lt (f_orderID f) (f_orderID g)
  else TimeBefore (f_at f) (f_at g).

(** A stable sort: an element is put before the first one that is not
    strictly smaller, the list being inserted from its end. *)
Fixpoint insertFill (f : arbitrageMetricFill D) (l : list (arbitrageMetricFill D))
    : list (arbitrageMetricFill D) :=
  match l with
  | [] => [f]
  | g :: rest => if fillLess g f then g :: insertFill f rest else f :: l
  end.

Definition sortFills (l : list (arbitrageMetricFill D)) : list (arbitrageMetricFill D) :=
  foldr insertFill [] l.

Definition invalidAggregate (id : string) : GoError :=
  rowError (String.append "invalid arbitrage order aggregate " id).

Fixpoint replayRows (strictAverageCoverage : bool) (replay : arbitrageReplay D)
    (rows : list (Result replayRow)) : Result (arbitrageReplay D) :=
  match rows with
  | [] => Ok replay
  | Err e :: _ => Err e
  | Ok row :: rest =>
      match dNewFromString (D := D) (rw_quantityRaw row), dNewFromString (D := D) (rw_priceRaw row) with
      | Some quantity, Some price =>
          if negb (dIsPositive quantity) then Err (invalidAggregate (rw_id row))
          else if negb (dIsPositive price) then
            if strictAverageCoverage
            then replayRows strictAverageCoverage (replay <| rp_coverageComplete := false |>) rest
            else Err (invalidAggregate (rw_id row))
          else
            replayRows strictAverageCoverage
              (mkReplay
                 (rp_fills replay
                    ++ [mkFill (rw_id row) (rw_leg row) (rw_side row) quantity price (rw_at row)])
                 (rp_grossTurnover replay + quantity * price)
                 (rp_coverageComplete replay)
                 (wrap64 (rp_orderRowCount replay + 1))
                 (wrap64 (rp_fillRowCount replay + 1))
                 (rp_loadDuration replay)) rest
      | _, _ => Err (invalidAggregate (rw_id row))
      end
  end.

(** [query] answers the statement the flag selects; [elapsed] is
    [time.Since(started)]. *)
Definition loadArbitrageReplay (query : bool -> Result (rowSet replayRow))
    (strictAverageCoverage : bool) (elapsed : Duration) : Result (arbitrageReplay D) :=
  let? orderRows := query strictAverageCoverage in
  let? replay := replayRows strictAverageCoverage (mkReplay [] dZero true 0 0 0) (rs_rows orderRows) in
  match rs_err orderRows with
  | Some e => Err e
  | None => Ok (replay <| rp_fills := sortFills (rp_fills replay) |> <| rp_loadDuration := elapsed |>)
  end.

(** ** Annualised return, fees and funding *)

Definition planArbitragePositionMetricsWrite (replay : arbitrageReplay D)
    (feesComplete fundingComplete : bool) : arbitragePositionMetricsWritePlan :=
  let fillOK := rp_coverageComplete replay in
  let writeAnnualized := feesComplete && fundingComplete && fillOK in
  let quality :=
    if writeAnnualized then
      if rp_coverageComplete replay then metricsQualityComplete else metricsQualityEstimated
    else metricsQualityPartial in
  mkWritePlan fillOK writeAnnualized quality fundingComplete.

Definition calculateCombinedAnnualized (profit exposure holding : D) (thresholdHours : Float)
    : option D :=
  if negb (dIsPositive holding) || negb (dIsPositive exposure) then None
  else
    let effectiveSeconds := dMax holding (hoursSeconds thresholdHours) in
    let denominator := exposure / holding * effectiveSeconds in
    if negb (dIsPositive denominator) then None
    else Some (profit * dNewFromInt annualSeconds / denominator).

Definition tradingFeeCostRate (exchange : string) (storedRate : D) : D :=
  if EqualFold (TrimSpace exchange) "okx" then dNeg storedRate else storedRate.

Definition accountFeeRate (snapshot : accountFeeSnapshot) (role contractType : string) : option D :=
  let maker := EqualFold (TrimSpace role) "maker" in
  let spot := EqualFold (TrimSpace contractType) "spot" in
  let raw :=
    if spot && maker then fs_spotMaker snapshot
    else if spot && negb maker then fs_spotTaker snapshot
    else if negb spot && maker then fs_contractMaker snapshot
    else fs_contractTaker snapshot in
  match raw with
  | None => None
  | Some raw => if TrimSpace raw =?s "" then None else dNewFromString (TrimSpace raw)
  end.

Fixpoint tradingFeesLoop (total : D) (orders : list (terminalFilledOrder D))
    (accounts : gmap Z accountFeeSnapshot) : option D :=
  match orders with
  | [] => Some total
  | order :: rest =>
      match accounts !! tf_accountID order with
      | None => None
      | Some snapshot =>
          match accountFeeRate snapshot (tf_role order) (tf_contractType order) with
          | None => None
          | Some stored =>
              let notional := dAbs (tf_quantity order * tf_price order) in
              tradingFeesLoop (total + notional * tradingFeeCostRate (tf_exchange order) stored)
                rest accounts
          end
      end
  end.

Definition estimateTradingFees (orders : list (terminalFilledOrder D))
    (accounts : gmap Z accountFeeSnapshot) : option D :=
  tradingFeesLoop dZero orders accounts.

Definition metricsApplyMissReason (status runMode oneShotPhase : string)
    (calculatedAt : option GoTime) (now : GoTime) (hasActiveExecution hasActiveFilledOrder : bool)
    : MetricsApplyReason :=
  if negb (EqualFold status "running") then MetricsInactive
  else if EqualFold runMode "one_shot" && negb (oneShotPhase =?s "building_target")
            && negb (oneShotPhase =?s "waiting_exit") then MetricsInactive
  else if hasActiveExecution || hasActiveFilledOrder then MetricsActiveWork
  else match calculatedAt with
       | Some t => if negb (TimeBefore t now) then MetricsAlreadyCurrent else MetricsNotReady
       | None => MetricsNotReady
       end.

(** A row of the funding query: leg, funding time and rate. *)
Definition fundingRow : Type := string * GoTime * string.

Fixpoint fundingLoop (combinationID : string) (total : D) (rows : list (Result fundingRow))
    (fills : list (arbitrageMetricFill D)) (baselines : option (D * D)) : Result D :=
  match rows with
  | [] => Ok total
  | Err e :: _ => Err e
  | Ok (leg, at_, rateRaw) :: rest =>
      match dNewFromString (D := D) rateRaw with
      | None => Err (rowError (String.append "invalid funding rate for combination " combinationID))
      | Some rate =>
          let '(legA, legB) := replayArbitrageCosts fills at_ baselines in
          let state := if leg =?s "b" then legB else legA in
          let total' :=
            if negb (dIsZero (k_position state)) && dIsPositive (k_average state)
            then total + dNeg (k_position state * k_average state * rate) else total in
          fundingLoop combinationID total' rest fills baselines
      end
  end.

Definition loadArbitrageFundingPnL (combinationID : string) (query : Result (rowSet fundingRow))
    (replay : arbitrageReplay D) (baselineA baselineB : D) : Result (D * bool) :=
  let? rows := query in
  let? total := fundingLoop combinationID dZero (rs_rows rows) (rp_fills replay)
                  (Some (baselineA, baselineB)) in
  match rs_err rows with
  | Some e => Err e
  | None => Ok (total, true)
  end.

(** A row of the terminal orders query. *)
Definition terminalRow : Type := terminalFilledOrder string.

Fixpoint terminalRows (combinationID : string) (orders : list (terminalFilledOrder D))
    (rows : list (Result terminalRow)) : Result (list (terminalFilledOrder D)) :=
  match rows with
  | [] => Ok orders
  | Err e :: _ => Err e
  | Ok r :: rest =>
      match dNewFromString (D := D) (tf_quantity r), dNewFromString (D := D) (tf_price r) with
      | Some quantity, Some price =>
          if negb (dIsPositive quantity) || negb (dIsPositive price)
          then Err (rowError (String.append "invalid terminal filled order for combination " combinationID))
          else terminalRows combinationID
                 (orders ++ [mkTerminalFilled (tf_accountID r) (tf_exchange r) (tf_contractType r)
                               (tf_role r) quantity price]) rest
      | _, _ => Err (rowError (String.append "invalid terminal filled order for combination " combinationID))
      end
  end.

Definition loadTerminalFilledOrders (combinationID : string) (query : Result (rowSet terminalRow))
    : Result (list (terminalFilledOrder D)) :=
  let? rows := query in
  let? orders := terminalRows combinationID [] (rs_rows rows) in
  match rs_err rows with
  | Some e => Err e
  | None => Ok orders
  end.
End Metrics.

(** ** The cost basis identity *)

Section MetricsTheorems.
Context {D : Type} `{!Decimal D} `{!DecimalLaws D}.
Local Open Scope Q_scope.

(** What a leg is worth with the inventory marked at [m]. *)
Definition equity (s : arbitrageLegCost D) (m : Q) : Q :=
  dval (k_realized s) + dval (k_position s) * (m - dval (k_average s)).

(** The gain of one fill marked at [m]. *)
Definition fillGain (f : arbitrageMetricFill D) (m : Q) : Q :=
  dval (signedQuantity f) * (m - dval (f_price f)).

Lemma applyFill_increase (s : arbitrageLegCost D) (f : arbitrageMetricFill D) :
  ~ dval (k_position s) == 0 -> dSign (k_position s) = dSign (signedQuantity f) ->
  let total := dAdd (dAbs (k_position s)) (dAbs (signedQuantity f)) in
  Qabs ((dval (k_position s) + dval (signedQuantity f))
        * dval (dDiv (dAdd (dMul (k_average s) (dAbs (k_position s)))
                           (dMul (f_price f) (dAbs (signedQuantity f)))) total)
        - (dval (k_position s) * dval (k_average s) + dval (signedQuantity f) * dval (f_price f)))
  <= divEps * Qabs (dval (k_position s) + dval (signedQuantity f)).
Proof.
  intros Hp Hs total. subst total. set (x := signedQuantity f) in *.
  assert (HT : ~ dval (dAdd (dAbs (k_position s)) (dAbs x)) == 0).
  { dec_val. pose proof (Qabs_nonneg (dval x)).
    destruct (Qlt_le_dec (dval (k_position s)) 0);
      [rewrite (Qabs_neg (dval (k_position s))) by lra|rewrite (Qabs_pos (dval (k_position s))) by lra]; lra. }
  pose proof (dDiv_err (dAdd (dMul (k_average s) (dAbs (k_position s))) (dMul (f_price f) (dAbs x)))
                _ HT) as E.
  set (d := dval (dDiv _ _)) in *.
  set (p := dval (k_position s) + dval x).
  assert (Hq : dval (k_position s) * dval (k_average s) + dval x * dval (f_price f)
               == p * (dval (dAdd (dMul (k_average s) (dAbs (k_position s))) (dMul (f_price f) (dAbs x)))
                         / dval (dAdd (dAbs (k_position s)) (dAbs x)))).
  { subst p. dec_val.
    destruct (dSign_cases (k_position s)) as [[Hk Ek]|[[Hk Ek]|[Hk Ek]]]; [|tauto|];
      destruct (dSign_cases x) as [[Hx Ex]|[[Hx Ex]|[Hx Ex]]]; try congruence.
    - rewrite !Qabs_neg by lra. field. lra.
    - rewrite !Qabs_pos by lra. field. lra. }
  rewrite Hq. set (e := dval (dAdd (dMul _ _) _) / _) in *. clearbody e d.
  assert (p * d - p * e == (d - e) * p) as -> by ring.
  rewrite Qabs_Qmult. apply Qmult_le_compat_r; [done|apply Qabs_nonneg].
Qed.

(** The quantity closed, signed like the fill. *)
Definition closedPart (p x : Q) : Q := if Qle_bool (Qabs x) (Qabs p) then x else - p.

Lemma applyFill_closed (s : arbitrageLegCost D) (f : arbitrageMetricFill D) :
  let x := signedQuantity f in
  ~ dval (k_position s) == 0 -> dSign (k_position s) <> dSign x ->
  dval (dMul (dMul (dSub (f_price f) (k_average s)) (dMin (dAbs (k_position s)) (dAbs x)))
          (dNewFromInt (dSign (k_position s))))
  == - (dval (f_price f) - dval (k_average s)) * closedPart (dval (k_position s)) (dval x).
Proof.
  intros x Hp Es. unfold closedPart.
  dec_val. destruct (Qle_bool_reflect (Qabs (dval x)) (Qabs (dval (k_position s)))) as [Hl|Hl].
  - rewrite Q.min_r by done.
    destruct (dSign_cases (k_position s)) as [[Hk Ek]|[[Hk Ek]|[Hk Ek]]]; [|tauto|]; rewrite Ek;
      destruct (dSign_cases x) as [[Hx Ex]|[[Hx Ex]|[Hx Ex]]]; try congruence;
      [rewrite Hx; change (Qabs 0) with 0; ring|rewrite (Qabs_pos (dval x)) by lra|
       rewrite (Qabs_neg (dval x)) by lra|rewrite Hx; change (Qabs 0) with 0; ring];
      change (inject_Z (-1)) with (- (1)); change (inject_Z 1) with 1; ring.
  - apply Qnot_le_lt in Hl. rewrite Q.min_l by lra.
    destruct (dSign_cases (k_position s)) as [[Hk Ek]|[[Hk Ek]|[Hk Ek]]]; [|tauto|]; rewrite Ek;
      [rewrite (Qabs_neg (dval (k_position s))) by lra|rewrite (Qabs_pos (dval (k_position s))) by lra];
      change (inject_Z (-1)) with (- (1)); change (inject_Z 1) with 1; ring.
Qed.

(** What is closed brings the position to zero exactly when the fill is at
    least as large, and otherwise leaves its side unchanged. *)
Lemma closedPart_cases (s : arbitrageLegCost D) (x : D) :
  ~ dval (k_position s) == 0 -> dSign (k_position s) <> dSign x ->
  let next := dAdd (k_position s) x in
  (dval next == 0 -> closedPart (dval (k_position s)) (dval x) == dval x) /\
  (dSign next = dSign (k_position s) -> closedPart (dval (k_position s)) (dval x) == dval x) /\
  (~ dval next == 0 -> dSign next <> dSign (k_position s) ->
   closedPart (dval (k_position s)) (dval x) == - dval (k_position s)).
Proof.
  intros Hp Es next. unfold closedPart.
  assert (Hn : dval next == dval (k_position s) + dval x) by (unfold next; by dec_val).
  destruct (dSign_cases (k_position s)) as [[Hk Ek]|[[Hk Ek]|[Hk Ek]]]; [|tauto|];
    destruct (dSign_cases x) as [[Hx Ex]|[[Hx Ex]|[Hx Ex]]]; try congruence;
    destruct (dSign_cases next) as [[Hm Em]|[[Hm Em]|[Hm Em]]];
    destruct (Qle_bool_reflect (Qabs (dval x)) (Qabs (dval (k_position s)))) as [Hl|Hl];
    repeat split; intros; try congruence; try reflexivity; try lra;
    try (apply Qnot_le_lt in Hl); repeat qabs1; lra.
Qed.

(** One fill changes the marked value by its own gain, up to the rounding of
    the average when it adds to the position. *)
Lemma applyArbitrageFill_equity (s : arbitrageLegCost D) (f : arbitrageMetricFill D) (m : Q) :
  Qabs (equity (applyArbitrageFill s f) m - (equity s m + fillGain f m))
  <= divEps * Qabs (dval (k_position (applyArbitrageFill s f))).
Proof.
  assert (Hz : forall (e : Q) (p : Q), e == 0 -> Qabs e <= divEps * Qabs p).
  { intros e p ->. pose proof (Qabs_nonneg p). change (Qabs 0) with 0.
    pose proof divEps_pos. nra. }
  unfold applyArbitrageFill, equity, fillGain. set (x := signedQuantity f).
  destruct (dIsZero_reflect (k_position s)) as [Hp|Hp].
  { apply Hz. cbn [k_position k_average k_realized setter eta eta_arbitrageLegCost]. rewrite Hp. ring. }
  destruct (dSign (k_position s) =? dSign x)%Z eqn:Es.
  { apply Z.eqb_eq in Es. cbn [k_position k_average k_realized setter].
    pose proof (applyFill_increase s f Hp Es) as E. cbv zeta in E. fold x in E.
    rewrite (dAdd_val (k_position s) x). eapply Qle_trans; [|exact E].
    apply Qle_lteq; right. set (d := dval (dDiv _ _)). rewrite <- Qabs_opp.
    apply Qabs_wd. ring. }
  apply Z.eqb_neq in Es.
  pose proof (applyFill_closed s f Hp Es) as Hc. cbv zeta in Hc. fold x in Hc.
  destruct (closedPart_cases s x Hp Es) as (C1 & C2 & C3).
  assert (Hn : dval (dAdd (k_position s) x) == dval (k_position s) + dval x) by (by dec_val).
  destruct (dIsZero_reflect (dAdd (k_position s) x)) as [Hm|Hm].
  { apply Hz. cbn [k_position k_average k_realized setter].
    rewrite dAdd_val, Hc, (C1 Hm), dZero_val. rewrite Hn in Hm.
    assert (E : dval (k_position s) == - dval x) by lra. rewrite E. ring. }
  apply Hz. destruct (dSign (dAdd (k_position s) x) =? dSign (k_position s))%Z eqn:Em;
    [apply Z.eqb_eq in Em|apply Z.eqb_neq in Em]; cbn [k_position k_average k_realized setter negb];
    rewrite dAdd_val, Hc, Hn; [rewrite (C2 Em)|rewrite (C3 Hm Em)]; ring.
Qed.
Lemma applyArbitrageFill_position (s : arbitrageLegCost D) (f : arbitrageMetricFill D) :
  dval (k_position (applyArbitrageFill s f)) == dval (k_position s) + dval (signedQuantity f).
Proof.
  unfold applyArbitrageFill. set (x := signedQuantity f).
  destruct (dIsZero_reflect (k_position s)) as [Hp|Hp];
    [cbn [k_position setter]; rewrite Hp; ring|].
  destruct (_ =? _)%Z; [cbn [k_position setter]; apply dAdd_val|].
  destruct (dIsZero_reflect (dAdd (k_position s) x)) as [Hn|Hn];
    [cbn [k_position setter]; by rewrite <- dAdd_val, Hn, dZero_val|].
  cbn [k_position setter]. apply dAdd_val.
Qed.

(** ** Sequences of fills *)

Definition fillGains (l : list (arbitrageMetricFill D)) (m : Q) : Q :=
  foldr (fun f acc => fillGain f m + acc) 0 l.
Definition fillVolume (l : list (arbitrageMetricFill D)) : Q :=
  foldr (fun f acc => dval (f_quantity f) + acc) 0 l.
Definition fillNet (l : list (arbitrageMetricFill D)) : Q :=
  foldr (fun f acc => dval (signedQuantity f) + acc) 0 l.
Definition positiveFill (f : arbitrageMetricFill D) : Prop := 0 < dval (f_quantity f).

Lemma signedQuantity_abs (f : arbitrageMetricFill D) :
  positiveFill f -> Qabs (dval (signedQuantity f)) == dval (f_quantity f).
Proof.
  unfold positiveFill, signedQuantity. intros H. destruct (f_side f =?s "sell"); dec_val.
  - rewrite Qabs_opp, Qabs_pos by lra. reflexivity.
  - rewrite Qabs_pos by lra. reflexivity.
Qed.

Lemma fillVolume_nonneg (l : list (arbitrageMetricFill D)) : Forall positiveFill l -> 0 <= fillVolume l.
Proof.
  induction 1 as [|f l Hf _ IH]; [apply Qle_refl|].
  unfold positiveFill in Hf. cbn [fillVolume foldr]. fold (fillVolume l). lra.
Qed.

Lemma foldl_position (l : list (arbitrageMetricFill D)) : forall s,
  dval (k_position (foldl applyArbitrageFill s l)) == dval (k_position s) + fillNet l.
Proof.
  induction l as [|f l IH]; intros s; cbn [foldl fillNet foldr]; [ring|].
  rewrite IH, applyArbitrageFill_position. unfold fillNet. ring.
Qed.

Lemma foldl_equity (l : list (arbitrageMetricFill D)) (m : Q) : Forall positiveFill l -> forall s,
  Qabs (equity (foldl applyArbitrageFill s l) m - (equity s m + fillGains l m))
  <= divEps * inject_Z (Z.of_nat (length l)) * (Qabs (dval (k_position s)) + fillVolume l).
Proof.
  pose proof divEps_pos as He.
  induction 1 as [|f l Hf Hl IH]; intros s; cbn [foldl fillGains fillVolume foldr length].
  { assert (equity s m - (equity s m + 0) == 0) as -> by ring. change (Qabs 0) with 0.
    change (inject_Z (Z.of_nat 0)) with 0. rewrite Qmult_0_r, Qmult_0_l. apply Qle_refl. }
  fold (fillGains l m). fold (fillVolume l).
  pose proof (IH (applyArbitrageFill s f)) as E.
  pose proof (applyArbitrageFill_equity s f m) as E1.
  pose proof (fillVolume_nonneg l Hl) as Hv.
  assert (Hp : Qabs (dval (k_position (applyArbitrageFill s f)))
               <= Qabs (dval (k_position s)) + dval (f_quantity f)).
  { rewrite applyArbitrageFill_position. eapply Qle_trans; [apply Qabs_triangle|].
    rewrite (signedQuantity_abs f Hf). lra. }
  pose proof (Qabs_nonneg (dval (k_position (applyArbitrageFill s f)))) as Hn.
  set (s' := applyArbitrageFill s f) in *.
  set (a := Qabs (dval (k_position s'))) in *.
  rewrite Nat2Z.inj_succ, <- Z.add_1_r, inject_Z_plus. change (inject_Z 1) with 1.
  assert (Hln : 0 <= inject_Z (Z.of_nat (length l)))
    by (change 0 with (inject_Z 0); rewrite <- Zle_Qle; lia).
  set (n := inject_Z (Z.of_nat (length l))) in *.
  assert (equity (foldl applyArbitrageFill s' l) m - (equity s m + (fillGain f m + fillGains l m))
    == (equity (foldl applyArbitrageFill s' l) m - (equity s' m + fillGains l m))
          + (equity s' m - (equity s m + fillGain f m))) as -> by ring.
  eapply Qle_trans; [apply Qabs_triangle|].
  unfold positiveFill in Hf. set (q := dval (f_quantity f)) in *.
  set (w := Qabs (dval (k_position s))) in *. set (v := fillVolume l) in *.
  eapply Qle_trans; [apply Qplus_le_compat; [exact E|exact E1]|].
  assert (divEps * n * (a + v) <= divEps * n * (w + (q + v))).
  { apply Qmult_le_l_nonneg; [nra|lra]. }
  assert (divEps * a <= divEps * (w + (q + v))) by (apply Qmult_le_l_nonneg; lra).
  nra.
Qed.

(** ** Attribution *)

(** Inventory the combination owns and venue position, in the direction an
    ask signal trades the leg. *)
Definition ownedAsk (s : arbitrageLegCost D) (sg : D) : Q := dval (k_position s) * dval sg.
Definition attributionInv (s : arbitrageLegCost D) (v sg : D) : Prop :=
  0 <= ownedAsk s sg /\ ownedAsk s sg <= Qmax 0 (dval v * dval sg).
Definition attributionExact (s : arbitrageLegCost D) (v sg : D) : Prop :=
  ownedAsk s sg == Qmax 0 (dval v * dval sg).
Definition unitSign (sg : D) : Prop := dval sg == 1 \/ dval sg == - (1).

(** The quantity attributed by [applyAttributedArbitrageFill]. *)
Definition attributedOf (s : arbitrageLegCost D) (v : D) (f : arbitrageMetricFill D) (sg : D) : D :=
  let ask := dMul (signedQuantity f) sg in
  if dIsPositive ask then dSub ask (dMin ask (dMax (dNeg (dMul v sg)) dZero))
  else if dIsNegative ask then
    if dIsPositive (dMul (k_position s) sg) then dMin (dAbs ask) (dMul (k_position s) sg) else dZero
  else dZero.

Lemma applyAttributed_unfold (s : arbitrageLegCost D) (v : D) f sg :
  applyAttributedArbitrageFill s v f sg
  = (if dIsPositive (attributedOf s v f sg)
     then applyArbitrageFill s (f <| f_quantity := attributedOf s v f sg |>) else s,
     dAdd v (signedQuantity f)).
Proof. reflexivity. Qed.

Lemma signedQuantity_cases (f : arbitrageMetricFill D) :
  (forall q, dval (signedQuantity (f <| f_quantity := q |>)) == dval q) \/
  (forall q, dval (signedQuantity (f <| f_quantity := q |>)) == - dval q).
Proof.
  unfold signedQuantity. cbn [f_side f_quantity setter]. destruct (f_side f =?s "sell"); [right|left].
  - intros q. apply dNeg_val.
  - intros q. reflexivity.
Qed.

(** Signed quantity of [f] itself. *)
Lemma signedQuantity_self (f : arbitrageMetricFill D) :
  signedQuantity f = signedQuantity (f <| f_quantity := f_quantity f |>).
Proof. by destruct f. Qed.

(** What is attributed, by the direction of the fill. *)
Lemma attributedOf_val (s : arbitrageLegCost D) (v : D) f sg :
  attributionInv s v sg ->
  let ask := dval (signedQuantity f) * dval sg in
  (0 < ask -> dval (attributedOf s v f sg) == Qmax 0 (ask - Qmax 0 (- (dval v * dval sg)))) /\
  (ask < 0 -> dval (attributedOf s v f sg) == Qmin (- ask) (ownedAsk s sg)) /\
  (ask == 0 -> dval (attributedOf s v f sg) == 0).
Proof.
  intros [H1 H2] ask. unfold attributedOf, ownedAsk in *.
  assert (Ha : dval (dMul (signedQuantity f) sg) == ask) by apply dMul_val.
  assert (Ho : dval (dMul (k_position s) sg) == dval (k_position s) * dval sg) by apply dMul_val.
  set (a := dMul (signedQuantity f) sg) in *. set (o := dMul (k_position s) sg) in *.
  clearbody a o ask. clear f.
  assert (Hv : dval (dMul v sg) == dval v * dval sg) by apply dMul_val.
  set (w := dMul v sg) in *. clearbody w.
  destruct (dIsPositive_reflect a), (dIsNegative_reflect a), (dIsPositive_reflect o);
    repeat split; intros; dec_val; rewrite ?Ha, ?Hv, ?Ho in *; try lra; repeat qminmax1; repeat qabs1; lra.
Qed.

Record attributedStep (s : arbitrageLegCost D) (v : D) (f : arbitrageMetricFill D) (sg : D)
    (s' : arbitrageLegCost D) (v' : D) : Prop := {
  as_fill : s' = s \/ exists q, 0 < dval q /\ dval q <= dval (f_quantity f)
                         /\ s' = applyArbitrageFill s (f <| f_quantity := q |>);
  as_venue : dval v' == dval v + dval (signedQuantity f);
  as_inv : attributionInv s' v' sg;
  as_exact : attributionExact s v sg -> attributionExact s' v' sg
}.

Lemma ownedAsk_applied (s : arbitrageLegCost D) f sg q :
  unitSign sg -> positiveFill f ->
  let ask := dval (signedQuantity f) * dval sg in
  Qabs ask == dval (f_quantity f) /\
  (0 < ask -> ownedAsk (applyArbitrageFill s (f <| f_quantity := q |>)) sg == ownedAsk s sg + dval q) /\
  (ask < 0 -> ownedAsk (applyArbitrageFill s (f <| f_quantity := q |>)) sg == ownedAsk s sg - dval q).
Proof.
  intros Hs Hf ask. unfold ownedAsk, positiveFill in *. rewrite applyArbitrageFill_position.
  assert (Ha : ask == dval (signedQuantity (f <| f_quantity := f_quantity f |>)) * dval sg)
    by (subst ask; rewrite <- signedQuantity_self; reflexivity).
  clearbody ask.
  destruct (signedQuantity_cases f) as [E|E]; rewrite E in Ha; rewrite E; destruct Hs as [Hs|Hs];
    rewrite Hs in *; repeat split; intros; try lra; rewrite Ha;
    [rewrite Qabs_pos by lra|rewrite Qabs_neg by lra|rewrite Qabs_neg by lra|rewrite Qabs_pos by lra]; lra.
Qed.

(** The arithmetic of one attributed fill: [o] owned and [a] at the venue
    before it, [k] its size, [q] what is attributed and [o'] owned after. *)
Lemma attribution_up (o a k q o' : Q) :
  0 <= o -> o <= Qmax 0 a -> 0 < k -> q == Qmax 0 (k - Qmax 0 (- a)) -> o' == o + Qmax 0 q ->
  (0 <= o' /\ o' <= Qmax 0 (a + k)) /\ (o == Qmax 0 a -> o' == Qmax 0 (a + k)).
Proof.
  destruct (Q.max_spec_le 0 a) as [[? ->]|[? ->]], (Q.max_spec_le 0 (- a)) as [[? ->]|[? ->]];
    intros; destruct (Q.max_spec_le 0 (a + k)) as [[? ->]|[? ->]],
      (Q.max_spec_le 0 q) as [[? Eq]|[? Eq]]; rewrite Eq in *;
    match goal with H : q == Qmax 0 ?e |- _ =>
      destruct (Q.max_spec_le 0 e) as [[? Ee]|[? Ee]]; rewrite Ee in H end; repeat split; lra.
Qed.

Lemma attribution_down (o a k q o' : Q) :
  0 <= o -> o <= Qmax 0 a -> 0 < k -> q == Qmin k o -> o' == o - Qmax 0 q ->
  (0 <= o' /\ o' <= Qmax 0 (a - k)) /\ (o == Qmax 0 a -> o' == Qmax 0 (a - k)).
Proof.
  destruct (Q.max_spec_le 0 a) as [[? ->]|[? ->]], (Q.min_spec_le k o) as [[? ->]|[? ->]];
    intros; destruct (Q.max_spec_le 0 (a - k)) as [[? ->]|[? ->]],
      (Q.max_spec_le 0 q) as [[? Eq]|[? Eq]]; rewrite Eq in *; repeat split; lra.
Qed.

Lemma applyAttributed_step (s : arbitrageLegCost D) (v : D) f sg :
  unitSign sg -> positiveFill f -> attributionInv s v sg ->
  attributedStep s v f sg (applyAttributedArbitrageFill s v f sg).1 (applyAttributedArbitrageFill s v f sg).2.
Proof.
  intros Hs Hf Hi. rewrite applyAttributed_unfold. cbn [fst snd].
  pose proof (attributedOf_val s v f sg Hi) as (V1 & V2 & V3). cbv zeta in V1, V2, V3.
  pose proof (ownedAsk_applied s f sg (attributedOf s v f sg) Hs Hf) as (Hq & O1 & O2).
  cbv zeta in Hq, O1, O2. set (q := attributedOf s v f sg) in *. clearbody q.
  assert (Hw : dval (dAdd v (signedQuantity f)) * dval sg
               == dval v * dval sg + dval (signedQuantity f) * dval sg) by (dec_val; ring).
  set (ask := dval (signedQuantity f) * dval sg) in *.
  set (s1 := applyArbitrageFill s (f <| f_quantity := q |>)) in *.
  assert (Hcase : (0 < ask /\ ask == dval (f_quantity f)) \/ (ask < 0 /\ - ask == dval (f_quantity f))).
  { unfold positiveFill in Hf. destruct (Qlt_le_dec ask 0);
      [rewrite Qabs_neg in Hq by lra; right; split; lra|rewrite Qabs_pos in Hq by lra; left; split; lra]. }
  destruct Hi as [I1 I2].
  assert (Hb : dval q <= dval (f_quantity f)).
  { destruct Hcase as [[C E]|[C E]]; [rewrite (V1 C), <- E|rewrite (V2 C), <- E]; repeat qminmax1; lra. }
  set (s' := if dIsPositive q then s1 else s).
  assert (Hfin : attributionInv s' (dAdd v (signedQuantity f)) sg /\
                 (attributionExact s v sg -> attributionExact s' (dAdd v (signedQuantity f)) sg)).
  { unfold attributionInv, attributionExact. rewrite Hw.
    destruct Hcase as [[C E]|[C E]].
    - apply (attribution_up _ _ _ (dval q)); try done; [by apply V1|].
      subst s'. destruct (dIsPositive_reflect q); [rewrite Q.max_r by lra; by apply O1|].
      rewrite Q.max_l by lra. lra.
    - assert (dval v * dval sg + ask == dval v * dval sg - - ask) as -> by ring.
      apply (attribution_down _ _ _ (dval q)); try done; [lra|by apply V2|].
      subst s'. destruct (dIsPositive_reflect q); [rewrite Q.max_r by lra; by apply O2|].
      rewrite Q.max_l by lra. lra. }
  destruct Hfin as [F1 F2]. split; [|apply dAdd_val|exact F1|exact F2].
  subst s'. destruct (dIsPositive_reflect q); [right; exists q; auto|by left].
Qed.

(** ** The replay *)

(** The fills a replay up to [until] processes. *)
Fixpoint processed (until : GoTime) (fills : list (arbitrageMetricFill D)) : list (arbitrageMetricFill D) :=
  match fills with
  | [] => []
  | f :: rest => if negb (IsZeroTime until) && TimeAfter (f_at f) until then [] else f :: processed until rest
  end.

Definition legFills (leg : string) (until : GoTime) (fills : list (arbitrageMetricFill D))
    : list (arbitrageMetricFill D) :=
  filter (fun f => f_leg f = leg) (processed until fills).

Definition attributedFold (sg : D) (s : arbitrageLegCost D) (v : D) (l : list (arbitrageMetricFill D))
    : arbitrageLegCost D * D :=
  foldl (fun p f => applyAttributedArbitrageFill p.1 p.2 f sg) (s, v) l.

(** The replay of both legs is the replay of each on its own fills. *)
Lemma replayCostsLoop_legs (until : GoTime) (fills : list (arbitrageMetricFill D)) : forall st,
  (rs_legA (replayCostsLoop st fills until), rs_venueA (replayCostsLoop st fills until))
  = attributedFold (dNewFromInt 1) (rs_legA st) (rs_venueA st) (legFills "a" until fills) /\
  (rs_legB (replayCostsLoop st fills until), rs_venueB (replayCostsLoop st fills until))
  = attributedFold (dNewFromInt (-1)) (rs_legB st) (rs_venueB st) (legFills "b" until fills).
Proof.
  unfold legFills, attributedFold.
  induction fills as [|f l IH]; intros st; cbn [replayCostsLoop processed]; [done|].
  destruct (negb (IsZeroTime until) && TimeAfter (f_at f) until); [done|].
  rewrite !filter_cons.
  destruct (String.eqb_spec (f_leg f) "a") as [Ea|Ea].
  { rewrite decide_True by done. rewrite decide_False by congruence. cbn [foldl fst snd].
    destruct (IH (applyLegA st f)) as [IA IB]. rewrite IA, IB. unfold applyLegA.
    by destruct (applyAttributedArbitrageFill (rs_legA st) (rs_venueA st) f _). }
  rewrite decide_False by done.
  destruct (String.eqb_spec (f_leg f) "b") as [Eb|Eb]; [|rewrite decide_False by done; apply IH].
  rewrite decide_True by done. cbn [foldl fst snd].
  destruct (IH (applyLegB st f)) as [IA IB]. rewrite IA, IB. unfold applyLegB.
  by destruct (applyAttributedArbitrageFill (rs_legB st) (rs_venueB st) f _).
Qed.

(** [Attributed l r]: [r] is [l] with some fills left out and the others
    counted for a part of their quantity. *)
Inductive Attributed : list (arbitrageMetricFill D) -> list (arbitrageMetricFill D) -> Prop :=
| att_nil : Attributed [] []
| att_skip f l r : Attributed l r -> Attributed (f :: l) r
| att_take f q l r : 0 < dval q -> dval q <= dval (f_quantity f) -> Attributed l r ->
    Attributed (f :: l) (f <| f_quantity := q |> :: r).

Lemma Attributed_positive (l r : list (arbitrageMetricFill D)) : Attributed l r -> Forall positiveFill r.
Proof. induction 1; [constructor|done|constructor; [|done]]. unfold positiveFill. by cbn [f_quantity setter]. Qed.

Lemma attributedFold_spec (sg : D) (l : list (arbitrageMetricFill D)) :
  unitSign sg -> Forall positiveFill l -> forall s v, attributionInv s v sg ->
  let p := attributedFold sg s v l in
  (exists r, Attributed l r /\ p.1 = foldl applyArbitrageFill s r) /\
  dval p.2 == dval v + fillNet l /\
  attributionInv p.1 p.2 sg /\ (attributionExact s v sg -> attributionExact p.1 p.2 sg).
Proof.
  intros Hs. induction 1 as [|f l Hf Hl IH]; intros s v Hi; cbv zeta.
  { cbn [attributedFold foldl fst snd fillNet foldr]. split; [|split; [lra|done]].
    exists []. split; [constructor|done]. }
  unfold attributedFold. cbn [foldl fst snd].
  destruct (applyAttributed_step s v f sg Hs Hf Hi) as [Af Av Ai Ax].
  destruct (applyAttributedArbitrageFill s v f sg) as [s' v'] eqn:E. cbn [fst snd] in *.
  specialize (IH s' v' Ai). cbv zeta in IH. fold (attributedFold sg s' v' l).
  destruct IH as ((r & Hr & Er) & Ev & Ii & Ix).
  split; [|split; [|split; [done|tauto]]].
  - destruct Af as [->|(q & Q1 & Q2 & ->)].
    + exists r. split; [by constructor|done].
    + exists (f <| f_quantity := q |> :: r). split; [by constructor|done].
  - rewrite Ev, Av. cbn [fillNet foldr]. fold (fillNet l). ring.
Qed.

Lemma unitSign_pos : unitSign (dNewFromInt 1).
Proof. left. by rewrite dNewFromInt_val. Qed.
Lemma unitSign_neg : unitSign (dNewFromInt (-1)).
Proof. right. by rewrite dNewFromInt_val. Qed.

Lemma attributionInv_zero (v sg : D) : attributionInv zeroCost v sg.
Proof.
  unfold attributionInv, ownedAsk. cbn [k_position zeroCost]. rewrite dZero_val, Qmult_0_l.
  split; [lra|apply Q.le_max_l].
Qed.

Lemma legFills_positive leg until (fills : list (arbitrageMetricFill D)) :
  Forall positiveFill fills -> Forall positiveFill (legFills leg until fills).
Proof.
  unfold legFills. induction 1 as [|f l Hf Hl IH]; cbn [processed]; [constructor|].
  destruct (negb (IsZeroTime until) && TimeAfter (f_at f) until); [constructor|].
  rewrite filter_cons. case_decide; [by constructor|done].
Qed.

(** Both legs of a replay, by [attributedFold_spec]. *)
Lemma replay_legs (fills : list (arbitrageMetricFill D)) (until : GoTime) (ba bb : D) :
  let '(a, b) := replayArbitrageCosts fills until (Some (ba, bb)) in
  a = (attributedFold (dNewFromInt 1) zeroCost ba (legFills "a" until fills)).1 /\
  b = (attributedFold (dNewFromInt (-1)) zeroCost bb (legFills "b" until fills)).1.
Proof.
  unfold replayArbitrageCosts. cbn [startReplay].
  destruct (replayCostsLoop_legs until fills (mkReplayState zeroCost zeroCost ba bb)) as [EA EB].
  cbn [rs_legA rs_legB rs_venueA rs_venueB] in EA, EB. by rewrite <- EA, <- EB.
Qed.

(** In a replay of fills with positive quantities the inventory attributed to the
    combination is long on leg A and short on leg B, never more than what the
    account holds at the venue in that direction after the same fills, and
    exactly that when the account started flat or on the other side: a
    position the account already had is never counted as the combination's. *)
Theorem replay_attributes_own_inventory (fills : list (arbitrageMetricFill D)) (until : GoTime) (ba bb : D) :
  Forall positiveFill fills ->
  let '(a, b) := replayArbitrageCosts fills until (Some (ba, bb)) in
  let venueA := dval ba + fillNet (legFills "a" until fills) in
  let venueB := dval bb + fillNet (legFills "b" until fills) in
  0 <= dval (k_position a) /\ dval (k_position a) <= Qmax 0 venueA /\
  dval (k_position b) <= 0 /\ - dval (k_position b) <= Qmax 0 (- venueB) /\
  (dval ba <= 0 -> dval (k_position a) == Qmax 0 venueA) /\
  (0 <= dval bb -> - dval (k_position b) == Qmax 0 (- venueB)).
Proof.
  intros Hp. pose proof (replay_legs fills until ba bb) as E.
  destruct (replayArbitrageCosts fills until (Some (ba, bb))) as [a b]. destruct E as [-> ->].
  destruct (attributedFold_spec _ _ unitSign_pos (legFills_positive "a" until fills Hp) zeroCost ba
              (attributionInv_zero _ _)) as (_ & VA & [A1 A2] & XA).
  destruct (attributedFold_spec _ _ unitSign_neg (legFills_positive "b" until fills Hp) zeroCost bb
              (attributionInv_zero _ _)) as (_ & VB & [B1 B2] & XB).
  cbv zeta. rewrite <- VA, <- VB. unfold attributionExact, ownedAsk in *.
  rewrite !(dNewFromInt_val 1) in *. rewrite !(dNewFromInt_val (-1)) in *.
  change (inject_Z 1) with 1 in *. change (inject_Z (-1)) with (- (1)) in *.
  rewrite Qmult_1_r in A1, A2. rewrite Qmult_1_r in A2.
  set (pa := attributedFold _ _ _ _) in *. set (pb := attributedFold (dNewFromInt (-1)) _ _ _) in *.
  assert (Hn : forall x : Q, x * - (1) == - x) by (intros; ring). rewrite Hn in B1. rewrite !Hn in B2.
  repeat split; [done|done|lra|done|intros H|intros H].
  - rewrite !Qmult_1_r in XA. apply XA. cbn [k_position zeroCost].
    by rewrite dZero_val, Q.max_l by lra.
  - rewrite !Hn in XB. apply XB. cbn [k_position zeroCost].
    by rewrite dZero_val, Q.max_l by lra.
Qed.

(** One leg: what [foldl_equity] says from an empty cost state. *)
Lemma fold_identity (r : list (arbitrageMetricFill D)) (m : Q) :
  Forall positiveFill r ->
  Qabs (equity (foldl applyArbitrageFill zeroCost r) m - fillGains r m)
  <= divEps * inject_Z (Z.of_nat (length r)) * fillVolume r.
Proof.
  intros H. pose proof (foldl_equity r m H zeroCost) as E.
  assert (E0 : equity zeroCost m == 0)
    by (unfold equity; cbn [k_position k_realized zeroCost]; rewrite !dZero_val; ring).
  cbn [k_position zeroCost] in E. rewrite E0, dZero_val, !Qplus_0_l in E. exact E.
Qed.

(** C37: The cost basis keeps the books.  Each leg of a replay is the result
    of applying a part of its own fills, in order, and for every mark price
    the realised profit plus the inventory marked at that price is the sum of
    the gains of those parts, [signed quantity * (mark - price)], up to the
    rounding of the average price: at most one division error per fill on the
    volume traded.  The position is the exact sum of the signed parts. *)
Theorem replay_keeps_books (fills : list (arbitrageMetricFill D)) (until : GoTime) (ba bb : D) :
  Forall positiveFill fills ->
  let '(a, b) := replayArbitrageCosts fills until (Some (ba, bb)) in
  exists ra rb,
    Attributed (legFills "a" until fills) ra /\ Attributed (legFills "b" until fills) rb /\
    dval (k_position a) == fillNet ra /\ dval (k_position b) == fillNet rb /\
    forall m,
      Qabs (dval (k_realized a) + dval (k_position a) * (m - dval (k_average a)) - fillGains ra m)
        <= divEps * inject_Z (Z.of_nat (length ra)) * fillVolume ra /\
      Qabs (dval (k_realized b) + dval (k_position b) * (m - dval (k_average b)) - fillGains rb m)
        <= divEps * inject_Z (Z.of_nat (length rb)) * fillVolume rb.
Proof.
  intros Hp. pose proof (replay_legs fills until ba bb) as E.
  destruct (replayArbitrageCosts fills until (Some (ba, bb))) as [a b]. destruct E as [-> ->].
  destruct (attributedFold_spec _ _ unitSign_pos (legFills_positive "a" until fills Hp) zeroCost ba
              (attributionInv_zero _ _)) as ((ra & Ra & Ea) & _).
  destruct (attributedFold_spec _ _ unitSign_neg (legFills_positive "b" until fills Hp) zeroCost bb
              (attributionInv_zero _ _)) as ((rb & Rb & Eb) & _).
  exists ra, rb. rewrite Ea, Eb. split; [done|]. split; [done|].
  assert (Hn : forall r, dval (k_position (foldl applyArbitrageFill zeroCost r)) == fillNet r).
  { intros r. rewrite foldl_position. cbn [k_position zeroCost]. rewrite dZero_val. ring. }
  split; [apply Hn|]. split; [apply Hn|]. intros m.
  split; [apply (fold_identity ra m (Attributed_positive _ _ Ra))
         |apply (fold_identity rb m (Attributed_positive _ _ Rb))].
Qed.

(** ** Loading *)

Definition notAfter (f g : arbitrageMetricFill D) : Prop := fillLess g f = false.

Lemma string_lt_asym (s t : string) : string_lt s t = true -> string_lt t s = false.
Proof.
  unfold string_lt, String.ltb. rewrite (String.compare_antisym s t).
  by destruct (String.compare t s).
Qed.

Lemma fillLess_asym (f g : arbitrageMetricFill D) : fillLess f g = true -> fillLess g f = false.
Proof.
  unfold fillLess, TimeEqual, TimeBefore. rewrite (Z.eqb_sym (f_at g)).
  destruct (f_at f =? f_at g)%Z eqn:E; [apply string_lt_asym|].
  intros H. bool_to_prop. apply Z.ltb_ge. lia.
Qed.

Lemma notAfter_time (f g : arbitrageMetricFill D) : notAfter f g -> (f_at f <= f_at g)%Z.
Proof.
  unfold notAfter, fillLess, TimeEqual, TimeBefore.
  destruct (f_at g =? f_at f)%Z eqn:E; intros H; bool_to_prop; lia.
Qed.

Lemma insertFill_perm (f : arbitrageMetricFill D) l : Permutation (insertFill f l) (f :: l).
Proof.
  induction l as [|g l IH]; cbn [insertFill]; [done|].
  destruct (fillLess g f); [|done]. rewrite IH. constructor.
Qed.

Lemma sortFills_perm (l : list (arbitrageMetricFill D)) : Permutation (sortFills l) l.
Proof.
  induction l as [|f l IH]; cbn [sortFills foldr]; [done|].
  rewrite insertFill_perm. constructor. exact IH.
Qed.

Lemma insertFill_sorted (f : arbitrageMetricFill D) l :
  Sorted notAfter l -> Sorted notAfter (insertFill f l).
Proof.
  induction 1 as [|g l Hl IH Hd]; cbn [insertFill]; [by repeat constructor|].
  destruct (fillLess g f) eqn:E; [|by repeat constructor].
  constructor; [done|]. apply fillLess_asym in E.
  destruct l as [|h l]; cbn [insertFill]; [by constructor|].
  destruct (fillLess h f); constructor; [by inversion Hd|done].
Qed.

Lemma sortFills_sorted (l : list (arbitrageMetricFill D)) : Sorted notAfter (sortFills l).
Proof. induction l as [|f l IH]; [constructor|]. by apply insertFill_sorted. Qed.

Lemma sorted_times (l : list (arbitrageMetricFill D)) :
  Sorted notAfter l -> StronglySorted (fun f g => (f_at f <= f_at g)%Z) l.
Proof.
  intros H. apply Sorted_StronglySorted; [intros f g h ? ?; lia|].
  induction H as [|f l Hl IH Hd]; constructor; [done|].
  destruct Hd; constructor. by apply notAfter_time.
Qed.

(** In time order the [break] of the replay loses no fill. *)
Lemma processed_sorted (until : GoTime) (l : list (arbitrageMetricFill D)) :
  IsZeroTime until = false -> StronglySorted (fun f g => (f_at f <= f_at g)%Z) l ->
  processed until l = filter (fun f => (f_at f <= until)%Z) l.
Proof.
  intros Hu. induction 1 as [|f l Hl IH Hd]; cbn [processed]; [done|].
  rewrite Hu, filter_cons. cbn [negb andb]. unfold TimeAfter. case_decide as Hc.
  - destruct (Z.ltb_spec until (f_at f)); [lia|]. by rewrite IH.
  - destruct (Z.ltb_spec until (f_at f)); [|lia]. symmetry.
    clear IH. induction Hd as [|g l Hg Hd IHd]; [done|].
    rewrite filter_cons, decide_False by lia. apply IHd. by inversion Hl.
Qed.

(** The fill a row stands for, when it has a price. *)
Definition rowFill (row : replayRow) : option (arbitrageMetricFill D) :=
  match dNewFromString (D := D) (rw_quantityRaw row), dNewFromString (D := D) (rw_priceRaw row) with
  | Some q, Some p =>
      if dIsPositive p then Some (mkFill (rw_id row) (rw_leg row) (rw_side row) q p (rw_at row)) else None
  | _, _ => None
  end.

Definition fillTurnover (l : list (arbitrageMetricFill D)) : Q :=
  foldr (fun f acc => dval (f_quantity f) * dval (f_price f) + acc) 0 l.

Definition wellPriced (f : arbitrageMetricFill D) : Prop := 0 < dval (f_quantity f) /\ 0 < dval (f_price f).

Lemma replayRows_ok (strict : bool) (rows : list (Result replayRow)) : forall replay r,
  replayRows strict replay rows = Ok r ->
  exists rs, rows = map Ok rs /\ rp_fills r = rp_fills replay ++ omap rowFill rs /\
    dval (rp_grossTurnover r) == dval (rp_grossTurnover replay) + fillTurnover (omap rowFill rs) /\
    Forall wellPriced (omap rowFill rs) /\
    rp_coverageComplete r = rp_coverageComplete replay && forallb (fun x => bool_decide (is_Some (rowFill x))) rs /\
    (strict = false -> Forall (fun x => is_Some (rowFill x)) rs).
Proof.
  induction rows as [|[row|e] rows IH]; intros replay r; cbn [replayRows].
  - intros [= <-]. exists []. cbn. rewrite app_nil_r, andb_true_r. repeat split; [lra|constructor..].
  - destruct (dNewFromString (rw_quantityRaw row)) as [q|] eqn:Eq; [|done].
    destruct (dNewFromString (rw_priceRaw row)) as [p|] eqn:Ep; [|done].
    destruct (dIsPositive_reflect q) as [Hq|]; [|done]. cbn [negb].
    assert (Er : rowFill row = if dIsPositive p then Some (mkFill (rw_id row) (rw_leg row) (rw_side row) q p (rw_at row)) else None)
      by (unfold rowFill; by rewrite Eq, Ep).
    destruct (dIsPositive_reflect p) as [Hp|Hp]; cbn [negb].
    + intros H. destruct (IH _ _ H) as (rs & -> & Ef & Et & Hw & Ec & Hs).
      cbn [rp_fills rp_grossTurnover rp_coverageComplete] in *.
      exists (row :: rs). cbn [map omap list_omap forallb]. rewrite Er.
      assert (Forall wellPriced (mkFill (rw_id row) (rw_leg row) (rw_side row) q p (rw_at row) :: omap rowFill rs))
        by (by constructor).
      repeat split; [by rewrite Ef, <- app_assoc| |done| |].
      * rewrite Et, dAdd_val, dMul_val. cbn [fillTurnover foldr f_quantity f_price].
        fold (fillTurnover (omap rowFill rs)). ring.
      * rewrite bool_decide_true by (by eexists). done.
      * intros E. constructor; [by eexists|by apply Hs].
    + destruct strict; [|done]. intros H. destruct (IH _ _ H) as (rs & -> & Ef & Et & Hw & Ec & Hs).
      cbn [rp_fills rp_grossTurnover rp_coverageComplete setter] in *.
      exists (row :: rs). cbn [map omap list_omap forallb]. rewrite Er.
      repeat split; [done|done|done| |done].
      rewrite Ec, bool_decide_false by (by intros [??]). cbn [andb]. by rewrite andb_false_r.
  - done.
Qed.

(** Loading the fills of a combination loses none and orders them.  On
    success the fills are the rows that carry a price, in time order (ties by
    order id), every quantity and price positive; the gross turnover is the
    sum of their notionals; the coverage flag says that no row lacked a price,
    which a non-strict load never accepts; and because of the order the early
    [break] of a later replay up to a time [until] drops only fills after it. *)
Theorem loadArbitrageReplay_complete (query : bool -> Result (rowSet replayRow)) (strict : bool)
    (elapsed : Duration) (r : arbitrageReplay D) :
  loadArbitrageReplay query strict elapsed = Ok r ->
  exists rs, query strict = Ok (mkRows (map Ok rs) None) /\
    Permutation (rp_fills r) (omap rowFill rs) /\
    Sorted notAfter (rp_fills r) /\ Forall wellPriced (rp_fills r) /\
    dval (rp_grossTurnover r) == fillTurnover (omap rowFill rs) /\
    (rp_coverageComplete r = true <-> Forall (fun x => is_Some (rowFill x)) rs) /\
    (strict = false -> rp_coverageComplete r = true) /\
    forall until, IsZeroTime until = false ->
      processed until (rp_fills r) = filter (fun f => (f_at f <= until)%Z) (rp_fills r).
Proof.
  unfold loadArbitrageReplay. destruct (query strict) as [[rows err]|] eqn:Eq; [|done]. cbn [rs_rows rs_err].
  destruct (replayRows strict _ rows) as [r0|] eqn:Er; [|done].
  destruct err; [done|]. intros [= <-].
  destruct (replayRows_ok _ _ _ _ Er) as (rs & -> & Ef & Et & Hw & Ec & Hs).
  cbn [rp_fills rp_grossTurnover rp_coverageComplete setter andb app] in *.
  exists rs. rewrite Ef. pose proof (sortFills_sorted (omap rowFill rs)) as Hsort.
  assert (Hc : rp_coverageComplete r0 = true <-> Forall (fun x => is_Some (rowFill x)) rs).
  { rewrite Ec, forallb_forall, List.Forall_forall. by setoid_rewrite bool_decide_eq_true. }
  split; [done|]. split; [apply sortFills_perm|]. split; [done|].
  split; [|split; [|split; [exact Hc|split]]].
  - by rewrite sortFills_perm.
  - rewrite Et, dZero_val. ring.
  - intros E. apply Hc, Hs, E.
  - intros t Hu. by apply processed_sorted, sorted_times.
Qed.
End MetricsTheorems.

(** ** Witnesses *)

(** Leg A: 2 bought at 10, 1 bought at 13, 2 sold at 12; leg B: 3 sold at 10.
    The account held -1 on leg A beforehand. *)
Definition sampleFills : list (arbitrageMetricFill Dec) :=
  [mkFill "o1" "a" "buy" (mkDec 2 0) (mkDec 10 0) 1;
   mkFill "o2" "b" "sell" (mkDec 3 0) (mkDec 10 0) 2;
   mkFill "o3" "a" "buy" (mkDec 1 0) (mkDec 13 0) 3;
   mkFill "o4" "a" "sell" (mkDec 2 0) (mkDec 12 0) 4].

Lemma sampleFills_positive : Forall positiveFill sampleFills.
Proof. repeat constructor. Defined.

Lemma replay_attributes_own_inventory_witness :
  let '(a, b) := replayArbitrageCosts sampleFills zeroTime (Some (mkDec (-1) 0, mkDec 0 0)) in
  (0 <= dval (k_position a))%Q /\ (dval (k_position b) <= 0)%Q.
Proof.
  pose proof (replay_attributes_own_inventory sampleFills zeroTime (mkDec (-1) 0) (mkDec 0 0)
                sampleFills_positive) as H.
  destruct (replayArbitrageCosts sampleFills zeroTime (Some (mkDec (-1) 0, mkDec 0 0))) as [a b].
  exact (conj (proj1 H) (proj1 (proj2 (proj2 H)))).
Defined.

Lemma replay_keeps_books_witness :
  let '(a, b) := replayArbitrageCosts sampleFills zeroTime (Some (mkDec 0 0, mkDec 0 0)) in
  exists ra rb, Attributed (legFills "a" zeroTime sampleFills) ra /\
    Attributed (legFills "b" zeroTime sampleFills) rb /\ (dval (k_position a) == fillNet ra)%Q.
Proof.
  pose proof (replay_keeps_books sampleFills zeroTime (mkDec 0 0) (mkDec 0 0) sampleFills_positive) as H.
  destruct (replayArbitrageCosts sampleFills zeroTime (Some (mkDec 0 0, mkDec 0 0))) as [a b].
  destruct H as (ra & rb & Ha & Hb & Hp & _).
  exists ra, rb. exact (conj Ha (conj Hb Hp)).
Defined.

(** The sample from flat: 1 left at an average of 11 with 2 realised, and 3
    short at 10. *)
Example sample_costs :
  let '(a, b) := replayArbitrageCosts sampleFills zeroTime (Some (mkDec 0 0, mkDec 0 0)) in
  map dString [k_position a; k_average a; k_realized a; k_position b; k_average b; k_realized b]
  = ["1"; "11"; "2"; "-3"; "10"; "0"].
Proof. vm_compute. reflexivity. Qed.

(** Two rows out of order and one without a price. *)
Definition sampleRows (strict : bool) : Result (rowSet replayRow) :=
  Ok (mkRows [Ok (mkRow "o2" "b" "sell" "3" "10.5" 7); Ok (mkRow "o3" "a" "buy" "1" "0" 8);
              Ok (mkRow "o1" "a" "buy" "2" "10" 5)] None).

Lemma loadArbitrageReplay_complete_witness :
  match loadArbitrageReplay (D := Dec) sampleRows true 12 with
  | Ok r => map f_orderID (rp_fills r) = ["o1"; "o2"] /\ rp_coverageComplete r = false
            /\ Sorted notAfter (rp_fills r)
  | Err _ => False
  end.
Proof.
  pose proof (loadArbitrageReplay_complete (D := Dec) sampleRows true 12) as H.
  destruct (loadArbitrageReplay (D := Dec) sampleRows true 12) as [r|e] eqn:E; [|discriminate E].
  destruct (H r eq_refl) as (rs & _ & _ & Hs & _).
  vm_compute in E. injection E as E. split; [rewrite <- E; reflexivity|].
  split; [rewrite <- E; reflexivity|exact Hs].
Defined.
