(* ===== verification/OneShotExit.v ===== *)
(** * One-shot exit on annualised return (arbitrage_one_shot_exit.go)

    A one-shot combination waits for its exit: each sample values what closing
    now would realise, and the exit is taken when enough of the last samples
    reach the wanted annualised return.  The basis of the samples is what the
    metrics computed last ([oneShotExitBasis]). *)
From Stdlib Require Import ZArith QArith Qround Qabs Qminmax Lqa String.
From stdpp Require Import base strings list gmap.
From S2P Require Import Prelude Decimal DecimalRef Types Quantity ArbMath Metrics.

#[local] Set Warnings "-clear-no-such-hyp".

Definition oneShotExitSampleInterval : Duration := Second.
Definition oneShotExitWindowSize : nat := 30.
Definition oneShotExitMinHits : Z := 18.
Definition oneShotExitBBOStale : Duration := 2 * Second.
Definition oneShotExitBasisMaxAge : Duration := 15 * Minute.

Record oneShotExitBasis (D Float : Type) := mkBasis {
  bs_CombinationID : string;
  bs_Version : Z;
  bs_ExitAnnualizedRate : D;
  bs_OwnedA : D;
  bs_OwnedB : D;
  bs_AvgA : D;
  bs_AvgB : D;
  bs_ComboA : D;
  bs_ComboB : D;
  bs_BaselineA : D;
  bs_BaselineB : D;
  bs_BaselineCapturedAt : GoTime;
  bs_VenueA : D;
  bs_VenueB : D;
  bs_DifferenceA : D;
  bs_DifferenceB : D;
  bs_Realized : D;
  bs_Funding : D;
  bs_IncurredFee : D;
  bs_Exposure : D;
  bs_Holding : D;
  bs_ExposureUpdatedAt : GoTime;
  bs_ThresholdHours : Float;
  bs_CloseFeeRateA : D;
  bs_CloseFeeRateB : D;
  bs_ExecutionMode : string;
  bs_MakerLeg : string;
  bs_LegA : ArbitrageLeg;
  bs_LegB : ArbitrageLeg;
  bs_CalculatedAt : GoTime
}.
Arguments mkBasis {D Float}.
Arguments bs_CombinationID {D Float}.
Arguments bs_Version {D Float}.
Arguments bs_ExitAnnualizedRate {D Float}.
Arguments bs_OwnedA {D Float}.
Arguments bs_OwnedB {D Float}.
Arguments bs_AvgA {D Float}.
Arguments bs_AvgB {D Float}.
Arguments bs_ComboA {D Float}.
Arguments bs_ComboB {D Float}.
Arguments bs_BaselineA {D Float}.
Arguments bs_BaselineB {D Float}.
Arguments bs_BaselineCapturedAt {D Float}.
Arguments bs_VenueA {D Float}.
Arguments bs_VenueB {D Float}.
Arguments bs_DifferenceA {D Float}.
Arguments bs_DifferenceB {D Float}.
Arguments bs_Realized {D Float}.
Arguments bs_Funding {D Float}.
Arguments bs_IncurredFee {D Float}.
Arguments bs_Exposure {D Float}.
Arguments bs_Holding {D Float}.
Arguments bs_ExposureUpdatedAt {D Float}.
Arguments bs_ThresholdHours {D Float}.
Arguments bs_CloseFeeRateA {D Float}.
Arguments bs_CloseFeeRateB {D Float}.
Arguments bs_ExecutionMode {D Float}.
Arguments bs_MakerLeg {D Float}.
Arguments bs_LegA {D Float}.
Arguments bs_LegB {D Float}.
Arguments bs_CalculatedAt {D Float}.

Record oneShotAnnualizedExitGuard (D : Type) := mkGuard {
  g_CombinationID : string;
  g_BasisVersion : Z;
  g_CalculatedAt : GoTime;
  g_ExitAnnualizedRate : D;
  g_ComboA : D;
  g_ComboB : D;
  g_AvgA : D;
  g_AvgB : D;
  g_BaselineA : D;
  g_BaselineB : D;
  g_BaselineCapturedAt : GoTime;
  g_VenueA : D;
  g_VenueB : D;
  g_DifferenceA : D;
  g_DifferenceB : D
}.
Arguments mkGuard {D}.
Arguments g_CombinationID {D}.
Arguments g_BasisVersion {D}.
Arguments g_CalculatedAt {D}.
Arguments g_ExitAnnualizedRate {D}.
Arguments g_ComboA {D}.
Arguments g_ComboB {D}.
Arguments g_AvgA {D}.
Arguments g_AvgB {D}.
Arguments g_BaselineA {D}.
Arguments g_BaselineB {D}.
Arguments g_BaselineCapturedAt {D}.
Arguments g_VenueA {D}.
Arguments g_VenueB {D}.
Arguments g_DifferenceA {D}.
Arguments g_DifferenceB {D}.

Record oneShotExitState (D Float : Type) := mkExitState {
  es_basis : oneShotExitBasis D Float;
  es_hits : list bool;
  es_lastSample : GoTime;
  es_stale : bool
}.
Arguments mkExitState {D Float}.
Arguments es_basis {D Float}.
Arguments es_hits {D Float}.
Arguments es_lastSample {D Float}.
Arguments es_stale {D Float}.
#[export] Instance eta_oneShotExitState D Float : Eta (oneShotExitState D Float) := fun s =>
  mkExitState (es_basis s) (es_hits s) (es_lastSample s) (es_stale s).

Record oneShotExitQuote (D : Type) := mkExitQuote {
  q_BidA : D;
  q_AskA : D;
  q_BidB : D;
  q_AskB : D;
  q_ReceivedA : GoTime;
  q_ReceivedB : GoTime
}.
Arguments mkExitQuote {D}.
Arguments q_BidA {D}.
Arguments q_AskA {D}.
Arguments q_BidB {D}.
Arguments q_AskB {D}.
Arguments q_ReceivedA {D}.
Arguments q_ReceivedB {D}.

Record oneShotExitSampleResult := mkSample { sr_hit : bool; sr_fault : bool }.

Record arbitrageMetricsQuotes := mkQuotes {
  mq_MidA : string;
  mq_MidB : string;
  mq_BidA : string;
  mq_AskA : string;
  mq_BidB : string;
  mq_AskB : string;
  mq_ReceivedA : GoTime;
  mq_ReceivedB : GoTime
}.

Definition annualizedExitClock (value : GoTime) : GoTime :=
  if IsZeroTime value || TimeEqual value unixEpoch then unixEpoch else value.

Definition oneShotPeriodicMetricsEligible (item : ArbitrageCombination) : bool :=
  if negb (EqualFold (TrimSpace (c_Status item)) "running") then false
  else if negb (EqualFold (TrimSpace (c_RunMode item)) "one_shot") then true
  else (c_OneShotPhase item =?s "building_target") || (c_OneShotPhase item =?s "waiting_exit").

Definition oneShotAnnualizedWaitingExit (item : ArbitrageCombination) : bool :=
  EqualFold (TrimSpace (c_Status item)) "running" &&
  EqualFold (TrimSpace (c_RunMode item)) "one_shot" &&
  ((c_OneShotPhase item =?s "building_target") || (c_OneShotPhase item =?s "waiting_exit")) &&
  negb (TrimSpace (c_ExitAnnualizedRate item) =?s "") &&
  negb (c_PositionUncertain item) &&
  negb (EqualFold (TrimSpace (c_RuntimeState item)) "manual_intervention").

Definition quoteStale (received now : GoTime) : bool :=
  IsZeroTime received || (oneShotExitBBOStale <? TimeSub now received).

Definition metricsQuotesFromMids (midA midB : string) (now : GoTime) : arbitrageMetricsQuotes :=
  mkQuotes midA midB midA midA midB midB now now.

Definition closeFeeRole (executionMode makerLeg thisLeg : string) : string :=
  if EqualFold (TrimSpace executionMode) "simultaneous_market" then "taker"
  else if EqualFold (TrimSpace thisLeg) (TrimSpace makerLeg) then "maker"
  else "taker".

(** The slice is copied, extended and cut to the last 30 entries. *)
Definition appendExitHit (hits : list bool) (hit : bool) : list bool :=
  let hits := hits ++ [hit] in
  if Nat.ltb oneShotExitWindowSize (length hits)
  then drop (length hits - oneShotExitWindowSize) hits else hits.

Definition countHits (hits : list bool) : Z := foldl (fun n hit => if hit : bool then n + 1 else n) 0 hits.

Definition oneShotExitWindowReady (hits : list bool) : bool :=
  if Nat.ltb (length hits) oneShotExitWindowSize then false
  else (oneShotExitMinHits <=? countHits hits) && default false (hits !! (length hits - 1)%nat).

Section OneShotExit.
Context {D : Type} `{!Decimal D}.
Context {Float : Type} (seconds : Duration -> D) (hoursSeconds : Float -> D).
Local Open Scope dec_scope.

Definition annualizedExitGuard (basis : oneShotExitBasis D Float) : oneShotAnnualizedExitGuard D :=
  mkGuard (bs_CombinationID basis) (bs_Version basis) (annualizedExitClock (bs_CalculatedAt basis))
    (bs_ExitAnnualizedRate basis) (bs_ComboA basis) (bs_ComboB basis) (bs_AvgA basis) (bs_AvgB basis)
    (bs_BaselineA basis) (bs_BaselineB basis) (annualizedExitClock (bs_BaselineCapturedAt basis))
    (bs_VenueA basis) (bs_VenueB basis) (bs_DifferenceA basis) (bs_DifferenceB basis).

(** [arbitrageMetricsQuotes.fresh]. *)
Definition fresh (q : arbitrageMetricsQuotes) (now : GoTime) : bool :=
  if quoteStale (mq_ReceivedA q) now || quoteStale (mq_ReceivedB q) now then false
  else
    match dNewFromString (D := D) (mq_BidA q), dNewFromString (D := D) (mq_AskA q),
          dNewFromString (D := D) (mq_BidB q), dNewFromString (D := D) (mq_AskB q) with
    | Some bidA, Some askA, Some bidB, Some askB =>
        dIsPositive bidA && dIsPositive askA && dIsPositive bidB && dIsPositive askB
    | _, _, _, _ => false
    end.

Definition executableClosePrice (qty bid ask : D) : option D :=
  if dIsZero qty then Some dZero
  else if dIsPositive qty then (if negb (dIsPositive bid) then None else Some bid)
  else if negb (dIsPositive ask) then None
  else Some ask.

Definition closeFeeCostRate (leg : ArbitrageLeg) (executionMode makerLeg thisLeg : string)
    (accounts : gmap Z accountFeeSnapshot) : option D :=
  match accounts !! l_TradingAccountID leg with
  | None => None
  | Some snapshot =>
      match accountFeeRate (D := D) snapshot (closeFeeRole executionMode makerLeg thisLeg) (l_ContractType leg) with
      | None => None
      | Some stored => Some (tradingFeeCostRate (l_Exchange leg) stored)
      end
  end.

(** The closure [addLeg]: the profit and the fee so far, extended by a leg. *)
Definition addLeg (accounts : gmap Z accountFeeSnapshot) (combo : ArbitrageCombination)
    (acc : D * D) (cost : arbitrageLegCost D) (bid ask : D) (thisLeg : string) (leg : ArbitrageLeg)
    : option (D * D) :=
  let '(pnl, fee) := acc in
  if dIsZero (k_position cost) then Some (pnl, fee)
  else if negb (dIsPositive (k_average cost)) then None
  else match executableClosePrice (k_position cost) bid ask with
       | None => None
       | Some px =>
           if negb (dIsPositive px) then None
           else match closeFeeCostRate leg (c_ExecutionMode combo) (c_MakerLeg combo) thisLeg accounts with
                | None => None
                | Some rate => Some (pnl + k_position cost * (px - k_average cost),
                                     fee + dAbs (k_position cost) * px * rate)
                end
       end.

Definition executableInventoryClosePnL (legA legB : arbitrageLegCost D) (quotes : arbitrageMetricsQuotes)
    (accounts : gmap Z accountFeeSnapshot) (combo : ArbitrageCombination) : option (D * D) :=
  match dNewFromString (D := D) (mq_BidA quotes), dNewFromString (D := D) (mq_AskA quotes),
        dNewFromString (D := D) (mq_BidB quotes), dNewFromString (D := D) (mq_AskB quotes) with
  | Some bidA, Some askA, Some bidB, Some askB =>
      match addLeg accounts combo (dZero, dZero) legA bidA askA "a" (c_LegA combo) with
      | None => None
      | Some acc => addLeg accounts combo acc legB bidB askB "b" (c_LegB combo)
      end
  | _, _, _, _ => None
  end.

(** The combination [oneShotExitQuantities] builds from the basis. *)
Definition basisCombination (basis : oneShotExitBasis D Float) : ArbitrageCombination :=
  zero_ArbitrageCombination
    <| c_LegABasePosition := dString (bs_ComboA basis) |>
    <| c_LegBBasePosition := dString (bs_ComboB basis) |>
    <| c_LegAVenueBaselineBasePosition := dString (bs_BaselineA basis) |>
    <| c_LegBVenueBaselineBasePosition := dString (bs_BaselineB basis) |>
    <| c_VenueBaselineCapturedAt := bs_BaselineCapturedAt basis |>.

Definition dMin3 (a b c : D) : D := dMin (dMin a b) c.

(** Quantities to close on each leg when they exist, then [ownedQ] and [venueQ]. *)
Definition oneShotExitQuantities (basis : oneShotExitBasis D Float) : option (D * D) * D * D :=
  let combo := basisCombination basis in
  let venueQ := arbitrageCloseableBase combo in
  let ownedQ := ownedPairedQuantity (bs_OwnedA basis) (bs_OwnedB basis) in
  let comboOwnedQ := ownedPairedQuantity (bs_ComboA basis) (bs_ComboB basis) in
  let fail := (None, ownedQ, venueQ) in
  match arbitragePairedCloseDirection (bs_OwnedA basis) (bs_OwnedB basis),
        arbitragePairedCloseDirection (bs_ComboA basis) (bs_ComboB basis),
        arbitrageVenueReduceDirection (D := D) combo with
  | Some costDirection, Some comboDirection, Some venueDirection =>
      if negb (dIsPositive ownedQ) || negb (dIsPositive comboOwnedQ) || negb (dIsPositive venueQ)
         || negb (costDirection =?s comboDirection) || negb (comboDirection =?s venueDirection)
      then fail
      else
        let q := dMin3 ownedQ comboOwnedQ venueQ in
        if comboDirection =?s "bid" then (Some (q, dNeg q), ownedQ, venueQ)
        else if comboDirection =?s "ask" then (Some (dNeg q, q), ownedQ, venueQ)
        else fail
  | _, _, _ => fail
  end.

(** [wall] is [time.Now()], used when no instant is given. *)
Definition evaluateOneShotExitSample (wall : GoTime) (basis : oneShotExitBasis D Float)
    (quote : oneShotExitQuote D) (now : GoTime) : oneShotExitSampleResult :=
  let now := if IsZeroTime now then wall else now in
  let fault := mkSample false true in
  if quoteStale (q_ReceivedA quote) now || quoteStale (q_ReceivedB quote) now then fault
  else
    match fst (fst (oneShotExitQuantities basis)) with
    | None => fault
    | Some (qtyA, qtyB) =>
        if negb (dIsPositive (bs_AvgA basis)) || negb (dIsPositive (bs_AvgB basis)) then fault
        else
          match executableClosePrice qtyA (q_BidA quote) (q_AskA quote),
                executableClosePrice qtyB (q_BidB quote) (q_AskB quote) with
          | Some pxA, Some pxB =>
              if negb (dIsPositive pxA) || negb (dIsPositive pxB) then fault
              else
                let elapsed :=
                  if negb (IsZeroTime (bs_ExposureUpdatedAt basis))
                     && TimeAfter now (bs_ExposureUpdatedAt basis)
                  then seconds (TimeSub now (bs_ExposureUpdatedAt basis)) else dZero in
                let q := dAbs qtyA in
                let currentPairedNotional := q * (bs_AvgA basis + bs_AvgB basis) / dNewFromInt 2 in
                let holding := bs_Holding basis + elapsed in
                let exposure := bs_Exposure basis + currentPairedNotional * elapsed in
                let closePnl := qtyA * (pxA - bs_AvgA basis) + qtyB * (pxB - bs_AvgB basis) in
                let closeFee := dAbs qtyA * pxA * bs_CloseFeeRateA basis
                                + dAbs qtyB * pxB * bs_CloseFeeRateB basis in
                let exitProfit := bs_Realized basis + bs_Funding basis - bs_IncurredFee basis
                                  + closePnl - closeFee in
                match calculateCombinedAnnualized hoursSeconds exitProfit exposure holding
                        (bs_ThresholdHours basis) with
                | None => fault
                | Some annualized =>
                    mkSample ((annualized >=? bs_ExitAnnualizedRate basis)
                              && dIsPositive (bs_ExitAnnualizedRate basis)) false
                end
          | _, _ => fault
          end
    end.

Definition oneShotExitQuoteFromBBO (bboA bboB : BBO) (now : GoTime) : option (oneShotExitQuote D) :=
  match dNewFromString (D := D) (b_BidPrice bboA), dNewFromString (D := D) (b_AskPrice bboA),
        dNewFromString (D := D) (b_BidPrice bboB), dNewFromString (D := D) (b_AskPrice bboB) with
  | Some bidA, Some askA, Some bidB, Some askB =>
      if negb (dIsPositive bidA) || negb (dIsPositive askA) || negb (dIsPositive bidB)
         || negb (dIsPositive askB) then None
      else if quoteStale (b_ReceiveTimestamp bboA) now || quoteStale (b_ReceiveTimestamp bboB) now then None
      else Some (mkExitQuote bidA askA bidB askB (b_ReceiveTimestamp bboA) (b_ReceiveTimestamp bboB))
  | _, _, _, _ => None
  end.

Definition buildOneShotExitBasis (updated : ArbitrageCombination) (ownedA ownedB : arbitrageLegCost D)
    (realized funding incurredFee exposure holding : D) (thresholdHours : Float)
    (accounts : gmap Z accountFeeSnapshot) (now : GoTime) : option (oneShotExitBasis D Float) :=
  if negb (oneShotAnnualizedWaitingExit updated) then None
  else
    let exitRate := parseDecimal (c_ExitAnnualizedRate updated) in
    if negb (dIsPositive exitRate) || negb (dIsPositive (k_average ownedA))
       || negb (dIsPositive (k_average ownedB)) then None
    else
      match closeFeeCostRate (c_LegA updated) (c_ExecutionMode updated) (c_MakerLeg updated) "a" accounts,
            closeFeeCostRate (c_LegB updated) (c_ExecutionMode updated) (c_MakerLeg updated) "b" accounts with
      | Some rateA, Some rateB =>
          Some (mkBasis (c_ID updated) (c_Version updated) exitRate
                  (k_position ownedA) (k_position ownedB) (k_average ownedA) (k_average ownedB)
                  (parseDecimal (c_LegABasePosition updated)) (parseDecimal (c_LegBBasePosition updated))
                  (parseDecimal (c_LegAVenueBaselineBasePosition updated))
                  (parseDecimal (c_LegBVenueBaselineBasePosition updated))
                  (c_VenueBaselineCapturedAt updated)
                  (parseDecimal (c_LegAVenueBasePosition updated))
                  (parseDecimal (c_LegBVenueBasePosition updated))
                  (parseDecimal (c_LegAPositionDifference updated))
                  (parseDecimal (c_LegBPositionDifference updated))
                  realized funding incurredFee exposure holding now thresholdHours rateA rateB
                  (c_ExecutionMode updated) (c_MakerLeg updated) (c_LegA updated) (c_LegB updated)
                  (c_MetricsCalculatedAt updated))
      | _, _ => None
      end.
End OneShotExit.

(** ** What an exit closes, and when it pays *)

Section OneShotExitFacts.
Context {D : Type} `{!Decimal D} `{!DecimalLaws D}.
Context {Float : Type} (seconds : Duration -> D) (hoursSeconds : Float -> D).
Local Open Scope Q_scope.

Lemma pairedCloseDirection_cases (a b : D) (d : string) :
  arbitragePairedCloseDirection a b = Some d ->
  (d = "bid"%string /\ 0 < dval a /\ dval b < 0 \/ d = "ask"%string /\ dval a < 0 /\ 0 < dval b) /\
  dval (ownedPairedQuantity a b) == Qmin (Qabs (dval a)) (Qabs (dval b)).
Proof.
  unfold arbitragePairedCloseDirection, ownedPairedQuantity. intros H.
  assert (Hd : d = "bid"%string /\ 0 < dval a /\ dval b < 0 \/ d = "ask"%string /\ dval a < 0 /\ 0 < dval b).
  { destruct (dIsPositive_reflect a), (dIsNegative_reflect b), (dIsNegative_reflect a),
      (dIsPositive_reflect b); cbn in H; try done; injection H as <-; auto; lra. }
  split; [done|].
  destruct (dIsZero_reflect a), (dIsZero_reflect b); cbn [orb]; try (exfalso; lra).
  destruct Hd as [(_ & Ha & Hb)|(_ & Ha & Hb)].
  - rewrite (dSign_pos a Ha), (dSign_neg b Hb). cbn. dec_val. reflexivity.
  - rewrite (dSign_neg a Ha), (dSign_pos b Hb). cbn. dec_val. reflexivity.
Qed.

(** [closes q p]: trading [-q] takes the position [p] towards zero and not past it. *)
Definition closes (q p : Q) : Prop := 0 < q * p /\ Qabs q <= Qabs p.

Lemma closes_min (q a b p : Q) :
  0 < q -> q <= Qmin (Qabs a) (Qabs b) -> (0 < a -> p == q) -> (a < 0 -> p == - q) -> ~ a == 0 -> closes p a.
Proof.
  intros Hq Hm Hp Hn Hz. apply Q.min_glb_iff in Hm as [Hm _]. unfold closes.
  destruct (Qlt_le_dec 0 a) as [Ha|Ha].
  - rewrite (Hp Ha), (Qabs_pos q), (Qabs_pos a) in * by lra. split; [nra|done].
  - assert (Ha' : a < 0) by lra. rewrite (Hn Ha'), Qabs_opp, (Qabs_pos q), (Qabs_neg a) in * by lra.
    split; [nra|done].
Qed.

(** The venue position of each leg that the basis describes. *)
Definition basisVenue (basis : oneShotExitBasis D Float) : Q * Q :=
  let base (x : D) := if timeSet (bs_BaselineCapturedAt basis) then dval x else 0 in
  (base (bs_BaselineA basis) + dval (bs_ComboA basis), base (bs_BaselineB basis) + dval (bs_ComboB basis)).

Lemma basisVenue_val (basis : oneShotExitBasis D Float) :
  let '(a, b) := venuePosition (D := D) (basisCombination basis) in
  a == (basisVenue basis).1 /\ b == (basisVenue basis).2.
Proof.
  unfold venuePosition, venueBaselines, basisVenue.
  change (c_VenueBaselineCapturedAt (basisCombination basis)) with (bs_BaselineCapturedAt basis).
  change (c_LegAVenueBaselineBasePosition (basisCombination basis)) with (dString (bs_BaselineA basis)).
  change (c_LegBVenueBaselineBasePosition (basisCombination basis)) with (dString (bs_BaselineB basis)).
  change (c_LegABasePosition (basisCombination basis)) with (dString (bs_ComboA basis)).
  change (c_LegBBasePosition (basisCombination basis)) with (dString (bs_ComboB basis)).
  destruct (timeSet (bs_BaselineCapturedAt basis)); cbn [fst snd];
    rewrite !parseDecimal_String; split; try reflexivity; by rewrite dZero_val.
Qed.

Lemma closes_Qeq (q p p' : Q) : p == p' -> closes q p -> closes q p'.
Proof. intros E. unfold closes. by rewrite E. Qed.

Record exitCloses (basis : oneShotExitBasis D Float) (qa qb : D) : Prop := {
  ec_opposite : dval qb == - dval qa;
  ec_owned : closes (dval qa) (dval (bs_OwnedA basis)) /\ closes (dval qb) (dval (bs_OwnedB basis));
  ec_combo : closes (dval qa) (dval (bs_ComboA basis)) /\ closes (dval qb) (dval (bs_ComboB basis));
  ec_venue : closes (dval qa) (basisVenue basis).1 /\ closes (dval qb) (basisVenue basis).2
}.

(** A quantity [q] under the smaller side of an opposite pair, signed by the
    direction, closes both. *)
Lemma closes_pair (d : string) (a b q : Q) (qa qb : D) :
  (d = "bid"%string /\ 0 < a /\ b < 0 \/ d = "ask"%string /\ a < 0 /\ 0 < b) ->
  0 < q -> q <= Qmin (Qabs a) (Qabs b) ->
  (d = "bid"%string -> dval qa == q /\ dval qb == - q) ->
  (d = "ask"%string -> dval qa == - q /\ dval qb == q) ->
  closes (dval qa) a /\ closes (dval qb) b.
Proof.
  intros Hd Hq Hm Hbid Hask. pose proof Hm as Hm'. rewrite Q.min_comm in Hm'.
  destruct Hd as [(Ed & Ha & Hb)|(Ed & Ha & Hb)];
    [destruct (Hbid Ed) as [E1 E2]|destruct (Hask Ed) as [E1 E2]];
    (split; [apply (closes_min q a b); try done; intros; lra
            |apply (closes_min q b a); try done; intros; lra]).
Qed.

Lemma oneShotExitQuantities_closes (basis : oneShotExitBasis D Float) (qa qb : D) :
  (oneShotExitQuantities basis).1.1 = Some (qa, qb) -> exitCloses basis qa qb.
Proof.
  unfold oneShotExitQuantities.
  destruct (arbitragePairedCloseDirection (bs_OwnedA basis) (bs_OwnedB basis)) as [d1|] eqn:E1; [|done].
  destruct (arbitragePairedCloseDirection (bs_ComboA basis) (bs_ComboB basis)) as [d2|] eqn:E2; [|done].
  destruct (arbitrageVenueReduceDirection (basisCombination basis)) as [d3|] eqn:E3; [|done].
  destruct (pairedCloseDirection_cases _ _ _ E1) as [H1 Q1].
  destruct (pairedCloseDirection_cases _ _ _ E2) as [H2 Q2].
  pose proof (basisVenue_val basis) as Hv.
  destruct (venuePosition (basisCombination basis)) as [va vb] eqn:Ev. destruct Hv as [Va Vb].
  pose proof (venuePosition_cases _ _ _ Ev) as H3. rewrite E3 in H3. destruct H3 as [H3 Q3].
  set (o := ownedPairedQuantity (bs_OwnedA basis) (bs_OwnedB basis)) in *.
  set (c := ownedPairedQuantity (bs_ComboA basis) (bs_ComboB basis)) in *.
  set (v := arbitrageCloseableBase (basisCombination basis)) in *.
  destruct (dIsPositive_reflect o) as [P1|], (dIsPositive_reflect c) as [P2|],
    (dIsPositive_reflect v) as [P3|]; cbn [negb orb]; try done.
  destruct (String.eqb_spec d1 d2) as [->|]; cbn [negb orb]; [|done].
  destruct (String.eqb_spec d2 d3) as [->|]; cbn [negb]; [|done].
  assert (Hq : dval (dMin3 o c v) <= dval o /\ dval (dMin3 o c v) <= dval c /\
               dval (dMin3 o c v) <= dval v /\ 0 < dval (dMin3 o c v)).
  { unfold dMin3. dec_val. repeat qminmax1; lra. }
  set (q := dMin3 o c v) in *. destruct Hq as (L1 & L2 & L3 & Hq). rewrite Q1 in L1. rewrite Q2 in L2. rewrite Q3 in L3.
  intros H.
  assert (Hs : (d3 = "bid"%string -> dval qa == dval q /\ dval qb == - dval q) /\
               (d3 = "ask"%string -> dval qa == - dval q /\ dval qb == dval q)).
  { split; intros ->; cbn in H; injection H as <- <-; by rewrite ?dNeg_val. }
  destruct Hs as [S1 S2].
  pose proof (closes_pair _ _ _ _ _ _ H3 Hq L3 S1 S2) as [V1 V2].
  split; [|by eapply closes_pair..|split; [by eapply closes_Qeq|by eapply closes_Qeq]].
  destruct H1 as [(E & _)|(E & _)]; [destruct (S1 E)|destruct (S2 E)]; lra.
Qed.

Lemma calculateCombinedAnnualized_positive (profit exposure holding r : D) (h : Float) :
  calculateCombinedAnnualized hoursSeconds profit exposure holding h = Some r ->
  0 < dval r -> 0 < dval profit.
Proof.
  unfold calculateCombinedAnnualized.
  destruct (negb (dIsPositive holding) || negb (dIsPositive exposure)); [done|].
  set (den := dMul _ _). destruct (dIsPositive_reflect den) as [Hd|]; [|done]. cbn [negb]. intros [= <-] Hr.
  destruct (Qlt_le_dec 0 (dval profit)) as [|Hp]; [done|]. exfalso.
  rewrite dDiv_val in Hr by lra.
  assert (qround DivisionPrecision (dval (dMul profit (dNewFromInt annualSeconds)) / dval den) <= 0); [|lra].
  apply qround_nonpos. dec_val. change (inject_Z annualSeconds) with (31536000 # 1).
  apply Qle_shift_div_r; [done|]. lra.
Qed.

Lemma executableClosePrice_some (q bid ask px : D) :
  executableClosePrice q bid ask = Some px -> ~ dval q == 0 ->
  0 < dval px /\ px = if dIsPositive q then bid else ask.
Proof.
  unfold executableClosePrice. intros H Hq.
  destruct (dIsZero_reflect q); [done|]. destruct (dIsPositive q);
    [destruct (dIsPositive_reflect bid)|destruct (dIsPositive_reflect ask)]; cbn in H; try done;
    injection H as <-; done.
Qed.

(** C32: A sample is a hit only when closing now is sound and pays: the quotes
    are fresh, the quantities closed are opposite on the two legs and close
    towards zero, never past it, what the cost basis owns, what the
    combination records and what the venue holds; each leg is valued at the
    price it can be closed at (the bid for a long leg, the ask for a short
    one); and realised profit, funding and incurred fees together with the
    closing profit and fees are strictly positive. *)
Theorem exit_hit_closes_with_profit (wall now : GoTime) (basis : oneShotExitBasis D Float)
    (quote : oneShotExitQuote D) :
  sr_hit (evaluateOneShotExitSample seconds hoursSeconds wall basis quote now) = true ->
  let at_ := if IsZeroTime now then wall else now in
  quoteStale (q_ReceivedA quote) at_ = false /\ quoteStale (q_ReceivedB quote) at_ = false /\
  exists qa qb,
    exitCloses basis qa qb /\
    let pxA := if dIsPositive qa then q_BidA quote else q_AskA quote in
    let pxB := if dIsPositive qb then q_BidB quote else q_AskB quote in
    0 < dval pxA /\ 0 < dval pxB /\ 0 < dval (bs_ExitAnnualizedRate basis) /\
    0 < dval (bs_Realized basis) + dval (bs_Funding basis) - dval (bs_IncurredFee basis)
        + (dval qa * (dval pxA - dval (bs_AvgA basis)) + dval qb * (dval pxB - dval (bs_AvgB basis)))
        - (Qabs (dval qa) * dval pxA * dval (bs_CloseFeeRateA basis)
           + Qabs (dval qb) * dval pxB * dval (bs_CloseFeeRateB basis)).
Proof.
  intros H at_. unfold evaluateOneShotExitSample in H. fold at_ in H.
  destruct (quoteStale (q_ReceivedA quote) at_); [done|].
  destruct (quoteStale (q_ReceivedB quote) at_); [done|]. cbn [orb] in H.
  destruct (oneShotExitQuantities basis).1.1 as [[qa qb]|] eqn:Eq; [|done].
  pose proof (oneShotExitQuantities_closes _ _ _ Eq) as Hc.
  destruct (negb (dIsPositive (bs_AvgA basis)) || negb (dIsPositive (bs_AvgB basis))); [done|].
  destruct (executableClosePrice qa _ _) as [pxA|] eqn:Ea; [|done].
  destruct (executableClosePrice qb _ _) as [pxB|] eqn:Eb; [|done].
  destruct (negb (dIsPositive pxA) || negb (dIsPositive pxB)); [done|].
  destruct (calculateCombinedAnnualized _ _ _ _ _) as [r|] eqn:Er; [|done].
  cbn [sr_hit] in H. apply andb_true_iff in H as [Hr Hp].
  apply dGreaterThanOrEqual_val in Hr. apply dIsPositive_val in Hp.
  assert (Hr' : 0 < dval r) by lra.
  pose proof (calculateCombinedAnnualized_positive _ _ _ _ _ Er Hr') as Hprofit.
  assert (Na : ~ dval qa == 0 /\ ~ dval qb == 0).
  { destruct Hc as [Ho [[Hw _] _] _ _]. split; intros E; [|rewrite Ho in E; assert (dval qa == 0) as E' by lra];
      rewrite ?E' in Hw; rewrite ?E in Hw; lra. }
  destruct Na as [Na Nb].
  destruct (executableClosePrice_some _ _ _ _ Ea Na) as [Pa ->].
  destruct (executableClosePrice_some _ _ _ _ Eb Nb) as [Pb ->].
  split; [done|]. split; [done|]. exists qa, qb. split; [done|]. cbv zeta.
  split; [done|]. split; [done|]. split; [done|].
  rewrite dSub_val, dAdd_val, dSub_val, !dAdd_val, !dMul_val, !dSub_val, !dAbs_val in Hprofit.
  exact Hprofit.
Qed.
End OneShotExitFacts.

(** ** The window of samples *)

Lemma appendExitHit_window (samples : list bool) : forall hits,
  (length hits <= oneShotExitWindowSize)%nat ->
  foldl appendExitHit hits samples
  = drop (length (hits ++ samples) - oneShotExitWindowSize) (hits ++ samples).
Proof.
  induction samples as [|b samples IH]; intros hits Hl; cbn [foldl].
  { rewrite app_nil_r. replace (length hits - oneShotExitWindowSize)%nat with 0%nat by lia. done. }
  unfold appendExitHit at 2. cbv zeta.
  destruct (Nat.ltb_spec oneShotExitWindowSize (length (hits ++ [b]))) as [Hlt|Hge].
  - rewrite IH by (rewrite length_drop; lia).
    replace (hits ++ b :: samples) with ((hits ++ [b]) ++ samples) by (by rewrite <- app_assoc).
    set (l := hits ++ [b]) in *. set (k := (length l - oneShotExitWindowSize)%nat).
    rewrite !length_app, length_drop.
    rewrite <- (drop_app_le l samples k) by (unfold k; lia). rewrite drop_drop. f_equal. unfold k. lia.
  - rewrite IH by done. by rewrite <- !app_assoc.
Qed.

Lemma countHits_acc (l : list bool) : forall n,
  foldl (fun n hit => if hit : bool then n + 1 else n) n l = n + Z.of_nat (length (filter (eq true) l)).
Proof.
  induction l as [|b l IH]; intros n; cbn [foldl]; [cbn; lia|].
  rewrite IH. destruct b; rewrite filter_cons; [rewrite decide_True by done|rewrite decide_False by done];
    cbn [length]; lia.
Qed.

(** The exit is ready exactly when there are thirty samples, at least eighteen
    of the last thirty are hits, and so is the last. *)
Lemma oneShotExitWindowReady_iff (hits : list bool) :
  oneShotExitWindowReady hits = true <->
  (oneShotExitWindowSize <= length hits)%nat /\ last hits = Some true /\
  oneShotExitMinHits <= Z.of_nat (length (filter (eq true) hits)).
Proof.
  unfold oneShotExitWindowReady, countHits. rewrite countHits_acc, Z.add_0_l.
  destruct (Nat.ltb_spec (length hits) oneShotExitWindowSize) as [Hlt|Hge]; [split; [done|lia]|].
  rewrite last_lookup. replace (pred (length hits)) with (length hits - 1)%nat by lia.
  rewrite andb_true_iff, Z.leb_le. destruct (hits !! (length hits - 1)%nat) as [[]|];
    cbn [from_option id]; intuition congruence.
Qed.

(** ** Witness *)

(** Two units bought on leg A at 100 and sold on leg B at 101, held for an
    hour; leg A is now bid at 110. *)
Definition sampleBasis : oneShotExitBasis Dec Z :=
  mkBasis "c1" 3 (mkDec 1 (-1)) (mkDec 2 0) (mkDec (-2) 0) (mkDec 100 0) (mkDec 101 0)
    (mkDec 2 0) (mkDec (-2) 0) (mkDec 0 0) (mkDec 0 0) zeroTime (mkDec 2 0) (mkDec (-2) 0)
    (mkDec 0 0) (mkDec 0 0) (mkDec 0 0) (mkDec 1 0) (mkDec 1 (-1)) (mkDec 720000 0) (mkDec 3600 0)
    (100 * Second) 8 (mkDec 5 (-4)) (mkDec 5 (-4)) "maker_taker" "a" zero_ArbitrageLeg zero_ArbitrageLeg
    (100 * Second).

Definition sampleQuote : oneShotExitQuote Dec :=
  mkExitQuote (mkDec 110 0) (mkDec 111 0) (mkDec 100 0) (mkDec 101 0) (109 * Second) (110 * Second).

Definition sampleSeconds (d : Duration) : Dec := mkDec d (-9).
Definition sampleHours (h : Z) : Dec := mkDec (h * 3600) 0.

Lemma exit_hit_closes_with_profit_witness :
  quoteStale (q_ReceivedA sampleQuote) (110 * Second) = false /\
  exists qa qb, exitCloses sampleBasis qa qb.
Proof.
  pose proof (exit_hit_closes_with_profit sampleSeconds sampleHours zeroTime (110 * Second)
                sampleBasis sampleQuote) as H.
  specialize (H ltac:(vm_compute; reflexivity)). cbv zeta in H.
  destruct H as (H1 & _ & qa & qb & H2 & _).
  split; [exact H1|]. exists qa, qb. exact H2.
Defined.
