(* ===== verification/MetricsWorker.v ===== *)
(** * The metrics worker (arbitrage_position_metrics_worker.go)

    The worker keeps the combinations whose metrics are refreshed, when each
    is due, which refreshes are in flight and the exit samples of one-shot
    combinations, all behind one mutex.  Each operation below is one critical
    section; [WorkerEvent] lists them, and a run of the worker is any sequence
    of events, which is what the goroutines that share it can produce.

    Between its critical sections [sampleExit] works on a snapshot of the exit
    state taken earlier, so the sampling event carries an arbitrary snapshot. *)
From Stdlib Require Import ZArith QArith Qround Qabs Qminmax Lqa String.
From stdpp Require Import base strings list gmap.
From S2P Require Import Prelude Decimal DecimalRef Types Quantity ArbMath Metrics OneShotExit.

#[local] Set Warnings "-clear-no-such-hyp".

Definition arbitragePositionMetricsInterval : Duration := 10 * Minute.
Definition metricsApplyRetryDelay : Duration := 15 * Second.

Record metricsMember := mkMember {
  mm_combo : ArbitrageCombination;
  mm_nextDueAt : GoTime;
  mm_pinned : bool
}.
#[export] Instance eta_metricsMember : Eta metricsMember := fun m =>
  mkMember (mm_combo m) (mm_nextDueAt m) (mm_pinned m).

Record ArbitragePositionMetricsWorker (D Float : Type) := mkWorker {
  w_members : gmap string metricsMember;
  w_lastPersist : gmap string GoTime;
  w_inFlight : gset string;
  w_exitState : gmap string (oneShotExitState D Float)
}.
Arguments mkWorker {D Float}.
Arguments w_members {D Float}.
Arguments w_lastPersist {D Float}.
Arguments w_inFlight {D Float}.
Arguments w_exitState {D Float}.
#[export] Instance eta_Worker D Float : Eta (ArbitragePositionMetricsWorker D Float) := fun w =>
  mkWorker (w_members w) (w_lastPersist w) (w_inFlight w) (w_exitState w).

(** [pr_Reason] is [None] for the empty reason. *)
Record arbitragePositionMetricsPersistResult (D Float : Type) := mkPersistResult {
  pr_Combination : ArbitrageCombination;
  pr_Applied : bool;
  pr_Reason : option MetricsApplyReason;
  pr_ExitBasis : option (oneShotExitBasis D Float)
}.
Arguments mkPersistResult {D Float}.
Arguments pr_Combination {D Float}.
Arguments pr_Applied {D Float}.
Arguments pr_Reason {D Float}.
Arguments pr_ExitBasis {D Float}.

(** ** Phases: a combination is refreshed every ten minutes from its creation *)

Definition lastMetricsPhaseAtOrBefore (createdAt now : GoTime) : GoTime :=
  if IsZeroTime createdAt then now
  else if TimeBefore now (TimeAdd createdAt arbitragePositionMetricsInterval) then createdAt
  else
    let n := Z.quot (TimeSub now createdAt) arbitragePositionMetricsInterval in
    TimeAdd createdAt (wrap64 (n * arbitragePositionMetricsInterval)).

Definition nextMetricsPhaseAfter (createdAt now : GoTime) : GoTime :=
  let createdAt := if IsZeroTime createdAt then now else createdAt in
  if negb (TimeAfter now createdAt) then TimeAdd createdAt arbitragePositionMetricsInterval
  else
    let n := Z.quot (TimeSub now createdAt) arbitragePositionMetricsInterval in
    let next := TimeAdd createdAt (wrap64 ((n + 1) * arbitragePositionMetricsInterval)) in
    if negb (TimeAfter next now) then TimeAdd next arbitragePositionMetricsInterval else next.

Definition metricsDueAtOnRegister (createdAt calculatedAt now : GoTime) : GoTime :=
  let createdAt := if IsZeroTime createdAt then now else createdAt in
  let first := TimeAdd createdAt arbitragePositionMetricsInterval in
  if TimeBefore now first then first
  else
    let lastPhase := lastMetricsPhaseAtOrBefore createdAt now in
    if IsZeroTime calculatedAt || TimeBefore calculatedAt lastPhase then zeroTime
    else nextMetricsPhaseAfter createdAt now.

(** ** Quotes *)

Definition supportedVenues : list string :=
  ["binance"; "okx"; "bybit"; "bitget"; "gate"; "hyperliquid"; "aster"; "lighter"]%string.

(** [Key.Validate]: whether it returns no error. *)
Definition validKey (k : Key) : bool :=
  bool_decide (k_Venue k ∈ supportedVenues) &&
  ((k_Product k =?s "spot") || (k_Product k =?s "perpetual")) &&
  negb (bool_decide (k_Venue k ∈ ["hyperliquid"; "aster"; "lighter"]%string)
        && negb (k_Product k =?s "perpetual")) &&
  negb (TrimSpace (k_Symbol k) =?s "").

Definition NewKey (venue product symbol : string) : option Key :=
  let key := mkKey (ToLower (TrimSpace venue)) (ToLower (TrimSpace product)) (TrimSpace symbol) in
  if validKey key then Some key else None.

(** [market] is [arbitrageBBOSource.Latest], [None] on an error. *)
Definition latestLegBBO (market : Key -> option BBO) (leg : ArbitrageLeg) : option BBO :=
  match NewKey (l_Exchange leg) (l_ContractType leg) (l_ExchangeSymbol leg) with
  | None => None
  | Some key => market key
  end.

Record arbitrageMetricsPersistJob := mkJob {
  jb_item : ArbitrageCombination;
  jb_quotes : arbitrageMetricsQuotes;
  jb_now : GoTime
}.

Section Worker.
Context {D : Type} `{!Decimal D}.
Context {Float : Type} (seconds : Duration -> D) (hoursSeconds : Float -> D).
Abbreviation Worker := (ArbitragePositionMetricsWorker D Float).
Abbreviation ExitState := (oneShotExitState D Float).

Definition bboMid (bbo : BBO) : option string :=
  match dNewFromString (D := D) (b_BidPrice bbo), dNewFromString (D := D) (b_AskPrice bbo) with
  | Some bid, Some ask =>
      if negb (dIsPositive bid) || negb (dIsPositive ask) then None
      else Some (dString (dDiv (dAdd bid ask) (dNewFromInt 2)))
  | _, _ => None
  end.

Definition combinationBBOQuotes (market : Key -> option BBO) (item : ArbitrageCombination) (now : GoTime)
    : arbitrageMetricsQuotes * bool :=
  let side (leg : ArbitrageLeg) :=
    match latestLegBBO market leg with
    | Some bbo => (default ""%string (bboMid bbo), b_BidPrice bbo, b_AskPrice bbo, b_ReceiveTimestamp bbo)
    | None => (""%string, ""%string, ""%string, zeroTime)
    end in
  let '(midA, bidA, askA, receivedA) := side (c_LegA item) in
  let '(midB, bidB, askB, receivedB) := side (c_LegB item) in
  let quotes := mkQuotes midA midB bidA askA bidB askB receivedA receivedB in
  (quotes, fresh (D := D) quotes now).

(** ** Members *)

Definition newWorker : Worker := mkWorker ∅ ∅ ∅ ∅.

Definition removeMemberLocked (w : Worker) (id : string) : Worker :=
  mkWorker (delete id (w_members w)) (delete id (w_lastPersist w)) (w_inFlight w ∖ {[id]})
    (delete id (w_exitState w)).

Definition UnregisterCombination (w : Worker) (id : string) : Worker :=
  if id =?s "" then w else removeMemberLocked w id.

Definition RegisterCombination (w : Worker) (item : ArbitrageCombination) (now : GoTime) : Worker :=
  if c_ID item =?s "" then w
  else if negb (oneShotPeriodicMetricsEligible item) then UnregisterCombination w (c_ID item)
  else
    match w_members w !! c_ID item with
    | Some existing =>
        let versionChanged := negb (c_Version (mm_combo existing) =? c_Version item)
          || negb (c_ExitAnnualizedRate (mm_combo existing) =?s c_ExitAnnualizedRate item) in
        if versionChanged
        then w <| w_members := <[c_ID item := mkMember item zeroTime true]> (w_members w) |>
               <| w_exitState := delete (c_ID item) (w_exitState w) |>
        else w <| w_members := <[c_ID item := mkMember item (mm_nextDueAt existing) true]> (w_members w) |>
    | None =>
        w <| w_members := <[c_ID item :=
               mkMember item (metricsDueAtOnRegister (c_CreatedAt item) (c_MetricsCalculatedAt item) now) true]>
               (w_members w) |>
    end.

Definition RequestMetricsRefresh (w : Worker) (item : ArbitrageCombination) : Worker :=
  if c_ID item =?s "" then w
  else
    let w := w <| w_exitState := delete (c_ID item) (w_exitState w) |> in
    if negb (oneShotPeriodicMetricsEligible item) then removeMemberLocked w (c_ID item)
    else w <| w_members := <[c_ID item := mkMember item zeroTime true]> (w_members w) |>.

(** One listed combination of [syncMembers], with the ids seen so far. *)
Definition syncItem (now : GoTime) (acc : Worker * gset string) (item : ArbitrageCombination)
    : Worker * gset string :=
  let '(w, seen) := acc in
  if negb (ToLower (TrimSpace (c_Status item)) =?s "running") then (w, seen)
  else
    (match w_members w !! c_ID item with
     | Some existing => w <| w_members := <[c_ID item := (existing <| mm_combo := item |>)]> (w_members w) |>
     | None =>
         w <| w_members := <[c_ID item :=
                mkMember item (metricsDueAtOnRegister (c_CreatedAt item) (c_MetricsCalculatedAt item) now) false]>
                (w_members w) |>
     end, seen ∪ {[c_ID item]}).

(** The members that leave: not listed any more and not pinned. *)
Definition syncRemoved (w : Worker) (seen : gset string) : list string :=
  map fst (filter (fun p => (p.1 ∉ seen) /\ mm_pinned p.2 = false) (map_to_list (w_members w))).

(** The first critical section of [syncMembers]; [canceledAt] is the index of
    the first item at which the context is found canceled.  The result says
    which ids were seen when the section ran to its end. *)
Definition syncMembers (w : Worker) (items : list ArbitrageCombination) (now : GoTime)
    (canceledAt : option nat) : Worker * option (gset string) :=
  match canceledAt with
  | Some k =>
      if Nat.ltb k (length items) then (fst (foldl (syncItem now) (w, ∅) (take k items)), None)
      else
        let '(w', seen) := foldl (syncItem now) (w, ∅) items in
        (foldl removeMemberLocked w' (syncRemoved w' seen), Some seen)
  | None =>
      let '(w', seen) := foldl (syncItem now) (w, ∅) items in
      (foldl removeMemberLocked w' (syncRemoved w' seen), Some seen)
  end.

Definition pruneExitStates (w : Worker) (seen : gset string) (items : list ArbitrageCombination) : Worker :=
  let eligible : gset string := list_to_set (map c_ID (List.filter oneShotAnnualizedWaitingExit items)) in
  let keep (id : string) : bool :=
    if bool_decide (id ∈ seen) then bool_decide (id ∈ eligible)
    else match w_members w !! id with Some m => mm_pinned m | None => false end in
  w <| w_exitState := filter (fun p => keep p.1 = true) (w_exitState w) |>.

(** ** Refreshing *)

(** Whether a member is due at [now]. *)
Definition memberDue (w : Worker) (now : GoTime) (id : string) (m : metricsMember) : bool :=
  negb (bool_decide (id ∈ w_inFlight w)) && oneShotPeriodicMetricsEligible (mm_combo m) &&
  (IsZeroTime (mm_nextDueAt m) || negb (TimeAfter (mm_nextDueAt m) now)).

(** The section marks the due members in flight; after it the jobs get their
    quotes, [market] being what the source answers then.  Go leaves the order of
    a range over a map open. *)
Definition collectDue (w : Worker) (market : Key -> option BBO) (now : GoTime)
    : Worker * list arbitrageMetricsPersistJob :=
  let due := filter (fun p => memberDue w now p.1 p.2 = true) (map_to_list (w_members w)) in
  (w <| w_inFlight := w_inFlight w ∪ list_to_set (map fst due) |>,
   map (fun p => let item := (mm_combo p.2) <| c_ID := p.1 |> in
                 mkJob item (fst (combinationBBOQuotes market item now)) now) due).

Definition applyPersistResult (w : Worker) (id : string) (now : GoTime)
    (result : Result (arbitragePositionMetricsPersistResult D Float)) : Worker :=
  let w := w <| w_inFlight := w_inFlight w ∖ {[id]} |> in
  match result with
  | Err _ =>
      match w_members w !! id with
      | Some member =>
          w <| w_members := <[id := (member <| mm_nextDueAt := TimeAdd now metricsApplyRetryDelay |>)]> (w_members w) |>
      | None => w
      end
  | Ok result =>
      let reason := match pr_Reason result with
                    | Some r => r
                    | None => if pr_Applied result then MetricsApplied else MetricsNotReady
                    end in
      match w_members w !! id with
      | None => w
      | Some member =>
          let combo := mm_combo member in
          let combo := if negb (IsZeroTime (c_CreatedAt (pr_Combination result)))
                       then combo <| c_CreatedAt := c_CreatedAt (pr_Combination result) |> else combo in
          let combo := if negb (IsZeroTime (c_MetricsCalculatedAt (pr_Combination result)))
                       then combo <| c_MetricsCalculatedAt := c_MetricsCalculatedAt (pr_Combination result) |>
                       else combo in
          let put (due : GoTime) (w : Worker) :=
            w <| w_members := <[id := (member <| mm_combo := combo |> <| mm_nextDueAt := due |>)]> (w_members w) |> in
          let persisted (w : Worker) := w <| w_lastPersist := <[id := now]> (w_lastPersist w) |> in
          match reason with
          | MetricsApplied | MetricsAlreadyCurrent | MetricsNotReady =>
              put (nextMetricsPhaseAfter (c_CreatedAt combo) now) (persisted w)
          | MetricsActiveWork | MetricsVersionConflict => put (TimeAdd now metricsApplyRetryDelay) w
          | MetricsInactive => removeMemberLocked w id
          end
      end
  end.

Definition releaseJobs (w : Worker) (ids : list string) : Worker :=
  w <| w_inFlight := w_inFlight w ∖ list_to_set ids |>.

Definition publishExitBasis (w : Worker) (id : string)
    (result : arbitragePositionMetricsPersistResult D Float) : Worker :=
  if negb (pr_Applied result) then w
  else match pr_ExitBasis result with
       | None => w <| w_exitState := delete id (w_exitState w) |>
       | Some basis => w <| w_exitState := <[id := mkExitState basis [] zeroTime false]> (w_exitState w) |>
       end.

(** One job of [persistDue] after the other: whether the context is found
    canceled before it, and what the store answers otherwise. *)
Definition persistAnswer : Type :=
  arbitrageMetricsPersistJob * bool * Result (arbitragePositionMetricsPersistResult D Float).

Fixpoint persistDue (w : Worker) (due : list persistAnswer) : Worker :=
  match due with
  | [] => w
  | (job, canceled, result) :: rest =>
      let id := c_ID (jb_item job) in
      if (canceled : bool)
      then releaseJobs w (id :: map (fun a : persistAnswer => c_ID (jb_item a.1.1)) rest)
      else
        let w := applyPersistResult w id (jb_now job) result in
        let w := match result with
                 | Ok r => if pr_Applied r then publishExitBasis w id r else w
                 | Err _ => w
                 end in
        persistDue w rest
  end.

(** ** Sampling *)

(** The two states are about the same basis. *)
Definition sameBasis (a b : oneShotExitBasis D Float) : bool :=
  (bs_Version a =? bs_Version b) && TimeEqual (bs_CalculatedAt a) (bs_CalculatedAt b).

(** What one call of [sampleExit] decides from its snapshot and the quotes,
    before its critical section. *)
Inductive sampleDecision :=
| SampleSkip
| SampleStale
| SampleRecord (result : oneShotExitSampleResult).

Definition decideSample (wall : GoTime) (market : Key -> option BBO) (state : ExitState) (now : GoTime)
    : sampleDecision :=
  if oneShotExitBasisMaxAge <? TimeSub now (bs_CalculatedAt (es_basis state)) then SampleStale
  else if es_stale state then SampleSkip
  else if negb (IsZeroTime (es_lastSample state))
          && (TimeSub now (es_lastSample state) <? oneShotExitSampleInterval) then SampleSkip
  else
    match latestLegBBO market (bs_LegA (es_basis state)), latestLegBBO market (bs_LegB (es_basis state)) with
    | Some bboA, Some bboB =>
        match oneShotExitQuoteFromBBO (D := D) bboA bboB now with
        | Some quote =>
            SampleRecord (evaluateOneShotExitSample seconds hoursSeconds wall (es_basis state) quote now)
        | None => SampleRecord (mkSample false true)
        end
    | _, _ => SampleRecord (mkSample false true)
    end.

(** [sampleExit] up to the call of the store: the critical section for the
    decision, and whether the exit is ready. *)
Definition sampleExit (w : Worker) (id : string) (state : ExitState) (now : GoTime)
    (decision : sampleDecision) : Worker * bool :=
  match decision with
  | SampleSkip => (w, false)
  | SampleStale =>
      match w_exitState w !! id with
      | Some current =>
          if sameBasis (es_basis current) (es_basis state)
          then (w <| w_exitState := <[id := (current <| es_hits := [] |> <| es_stale := true |>)]> (w_exitState w) |>, false)
          else (w, false)
      | None => (w, false)
      end
  | SampleRecord result =>
      match w_exitState w !! id with
      | Some current =>
          if negb (sameBasis (es_basis current) (es_basis state)) || es_stale current then (w, false)
          else
            let hits := if sr_fault result then [] else appendExitHit (es_hits current) (sr_hit result) in
            let ready := negb (sr_fault result) && oneShotExitWindowReady hits in
            (w <| w_exitState := <[id := (current <| es_hits := hits |> <| es_lastSample := now |>)]> (w_exitState w) |>,
             ready)
      | None => (w, false)
      end
  end.

(** The last section of [sampleExit], once the store has marked the exit. *)
Definition dropExited (w : Worker) (id : string) (basis : oneShotExitBasis D Float) : Worker :=
  match w_exitState w !! id with
  | Some current =>
      if sameBasis (es_basis current) basis
      then w <| w_exitState := delete id (w_exitState w) |> else w
  | None => w
  end.

Definition rejectAnnualizedExit (w : Worker) (id : string) (basis : oneShotExitBasis D Float) : Worker :=
  let w := dropExited w id basis in
  match w_members w !! id with
  | Some member => w <| w_members := <[id := (member <| mm_nextDueAt := zeroTime |>)]> (w_members w) |>
  | None => w
  end.

(** What [MarkOneShotAnnualizedExiting] answers. *)
Inductive markOutcome := MarkFailed | MarkRejected | MarkApplied.

(** The rest of [sampleExit] once the exit is ready. *)
Definition finishExit (w : Worker) (id : string) (basis : oneShotExitBasis D Float) (outcome : markOutcome)
    : Worker :=
  match outcome with
  | MarkFailed => w
  | MarkRejected => rejectAnnualizedExit w id basis
  | MarkApplied => dropExited w id basis
  end.

(** ** Runs *)

Inductive WorkerEvent :=
| EvRegister (item : ArbitrageCombination) (now : GoTime)
| EvRequest (item : ArbitrageCombination)
| EvUnregister (id : string)
| EvSync (items : list ArbitrageCombination) (now : GoTime) (canceledAt : option nat)
| EvPrune (seen : gset string) (items : list ArbitrageCombination)
| EvCollect (market : Key -> option BBO) (now : GoTime)
| EvPersisted (id : string) (now : GoTime) (result : Result (arbitragePositionMetricsPersistResult D Float))
| EvPublish (id : string) (result : arbitragePositionMetricsPersistResult D Float)
| EvRelease (ids : list string)
| EvSample (id : string) (state : ExitState) (now : GoTime) (wall : GoTime) (market : Key -> option BBO)
| EvMarked (id : string) (basis : oneShotExitBasis D Float) (outcome : markOutcome).

Definition workerStep (w : Worker) (e : WorkerEvent) : Worker :=
  match e with
  | EvRegister item now => RegisterCombination w item now
  | EvRequest item => RequestMetricsRefresh w item
  | EvUnregister id => UnregisterCombination w id
  | EvSync items now canceledAt => fst (syncMembers w items now canceledAt)
  | EvPrune seen items => pruneExitStates w seen items
  | EvCollect market now => fst (collectDue w market now)
  | EvPersisted id now result => applyPersistResult w id now result
  | EvPublish id result => publishExitBasis w id result
  | EvRelease ids => releaseJobs w ids
  | EvSample id state now wall market => fst (sampleExit w id state now (decideSample wall market state now))
  | EvMarked id basis outcome => finishExit w id basis outcome
  end.

Definition runWorker (evs : list WorkerEvent) : Worker := foldl workerStep newWorker evs.
End Worker.

(** ** Theorems *)

Section WorkerFacts.
Context {D : Type} `{!Decimal D}.
Context {Float : Type} (seconds : Duration -> D) (hoursSeconds : Float -> D).
Abbreviation Worker := (ArbitragePositionMetricsWorker D Float).
Abbreviation Event := (WorkerEvent (D := D) (Float := Float)).
Abbreviation step := (workerStep seconds hoursSeconds).
Abbreviation decides := (decideSample seconds hoursSeconds).

(** The hit or miss an event contributes to the samples of [id] on [basis]. *)
Definition sampledHit (id : string) (basis : oneShotExitBasis D Float) (e : Event) : option bool :=
  match e with
  | EvSample id' state now wall market =>
      if (id =?s id') && sameBasis basis (es_basis state) then
        match decides wall market state now with
        | SampleRecord r => if sr_fault r then None else Some (sr_hit r)
        | _ => None
        end
      else None
  | _ => None
  end.

(** The event starts the samples of [id] on [basis] afresh: a basis is
    published, or a sample on it is faulty or finds it too old. *)
Definition interrupts (id : string) (basis : oneShotExitBasis D Float) (e : Event) : Prop :=
  match e with
  | EvPublish id' result => id' = id /\ pr_Applied result = true
  | EvSample id' state now wall market =>
      id' = id /\ sameBasis basis (es_basis state) = true /\
      match decides wall market state now with
      | SampleSkip => False
      | SampleStale => True
      | SampleRecord r => sr_fault r = true
      end
  | _ => False
  end.

Lemma removeMembers_exit (ids : list string) : forall w : Worker,
  w_exitState (foldl removeMemberLocked w ids) ⊆ w_exitState w.
Proof.
  induction ids as [|id ids IH]; intros w; cbn [foldl]; [done|].
  etransitivity; [apply IH|]. apply delete_subseteq.
Qed.

Lemma syncItems_exit (now : GoTime) (items : list ArbitrageCombination) : forall acc : Worker * gset string,
  w_exitState (foldl (syncItem now) acc items).1 = w_exitState acc.1.
Proof.
  induction items as [|item items IH]; intros [w seen]; cbn [foldl]; [done|].
  rewrite IH. unfold syncItem. destruct (negb _); [done|]. by destruct (w_members w !! c_ID item).
Qed.

Lemma syncMembers_exit (w : Worker) items now canceledAt :
  w_exitState (syncMembers w items now canceledAt).1 ⊆ w_exitState w.
Proof.
  assert (H : forall w' seen, foldl (syncItem now) (w, ∅) items = (w', seen) -> w_exitState w' = w_exitState w).
  { intros w' seen E. by rewrite <- (syncItems_exit now items (w, ∅)), E. }
  unfold syncMembers. destruct (foldl (syncItem now) (w, ∅) items) as [w' seen] eqn:E.
  specialize (H _ _ eq_refl).
  destruct canceledAt as [k|]; [destruct (Nat.ltb k (length items))|]; cbn [fst].
  - by rewrite syncItems_exit.
  - rewrite <- H. apply removeMembers_exit.
  - rewrite <- H. apply removeMembers_exit.
Qed.

Lemma UnregisterCombination_exit (w : Worker) (id : string) :
  w_exitState (UnregisterCombination w id) ⊆ w_exitState w.
Proof. unfold UnregisterCombination. destruct (id =?s ""); [done|]. apply delete_subseteq. Qed.

Lemma dropExited_exit (w : Worker) id basis : w_exitState (dropExited w id basis) ⊆ w_exitState w.
Proof.
  unfold dropExited. destruct (w_exitState w !! id) as [c|]; [|done].
  destruct (sameBasis _ _); [|done]. apply delete_subseteq.
Qed.

Lemma applyPersistResult_exit (w : Worker) id now result :
  w_exitState (applyPersistResult w id now result) ⊆ w_exitState w.
Proof.
  unfold applyPersistResult. destruct result as [r|e];
    cbn [w_members w_exitState setter]; destruct (w_members w !! id) as [m|]; try done.
  destruct (match pr_Reason r with Some _ => _ | None => _ end); try done. apply delete_subseteq.
Qed.

(** Only publishing and sampling change an exit state; the other events at
    most drop it. *)
Lemma exit_only_dropped (w : Worker) (e : Event) :
  match e with EvPublish _ _ | EvSample _ _ _ _ _ => True
  | _ => w_exitState (step w e) ⊆ w_exitState w end.
Proof.
  destruct e; cbn [workerStep]; try exact I; try done.
  - unfold RegisterCombination. destruct (c_ID item =?s ""); [done|].
    destruct (negb _); [apply UnregisterCombination_exit|].
    destruct (w_members w !! c_ID item); [|done]. destruct (_ || _); [apply delete_subseteq|done].
  - unfold RequestMetricsRefresh. destruct (c_ID item =?s ""); [done|].
    destruct (negb _); cbn [w_exitState setter removeMemberLocked];
      [etransitivity; apply delete_subseteq|apply delete_subseteq].
  - apply UnregisterCombination_exit.
  - apply syncMembers_exit.
  - apply map_filter_subseteq.
  - apply applyPersistResult_exit.
  - destruct outcome; cbn [finishExit]; [done| |apply dropExited_exit].
    unfold rejectAnnualizedExit. destruct (w_members _ !! id); apply dropExited_exit.
Qed.

Lemma sameBasis_sym (a b : oneShotExitBasis D Float) : sameBasis a b = sameBasis b a.
Proof. unfold sameBasis, TimeEqual. by rewrite Z.eqb_sym, (Z.eqb_sym (bs_CalculatedAt a)). Qed.

(** How one event changes a live exit state: it starts afresh, or keeps its
    basis and takes the sample of the event, if any. *)
Lemma exit_step (w : Worker) (e : Event) (id : string) (s' : oneShotExitState D Float) :
  w_exitState (step w e) !! id = Some s' -> es_stale s' = false ->
  es_hits s' = [] \/
  exists s, w_exitState w !! id = Some s /\ es_stale s = false /\ es_basis s' = es_basis s /\
    ~ interrupts id (es_basis s) e /\
    es_hits s' = match sampledHit id (es_basis s) e with
                 | Some b => appendExitHit (es_hits s) b
                 | None => es_hits s
                 end.
Proof.
  intros H Hst. pose proof (exit_only_dropped w e) as Hd.
  destruct e; try (right; exists s'; rewrite map_subseteq_spec in Hd; repeat split; auto; fail);
    cbn [workerStep] in H; clear Hd.
  - unfold publishExitBasis in H. destruct (pr_Applied result) eqn:Ea; cbn [negb] in H.
    2: { right. exists s'. repeat split; auto. cbn [interrupts]. rewrite Ea. by intros [_ ?]. }
    destruct (pr_ExitBasis result) as [b|]; cbn [w_exitState setter] in H.
    + destruct (decide (id0 = id)) as [->|Hne].
      * rewrite lookup_insert_eq in H. injection H as <-. by left.
      * rewrite lookup_insert_ne in H by done. right. exists s'. repeat split; auto.
        cbn [interrupts]. by intros [? _].
    + apply lookup_delete_Some in H as [Hne H]. right. exists s'. repeat split; auto.
      cbn [interrupts]. by intros [? _].
  - destruct (decide (id0 = id)) as [->|Hne].
    2: { right. exists s'. cbn [interrupts sampledHit].
         destruct (String.eqb_spec id id0) as [|_]; [congruence|]. cbn [andb].
         repeat split; [|done..|by intros [? _]].
         unfold sampleExit in H. destruct (decides wall market state now) as [| |r]; [done|..];
           (destruct (w_exitState w !! id0) as [c|]; [|done]).
         - destruct (sameBasis _ _); [|done]. cbn [fst w_exitState setter] in H.
           by rewrite lookup_insert_ne in H by done.
         - destruct (negb _ || _); [done|]. cbn [fst w_exitState setter] in H.
           by rewrite lookup_insert_ne in H by done. }
    unfold sampleExit in H. cbn [interrupts sampledHit]. rewrite String.eqb_refl. cbn [andb].
    destruct (decides wall market state now) as [| |r] eqn:Ed.
    + right. exists s'. repeat split; auto; [intros (_ & _ & [])|by destruct (sameBasis _ _)].
    + destruct (w_exitState w !! id) as [c|] eqn:Ec; [|cbn [fst] in H; congruence].
      destruct (sameBasis (es_basis c) (es_basis state)) eqn:Es; cbn [fst] in H.
      * cbn [w_exitState setter] in H. rewrite lookup_insert_eq in H. injection H as <-. done.
      * right. assert (s' = c) as -> by congruence. exists c. rewrite Es.
        repeat split; auto. by intros (_ & ? & _).
    + destruct (w_exitState w !! id) as [c|] eqn:Ec; [|cbn [fst] in H; congruence].
      destruct (sameBasis (es_basis c) (es_basis state)) eqn:Es, (es_stale c) eqn:Ecs;
        cbn [negb orb fst] in H; try congruence.
      * cbn [w_exitState setter] in H. rewrite lookup_insert_eq in H. injection H as <-.
        destruct (sr_fault r) eqn:Ef; [by left|]. right. exists c. rewrite Es.
        repeat split; auto. by intros (_ & _ & ?).
      * right. assert (s' = c) as -> by congruence. exists c. rewrite Es.
        repeat split; auto. by intros (_ & ? & _).
Qed.

Definition sampled (id : string) (basis : oneShotExitBasis D Float) (evs : list Event) : list bool :=
  omap (sampledHit id basis) evs.

(** The hits of a live exit state are the window of the samples recorded on
    its basis since the last interruption. *)
Lemma hits_are_window (evs : list Event) : forall id s,
  w_exitState (runWorker seconds hoursSeconds evs) !! id = Some s -> es_stale s = false ->
  exists evs1 evs2, evs = evs1 ++ evs2 /\ Forall (fun e => ~ interrupts id (es_basis s) e) evs2 /\
    es_hits s = foldl appendExitHit [] (sampled id (es_basis s) evs2).
Proof.
  unfold runWorker. induction evs as [|e evs IH] using rev_ind; intros id s H Hst.
  { cbn in H. by rewrite lookup_empty in H. }
  rewrite foldl_app in H. cbn [foldl] in H.
  destruct (exit_step _ _ _ _ H Hst) as [E|(s0 & H0 & Hs0 & Eb & Hn & Eh)].
  - exists (evs ++ [e]), []. rewrite app_nil_r. repeat split; [constructor|done].
  - destruct (IH id s0 H0 Hs0) as (evs1 & evs2 & -> & Hi & Eh0). rewrite Eb.
    exists evs1, (evs2 ++ [e]). rewrite app_assoc. split; [done|]. split.
    { apply Forall_app. split; [done|by constructor]. }
    unfold sampled. rewrite omap_app, foldl_app. fold (sampled id (es_basis s0) evs2).
    rewrite <- Eh0, Eh. cbn [omap list_omap]. by destruct (sampledHit id (es_basis s0) e).
Qed.

(** [persistDue] is a run of its sections, and leaves none of its jobs in
    flight, canceled or not. *)
Definition persistEvents (a : persistAnswer (D := D) (Float := Float)) : list Event :=
  let id := c_ID (jb_item a.1.1) in
  EvPersisted id (jb_now a.1.1) a.2
  :: match a.2 with
     | Ok r => if pr_Applied r then [EvPublish id r] else []
     | Err _ => []
     end.

Lemma persistDue_run (due : list (persistAnswer (D := D) (Float := Float))) : forall w : Worker,
  exists evs, persistDue w due = foldl step w evs /\
    (Forall (fun a : persistAnswer (D := D) (Float := Float) => a.1.2 = false) due -> evs = concat (map persistEvents due)).
Proof.
  induction due as [|[[job canceled] result] due IH]; intros w; cbn [persistDue].
  { exists []. done. }
  destruct canceled.
  { eexists [EvRelease _]. split; [reflexivity|]. intros H. by inversion H. }
  match goal with |- context [persistDue ?w' due] => destruct (IH w') as (evs & E & Hc) end.
  exists (persistEvents (job, false, result) ++ evs). rewrite foldl_app, E. split.
  - unfold persistEvents. cbn [fst snd foldl workerStep]. destruct result as [r|]; [|done].
    by destruct (pr_Applied r).
  - intros H. inversion H; subst. cbn [map concat]. f_equal. by apply Hc.
Qed.

Lemma publishExitBasis_inFlight (w : Worker) id r :
  w_inFlight (publishExitBasis w id r) = w_inFlight w.
Proof. unfold publishExitBasis. destruct (negb _); [done|]. by destruct (pr_ExitBasis r). Qed.

Lemma applyPersistResult_inFlight (w : Worker) id now result :
  w_inFlight (applyPersistResult w id now result) = w_inFlight w ∖ {[id]}.
Proof.
  clear seconds hoursSeconds.
  unfold applyPersistResult. destruct result as [r|e]; cbn [w_members w_inFlight setter];
    destruct (w_members w !! id) as [m|]; try done.
  destruct (match pr_Reason r with Some _ => _ | None => _ end); try done.
  cbn [removeMemberLocked w_inFlight setter]. set_solver.
Qed.

Lemma persistDue_inFlight (due : list (persistAnswer (D := D) (Float := Float))) : forall w : Worker,
  w_inFlight (persistDue w due)
  = w_inFlight w ∖ list_to_set (map (fun a : persistAnswer => c_ID (jb_item a.1.1)) due).
Proof.
  clear seconds hoursSeconds.
  induction due as [|[[job canceled] result] due IH]; intros w; cbn [persistDue]; [set_solver|].
  destruct canceled; [done|]. rewrite IH. cbn [map list_to_set fst].
  assert (E : w_inFlight (match result with
                 | Ok r => if pr_Applied r then publishExitBasis (applyPersistResult w (c_ID (jb_item job)) (jb_now job) result) (c_ID (jb_item job)) r
                           else applyPersistResult w (c_ID (jb_item job)) (jb_now job) result
                 | Err _ => applyPersistResult w (c_ID (jb_item job)) (jb_now job) result
                 end) = w_inFlight w ∖ {[c_ID (jb_item job)]}).
  { destruct result as [r|]; [destruct (pr_Applied r)|];
      rewrite ?publishExitBasis_inFlight; apply applyPersistResult_inFlight. }
  rewrite E. set_solver.
Qed.

(** No refresh is left in flight: whatever the store answers and whenever
    the context is canceled, a round of [collectDue] and [persistDue] over the
    jobs it collected ends with exactly the refreshes in flight that were in
    flight before, and the jobs collected were not among them; so no
    combination is refreshed twice at once and none is blocked for good. *)
Theorem refresh_round_releases (w : Worker) (market : Key -> option BBO) (now : GoTime)
    (answers : list (bool * Result (arbitragePositionMetricsPersistResult D Float))) :
  let '(w', jobs) := collectDue w market now in
  length answers = length jobs ->
  Forall (fun job => c_ID (jb_item job) ∉ w_inFlight w) jobs /\
  w_inFlight (persistDue w' (zip_with (fun job a => (job, a.1, a.2)) jobs answers)) = w_inFlight w.
Proof.
  clear seconds hoursSeconds.
  unfold collectDue. set (due := filter _ (map_to_list (w_members w))).
  set (jobs := map _ due). intros Hl.
  assert (Hids : map (fun job => c_ID (jb_item job)) jobs = map fst due).
  { unfold jobs. rewrite List.map_map. apply List.map_ext. reflexivity. }
  assert (Hnew : Forall (fun id => id ∉ w_inFlight w) (map fst due)).
  { apply Forall_map, Forall_forall. intros p Hp. unfold due in Hp.
    apply list_elem_of_filter in Hp as [Hp _]. unfold memberDue in Hp. bool_to_prop.
    match goal with H : bool_decide _ = false |- _ => by apply bool_decide_eq_false in H end. }
  split.
  - rewrite <- Hids, Forall_forall in Hnew. apply Forall_forall. intros j Hj. apply Hnew.
    by apply (list_elem_of_fmap_2 (fun job => c_ID (jb_item job))).
  - rewrite persistDue_inFlight. cbn [w_inFlight setter].
    assert (E : map (fun a : persistAnswer => c_ID (jb_item a.1.1))
                  (zip_with (fun job a => (job, a.1, a.2)) jobs answers) = map fst due).
    { rewrite <- Hids. clearbody jobs. clear -Hl. revert answers Hl.
      induction jobs as [|j jobs IH]; intros [|a answers] Hl; try done.
      cbn in Hl |- *. f_equal. apply IH. by injection Hl. }
    rewrite E. rewrite Forall_forall in Hnew. set_solver.
Qed.

Lemma window_nonempty (l : list bool) : foldl appendExitHit [] l
  = drop (length l - oneShotExitWindowSize) l.
Proof. apply (appendExitHit_window l []). cbn. unfold oneShotExitWindowSize. lia. Qed.

(** Whatever the interleaving of registrations, refreshes, publications
    and samples, an exit is declared ready only by a fault-free sample that is
    itself a hit and that completes thirty samples recorded in a row on one
    basis (same version and calculation time), with no publication and no
    faulty or outdated sample among them, at least eighteen of the last thirty
    being hits. *)
Theorem exit_needs_full_window (evs : list Event) (id : string) (state : oneShotExitState D Float)
    (now wall : GoTime) (market : Key -> option BBO) :
  (sampleExit (runWorker seconds hoursSeconds evs) id state now (decides wall market state now)).2 = true ->
  exists basis r evs1 evs2,
    sameBasis basis (es_basis state) = true /\
    decides wall market state now = SampleRecord r /\ sr_fault r = false /\ sr_hit r = true /\
    evs = evs1 ++ evs2 /\ Forall (fun e => ~ interrupts id basis e) evs2 /\
    let samples := sampled id basis evs2 ++ [true] in
    (oneShotExitWindowSize <= length samples)%nat /\
    18 <= Z.of_nat (length (filter (eq true) (drop (length samples - oneShotExitWindowSize) samples))).
Proof.
  unfold sampleExit. destruct (decides wall market state now) as [| |r] eqn:Ed; [done|..].
  { destruct (w_exitState _ !! id) as [c|]; [|done]. by destruct (sameBasis _ _). }
  destruct (w_exitState (runWorker seconds hoursSeconds evs) !! id) as [c|] eqn:Ec; [|done].
  destruct (sameBasis (es_basis c) (es_basis state)) eqn:Es, (es_stale c) eqn:Ecs; cbn [negb orb snd]; try done.
  destruct (sr_fault r) eqn:Ef; cbn [negb andb]; [done|]. intros Hr.
  destruct (hits_are_window evs id c Ec Ecs) as (evs1 & evs2 & Ee & Hi & Eh).
  set (hs := sampled id (es_basis c) evs2) in *.
  assert (Ew : appendExitHit (es_hits c) (sr_hit r)
               = drop (length (hs ++ [sr_hit r]) - oneShotExitWindowSize) (hs ++ [sr_hit r])).
  { rewrite Eh. change (foldl appendExitHit (foldl appendExitHit [] hs) [sr_hit r]
      = drop (length (hs ++ [sr_hit r]) - oneShotExitWindowSize) (hs ++ [sr_hit r])).
    rewrite <- foldl_app. apply window_nonempty. }
  rewrite Ew in Hr. apply oneShotExitWindowReady_iff in Hr as (Hl & Hlast & Hc).
  rewrite length_drop in Hl.
  assert (Hhit : sr_hit r = true).
  { rewrite length_app in *. cbn [length] in *. unfold oneShotExitWindowSize in *.
    rewrite drop_app_le in Hlast by lia. rewrite last_snoc in Hlast. by injection Hlast. }
  rewrite Hhit in Hl, Hc.
  exists (es_basis c), r, evs1, evs2. repeat split; try done; [fold hs; lia].
Qed.
End WorkerFacts.

(** Metrics are refreshed on a ten-minute grid from the creation of a
    combination: the next phase is the first grid point after [now], the last
    phase the one before it, and a newly registered combination is due at once
    exactly when it is at least one interval old and has not been calculated
    since the last phase; otherwise it is due within one interval. *)
Theorem metrics_phase_grid (createdAt calculatedAt now : GoTime) :
  IsZeroTime createdAt = false -> createdAt <= now -> now < createdAt + 2 ^ 62 -> unixEpoch <= now ->
  let next := nextMetricsPhaseAfter createdAt now in
  let lastPhase := lastMetricsPhaseAtOrBefore createdAt now in
  let due := metricsDueAtOnRegister createdAt calculatedAt now in
  (next - createdAt) mod arbitragePositionMetricsInterval = 0 /\
  now < next /\ next <= now + arbitragePositionMetricsInterval /\
  next = lastPhase + arbitragePositionMetricsInterval /\
  (due = zeroTime <-> createdAt + arbitragePositionMetricsInterval <= now
                      /\ (calculatedAt = zeroTime \/ calculatedAt < lastPhase)) /\
  (due = zeroTime \/ due = next).
Proof.
  intros Hz Hle Hlt Hep next lastPhase due.
  set (I := arbitragePositionMetricsInterval) in *.
  assert (HI : I = 600000000000) by reflexivity.
  assert (Hsub : TimeSub now createdAt = now - createdAt)
    by (unfold TimeSub, int64_min, int64_max; lia).
  pose proof (Z.div_mod (now - createdAt) I ltac:(lia)) as Hdm.
  pose proof (Z.mod_pos_bound (now - createdAt) I ltac:(lia)) as Hmb.
  assert (Hq : Z.quot (now - createdAt) I = (now - createdAt) / I) by (apply Z.quot_div_nonneg; lia).
  set (n := (now - createdAt) / I) in *.
  assert (Hn : 0 <= n) by (apply Z.div_pos; lia).
  assert (Hw : forall m, 0 <= m <= n + 1 -> wrap64 (m * I) = m * I).
  { intros m Hm. unfold wrap64. rewrite Z.mod_small; [lia|]. nia. }
  assert (Hnext : next = createdAt + (n + 1) * I).
  { unfold next, nextMetricsPhaseAfter. rewrite Hz. fold I. rewrite Hsub, Hq, Hw by lia.
    unfold TimeAfter, TimeAdd. destruct (Z.ltb_spec createdAt now); cbn [negb].
    - destruct (Z.ltb_spec now (createdAt + (n + 1) * I)); cbn [negb]; nia.
    - assert (n = 0) as -> by (unfold n; apply Z.div_small; lia). lia. }
  assert (Hlast : lastPhase = createdAt + n * I).
  { unfold lastPhase, lastMetricsPhaseAtOrBefore. rewrite Hz. fold I. rewrite Hsub, Hq, Hw by lia.
    unfold TimeBefore, TimeAdd. destruct (Z.ltb_spec now (createdAt + I)); [|done].
    assert (n = 0) as -> by (unfold n; apply Z.div_small; lia). lia. }
  assert (Hzt : zeroTime < now) by (unfold unixEpoch in Hep; unfold zeroTime, Second; lia).
  assert (Hdue : due = if now <? createdAt + I then next
                       else if (calculatedAt =? zeroTime) || (calculatedAt <? lastPhase) then zeroTime else next).
  { unfold due, metricsDueAtOnRegister. rewrite Hz. fold I. unfold TimeBefore, IsZeroTime, TimeAdd.
    fold lastPhase next. destruct (Z.ltb_spec now (createdAt + I)); [|done].
    rewrite Hnext. assert (n = 0) as -> by (unfold n; apply Z.div_small; lia). lia. }
  split; [rewrite Hnext; replace (createdAt + (n + 1) * I - createdAt) with ((n + 1) * I) by lia;
          apply Z_mod_mult|].
  split; [nia|]. split; [nia|]. split; [lia|].
  rewrite Hdue. split.
  - destruct (Z.ltb_spec now (createdAt + I)); [split; [intros; nia|lia]|].
    destruct (Z.eqb_spec calculatedAt zeroTime); cbn [orb];
      [split; [intros; split; [lia|by left]|done]|].
    destruct (Z.ltb_spec calculatedAt lastPhase);
      [split; [intros; split; [lia|by right]|done]|].
    split; [intros; nia|]. intros [_ [?|?]]; [done|lia].
  - destruct (now <? createdAt + I); [by right|]. destruct (_ || _); [by left|by right].
Qed.

(** ** Witnesses *)

(** Both legs of the sample basis are quoted; one sample a second on it. *)
Definition quotedLeg (symbol : string) : ArbitrageLeg :=
  zero_ArbitrageLeg <| l_Exchange := "binance" |> <| l_ContractType := "perpetual" |>
    <| l_ExchangeSymbol := symbol |>.

Definition quotedBasis : oneShotExitBasis Dec Z :=
  mkBasis "c1" 3 (mkDec 1 (-1)) (mkDec 2 0) (mkDec (-2) 0) (mkDec 100 0) (mkDec 101 0)
    (mkDec 2 0) (mkDec (-2) 0) (mkDec 0 0) (mkDec 0 0) zeroTime (mkDec 2 0) (mkDec (-2) 0)
    (mkDec 0 0) (mkDec 0 0) (mkDec 0 0) (mkDec 1 0) (mkDec 1 (-1)) (mkDec 720000 0) (mkDec 3600 0)
    (100 * Second) 8 (mkDec 5 (-4)) (mkDec 5 (-4)) "maker_taker" "a" (quotedLeg "AAA") (quotedLeg "BBB")
    (100 * Second).

Definition quotedMarket (t : GoTime) (k : Key) : option BBO :=
  Some (if k_Symbol k =?s "AAA" then mkBBO k "110" "111" "5" "5" t t else mkBBO k "100" "101" "5" "5" t t).

Definition quotedState : oneShotExitState Dec Z := mkExitState quotedBasis [] zeroTime false.

(** The basis is published and sampled at 101, 102, ... seconds. *)
Definition sampleEvents (n : nat) : list (WorkerEvent (D := Dec) (Float := Z)) :=
  EvPublish "c1" (mkPersistResult zero_ArbitrageCombination true (Some MetricsApplied) (Some quotedBasis))
  :: map (fun k => let t := (101 + Z.of_nat k) * Second in
                   EvSample "c1" quotedState t zeroTime (quotedMarket t)) (seq 0 n).

Lemma exit_needs_full_window_witness :
  (sampleExit (runWorker sampleSeconds sampleHours (sampleEvents 28)) "c1" quotedState (130 * Second)
     (decideSample sampleSeconds sampleHours zeroTime (quotedMarket (130 * Second)) quotedState (130 * Second))).2
  = false /\
  exists basis r evs1 evs2,
    sameBasis basis (es_basis quotedState) = true /\
    decideSample sampleSeconds sampleHours zeroTime (quotedMarket (130 * Second)) quotedState (130 * Second)
    = SampleRecord r /\ sr_hit r = true /\ sampleEvents 29 = evs1 ++ evs2.
Proof.
  split; [vm_compute; reflexivity|].
  pose proof (exit_needs_full_window sampleSeconds sampleHours (sampleEvents 29) "c1" quotedState
                (130 * Second) zeroTime (quotedMarket (130 * Second))) as H.
  specialize (H ltac:(vm_compute; reflexivity)).
  destruct H as (basis & r & evs1 & evs2 & H1 & H2 & _ & H3 & H4 & _).
  exists basis, r, evs1, evs2. exact (conj H1 (conj H2 (conj H3 H4))).
Defined.

Lemma metrics_phase_grid_witness :
  let next := nextMetricsPhaseAfter (1000 * Second) (2500 * Second) in
  2500 * Second < next /\ next <= 2500 * Second + arbitragePositionMetricsInterval /\
  metricsDueAtOnRegister (1000 * Second) (2100 * Second) (2500 * Second) = zeroTime.
Proof.
  pose proof (metrics_phase_grid (1000 * Second) (2100 * Second) (2500 * Second) eq_refl
                ltac:(vm_compute; discriminate) ltac:(vm_compute; reflexivity)
                ltac:(vm_compute; discriminate)) as (_ & H1 & H2 & _).
  exact (conj H1 (conj H2 eq_refl)).
Defined.

(** One combination is due; the store fails. *)
Definition dueWorker : ArbitragePositionMetricsWorker Dec Z :=
  RegisterCombination newWorker
    (zero_ArbitrageCombination <| c_ID := "c1" |> <| c_Status := "running" |> <| c_CreatedAt := Second |>)
    (5000 * Second).

Lemma refresh_round_releases_witness :
  let '(w', jobs) := collectDue dueWorker (fun _ => None) (5000 * Second) in
  w_inFlight w' = {["c1"%string]} /\
  w_inFlight (persistDue w' (zip_with (fun job a => (job, a.1, a.2)) jobs
                               [(false, Err (mkError [ErrOther] "timeout"))])) = w_inFlight dueWorker.
Proof.
  pose proof (refresh_round_releases dueWorker (fun _ => None) (5000 * Second)
                [(false, Err (mkError [ErrOther] "timeout"))]) as H.
  destruct (collectDue dueWorker (fun _ => None) (5000 * Second)) as [w' jobs] eqn:E.
  vm_compute in E. injection E as Ew Ej.
  specialize (H ltac:(rewrite <- Ej; reflexivity)).
  split; [rewrite <- Ew; reflexivity|exact (proj2 H)].
Defined.
