(* ===== verification/Store.v ===== *)
(** * The trader's tables and the world its code runs in

    The repositories (repository.go, twap_repository.go) keep their state in
    PostgreSQL tables.  [Store] holds those tables as finite maps, one record
    per row, with the nullable columns as options; [scanOrder] and [scanTwap]
    are the column lists [orderColumns] and [twapColumns], which fill the Go
    structs from a row.

    Code that calls the database, the clock and the venues is written in the
    state monad [M].  Every such call is one tick: at tick [n] the environment
    first lets the other processes change the store ([interfere n]) and then
    answers, so that the answers of a run are arbitrary functions of the tick.
    A transaction is one tick: PostgreSQL makes it atomic.  It fails when
    [dbFault n] says so, which stands for every error of the database
    (connection, constraint, serialisation), and then its tables are as before. *)
From Stdlib Require Import ZArith QArith Qabs Qround Lqa String.
From stdpp Require Import base strings list gmap.
From S2P Require Import Prelude Decimal DecimalRef Types Quantity FillAverage.

(** ** Columns *)

(** A [timestamptz] that may be ['infinity']. *)
Inductive PgTime := PgAt (t : GoTime) | PgInfinity.

(** What the code uses of PostgreSQL and its driver: a text cast to
    [NUMERIC(38,18)] and read back by [trim_scale(column)::text], or not
    accepted; a text cast to [NUMERIC] without bounds and read back; a column by [column::text], which keeps the scale; the
    precision of [timestamptz]; division of [NUMERIC]s. *)
Class Postgres (D : Type) := {
  numericText : string -> option string;
  numericAny : string -> option string;
  padScale : string -> string;
  timestamptz : GoTime -> GoTime;
  sqlDivide : D -> D -> D
}.

(** Documented behaviour: 18 digits after the point, a half away from zero, at
    most 20 before it; microseconds. *)
Class PostgresLaws (D : Type) `{!Decimal D} `{!Postgres D} : Prop := {
  numericText_val : forall s t, numericText (D := D) s = Some t ->
    TrimSpace t = t /\ exists a b : D, dNewFromString s = Some a /\ dNewFromString t = Some b /\
      (dval b == qround 18 (dval a))%Q;
  numericAny_val : forall s t, numericAny (D := D) s = Some t ->
    TrimSpace t = t /\ exists a b : D, dNewFromString s = Some a /\ dNewFromString t = Some b /\ (dval b == dval a)%Q;
  numericText_total : forall a : D, (Qabs (dval a) < pow10 20 - 1)%Q ->
    exists t, numericText (D := D) (dString a) = Some t;
  padScale_val : forall s (a : D), dNewFromString s = Some a ->
    TrimSpace (padScale (D := D) s) = padScale (D := D) s /\
    exists b : D, dNewFromString (padScale (D := D) s) = Some b /\ (dval b == dval a)%Q;
  timestamptz_val : forall t, t - 1000 < timestamptz (D := D) t <= t
}.

Record OrderRow := mkOrderRow {
  row_order : Order;
  row_last_reconciled_at : option GoTime;
  row_last_stream_event_at : option GoTime;
  row_last_venue_event_at : option GoTime;
  row_reconcile_lease_until : option GoTime;
  row_next_reconcile_at : PgTime
}.
#[export] Instance eta_OrderRow : Eta OrderRow := fun r =>
  mkOrderRow (row_order r) (row_last_reconciled_at r) (row_last_stream_event_at r)
    (row_last_venue_event_at r) (row_reconcile_lease_until r) (row_next_reconcile_at r).

(** [COALESCE(column, 'epoch')]. *)
Definition orEpoch (t : option GoTime) : GoTime := default unixEpoch t.

Definition scanOrder (r : OrderRow) : Order :=
  (row_order r) <| o_LastReconciledAt := orEpoch (row_last_reconciled_at r) |>
    <| o_LastStreamEventAt := orEpoch (row_last_stream_event_at r) |>
    <| o_LastVenueEventAt := orEpoch (row_last_venue_event_at r) |>
    <| o_SyncState := match row_last_reconciled_at r with
                      | None => "pending"%string
                      | Some _ => if 0 <? o_ReconcileFailures (row_order r)
                                  then "delayed"%string else "synced"%string
                      end |>.

(** The unique key of a fill: account, exchange, venue order and trade. *)
Definition FillKey : Type := Z * string * string * string.
Record FillRow := mkFillRow {
  fr_OrderID : string;
  fr_Quantity : string;
  fr_Price : string;
  fr_ExecutedAt : option GoTime;
  fr_Fee : option (string * string);
  fr_LiquidityRole : string
}.

Record VenueRefRow := mkVenueRefRow {
  rf_ClientOrderID : option string;
  rf_VenueOrderID : option string;
  rf_Cloid : option string;
  rf_TxHash : option string;
  rf_Nonce : option Z;
  rf_AccountIndex : option Z;
  rf_APIKeyIndex : option Z;
  rf_ClientOrderIndex : option Z;
  rf_LastVenueEventAt : option GoTime;
  rf_ReconcileStatus : option string
}.

Record TwapRow := mkTwapRow {
  tw_job : TwapJob;
  tw_scheduler_lease_until : option GoTime;
  tw_started_at : option GoTime;
  tw_closed_at : option GoTime
}.
#[export] Instance eta_TwapRow : Eta TwapRow := fun r =>
  mkTwapRow (tw_job r) (tw_scheduler_lease_until r) (tw_started_at r) (tw_closed_at r).

(** A [timestamptz] with both infinities. *)
Inductive PgInstant := NegInfinity | At (t : GoTime) | PosInfinity.

(** A combination: the columns under the fields of the Go struct, a numeric
    [NULL] as the empty text, and the columns the struct cannot tell from
    their defaults. *)
Record CombinationRow := mkCombinationRow {
  cb_item : ArbitrageCombination;
  cb_next_retry_at : PgInstant;
  cb_scheduler_lease_until : PgInstant;
  cb_closed_at : option GoTime;
  cb_scheduled_exit_at : option GoTime;
  cb_target_reached_at : option GoTime;
  cb_last_position_reconciled_at : option GoTime;
  cb_venue_baseline_captured_at : option GoTime;
  cb_metrics_calculated_at : option GoTime;
  cb_final_metrics_next_retry_at : PgInstant;
  cb_final_metrics_completed_at : option GoTime
}.
#[export] Instance eta_CombinationRow : Eta CombinationRow := fun r =>
  mkCombinationRow (cb_item r) (cb_next_retry_at r) (cb_scheduler_lease_until r) (cb_closed_at r)
    (cb_scheduled_exit_at r) (cb_target_reached_at r) (cb_last_position_reconciled_at r)
    (cb_venue_baseline_captured_at r) (cb_metrics_calculated_at r) (cb_final_metrics_next_retry_at r)
    (cb_final_metrics_completed_at r).

Record ExecutionRow := mkExecutionRow { ex_item : ArbitrageExecution; ex_closed_at : option GoTime }.
#[export] Instance eta_ExecutionRow : Eta ExecutionRow := fun r => mkExecutionRow (ex_item r) (ex_closed_at r).

(** ** The store *)

Record Store (D : Type) := mkStore {
  st_orders : gmap string OrderRow;
  st_fills : gmap FillKey FillRow;
  st_refs : gmap string VenueRefRow;
  st_twaps : gmap string TwapRow;
  st_executions : gmap string ExecutionRow;
  st_combinations : gmap string CombinationRow;
  st_events : list (string * string);
  st_twapEvents : list (string * string);
  st_arbitrageEvents : list (string * string * string);
  st_tracker : orderFillAverageTracker D
}.
Arguments mkStore {D}.
Arguments st_orders {D}.
Arguments st_fills {D}.
Arguments st_refs {D}.
Arguments st_twaps {D}.
Arguments st_executions {D}.
Arguments st_combinations {D}.
Arguments st_events {D}.
Arguments st_twapEvents {D}.
Arguments st_arbitrageEvents {D}.
Arguments st_tracker {D}.
#[export] Instance eta_Store D : Eta (Store D) := fun s =>
  mkStore (st_orders s) (st_fills s) (st_refs s) (st_twaps s) (st_executions s) (st_combinations s)
    (st_events s) (st_twapEvents s) (st_arbitrageEvents s) (st_tracker s).

(** ** The world *)

(** Where a transaction fails: at its first statement, at a later one, or at
    the commit.  Its tables are unchanged in each case; the tracker of average
    prices is in memory and sees how far it came. *)
Inductive FaultPoint := AtBegin | AtStatement | AtCommit.

Class Env (D : Type) := {
  clock : nat -> GoTime;
  dbClock : nat -> GoTime;
  dbFault : nat -> option (FaultPoint * GoError);
  interfere : nat -> Store D -> Store D;
  newUUID : nat -> string;
  mapScan : nat -> list string
}.

(** The requests that leave the program, for the theorems about them. *)
Inductive VenueCall :=
| CallPlace (account : Z) (request : OrderRequest)
| CallCancel (account : Z) (request : CancelRequest)
| CallBind (account : Z) (venue product clientOrderID venueOrderID : string).

Record World (D : Type) := mkWorld { w_store : Store D; w_tick : nat; w_calls : list VenueCall }.
Arguments mkWorld {D}.
Arguments w_store {D}.
Arguments w_tick {D}.
Arguments w_calls {D}.
#[export] Instance eta_World D : Eta (World D) := fun w => mkWorld (w_store w) (w_tick w) (w_calls w).

Definition M (D A : Type) : Type := World D -> A * World D.
Definition ret {D A} (a : A) : M D A := fun w => (a, w).
Definition bind {D A B} (m : M D A) (k : A -> M D B) : M D B :=
  fun w => let '(a, w') := m w in k a w'.

Notation "'do' x '<-' m ';' k" := (bind m (fun x => k))
  (at level 10, x pattern, m at level 100, k at level 200) : go_scope.
Notation "'run' m ';' k" := (bind m (fun _ => k)) (at level 10, m at level 100, k at level 200) : go_scope.

Section Calls.
Context {D : Type} `{!Env D}.

Definition tick : M D nat := fun w => (w_tick w, w <| w_tick := S (w_tick w) |>).

Definition recordCall (c : VenueCall) : M D unit := fun w => (tt, w <| w_calls := w_calls w ++ [c] |>).

(** [time.Now()]. *)
Definition timeNow : M D GoTime := do n <- tick; ret (clock n).

(** One transaction: [f] gets the tick, the failure to come, if any, and the
    tables; it returns the store it leaves. *)
Definition transact {A} (f : nat -> option (FaultPoint * GoError) -> Store D -> Result A * Store D)
    : M D (Result A) :=
  fun w => let n := w_tick w in
           let '(r, st) := f n (dbFault n) (interfere n (w_store w)) in
           (r, w <| w_store := st |> <| w_tick := S n |>).

(** A transaction that touches tables only: any failure leaves the store. *)
Definition sql {A} (f : GoTime -> Store D -> Result A * Store D) : M D (Result A) :=
  transact (fun n fault st =>
    match fault with
    | Some (_, e) => (Err e, st)
    | None => match f (dbClock n) st with
              | (Err e, _) => (Err e, st)
              | done => done
              end
    end).
End Calls.

(** ** Reasoning about computations

    [holds P m Q]: from a store with [P], the computation [m] ends in a store
    and a result with [Q]; other processes may act at every tick. *)

Section Hoare.
Context {D : Type} `{!Env D}.

Definition holds {A} (P : Store D -> Prop) (m : M D A) (Q : A -> Store D -> Prop) : Prop :=
  forall w, P (w_store w) -> Q (fst (m w)) (w_store (snd (m w))).

Lemma holds_ret {A} (a : A) (P : Store D -> Prop) (Q : A -> Store D -> Prop) :
  (forall st, P st -> Q a st) -> holds P (ret a) Q.
Proof. intros H w HP. by apply H. Qed.

Lemma holds_bind {A B} (m : M D A) (k : A -> M D B) P R Q :
  holds P m R -> (forall a, holds (R a) (k a) Q) -> holds P (bind m k) Q.
Proof.
  intros Hm Hk w HP. unfold bind. pose proof (Hm w HP) as HR. destruct (m w) as [a w']. cbn in *.
  by apply (Hk a w').
Qed.

Lemma holds_weaken {A} (m : M D A) (P P' : Store D -> Prop) (Q Q' : A -> Store D -> Prop) :
  holds P m Q -> (forall st, P' st -> P st) -> (forall a st, Q a st -> Q' a st) -> holds P' m Q'.
Proof. intros H HP HQ w Hw. apply HQ, H, HP, Hw. Qed.

Lemma holds_pre {A} (m : M D A) (P P' : Store D -> Prop) (Q : A -> Store D -> Prop) :
  (forall st, P' st -> P st) -> holds P m Q -> holds P' m Q.
Proof. intros HP H. by eapply holds_weaken; [exact H| |]. Qed.

Lemma holds_tick (P : Store D -> Prop) : holds P tick (fun _ => P).
Proof. by intros w. Qed.

Lemma holds_timeNow (P : Store D -> Prop) : holds P timeNow (fun _ => P).
Proof. by intros w. Qed.

Lemma holds_recordCall (c : VenueCall) (P : Store D -> Prop) : holds P (recordCall c) (fun _ => P).
Proof. by intros w. Qed.

Lemma holds_transact {A} f (P : Store D -> Prop) (Q : Result A -> Store D -> Prop) :
  (forall n st, P st -> P (interfere n st)) ->
  (forall n fault st, P st -> Q (fst (f n fault st)) (snd (f n fault st))) -> holds P (transact f) Q.
Proof.
  intros Hi Hf w HP. unfold transact. specialize (Hf (w_tick w) (dbFault (w_tick w)) _ (Hi (w_tick w) _ HP)).
  destruct (f _ _ _) as [r st]. exact Hf.
Qed.

(** A transaction on tables: it fails and changes nothing, or it is [f]. *)
Lemma holds_sql {A} (f : GoTime -> Store D -> Result A * Store D) (P : Store D -> Prop) (Q : Result A -> Store D -> Prop) :
  (forall n st, P st -> P (interfere n st)) ->
  (forall e st, P st -> Q (Err e) st) ->
  (forall t st a st', P st -> f t st = (Ok a, st') -> Q (Ok a) st') -> holds P (sql f) Q.
Proof.
  intros Hi He Hf. apply holds_transact; [done|]. intros n fault st HP.
  destruct fault as [[? e]|]; cbn; [by apply He|].
  destruct (f (dbClock n) st) as [[a|e] st'] eqn:E; cbn; [by eapply Hf|by apply He].
Qed.

(** The same when the database answers. *)
Lemma holds_sql_nofault {A} (f : GoTime -> Store D -> Result A * Store D) (P : Store D -> Prop) (Q : Result A -> Store D -> Prop) :
  (forall n, dbFault n = None) -> (forall n st, P st -> P (interfere n st)) ->
  (forall t st, P st -> match f t st with (Ok a, st') => Q (Ok a) st' | (Err e, _) => Q (Err e) st end) ->
  holds P (sql f) Q.
Proof.
  intros Hn Hi Hf w HP. unfold sql, transact. rewrite Hn.
  specialize (Hf (dbClock (w_tick w)) _ (Hi (w_tick w) _ HP)). by destruct (f _ _) as [[a|e] st'].
Qed.

(** [keeps I m]: the computation preserves [I], whatever it returns. *)
Definition keeps {A} (I : Store D -> Prop) (m : M D A) : Prop := holds I m (fun _ => I).

Lemma keeps_bind {A B} I (m : M D A) (k : A -> M D B) : keeps I m -> (forall a, keeps I (k a)) -> keeps I (bind m k).
Proof. intros Hm Hk. by eapply holds_bind. Qed.
Lemma keeps_ret {A} I (a : A) : keeps (A := A) I (ret a).
Proof. by apply holds_ret. Qed.
Lemma keeps_sql {A} (I : Store D -> Prop) (f : GoTime -> Store D -> Result A * Store D) :
  (forall n st, I st -> I (interfere n st)) ->
  (forall t st a st', f t st = (Ok a, st') -> I st -> I st') -> keeps I (sql f).
Proof. intros Hi Hf. apply holds_sql; [exact Hi|done|]. intros t st a st' HI Hfs. exact (Hf t st a st' Hfs HI). Qed.
End Hoare.

Create HintDb keeps.
#[export] Hint Resolve keeps_ret holds_tick holds_timeNow holds_recordCall : keeps.
Ltac keeps_step :=
  match goal with
  | |- keeps _ (bind _ _) => apply keeps_bind; [|intros ?]
  | |- keeps _ (match ?x with _ => _ end) => destruct x
  | |- keeps _ (if ?x then _ else _) => destruct x
  | |- _ => solve [eauto with keeps]
  | |- keeps _ tick => apply holds_tick
  | |- keeps _ timeNow => apply holds_timeNow
  | |- keeps _ (recordCall _) => apply holds_recordCall
  end.
Ltac keeps_tac := repeat keeps_step.

(** ** Sums over a table *)

Section Sums.
Local Open Scope Q_scope.

Definition sumQ {A} (f : A -> Q) (l : list A) : Q := foldr (fun x acc => f x + acc) 0 l.

Definition tableSum {A} (f : A -> Q) (m : gmap string A) : Q := sumQ f (map snd (map_to_list m)).

Lemma sumQ_cons {A} (f : A -> Q) (x : A) (l : list A) : sumQ f (x :: l) = f x + sumQ f l.
Proof. reflexivity. Qed.

Lemma sumQ_perm {A} (f : A -> Q) (l l' : list A) : Permutation l l' -> sumQ f l == sumQ f l'.
Proof.
  induction 1 as [|x l l' _ IH|x y l|l l' l'' _ IH1 _ IH2]; cbn;
    [reflexivity|by rewrite IH|ring|by rewrite IH1].
Qed.

Lemma sumQ_le {A} (f g : A -> Q) (l : list A) :
  (forall x, x ∈ l -> f x <= g x) -> sumQ f l <= sumQ g l.
Proof.
  induction l as [|a l IH]; intros H; [apply Qle_refl|]. rewrite !sumQ_cons.
  pose proof (H a ltac:(set_solver)). assert (sumQ f l <= sumQ g l) by (apply IH; set_solver). lra.
Qed.

Lemma tableSum_new {A} (f : A -> Q) (m : gmap string A) k v :
  m !! k = None -> tableSum f (<[k := v]> m) == f v + tableSum f m.
Proof.
  intros H. unfold tableSum.
  pose proof (map_to_list_insert m k v H) as P. apply (Permutation_map snd) in P.
  by rewrite (sumQ_perm f _ _ P).
Qed.

Lemma tableSum_set {A} (f : A -> Q) (m : gmap string A) k v v0 :
  m !! k = Some v0 -> tableSum f (<[k := v]> m) == tableSum f m - f v0 + f v.
Proof.
  intros H. rewrite <- (insert_delete_eq m k v).
  rewrite tableSum_new by apply lookup_delete_eq.
  assert (tableSum f m == f v0 + tableSum f (delete k m)) as ->; [|lra].
  rewrite <- tableSum_new by apply lookup_delete_eq. by rewrite insert_delete_eq, insert_id.
Qed.

Lemma tableSum_le {A} (f g : A -> Q) (m : gmap string A) :
  (forall k v, m !! k = Some v -> f v <= g v) -> tableSum f m <= tableSum g m.
Proof.
  intros H. apply sumQ_le. intros v (kv & -> & Hin)%list_elem_of_fmap.
  destruct kv as [k v]. apply elem_of_map_to_list in Hin. by apply (H k).
Qed.

Lemma tableSum_split {A} (f : A -> Q) (m : gmap string A) k v :
  m !! k = Some v -> tableSum f m == f v + tableSum f (delete k m).
Proof.
  intros H. rewrite <- tableSum_new by apply lookup_delete_eq.
  by rewrite insert_delete_eq, insert_id.
Qed.

Lemma sumQ_nonneg {A} (f : A -> Q) (l : list A) : (forall x, x ∈ l -> 0 <= f x) -> 0 <= sumQ f l.
Proof.
  intros H. assert (sumQ (fun _ => 0) l == 0) as E by (clear H; induction l as [|a l IH]; [reflexivity|rewrite sumQ_cons; lra]).
  rewrite <- E. by apply sumQ_le.
Qed.
End Sums.

(** ** A concrete PostgreSQL

    Columns over [Dec]: the laws of [PostgresLaws] can hold, and witnesses can
    be evaluated. *)

Definition dec_round18 (d : Dec) : Dec :=
  let m := Qfloor (Qabs (dec_val d) * pow10 18 + (1 # 2)) in
  mkDec (if Qle_bool 0 (dec_val d) then m else (- m)%Z) (- 18).

#[export] Instance Dec_Postgres : Postgres Dec := {|
  numericText s :=
    match dec_parse s with
    | Some d => let r := dec_round18 d in
                if Z.abs (coef r) <? 10 ^ 38 then Some (dec_print r) else None
    | None => None
    end;
  numericAny s := match dec_parse s with Some d => Some (dec_print d) | None => None end;
  padScale s := TrimSpace s;
  timestamptz t := 1000 * (t / 1000);
  sqlDivide := dec_div
|}.

Section DecPostgres.
Local Open Scope Q_scope.

Lemma dec_round18_val (d : Dec) : dec_val (dec_round18 d) == qround 18 (dec_val d).
Proof.
  unfold dec_round18, qround; cbv zeta. unfold dec_val at 1; cbn [coef expo].
  assert (pow10 (-18) == / pow10 18) as -> by reflexivity.
  destruct (Qle_bool 0 (dec_val d)); [reflexivity|]. rewrite inject_Z_opp. unfold Qdiv. ring.
Qed.

Lemma dec_round18_small (d : Dec) :
  Qabs (dec_val d) < pow10 20 - 1 -> (Z.abs (coef (dec_round18 d)) < 10 ^ 38)%Z.
Proof.
  intros H.
  assert (Z.abs (coef (dec_round18 d)) = Qfloor (Qabs (dec_val d) * pow10 18 + (1 # 2))) as ->.
  { unfold dec_round18; cbn [coef].
    assert (0 <= Qfloor (Qabs (dec_val d) * pow10 18 + (1 # 2)))%Z.
    { change 0%Z with (Qfloor 0). apply Qfloor_resp_le. pose proof (Qabs_nonneg (dec_val d)).
      pose proof (pow10_pos 18). nra. }
    destruct (Qle_bool 0 (dec_val d)); lia. }
  rewrite Zlt_Qlt. eapply Qle_lt_trans; [apply Qfloor_le|].

  assert (inject_Z (10 ^ 38) == pow10 20 * pow10 18) as -> by reflexivity.
  assert (Qabs (dec_val d) * pow10 18 < (pow10 20 - 1) * pow10 18)
    by (apply Qmult_lt_compat_r; [apply pow10_pos|done]).
  assert (1 < pow10 18) by reflexivity. lra.
Qed.
End DecPostgres.

#[export] Instance Dec_PostgresLaws : PostgresLaws Dec.
Proof.
  constructor; change (@dval Dec Dec_Decimal) with dec_val in *.
  - intros s t. cbn [numericText Dec_Postgres]. destruct (dec_parse s) as [d|] eqn:E; [|done].
    destruct (Z.abs (coef (dec_round18 d)) <? 10 ^ 38); [|done]. intros [= <-].
    split; [exact (dString_TrimSpace (D := Dec) (dec_round18 d))|].
    destruct (dNewFromString_String (dec_round18 d)) as (b & Hb & E').
    exists d, b. split; [done|]. split; [done|].
    change (@dval Dec Dec_Decimal) with dec_val in *. by rewrite E', dec_round18_val.
  - intros s t. cbn [numericAny Dec_Postgres]. destruct (dec_parse s) as [d|] eqn:E; [|done]. intros [= <-].
    split; [exact (dString_TrimSpace (D := Dec) d)|]. destruct (dNewFromString_String (D := Dec) d) as (b & Hb & E').
    exists d, b. by split_and!.
  - intros a H. cbn [numericText Dec_Postgres dString Dec_Decimal].
    destruct (dNewFromString_String (D := Dec) a) as (d & Hd & E).
    cbn [dNewFromString dString Dec_Decimal] in Hd. rewrite Hd.
    change (@dval Dec Dec_Decimal) with dec_val in *.
    assert (Z.abs (coef (dec_round18 d)) < 10 ^ 38) as ->%Z.ltb_lt; [|eauto].
    apply dec_round18_small. by rewrite E.
  - intros s a. cbn [padScale Dec_Postgres dNewFromString Dec_Decimal]. intros H.
    assert (TrimSpace s = s) as E.
    { unfold dec_parse in H. destruct (parse_numeral s) as [[m k]|] eqn:P; [|done].
      apply (numeral_TrimSpace s (inject_Z m * pow10 (- k))). unfold numeral_value. by rewrite P. }
    rewrite !E. split; [done|]. exists a. by split.
  - intros t. cbn [timestamptz Dec_Postgres]. pose proof (Z.div_mod t 1000).
    pose proof (Z.mod_pos_bound t 1000). lia.
Qed.
