(* ===== verification/OrderStore.v ===== *)
(** * The order repository (repository.go)

    Reports about an order arrive from the command that placed it, from the
    reconciler and from websocket streams, late, repeated and out of order.
    [mergeOrderUpdate] merges one report into the stored order and
    [applyOrderUpdate] is the transaction around it: fills deduplicated by
    their unique key, the order row, the venue references, the average price
    tracker, and the progress of the TWAP the order belongs to.  The other
    operations of the repository on orders follow. *)
From Stdlib Require Import ZArith QArith Qabs Qround Qminmax Lqa String.
From stdpp Require Import base strings list gmap sorting.
From S2P Require Import Prelude Decimal DecimalRef Types Quantity Validate ArbMath Resolution FillAverage Store.

#[local] Set Warnings "-clear-no-such-hyp".

Definition maxOrderReconcileFailures : Z := 10.
Definition maxOrderReconcileUncertainAge : Duration := 5 * Minute.
Definition orderFillAverageTerminalTTL : Duration := 10 * Minute.

Definition errNotFound : GoError := mkError [ErrNotFound] "not found".
Definition errPlain (text : string) : GoError := mkError [ErrOther] text.

(** ** Merging a report into an order *)

Definition truncateMessage (value : string) : string :=
  let value := TrimSpace value in
  if Nat.ltb 500 (String.length value) then String.substring 0 500 value else value.

(** January 1 of year 2000, UTC: the first instant whose [Year()] is 2000. *)
Definition year2000 : GoTime := 946684800 * Second.

Definition hasVenueEventWatermark (at_ : GoTime) : bool := negb (IsZeroTime at_) && (year2000 <=? at_).

Definition venueReferencePresent (ref : VenueReference) : bool :=
  negb (TrimSpace (vr_ClientOrderID ref) =?s "") || negb (TrimSpace (vr_VenueOrderID ref) =?s "") ||
  negb (TrimSpace (vr_Cloid ref) =?s "") || negb (TrimSpace (vr_TxHash ref) =?s "") ||
  negb (vr_Nonce ref =? 0) || negb (vr_AccountIndex ref =? 0) || negb (vr_APIKeyIndex ref =? 0) ||
  negb (vr_ClientOrderIndex ref =? 0) || negb (IsZeroTime (vr_EventAt ref)) ||
  negb (TrimSpace (vr_ReconcileStatus ref) =?s "").

Definition orderStatuses : list string :=
  ["pending"; "unknown"; "open"; "partially_filled"; "filled"; "canceled"; "rejected"; "expired"]%string.

Definition validOrderStatus (s : string) : bool := existsb (String.eqb s) orderStatuses.

(** A key that is not in the [rank] map reads as zero. *)
Definition statusRank (s : string) : Z :=
  if s =?s "pending" then 1 else if s =?s "open" then 2 else if s =?s "partially_filled" then 3 else 0.

Section Merge.
Context {D : Type} `{!Decimal D}.
Local Open Scope dec_scope.

Definition mergeOrderStatus (current incoming : string) (filled quantity : D) : Result string :=
  if dIsPositive quantity && (filled >=? quantity) then Ok "filled"%string
  else if negb (validOrderStatus current)
  then Err (errPlain (String.append "invalid stored order status " (quoted current)))
  else if (current =?s "filled") || terminalStatus current then Ok current
  else if incoming =?s ""
  then Ok (if dIsPositive filled then "partially_filled" else current)%string
  else if negb (validOrderStatus incoming)
  then Err (invalidArgument ["invalid order status "; quoted incoming])
  else if terminalStatus incoming then Ok incoming
  else if (statusRank incoming <? statusRank current)%Z then Ok current
  else if dIsPositive filled && negb (incoming =?s "filled") then Ok "partially_filled"%string
  else Ok incoming.

(** A text that must be a number that is not negative. *)
Definition parseNonNegative (text : string) (e : GoError) : Result D :=
  match dNewFromString text with
  | None => Err e
  | Some d => if dIsNegative d then Err e else Ok d
  end.

Definition parseStored (text what : string) : Result D :=
  match dNewFromString text with
  | None => Err (errPlain (String.append "parse stored " what))
  | Some d => Ok d
  end.

Definition errCumulative : GoError := invalidArgument ["invalid cumulative filled quantity"].
Definition errAverage : GoError := invalidArgument ["invalid average price"].

(** The venue order identifier is learnt once. *)
Definition bindVenueOrderID (current : Order) (result : VenueResult) : Order :=
  if (o_VenueOrderID current =?s "") && negb (TrimSpace (r_VenueOrderID result) =?s "")
  then current <| o_VenueOrderID := TrimSpace (r_VenueOrderID result) |> else current.

(** Fills without a cumulative quantity: the sums of the loop. *)
Definition addFills (filled notional : D) (fills : list OrderFill) : D * D :=
  fold_left (fun '(filled, notional) f =>
    let quantity := default dZero (dNewFromString (of_Quantity f)) in
    let price := default dZero (dNewFromString (of_Price f)) in
    (filled + quantity, notional + quantity * price)) fills (filled, notional).

(** The branch of a local command acknowledgement on an order for which the
    venue has already reported an event. *)
Definition mergeLocalAck (current : Order) (result : VenueResult) : Result Order :=
  let merged := bindVenueOrderID current result in
  let? oldFilled := parseStored (o_FilledQuantity current) "filled quantity" in
  let incomingFilled := TrimSpace (r_FilledQuantity result) in
  if incomingFilled =?s "" then Ok merged
  else
    let? candidate := parseNonNegative incomingFilled errCumulative in
    if negb (candidate >? oldFilled) then Ok merged
    else if TrimSpace (r_AveragePrice result) =?s "" then Ok merged
    else
      let? average := parseNonNegative (TrimSpace (r_AveragePrice result)) errAverage in
      Ok (merged <| o_FilledQuantity := dString candidate |> <| o_AveragePrice := dString average |>).

(** The filled quantity and average price a fresh or late report leads to. *)
Definition mergeFilled (oldFilled oldAverage : D) (result : VenueResult) (fresh : bool)
    (insertedFills : list OrderFill) : Result (D * D) :=
  let incomingFilled := TrimSpace (r_FilledQuantity result) in
  let price := TrimSpace (r_AveragePrice result) in
  if negb (incomingFilled =?s "") then
    let? candidate := parseNonNegative incomingFilled errCumulative in
    if candidate >? oldFilled then
      if negb (price =?s "")
      then let? average := parseNonNegative price errAverage in Ok (candidate, average)
      else Ok (candidate, oldAverage)
    else if (candidate =? oldFilled) && fresh && negb (price =?s "")
    then let? average := parseNonNegative price errAverage in Ok (oldFilled, average)
    else Ok (oldFilled, oldAverage)
  else match insertedFills with
       | [] => Ok (oldFilled, oldAverage)
       | _ =>
           let '(filled, notional) := addFills oldFilled (oldFilled * oldAverage) insertedFills in
           Ok (filled, if dIsPositive filled then notional / filled else oldAverage)
       end.

Definition mergeOrderUpdate (current : Order) (result : VenueResult) (eventAt : GoTime)
    (insertedFills : list OrderFill) (skipVenueWatermark : bool) : Result Order :=
  let lastEventAt := o_LastVenueEventAt current in
  if r_LocalCommandAck result && hasVenueEventWatermark lastEventAt then mergeLocalAck current result
  else if skipVenueWatermark then Ok (bindVenueOrderID current result)
  else
    let fresh := IsZeroTime lastEventAt || IsZeroTime eventAt || negb (TimeBefore eventAt lastEventAt) in
    let merged := bindVenueOrderID current result in
    let? oldFilled := parseStored (o_FilledQuantity current) "filled quantity" in
    let? quantity := parseStored (o_Quantity current) "order quantity" in
    let? oldAverage := parseStored (o_AveragePrice current) "average price" in
    let? (filled, average) := mergeFilled oldFilled oldAverage result fresh insertedFills in
    let filled := if dIsPositive quantity && (filled >=? quantity) then quantity else filled in
    let incomingStatus := if fresh then TrimSpace (r_Status result) else ""%string in
    let? status := mergeOrderStatus (o_Status current) incomingStatus filled quantity in
    let merged := merged <| o_FilledQuantity := dString filled |> <| o_AveragePrice := dString average |>
                    <| o_Status := status |> in
    Ok (if fresh
        then merged <| o_ErrorCode := r_ErrorCode result |>
               <| o_ErrorMessage := truncateMessage (r_ErrorMessage result) |>
        else merged).
End Merge.

(** ** The transaction around a merge *)

Section Apply.
Context {D : Type} `{!Decimal D} `{!Postgres D} `{!Env D}.
Local Open Scope dec_scope.

(** One pass of the loop over the fills: [None] when the fill is skipped, the
    normalised fill otherwise. *)
Definition checkFill (exchange venueOrderID : string) (f : OrderFill) : Result (option OrderFill) :=
  let f := f <| of_TradeID := TrimSpace (of_TradeID f) |> <| of_Quantity := TrimSpace (of_Quantity f) |>
             <| of_Price := TrimSpace (of_Price f) |> in
  if (of_TradeID f =?s "") || (venueOrderID =?s "")
  then Err (invalidArgument ["fill trade and venue order IDs are required"])
  else match dNewFromString (D := D) (of_Quantity f) with
  | None => Err (invalidArgument ["invalid fill quantity"])
  | Some quantity =>
      if negb (dIsPositive quantity) then Err (invalidArgument ["invalid fill quantity"])
      else
        let f := if of_Price f =?s "" then f <| of_Price := "0" |> else f in
        match dNewFromString (D := D) (of_Price f) with
        | None => Err (invalidArgument ["invalid fill price"])
        | Some price =>
            if dIsNegative price then Err (invalidArgument ["invalid fill price"])
            else if EqualFold exchange "hyperliquid" && negb (dIsPositive price) then Ok None
            else Ok (Some f)
        end
  end.

(** [INSERT INTO trader_order_fills ... ON CONFLICT DO NOTHING]: whether the row
    was inserted; the columns are numerics and the quantity must be positive. *)
Definition insertFill (table : gmap FillKey FillRow) (current : Order) (venueOrderID : string) (f : OrderFill)
    : Result (bool * gmap FillKey FillRow) :=
  let key := (o_TradingAccountID current, o_Exchange current, venueOrderID, of_TradeID f) in
  match table !! key with
  | Some _ => Ok (false, table)
  | None =>
      match dNewFromString (D := D) (of_Quantity f), dNewFromString (D := D) (of_Price f) with
      | Some quantity, Some price =>
          match numericText (D := D) (dString quantity), numericText (D := D) (dString price) with
          | Some q, Some p =>
              if dIsPositive (parseDecimal (D := D) q) then
                let '(fee, role) := normalizeStoredFillFee (D := D) f in
                let executedAt := if IsZeroTime (of_ExecutedAt f) then None
                                  else Some (timestamptz (D := D) (of_ExecutedAt f)) in
                Ok (true, <[key := mkFillRow (o_ID current) q p executedAt fee role]> table)
              else Err (errPlain "insert trader order fill: check constraint")
          | _, _ => Err (errPlain "insert trader order fill: numeric field overflow")
          end
      | _, _ => Err (errPlain "insert trader order fill: invalid input syntax")
      end
  end.

Fixpoint insertFills (table : gmap FillKey FillRow) (current : Order) (venueOrderID : string)
    (fills : list OrderFill) : Result (list OrderFill * gmap FillKey FillRow) :=
  match fills with
  | [] => Ok ([], table)
  | f :: rest =>
      let? checked := checkFill (o_Exchange current) venueOrderID f in
      match checked with
      | None => insertFills table current venueOrderID rest
      | Some f =>
          let? (inserted, table) := insertFill table current venueOrderID f in
          let? (insertedRest, table) := insertFills table current venueOrderID rest in
          Ok (if inserted then f :: insertedRest else insertedRest, table)
      end
  end.

Definition openStatus (s : string) : bool :=
  existsb (String.eqb s) ["pending"; "open"; "partially_filled"; "unknown"]%string.

(** [GREATEST(COALESCE(column,'-infinity'),$n)], the column kept when [$n] is NULL. *)
Definition greatest (column : option GoTime) (v : option GoTime) : option GoTime :=
  match v with
  | None => column
  | Some v => Some (match column with Some c => Z.max c v | None => v end)
  end.

(** The [UPDATE trader_orders] of the transaction. *)
Definition writeMerged (dbnow : GoTime) (row : OrderRow) (merged : Order) (stream authoritativeTerminal : bool)
    (streamEventAt venueEventAt : option GoTime) : Result OrderRow :=
  match numericText (D := D) (o_FilledQuantity merged), numericText (D := D) (o_AveragePrice merged) with
  | Some filled, Some average =>
      let old := row_order row in
      let failures := if authoritativeTerminal then 0%Z
                      else if stream then o_ReconcileFailures old else 0%Z in
      Ok (mkOrderRow
        (old <| o_VenueOrderID := o_VenueOrderID merged |> <| o_Status := o_Status merged |>
             <| o_FilledQuantity := filled |> <| o_AveragePrice := average |>
             <| o_ErrorCode := o_ErrorCode merged |> <| o_ErrorMessage := o_ErrorMessage merged |>
             <| o_UpdatedAt := dbnow |> <| o_ReconcileFailures := failures |>
             <| o_AbsenceConfirmations := 0%Z |>)
        (if stream then row_last_reconciled_at row else Some dbnow)
        (greatest (row_last_stream_event_at row) streamEventAt)
        (greatest (row_last_venue_event_at row) venueEventAt)
        (if authoritativeTerminal then None
         else if stream then row_reconcile_lease_until row else None)
        (if authoritativeTerminal then PgInfinity
         else if terminalStatus (o_Status merged) then row_next_reconcile_at row
         else if existsb (String.eqb (o_Status merged)) ["pending"; "unknown"; "partially_filled"]%string
         then PgAt (TimeAdd dbnow (2 * Second)%Z) else PgAt (TimeAdd dbnow (5 * Second)%Z)))
  | _, _ => Err (errPlain "merge trader order: numeric field overflow")
  end.

Definition nullIf (s : string) : option string := if s =?s "" then None else Some s.
Definition coalesce {A} (a b : option A) : option A := match a with Some _ => a | None => b end.

Definition emptyVenueRefRow : VenueRefRow :=
  mkVenueRefRow None None None None None None None None None None.

(** The upsert of the venue references: a column keeps its value unless the
    report carries a new one. *)
Definition upsertVenueRef (old : VenueRefRow) (ref : VenueReference) (refEventAt : option GoTime) : VenueRefRow :=
  let indexed (v : Z) := if negb (vr_ClientOrderIndex ref =? 0)%Z then Some v else None in
  mkVenueRefRow
    (coalesce (nullIf (vr_ClientOrderID ref)) (rf_ClientOrderID old))
    (coalesce (nullIf (vr_VenueOrderID ref)) (rf_VenueOrderID old))
    (coalesce (nullIf (vr_Cloid ref)) (rf_Cloid old))
    (coalesce (nullIf (vr_TxHash ref)) (rf_TxHash old))
    (coalesce (indexed (vr_Nonce ref)) (rf_Nonce old))
    (coalesce (indexed (vr_AccountIndex ref)) (rf_AccountIndex old))
    (coalesce (indexed (vr_APIKeyIndex ref)) (rf_APIKeyIndex old))
    (coalesce (indexed (vr_ClientOrderIndex ref)) (rf_ClientOrderIndex old))
    (coalesce refEventAt (rf_LastVenueEventAt old))
    (coalesce (nullIf (vr_ReconcileStatus ref)) (rf_ReconcileStatus old)).

Definition writeVenueRef (refs : gmap string VenueRefRow) (orderID : string) (current merged : Order)
    (result : VenueResult) (eventAt : GoTime) (skipVenueWatermark : bool) : gmap string VenueRefRow :=
  if negb (venueReferencePresent (r_Reference result)) then refs
  else
    let ref := r_Reference result in
    let ref := if vr_VenueOrderID ref =?s "" then ref <| vr_VenueOrderID := o_VenueOrderID merged |> else ref in
    let ref := if r_LocalCommandAck result && negb (IsZeroTime (o_LastVenueEventAt current))
               then ref <| vr_ReconcileStatus := ""%string |> else ref in
    let ours := negb (r_LocalCommandAck result) && negb skipVenueWatermark in
    let ref := if IsZeroTime (vr_EventAt ref) && ours then ref <| vr_EventAt := eventAt |> else ref in
    let refEventAt := if ours && negb (IsZeroTime (vr_EventAt ref))
                      then Some (timestamptz (D := D) (vr_EventAt ref)) else None in
    <[orderID := upsertVenueRef (default emptyVenueRefRow (refs !! orderID)) ref refEventAt]> refs.

(** The tracker's part of the transaction: the tracker with the prepared
    state, the pending change and the average to write. *)
Definition prepareAverage (t : orderFillAverageTracker D) (h : orderFillAverageHandle) (current merged : Order)
    (stream skipVenueWatermark : bool) (fills inserted : list OrderFill) (now : GoTime)
    : orderFillAverageTracker D * orderFillAveragePending D * option string :=
  let authoritative := if stream && negb skipVenueWatermark
                       then o_FilledQuantity merged else o_FilledQuantity current in
  let s := default emptyFillState (tr_heap t !! h_state h) in
  let '(s', pending, average) :=
    Prepare s (h_orderID h) current (o_Status merged) authoritative fills inserted now in
  (updateState t h (fun _ => s'), pending, average).

(** What the transaction is to write. *)
Record UpdatePlan := mkUpdatePlan {
  up_row : OrderRow;
  up_fills : gmap FillKey FillRow;
  up_refs : gmap string VenueRefRow;
  up_changed : bool;
  up_pending : option (orderFillAveragePending D);
  up_terminal : bool
}.

(** The statements between the lock of the order row and the commit: fills,
    merge, average price, order row and references.  The tracker comes out
    prepared whether or not the statements succeed. *)
Definition planUpdate (orderID : string) (result : VenueResult) (eventAt receivedAt : GoTime)
    (stream : bool) (fills : list OrderFill) (skipVenueWatermark : bool)
    (n : nat) (fault : option (FaultPoint * GoError)) (st : Store D) (row : OrderRow) (track : bool)
    (h : orderFillAverageHandle) (t : orderFillAverageTracker D) : orderFillAverageTracker D * Result UpdatePlan :=
  let current := scanOrder row in
  let venueOrderID := if o_VenueOrderID current =?s "" then TrimSpace (r_VenueOrderID result)
                      else o_VenueOrderID current in
  match fault, insertFills (st_fills st) current venueOrderID fills with
  | Some (AtStatement, e), _ => (t, Err e)
  | _, Err e => (t, Err e)
  | _, Ok (insertedFills, fillTable) =>
      match mergeOrderUpdate (D := D) current result eventAt insertedFills skipVenueWatermark with
      | Err e => (t, Err e)
      | Ok merged =>
          let authoritativeTerminal := isAuthoritativeTerminalResult result stream (o_Status merged) in
          let '(t, pending, average) :=
            if track then
              let '(t, p, a) := prepareAverage t h current merged stream skipVenueWatermark
                                  fills insertedFills (clock n) in (t, Some p, a)
            else (t, None, None) in
          let merged := match average with Some a => merged <| o_AveragePrice := a |> | None => merged end in
          let changed := negb (parseDecimal (D := D) (o_FilledQuantity current) =?
                               parseDecimal (o_FilledQuantity merged)) in
          let streamEventAt := if stream then Some (timestamptz (D := D) receivedAt) else None in
          let venueEventAt := if negb (r_LocalCommandAck result) && negb skipVenueWatermark
                              then Some (timestamptz (D := D) eventAt) else None in
          (t, let? row' := writeMerged (dbClock n) row merged stream authoritativeTerminal
                             streamEventAt venueEventAt in
              match fault with
              | Some (_, e) => Err e
              | None => Ok (mkUpdatePlan row' fillTable
                         (writeVenueRef (st_refs st) orderID current merged result eventAt skipVenueWatermark)
                         changed pending (terminalStatus (o_Status merged)))
              end)
      end
  end.

Definition applyTransaction (orderID : string) (result : VenueResult) (eventAt receivedAt : GoTime)
    (stream : bool) (fills : list OrderFill) (skipVenueWatermark : bool)
    (n : nat) (fault : option (FaultPoint * GoError)) (st : Store D) : Result (Order * bool) * Store D :=
  match fault, st_orders st !! orderID with
  | Some (AtBegin, e), _ => (Err e, st)
  | _, None => (Err errNotFound, st)
  | _, Some row =>
      let track := hyperliquidArbitrageFillAverageEnabled (scanOrder row) in
      let '(h, t) := if track then Acquire (st_tracker st) (o_ID (scanOrder row)) (mapScan n) (clock n)
                     else (mkHandle "" 0, st_tracker st) in
      let release t mark expiry := if track then Release t h mark expiry (clock n) else t in
      let '(t, plan) := planUpdate orderID result eventAt receivedAt stream fills skipVenueWatermark
                          n fault st row track h t in
      match plan with
      | Err e => (Err e, st <| st_tracker := release t false zeroTime |>)
      | Ok p =>
          let t := match up_pending p with Some pd => updateState t h (fun s => Commit s pd) | None => t end in
          let expiry := if up_terminal p then TimeAdd (clock n) orderFillAverageTerminalTTL else zeroTime in
          (Ok (scanOrder (up_row p), up_changed p),
           st <| st_orders := <[orderID := up_row p]> (st_orders st) |> <| st_fills := up_fills p |>
              <| st_refs := up_refs p |> <| st_tracker := release t (up_terminal p) expiry |>)
      end
  end.

(** ** Progress of a TWAP (twap_repository.go) *)

Definition scanTwap (r : TwapRow) : TwapJob :=
  let j := tw_job r in
  let optional (s : string) := if s =?s "" then ""%string else padScale (D := D) s in
  j <| t_TotalQuantity := padScale (D := D) (t_TotalQuantity j) |>
    <| t_FilledQuantity := padScale (D := D) (t_FilledQuantity j) |>
    <| t_AveragePrice := padScale (D := D) (t_AveragePrice j) |>
    <| t_LimitPrice := optional (t_LimitPrice j) |> <| t_MaxQuantity := optional (t_MaxQuantity j) |>
    <| t_SchedulerLeaseUntil := orEpoch (tw_scheduler_lease_until r) |>
    <| t_StartedAt := orEpoch (tw_started_at r) |> <| t_ClosedAt := orEpoch (tw_closed_at r) |>.

(** The rows of one TWAP. *)
Definition twapOrders (st : Store D) (jobID : string) : list OrderRow :=
  List.filter (fun r => o_TwapJobID (row_order r) =?s jobID) (map snd (map_to_list (st_orders st))).

Definition sqlSum (f : OrderRow -> D) (rows : list OrderRow) : D := foldr (fun r acc => f r + acc) dZero rows.
Definition filledColumn (r : OrderRow) : D := parseDecimal (o_FilledQuantity (row_order r)).
Definition averageColumn (r : OrderRow) : D := parseDecimal (o_AveragePrice (row_order r)).

Definition refreshTransaction (id : string) (dbnow : GoTime) (st : Store D) : Result TwapJob * Store D :=
  match st_twaps st !! id with
  | None => (Err errNotFound, st)
  | Some row =>
      let rows := twapOrders st id in
      let filled := sqlSum filledColumn rows in
      let average := if dIsPositive filled
                     then sqlDivide (sqlSum (fun r => filledColumn r * averageColumn r) rows) filled
                     else dZero in
      let least := dMin (parseDecimal (t_TotalQuantity (tw_job row))) filled in
      match numericText (D := D) (dString least), numericText (D := D) (dString average) with
      | Some f, Some a =>
          let row' := row <| tw_job := (tw_job row) <| t_FilledQuantity := f |> <| t_AveragePrice := a |>
                                <| t_UpdatedAt := dbnow |> |> in
          (Ok (scanTwap row'), st <| st_twaps := <[id := row']> (st_twaps st) |>)
      | _, _ => (Err (errPlain "refresh twap progress: numeric field overflow"), st)
      end
  end.

Definition RefreshTwapProgress (id : string) : M D (Result TwapJob) := sql (refreshTransaction id).

(** An error of the refresh is returned with the updated order in Go; every
    caller looks at the error first. *)
Definition applyOrderUpdate (orderID : string) (result : VenueResult) (eventAt receivedAt : GoTime)
    (stream : bool) (fills : list OrderFill) (skipVenueWatermark : bool) : M D (Result (Order * bool)) :=
  do r <- transact (applyTransaction orderID result eventAt receivedAt stream fills skipVenueWatermark);
  match r with
  | Err e => ret (Err e)
  | Ok (updated, changed) =>
      if o_TwapJobID updated =?s "" then ret (Ok (updated, changed))
      else do refreshed <- RefreshTwapProgress (o_TwapJobID updated);
           ret (match refreshed with Err e => Err e | Ok _ => Ok (updated, changed) end)
  end.

Definition UpdateResultWithFillDelta (orderID : string) (result : VenueResult) : M D (Result (Order * bool)) :=
  let eventAt := vr_EventAt (r_Reference result) in
  do eventAt <- (if IsZeroTime eventAt && negb (r_LocalCommandAck result) then timeNow else ret eventAt);
  applyOrderUpdate orderID result eventAt zeroTime false [] false.

Definition UpdateResult (orderID : string) (result : VenueResult) : M D (Result Order) :=
  do r <- UpdateResultWithFillDelta orderID result;
  ret (match r with Err e => Err e | Ok (updated, _) => Ok updated end).

Definition ApplyStreamUpdate (orderID : string) (update : StreamUpdate) : M D (Result Order) :=
  do eventAt <- (if IsZeroTime (su_EventAt update) then timeNow else ret (su_EventAt update));
  do receivedAt <- (if IsZeroTime (su_ReceivedAt update) then timeNow else ret (su_ReceivedAt update));
  do r <- applyOrderUpdate orderID (su_Result update) eventAt receivedAt true (su_Fills update)
            (su_SkipVenueWatermark update);
  ret (match r with Err e => Err e | Ok (updated, _) => Ok updated end).

(** ** The other operations on orders *)

Definition findOrder (P : Order -> bool) (m : gmap string OrderRow) : option OrderRow :=
  List.find (fun r => P (row_order r)) (map snd (map_to_list m)).

(** [NULLIF($n,'')::numeric]: the outer option is the failure of the cast. *)
Definition nullableNumeric (s : string) : option string :=
  if s =?s "" then Some ""%string else numericText (D := D) s.

(** The columns of a new order: the arguments, the defaults of the table and
    the statement's [status]. *)
Definition newOrderRow (order : Order) (quantity price : string) (dbnow : GoTime) : OrderRow :=
  mkOrderRow
    (order <| o_VenueOrderID := ""%string |> <| o_Quantity := quantity |> <| o_Price := price |>
           <| o_FilledQuantity := "0"%string |> <| o_AveragePrice := "0"%string |>
           <| o_Status := "pending"%string |> <| o_ErrorCode := ""%string |> <| o_ErrorMessage := ""%string |>
           <| o_CreatedAt := dbnow |> <| o_UpdatedAt := dbnow |> <| o_ReconcileFailures := 0%Z |>
           <| o_AbsenceConfirmations := 0%Z |> <| o_LastFilledAt := zeroTime |> <| o_ActualFees := [] |>
           <| o_LiquidityRole := ""%string |>)
    None None None None (PgAt dbnow).

(** The insertion, with the unique constraints on [id] and [client_order_id]. *)
Definition insertOrder (order : Order) (dbnow : GoTime) (st : Store D) : Result OrderRow :=
  match st_orders st !! o_ID order,
        findOrder (fun o => o_ClientOrderID o =?s o_ClientOrderID order) (st_orders st) with
  | None, None =>
      match numericText (D := D) (o_Quantity order), nullableNumeric (o_Price order) with
      | Some q, Some p => Ok (newOrderRow order q p dbnow)
      | _, _ => Err (errPlain "numeric field overflow")
      end
  | _, _ => Err (errPlain "duplicate key value violates unique constraint")
  end.

Definition byIdempotency (key : string) (st : Store D) : option OrderRow :=
  findOrder (fun o => o_IdempotencyKey o =?s key) (st_orders st).

Definition getOrder (P : Order -> bool) : M D (Result Order) :=
  sql (fun _ st => (match findOrder P (st_orders st) with
                    | Some row => Ok (scanOrder row)
                    | None => Err errNotFound
                    end, st)).

Definition GetByOwner (owner orderID : string) : M D (Result Order) :=
  sql (fun _ st => (match st_orders st !! orderID with
                    | Some row => if o_OwnerUsername (row_order row) =?s owner
                                  then Ok (scanOrder row) else Err errNotFound
                    | None => Err errNotFound
                    end, st)).

(** The foreign key of an event requires its order. *)
Definition AppendEvent (orderID eventType : string) : M D (Result unit) :=
  sql (fun _ st => match st_orders st !! orderID with
                   | Some _ => (Ok tt, st <| st_events := st_events st ++ [(orderID, eventType)] |>)
                   | None => (Err (errPlain "append trader order event: foreign key"), st)
                   end).

(** ["sq"] and the first sixteen characters of a UUID without its dashes. *)
Definition removeDashes (s : string) : string :=
  string_of_list_ascii (List.filter (fun c => negb (Ascii.eqb c (Ascii.ascii_of_nat 45))) (list_ascii_of_string s)).
Definition clientOrderID (uuid : string) : string :=
  String.append "sq" (String.substring 0 16 (removeDashes uuid)).

Definition createIntentTransaction (order : Order) (dbnow : GoTime) (st : Store D)
    : Result (option Order) * Store D :=
  match byIdempotency (o_IdempotencyKey order) st with
  | Some _ => (Ok None, st)
  | None =>
      let order := order <| o_TwapJobID := ""%string |> <| o_TwapSliceIndex := 0%Z |>
                         <| o_TwapAttemptIndex := 0%Z |> in
      match insertOrder order dbnow st with
      | Err e => (Err e, st)
      | Ok row => (Ok (Some (scanOrder row)),
                   st <| st_orders := <[o_ID order := row]> (st_orders st) |>)
      end
  end.

Definition CreateIntent (order : Order) : M D (Result (Order * bool)) :=
  do n <- tick;
  let order := if o_ID order =?s "" then order <| o_ID := newUUID n |> else order in
  do m <- tick;
  let order := if o_ClientOrderID order =?s ""
               then order <| o_ClientOrderID := clientOrderID (newUUID m) |> else order in
  do r <- sql (createIntentTransaction order);
  match r with
  | Err e => ret (Err e)
  | Ok None =>
      do existing <- getOrder (fun o => o_IdempotencyKey o =?s o_IdempotencyKey order);
      ret (match existing with Err e => Err e | Ok o => Ok (o, false) end)
  | Ok (Some result) =>
      do event <- AppendEvent (o_ID result) "intent";
      ret (match event with Err e => Err e | Ok _ => Ok (result, true) end)
  end.

(** An [UPDATE] that finds no row does nothing. *)
Definition deferTransaction (orderID : string) (next : GoTime) (dbnow : GoTime) (st : Store D)
    : Result unit * Store D :=
  (Ok tt, st <| st_orders := alter (fun row =>
     row <| row_next_reconcile_at := PgAt (timestamptz (D := D) next) |>
         <| row_reconcile_lease_until := None |>) orderID (st_orders st) |>).

Definition DeferReconcile (orderID : string) (next : GoTime) : M D (Result unit) :=
  sql (deferTransaction orderID next).

Definition failReconcile (next dbnow : GoTime) (row : OrderRow) : OrderRow :=
  row <| row_order := (row_order row) <| o_ReconcileFailures := (o_ReconcileFailures (row_order row) + 1)%Z |>
                        <| o_AbsenceConfirmations := 0%Z |> |>
      <| row_reconcile_lease_until := None |> <| row_next_reconcile_at := PgAt next |>
      <| row_last_reconciled_at := Some dbnow |>.

(** The common table expressions of [MarkReconcileFailure]: the failed order
    makes its combination uncertain after enough failures or time. *)
Definition markFailureTransaction (orderID : string) (next dbnow : GoTime) (st : Store D)
    : Result unit * Store D :=
  match st_orders st !! orderID with
  | None => (Ok tt, st)
  | Some row =>
      if negb (openStatus (o_Status (row_order row))) then (Ok tt, st)
      else
        let row' := failReconcile (timestamptz (D := D) next) dbnow row in
        let st := st <| st_orders := <[orderID := row']> (st_orders st) |> in
        let o := row_order row' in
        let uncertain := (maxOrderReconcileFailures <=? o_ReconcileFailures o)%Z ||
                         (maxOrderReconcileUncertainAge <=? dbnow - o_CreatedAt o)%Z in
        match st_executions st !! o_ArbitrageExecutionID o with
        | Some x =>
            let id := x_CombinationID (ex_item x) in
            match st_combinations st !! id with
            | Some cr =>
                let c := cb_item cr in
                if uncertain && ((c_Status c =?s "running") || (c_Status c =?s "closing"))
                then (Ok tt, st <| st_combinations := <[id := cr <| cb_item :=
                        (c <| c_PositionUncertain := true |> <| c_RuntimeState := "position_uncertain"%string |>
                           <| c_ErrorMessage := arbitrageOrderReconcileError |> <| c_UpdatedAt := dbnow |>
                           <| c_Version := (c_Version c + 1)%Z |>) |>]> (st_combinations st) |>)
                else (Ok tt, st)
            | None => (Ok tt, st)
            end
        | None => (Ok tt, st)
        end
  end.

Definition MarkReconcileFailure (orderID : string) (next : GoTime) : M D (Result unit) :=
  sql (markFailureTransaction orderID next).

(** The row [ConfirmOrderAbsence] writes. *)
Definition absentRow (next dbnow : GoTime) (row : OrderRow) : OrderRow :=
  let o := row_order row in
  let count := (o_AbsenceConfirmations o + 1)%Z in
  let reached := (confirmedAbsentRejectAfter <=? count)%Z in
  let o' := o <| o_AbsenceConfirmations := count |> <| o_UpdatedAt := dbnow |> in
  let o' := if reached
            then o' <| o_Status := "rejected"%string |> <| o_ErrorCode := errorConfirmedAbsentAfterUncertainSubmit |>
                    <| o_ErrorMessage := "venue confirmed the order was never accepted"%string |>
                    <| o_FilledQuantity := "0"%string |> <| o_ReconcileFailures := 0%Z |>
            else o' in
  row <| row_order := o' |> <| row_reconcile_lease_until := None |> <| row_last_reconciled_at := Some dbnow |>
      <| row_next_reconcile_at := if reached then PgInfinity else PgAt next |>.

Definition absenceCondition (st : Store D) (orderID : string) (expectedUpdatedAt : GoTime) (row : OrderRow) : bool :=
  let o := row_order row in
  TimeEqual (o_UpdatedAt o) expectedUpdatedAt && (o_VenueOrderID o =?s "") &&
  dIsZero (parseDecimal (D := D) (o_FilledQuantity o)) && openStatus (o_Status o) &&
  forallb (fun kv => negb (fr_OrderID (snd kv) =?s orderID)) (map_to_list (st_fills st)).

Definition confirmTransaction (orderID : string) (expectedUpdatedAt next dbnow : GoTime) (st : Store D)
    : Result (option Order) * Store D :=
  match st_orders st !! orderID with
  | Some row =>
      if absenceCondition st orderID expectedUpdatedAt row
      then let row' := absentRow (timestamptz (D := D) next) dbnow row in
           (Ok (Some (scanOrder row')), st <| st_orders := <[orderID := row']> (st_orders st) |>)
      else (Ok None, st)
  | None => (Ok None, st)
  end.

Definition ConfirmOrderAbsence (orderID : string) (expectedUpdatedAt next : GoTime) : M D (Result (Order * bool)) :=
  do next <- (if IsZeroTime next then do t <- timeNow; ret (TimeAdd t (2 * Second)%Z) else ret next);
  do r <- sql (confirmTransaction orderID expectedUpdatedAt next);
  match r with
  | Err e => ret (Err e)
  | Ok None =>
      do current <- getOrder (fun o => o_ID o =?s orderID);
      ret (match current with Err e => Err e | Ok o => Ok (o, false) end)
  | Ok (Some updated) => ret (Ok (updated, confirmedAbsentReliableZeroFill (D := D) updated))
  end.

(** [leaseDueOrdersSQL]: the orders that are due, the oldest first. *)
Definition pgLe (a b : PgTime) : bool :=
  match a, b with
  | PgAt a, PgAt b => (a <=? b)%Z
  | PgInfinity, PgAt _ => false
  | _, PgInfinity => true
  end.

Definition leaseCandidate (st : Store D) (o : Order) : bool :=
  openStatus (o_Status o) ||
  (negb (o_ArbitrageExecutionID o =?s "") && (0 <? o_ReconcileFailures o)%Z &&
   match st_executions st !! o_ArbitrageExecutionID o with
   | Some x => match st_combinations st !! x_CombinationID (ex_item x) with
               | Some cr => let c := cb_item cr in
                            (c_Status c =?s "running") && c_PositionUncertain c &&
                            (c_ErrorMessage c =?s arbitrageOrderReconcileError)
               | None => false
               end
   | None => false
   end).

Definition leaseDue (st : Store D) (dbnow : GoTime) (r : OrderRow) : bool :=
  leaseCandidate st (row_order r) && pgLe (row_next_reconcile_at r) (PgAt dbnow) &&
  match row_reconcile_lease_until r with None => true | Some t => TimeBefore t dbnow end.

(** [ORDER BY next_reconcile_at,updated_at]. *)
Definition leaseBefore (a b : OrderRow) : Prop :=
  pgLe (row_next_reconcile_at a) (row_next_reconcile_at b) &&
  (negb (pgLe (row_next_reconcile_at b) (row_next_reconcile_at a)) ||
   (o_UpdatedAt (row_order a) <=? o_UpdatedAt (row_order b))%Z) = true.
#[local] Instance leaseBefore_dec : RelDecision leaseBefore := fun a b => decide (_ = true).

Definition leaseTransaction (limit : Z) (lease : Duration) (dbnow : GoTime) (st : Store D)
    : Result (list Order) * Store D :=
  let due := List.filter (leaseDue st dbnow) (map snd (map_to_list (st_orders st))) in
  let rows := firstn (Z.to_nat limit) (merge_sort leaseBefore due) in
  let leased m r := alter (fun r => r <| row_reconcile_lease_until := Some (TimeAdd dbnow lease) |>)
                      (o_ID (row_order r)) m in
  (Ok (map scanOrder rows), st <| st_orders := fold_left leased rows (st_orders st) |>).

Definition LeaseDueOrders (limit : Z) (lease : Duration) : M D (Result (list Order)) :=
  let limit := if (limit <=? 0)%Z || (100 <? limit)%Z then 20%Z else limit in
  let lease := if (lease <=? 0)%Z then (30 * Second)%Z else lease in
  sql (leaseTransaction limit lease).
End Apply.

(** ** The type of an order row *)

Section OrderFacts.
Context {D : Type} `{!Decimal D} `{!DecimalLaws D} `{!Postgres D} `{!PostgresLaws D}.
Local Open Scope Q_scope.

(** A value with at most 18 digits after the point. *)
Definition is18 (q : Q) : Prop := qround 18 q == q.

#[export] Instance is18_proper : Proper (Qeq ==> iff) is18.
Proof. intros a b E. unfold is18. by rewrite E. Qed.

Lemma qround_idem (p : Z) (q : Q) : qround p (qround p q) == qround p q.
Proof.
  pose proof (Qpos_nonzero _ (pow10_pos p)) as Hp.
  assert (forall x, x / pow10 p * pow10 p == x) as Hx.
  { intros x. unfold Qdiv. rewrite <- Qmult_assoc, (Qmult_comm (/ _)), Qmult_inv_r by done. ring. }
  unfold qround at 2 3; cbv zeta. set (n := Qfloor _). destruct (Qle_bool 0 q).
  - apply (qround_exact p n), Hx.
  - apply (qround_exact p (- n)). rewrite inject_Z_opp.
    transitivity (- (inject_Z n / pow10 p * pow10 p)); [ring|by rewrite Hx].
Qed.

#[local] Opaque qround.

Lemma is18_round (q : Q) : is18 (qround 18 q).
Proof. apply qround_idem. Qed.

Lemma is18_0 : is18 0.
Proof. apply (qround_int 18 0). lia. Qed.

(** Text that stands for a number of a [NUMERIC(38,18)] column. *)
Definition numericColumn (s : string) (q : Q) : Prop :=
  TrimSpace s = s /\ is18 q /\ exists d : D, dNewFromString s = Some d /\ dval d == q.

Lemma numericText_column (s t : string) (d : D) :
  numericText (D := D) s = Some t -> dNewFromString s = Some d ->
  numericColumn t (qround 18 (dval d)).
Proof.
  intros H Hs. destruct (numericText_val _ _ H) as (Ht & a & b & Ha & Hb & E).
  rewrite Hs in Ha. injection Ha as <-. split; [done|]. split; [apply is18_round|]. by exists b.
Qed.

Lemma numericText_dString (a : D) (t : string) :
  numericText (D := D) (dString a) = Some t -> numericColumn t (qround 18 (dval a)).
Proof.
  intros H. destruct (dNewFromString_String a) as (d & Hd & E).
  pose proof (numericText_column _ _ _ H Hd) as (? & ? & b & ? & Eb).
  split; [done|]. split; [apply is18_round|]. exists b. split; [done|]. rewrite Eb. by apply qround_proper.
Qed.

Lemma numericColumn_parse (s : string) (q : Q) :
  numericColumn s q -> dval (parseDecimal (D := D) s) == q.
Proof. intros (Ht & _ & d & Hd & E). unfold parseDecimal. by rewrite Ht, Hd. Qed.

Lemma numericColumn_zero : numericColumn "0" 0.
Proof.
  split; [done|]. split; [apply is18_0|]. destruct (dNewFromString_val (D := D) "0" 0 eq_refl) as (d & H & E).
  by exists d.
Qed.

Lemma numericColumn_proper (s : string) (q q' : Q) : q == q' -> numericColumn s q -> numericColumn s q'.
Proof. intros E (? & H & d & ? & ?). split; [done|]. split; [by rewrite <- E|]. exists d. by rewrite <- E. Qed.

(** Casting a column's own text again changes nothing. *)
Lemma numericText_again (s t : string) (q : Q) :
  numericColumn s q -> numericText (D := D) s = Some t -> numericColumn t q.
Proof.
  intros (_ & H & d & Hd & E) Ht. pose proof (numericText_column _ _ _ Ht Hd) as Hc.
  eapply numericColumn_proper; [|exact Hc]. etransitivity; [apply qround_proper, E|exact H].
Qed.

(** What every stored order satisfies: three numeric columns, a positive
    quantity, a fill between zero and it, no negative price, one of the eight
    statuses. *)
Record orderTyped (o : Order) (q f a : Q) : Prop := {
  ot_quantity : numericColumn (o_Quantity o) q;
  ot_filled : numericColumn (o_FilledQuantity o) f;
  ot_average : numericColumn (o_AveragePrice o) a;
  ot_positive : 0 < q;
  ot_fill_nonneg : 0 <= f;
  ot_within : f <= q;
  ot_average_nonneg : 0 <= a;
  ot_status : o_Status o ∈ orderStatuses
}.

Lemma validOrderStatus_elem (s : string) : validOrderStatus s = true <-> s ∈ orderStatuses.
Proof.
  unfold validOrderStatus. rewrite existsb_exists. setoid_rewrite String.eqb_eq.
  rewrite list_elem_of_In. split; [intros (x & ? & ->); done|eauto].
Qed.

(** The status is one of the eight, a terminal status is kept unless the fills
    complete the order, and a complete order is filled. *)
Lemma mergeOrderStatus_spec (cur inc s : string) (f q : D) :
  mergeOrderStatus cur inc f q = Ok s ->
  s ∈ orderStatuses /\
  (0 < dval q -> dval q <= dval f -> s = "filled"%string) /\
  (terminalStatus cur = true -> s = cur \/ (s = "filled"%string /\ 0 < dval q /\ dval q <= dval f)).
Proof.
  assert ("filled"%string ∈ orderStatuses /\ "partially_filled"%string ∈ orderStatuses) as [Hf Hp]
    by (split; apply list_elem_of_In; cbn; tauto).
  unfold mergeOrderStatus.
  destruct (dIsPositive_reflect q) as [Hq|Hq]; cbn [andb];
    [destruct (dGreaterThanOrEqual_reflect f q) as [Hge|Hge]|].
  { intros [= <-]. tauto. }
  all: destruct (validOrderStatus cur) eqn:Ec; cbn [negb]; [apply validOrderStatus_elem in Ec|done];
    assert (terminalStatus cur = true -> (cur =?s "filled") || terminalStatus cur = true) as Ht
      by (intros ->; apply orb_true_r);
    destruct ((cur =?s "filled") || terminalStatus cur);
      [intros [= <-]; split; [done|]; split; [intros; lra|tauto]|];
    assert (terminalStatus cur = false) as -> by (destruct (terminalStatus cur); [by specialize (Ht eq_refl)|done]);
    destruct (inc =?s "");
      [intros [= <-]; split; [by destruct (dIsPositive f)|]; split; [intros; lra|done]|];
    destruct (validOrderStatus inc) eqn:Ei; cbn [negb]; [apply validOrderStatus_elem in Ei|done];
    repeat case_if; intros [= <-]; (split; [done|]); (split; [intros; lra|done]).
Qed.

(** *** One merge *)

Definition numeral (s : string) (q : Q) : Prop := exists d : D, dNewFromString s = Some d /\ dval d == q.

Definition fillQty (f : OrderFill) : Q := dval (default dZero (dNewFromString (D := D) (of_Quantity f))).
Definition fillPrice (f : OrderFill) : Q := dval (default dZero (dNewFromString (D := D) (of_Price f))).
Definition fillsSane (l : list OrderFill) : Prop := forall f, f ∈ l -> 0 <= fillQty f /\ 0 <= fillPrice f.

(** The quantity a report claims to be filled, given [f] before it: its
    cumulative quantity if it has one, the new fills otherwise. *)
Definition reported (f : Q) (result : VenueResult) (inserted : list OrderFill) : Q :=
  if TrimSpace (r_FilledQuantity result) =?s "" then f + sumQ fillQty inserted
  else Qmax f (dval (default dZero (dNewFromString (D := D) (TrimSpace (r_FilledQuantity result))))).

Lemma addFills_val (l : list OrderFill) : forall f n f' n' : D,
  fillsSane l -> 0 <= dval n -> addFills f n l = (f', n') ->
  dval f' == dval f + sumQ fillQty l /\ 0 <= dval n'.
Proof.
  induction l as [|x l IH]; intros f n f' n' Hs Hn.
  - cbn. intros [= <- <-]. split; [ring|done].
  - destruct (Hs x ltac:(set_solver)) as [Hq Hp]. unfold fillQty, fillPrice in Hq, Hp.
    change (addFills f n (x :: l)) with
      (addFills (dAdd f (default dZero (dNewFromString (of_Quantity x))))
         (dAdd n (dMul (default dZero (dNewFromString (of_Quantity x)))
                       (default dZero (dNewFromString (of_Price x))))) l).
    intros H. apply IH in H as [E ?]; [|intros y ?; apply Hs; set_solver|rewrite dAdd_val, dMul_val; nra].
    split; [|done]. rewrite E, dAdd_val, sumQ_cons. unfold fillQty at 2. ring.
Qed.

Lemma parseNonNegative_ok (s : string) (e : GoError) (d : D) :
  parseNonNegative s e = Ok d -> dNewFromString s = Some d /\ 0 <= dval d.
Proof.
  unfold parseNonNegative. destruct (dNewFromString s) as [x|]; [|done].
  destruct (dIsNegative_reflect x); [done|]. intros [= ->]. split; [done|]. lra.
Qed.

Lemma mergeFilled_spec (f a f' a' : D) (result : VenueResult) (fresh : bool) (inserted : list OrderFill) :
  mergeFilled f a result fresh inserted = Ok (f', a') ->
  fillsSane inserted -> 0 <= dval f -> 0 <= dval a ->
  dval f' == reported (dval f) result inserted /\ 0 <= dval a'.
Proof.
  intros H Hs Hf Ha. unfold mergeFilled in H; cbv zeta in H. unfold reported.
  destruct (TrimSpace (r_FilledQuantity result) =?s "") eqn:Ei; cbn [negb] in H.
  - destruct inserted as [|x l] eqn:El; [injection H as <- <-; cbn; split; [ring|done]|].
    rewrite <- El in *. destruct (addFills f (dMul f a) inserted) as [g n] eqn:E.
    injection H as <- <-.
    destruct (addFills_val inserted f (dMul f a) g n Hs ltac:(rewrite dMul_val; nra) E) as [E1 E2].
    split; [done|]. destruct (dIsPositive_reflect g); [by apply dDiv_nonneg|done].
  - destruct (parseNonNegative _ errCumulative) as [c|] eqn:Ec; [|done].
    apply parseNonNegative_ok in Ec as [Ec Hc]. rewrite Ec. cbn [default].
    destruct (dGreaterThan_reflect c f) as [Hg|Hg].
    + rewrite (Q.max_r (dval f) (dval c)) by lra.
      destruct (TrimSpace (r_AveragePrice result) =?s ""); cbn [negb] in H; [by injection H as <- <-|].
      destruct (parseNonNegative _ errAverage) as [x|] eqn:Ex; [|done].
      apply parseNonNegative_ok in Ex as [_ ?]. by injection H as <- <-.
    + rewrite (Q.max_l (dval f) (dval c)) by lra. destruct (dEqual c f && fresh && _) eqn:Eb in H.
      * destruct (parseNonNegative _ errAverage) as [x|] eqn:Ex; [|done].
        apply parseNonNegative_ok in Ex as [_ ?]. by injection H as <- <-.
      * by injection H as <- <-.
Qed.

Lemma bindVenueOrderID_same (o : Order) (r : VenueResult) :
  exists v, bindVenueOrderID o r = o <| o_VenueOrderID := v |>.
Proof. unfold bindVenueOrderID. destruct (_ && _); [by eexists|exists (o_VenueOrderID o); by destruct o]. Qed.

(** The fields a merge leaves alone. *)
Definition sameOrder (o o' : Order) : Prop :=
  exists venue filled average status code message,
    o' = o <| o_VenueOrderID := venue |> <| o_FilledQuantity := filled |> <| o_AveragePrice := average |>
           <| o_Status := status |> <| o_ErrorCode := code |> <| o_ErrorMessage := message |>.

(** What one merge does to the filled quantity [f] of an order of quantity
    [q]: a report of the venue moves it to what is reported, never beyond the
    quantity; a late acknowledgement of the trader's own command moves it to
    the acknowledged quantity if that is larger; an audit-only report keeps it. *)
Definition mergedFill (q f f' : Q) (o : Order) (result : VenueResult) (inserted : list OrderFill) (skip : bool) : Prop :=
  if r_LocalCommandAck result && hasVenueEventWatermark (o_LastVenueEventAt o)
  then f' == f \/ (f < f' /\ numeral (TrimSpace (r_FilledQuantity result)) f')
  else if skip then f' == f
  else f' == Qmin q (reported f result inserted).

Lemma mergeLocalAck_cases (o m : Order) (result : VenueResult) (f : D) :
  dNewFromString (o_FilledQuantity o) = Some f -> mergeLocalAck (D := D) o result = Ok m ->
  m = bindVenueOrderID o result \/
  exists c p : D, dNewFromString (TrimSpace (r_FilledQuantity result)) = Some c /\
    dval f < dval c /\ 0 <= dval p /\
    m = (bindVenueOrderID o result) <| o_FilledQuantity := dString c |> <| o_AveragePrice := dString p |>.
Proof.
  intros Ef H. unfold mergeLocalAck, parseStored in H. rewrite Ef in H. cbv zeta in H.
  destruct (TrimSpace (r_FilledQuantity result) =?s ""); [left; congruence|].
  destruct (parseNonNegative _ errCumulative) as [c|] eqn:Ec; [|done].
  apply parseNonNegative_ok in Ec as [Ec Hc].
  destruct (dGreaterThan_reflect c f); cbn [negb] in H; [|left; congruence].
  destruct (TrimSpace (r_AveragePrice result) =?s ""); [left; congruence|].
  destruct (parseNonNegative _ errAverage) as [p|] eqn:Ep; [|done].
  apply parseNonNegative_ok in Ep as [Ep Hp]. right. exists c, p. by injection H as <-.
Qed.

Lemma mergeOrderUpdate_spec (o m : Order) (result : VenueResult) (eventAt : GoTime) (inserted : list OrderFill)
    (skip : bool) (q f a : Q) :
  mergeOrderUpdate (D := D) o result eventAt inserted skip = Ok m ->
  orderTyped o q f a -> fillsSane inserted ->
  sameOrder o m /\ o_Status m ∈ orderStatuses /\
  (exists f' a', numeral (o_FilledQuantity m) f' /\ numeral (o_AveragePrice m) a' /\ 0 <= a' /\
     mergedFill q f f' o result inserted skip /\
     (terminalStatus (o_Status o) = true -> o_Status m = o_Status o \/ (o_Status m = "filled"%string /\ q <= f'))).
Proof.
  intros H T Hs. destruct T as [Tq Tf Ta Hq Hf Hfq Ha Hst].
  destruct Tq as (_ & _ & dq & Eq & Vq), Tf as (_ & _ & df & Ef & Vf), Ta as (_ & _ & da & Ea & Va).
  assert (numeral (o_FilledQuantity o) f /\ numeral (o_AveragePrice o) a) as [Nf Na] by (by split; [exists df|exists da]).
  destruct (bindVenueOrderID_same o result) as [v Hv].
  assert (sameOrder o (bindVenueOrderID o result)) as Sb
    by (rewrite Hv; exists v, (o_FilledQuantity o), (o_AveragePrice o), (o_Status o), (o_ErrorCode o),
          (o_ErrorMessage o); by destruct o).
  unfold mergeOrderUpdate in H; cbv zeta in H. unfold mergedFill.
  destruct (r_LocalCommandAck result && hasVenueEventWatermark (o_LastVenueEventAt o)).
  - destruct (mergeLocalAck_cases _ _ _ _ Ef H) as [->|(c & p & Ec & Hg & Hp & ->)].
    + split; [done|]. rewrite Hv. split; [done|]. exists f, a. split; [done|]. split; [done|].
      split; [done|]. split; [by left|]. by left.
    + split.
      { rewrite Hv. exists v, (dString c), (dString p), (o_Status o), (o_ErrorCode o), (o_ErrorMessage o).
        by destruct o. }
      rewrite Hv. split; [done|]. exists (dval c), (dval p). split; [apply dNewFromString_String|].
      split; [apply dNewFromString_String|]. split; [done|]. split; [right|by left].
      split; [lra|]. by exists c.
  - destruct skip.
    + injection H as <-. split; [done|]. rewrite Hv. split; [done|]. exists f, a.
      split; [done|]. split; [done|]. split; [done|]. split; [done|by left].
    + set (fresh := _ || _ || _) in H. unfold parseStored in H. rewrite Ef, Eq, Ea in H.
      destruct (mergeFilled df da result fresh inserted) as [[f' a']|] eqn:Em; [|done].
      destruct (mergeFilled_spec _ _ _ _ _ _ _ Em Hs ltac:(lra) ltac:(lra)) as [E1 E2].
      set (g := if dIsPositive dq && dGreaterThanOrEqual f' dq then dq else f') in H.
      destruct (mergeOrderStatus (o_Status o) _ g dq) as [s|] eqn:Es; [|done].
      apply mergeOrderStatus_spec in Es as (Hs1 & Hs2 & Hs3).
      assert (dval g == Qmin q (reported f result inserted)) as Eg.
      { assert (reported f result inserted == dval f') as ->
          by (rewrite E1; unfold reported; destruct (_ =?s _); by rewrite Vf).
        unfold g. destruct (dIsPositive_reflect dq); [|lra]. cbn [andb].
        destruct (dGreaterThanOrEqual_reflect f' dq); [rewrite (Q.min_l q) by lra|rewrite (Q.min_r q) by lra]; lra. }
      assert (exists code msg, m = (bindVenueOrderID o result) <| o_FilledQuantity := dString g |>
        <| o_AveragePrice := dString a' |> <| o_Status := s |> <| o_ErrorCode := code |> <| o_ErrorMessage := msg |>)
        as (code & msg & ->).
      { destruct fresh; injection H as <-; [by do 2 eexists|].
        exists (o_ErrorCode (bindVenueOrderID o result)), (o_ErrorMessage (bindVenueOrderID o result)).
        by destruct (bindVenueOrderID o result). }
      split. { rewrite Hv. exists v, (dString g), (dString a'), s, code, msg. by destruct o. }
      rewrite Hv. split; [done|]. exists (dval g), (dval a').
      split; [apply dNewFromString_String|]. split; [apply dNewFromString_String|]. split; [done|].
      split; [done|]. intros Ht. destruct (Hs3 Ht) as [->|(-> & ? & ?)]; [by left|right]. split; [done|lra].
Qed.

(** *** The tracker's sums are never negative *)

Definition stateSane (s : orderFillAverageState D) : Prop :=
  0 <= dval (s_fillQty s) /\ 0 <= dval (s_fillNotional s).
Definition trackerSane (t : orderFillAverageTracker D) : Prop :=
  forall a s, tr_heap t !! a = Some s -> stateSane s.
Definition pendingSane (p : orderFillAveragePending D) : Prop :=
  0 <= dval (pd_deltaFillQty p) /\ 0 <= dval (pd_deltaFillNotional p).

Lemma emptyFillState_sane : stateSane emptyFillState.
Proof. split; cbn; rewrite dZero_val; lra. Qed.

Lemma pruneOne_heap (t : orderFillAverageTracker D) id now : tr_heap (pruneOne t id now) = tr_heap t.
Proof. unfold pruneOne. by destruct (canPruneLocked _ _ _ _). Qed.

Lemma pruneLocked_heap (t : orderFillAverageTracker D) id scan now :
  tr_heap (pruneLocked t id scan now) = tr_heap t.
Proof.
  unfold pruneLocked; cbv zeta. transitivity (tr_heap (pruneOne t id now)); [|apply pruneOne_heap].
  generalize (pruneOne t id now). induction (firstn _ _) as [|x l IH]; intros u; [done|].
  cbn [fold_left]. by rewrite IH, pruneOne_heap.
Qed.

Lemma update_sane (t : orderFillAverageTracker D) (h : orderFillAverageHandle) f :
  trackerSane t -> (forall s, stateSane s -> stateSane (f s)) -> trackerSane (updateState t h f).
Proof.
  intros H Hf a s. unfold updateState; cbn. intros Hl.
  destruct (decide (a = h_state h)) as [->|Hn].
  - rewrite lookup_alter_eq in Hl. destruct (tr_heap t !! h_state h) eqn:E; [|done].
    injection Hl as <-. eauto.
  - rewrite lookup_alter_ne in Hl by done. eauto.
Qed.

Lemma acquire_sane (t : orderFillAverageTracker D) id scan now h t' :
  trackerSane t -> Acquire t id scan now = (h, t') -> trackerSane t'.
Proof.
  intros H E. unfold Acquire in E. cbv zeta in E.
  set (u := pruneLocked t (TrimSpace id) scan now) in E.
  assert (trackerSane u) as Hu by (intros b s'; unfold u; rewrite pruneLocked_heap; apply H).
  assert (forall v b, trackerSane v ->
    trackerSane (mkTracker (tr_byID v) (alter (fun s => s <| s_refs := (s_refs s + 1)%Z |>) b (tr_heap v)) (tr_next v)))
    as Hv by (intros v b Hv; apply (update_sane v (mkHandle "" b)); [done|by intros ? ?]).
  destruct (tr_byID u !! TrimSpace id); injection E as _ <-; [by apply (Hv u)|].
  refine (Hv (mkTracker _ (<[_ := emptyFillState]> (tr_heap u)) _) _ _). intros b s' Hb. cbn in Hb. apply lookup_insert_Some in Hb as [[_ <-]|[_ Hb]];
    [apply emptyFillState_sane|by apply (Hu b)].
Qed.

Lemma release_sane (t : orderFillAverageTracker D) h mark expiry now :
  trackerSane t -> trackerSane (Release t h mark expiry now).
Proof.
  intros H. unfold Release. destruct (tr_heap t !! h_state h) as [s|] eqn:E; [|done].
  destruct (_ =?s _); [done|]. cbv zeta.
  set (s' := if mark then _ else _).
  assert (stateSane s') as Hs' by (pose proof (H _ _ E); unfold s'; by destruct mark, (0 <? s_refs s)%Z).
  destruct (canPruneLocked _ _ _ _); intros a x Hl; cbn in Hl;
    apply lookup_insert_Some in Hl as [[_ <-]|[_ ?]]; eauto.
Qed.

Lemma observe_sane (s : orderFillAverageState D) (p : orderFillAveragePending D) (f : OrderFill) :
  pendingSane p -> pendingSane (observeFillLocked s p f).
Proof.
  intros [H1 H2]. unfold observeFillLocked; cbv zeta.
  destruct (_ =?s _); [done|]. do 2 (case_bool_decide; [done|]).
  destruct (dNewFromString (TrimSpace (of_Quantity f))) as [q|]; [|done].
  destruct (dIsPositive_reflect q); cbn [negb]; [|done].
  destruct (dNewFromString (TrimSpace (of_Price f))) as [x|]; [|done].
  destruct (dIsPositive_reflect x); cbn [negb]; [|done].
  split; cbn; rewrite dAdd_val, ?dMul_val; nra.
Qed.

Lemma observe_all_sane (s : orderFillAverageState D) (l : list OrderFill) : forall p,
  pendingSane p -> pendingSane (fold_left (observeFillLocked s) l p).
Proof. induction l as [|f l IH]; intros p H; [done|]. cbn. by apply IH, observe_sane. Qed.

Lemma ensure_sane (s : orderFillAverageState D) (o : Order) :
  stateSane s -> 0 <= dval (parseDecimal (D := D) (o_FilledQuantity o)) ->
  stateSane (ensureLocked s o).
Proof.
  intros [H1 H2] Hf. unfold ensureLocked. destruct (s_ensured s); [done|]. cbv zeta.
  destruct (dIsPositive_reflect (parseDecimal (D := D) (o_AveragePrice o))); split; cbn;
    rewrite ?dMul_val, ?dZero_val; nra.
Qed.

Lemma prepare_sane (s s' : orderFillAverageState D) p avg id o status auth inc ins now :
  Prepare s id o status auth inc ins now = (s', p, avg) ->
  stateSane s -> 0 <= dval (parseDecimal (D := D) (o_FilledQuantity o)) ->
  stateSane s' /\ pendingSane p /\ (forall a, avg = Some a -> exists d : D, a = dString d /\ 0 <= dval d).
Proof.
  intros E Hs Hf. unfold Prepare in E. cbv zeta in E.
  pose proof (ensure_sane s o Hs Hf) as He. set (e := ensureLocked s o) in *.
  set (p0 := fold_left _ _ _) in E.
  assert (pendingSane p0) as [Hp1 Hp2]
    by (apply observe_all_sane; split; cbn; rewrite dZero_val; lra).
  destruct (_ && _ && _ && _ && _) eqn:Ec in E.
  - injection E as <- <- <-. split; [done|]. split; [by split|]. intros a [= <-]. eexists. split; [done|].
    bool_to_prop. rewrite dIsPositive_val in *. destruct He as [He1 He2].
    apply dDiv_nonneg; [rewrite dAdd_val; lra|done].
  - injection E as <- <- <-. split; [|by split].
    match goal with |- context [if ?b then _ else _] => destruct b end; [|done].
    unfold warnFillCoverageLocked. by match goal with |- context [if ?b then _ else _] => destruct b end.
Qed.

Lemma commit_sane (s : orderFillAverageState D) p : stateSane s -> pendingSane p -> stateSane (Commit s p).
Proof.
  intros [H1 H2] [H3 H4]. unfold Commit. destruct (_ =?s _); [done|]. cbv zeta.
  destruct (pd_writeAverage p); split; cbn; rewrite dAdd_val; lra.
Qed.

Lemma prepareAverage_sane (t t' : orderFillAverageTracker D) h p avg o m stream skip fills ins now :
  prepareAverage t h o m stream skip fills ins now = (t', p, avg) ->
  trackerSane t -> 0 <= dval (parseDecimal (D := D) (o_FilledQuantity o)) ->
  trackerSane t' /\ pendingSane p /\ (forall a, avg = Some a -> exists d : D, a = dString d /\ 0 <= dval d).
Proof.
  intros E Ht Hf. unfold prepareAverage in E. cbv zeta in E.
  destruct (Prepare _ _ _ _ _ _ _ _) as [[s' p'] a'] eqn:Ep in E. injection E as <- <- <-.
  apply prepare_sane in Ep as (? & ? & ?); [|destruct (tr_heap t !! h_state h) eqn:El;
    [by apply (Ht _ _ El)|apply emptyFillState_sane]|done].
  split; [|done]. by apply update_sane.
Qed.

(** *** Fills *)

Lemma checkFill_sane (ex v : string) (f f' : OrderFill) :
  checkFill (D := D) ex v f = Ok (Some f') ->
  0 < fillQty f' /\ 0 <= fillPrice f' /\ of_TradeID f' = TrimSpace (of_TradeID f) /\ v <> ""%string.
Proof.
  unfold checkFill; cbv zeta. set (g := f <| of_TradeID := _ |> <| of_Quantity := _ |> <| of_Price := _ |>).
  destruct (String.eqb_spec v ""); [by rewrite orb_true_r|]. rewrite orb_false_r.
  destruct (of_TradeID g =?s ""); [done|].
  destruct (dNewFromString (of_Quantity g)) as [q|] eqn:Eq; [|done].
  destruct (dIsPositive_reflect q); cbn [negb]; [|done].
  set (h := if of_Price g =?s "" then _ else g).
  destruct (dNewFromString (of_Price h)) as [p|] eqn:Ep; [|done].
  destruct (dIsNegative_reflect p); [done|]. destruct (_ && _); [done|]. intros [= <-].
  assert (of_Quantity h = of_Quantity g /\ of_TradeID h = of_TradeID g) as [E1 E2]
    by (unfold h; by destruct (of_Price g =?s "")).
  unfold fillQty, fillPrice. rewrite E1, E2, Eq, Ep. cbn. repeat split; [done|lra|done].
Qed.

Lemma insertFills_sane (o : Order) (v : string) (l : list OrderFill) : forall tb ins tb',
  insertFills (D := D) tb o v l = Ok (ins, tb') -> fillsSane ins /\ tb ⊆ tb'.
Proof.
  induction l as [|f l IH]; intros tb ins tb'; cbn [insertFills].
  - intros [= <- <-]. split; [intros ? []%not_elem_of_nil|done].
  - destruct (checkFill (o_Exchange o) v f) as [[f'|]|] eqn:Ec; [|apply IH|done].
    apply checkFill_sane in Ec as (Hq & Hp & _ & _).
    destruct (insertFill tb o v f') as [[b tb1]|] eqn:Ei; [|done].
    destruct (insertFills tb1 o v l) as [[ins2 tb2]|] eqn:El; [|done]. intros [= <- <-].
    apply IH in El as [Hs Hsub]. split.
    + destruct b; [|done]. intros x [->|?]%elem_of_cons; [split; lra|by apply Hs].
    + etransitivity; [|exact Hsub]. unfold insertFill in Ei; cbv zeta in Ei.
      repeat case_match; simplify_eq; try done; by apply insert_subseteq.
Qed.

(** Fills that are in the table are not counted again. *)
Lemma insertFills_again (o o' : Order) (v : string) (l : list OrderFill) :
  o_TradingAccountID o' = o_TradingAccountID o -> o_Exchange o' = o_Exchange o ->
  forall tb ins tb' big, insertFills (D := D) tb o v l = Ok (ins, tb') -> tb' ⊆ big ->
  insertFills (D := D) big o' v l = Ok ([], big).
Proof.
  intros Ha He. induction l as [|f l IH]; intros tb ins tb' big; cbn [insertFills]; [done|].
  rewrite He. destruct (checkFill (o_Exchange o) v f) as [[f'|]|] eqn:Ec; [|apply IH|done].
  destruct (insertFill tb o v f') as [[b tb1]|] eqn:Ei; [|done].
  destruct (insertFills tb1 o v l) as [[ins2 tb2]|] eqn:El; [|done]. intros [= <- <-] Hb.
  pose proof (insertFills_sane _ _ _ _ _ _ El) as [_ Hsub].
  set (key := (o_TradingAccountID o, o_Exchange o, v, of_TradeID f')).
  assert (exists r, tb1 !! key = Some r) as [r Hr].
  { unfold insertFill in Ei; cbv zeta in Ei. fold key in Ei.
    repeat case_match; simplify_eq; eauto; rewrite lookup_insert_eq; eauto. }
  assert (big !! key = Some r) as Hk by (by eapply lookup_weaken; [|etransitivity]).
  unfold insertFill at 1. rewrite Ha, He. fold key. rewrite Hk. by rewrite (IH _ _ _ _ El Hb).
Qed.

(** *** The transaction *)

Record storeTyped (st : Store D) : Prop := {
  sty_orders : forall id row, st_orders st !! id = Some row ->
    o_ID (row_order row) = id /\ exists q f a, orderTyped (row_order row) q f a;
  sty_tracker : trackerSane (st_tracker st)
}.

Lemma orderTyped_scan (row : OrderRow) (q f a : Q) :
  orderTyped (row_order row) q f a -> orderTyped (scanOrder row) q f a.
Proof. by intros []. Qed.

Definition venueKey (row : OrderRow) (result : VenueResult) : string :=
  if o_VenueOrderID (row_order row) =?s "" then TrimSpace (r_VenueOrderID result)
  else o_VenueOrderID (row_order row).

Lemma writeMerged_typed (dbnow : GoTime) (row row' : OrderRow) (m : Order) stream auth sa va (q f a f' a' : Q) :
  writeMerged (D := D) dbnow row m stream auth sa va = Ok row' ->
  orderTyped (row_order row) q f a -> o_Status m ∈ orderStatuses ->
  numeral (o_FilledQuantity m) f' -> 0 <= f' <= q -> numeral (o_AveragePrice m) a' -> 0 <= a' ->
  orderTyped (row_order row') q (qround 18 f') (qround 18 a') /\
  o_Status (row_order row') = o_Status m /\ o_VenueOrderID (row_order row') = o_VenueOrderID m /\
  row_last_venue_event_at row' = greatest (row_last_venue_event_at row) va /\
  exists s' f'' a'' v c e u fl ab,
    row_order row' = (row_order row) <| o_VenueOrderID := v |> <| o_Status := s' |> <| o_FilledQuantity := f'' |>
      <| o_AveragePrice := a'' |> <| o_ErrorCode := c |> <| o_ErrorMessage := e |> <| o_UpdatedAt := u |>
      <| o_ReconcileFailures := fl |> <| o_AbsenceConfirmations := ab |>.
Proof.
  intros H [Tq Tf Ta Hq Hf Hfq Ha Hs] Hm (df & Ef & Vf) [Hf' Hq'] (da & Ea & Va) Ha'. unfold writeMerged in H.
  destruct (numericText (o_FilledQuantity m)) as [tf|] eqn:Nf; [|done].
  destruct (numericText (o_AveragePrice m)) as [ta|] eqn:Na; [|done]. injection H as <-.
  pose proof (numericText_column _ _ _ Nf Ef) as Cf. pose proof (numericText_column _ _ _ Na Ea) as Ca.
  split; [|split; [done|split; [done|split; [done|cbn [row_order]; by repeat eexists]]]].
  constructor; cbn [row_order]; try done.
  - eapply numericColumn_proper; [|exact Cf]. by apply qround_proper.
  - eapply numericColumn_proper; [|exact Ca]. by apply qround_proper.
  - by apply qround_nonneg.
  - destruct Tq as (_ & H18 & _). apply Qle_trans with (qround 18 q); [by apply qround_mono|].
    unfold is18 in H18. rewrite H18. apply Qle_refl.
  - by apply qround_nonneg.
Qed.

Context `{!Env D}.

(** What a transaction of [applyOrderUpdate] leaves: the tables as they were,
    or one order row merged and its new fills inserted. *)
Record applied (orderID : string) (result : VenueResult) (eventAt : GoTime) (fills : list OrderFill) (skip : bool)
    (st st' : Store D) (row row' : OrderRow) (q f a f' a' : Q) (inserted : list OrderFill) : Prop := {
  ap_row : st_orders st !! orderID = Some row;
  ap_orders : st_orders st' = <[orderID := row']> (st_orders st);
  ap_fills : insertFills (D := D) (st_fills st) (scanOrder row) (venueKey row result) fills = Ok (inserted, st_fills st');
  ap_before : orderTyped (row_order row) q f a;
  ap_after : orderTyped (row_order row') q (qround 18 f') a';
  ap_merged : mergedFill q f f' (scanOrder row) result inserted skip;
  ap_terminal : terminalStatus (o_Status (row_order row)) = true ->
    o_Status (row_order row') = o_Status (row_order row) \/
    (o_Status (row_order row') = "filled"%string /\ q <= f');
  ap_venue : o_VenueOrderID (row_order row') = o_VenueOrderID (bindVenueOrderID (row_order row) result);
  ap_event : row_last_venue_event_at row' =
    greatest (row_last_venue_event_at row)
      (if negb (r_LocalCommandAck result) && negb skip then Some (timestamptz (D := D) eventAt) else None);
  ap_same : exists s' f'' a'' v c e u fl ab,
    row_order row' = (row_order row) <| o_VenueOrderID := v |> <| o_Status := s' |> <| o_FilledQuantity := f'' |>
      <| o_AveragePrice := a'' |> <| o_ErrorCode := c |> <| o_ErrorMessage := e |> <| o_UpdatedAt := u |>
      <| o_ReconcileFailures := fl |> <| o_AbsenceConfirmations := ab |>
}.

Definition sameTables (st st' : Store D) : Prop :=
  st_twaps st' = st_twaps st /\ st_executions st' = st_executions st /\
  st_combinations st' = st_combinations st /\ st_events st' = st_events st /\ st_twapEvents st' = st_twapEvents st /\
  st_arbitrageEvents st' = st_arbitrageEvents st.

Lemma merged_venue (o m : Order) (result : VenueResult) eventAt inserted skip :
  mergeOrderUpdate (D := D) o result eventAt inserted skip = Ok m ->
  o_VenueOrderID m = o_VenueOrderID (bindVenueOrderID o result).
Proof.
  unfold mergeOrderUpdate, mergeLocalAck; cbv zeta. intros H.
  repeat (case_match; simplify_eq/=; try done).
Qed.

(** The one report that is not capped at the order's quantity is a late
    acknowledgement; the trader caps those before it writes them. *)
Definition ackWithin (o : Order) (result : VenueResult) : Prop :=
  r_LocalCommandAck result = true -> forall d : D,
  dNewFromString (TrimSpace (r_FilledQuantity result)) = Some d -> dval d <= dval (parseDecimal (D := D) (o_Quantity o)).

Lemma mergedFill_bounds (q f f' a : Q) (o : Order) (result : VenueResult) (inserted : list OrderFill) (skip : bool) :
  mergedFill q f f' o result inserted skip -> fillsSane inserted -> orderTyped o q f a -> ackWithin o result ->
  f <= f' <= q.
Proof.
  unfold mergedFill, reported. intros H Hs [Tq _ _ Hq Hf Hfq _ _] Hack.
  assert (0 <= sumQ fillQty inserted) by (apply sumQ_nonneg; intros x Hx; by apply Hs).
  destruct (r_LocalCommandAck result && _) eqn:Ea.
  - bool_to_prop. destruct H as [?|[? (d & Hd & E)]]; [lra|]. specialize (Hack ltac:(done) d Hd).
    rewrite (numericColumn_parse _ _ Tq) in Hack. lra.
  - destruct skip; [lra|]. rewrite H. split; [|apply Q.le_min_l].
    apply Q.min_glb; [done|]. destruct (_ =?s _); [lra|apply Q.le_max_l].
Qed.

(** The order's own part of a plan. *)
Lemma plan_ok (orderID : string) (result : VenueResult) (eventAt receivedAt : GoTime) (stream : bool)
    (fills : list OrderFill) (skip : bool) (n : nat) fault (st : Store D) row track h t t' plan (q f a : Q) :
  planUpdate orderID result eventAt receivedAt stream fills skip n fault st row track h t = (t', plan) ->
  trackerSane t -> orderTyped (row_order row) q f a -> ackWithin (row_order row) result ->
  st_orders st !! orderID = Some row ->
  trackerSane t' /\
  forall p, plan = Ok p -> fault = None /\ (forall pd, up_pending p = Some pd -> pendingSane pd) /\
    exists f' a' inserted, forall st', st_orders st' = <[orderID := up_row p]> (st_orders st) ->
      st_fills st' = up_fills p ->
      applied orderID result eventAt fills skip st st' row (up_row p) q f a f' a' inserted.
Proof.
  intros H Ht T Hack Hrow. pose proof (orderTyped_scan _ _ _ _ T) as Ts. unfold planUpdate in H. cbv zeta in H.
  change (if o_VenueOrderID (scanOrder row) =?s "" then _ else _) with (venueKey row result) in H.
  destruct (insertFills (st_fills st) (scanOrder row) (venueKey row result) fills) as [[ins tb]|e] eqn:Ei.
  2:{ by destruct fault as [[[] ?]|]; injection H as <- <-. }
  destruct (mergeOrderUpdate (scanOrder row) result eventAt ins skip) as [m|e] eqn:Em.
  2:{ by destruct fault as [[[] ?]|]; injection H as <- <-. }
  pose proof (merged_venue _ _ _ _ _ _ Em) as Hvenue.
  pose proof (insertFills_sane _ _ _ _ _ _ Ei) as [Hsane _].
  destruct (mergeOrderUpdate_spec _ _ _ _ _ _ _ _ _ Em Ts Hsane)
    as (_ & Hst & f' & a' & Nf & Na & Ha' & Hmf & Hterm).
  pose proof (mergedFill_bounds _ _ _ _ _ _ _ _ Hmf Hsane Ts Hack) as Hb.
  pose proof (ot_fill_nonneg _ _ _ _ T) as Hf0.
  destruct (if track then _ else _) as [[t1 pd] avg] eqn:Ep in H.
  assert (trackerSane t1 /\ (forall x, pd = Some x -> pendingSane x) /\
          (forall x, avg = Some x -> exists d : D, x = dString d /\ 0 <= dval d)) as (Ht1 & Hpd & Havg).
  { destruct track; [|by injection Ep as <- <- <-].
    destruct (prepareAverage _ _ _ _ _ _ _ _ _) as [[t2 p2] a2] eqn:E in Ep. injection Ep as <- <- <-.
    destruct (prepareAverage_sane _ _ _ _ _ _ _ _ _ _ _ _ E Ht) as (? & ? & ?).
    - rewrite (numericColumn_parse _ _ (ot_filled _ _ _ _ Ts)). apply Hf0.
    - split; [done|]. split; [|done]. by intros x [= <-]. }
  set (m' := match avg with Some x => _ | None => m end) in H.
  assert (exists a'', numeral (o_AveragePrice m') a'' /\ 0 <= a'') as (a'' & Na'' & Ha'').
  { unfold m'. destruct avg as [x|]; [|by exists a'].
    destruct (Havg x eq_refl) as (d & -> & Hd). exists (dval d). split; [apply dNewFromString_String|done]. }
  assert (o_Status m' = o_Status m /\ o_FilledQuantity m' = o_FilledQuantity m /\ o_VenueOrderID m' = o_VenueOrderID m)
    as (E1 & E2 & E3) by (unfold m'; by destruct avg).
  set (w := writeMerged _ _ _ _ _ _ _) in H.
  assert ((t' = t1 \/ t' = t) /\ forall p, plan = Ok p ->
    fault = None /\ w = Ok (up_row p) /\ up_fills p = tb /\ up_pending p = pd)
    as [Ht' Hp].
  { destruct fault as [[[] ?]|], w as [rw|]; injection H as <- <-; (split; [tauto|by intros p [= <-]]). }
  split; [by destruct Ht' as [->| ->]|]. intros p Hpl. destruct (Hp p Hpl) as (-> & Hw & <- & <-).
  split; [done|]. split; [done|].
  destruct (writeMerged_typed _ _ _ _ _ _ _ _ _ _ _ f' a'' Hw T) as (T' & S' & V' & L' & Hsame);
    [by rewrite E1|by rewrite E2|lra|done|done|].
  exists f', (qround 18 a''), ins. intros st' Ho Hfl. constructor; try done.
  - by rewrite Hfl.
  - rewrite S', E1. exact Hterm.
  - rewrite V', E3, Hvenue. unfold bindVenueOrderID.
    change (o_VenueOrderID (scanOrder row)) with (o_VenueOrderID (row_order row)).
    match goal with |- context [if ?b then _ else _] => by destruct b end.
Qed.

(** Every transaction leaves the tables as they were or applies one report. *)
Lemma apply_cases (orderID : string) (result : VenueResult) (eventAt receivedAt : GoTime) (stream : bool)
    (fills : list OrderFill) (skip : bool) (n : nat) fault (st st' : Store D) r :
  applyTransaction orderID result eventAt receivedAt stream fills skip n fault st = (r, st') ->
  storeTyped st -> (forall row, st_orders st !! orderID = Some row -> ackWithin (row_order row) result) ->
  sameTables st st' /\ trackerSane (st_tracker st') /\
  match r with
  | Err _ => st_orders st' = st_orders st /\ st_fills st' = st_fills st
  | Ok (o, _) => exists row row' q f a f' a' inserted,
      applied orderID result eventAt fills skip st st' row row' q f a f' a' inserted /\ o = scanOrder row'
  end.
Proof.
  intros H [Ho Ht] Hack. unfold applyTransaction in H.
  destruct (st_orders st !! orderID) as [row|] eqn:Er.
  2:{ by destruct fault as [[[] e]|]; injection H as <- <-. }
  destruct (Ho _ _ Er) as (_ & q & f & a & T). cbv zeta in H.
  set (track := hyperliquidArbitrageFillAverageEnabled (scanOrder row)) in *.
  destruct (if track then Acquire _ _ _ _ else _) as [h t] eqn:Eacq in H.
  assert (trackerSane t) as Ht1 by (destruct track; [by eapply acquire_sane|by injection Eacq as _ <-]).
  assert (forall u mark e, trackerSane u -> trackerSane (if track then Release u h mark e (clock n) else u)) as Hrel
    by (intros u mark e Hu; destruct track; [by apply release_sane|done]).
  destruct (planUpdate _ _ _ _ _ _ _ _ _ _ _ _ _ _) as [t1 plan] eqn:Ep in H.
  destruct (plan_ok _ _ _ _ _ _ _ _ _ _ _ _ _ _ _ _ q f a Ep Ht1 T (Hack _ eq_refl) Er) as [Ht2 Hplan].
  destruct plan as [p|e].
  - destruct (Hplan p eq_refl) as (-> & Hpd & f' & a' & ins & Hap). injection H as <- <-.
    split; [done|]. split.
    + cbn. apply Hrel. destruct (up_pending p) as [pd|]; [|done].
      apply update_sane; [done|]. intros s Hs. apply commit_sane; eauto.
    + do 8 eexists. split; [by apply Hap|done].
  - by destruct fault as [[[] ?]|]; injection H as <- <-; repeat (split; [done || (cbn; apply Hrel)|]).
Qed.

(** *** Every operation on the order tables *)

Definition quantityOf (row : OrderRow) : Q := dval (parseDecimal (D := D) (o_Quantity (row_order row))).
Definition filledOf (row : OrderRow) : Q := dval (parseDecimal (D := D) (o_FilledQuantity (row_order row))).

(** An intent the column can hold: validated orders have a positive quantity. *)
Definition intentPositive (order : Order) : Prop :=
  exists d : D, dNewFromString (o_Quantity order) = Some d /\ 0 < qround 18 (dval d).

Inductive orderStep : Store D -> Store D -> Prop :=
| step_apply orderID result eventAt receivedAt stream fills skip n fault st r st' :
    (forall row, st_orders st !! orderID = Some row -> ackWithin (row_order row) result) ->
    applyTransaction orderID result eventAt receivedAt stream fills skip n fault st = (r, st') ->
    orderStep st st'
| step_refresh id dbnow st r st' : refreshTransaction id dbnow st = (r, st') -> orderStep st st'
| step_create order dbnow st r st' :
    intentPositive order -> createIntentTransaction order dbnow st = (r, st') -> orderStep st st'
| step_defer orderID next dbnow st r st' : deferTransaction orderID next dbnow st = (r, st') -> orderStep st st'
| step_fail orderID next dbnow st r st' : markFailureTransaction orderID next dbnow st = (r, st') -> orderStep st st'
| step_absent orderID expected next dbnow st r st' :
    confirmTransaction orderID expected next dbnow st = (r, st') -> orderStep st st'
| step_lease limit lease dbnow st r st' : leaseTransaction limit lease dbnow st = (r, st') -> orderStep st st'.

(** What happens to one row in a step: nothing the type is about, or one of
    the updates. *)
Definition sameCore (row row' : OrderRow) : Prop :=
  o_ID (row_order row') = o_ID (row_order row) /\ o_Quantity (row_order row') = o_Quantity (row_order row) /\
  o_FilledQuantity (row_order row') = o_FilledQuantity (row_order row) /\
  o_AveragePrice (row_order row') = o_AveragePrice (row_order row) /\
  o_Status (row_order row') = o_Status (row_order row) /\
  o_VenueOrderID (row_order row') = o_VenueOrderID (row_order row) /\
  o_TwapJobID (row_order row') = o_TwapJobID (row_order row) /\
  o_TwapSliceIndex (row_order row') = o_TwapSliceIndex (row_order row) /\
  o_TwapAttemptIndex (row_order row') = o_TwapAttemptIndex (row_order row) /\
  o_IdempotencyKey (row_order row') = o_IdempotencyKey (row_order row).

(** Fills only grow, a terminal status is final unless the order turns out to
    be filled completely, and the venue's identifier is learnt once. *)
Definition progress (row row' : OrderRow) : Prop :=
  o_Quantity (row_order row') = o_Quantity (row_order row) /\
  filledOf row <= filledOf row' /\
  (terminalStatus (o_Status (row_order row)) = true ->
     o_Status (row_order row') = o_Status (row_order row) \/
     (o_Status (row_order row') = "filled"%string /\ quantityOf row <= filledOf row')) /\
  (o_VenueOrderID (row_order row) <> ""%string ->
     o_VenueOrderID (row_order row') = o_VenueOrderID (row_order row)).

Lemma progress_refl (row : OrderRow) : progress row row.
Proof. split; [done|]. split; [lra|]. split; [by left|done]. Qed.

Lemma progress_trans (a b c : OrderRow) : progress a b -> progress b c -> progress a c.
Proof.
  intros (Q1 & F1 & T1 & V1) (Q2 & F2 & T2 & V2). split; [congruence|]. split; [lra|].
  assert (quantityOf b = quantityOf a) as Eq by (unfold quantityOf; by rewrite Q1). split.
  - intros Ht. destruct (T1 Ht) as [E|[E H]].
    + rewrite <- E in Ht. destruct (T2 Ht) as [->|[-> ?]]; [by left|right]. rewrite <- Eq. done.
    + right. assert (terminalStatus (o_Status (row_order b)) = true) as Hb by (by rewrite E).
      destruct (T2 Hb) as [->|[-> ?]]; (split; [done|lra]).
  - intros Hv. rewrite V2; [by apply V1|]. by rewrite V1.
Qed.

Lemma sameCore_progress (row row' : OrderRow) : sameCore row row' -> progress row row'.
Proof.
  intros (? & E2 & E3 & _ & E5 & E6 & _). unfold progress, filledOf. rewrite E2, E3, E5, E6.
  split; [done|]. split; [lra|]. split; [by left|done].
Qed.

Lemma sameCore_typed (row row' : OrderRow) q f a :
  sameCore row row' -> orderTyped (row_order row) q f a -> orderTyped (row_order row') q f a.
Proof. intros (? & E2 & E3 & E4 & E5 & _) []. constructor; by rewrite ?E2, ?E3, ?E4, ?E5. Qed.

(** A step leaves a row's core, applies a report, rejects an absent order, or
    adds a typed row. *)
Definition stepped (st st' : Store D) : Prop :=
  trackerSane (st_tracker st') /\
  (forall id row, st_orders st !! id = Some row -> is_Some (st_orders st' !! id)) /\
  forall id row', st_orders st' !! id = Some row' ->
    (exists row, st_orders st !! id = Some row /\ progress row row' /\ o_ID (row_order row') = o_ID (row_order row) /\
       exists q f a, orderTyped (row_order row') q f a) \/
    (st_orders st !! id = None /\ o_ID (row_order row') = id /\ exists q f a, orderTyped (row_order row') q f a).

Lemma applied_progress orderID result eventAt fills skip (st st' : Store D) row row' q f a f' a' inserted :
  applied orderID result eventAt fills skip st st' row row' q f a f' a' inserted ->
  ackWithin (row_order row) result -> progress row row' /\ o_ID (row_order row') = o_ID (row_order row).
Proof.
  intros [_ _ Hi T T' Hm Ht Hv _ (? & ? & ? & ? & ? & ? & ? & ? & ? & Hs)] Hack.
  assert (o_Quantity (row_order row') = o_Quantity (row_order row) /\ o_ID (row_order row') = o_ID (row_order row))
    as [Eq Ei] by (by rewrite Hs).
  split; [|done]. apply insertFills_sane in Hi as [Hsane _].
  pose proof (mergedFill_bounds _ _ _ _ _ _ _ _ Hm Hsane (orderTyped_scan _ _ _ _ T) Hack) as Hb.
  unfold progress, filledOf, quantityOf.
  rewrite (numericColumn_parse _ _ (ot_filled _ _ _ _ T)), (numericColumn_parse _ _ (ot_filled _ _ _ _ T')),
    (numericColumn_parse _ _ (ot_quantity _ _ _ _ T)).
  destruct (ot_filled _ _ _ _ T) as (_ & F18 & _), (ot_quantity _ _ _ _ T) as (_ & Q18 & _).
  unfold is18 in *. split; [done|]. split.
  { rewrite <- F18. apply qround_mono. lra. }
  split.
  - intros H. destruct (Ht H) as [?|[? ?]]; [by left|right]. split; [done|]. rewrite <- Q18. by apply qround_mono.
  - intros Hn. rewrite Hv. unfold bindVenueOrderID. destruct (String.eqb_spec (o_VenueOrderID (row_order row)) ""); [done|].
    by cbn [andb].
Qed.

Lemma stepped_core (st st' : Store D) :
  storeTyped st -> trackerSane (st_tracker st') ->
  (forall id, option_Forall2 sameCore (st_orders st !! id) (st_orders st' !! id)) -> stepped st st'.
Proof.
  intros [Ho _] Ht H. split; [done|]. split.
  - intros id row Hr. specialize (H id). rewrite Hr in H. inversion H; eauto.
  - intros id row' Hr. specialize (H id). rewrite Hr in H. inversion H as [row ? Hc Hl|]; subst. left.
    symmetry in Hl. exists row. split; [done|]. split; [by apply sameCore_progress|]. split; [apply Hc|].
    destruct (Ho _ _ Hl) as (_ & q & f & a & T). exists q, f, a. by eapply sameCore_typed.
Qed.

Lemma sameCore_refl (row : OrderRow) : sameCore row row.
Proof. by repeat split. Qed.

Lemma sameCore_maps (m : gmap string OrderRow) id : option_Forall2 sameCore (m !! id) (m !! id).
Proof. destruct (m !! id); constructor. apply sameCore_refl. Qed.

Lemma sameCore_insert (m : gmap string OrderRow) id row row' :
  m !! id = Some row -> sameCore row row' ->
  (forall k, option_Forall2 sameCore (m !! k) (<[id := row']> m !! k)).
Proof.
  intros Hr Hc k. destruct (decide (k = id)) as [->|Hn].
  - rewrite lookup_insert_eq, Hr. by constructor.
  - rewrite lookup_insert_ne by done. apply sameCore_maps.
Qed.

Lemma sameCore_alter (g : OrderRow -> OrderRow) (m : gmap string OrderRow) id k :
  (forall r, sameCore r (g r)) -> option_Forall2 sameCore (m !! k) (alter g id m !! k).
Proof.
  intros Hg. destruct (decide (k = id)) as [->|Hn].
  - rewrite lookup_alter_eq. destruct (m !! id); constructor. apply Hg.
  - rewrite lookup_alter_ne by done. apply sameCore_maps.
Qed.

Lemma sameCore_trans (a b c : OrderRow) : sameCore a b -> sameCore b c -> sameCore a c.
Proof. unfold sameCore. intros. repeat split; naive_solver congruence. Qed.

Lemma sameCore_maps_trans (x y z : option OrderRow) :
  option_Forall2 sameCore x y -> option_Forall2 sameCore y z -> option_Forall2 sameCore x z.
Proof. intros [a b Hab|] Hz; inversion Hz; subst; constructor. by eapply sameCore_trans. Qed.

Lemma sameCore_lease (dbnow : GoTime) (lease : Duration) (rows : list OrderRow) : forall (m : gmap string OrderRow) k,
  option_Forall2 sameCore (m !! k)
    (fold_left (fun m r => alter (fun r => r <| row_reconcile_lease_until := Some (TimeAdd dbnow lease) |>)
                             (o_ID (row_order r)) m) rows m !! k).
Proof.
  induction rows as [|r rows IH]; intros m k; [apply sameCore_maps|]. cbn [fold_left].
  eapply sameCore_maps_trans; [|apply IH].
  apply sameCore_alter. intros x. by repeat split.
Qed.

(** One row replaced. *)
Lemma stepped_insert (st st' : Store D) id row row' :
  storeTyped st -> trackerSane (st_tracker st') -> st_orders st' = <[id := row']> (st_orders st) ->
  st_orders st !! id = Some row -> progress row row' -> o_ID (row_order row') = o_ID (row_order row) ->
  (exists q f a, orderTyped (row_order row') q f a) -> stepped st st'.
Proof.
  intros [Ho Ht0] Ht E Hr Hp Hid T. split; [done|]. split.
  - intros k r Hk. rewrite E. apply lookup_insert_is_Some'. eauto.
  - intros k r' Hk. rewrite E in Hk. left. apply lookup_insert_Some in Hk as [[<- <-]|[Hn Hk]].
    + by exists row.
    + exists r'. split; [done|]. split; [apply progress_refl|]. split; [done|]. by destruct (Ho _ _ Hk).
Qed.

Lemma absentRow_typed (st : Store D) orderID expected next dbnow row q f a :
  absenceCondition st orderID expected row = true -> orderTyped (row_order row) q f a ->
  orderTyped (row_order (absentRow next dbnow row)) q f a /\ progress row (absentRow next dbnow row).
Proof.
  unfold absenceCondition. intros H [Tq Tf Ta Hq Hf Hfq Ha Hs]. bool_to_prop.
  assert (f == 0) as E.
  { rewrite <- (numericColumn_parse _ _ Tf). by apply dIsZero_val. }
  assert (terminalStatus (o_Status (row_order row)) = false) as Hnt.
  { unfold openStatus in *. destruct (terminalStatus (o_Status (row_order row))) eqn:E'; [|done].
    unfold terminalStatus in E'. repeat match goal with H : (_ || _) = true |- _ => apply orb_true_iff in H as [H|H] end;
      apply String.eqb_eq in E'; rewrite E' in *; done. }
  assert (progress row row) as Hrefl by apply progress_refl.
  unfold absentRow; cbv zeta. destruct (confirmedAbsentRejectAfter <=? _)%Z; cbn [row_order].
  - split.
    + constructor; cbn; try done; [|apply list_elem_of_In; cbn; tauto].
      eapply numericColumn_proper; [|apply numericColumn_zero]. lra.
    + split; [done|]. split; [|split; [cbn; congruence|done]].
      unfold filledOf; cbn [row_order]. rewrite (numericColumn_parse _ _ Tf).
      cbn. rewrite (numericColumn_parse _ _ numericColumn_zero). lra.
  - split; [by constructor|done].
Qed.

Lemma createIntent_stepped (order : Order) dbnow (st st' : Store D) r :
  storeTyped st -> intentPositive order -> createIntentTransaction order dbnow st = (r, st') -> stepped st st'.
Proof.
  intros HT (d & Hd & Hpos) H. pose proof HT as [Ho Ht]. unfold createIntentTransaction in H.
  destruct (byIdempotency _ _); [injection H as <- <-; apply stepped_core; try done; intros; apply sameCore_maps|].
  set (o := order <| o_TwapJobID := _ |> <| o_TwapSliceIndex := _ |> <| o_TwapAttemptIndex := _ |>) in H.
  destruct (insertOrder o dbnow st) as [row|e] eqn:Ei;
    [|injection H as <- <-; apply stepped_core; try done; intros; apply sameCore_maps].
  injection H as <- <-. unfold insertOrder in Ei.
  destruct (st_orders st !! o_ID o) eqn:El; [done|]. destruct (findOrder _ _); [done|].
  destruct (numericText (o_Quantity o)) as [tq|] eqn:Eq; [|done].
  destruct (nullableNumeric (o_Price o)) as [tp|]; [|done]. injection Ei as <-.
  split; [done|]. split.
  - intros k r' Hk. cbn. apply lookup_insert_is_Some'. eauto.
  - intros k r' Hk. cbn in Hk. apply lookup_insert_Some in Hk as [[<- <-]|[Hn Hk]].
    + right. split; [done|]. split; [done|]. exists (qround 18 (dval d)), 0, 0.
      constructor; cbn; try lra; [by eapply numericText_column|apply numericColumn_zero..|].
      apply list_elem_of_In; cbn; tauto.
    + left. exists r'. split; [done|]. split; [apply progress_refl|]. split; [done|]. by destruct (Ho _ _ Hk).
Qed.

Lemma orderStep_stepped (st st' : Store D) : storeTyped st -> orderStep st st' -> stepped st st'.
Proof.
  intros HT Hs. pose proof HT as [Ho Ht]. destruct Hs as
    [orderID result ea ra stream fills skip n fault st r st' Hack H|id dbnow st r st' H|order dbnow st r st' Hp H
    |orderID next dbnow st r st' H|orderID next dbnow st r st' H|orderID expected next dbnow st r st' H
    |limit lease dbnow st r st' H].
  - destruct (apply_cases _ _ _ _ _ _ _ _ _ _ _ _ H HT Hack) as (_ & Ht' & Hr). destruct r as [[o c]|e].
    + destruct Hr as (row & row' & q & f & a & f' & a' & ins & Hap & _). pose proof (Hack _ (ap_row _ _ _ _ _ _ _ _ _ _ _ _ _ _ _ Hap)).
      destruct (applied_progress _ _ _ _ _ _ _ _ _ _ _ _ _ _ _ Hap) as [? ?]; [done|].
      destruct Hap. eapply stepped_insert; eauto.
    + destruct Hr as [E _]. apply stepped_core; try done. intros id. rewrite E. apply sameCore_maps.
  - apply stepped_core; try done; unfold refreshTransaction in H;
      repeat case_match; simplify_eq/=; try done; intros; apply sameCore_maps.
  - by eapply createIntent_stepped.
  - injection H as <- <-. apply stepped_core; try done. intros id. apply sameCore_alter. by repeat split.
  - unfold markFailureTransaction in H. destruct (st_orders st !! orderID) as [row|] eqn:Er;
      [|injection H as <- <-; apply stepped_core; try done; intros; apply sameCore_maps].
    destruct (negb _); [injection H as <- <-; apply stepped_core; try done; intros; apply sameCore_maps|].
    cbv zeta in H.
    assert (forall k, option_Forall2 sameCore (st_orders st !! k)
      (<[orderID := failReconcile (timestamptz (D := D) next) dbnow row]> (st_orders st) !! k)) as Hc.
    { apply (sameCore_insert _ _ row); [done|]. by repeat split. }
    apply stepped_core; try done; repeat case_match; simplify_eq/=; try done.
  - unfold confirmTransaction in H. destruct (st_orders st !! orderID) as [row|] eqn:Er;
      [destruct (absenceCondition _ _ _ _) eqn:Ea|];
      try (injection H as <- <-; apply stepped_core; try done; intros; apply sameCore_maps).
    destruct (Ho _ _ Er) as (Hid & q & f & a & T).
    destruct (absentRow_typed _ _ _ (timestamptz (D := D) next) dbnow _ _ _ _ Ea T) as [T' Hp].
    injection H as <- <-. eapply stepped_insert; eauto.
    unfold absentRow; cbv zeta. by destruct (_ <=? _)%Z.
  - injection H as <- <-. apply stepped_core; try done. intros id. apply sameCore_lease.
Qed.

Lemma stepped_typed (st st' : Store D) : storeTyped st -> stepped st st' -> storeTyped st'.
Proof.
  intros [Ho _] (Ht & _ & H). split; [|done]. intros id row' Hr.
  destruct (H _ _ Hr) as [(row & Hl & _ & Hid & T)|(_ & Hid & T)]; (split; [|done]); [|done].
  rewrite Hid. by apply (Ho id row Hl).
Qed.


Lemma orderStep_progress (st st' : Store D) (id : string) (row : OrderRow) :
  storeTyped st -> orderStep st st' -> st_orders st !! id = Some row ->
  exists row', st_orders st' !! id = Some row' /\ progress row row'.
Proof.
  intros HT Hs Hr. destruct (orderStep_stepped _ _ HT Hs) as (_ & Hk & Hp). destruct (Hk _ _ Hr) as [row1 H1].
  destruct (Hp _ _ H1) as [(row0 & H0 & Hpr & _)|[Hn _]]; [|congruence].
  rewrite Hr in H0. injection H0 as <-. by exists row1.
Qed.


(** *** Reports in any order *)

(** A report of the venue with a cumulative quantity. *)
Record Snapshot := mkSnapshot {
  sn_result : VenueResult;
  sn_eventAt : GoTime;
  sn_receivedAt : GoTime;
  sn_stream : bool;
  sn_tick : nat
}.

Definition cumulative (s : Snapshot) : Prop :=
  r_LocalCommandAck (sn_result s) = false /\ TrimSpace (r_FilledQuantity (sn_result s)) <> ""%string.

Definition snapshotQty (s : Snapshot) : Q :=
  dval (default dZero (dNewFromString (D := D) (TrimSpace (r_FilledQuantity (sn_result s))))).

(** The store after the snapshots, if every transaction succeeds. *)
Fixpoint applySnapshots (orderID : string) (l : list Snapshot) (st : Store D) : option (Store D) :=
  match l with
  | [] => Some st
  | s :: rest =>
      match applyTransaction orderID (sn_result s) (sn_eventAt s) (sn_receivedAt s) (sn_stream s) [] false
              (sn_tick s) None st with
      | (Ok _, st') => applySnapshots orderID rest st'
      | (Err _, _) => None
      end
  end.

(** The specification: the largest quantity ever reported, at most the order's. *)
Definition converged (q f : Q) (l : list Snapshot) : Q :=
  foldr (fun s acc => Qmax (Qmin q (qround 18 (snapshotQty s))) acc) f l.

Lemma qround_Qmax (a b : Q) : qround 18 (Qmax a b) == Qmax (qround 18 a) (qround 18 b).
Proof.
  destruct (Qlt_le_dec a b) as [H|H].
  - pose proof (qround_mono 18 a b ltac:(lra)). rewrite (qround_proper 18 (Qmax a b) b), Q.max_r; [reflexivity|done|].
    apply Q.max_r. lra.
  - pose proof (qround_mono 18 b a H). rewrite (qround_proper 18 (Qmax a b) a), Q.max_l; [reflexivity|done|].
    by apply Q.max_l.
Qed.

Lemma qround_Qmin (a b : Q) : qround 18 (Qmin a b) == Qmin (qround 18 a) (qround 18 b).
Proof.
  destruct (Qlt_le_dec a b) as [H|H].
  - pose proof (qround_mono 18 a b ltac:(lra)). rewrite (qround_proper 18 (Qmin a b) a), Q.min_l; [reflexivity|done|].
    apply Q.min_l. lra.
  - pose proof (qround_mono 18 b a H). rewrite (qround_proper 18 (Qmin a b) b), Q.min_r; [reflexivity|done|].
    by apply Q.min_r.
Qed.

Lemma converged_perm (q f : Q) (l l' : list Snapshot) : Permutation l l' -> converged q f l == converged q f l'.
Proof.
  induction 1 as [|x l l' _ IH|x y l|l l' l'' _ IH1 _ IH2]; cbn; [reflexivity|by rewrite IH| |by rewrite IH1].
  rewrite !Q.max_assoc. by rewrite (Q.max_comm (Qmin q (qround 18 (snapshotQty y)))).
Qed.

Lemma converged_proper (q f f' : Q) (l : list Snapshot) : f == f' -> converged q f l == converged q f' l.
Proof. intros E. induction l as [|s l IH]; cbn; [done|by rewrite IH]. Qed.

Lemma converged_snoc (q f : Q) (s : Snapshot) (l : list Snapshot) :
  converged q (Qmax (Qmin q (qround 18 (snapshotQty s))) f) l == converged q f (s :: l).
Proof.
  induction l as [|x l IH]; [reflexivity|].
  cbn [converged foldr] in *. change (foldr _ ?f l) with (converged q f l) in *. rewrite IH.
  rewrite !Q.max_assoc. by rewrite (Q.max_comm (Qmin q (qround 18 (snapshotQty x)))).
Qed.

Lemma cap_max (q f c : Q) : f <= q -> Qmin q (Qmax f c) == Qmax (Qmin q c) f.
Proof.
  intros H. destruct (Q.max_spec f c) as [[? ->]|[? ->]]; destruct (Q.min_spec q c) as [[? ->]|[? ->]];
    rewrite ?(Q.max_l q f), ?(Q.max_r q f), ?(Q.max_l c f), ?(Q.max_r c f), ?(Q.min_r q f) by lra; try reflexivity; lra.
Qed.

Lemma snapshot_step (orderID : string) (s : Snapshot) (st st' : Store D) row r :
  storeTyped st -> cumulative s -> st_orders st !! orderID = Some row ->
  applyTransaction orderID (sn_result s) (sn_eventAt s) (sn_receivedAt s) (sn_stream s) [] false
    (sn_tick s) None st = (Ok r, st') ->
  storeTyped st' /\ exists row', st_orders st' !! orderID = Some row' /\ quantityOf row' = quantityOf row /\
    filledOf row' == Qmax (Qmin (quantityOf row) (qround 18 (snapshotQty s))) (filledOf row).
Proof.
  intros HT [Hack Hc] Hr H.
  assert (forall row, st_orders st !! orderID = Some row -> ackWithin (row_order row) (sn_result s)) as Ha
    by (intros ? _ ?; congruence).
  split. { eapply stepped_typed; [done|]. apply orderStep_stepped; [done|]. by eapply step_apply. }
  destruct (apply_cases _ _ _ _ _ _ _ _ _ _ _ _ H HT Ha) as (_ & _ & Hap). destruct r as [o c].
  destruct Hap as (row0 & row' & q & f & a & f' & a' & ins & Hap & _).
  destruct Hap as [Hr0 Ho' _ T T' Hm _ _ _ (? & ? & ? & ? & ? & ? & ? & ? & ? & Hsame)].
  rewrite Hr in Hr0. injection Hr0 as <-. exists row'. split; [rewrite Ho'; apply lookup_insert_eq|].
  split; [unfold quantityOf; by rewrite Hsame|]. unfold quantityOf, filledOf.
  rewrite (numericColumn_parse _ _ (ot_filled _ _ _ _ T)), (numericColumn_parse _ _ (ot_filled _ _ _ _ T')),
    (numericColumn_parse _ _ (ot_quantity _ _ _ _ T)).
  unfold mergedFill, reported in Hm. rewrite Hack in Hm. cbn [andb] in Hm.
  apply String.eqb_neq in Hc. rewrite Hc in Hm. fold (snapshotQty s) in Hm.
  destruct (ot_filled _ _ _ _ T) as (_ & F18 & _), (ot_quantity _ _ _ _ T) as (_ & Q18 & _).
  rewrite (qround_proper 18 _ _ Hm), qround_Qmin, qround_Qmax. unfold is18 in *. rewrite F18, Q18.
  pose proof (ot_within _ _ _ _ T). by apply cap_max.
Qed.

Lemma snapshots_value (orderID : string) (l : list Snapshot) : forall (st st' : Store D) row,
  storeTyped st -> Forall cumulative l -> st_orders st !! orderID = Some row ->
  applySnapshots orderID l st = Some st' ->
  exists row', st_orders st' !! orderID = Some row' /\
    filledOf row' == converged (quantityOf row) (filledOf row) l.
Proof.
  induction l as [|s l IH]; intros st st' row HT Hc Hr H; cbn [applySnapshots] in H.
  - injection H as <-. exists row. by split.
  - destruct (applyTransaction _ _ _ _ _ _ _ _ _ _) as [[r|e] st1] eqn:Ea in H; [|done].
    inversion Hc as [|? ? Hs Hl]; subst.
    destruct (snapshot_step _ _ _ _ _ _ HT Hs Hr Ea) as (HT1 & row1 & Hr1 & Hq1 & Hf1).
    destruct (IH _ _ _ HT1 Hl Hr1 H) as (row' & Hr' & E). exists row'. split; [done|].
    rewrite E, Hq1, <- converged_snoc. by apply converged_proper.
Qed.

(** C15: reports converge: whatever the order in which snapshots of the venue
    arrive, with whatever event times, the filled quantity ends as the largest
    one reported, capped at the order's quantity and rounded to the column. *)
Theorem snapshots_converge (orderID : string) (l l' : list Snapshot) (st st1 st2 : Store D) (row : OrderRow) :
  storeTyped st -> Forall cumulative l -> Permutation l l' -> st_orders st !! orderID = Some row ->
  applySnapshots orderID l st = Some st1 -> applySnapshots orderID l' st = Some st2 ->
  exists row1 row2, st_orders st1 !! orderID = Some row1 /\ st_orders st2 !! orderID = Some row2 /\
    filledOf row1 == converged (quantityOf row) (filledOf row) l /\ filledOf row2 == filledOf row1.
Proof.
  intros HT Hc P Hr H1 H2.
  destruct (snapshots_value _ _ _ _ _ HT Hc Hr H1) as (row1 & Hr1 & E1).
  assert (Forall cumulative l') as Hc' by (by rewrite <- P).
  destruct (snapshots_value _ _ _ _ _ HT Hc' Hr H2) as (row2 & Hr2 & E2).
  exists row1, row2. split; [done|]. split; [done|]. split; [done|]. rewrite E1, E2. by apply converged_perm.
Qed.

(** *** Reports repeated *)

Lemma venueKey_bound (row row' : OrderRow) (result : VenueResult) :
  o_VenueOrderID (row_order row') = o_VenueOrderID (bindVenueOrderID (row_order row) result) ->
  venueKey row' result = venueKey row result.
Proof.
  intros E. unfold venueKey. rewrite E. unfold bindVenueOrderID.
  destruct (String.eqb_spec (o_VenueOrderID (row_order row)) "") as [Hv|Hv]; cbn [andb].
  - destruct (String.eqb_spec (TrimSpace (r_VenueOrderID result)) "") as [Ht|Ht]; cbn [negb].
    + rewrite Hv, Ht. done.
    + cbn. apply String.eqb_neq in Ht. by rewrite Ht.
  - apply String.eqb_neq in Hv. by rewrite Hv.
Qed.

Lemma cap_idem (q x : Q) : Qmin q (Qmin q x) == Qmin q x.
Proof. by rewrite Q.min_assoc, Q.min_id. Qed.

Lemma cap_again (q a c : Q) : Qmin q (Qmax (Qmin q (Qmax a c)) c) == Qmin q (Qmax a c).
Proof.
  rewrite Q.min_max_distr, cap_idem. apply Q.max_l. apply Q.min_le_compat_l, Q.le_max_r.
Qed.

Lemma reported_proper (f f' : Q) (result : VenueResult) (ins : list OrderFill) :
  f == f' -> reported f result ins == reported f' result ins.
Proof. intros E. unfold reported. destruct (_ =?s _); by rewrite E. Qed.

Lemma reported_again (q f : Q) (result : VenueResult) (ins : list OrderFill) :
  is18 q -> let f1 := qround 18 (Qmin q (reported f result ins)) in
  qround 18 (Qmin q (reported f1 result [])) == f1.
Proof.
  intros Hq f1. unfold f1, reported, is18 in *. destruct (TrimSpace (r_FilledQuantity result) =?s "").
  - cbn [sumQ foldr]. rewrite Qplus_0_r, !qround_Qmin, !qround_idem, Hq. apply cap_idem.
  - set (c := dval _). repeat (rewrite qround_Qmin || rewrite qround_Qmax || rewrite qround_idem).
    rewrite !Hq. apply cap_again.
Qed.

(** A report delivered twice counts once: applying the same report of the
    venue again, at any later moment, inserts no fill and leaves the filled
    quantity as it was, whether the report carries a cumulative quantity,
    trades, or both. *)
Theorem report_replayed_once (orderID : string) (result : VenueResult) (eventAt receivedAt : GoTime)
    (stream : bool) (fills : list OrderFill) (skip : bool) (n n' : nat) (st st1 st2 : Store D) r1 r2 :
  storeTyped st -> r_LocalCommandAck result = false ->
  applyTransaction orderID result eventAt receivedAt stream fills skip n None st = (Ok r1, st1) ->
  applyTransaction orderID result eventAt receivedAt stream fills skip n' None st1 = (Ok r2, st2) ->
  st_fills st2 = st_fills st1 /\
  exists row1 row2, st_orders st1 !! orderID = Some row1 /\ st_orders st2 !! orderID = Some row2 /\
    filledOf row2 == filledOf row1.
Proof.
  intros HT Hna H1 H2.
  assert (forall (s : Store D) row, st_orders s !! orderID = Some row -> ackWithin (row_order row) result) as Ha
    by (intros ? ? _ ?; congruence).
  assert (storeTyped st1) as HT1.
  { eapply stepped_typed; [done|]. apply orderStep_stepped; [done|].
    eapply step_apply; [apply (Ha st)|exact H1]. }
  destruct (apply_cases _ _ _ _ _ _ _ _ _ _ _ _ H1 HT (Ha st)) as (_ & _ & Hap1). destruct r1 as [o1 c1].
  destruct Hap1 as (row & row1 & q & f & a & f1 & a1 & ins & Hap1 & _).
  destruct (apply_cases _ _ _ _ _ _ _ _ _ _ _ _ H2 HT1 (Ha st1)) as (_ & _ & Hap2). destruct r2 as [o2 c2].
  destruct Hap2 as (row1' & row2 & q' & f' & a' & f2 & a2 & ins2 & Hap2 & _).
  destruct Hap1 as [Hr Ho1 Hi T T1 Hm _ Hv _ (? & ? & ? & ? & ? & ? & ? & ? & ? & Hsame)].
  destruct Hap2 as [Hr1 Ho2 Hi2 T1' T2 Hm2 _ _ _ _].
  rewrite Ho1, lookup_insert_eq in Hr1. injection Hr1 as <-.
  assert (insertFills (st_fills st1) (scanOrder row1) (venueKey row1 result) fills = Ok ([], st_fills st1)) as Hi2'.
  { rewrite (venueKey_bound _ _ _ Hv). apply (insertFills_again (scanOrder row) _ _ _) with (st_fills st) ins (st_fills st1); [..|done|done].
    - change (o_TradingAccountID (row_order row1) = o_TradingAccountID (row_order row)). by rewrite Hsame.
    - change (o_Exchange (row_order row1) = o_Exchange (row_order row)). by rewrite Hsame. }
  rewrite Hi2' in Hi2. injection Hi2 as <- Hfl. split; [done|].
  exists row1, row2. rewrite Ho1, Ho2, !lookup_insert_eq. split; [done|]. split; [done|].
  unfold filledOf. rewrite (numericColumn_parse _ _ (ot_filled _ _ _ _ T1)), (numericColumn_parse _ _ (ot_filled _ _ _ _ T2)).
  assert (q' == q) as Eq.
  { rewrite <- (numericColumn_parse _ _ (ot_quantity _ _ _ _ T1)). symmetry.
    apply (numericColumn_parse _ _ (ot_quantity _ _ _ _ T1')). }
  assert (f' == qround 18 f1) as Ef.
  { rewrite <- (numericColumn_parse _ _ (ot_filled _ _ _ _ T1)). symmetry.
    apply (numericColumn_parse _ _ (ot_filled _ _ _ _ T1')). }
  destruct (ot_quantity _ _ _ _ T) as (_ & Q18 & _). unfold mergedFill in Hm, Hm2. rewrite Hna in Hm, Hm2.
  cbn [andb] in Hm, Hm2. destruct skip.
  - rewrite (qround_proper 18 _ _ Hm2), Ef. apply qround_idem.
  - set (F := qround 18 (Qmin q (reported f result ins))).
    assert (qround 18 f1 == F) as E1 by (by apply qround_proper).
    transitivity (qround 18 (Qmin q (reported F result []))).
    + apply qround_proper. rewrite Hm2, Eq, (reported_proper f' F); [reflexivity|by rewrite Ef].
    + rewrite E1. by apply (reported_again q f result ins).
Qed.
End OrderFacts.

(** ** Witnesses *)

Section OrderStoreWitnesses.

(** A world with a still clock, no failures and no other process. *)
Definition stillEnv : Env Dec := {|
  clock _ := 1000000000 * Second; dbClock _ := 1000000000 * Second; dbFault _ := None;
  interfere _ st := st; newUUID _ := "uuid-1"%string; mapScan _ := []
|}.
#[local] Existing Instance stillEnv.

Definition openOrder : Order :=
  zero_Order <| o_ID := "o1"%string |> <| o_Exchange := "binance"%string |> <| o_Quantity := "5"%string |>
    <| o_FilledQuantity := "0"%string |> <| o_AveragePrice := "0"%string |> <| o_Status := "open"%string |>.
Definition openRow : OrderRow := mkOrderRow openOrder None None None None (PgAt 0).
Definition openStore : Store Dec :=
  mkStore {["o1"%string := openRow]} ∅ ∅ ∅ ∅ ∅ [] [] [] newOrderFillAverageTracker.

Lemma integer_column (s : string) (n : Z) : TrimSpace s = s -> dec_parse s = Some (mkDec n 0) -> numericColumn (D := Dec) s (inject_Z n).
Proof.
  intros Ht Hp. split; [done|]. split; [apply qround_int; lia|]. exists (mkDec n 0). split; [done|].
  unfold dval; cbn. change (pow10 0) with 1%Q. ring.
Qed.

Lemma openStore_typed : storeTyped openStore.
Proof.
  split; [|intros a s; cbn; by rewrite lookup_empty].
  intros id row. cbn [st_orders openStore]. intros [<- <-]%lookup_singleton_Some. split; [done|].
  exists (inject_Z 5), (inject_Z 0), (inject_Z 0).
  constructor; try (apply integer_column; vm_compute; reflexivity); try (vm_compute; congruence); try reflexivity.
  apply list_elem_of_In. cbn. tauto.
Qed.

Definition fillReport (filled : string) : VenueResult :=
  zero_VenueResult <| r_VenueOrderID := "v1"%string |> <| r_Status := "open"%string |>
    <| r_FilledQuantity := filled |> <| r_AveragePrice := "100"%string |>.
Definition tradeReport : VenueResult := zero_VenueResult <| r_VenueOrderID := "v1"%string |>.

Definition afterReport (filled : string) (st : Store Dec) : Store Dec :=
  snd (applyTransaction "o1" (fillReport filled) (7 * Second) (8 * Second) true [] false 0 None st).

Lemma report_step (filled : string) (st : Store Dec) : orderStep st (afterReport filled st).
Proof.
  eapply step_apply; [|apply surjective_pairing]. intros row _ H. cbn in H. done.
Qed.



Definition snapshotOf (filled : string) (eventAt : GoTime) : Snapshot :=
  mkSnapshot (fillReport filled) eventAt (9 * Second) true 0.
Definition snapshots : list Snapshot := [snapshotOf "3" (7 * Second); snapshotOf "2" (8 * Second)].

Lemma snapshots_converge_witness :
  exists st1 st2, applySnapshots "o1" snapshots openStore = Some st1 /\
    applySnapshots "o1" (rev snapshots) openStore = Some st2 /\
    exists row1 row2, st_orders st1 !! "o1"%string = Some row1 /\ st_orders st2 !! "o1"%string = Some row2 /\
      (filledOf (D := Dec) row1 == converged (D := Dec) (quantityOf (D := Dec) openRow) (filledOf (D := Dec) openRow) snapshots)%Q /\
      (filledOf (D := Dec) row2 == filledOf (D := Dec) row1)%Q.
Proof.
  destruct (applySnapshots "o1" snapshots openStore) as [st1|] eqn:E1; [|vm_compute in E1; done].
  destruct (applySnapshots "o1" (rev snapshots) openStore) as [st2|] eqn:E2; [|vm_compute in E2; done].
  exists st1, st2. split; [done|]. split; [done|].
  pose proof (snapshots_converge "o1" snapshots (rev snapshots) openStore st1 st2 openRow openStore_typed) as H.
  assert (Forall cumulative snapshots) as Hc by (repeat constructor; vm_compute; congruence).
  specialize (H Hc (Permutation_rev snapshots) ltac:(vm_compute; reflexivity) E1 E2). exact H.
Defined.

Definition tradeFill : OrderFill :=
  zero_OrderFill <| of_TradeID := "t1"%string |> <| of_Quantity := "2"%string |> <| of_Price := "100"%string |>.
Definition afterTrade (st : Store Dec) : Result (Order * bool) * Store Dec :=
  applyTransaction "o1" tradeReport (7 * Second) (8 * Second) true [tradeFill] false 0 None st.

Lemma report_replayed_once_witness :
  st_fills (snd (afterTrade (snd (afterTrade openStore)))) = st_fills (snd (afterTrade openStore)) /\
  exists row1 row2, st_orders (snd (afterTrade openStore)) !! "o1"%string = Some row1 /\
    st_orders (snd (afterTrade (snd (afterTrade openStore)))) !! "o1"%string = Some row2 /\
    (filledOf (D := Dec) row2 == filledOf (D := Dec) row1)%Q.
Proof.
  destruct (afterTrade openStore) as [[r1|] st1] eqn:E1; [|vm_compute in E1; done].
  cbn [snd]. destruct (afterTrade st1) as [[r2|] st2] eqn:E2.
  2:{ vm_compute in E1. injection E1 as <- <-. vm_compute in E2. done. }
  pose proof (report_replayed_once "o1" tradeReport (7 * Second) (8 * Second) true [tradeFill] false 0 0
    openStore st1 st2 r1 r2 openStore_typed eq_refl E1 E2) as H. exact H.
Defined.
End OrderStoreWitnesses.
