(* ===== verification/OrderService.v ===== *)
(** * The order service (service.go)

    Placing, querying and cancelling an order for a user: the request is
    normalised and checked against the instrument's rules, the intent is
    written before anything is sent, and the venue's answer, or what a query
    finds out after an uncertain answer, is merged into the stored order. *)
From Stdlib Require Import ZArith QArith Qabs Lqa String.
From stdpp Require Import base strings list gmap.
From S2P Require Import Prelude Decimal DecimalRef Types Sha256 Quantity Validate ArbMath Resolution FillAverage Store OrderStore.

#[local] Set Warnings "-clear-no-such-hyp".

(** [Capabilities], exchange/types.go. *)
Record Capabilities := mkCapabilities {
  cap_Products : list string;
  cap_QuoteAssets : list string;
  cap_TimeInForce : list string;
  cap_PostOnly : bool;
  cap_ReduceOnly : bool;
  cap_MakerTwap : bool;
  cap_PrivateOrderStream : bool;
  cap_OneWayOnly : bool;
  cap_Arbitrage : bool
}.

(** The services the trader calls: the instrument catalogue, the accounts, the
    venue adapters of the registry.  An answer may differ at every tick.  An
    adapter that does not report its capabilities has [None] there;
    [uuidParses] is whether the UUID library reads a text. *)
Class Services := {
  catalogGet : nat -> Z -> Result Instrument;
  credentialsOwner : nat -> string -> Result string;
  credentialsGet : nat -> string -> Z -> Result Credentials;
  credentialsInternal : nat -> string -> Z -> Result Credentials;
  adapterKnown : string -> bool;
  adapterCapabilities : nat -> string -> Credentials -> option (Result Capabilities);
  adapterClientID : string -> string -> string;
  adapterBBO : nat -> string -> VenueInstrument -> VenueBBO * option GoError;
  adapterPlace : nat -> string -> Credentials -> OrderRequest -> VenueResult * option GoError;
  adapterCancel : nat -> string -> Credentials -> CancelRequest -> VenueResult * option GoError;
  adapterQuery : nat -> string -> VenueAdapter (Credentials * QueryRequest);
  orderStreamsConfigured : bool;
  uuidParses : string -> bool
}.

(** ** Errors and results *)

Definition wrapError (s : Sentinel) (text : string) (e : GoError) : GoError :=
  mkError (s :: err_is e) (String.append text (String.append ": " (err_text e))).

Definition uncertain (e : GoError) : bool :=
  errorsIs e DeadlineExceeded || errorsIs e Canceled || errorsIs e ErrUncertain.

Definition hasVenueResult (r : VenueResult) : bool :=
  negb (TrimSpace (r_Status r) =?s "") || negb (TrimSpace (r_ErrorCode r) =?s "") ||
  negb (TrimSpace (r_ErrorMessage r) =?s "") || negb (TrimSpace (r_VenueOrderID r) =?s "").

Definition wrapQueryError (e : GoError) : GoError :=
  if errorsIs e ErrRateLimited then wrapError ErrVenueRateLimited "venue rate limited" e
  else if errorsIs e ErrRejected || errorsIs e ErrOrderNotFound
  then wrapError ErrVenueRejected "venue rejected order" e
  else wrapError ErrVenueUncertain "venue result uncertain" e.

Definition wrapVenueError (e : GoError) : GoError :=
  if errorsIs e ErrRateLimited then wrapError ErrVenueRateLimited "venue rate limited" e
  else if errorsIs e ErrRejected || errorsIs e ErrOrderNotFound
  then wrapError ErrVenueRejected "venue rejected order" e
  else if errorsIs e ErrAmbiguousCancel || errorsIs e ErrUncertain
  then wrapError ErrVenueUncertain "venue result uncertain" e
  else if errorsIs e ErrInvalidQuantity then wrapError ErrInvalidArgument "invalid argument" e
  else wrapError ErrVenueUnavailable "venue unavailable" e.

Definition orderErrorResult (r : VenueResult) (status errorCode errorMessage : string) : VenueResult :=
  let r := if TrimSpace (r_Status r) =?s "" then r <| r_Status := status |> else r in
  let r := if TrimSpace (r_ErrorCode r) =?s "" then r <| r_ErrorCode := errorCode |> else r in
  if TrimSpace (r_ErrorMessage r) =?s "" then r <| r_ErrorMessage := errorMessage |> else r.

Definition classifyOrderError (e : GoError) : string :=
  if errorsIs e ErrPersistence then "persistence"
  else if errorsIs e ErrVenueRateLimited then "venue_rate_limited"
  else if errorsIs e ErrVenueRejected then "venue_rejected"
  else if errorsIs e ErrVenueUncertain then "venue_uncertain"
  else if errorsIs e ErrVenueUnavailable then "venue_unavailable"
  else if errorsIs e ErrInvalidArgument then "validation"
  else "internal".

(** A message that may name a credential is not passed on. *)
Definition sanitizeError (e : GoError) : string :=
  let lower := ToLower (err_text e) in
  if existsb (Contains lower) ["apikey"; "api-key"; "secret"; "passphrase"; "signature"]%string
  then "venue request failed" else truncateMessage (err_text e).

Definition staticExchangeCapabilities (exchangeName : string) : Capabilities :=
  let name := ToLower (TrimSpace exchangeName) in
  let tif := ["GTC"; "IOC"; "POST_ONLY"]%string in
  if (name =?s "hyperliquid") || (name =?s "aster") || (name =?s "lighter")
  then mkCapabilities ["perpetual"]%string [] tif true true true true true true
  else mkCapabilities ["spot"; "perpetual"]%string [] tif true true true false false true.

Definition supportsCapability (values : list string) (expected : string) : bool :=
  existsb (fun v => EqualFold (TrimSpace v) (TrimSpace expected)) values.

Definition cancelableStatus (status : string) : bool :=
  (status =?s "open") || (status =?s "partially_filled") || (status =?s "unknown") || (status =?s "pending").

Section OrderService.
Context {D : Type} `{!Decimal D} `{!Postgres D} `{!Env D} `{svc : !Services}.
Local Open Scope dec_scope.

Definition itoa (v : Z) : string := dString (D := D) (dNewFromInt v).

Definition requestFingerprint (accountID instrumentID : Z) (side orderType quantity price : string)
    (extras : list string) : string :=
  let parts := [itoa accountID; itoa instrumentID; side; orderType; quantity; price] ++ extras in
  EncodeToString (Sum256 (bytes_of_string (Join parts "|"))).

Definition normalizeVenueResult (order : Order) (r : VenueResult) : VenueResult :=
  let r := match dNewFromString (D := D) (TrimSpace (r_FilledQuantity r)),
                 dNewFromString (D := D) (TrimSpace (o_Quantity order)) with
           | Some filled, Some quantity =>
               if dIsPositive quantity && (filled >=? quantity)
               then r <| r_Status := "filled"%string |> <| r_FilledQuantity := dString quantity |> else r
           | _, _ => r
           end in
  if TrimSpace (r_Status r) =?s "" then r <| r_Status := o_Status order |> else r.

(** ** Calls *)

Definition callCatalog (id : Z) : M D (Result Instrument) := do n <- tick; ret (catalogGet n id).

Definition callCapabilities (exchange : string) (account : Credentials) : M D (Result Capabilities) :=
  do n <- tick;
  ret (match adapterCapabilities n exchange account with
       | Some answer => answer
       | None => Ok (staticExchangeCapabilities (cr_Exchange account))
       end).

Definition callPlace (exchange : string) (account : Credentials) (request : OrderRequest)
    : M D (VenueResult * option GoError) :=
  run recordCall (CallPlace (cr_TradingAccountID account) request);
  do n <- tick; ret (adapterPlace n exchange account request).

Definition callCancel (exchange : string) (account : Credentials) (request : CancelRequest)
    : M D (VenueResult * option GoError) :=
  run recordCall (CallCancel (cr_TradingAccountID account) request);
  do n <- tick; ret (adapterCancel n exchange account request).

Definition callResolve (exchange : string) (account : Credentials) (instrument : Instrument) (order : Order)
    : M D (OrderResolution * option GoError) :=
  do n <- tick;
  ret (@resolveVenueOrder _ (adapterQuery n exchange)
         (account, mkQueryRequest (toVenueInstrument instrument) (o_ClientOrderID order)
                     (o_VenueOrderID order) (o_CreatedAt order))).

(** ** Writing a venue's answer *)

Definition bindHyperliquidOrderIDs (order : Order) : M D unit :=
  if negb orderStreamsConfigured || negb (EqualFold (TrimSpace (o_Exchange order)) "hyperliquid") then ret tt
  else
    let client := TrimSpace (o_ClientOrderID order) in
    let venue := TrimSpace (o_VenueOrderID order) in
    if (client =?s "") || (venue =?s "") then ret tt
    else
      let client := if adapterKnown (o_Exchange order) then adapterClientID (o_Exchange order) client else client in
      recordCall (CallBind (o_TradingAccountID order) (o_Exchange order) (o_ContractType order) client venue).

(** [VenueResult{...}] built from an adapter's result, without its raw answer. *)
Definition storedResult (r : VenueResult) (ack : bool) : VenueResult :=
  mkVenueResult (r_VenueOrderID r) (r_Status r) (r_FilledQuantity r) (r_AveragePrice r)
    (r_ErrorCode r) (r_ErrorMessage r) [] (r_Reference r) ack.

Definition persistResult (orderID eventType : string) (r : VenueResult) : M D (Order * option GoError) :=
  do updated <- UpdateResult orderID (storedResult r (r_LocalCommandAck r));
  match updated with
  | Err e => ret (zero_Order, Some e)
  | Ok updated =>
      run AppendEvent orderID eventType;
      run bindHyperliquidOrderIDs updated;
      ret (updated, None)
  end.

(** The answer of a failed query, if it carries anything, marked unknown. *)
Definition uncertainResult (r : VenueResult) (e : GoError) : VenueResult :=
  orderErrorResult (r <| r_Status := "unknown"%string |>) "unknown" "venue_uncertain" (sanitizeError e).

Definition persistUncertain (orderID eventType : string) (r : VenueResult) (e : GoError)
    : M D (Order * option GoError) :=
  do answer <- persistResult orderID eventType (uncertainResult r e);
  ret (match answer with
       | (_, Some persistErr) => (zero_Order, Some persistErr)
       | (updated, None) => (updated, Some (wrapQueryError e))
       end).

Definition absentError (orderID : string) : GoError :=
  mkError [ErrOrderNotFound] (String.append "venue order not found: venue history and active orders do not contain order " orderID).

(** [recover]: the query after a submission with an uncertain answer. *)
Definition recover (exchange : string) (account : Credentials) (instrument : Instrument) (intent : Order)
    : M D (Order * option GoError) :=
  do answer <- callResolve exchange account instrument intent;
  match answer with
  | (resolution, Some e) =>
      let result := or_Result resolution in
      if errorsIs e ErrRejected || errorsIs e ErrOrderNotFound then
        if hasVenueResult result then persistUncertain (o_ID intent) "reconcile_uncertain" result e
        else
          run AppendEvent (o_ID intent)
                (if errorsIs e ErrOrderNotFound then "reconcile_absent" else "reconcile_failed");
          ret (intent, Some (wrapQueryError e))
      else if hasVenueResult result then persistUncertain (o_ID intent) "reconcile_uncertain" result e
      else ret (zero_Order, Some (wrapError ErrVenueUncertain "venue result uncertain: update result" e))
  | (resolution, None) =>
      if or_ConfirmedAbsent resolution then
        run AppendEvent (o_ID intent) "reconcile_absent";
        ret (intent, Some (wrapQueryError (absentError (o_ID intent))))
      else persistResult (o_ID intent) "reconcile" (normalizeVenueResult intent (or_Result resolution))
  end.

(** ** Submitting *)

Definition placeSubmittedOrder (exchange : string) (account : Credentials) (instrument : Instrument)
    (intent : Order) (timeInForce : string) (postOnly skipSubmitted : bool) : M D (Order * option GoError) :=
  run (if skipSubmitted then ret (Ok tt) else AppendEvent (o_ID intent) "submitted");
  do answer <- callPlace exchange account
    (mkOrderRequest (toVenueInstrument instrument) (o_ClientOrderID intent) (o_Side intent) (o_OrderType intent)
       (o_Quantity intent) (o_Price intent) timeInForce postOnly (o_ReduceOnly intent));
  match answer with
  | (result, Some e) =>
      if uncertain e then
        do recovered <- recover exchange account instrument intent;
        match recovered with
        | (order, None) => ret (order, None)
        | (_, Some recoverErr) =>
            do written <- persistResult (o_ID intent) "uncertain"
              (orderErrorResult result "unknown" "venue_uncertain" (sanitizeError e));
            ret (match written with
                 | (_, Some persistErr) => (zero_Order, Some persistErr)
                 | (updated, None) =>
                     (updated, Some (mkError (ErrVenueUncertain :: err_is e ++ err_is recoverErr)
                        (Join ["venue result uncertain: place order: "; err_text e; "; recover order: ";
                               err_text recoverErr]%string "")))
                 end)
        end
      else
        let errorCode := if errorsIs e ErrInvalidQuantity then "invalid_quantity" else "venue_rejected" in
        do written <- persistResult (o_ID intent) "reject"
          (orderErrorResult result "rejected" errorCode (sanitizeError e));
        ret (match written with
             | (_, Some persistErr) => (zero_Order, Some persistErr)
             | (updated, None) => (updated, Some (wrapVenueError e))
             end)
  | (result, None) =>
      let result := normalizeVenueResult intent result in
      persistResult (o_ID intent) (if r_Status result =?s "pending" then "venue_submitted" else "accepted") result
  end.

Definition submitWithOptions (exchange : string) (account : Credentials) (instrument : Instrument)
    (intent : Order) (timeInForce : string) (postOnly : bool) : M D (Order * option GoError) :=
  placeSubmittedOrder exchange account instrument intent timeInForce postOnly false.

Definition submitPrepared (exchange : string) (account : Credentials) (instrument : Instrument)
    (intent : Order) (timeInForce : string) (postOnly : bool) : M D (Order * option GoError) :=
  placeSubmittedOrder exchange account instrument intent timeInForce postOnly true.

Definition submit (exchange : string) (account : Credentials) (instrument : Instrument) (intent : Order)
    : M D (Order * option GoError) := submitWithOptions exchange account instrument intent "" false.

(** ** The operations of the API *)

(** [if err != nil { return Order{}, err }]. *)
Definition orReturn {A} (m : M D (Result A)) (k : A -> M D (Order * option GoError)) : M D (Order * option GoError) :=
  do r <- m; match r with Err e => ret (zero_Order, Some e) | Ok a => k a end.

Definition fails (e : GoError) : M D (Order * option GoError) := ret (zero_Order, Some e).
Definition errUnsupportedExchange : GoError := mkError [ErrUnsupportedExchange] "unsupported exchange".
Definition errIdempotencyConflict : GoError := mkError [ErrIdempotencyConflict] "idempotency key conflict".
Definition errOrderNotCancelable : GoError := mkError [ErrOrderNotCancelable] "order is not cancelable".

Definition capabilitiesAllow (c : Capabilities) (i : Instrument) : bool :=
  supportsCapability (cap_Products c) (i_ContractType i) &&
  (match cap_QuoteAssets c with [] => true | _ => supportsCapability (cap_QuoteAssets c) (i_QuoteAsset i) end).

(** The price a market order is validated against. *)
Definition validationPrice (exchange : string) (i : Instrument) (input : PlaceOrderInput) : M D (Result string) :=
  if pi_OrderType input =?s "market" then
    do n <- tick;
    ret (match adapterBBO n exchange (toVenueInstrument i) with
         | (_, Some e) => Err (wrapError ErrVenueUnavailable "venue unavailable: load validation price" e)
         | (bbo, None) => Ok (if pi_Side input =?s "sell" then vb_BidPrice bbo else vb_AskPrice bbo)
         end)
  else ret (Ok (pi_Price input)).

Definition placeIntent (owner : string) (account : Credentials) (i : Instrument) (input : PlaceOrderInput)
    (quantity price : string) : Order :=
  zero_Order <| o_IdempotencyKey := pi_IdempotencyKey input |> <| o_OwnerUsername := owner |>
    <| o_TradingAccountID := cr_TradingAccountID account |> <| o_ProductName := cr_ProductName account |>
    <| o_Exchange := cr_Exchange account |> <| o_InstrumentID := i_ID i |>
    <| o_ContractType := i_ContractType i |> <| o_ExchangeSymbol := i_ExchangeSymbol i |>
    <| o_BaseAsset := i_BaseAsset i |> <| o_QuoteAsset := i_QuoteAsset i |>
    <| o_Side := pi_Side input |> <| o_OrderType := pi_OrderType input |>
    <| o_Quantity := quantity |> <| o_Price := price |>
    <| o_RequestFingerprint := requestFingerprint (cr_TradingAccountID account) (i_ID i) (pi_Side input)
         (pi_OrderType input) quantity price [] |>.

(** From the checked request on: the intent is written, and only an intent
    that this call created is sent. *)
Definition submitIntent (account : Credentials) (i : Instrument) (intent : Order) : M D (Order * option GoError) :=
  do r <- CreateIntent intent;
  match r with
  | Err e => fails (wrapError ErrPersistence "order persistence failed: create intent" e)
  | Ok (stored, false) =>
      if negb (o_RequestFingerprint stored =?s o_RequestFingerprint intent) then fails errIdempotencyConflict
      else ret (stored, None)
  | Ok (stored, true) => submit (cr_Exchange account) account i stored
  end.

Definition PlaceOrder (input : PlaceOrderInput) : M D (Order * option GoError) :=
  match normalizePlaceInput input with
  | Err e => fails e
  | Ok normalized =>
      orReturn (do n <- tick; ret (credentialsOwner n (pi_Token normalized))) (fun owner =>
      orReturn (do n <- tick; ret (credentialsGet n (pi_Token normalized) (pi_TradingAccountID normalized)))
      (fun account =>
      orReturn (callCatalog (pi_InstrumentID normalized)) (fun i =>
      if negb (i_Exchange i =?s cr_Exchange account) then fails errInvalidArgument
      else if negb (adapterKnown (cr_Exchange account)) then fails errUnsupportedExchange
      else orReturn (callCapabilities (cr_Exchange account) account) (fun capabilities =>
      if negb (capabilitiesAllow capabilities i) then fails errInvalidArgument
      else orReturn (validationPrice (cr_Exchange account) i normalized) (fun reference =>
      match prepareOrder (D := D) i (pi_OrderType normalized) (pi_Quantity normalized) (pi_Price normalized) reference with
      | Err e => fails e
      | Ok (quantity, price) => submitIntent account i (placeIntent owner account i normalized quantity price)
      end)))))
  end.

(** The lookups [GetOrder] and [CancelOrder] share. *)
Definition loadOwnOrder (token orderID : string) (k : string -> Order -> M D (Order * option GoError))
    : M D (Order * option GoError) :=
  if (TrimSpace token =?s "") || (TrimSpace orderID =?s "") then fails errInvalidArgument
  else orReturn (do n <- tick; ret (credentialsOwner n token)) (fun owner =>
       orReturn (GetByOwner owner orderID) (fun order => k owner order)).

Definition GetOrder (token orderID : string) : M D (Order * option GoError) :=
  loadOwnOrder token orderID (fun owner order =>
  if terminalStatus (o_Status order) then ret (order, None)
  else
    orReturn (do n <- tick; ret (credentialsGet n token (o_TradingAccountID order))) (fun account =>
    orReturn (callCatalog (o_InstrumentID order)) (fun i =>
    if negb (adapterKnown (cr_Exchange account)) then ret (order, None)
    else
      orReturn (GetByOwner owner orderID) (fun latest =>
      if terminalStatus (o_Status latest) then ret (latest, None)
      else
        do answer <- callResolve (cr_Exchange account) account i latest;
        match answer with
        | (resolution, Some e) =>
            let result := or_Result resolution in
            if hasVenueResult result then persistUncertain (o_ID latest) "reconcile_uncertain" result e
            else
              run AppendEvent (o_ID latest)
                    (if errorsIs e ErrOrderNotFound then "reconcile_absent" else "reconcile_failed");
              ret (latest, Some (wrapQueryError e))
        | (resolution, None) =>
            if or_ConfirmedAbsent resolution then
              run AppendEvent (o_ID latest) "reconcile_absent";
              ret (latest, Some (wrapQueryError (absentError (o_ID latest))))
            else persistResult (o_ID latest) "reconcile" (normalizeVenueResult latest (or_Result resolution))
        end)))).

Definition CancelOrder (token orderID : string) : M D (Order * option GoError) :=
  loadOwnOrder token orderID (fun _ order =>
  if terminalStatus (o_Status order) then fails errOrderNotCancelable
  else if negb (cancelableStatus (o_Status order)) then fails errOrderNotCancelable
  else
    orReturn (do n <- tick; ret (credentialsGet n token (o_TradingAccountID order))) (fun account =>
    orReturn (callCatalog (o_InstrumentID order)) (fun i =>
    if negb (adapterKnown (cr_Exchange account)) then fails errUnsupportedExchange
    else
      do answer <- callCancel (cr_Exchange account) account
        (mkCancelRequest (toVenueInstrument i) (o_ClientOrderID order) (o_VenueOrderID order));
      match answer with
      | (result, Some e) =>
          run AppendEvent (o_ID order) "cancel_failed";
          if hasVenueResult result then persistUncertain (o_ID order) "cancel_uncertain" result e
          else ret (order, Some (wrapQueryError e))
      | (result, None) =>
          do written <- persistResult (o_ID order) "cancel" (normalizeVenueResult order result);
          ret (match written with
               | (_, Some e) => (zero_Order, Some e)
               | (updated, None) => (updated, None)
               end)
      end))).
End OrderService.

(** ** What is sent *)

Section Quiet.
Context {D : Type} `{!Env D}.

Definition placedCall (c : VenueCall) : option (Z * OrderRequest) :=
  match c with CallPlace a r => Some (a, r) | _ => None end.
Definition placed (w : World D) : list (Z * OrderRequest) := omap placedCall (w_calls w).

(** A computation that sends no order, from the worlds where [P] holds. *)
Definition quiet {A} (m : M D A) : Prop := forall w, placed (snd (m w)) = placed w.

Lemma quiet_ret {A} (a : A) : quiet (ret a).
Proof. done. Qed.
Lemma quiet_bind {A B} (m : M D A) (k : A -> M D B) : quiet m -> (forall a, quiet (k a)) -> quiet (bind m k).
Proof. intros Hm Hk w. unfold bind. pose proof (Hm w). destruct (m w) as [a w']. cbn in *. by rewrite Hk. Qed.
Lemma quiet_tick : quiet tick.
Proof. done. Qed.
Lemma quiet_transact {A} f : quiet (transact (A := A) f).
Proof. intros w. unfold transact. by destruct (f _ _ _). Qed.
Lemma quiet_recordCall (c : VenueCall) : placedCall c = None -> quiet (recordCall c).
Proof. intros Hc w. unfold recordCall, placed. cbn. rewrite omap_app. cbn. by rewrite Hc, app_nil_r. Qed.

End Quiet.

Create HintDb quiet.
#[export] Hint Resolve quiet_ret quiet_tick quiet_transact : quiet.

Ltac quiet_step :=
  match goal with
  | |- quiet (bind _ _) => apply quiet_bind; [|intros ?]
  | |- quiet (sql _) => apply quiet_transact
  | |- quiet (recordCall _) => by apply quiet_recordCall
  | |- quiet (match ?x with _ => _ end) => destruct x
  | |- quiet (if ?x then _ else _) => destruct x
  | |- quiet (let _ := _ in _) => cbv zeta
  | |- _ => solve [eauto with quiet]
  end.
Ltac quiet_tac := repeat quiet_step.

Section OrderServiceFacts.
Context {D : Type} `{!Decimal D} `{!DecimalLaws D} `{!Postgres D} `{!PostgresLaws D} `{!Env D} `{svc : !Services}.

Lemma quiet_timeNow : quiet timeNow.
Proof. unfold timeNow. quiet_tac. Qed.
#[local] Hint Resolve quiet_timeNow : quiet.
Lemma quiet_AppendEvent id t : quiet (AppendEvent id t).
Proof. unfold AppendEvent. quiet_tac. Qed.
#[local] Hint Resolve quiet_AppendEvent : quiet.
Lemma quiet_UpdateResult id r : quiet (UpdateResult id r).
Proof. unfold UpdateResult, UpdateResultWithFillDelta, applyOrderUpdate, RefreshTwapProgress. quiet_tac. Qed.
#[local] Hint Resolve quiet_UpdateResult : quiet.
Lemma quiet_persistResult id t r : quiet (persistResult id t r).
Proof. unfold persistResult, bindHyperliquidOrderIDs. quiet_tac. Qed.
#[local] Hint Resolve quiet_persistResult : quiet.
Lemma quiet_recover ex a i o : quiet (recover ex a i o).
Proof. unfold recover, callResolve, persistUncertain. quiet_tac. Qed.
#[local] Hint Resolve quiet_recover : quiet.
Lemma quiet_CreateIntent o : quiet (CreateIntent o).
Proof. unfold CreateIntent, getOrder. quiet_tac. Qed.

(** A submission sends one order: the intent it was given. *)
Definition requestOf (i : Instrument) (intent : Order) (tif : string) (postOnly : bool) : OrderRequest :=
  mkOrderRequest (toVenueInstrument i) (o_ClientOrderID intent) (o_Side intent) (o_OrderType intent)
    (o_Quantity intent) (o_Price intent) tif postOnly (o_ReduceOnly intent).

Definition sends {A} (m : M D A) (l : list (Z * OrderRequest)) : Prop :=
  forall w, placed (snd (m w)) = placed w ++ l.

Lemma quiet_then {A B} (m : M D A) (k : A -> M D B) l : quiet m -> (forall a, sends (k a) l) -> sends (bind m k) l.
Proof. intros Hm Hk w. unfold bind. pose proof (Hm w) as E. destruct (m w) as [a w']. cbn in *. by rewrite Hk, E. Qed.
Lemma sends_then {A B} (m : M D A) (k : A -> M D B) l : sends m l -> (forall a, quiet (k a)) -> sends (bind m k) l.
Proof. intros Hm Hk w. unfold bind. pose proof (Hm w) as E. destruct (m w) as [a w']. cbn in *. by rewrite Hk, E. Qed.

Lemma callPlace_sends ex account request : sends (callPlace ex account request) [(cr_TradingAccountID account, request)].
Proof. intros w. unfold callPlace, bind, recordCall, tick, ret, placed. cbn. by rewrite omap_app. Qed.

Lemma placeSubmitted_sends ex account i intent tif postOnly skip :
  sends (placeSubmittedOrder ex account i intent tif postOnly skip)
    [(cr_TradingAccountID account, requestOf i intent tif postOnly)].
Proof.
  unfold placeSubmittedOrder. apply quiet_then; [quiet_tac|intros _].
  apply sends_then; [apply callPlace_sends|intros answer]. quiet_tac.
Qed.

(** Sends nothing, or one order that satisfies [P]. *)
Definition mayOne {A} (P : Z * OrderRequest -> Prop) (m : M D A) : Prop :=
  forall w, placed (snd (m w)) = placed w \/ exists x, P x /\ placed (snd (m w)) = placed w ++ [x].

Lemma mayOne_quiet {A} P (m : M D A) : quiet m -> mayOne P m.
Proof. intros Hm w. left. apply Hm. Qed.

Lemma mayOne_orReturn {A} P (m : M D (Result A)) k :
  quiet m -> (forall a w, fst (m w) = Ok a -> mayOne P (k a)) -> mayOne P (orReturn m k).
Proof.
  intros Hm Hk w. unfold orReturn, bind. pose proof (Hm w) as E. specialize (fun a => Hk a w) as Hk'.
  destruct (m w) as [[a|e] w1]; cbn in *.
  - destruct (Hk' a eq_refl w1) as [->|(x & Hx & ->)]; rewrite E; [by left|right; by exists x].
  - by left.
Qed.

(** The intent that is sent is the row that was inserted. *)
Lemma insertOrder_row (o : Order) dbnow (st : Store D) row :
  insertOrder o dbnow st = Ok row ->
  exists q p, numericText (D := D) (o_Quantity o) = Some q /\ nullableNumeric (D := D) (o_Price o) = Some p /\
    row = newOrderRow o q p dbnow /\ st_orders st !! o_ID o = None.
Proof.
  unfold insertOrder. destruct (st_orders st !! o_ID o) eqn:E; [done|]. destruct (findOrder _ _); [done|].
  destruct (numericText _) as [q|]; [|done]. destruct (nullableNumeric _) as [p|]; [|done].
  intros [= <-]. eauto 10.
Qed.

Lemma CreateIntent_created (order stored : Order) (w w' : World D) :
  CreateIntent order w = (Ok (stored, true), w') ->
  o_Side stored = o_Side order /\ o_OrderType stored = o_OrderType order /\
  o_ReduceOnly stored = o_ReduceOnly order /\
  numericText (D := D) (o_Quantity order) = Some (o_Quantity stored) /\
  nullableNumeric (D := D) (o_Price order) = Some (o_Price stored).
Proof.
  unfold CreateIntent, bind, tick, sql, transact. cbn [w_tick w_store].
  set (o := if o_ClientOrderID _ =?s "" then _ else _).
  assert (o_Side o = o_Side order /\ o_OrderType o = o_OrderType order /\ o_ReduceOnly o = o_ReduceOnly order /\
          o_Quantity o = o_Quantity order /\ o_Price o = o_Price order) as (<- & <- & <- & <- & <-)
    by (unfold o; by repeat match goal with |- context [if ?b then _ else _] => destruct b end).
  clearbody o. set (st := interfere _ _). destruct (dbFault _) as [[? ?]|]; [done|].
  unfold createIntentTransaction. destruct (byIdempotency _ _).
  - unfold getOrder, sql, transact. repeat (case_match; simplify_eq/=; try done).
  - destruct (insertOrder _ _ _) as [row|] eqn:Ei; [|done].
    apply insertOrder_row in Ei as (q & p & Hq & Hp & -> & _).
    unfold AppendEvent, sql, transact. repeat (case_match; simplify_eq/=; try done).
    unfold ret. intros [= <- _]. by split_and!.
Qed.

(** An order as the venue's rules admit it, with the quantity and price the
    columns keep of it. *)
Definition admissibleRequest (i : Instrument) (reference : string) (request : OrderRequest) : Prop :=
  rq_Instrument request = toVenueInstrument i /\
  exists (market : bool) (qty px : D),
    orderAdmissible (D := D) i market (dval qty) (dval px) (dval (parsePositiveDecimal (D := D) reference)) false /\
    numericColumn (D := D) (rq_Quantity request) (qround 18 (dval qty)) /\
    (if market then rq_Price request = ""%string
     else numericColumn (D := D) (rq_Price request) (qround 18 (dval px))).

Lemma submitIntent_mayOne account i intent reference orderType q0 p0 :
  prepareOrder (D := D) i orderType q0 p0 reference = Ok (o_Quantity intent, o_Price intent) ->
  mayOne (fun x => fst x = cr_TradingAccountID account /\ admissibleRequest i reference (snd x))
    (submitIntent account i intent).
Proof.
  intros Hp w. unfold submitIntent, bind. pose proof (quiet_CreateIntent intent w) as Hq.
  destruct (CreateIntent intent w) as [[[stored []]|e] w1] eqn:Ec; cbn [snd] in Hq; [|left|by left].
  2:{ by destruct (negb _). }
  right. eexists. split; [|unfold submit, submitWithOptions; rewrite placeSubmitted_sends, Hq; reflexivity].
  split; [done|]. split; [done|]. cbn [snd requestOf rq_Quantity rq_Price].
  apply CreateIntent_created in Ec as (_ & _ & _ & Eq & Ep).
  unfold prepareOrder in Hp. apply prepareOrderMode_inv in Hp as (market & qty & px & _ & _ & Hqty & Hpx & Hadm).
  exists market, qty, px. split; [done|]. rewrite Hqty in Eq. split; [by apply numericText_dString|].
  unfold nullableNumeric in Ep. destruct market.
  - destruct Hpx as [_ E]. rewrite E in Ep. cbn in Ep. congruence.
  - destruct Hpx as [_ E]. rewrite E in Ep. destruct (String.eqb_spec (dString px) "") as [E0|_].
    + by destruct (dString_nonempty px).
    + by apply numericText_dString.
Qed.

(** C21: [PlaceOrder] sends at most one order, and what it sends has passed the
    rules: it is for the account and the instrument the request names, as
    credentials and catalogue answered, and its quantity and limit price are
    those of an order the instrument's rules admit, as the table stored them. *)
Theorem placeOrder_sends_admissible (input : PlaceOrderInput) (w : World D) :
  placed (snd (PlaceOrder input w)) = placed w \/
  exists normalized account i reference request n m,
    placed (snd (PlaceOrder input w)) = placed w ++ [(cr_TradingAccountID account, request)] /\
    normalizePlaceInput input = Ok normalized /\
    credentialsGet n (pi_Token normalized) (pi_TradingAccountID normalized) = Ok account /\
    catalogGet m (pi_InstrumentID normalized) = Ok i /\ admissibleRequest i reference request.
Proof.
  set (P := fun x : Z * OrderRequest => exists normalized account i reference n m,
    fst x = cr_TradingAccountID account /\ normalizePlaceInput input = Ok normalized /\
    credentialsGet n (pi_Token normalized) (pi_TradingAccountID normalized) = Ok account /\
    catalogGet m (pi_InstrumentID normalized) = Ok i /\ admissibleRequest i reference (snd x)).
  enough (mayOne P (PlaceOrder input)) as Hm.
  { destruct (Hm w) as [?|([acc rq] & (z & a & i & reference & n & m & E1 & E2 & E3 & E4 & Ha) & E)]; [by left|right].
    cbn in E1. subst acc. by exists z, a, i, reference, rq, n, m. }
  assert (forall e, mayOne P (fails e)) as Hf by (intros e; apply mayOne_quiet; unfold fails; quiet_tac).
  unfold PlaceOrder. destruct (normalizePlaceInput input) as [z|e] eqn:Ez; [|done].
  apply mayOne_orReturn; [quiet_tac|intros owner w1 E1]. apply mayOne_orReturn; [quiet_tac|intros account w2 E2].
  apply mayOne_orReturn; [unfold callCatalog; quiet_tac|intros i w3 E3].
  destruct (negb _); [done|]. destruct (negb _); [done|].
  apply mayOne_orReturn; [unfold callCapabilities; quiet_tac|intros capabilities w4 _]. destruct (negb _); [done|].
  apply mayOne_orReturn; [unfold validationPrice; quiet_tac|intros reference w5 _].
  destruct (prepareOrder _ _ _ _ _) as [[q p]|e] eqn:Ep; [|done].
  intros w0. destruct (submitIntent_mayOne account i (placeIntent owner account i z q p) reference _ _ _ Ep w0)
    as [?|(x & [Hx Ha] & E)]; [by left|right]. exists x. split; [|done].
  exists z, account, i, reference, (w_tick w2), (w_tick w3). done.
Qed.

(** *** A key is used once *)

Definition keyUsed (key : string) (st : Store D) : Prop :=
  exists id row, st_orders st !! id = Some row /\ o_IdempotencyKey (row_order row) = key.

Lemma findOrder_used (P : Order -> bool) (m : gmap string OrderRow) id row :
  m !! id = Some row -> P (row_order row) = true -> is_Some (findOrder P m).
Proof.
  intros Hl HP. unfold findOrder. destruct (List.find _ _) as [r|] eqn:E; [by eexists|].
  pose proof (find_none _ _ E row) as Hn. rewrite Hn in HP; [done|].
  apply in_map_iff. exists (id, row). split; [done|]. by apply list_elem_of_In, elem_of_map_to_list.
Qed.

(** A computation that leaves the store and sends nothing. *)
Definition still {A} (m : M D A) : Prop := forall w, w_store (snd (m w)) = w_store w /\ placed (snd (m w)) = placed w.
(** Nothing is sent from a store with [K]. *)
Definition mute {A} (K : Store D -> Prop) (m : M D A) : Prop :=
  forall w, K (w_store w) -> placed (snd (m w)) = placed w.

Lemma mute_quiet {A} K (m : M D A) : quiet m -> mute K m.
Proof. intros Hm w _. apply Hm. Qed.

Lemma mute_orReturn {A} K (m : M D (Result A)) k : still m -> (forall a, mute K (k a)) -> mute K (orReturn m k).
Proof.
  intros Hm Hk w HK. unfold orReturn, bind. destruct (Hm w) as [E1 E2].
  destruct (m w) as [[a|e] w1]; cbn in *; [|done]. rewrite Hk; congruence.
Qed.

Lemma still_ask {A} (f : nat -> Result A) : still (do n <- tick; ret (f n)).
Proof. done. Qed.

Lemma submitIntent_mute account i intent :
  (forall n st, keyUsed (o_IdempotencyKey intent) st -> keyUsed (o_IdempotencyKey intent) (interfere n st)) ->
  mute (keyUsed (o_IdempotencyKey intent)) (submitIntent account i intent).
Proof.
  intros Hi w HK. unfold submitIntent, bind. pose proof (quiet_CreateIntent intent w) as Hq.
  destruct (CreateIntent intent w) as [[[stored []]|e] w1] eqn:Ec; cbn [snd] in Hq; [exfalso|by destruct (negb _)|done].
  unfold CreateIntent, bind, tick, sql, transact in Ec. cbn [w_tick w_store] in Ec.
  set (o := if o_ClientOrderID _ =?s "" then _ else _) in Ec.
  assert (o_IdempotencyKey o = o_IdempotencyKey intent) as Ek
    by (unfold o; by repeat match goal with |- context [if ?b then _ else _] => destruct b end).
  destruct (dbFault _) as [[? ?]|] in Ec; [done|]. set (st := interfere _ _) in Ec.
  assert (keyUsed (o_IdempotencyKey intent) st) as (id & row & Hl & Hk) by (by apply Hi).
  destruct (findOrder_used (fun x => o_IdempotencyKey x =?s o_IdempotencyKey o) _ _ _ Hl) as [r Hr];
    [rewrite Ek, Hk; apply String.eqb_refl|].
  unfold createIntentTransaction, byIdempotency in Ec. rewrite Hr in Ec.
  unfold getOrder, sql, transact in Ec. repeat (case_match; simplify_eq/=; try done).
Qed.

(** C20: an idempotency key is used once: once an order with the key is in the
    table, and as long as nobody deletes it, a repeated [PlaceOrder] with that
    key sends nothing to the venue, whatever else it asks for. *)
Theorem placeOrder_key_once (input normalized : PlaceOrderInput) (w : World D) :
  normalizePlaceInput input = Ok normalized ->
  (forall n st, keyUsed (pi_IdempotencyKey normalized) st -> keyUsed (pi_IdempotencyKey normalized) (interfere n st)) ->
  keyUsed (pi_IdempotencyKey normalized) (w_store w) ->
  placed (snd (PlaceOrder input w)) = placed w.
Proof.
  intros Hn Hi. enough (mute (keyUsed (pi_IdempotencyKey normalized)) (PlaceOrder input)) as Hm by apply Hm.
  assert (forall e, mute (keyUsed (pi_IdempotencyKey normalized)) (fails e)) as Hf by done.
  unfold PlaceOrder. rewrite Hn.
  apply mute_orReturn; [apply still_ask|intros owner]. apply mute_orReturn; [apply still_ask|intros account].
  apply mute_orReturn; [apply still_ask|intros i]. destruct (negb _); [done|]. destruct (negb _); [done|].
  apply mute_orReturn; [apply still_ask|intros capabilities]. destruct (negb _); [done|].
  apply mute_orReturn; [unfold validationPrice; by destruct (_ =?s _)|intros reference].
  destruct (prepareOrder _ _ _ _ _) as [[q p]|e]; [|done].
  by apply (submitIntent_mute account i (placeIntent owner account i normalized q p)).
Qed.

(** An answer the service has normalised never reports more than the order. *)
Lemma normalizeVenueResult_within (order : Order) (r : VenueResult) (b : bool) (q : Q) :
  numericColumn (D := D) (o_Quantity order) q -> (0 < q)%Q ->
  ackWithin (D := D) order (storedResult (normalizeVenueResult (D := D) order r) b).
Proof.
  intros Tq Hq _ d. cbn [storedResult r_FilledQuantity]. rewrite (numericColumn_parse _ _ Tq).
  destruct Tq as (Ht & _ & dq & Hdq & Eq). unfold normalizeVenueResult. rewrite Ht, Hdq.
  destruct (dNewFromString (TrimSpace (r_FilledQuantity r))) as [f|] eqn:Ef; cbv zeta.
  - destruct (dIsPositive_reflect dq); [|lra]. cbn [andb].
    destruct (dGreaterThanOrEqual_reflect f dq);
      match goal with |- context [if ?b then _ else _] => destruct b end;
      cbn [r_FilledQuantity setter]; rewrite ?(dString_TrimSpace dq), ?Ef;
      try (intros [= <-]; lra); destruct (dNewFromString_String dq) as (d' & -> & E'); intros [= <-]; lra.
  - match goal with |- context [if ?b then _ else _] => destruct b end;
      cbn [r_FilledQuantity setter]; by rewrite Ef.
Qed.
End OrderServiceFacts.
#[export] Hint Resolve quiet_timeNow quiet_AppendEvent quiet_UpdateResult quiet_persistResult quiet_recover quiet_CreateIntent : quiet.

(** ** Witnesses *)

Section OrderServiceWitnesses.
#[local] Existing Instance stillEnv.

(** One account, one instrument, a venue that accepts every order. *)
Definition simpleServices : Services := {|
  catalogGet _ _ := Ok ruledPerp;
  credentialsOwner _ _ := Ok "alice"%string;
  credentialsGet _ _ id := Ok (mkCredentials id "p" (i_Exchange ruledPerp) "" "" "" "" "" "" "" None None);
  credentialsInternal _ _ id := Ok (mkCredentials id "p" (i_Exchange ruledPerp) "" "" "" "" "" "" "" None None);
  adapterKnown _ := true;
  adapterCapabilities _ _ _ := None;
  adapterClientID _ c := c;
  adapterBBO _ _ _ := (mkVenueBBO "100" "101" (1000000000 * Second), None);
  adapterPlace _ _ _ _ := (zero_VenueResult <| r_VenueOrderID := "v9"%string |> <| r_Status := "open"%string |>, None);
  adapterCancel _ _ _ _ := (zero_VenueResult <| r_Status := "canceled"%string |>, None);
  adapterQuery _ _ := {| Resolution.GetOrder _ := (zero_VenueResult, None); ResolveOrder := None |};
  orderStreamsConfigured := false;
  uuidParses s := negb (s =?s "")
|}.
#[local] Existing Instance simpleServices.

Definition buyOne : PlaceOrderInput :=
  mkPlaceOrderInput "token" 7 5 "buy" "limit" "1" "100" "key-00000001".

Definition firstWorld : World Dec := mkWorld openStore 0 [].

(** The first call sends one order, a repeated call none. *)
Example placeOrder_runs :
  length (placed (snd (PlaceOrder (D := Dec) buyOne firstWorld))) = 1%nat /\
  length (placed (snd (PlaceOrder (D := Dec) buyOne (snd (PlaceOrder (D := Dec) buyOne firstWorld))))) = 1%nat.
Proof. vm_compute. done. Qed.

Lemma placeOrder_key_once_witness :
  exists normalized w, normalizePlaceInput (D := Dec) buyOne = Ok normalized /\
    keyUsed (D := Dec) (pi_IdempotencyKey normalized) (w_store w) /\
    placed (snd (PlaceOrder (D := Dec) buyOne w)) = placed w.
Proof.
  destruct (normalizePlaceInput (D := Dec) buyOne) as [z|e] eqn:Ez; [|vm_compute in Ez; done].
  set (row := mkOrderRow (openOrder <| o_IdempotencyKey := pi_IdempotencyKey z |>) None None None None PgInfinity).
  set (w := mkWorld (openStore <| st_orders := {["o1"%string := row]} |>) 0 []).
  assert (keyUsed (D := Dec) (pi_IdempotencyKey z) (w_store w)) as Hk
    by (exists "o1"%string, row; split; [apply lookup_insert_eq|reflexivity]).
  exists z, w. split; [done|]. split; [done|].
  pose proof (placeOrder_key_once (D := Dec) buyOne z w Ez (fun _ _ h => h) Hk) as H. exact H.
Defined.

Lemma placeOrder_sends_admissible_witness :
  exists normalized account i reference request,
    placed (snd (PlaceOrder (D := Dec) buyOne firstWorld)) = [(cr_TradingAccountID account, request)] /\
    normalizePlaceInput (D := Dec) buyOne = Ok normalized /\ admissibleRequest (D := Dec) i reference request.
Proof.
  pose proof (placeOrder_sends_admissible (D := Dec) buyOne firstWorld) as H.
  destruct H as [E|(z & a & i & reference & request & n & m & E & Ez & _ & _ & Ha)].
  - apply (f_equal length) in E. vm_compute in E. discriminate E.
  - exists z, a, i, reference, request. split; [exact E|]. split; [exact Ez|exact Ha].
Defined.
End OrderServiceWitnesses.
