(* ===== verification/FlattenRules.v ===== *)
(** * Flattening what a combination still owns

    The rules by which a combination that closes, or a one-shot combination
    that exits, gets rid of what is left on its legs: the last clip of a close
    and how its fills are matched (arbitrage_last_close_residual.go), the hand
    over of a last hedge the venue finds too small
    (arbitrage_last_clip_handoff.go), the final market orders of a one-shot exit
    (arbitrage_one_shot_final_flatten.go), the dust that may stay
    (arbitrage_one_shot_dust.go), the residual orders of a close
    (arbitrage_last_close_residual_flatten.go) and the reopening of a tripped
    circuit (arbitrage_circuit_recovery.go). *)
From Stdlib Require Import ZArith QArith Qabs Qminmax Lqa String.
From stdpp Require Import base strings list.
From S2P Require Import Prelude Decimal DecimalRef Types Quantity Validate ArbMath ArbSize ArbHedge Resolution Store OrderStore OrderService.

#[local] Set Warnings "-clear-no-such-hyp".

(** [uuid.NewSHA1(namespace, data).String()] of google/uuid, for the one
    namespace the residual orders use. *)
Class Uuids := { residualUUID : string -> string }.

Definition lastCloseResidualFlattenIdempotencyRole : string := "last-close-residual-flatten".
Definition oneShotFinalFlattenIdempotencyRole : string := "final-flatten".
Definition finalFlattenNeedle : string := String.append ":" (String.append oneShotFinalFlattenIdempotencyRole ":").
Definition residualNeedle : string := String.append ":" (String.append lastCloseResidualFlattenIdempotencyRole ":").
Definition lastClipHedgeMinNotionalFailureKey : string := "last_clip_hedge_min_notional".

(** The text of [ErrArbitrageUnsafeHedge]. *)
Definition unsafeHedgeText : string := "arbitrage hedge would reverse position".

(** [OwnedFlattenLeg] *)
Record OwnedFlattenLeg (D : Type) := mkFlattenLeg {
  fl_Leg : ArbitrageLeg;
  fl_LegName : string;
  fl_Side : string;
  fl_BaseQuantity : D;
  fl_ReduceOnly : bool;
  fl_OrderType : string
}.
Arguments mkFlattenLeg {D}.
Arguments fl_Leg {D}.
Arguments fl_LegName {D}.
Arguments fl_Side {D}.
Arguments fl_BaseQuantity {D}.
Arguments fl_ReduceOnly {D}.
Arguments fl_OrderType {D}.

(** [OneShotFinalFlattenClaim] *)
Record OneShotFinalFlattenClaim (D : Type) := mkFlattenClaim {
  fc_Execution : ArbitrageExecution;
  fc_LegAQuantity : D;
  fc_LegBQuantity : D;
  fc_LegANotional : D;
  fc_LegBNotional : D;
  fc_ReconciledAt : GoTime
}.
Arguments mkFlattenClaim {D}.
Arguments fc_Execution {D}.
Arguments fc_LegAQuantity {D}.
Arguments fc_LegBQuantity {D}.
Arguments fc_LegANotional {D}.
Arguments fc_LegBNotional {D}.
Arguments fc_ReconciledAt {D}.

(** [lastCloseClipAllocatedFills] *)
Record lastCloseClipAllocatedFills (D : Type) := mkAllocatedFills {
  af_MakerFill : D;
  af_NormalHedgeFill : D;
  af_ResidualFill : D;
  af_AllocatedResidual : D;
  af_EffectiveHedgeFill : D;
  af_FillA : D;
  af_FillB : D;
  af_Found : bool
}.
Arguments mkAllocatedFills {D}.
Arguments af_MakerFill {D}.
Arguments af_NormalHedgeFill {D}.
Arguments af_ResidualFill {D}.
Arguments af_AllocatedResidual {D}.
Arguments af_EffectiveHedgeFill {D}.
Arguments af_FillA {D}.
Arguments af_FillB {D}.
Arguments af_Found {D}.

Inductive oneShotDustVerdict := oneShotDustAccepted | oneShotDustRetry | oneShotDustUnsafe.

(** [oneShotDustInput] *)
Record oneShotDustInput (D : Type) := mkDustInput {
  du_Combination : ArbitrageCombination;
  du_Remaining : D;
  du_Phase : string;
  du_InstrumentA : Instrument;
  du_InstrumentB : Instrument;
  du_InstrumentErr : bool;
  du_PriceA : D;
  du_PriceB : D;
  du_LiveOrder : bool;
  du_Unreconciled : bool;
  du_LiveExecution : bool;
  du_GateErr : bool;
  du_ExecutionRunning : bool
}.
Arguments mkDustInput {D}.
Arguments du_Combination {D}.
Arguments du_Remaining {D}.
Arguments du_Phase {D}.
Arguments du_InstrumentA {D}.
Arguments du_InstrumentB {D}.
Arguments du_InstrumentErr {D}.
Arguments du_PriceA {D}.
Arguments du_PriceB {D}.
Arguments du_LiveOrder {D}.
Arguments du_Unreconciled {D}.
Arguments du_LiveExecution {D}.
Arguments du_GateErr {D}.
Arguments du_ExecutionRunning {D}.

(** [lastCloseResidualDustDecisionResult], without the payload of its event. *)
Record lastCloseResidualDustDecisionResult (D : Type) := mkDustDecision {
  dd_LastOrderUpdatedAt : GoTime;
  dd_LegANotional : D;
  dd_LegBNotional : D;
  dd_LegAReducible : bool;
  dd_LegBReducible : bool
}.
Arguments mkDustDecision {D}.
Arguments dd_LastOrderUpdatedAt {D}.
Arguments dd_LegANotional {D}.
Arguments dd_LegBNotional {D}.
Arguments dd_LegAReducible {D}.
Arguments dd_LegBReducible {D}.

(** The orders of an execution. *)
Definition ofExecution (executionID : string) (o : Order) : bool := TrimSpace (o_ArbitrageExecutionID o) =?s TrimSpace executionID.
Definition executionOrdersFor (orders : list Order) (executionID : string) : list Order :=
  base.filter (fun o => ofExecution executionID o = true) orders.
Definition legOf (o : Order) : string := ToLower (TrimSpace (o_ArbitrageLeg o)).
Definition roleOf (o : Order) : string := ToLower (TrimSpace (o_ArbitrageRole o)).

Section Rules.
Context {D : Type} `{!Decimal D} `{!Postgres D} `{!Uuids}.
Local Open Scope dec_scope.

(** ** The last clip of a close *)

Definition lastCloseClipClosingEligible (c : ArbitrageCombination) (x : ArbitrageExecution) : bool :=
  EqualFold (TrimSpace (c_Status c)) "closing" && x_LastCloseClip x && x_ReduceOnly x &&
  EqualFold (TrimSpace (x_PositionEffect x)) "close".

Definition lastCloseClipLockedResumeEligible (c : ArbitrageCombination) (x : ArbitrageExecution) : bool :=
  if negb (lastCloseClipClosingEligible c x) || negb (c_PositionUncertain c) || c_CircuitOpen c then false
  else if negb (EqualFold (TrimSpace (c_RuntimeState c)) "position_uncertain") then false
  else if negb (c_ErrorMessage c =?s unsafeHedgeText) then false
  else let status := ToLower (TrimSpace (x_Status x)) in (status =?s "hedging") || (status =?s "reconciling").

Definition lastCloseClipMakerHedgeLegs (c : ArbitrageCombination) : string * string :=
  if EqualFold (TrimSpace (c_MakerLeg c)) "b" then ("b", "a")%string else ("a", "b")%string.

Definition lastCloseClipHedgeSide (c : ArbitrageCombination) (x : ArbitrageExecution) : option string :=
  match arbitrageLegSides (x_Direction x) with
  | None => None
  | Some (sideA, sideB) => Some (if snd (lastCloseClipMakerHedgeLegs c) =?s "a" then sideA else sideB)
  end.

Definition addSimultaneous (executionID : string) (acc : D * D * bool) (o : Order) : D * D * bool :=
  let '(fillA, fillB, found) := acc in
  if negb (ofExecution executionID o) then acc
  else if negb (EqualFold (TrimSpace (o_ArbitrageRole o)) "market") then acc
  else if negb (terminalStatus (o_Status o)) then acc
  else
    let filled := parseDecimal (o_FilledQuantity o) in
    if negb (dIsPositive filled) then (fillA, fillB, true)
    else if legOf o =?s "a" then (fillA + filled, fillB, true)
    else if legOf o =?s "b" then (fillA, fillB + filled, true)
    else (fillA, fillB, true).
Definition aggregateSimultaneousMarketLastCloseFills (executionID : string) (orders : list Order) : D * D * bool :=
  fold_left (addSimultaneous executionID) orders (dZero, dZero, false).

(** One order of [allocateLastCloseClipResidualFills]: maker, hedge and
    residual fill and whether an order was found. *)
Definition addAllocated (c : ArbitrageCombination) (x : ArbitrageExecution) (acc : D * D * D * bool) (o : Order) : D * D * D * bool :=
  let '(maker, hedge, residual, found) := acc in
  if negb (ofExecution (x_ID x) o) then acc
  else
    let filled := parseDecimal (o_FilledQuantity o) in
    if negb (dIsPositive filled) then (maker, hedge, residual, true)
    else
      let '(makerLeg, hedgeLeg) := lastCloseClipMakerHedgeLegs c in
      let hedging := (legOf o =?s hedgeLeg) &&
                     match lastCloseClipHedgeSide c x with Some side => ToLower (TrimSpace (o_Side o)) =?s side | None => false end in
      if (roleOf o =?s "maker") && (legOf o =?s makerLeg) then (maker + filled, hedge, residual, true)
      else if (roleOf o =?s "hedge") && hedging then (maker, hedge + filled, residual, true)
      else if (roleOf o =?s "residual") && hedging then (maker, hedge, residual + filled, true)
      else (maker, hedge, residual, true).

Definition allocateLastCloseClipResidualFills (orders : list Order) (c : ArbitrageCombination) (x : ArbitrageExecution)
    : lastCloseClipAllocatedFills D :=
  let '(maker, hedge, residual, found) := fold_left (addAllocated c x) orders (dZero, dZero, dZero, false) in
  let gap := if dIsNegative (maker - hedge) then dZero else maker - hedge in
  let allocated := dMin residual gap in
  let effective := hedge + allocated in
  if fst (lastCloseClipMakerHedgeLegs c) =?s "b"
  then mkAllocatedFills maker hedge residual allocated effective effective maker found
  else mkAllocatedFills maker hedge residual allocated effective maker effective found.

Definition allocatedMatched (a : lastCloseClipAllocatedFills D) : bool :=
  dIsPositive (af_MakerFill a) && dEqual (af_MakerFill a) (af_EffectiveHedgeFill a).
Definition residualShort (a : lastCloseClipAllocatedFills D) : bool :=
  dIsPositive (af_ResidualFill a) && (af_EffectiveHedgeFill a <? af_MakerFill a).

Definition lastCloseTriggerLegMid (bid ask : string) : D :=
  let bidPrice := parsePositiveDecimal bid in
  let askPrice := parsePositiveDecimal ask in
  if dIsPositive bidPrice && dIsPositive askPrice then dDiv (bidPrice + askPrice) (dNewFromInt 2)
  else if dIsPositive bidPrice then bidPrice else askPrice.

(** Two prices: their mean, or the positive one, or [other]. *)
Definition meanOr (a b other : D) : D :=
  if dIsPositive a && dIsPositive b then dDiv (a + b) (dNewFromInt 2)
  else if dIsPositive a then a else other.

Definition lastCloseTriggerMark (x : ArbitrageExecution) : D :=
  let midA := lastCloseTriggerLegMid (x_TriggerLegABid x) (x_TriggerLegAAsk x) in
  let midB := lastCloseTriggerLegMid (x_TriggerLegBBid x) (x_TriggerLegBAsk x) in
  meanOr midA midB midB.

(** Notional and quantity of one leg's fills. *)
Definition legTurnover (leg : string) (orders : list Order) : D * D :=
  fold_left (fun '(notional, qty) o =>
    let filled := parseDecimal (o_FilledQuantity o) in
    let price := parsePositiveDecimal (o_AveragePrice o) in
    if dIsPositive filled && dIsPositive price && (legOf o =?s leg) then (notional + filled * price, qty + filled) else (notional, qty))
    orders (dZero, dZero).

Definition lastCloseRecoveryMark (orders : list Order) (x : ArbitrageExecution) : D :=
  let related := executionOrdersFor orders (x_ID x) in
  let vwap leg := let '(notional, qty) := legTurnover leg related in if dIsPositive qty then dDiv notional qty else dZero in
  let vwapA := vwap "a"%string in
  let vwapB := vwap "b"%string in
  meanOr vwapA vwapB (if dIsPositive vwapB then vwapB else lastCloseTriggerMark x).

Definition lastCloseClipExecutionOrders (orders : list Order) (executionID : string) : list Order :=
  if TrimSpace executionID =?s "" then [] else executionOrdersFor orders executionID.
Definition lastCloseClipOrdersBlocked (orders : list Order) : bool :=
  existsb (fun o => negb (terminalStatus (o_Status o)) || (0 <? o_ReconcileFailures o)%Z) orders.
Definition lastCloseClipOrdersAllReduceOnly (orders : list Order) : bool :=
  match orders with [] => false | _ => forallb o_ReduceOnly orders end.
Definition lastCloseClipOrdersAllTerminal (orders : list Order) : bool :=
  match orders with [] => false | _ => forallb (fun o => terminalStatus (o_Status o)) orders end.

(** ** Handing a last hedge over that the venue finds too small *)

Definition lastClipMinNotionalMessage (message : string) : bool :=
  existsb (Contains (ToLower message)) ["minimum value"; "minimum notional"; "below venue minimum"; "minimum quantity"]%string.

Definition lastClipHedgeMinNotionalError (err : option GoError) : bool :=
  match err with
  | None => false
  | Some e =>
      if errorsIs e ErrVenueUncertain || errorsIs e ErrMarketDataStale then false
      else if errorsIs e ErrOrderBelowMinimum then true
      else if errorsIs e ErrInvalidQuantity && lastClipMinNotionalMessage (err_text e) then true
      else lastClipMinNotionalMessage (sanitizeError e)
  end.

Definition lastClipRoleOrders (orders : list Order) (role : string) : list Order :=
  base.filter (fun o => EqualFold (TrimSpace (o_ArbitrageRole o)) role = true) orders.
Definition lastClipAggregateFilled (orders : list Order) : D :=
  fold_left (fun total o => total + parseDecimal (o_FilledQuantity o)) orders dZero.

Definition laterOrder (latest o : Order) : Order :=
  if o_ID latest =?s "" then o
  else if TimeAfter (o_UpdatedAt o) (o_UpdatedAt latest) then o
  else if (o_UpdatedAt o =? o_UpdatedAt latest)%Z && String.ltb (o_ID latest) (o_ID o) then o
  else latest.
Definition lastClipLatestOrder (orders : list Order) : Order := fold_left laterOrder orders zero_Order.

Definition lastClipHedgeOrdersReady (hedges : list Order) : bool :=
  match hedges with
  | [] => false
  | _ =>
      forallb (fun o => let status := ToLower (TrimSpace (o_Status o)) in
                 negb (status =?s "unknown") && terminalStatus (o_Status o) && negb (EqualFold status "partially_filled")) hedges &&
      EqualFold (TrimSpace (o_Status (lastClipLatestOrder hedges))) "rejected"
  end.

Definition lastClipMakerFillConfirmed (makers : list Order) : bool :=
  lastCloseClipOrdersAllTerminal makers && dIsPositive (lastClipAggregateFilled makers).

Definition lastClipHedgeMinNotionalHandoffReady (c : ArbitrageCombination) (x : ArbitrageExecution) (orders : list Order) : bool :=
  if negb (EqualFold (TrimSpace (c_Status c)) "closing") then false
  else if c_PositionUncertain c then false
  else if negb (x_LastCloseClip x) || negb (x_ReduceOnly x) || negb (EqualFold (TrimSpace (x_PositionEffect x)) "close") then false
  else if terminalArbitrageExecutionStatus (x_Status x) then false
  else
    let matched := executionOrdersFor orders (x_ID x) in
    let makers := lastClipRoleOrders matched "maker" in
    let hedges := lastClipRoleOrders matched "hedge" in
    if negb (lastClipMakerFillConfirmed makers) || negb (lastClipHedgeOrdersReady hedges) then false
    else dIsPositive (lastClipAggregateFilled makers - lastClipAggregateFilled hedges).

(** The error to report, or none. *)
Definition lastClipHedgeRejectCause (err : option GoError) (x : ArbitrageExecution) (hedges : list Order) : option GoError :=
  if lastClipHedgeMinNotionalError err then err
  else
    let msg := TrimSpace (x_ErrorMessage x) in
    if negb (msg =?s "") && lastClipMinNotionalMessage msg then Some (errPlain msg)
    else
      let latest := lastClipLatestOrder hedges in
      let message := TrimSpace (String.append (o_ErrorCode latest) (String.append " " (o_ErrorMessage latest))) in
      if lastClipMinNotionalMessage message then Some (errPlain message) else None.

Definition lastClipHedgeMinNotionalRejected (c : ArbitrageCombination) (x : ArbitrageExecution) (err : option GoError) (orders : list Order) : bool :=
  if negb (lastClipHedgeMinNotionalHandoffReady c x orders) then false
  else if c_LastFailureKey c =?s lastClipHedgeMinNotionalFailureKey then true
  else match lastClipHedgeRejectCause err x (lastClipRoleOrders (executionOrdersFor orders (x_ID x)) "hedge") with Some _ => true | None => false end.

Definition lastClipHedgeMinNotionalTinyClose (c : ArbitrageCombination) : bool :=
  EqualFold (TrimSpace (c_Status c)) "closing" && (c_LastFailureKey c =?s lastClipHedgeMinNotionalFailureKey) && negb (c_PositionUncertain c).

(** ** The final market orders of a one-shot exit *)

Definition oneShotRunningExiting (c : ArbitrageCombination) : bool :=
  EqualFold (TrimSpace (c_Status c)) "running" && EqualFold (TrimSpace (c_RunMode c)) "one_shot" &&
  EqualFold (TrimSpace (c_OneShotPhase c)) "exiting".

Definition planOwnedFlattenLeg (c : ArbitrageCombination) (i : Instrument) (legName : string) (leg : ArbitrageLeg) : option (OwnedFlattenLeg D) :=
  if negb (closeFlattenOwnedVenueReducible (D := D) c legName) then None
  else
    let placed := closeFlattenOwnedPlaceBase (D := D) c i legName in
    let qty := dAbs placed in
    if negb (dIsPositive qty) then None
    else Some (mkFlattenLeg leg (ToLower (TrimSpace legName)) (closeFlattenSide placed) qty true "market").

Definition planOwnedFlattenLegs (c : ArbitrageCombination) (iA iB : Instrument) : list (OwnedFlattenLeg D) :=
  option_list (planOwnedFlattenLeg c iA "a" (c_LegA c)) ++ option_list (planOwnedFlattenLeg c iB "b" (c_LegB c)).

Definition oneShotFinalFlattenLegCap (c : ArbitrageCombination) (legName : string) : D :=
  let '(owned, venue, baseline) := closeFlattenOwnedLegValues (D := D) c legName in
  if dIsZero owned then dZero
  else if negb (closeFlattenOwnedVenueReducible (D := D) c legName) then dZero
  else dMin (dAbs owned) (dAbs (venue - baseline)).

Definition oneShotFinalFlattenPlannedQuantities (legs : list (OwnedFlattenLeg D)) : D * D :=
  fold_left (fun '(qtyA, qtyB) leg => if ToLower (TrimSpace (fl_LegName leg)) =?s "b" then (qtyA, fl_BaseQuantity leg) else (fl_BaseQuantity leg, qtyB))
    legs (dZero, dZero).

Definition oneShotFinalFlattenDirection (c : ArbitrageCombination) (qtyA qtyB : D) : string :=
  let ownedA := parseDecimal (D := D) (c_LegABasePosition c) in
  let ownedB := parseDecimal (D := D) (c_LegBBasePosition c) in
  if dIsPositive qtyA then (if closeFlattenSide ownedA =?s "sell" then "bid" else "ask")%string
  else if dIsPositive qtyB then (if closeFlattenSide ownedB =?s "buy" then "bid" else "ask")%string
  else ""%string.

(** A leg that is empty, or worth less than the threshold at [price]. *)
Definition legBelowThreshold (owned price : D) : bool :=
  dIsZero owned || (dIsPositive price && (dAbs owned * price <? dNewFromInt arbitrageMinOpenNotional)).

Definition remainingBelowThreshold (c : ArbitrageCombination) (priceA priceB : D -> D) : bool :=
  let ownedA := parseDecimal (D := D) (c_LegABasePosition c) in
  let ownedB := parseDecimal (D := D) (c_LegBBasePosition c) in
  if dIsZero ownedA && dIsZero ownedB then false
  else if negb (legBelowThreshold ownedA (priceA ownedA)) then false
  else legBelowThreshold ownedB (priceB ownedB).

Definition oneShotFinalFlattenRemainingBelowThreshold (c : ArbitrageCombination) (bboA bboB : BBO) : bool :=
  remainingBelowThreshold c (fun owned => closeFlattenOwnedExecutablePrice owned bboA) (fun owned => closeFlattenOwnedExecutablePrice owned bboB).

Definition oneShotFinalFlattenTriggerPrice (x : ArbitrageExecution) (owned : D) (legName : string) : D :=
  if dIsZero owned then dZero
  else
    let legB := EqualFold (TrimSpace legName) "b" in
    if dIsPositive owned then parsePositiveDecimal (if legB then x_TriggerLegBBid x else x_TriggerLegABid x)
    else parsePositiveDecimal (if legB then x_TriggerLegBAsk x else x_TriggerLegAAsk x).

Definition oneShotFinalFlattenRemainingBelowThresholdFromExecution (c : ArbitrageCombination) (x : ArbitrageExecution) : bool :=
  remainingBelowThreshold c (fun owned => oneShotFinalFlattenTriggerPrice x owned "a") (fun owned => oneShotFinalFlattenTriggerPrice x owned "b").

Definition oneShotFinalFlattenReady (c : ArbitrageCombination) (iA iB : Instrument) (bboA bboB : BBO) (now : GoTime) : bool :=
  if negb (EqualFold (TrimSpace (c_RunMode c)) "one_shot") then false
  else if negb (oneShotRunningExiting c) then false
  else if c_PositionUncertain c then false
  else if c_RuntimeState c =?s "manual_intervention" then false
  else if negb (closeFlattenBothPerpetual (l_ContractType (c_LegA c)) (l_ContractType (c_LegB c))) then false
  else if negb (circuitOpenBaselineComplete c) then false
  else if negb (closeFlattenSnapshotFresh (c_LastPositionReconciledAt c) now) then false
  else if negb (oneShotFinalFlattenRemainingBelowThreshold c bboA bboB) then false
  else
    let planned := planOwnedFlattenLegs c iA iB in
    match planned with
    | [] => false
    | _ => forallb (fun leg => closeFlattenOwnedVenueReducible (D := D) c (fl_LegName leg)) planned
    end.

Definition oneShotFinalFlattenClaimShape (c : ArbitrageCombination) (x : ArbitrageExecution) : bool :=
  oneShotRunningExiting c && (x_LastCloseClip x && x_ReduceOnly x && EqualFold (TrimSpace (x_PositionEffect x)) "close").

Definition oneShotFinalFlattenIdempotencyKey (executionID legName : string) : string :=
  Join ["arb"; TrimSpace executionID; ToLower (TrimSpace legName); oneShotFinalFlattenIdempotencyRole; "0"]%string ":".

Definition hasFlattenKey (o : Order) : bool := Contains (o_IdempotencyKey o) finalFlattenNeedle.
Definition hasMakerOrHedgeRole (orders : list Order) (executionID : string) : bool :=
  existsb (fun o => ofExecution executionID o && ((roleOf o =?s "maker") || (roleOf o =?s "hedge"))) orders.

Definition isOneShotFinalFlattenExecution (c : ArbitrageCombination) (x : ArbitrageExecution) (orders : list Order) (bboA bboB : BBO) : bool :=
  let related := executionOrdersFor orders (x_ID x) in
  if hasOneShotFinalFlattenIdempotency related (x_ID x) then true
  else if hasMakerOrHedgeRole related (x_ID x) then false
  else match related with
  | _ :: _ => false
  | [] =>
      if negb (oneShotFinalFlattenClaimShape c x) then false
      else if (b_BidPrice bboA =?s "") && (b_AskPrice bboA =?s "") && (b_BidPrice bboB =?s "") && (b_AskPrice bboB =?s "")
      then oneShotFinalFlattenRemainingBelowThresholdFromExecution c x
      else oneShotFinalFlattenRemainingBelowThreshold c bboA bboB
  end.

Definition closeFlattenPlaceRequest (i : Instrument) (base : D) : option OrderRequest :=
  let quantity := closeFlattenQuantity i base in
  if negb (dIsPositive quantity) then None
  else match ToVenueQuantity (D := D) (toVenueInstrument i) (dString quantity) with
       | Err _ => None
       | Ok _ => Some (mkOrderRequest (toVenueInstrument i) "" (closeFlattenSide base) "market" (dString quantity) "" "" false true)
       end.

Definition signedFlattenBase (leg : OwnedFlattenLeg D) : D :=
  if EqualFold (fl_Side leg) "buy" then dNeg (fl_BaseQuantity leg) else fl_BaseQuantity leg.

(** The market order both flattenings place for a leg; its key differs. *)
Definition flattenIntent (key : string) (c : ArbitrageCombination) (x : ArbitrageExecution) (leg : OwnedFlattenLeg D) (i : Instrument) : Order :=
  zero_Order <| o_IdempotencyKey := key |> <| o_OwnerUsername := c_OwnerUsername c |>
    <| o_TradingAccountID := l_TradingAccountID (fl_Leg leg) |> <| o_ProductName := l_ProductName (fl_Leg leg) |>
    <| o_Exchange := l_Exchange (fl_Leg leg) |> <| o_InstrumentID := i_ID i |> <| o_ContractType := i_ContractType i |>
    <| o_ExchangeSymbol := i_ExchangeSymbol i |> <| o_BaseAsset := i_BaseAsset i |> <| o_QuoteAsset := i_QuoteAsset i |>
    <| o_Side := fl_Side leg |> <| o_OrderType := "market"%string |> <| o_Quantity := dString (fl_BaseQuantity leg) |>
    <| o_RequestFingerprint := requestFingerprint (D := D) (l_TradingAccountID (fl_Leg leg)) (i_ID i) (fl_Side leg) "market"
         (dString (fl_BaseQuantity leg)) "" ["reduce_only"%string] |>
    <| o_ArbitrageExecutionID := x_ID x |> <| o_ArbitrageLeg := fl_LegName leg |> <| o_ArbitrageRole := "market"%string |>
    <| o_ReduceOnly := true |>.

Definition oneShotFinalFlattenOrderIntent (c : ArbitrageCombination) (x : ArbitrageExecution) (leg : OwnedFlattenLeg D) (i : Instrument) : Order :=
  flattenIntent (oneShotFinalFlattenIdempotencyKey (x_ID x) (fl_LegName leg)) c x leg i.

(** A claimed quantity of a leg is within what may be reduced. *)
Definition legClaimOk (c : ArbitrageCombination) (legName : string) (qty : D) : bool :=
  if dIsPositive qty
  then closeFlattenOwnedVenueReducible (D := D) c legName && negb (oneShotFinalFlattenLegCap c legName <? qty)
  else true.

Definition validateOneShotFinalFlattenClaim (c : ArbitrageCombination) (claim : OneShotFinalFlattenClaim D) (now : GoTime) : bool :=
  let x := fc_Execution claim in
  if negb (oneShotFinalFlattenClaimShape c x) then false
  else if c_PositionUncertain c || (c_RuntimeState c =?s "manual_intervention") then false
  else if negb (closeFlattenBothPerpetual (l_ContractType (c_LegA c)) (l_ContractType (c_LegB c))) then false
  else if negb (circuitOpenBaselineComplete c) then false
  else if negb (closeFlattenSnapshotFresh (c_LastPositionReconciledAt c) now) then false
  else if negb (c_LastPositionReconciledAt c =? fc_ReconciledAt claim)%Z then false
  else if negb (oneShotFinalFlattenRemainingBelowThresholdFromExecution c x) then false
  else
    let qtyA := fc_LegAQuantity claim in
    let qtyB := fc_LegBQuantity claim in
    if dIsNegative qtyA || dIsNegative qtyB then false
    else if negb (dIsPositive qtyA) && negb (dIsPositive qtyB) then false
    else if negb (legClaimOk c "a" qtyA) then false
    else if negb (legClaimOk c "b" qtyB) then false
    else
      let target := parsePositiveDecimal (x_TargetBaseQuantity x) in
      if negb (dEqual target (dMax qtyA qtyB)) then false
      else
        let requested := parsePositiveDecimal (x_RequestedNotional x) in
        if negb (dEqual requested (dMax (fc_LegANotional claim) (fc_LegBNotional claim))) then false
        else if negb (dIsPositive requested) || negb (dIsPositive target) then false
        else true.

Definition oneShotFinalFlattenVenueDeltaFlat (c : ArbitrageCombination) (iA iB : Instrument) : bool :=
  let deltaA := parseDecimal (c_LegAVenueBasePosition c) - parseDecimal (c_LegAVenueBaselineBasePosition c) in
  let deltaB := parseDecimal (c_LegBVenueBasePosition c) - parseDecimal (c_LegBVenueBaselineBasePosition c) in
  positionDifferenceWithinMarketStep (D := D) deltaA (closeFlattenQuantityStep iA) &&
  positionDifferenceWithinMarketStep (D := D) deltaB (closeFlattenQuantityStep iB).

Definition oneShotFinalFlattenReconcileReady (c : ArbitrageCombination) (orders : list Order) (executionID : string) (iA iB : Instrument) : bool :=
  if negb (combinationLooksFlat (D := D) c) then false
  else if negb (circuitOpenBaselineComplete c) then false
  else
    let related := base.filter (fun o => ((executionID =?s "") || ofExecution executionID o) && hasFlattenKey o = true) orders in
    let latest := latestOrderUpdatedAt related in
    if negb (IsZeroTime latest) && TimeBefore (c_LastPositionReconciledAt c) latest then false
    else oneShotFinalFlattenVenueDeltaFlat c iA iB.

Definition oneShotFinalFlattenUnexecutable (err : option GoError) : bool :=
  match err with
  | None => false
  | Some e =>
      if lastClipHedgeMinNotionalError err then true
      else if errorsIs e ErrInvalidQuantity then true
      else existsb (Contains (ToLower (sanitizeError e))) ["lot size"; "step size"; "quantity precision"; "price precision"]%string
  end.

Definition oneShotFinalFlattenFillNotional (o : Order) : D :=
  let filled := parseDecimal (o_FilledQuantity o) in
  if negb (dIsPositive filled) then dZero
  else
    let price := parsePositiveDecimal (o_AveragePrice o) in
    let price := if negb (dIsPositive price) then parsePositiveDecimal (o_Price o) else price in
    if negb (dIsPositive price) then dZero else filled * price.

(** The orders of a final flatten. *)
Definition flattenOrdersFor (orders : list Order) (executionID : string) : list Order :=
  base.filter (fun o => hasFlattenKey o = true) (executionOrdersFor orders executionID).

Definition oneShotFinalFlattenFillTotals (orders : list Order) (executionID : string) : D * D * D :=
  fold_left (fun '(fillA, fillB, notional) o =>
    let filled := parseDecimal (o_FilledQuantity o) in
    let notional := notional + oneShotFinalFlattenFillNotional o in
    if legOf o =?s "b" then (fillA, fillB + filled, notional) else (fillA + filled, fillB, notional))
    (flattenOrdersFor orders executionID) (dZero, dZero, dZero).

Definition oneShotFinalFlattenOrdersTerminal (orders : list Order) (executionID : string) : bool :=
  forallb (fun o => terminalStatus (o_Status o)) (flattenOrdersFor orders executionID).

Definition oneShotFinalFlattenLatestOrderAt (orders : list Order) (executionID : string) : GoTime :=
  latestOrderUpdatedAt (executionOrdersFor orders executionID).

(** A fill of the flatten on the position of its leg. *)
Definition oneShotFinalFlattenShouldDust (c : ArbitrageCombination) (iA iB : Instrument) (orders : list Order) (executionID : string)
    (unexecutable : bool) : bool :=
  let ownedA : D := parseDecimal (c_LegABasePosition c) in
  let ownedB : D := parseDecimal (c_LegBBasePosition c) in
  let latest := oneShotFinalFlattenLatestOrderAt orders executionID in
  if negb (oneShotRunningExiting c) || c_PositionUncertain c then false
  else if dIsZero ownedA && dIsZero ownedB then false
  else if IsZeroTime latest || TimeBefore (c_LastPositionReconciledAt c) latest then false
  else if negb (dIsZero (closeFlattenOwnedPlaceBase c iA "a")) || negb (dIsZero (closeFlattenOwnedPlaceBase (D := D) c iB "b")) then unexecutable
  else true.

Definition addFlattenFill (legs : D * D) (o : Order) : D * D :=
  let '(legA, legB) := legs in
  let filled := parseDecimal (o_FilledQuantity o) in
  if negb (dIsPositive filled) then legs
  else
    let filled := if EqualFold (o_Side o) "sell" then dNeg filled else filled in
    if EqualFold (TrimSpace (o_ArbitrageLeg o)) "b" then (legA, legB + filled) else (legA + filled, legB).

Definition applyOneShotFinalFlattenLedger (c : ArbitrageCombination) (orders : list Order) (executionID : string) : ArbitrageCombination :=
  let '(legA, legB) := fold_left addFlattenFill (flattenOrdersFor orders executionID)
                         (parseDecimal (c_LegABasePosition c), parseDecimal (c_LegBBasePosition c)) in
  c <| c_LegABasePosition := dString legA |> <| c_LegBBasePosition := dString legB |> <| c_CarryBaseQuantity := dString (legA + legB) |>.

(** ** Dust a one-shot combination may keep *)

Definition evaluateBuildingOneShotDust (in_ : oneShotDustInput D) (legA legB carry : D) : oneShotDustVerdict :=
  if du_Remaining in_ >=? dNewFromInt arbitrageMinOpenNotional then oneShotDustRetry
  else if dIsZero legA || dIsZero legB || (dSign legA =? dSign legB)%Z then oneShotDustUnsafe
  else if dIsZero carry then oneShotDustAccepted
  else if negb (dIsPositive (du_PriceA in_)) || negb (dIsPositive (du_PriceB in_)) then oneShotDustRetry
  else
    let residual := dAbs carry in
    if dMax (residual * du_PriceA in_) (residual * du_PriceB in_) >=? dNewFromInt arbitrageMinOpenNotional then oneShotDustUnsafe
    else
      let '(_, eligibleA, errA) := executableHedgeQuantity residual (du_PriceA in_) (du_InstrumentA in_) false in
      let '(_, eligibleB, errB) := executableHedgeQuantity residual (du_PriceB in_) (du_InstrumentB in_) false in
      match errA, errB with
      | None, None =>
          if eligibleA || eligibleB then oneShotDustUnsafe
          else if (hedgeQuantityDustReason residual (du_PriceA in_) (du_InstrumentA in_) =?s "") &&
                  (hedgeQuantityDustReason residual (du_PriceB in_) (du_InstrumentB in_) =?s "") then oneShotDustRetry
          else oneShotDustAccepted
      | _, _ => oneShotDustRetry
      end.

Definition evaluateExitingOneShotDust (in_ : oneShotDustInput D) (legA legB carry : D) : oneShotDustVerdict :=
  let aNZ := negb (dIsZero legA) in
  let bNZ := negb (dIsZero legB) in
  if eqb aNZ bNZ || dIsZero carry then oneShotDustUnsafe
  else
    let '(residual, price, instrument) :=
      if bNZ then (dAbs legB, du_PriceB in_, du_InstrumentB in_) else (dAbs legA, du_PriceA in_, du_InstrumentA in_) in
    if negb (dIsPositive price) then oneShotDustRetry
    else if residual * price >=? dNewFromInt arbitrageMinOpenNotional then oneShotDustUnsafe
    else if dIsPositive (closeFlattenQuantity instrument residual) then oneShotDustRetry
    else oneShotDustAccepted.

Definition evaluateOneShotDust (in_ : oneShotDustInput D) : oneShotDustVerdict :=
  let c := du_Combination in_ in
  if negb (EqualFold (TrimSpace (c_RunMode c)) "one_shot") || negb (EqualFold (TrimSpace (c_Status c)) "running") then oneShotDustRetry
  else
    let phase := TrimSpace (c_OneShotPhase c) in
    if negb (phase =?s du_Phase in_) then oneShotDustRetry
    else if c_RuntimeState c =?s "manual_intervention" then oneShotDustRetry
    else if c_PositionUncertain c || c_CircuitOpen c || du_ExecutionRunning in_ then oneShotDustRetry
    else if du_GateErr in_ then oneShotDustRetry
    else if du_LiveOrder in_ || du_LiveExecution in_ || du_Unreconciled in_ then oneShotDustRetry
    else if IsZeroTime (c_LastPositionReconciledAt c) || (c_LastPositionReconciledAt c =? unixEpoch)%Z then oneShotDustRetry
    else if negb (closeFlattenBothPerpetual (l_ContractType (c_LegA c)) (l_ContractType (c_LegB c)))
    then (if phase =?s "exiting" then oneShotDustUnsafe else oneShotDustRetry)
    else if du_InstrumentErr in_ then oneShotDustRetry
    else
      let legA := parseDecimal (c_LegABasePosition c) in
      let legB := parseDecimal (c_LegBBasePosition c) in
      let carry := parseDecimal (c_CarryBaseQuantity c) in
      if negb (dEqual carry (legA + legB)) then oneShotDustUnsafe
      else if phase =?s "building_target" then evaluateBuildingOneShotDust in_ legA legB carry
      else if phase =?s "exiting" then evaluateExitingOneShotDust in_ legA legB carry
      else oneShotDustRetry.

(** [(qty, notional, single)] *)
Definition oneShotLeftoverResidual (c : ArbitrageCombination) (bboA bboB : BBO) : D * D * bool :=
  let legA := parseDecimal (c_LegABasePosition c) in
  let legB := parseDecimal (c_LegBBasePosition c) in
  let aNZ := negb (dIsZero legA) in
  let bNZ := negb (dIsZero legB) in
  if eqb aNZ bNZ then (dZero, dZero, false)
  else if aNZ then (dAbs legA, dAbs legA * closeFlattenOwnedExecutablePrice legA bboA, true)
  else (dAbs legB, dAbs legB * closeFlattenOwnedExecutablePrice legB bboB, true).

Definition carryClosePrices (carry : D) (bboA bboB : BBO) : D * D :=
  let side := carryHedgeSide carry in
  (parsePositiveDecimal (bboPriceForSide bboA side), parsePositiveDecimal (bboPriceForSide bboB side)).

(** ** The residual orders of a close *)

Definition lastCloseResidualFlattenExecutionID (combinationID : string) : string := residualUUID (TrimSpace combinationID).

Definition lastCloseResidualFlattenIdempotencyKey (executionID legName : string) : string :=
  Join ["arb"; TrimSpace executionID; ToLower (TrimSpace legName); lastCloseResidualFlattenIdempotencyRole; "0"]%string ":".

Definition lastCloseResidualFlattenExecution (combinationID : string) (x : ArbitrageExecution) : bool :=
  if (TrimSpace (x_ID x) =?s "") || negb (x_ID x =?s lastCloseResidualFlattenExecutionID combinationID) then false
  else x_ReduceOnly x && negb (x_LastCloseClip x) && EqualFold (TrimSpace (x_PositionEffect x)) "close".

Definition residualFlattenDirectionAgrees (c : ArbitrageCombination) : bool :=
  match arbitrageOwnedCloseDirection (D := D) c, arbitrageVenueReduceDirection (D := D) c with
  | Some _, None => false
  | Some owned, Some venue => owned =?s venue
  | None, _ => true
  end.

Definition residualFlattenBlockedByOtherWork (combinationID : string) (orders : list Order) (executions : list ArbitrageExecution) : bool :=
  let residualID := lastCloseResidualFlattenExecutionID combinationID in
  existsb (fun x => negb ((x_ID x =?s residualID) || terminalArbitrageExecutionStatus (x_Status x))) executions ||
  existsb (fun o => negb ((o_ArbitrageExecutionID o =?s residualID) || terminalStatus (o_Status o))) orders.

Definition lastCloseResidualTinyEligible (c : ArbitrageCombination) (iA iB : Instrument) (bboA bboB : BBO) (now : GoTime) : bool :=
  closeFlattenTinyOwnedPositions (D := D) now (mkTinyOwned c iA iB bboA bboB now zeroTime false (2 * Minute)%Z).

Definition lastCloseResidualFlattenOrderIntent (c : ArbitrageCombination) (x : ArbitrageExecution) (leg : OwnedFlattenLeg D) (i : Instrument) : Order :=
  (flattenIntent (lastCloseResidualFlattenIdempotencyKey (x_ID x) (fl_LegName leg)) c x leg i) <| o_Status := "pending"%string |>.

(** The execution the residual orders belong to. *)
Definition residualExecutionOf (c : ArbitrageCombination) : ArbitrageExecution :=
  zero_ArbitrageExecution <| x_ID := lastCloseResidualFlattenExecutionID (c_ID c) |> <| x_CombinationID := c_ID c |>
    <| x_ReduceOnly := true |> <| x_LastCloseClip := false |> <| x_PositionEffect := "close"%string |> <| x_Status := "hedging"%string |>.

Definition lastCloseResidualFlattenOrders (c : ArbitrageCombination) (iA iB : Instrument) : list Order :=
  omap (fun leg =>
    let i := if fl_LegName leg =?s "b" then iB else iA in
    match closeFlattenPlaceRequest i (signedFlattenBase leg) with
    | None => None
    | Some _ => Some (lastCloseResidualFlattenOrderIntent c (residualExecutionOf c) leg i)
    end) (planOwnedFlattenLegs c iA iB).

Definition lastCloseResidualFlattenOrdersFor (orders : list Order) (executionID : string) : list Order :=
  base.filter (fun o => Contains (o_IdempotencyKey o) residualNeedle = true) (executionOrdersFor orders executionID).

(** The notional of a leg, when it is empty or below the threshold. *)
Definition dustLegNotional (owned : D) (bbo : BBO) : option D :=
  if dIsZero owned then Some dZero
  else
    let price := closeFlattenOwnedExecutablePrice owned bbo in
    if negb (dIsPositive price) then None
    else
      let notional := dAbs owned * price in
      if negb (notional <? dNewFromInt arbitrageMinOpenNotional) then None else Some notional.

Definition lastCloseResidualDustDecision (c : ArbitrageCombination) (orders : list Order) (executionID : string) (iA iB : Instrument)
    (bboA bboB : BBO) : option (lastCloseResidualDustDecisionResult D) :=
  if negb (EqualFold (TrimSpace (c_Status c)) "closing") || c_PositionUncertain c || c_CircuitOpen c then None
  else if negb (forallb (fun o => terminalStatus (o_Status o)) orders) then None
  else
    let latest := latestOrderUpdatedAt (lastCloseResidualFlattenOrdersFor orders executionID) in
    if IsZeroTime (c_LastPositionReconciledAt c) || (c_LastPositionReconciledAt c =? unixEpoch)%Z then None
    else if negb (IsZeroTime latest) && TimeBefore (c_LastPositionReconciledAt c) latest then None
    else
      let legA := parseDecimal (c_LegABasePosition c) in
      let legB := parseDecimal (c_LegBBasePosition c) in
      match dustLegNotional legA bboA, dustLegNotional legB bboB with
      | Some notionalA, Some notionalB =>
          let reducibleA := dIsPositive (dAbs (closeFlattenOwnedPlaceBase (D := D) c iA "a")) in
          let reducibleB := dIsPositive (dAbs (closeFlattenOwnedPlaceBase (D := D) c iB "b")) in
          if reducibleA || reducibleB then None
          else if dIsZero legA && dIsZero legB then None
          else Some (mkDustDecision latest notionalA notionalB reducibleA reducibleB)
      | _, _ => None
      end.

(** ** Reopening a tripped circuit *)

Definition circuitOpenManualHotPathSuppressed (c : ArbitrageCombination) : bool :=
  if negb (c_CircuitOpen c) || negb (EqualFold (TrimSpace (c_RuntimeState c)) "manual_intervention") then false
  else if negb (EqualFold (TrimSpace (c_Status c)) "running") then false
  else if arbitrageFlattening c then false
  else existsb (String.eqb (ToLower (TrimSpace (c_OneShotPhase c)))) [""; "building"; "building_target"; "waiting_exit"]%string.

Definition circuitOpenReconcileInterval : Duration := (30 * Second)%Z.

Definition circuitRecoverySnapshotFresh (started observed now : GoTime) : bool :=
  if IsZeroTime started || IsZeroTime observed || TimeBefore observed started then false
  else let age := TimeSub now observed in (0 <=? age)%Z && (age <=? circuitOpenReconcileInterval)%Z.

Definition recoverableMarginReject (o : Order) : bool :=
  explicitVenueRejectedZeroFill (D := D) o && EqualFold (TrimSpace (o_Exchange o)) "bybit" && (TrimSpace (o_ErrorCode o) =?s "110007").

Definition circuitOrderNeedsConfirm (o : Order) : bool :=
  if explicitVenueRejectedZeroFill (D := D) o || confirmedAbsentReliableZeroFill (D := D) o then false else negb (terminalStatus (o_Status o)).

Definition hedgeRecoveryOrder (x : ArbitrageExecution) (orders : list Order) : option Order :=
  if terminalArbitrageExecutionStatus (x_Status x) then None
  else
    let hedgeID := TrimSpace (x_HedgeOrderID x) in
    if hedgeID =?s "" then None
    else match base.filter (fun o => o_ID o = hedgeID) orders with
         | [] => None
         | o :: _ =>
             if negb (o_ArbitrageExecutionID o =?s x_ID x) || negb (isArbitrageCarryHedgeRole (o_ArbitrageRole o)) ||
                negb (terminalStatus (o_Status o)) || (0 <? o_ReconcileFailures o)%Z then None
             else if dIsPositive (parseDecimal (D := D) (o_FilledQuantity o)) || recoverableMarginReject o then Some o else None
         end.

(** The quote of a failed opening: the order the execution names, or the last
    of its role. *)
Definition quoteRecoveryOrder (x : ArbitrageExecution) (orders : list Order) : option Order :=
  if negb (EqualFold (TrimSpace (x_Status x)) "failed") || negb (EqualFold (TrimSpace (x_PositionEffect x)) "open") || x_LastCloseClip x then None
  else
    let makerID := TrimSpace (x_MakerOrderID x) in
    let quotes := base.filter (fun o => (o_ArbitrageExecutionID o =?s x_ID x) && ((roleOf o =?s "maker") || (roleOf o =?s "quote")) &&
                                        ((makerID =?s "") || (o_ID o =?s makerID)) = true) orders in
    let selected := if makerID =?s "" then last quotes else head quotes in
    match selected with
    | Some o => if recoverableMarginReject o then Some o else None
    | None => None
    end.

Definition latestFailedArbitrageExecution (items : list ArbitrageExecution) : option ArbitrageExecution :=
  head (base.filter (fun x => EqualFold (TrimSpace (x_Status x)) "failed" = true) items).

Definition combinationTerminalOrderSums (orders : list Order) : D * D * bool :=
  fold_left (fun '(sumA, sumB, allTerminal) o =>
    let allTerminal := allTerminal && negb (negb (terminalStatus (o_Status o)) || (0 <? o_ReconcileFailures o)%Z) in
    if negb (dIsPositive (parseDecimal (D := D) (o_FilledQuantity o))) || negb (terminalStatus (o_Status o)) then (sumA, sumB, allTerminal)
    else if EqualFold (TrimSpace (o_ArbitrageLeg o)) "b" then (sumA, sumB + signedFilledBase o, allTerminal)
    else (sumA + signedFilledBase o, sumB, allTerminal)) orders (dZero, dZero, true).

Definition executionConfirmedLegFills (executionID : string) (orders : list Order) : D * D :=
  fold_left (fun '(fillA, fillB) o =>
    let filled := parseDecimal (o_FilledQuantity o) in
    if negb (terminalStatus (o_Status o)) || negb (dIsPositive filled) then (fillA, fillB)
    else if EqualFold (TrimSpace (o_ArbitrageLeg o)) "b" then (fillA, fillB + filled)
    else (fillA + filled, fillB)) (executionOrdersFor orders executionID) (dZero, dZero).
(** The claim the scheduler makes of a plan: the execution and its
    quantities, none when nothing can be placed. *)
Definition finalFlattenClaim (id : string) (c : ArbitrageCombination) (planned : list (OwnedFlattenLeg D)) (bboA bboB : BBO)
    (aBid aAsk bBid bAsk : D) : option (OneShotFinalFlattenClaim D) :=
  let '(qtyA, qtyB) := oneShotFinalFlattenPlannedQuantities planned in
  if negb (dIsPositive qtyA) && negb (dIsPositive qtyB) then None
  else
    let priceA := closeFlattenOwnedExecutablePrice (parseDecimal (c_LegABasePosition c)) bboA in
    let priceB := closeFlattenOwnedExecutablePrice (parseDecimal (c_LegBBasePosition c)) bboB in
    let notionalA := if dIsPositive qtyA then qtyA * priceA else dZero in
    let notionalB := if dIsPositive qtyB then qtyB * priceB else dZero in
    let direction := oneShotFinalFlattenDirection c qtyA qtyB in
    if direction =?s "" then None
    else Some (mkFlattenClaim
      (zero_ArbitrageExecution <| x_ID := id |> <| x_CombinationID := c_ID c |> <| x_Direction := direction |> <| x_Status := "claimed"%string |>
        <| x_TriggerAskSpread := c_CurrentAskSpreadBps c |> <| x_TriggerBidSpread := c_CurrentBidSpreadBps c |>
        <| x_TriggerLegABid := dString aBid |> <| x_TriggerLegAAsk := dString aAsk |>
        <| x_TriggerLegBBid := dString bBid |> <| x_TriggerLegBAsk := dString bAsk |>
        <| x_TargetBaseQuantity := dString (dMax qtyA qtyB) |> <| x_RequestedNotional := dString (dMax notionalA notionalB) |>
        <| x_PositionEffect := "close"%string |> <| x_ReduceOnly := true |> <| x_LastCloseClip := true |>
        <| x_LegAFilledQuantity := "0"%string |> <| x_LegBFilledQuantity := "0"%string |> <| x_DeltaNotional := "0"%string |>)
      qtyA qtyB notionalA notionalB (c_LastPositionReconciledAt c)).
End Rules.

(** ** Facts *)

Lemma Contains_skip a r n : Contains r n = true -> Contains (String.append a r) n = true.
Proof. intros H. induction a as [|ch a IH]; [done|].
  change (String.prefix n (String ch (String.append a r)) || Contains (String.append a r) n = true). rewrite IH. apply orb_true_r.
Qed.

(** The keys of both flattenings carry the mark they are looked up by. *)
Lemma flatten_key_found id leg : Contains (oneShotFinalFlattenIdempotencyKey id leg) finalFlattenNeedle = true.
Proof. unfold oneShotFinalFlattenIdempotencyKey, Join. cbn [String.concat]. do 5 apply Contains_skip. vm_compute. reflexivity. Qed.
Lemma residual_key_found id leg : Contains (lastCloseResidualFlattenIdempotencyKey id leg) residualNeedle = true.
Proof. unfold lastCloseResidualFlattenIdempotencyKey, Join. cbn [String.concat]. do 5 apply Contains_skip. vm_compute. reflexivity. Qed.

Section Facts.
Context {D : Type} `{!Decimal D} `{!DecimalLaws D} `{!Postgres D} `{!Uuids}.
Local Open Scope Q_scope.

(** A position [p'] that is [p] less some part of it, up to [eps]. *)
Definition reducedTo (eps p p' : Q) : Prop := exists q, 0 <= q <= Qabs p + eps /\ (0 <= p -> p' == p - q) /\ (p <= 0 -> p' == p + q).

Lemma reducedTo_same eps p : 0 <= eps -> reducedTo eps p p.
Proof. intros He. exists 0. pose proof (Qabs_nonneg p). split_and!; intros; lra. Qed.

Lemma planned_leg c i name leg l :
  planOwnedFlattenLeg (D := D) c i name leg = Some l ->
  let '(owned, venue, baseline) := closeFlattenOwnedLegValues (D := D) c name in
  let eps := stepEps (closeFlattenQuantityStep (D := D) i) in
  fl_LegName l = ToLower (TrimSpace name) /\ fl_Side l = closeFlattenSide owned /\ ~ dval owned == 0 /\
  0 < dval (fl_BaseQuantity l) /\ dval (fl_BaseQuantity l) <= Qabs (dval owned) + eps /\
  dval (fl_BaseQuantity l) <= Qabs (dval venue - dval baseline) + eps.
Proof.
  unfold planOwnedFlattenLeg. destruct (closeFlattenOwnedVenueReducible c name) eqn:Er; [|done]. cbn [negb].
  destruct (closeFlattenOwnedLegValues c name) as [[owned venue] baseline] eqn:E.
  pose proof (closeFlattenOwnedPlaceBase_bounded c i name owned venue baseline E) as (Hs & Ho & Hv). cbv zeta in Hs, Ho, Hv.
  destruct (dIsPositive_reflect (dAbs (closeFlattenOwnedPlaceBase (D := D) c i name))) as [Hp|]; [|done]. intros [= <-].
  cbn [fl_LegName fl_Side fl_BaseQuantity]. rewrite dAbs_val in *. set (p := dval (closeFlattenOwnedPlaceBase (D := D) c i name)) in *.
  assert (~ p == 0) as Hnz by (intros E0; rewrite E0 in Hp; by compute in Hp).
  assert (~ dval owned == 0) as Hon.
  { intros E0. apply Hnz. unfold p, closeFlattenOwnedPlaceBase. rewrite E. destruct (dIsZero_reflect owned); [by rewrite dZero_val|done]. }
  split_and!; try done. unfold closeFlattenSide.
  destruct (dIsNegative_reflect (closeFlattenOwnedPlaceBase (D := D) c i name)) as [Hn|Hn], (dIsNegative_reflect owned) as [Hm|Hm]; try done; exfalso; fold p in Hn; nra.
Qed.

(** A fill of a planned leg. *)
Definition fillOf (l : OwnedFlattenLeg D) (o : Order) : Prop :=
  o_Side o = fl_Side l /\ o_ArbitrageLeg o = fl_LegName l /\
  0 <= dval (parseDecimal (D := D) (o_FilledQuantity o)) <= dval (fl_BaseQuantity l).

(** What a fill makes of the position of its leg. *)
Definition filledPosition (p : D) (o : Order) : D :=
  let filled := parseDecimal (o_FilledQuantity o) in
  if negb (dIsPositive filled) then p else (p + (if EqualFold (o_Side o) "sell" then dNeg filled else filled))%dec.

Lemma addFlattenFill_leg (legA legB : D) o :
  o_ArbitrageLeg o = "a"%string -> addFlattenFill (legA, legB) o = (filledPosition legA o, legB).
Proof. unfold addFlattenFill, filledPosition. intros ->. by destruct (dIsPositive _). Qed.
Lemma addFlattenFill_legB (legA legB : D) o :
  o_ArbitrageLeg o = "b"%string -> addFlattenFill (legA, legB) o = (legA, filledPosition legB o).
Proof. unfold addFlattenFill, filledPosition. intros ->. by destruct (dIsPositive _). Qed.

Lemma filled_reduces c i name leg l o owned venue baseline :
  closeFlattenOwnedLegValues (D := D) c name = (owned, venue, baseline) ->
  planOwnedFlattenLeg (D := D) c i name leg = Some l -> fillOf l o ->
  reducedTo (stepEps (closeFlattenQuantityStep (D := D) i)) (dval owned) (dval (filledPosition owned o)).
Proof.
  intros E Hl (Hs & _ & Hf). pose proof (planned_leg _ _ _ _ _ Hl) as Hpl. rewrite E in Hpl. cbv zeta in Hpl. destruct Hpl as (_ & Hside & Hnz & _ & Hq & _).
  unfold filledPosition. destruct (dIsPositive_reflect (parseDecimal (D := D) (o_FilledQuantity o))) as [Hp|Hp]; cbn [negb];
    [|apply reducedTo_same, stepEps_nonneg].
  exists (dval (parseDecimal (D := D) (o_FilledQuantity o))). split; [lra|]. rewrite Hs, Hside. unfold closeFlattenSide.
  assert (EqualFold "buy" "sell" = false /\ EqualFold "sell" "sell" = true) as [E1 E2] by (split; vm_compute; reflexivity).
  destruct (dIsNegative_reflect owned); rewrite ?E1, ?E2, dAdd_val, ?dNeg_val; split; intros; lra.
Qed.

Lemma flatten_legA c iA orders (b : D) :
  let a := parseDecimal (c_LegABasePosition c) in
  Forall2 fillOf (option_list (planOwnedFlattenLeg c iA "a" (c_LegA c))) orders ->
  exists a', fold_left addFlattenFill orders (a, b) = (a', b) /\ reducedTo (stepEps (closeFlattenQuantityStep (D := D) iA)) (dval a) (dval a').
Proof.
  intros a. destruct (planOwnedFlattenLeg c iA "a" (c_LegA c)) as [l|] eqn:P; cbn [option_list]; intros Hf.
  - apply Forall2_cons_inv_l in Hf as (o & os & Ho & ->%Forall2_nil_inv_l & ->). cbn [fold_left].
    pose proof (planned_leg _ _ _ _ _ P) as Hn. cbn in Hn. destruct Hn as (Hn & _).
    exists (filledPosition a o). split; [apply addFlattenFill_leg; rewrite (proj1 (proj2 Ho)), Hn; reflexivity|]. eapply (filled_reduces c iA "a" (c_LegA c) l o a); [reflexivity|exact P|exact Ho].
  - apply Forall2_nil_inv_l in Hf as ->. exists a. split; [done|]. apply reducedTo_same, stepEps_nonneg.
Qed.
Lemma flatten_legB c iB orders (a : D) :
  let b := parseDecimal (c_LegBBasePosition c) in
  Forall2 fillOf (option_list (planOwnedFlattenLeg c iB "b" (c_LegB c))) orders ->
  exists b', fold_left addFlattenFill orders (a, b) = (a, b') /\ reducedTo (stepEps (closeFlattenQuantityStep (D := D) iB)) (dval b) (dval b').
Proof.
  intros b. destruct (planOwnedFlattenLeg c iB "b" (c_LegB c)) as [l|] eqn:P; cbn [option_list]; intros Hf.
  - apply Forall2_cons_inv_l in Hf as (o & os & Ho & ->%Forall2_nil_inv_l & ->). cbn [fold_left].
    pose proof (planned_leg _ _ _ _ _ P) as Hn. cbn in Hn. destruct Hn as (Hn & _).
    exists (filledPosition b o). split; [apply addFlattenFill_legB; rewrite (proj1 (proj2 Ho)), Hn; reflexivity|]. eapply (filled_reduces c iB "b" (c_LegB c) l o b); [reflexivity|exact P|exact Ho].
  - apply Forall2_nil_inv_l in Hf as ->. exists b. split; [done|]. apply reducedTo_same, stepEps_nonneg.
Qed.

#[local] Instance reducedTo_proper : Proper (Qeq ==> Qeq ==> Qeq ==> iff) reducedTo.
Proof.
  assert (forall e e' p p' r r', e == e' -> p == p' -> r == r' -> reducedTo e p r -> reducedTo e' p' r') as Hi.
  { intros e e' p p' r r' E1 E2 E3 (q & Hq & H1 & H2). exists q. rewrite <- E1, <- E2, <- E3. done. }
  intros e e' E1 p p' E2 r r' E3. split; by apply Hi.
Qed.

Lemma intents_found (g : OwnedFlattenLeg D -> Order) id legs :
  (forall l, ofExecution id (g l) = true /\ hasFlattenKey (g l) = true) -> flattenOrdersFor (map g legs) id = map g legs.
Proof.
  intros Hg. unfold flattenOrdersFor, executionOrdersFor. induction legs as [|l legs IH]; [done|]. cbn [map]. destruct (Hg l) as [G1 G2].
  rewrite (filter_cons_True _ (g l)) by done. rewrite (filter_cons_True _ (g l)) by done. by rewrite IH.
Qed.

(** C23: the final market orders of a one-shot exit only reduce what the
    combination owns.  The orders of the plan are reduce-only, on the side that
    reduces their leg, for no more than is owned and the venue holds beyond the
    baseline, and are found again under their keys; whatever part of each is
    filled, the ledger after it has each leg reduced, never turned (up to the
    rounding of one step), and the carry is their sum. *)
Theorem final_flatten_only_reduces c iA iB (x : ArbitrageExecution) (orders : list Order) :
  let planned := planOwnedFlattenLegs (D := D) c iA iB in
  let intents := map (fun leg => oneShotFinalFlattenOrderIntent c x leg (if fl_LegName leg =?s "b" then iB else iA)) planned in
  let c' := applyOneShotFinalFlattenLedger (D := D) c orders (x_ID x) in
  let pos s := dval (parseDecimal (D := D) s) in
  Forall (fun o => o_ReduceOnly o = true) intents /\ flattenOrdersFor intents (x_ID x) = intents /\
  (Forall2 fillOf planned (flattenOrdersFor orders (x_ID x)) ->
   reducedTo (stepEps (closeFlattenQuantityStep (D := D) iA)) (pos (c_LegABasePosition c)) (pos (c_LegABasePosition c')) /\
   reducedTo (stepEps (closeFlattenQuantityStep (D := D) iB)) (pos (c_LegBBasePosition c)) (pos (c_LegBBasePosition c')) /\
   pos (c_CarryBaseQuantity c') == pos (c_LegABasePosition c') + pos (c_LegBBasePosition c')).
Proof.
  intros planned intents c' pos. split; [|split].
  - unfold intents. induction planned; constructor; [done|]. exact IHplanned.
  - apply intents_found. intros l. split; [unfold ofExecution; cbn; apply String.eqb_refl|apply flatten_key_found].
  - intros Hf. unfold c', applyOneShotFinalFlattenLedger, pos.
    apply Forall2_app_inv_l in Hf as (oA & oB & HA & HB & ->). rewrite fold_left_app.
    destruct (flatten_legA c iA oA (parseDecimal (c_LegBBasePosition c)) HA) as (a' & -> & Ha). destruct (flatten_legB c iB oB a' HB) as (b' & -> & Hb).
    cbn. rewrite !parseDecimal_String, dAdd_val. split; [exact Ha|]. split; [exact Hb|reflexivity].
Qed.

(** The quote of a leg as the scheduler reads it. *)
Definition quoteOf (bbo : BBO) (bid ask : D) : Prop :=
  TrimSpace (b_BidPrice bbo) = b_BidPrice bbo /\ TrimSpace (b_AskPrice bbo) = b_AskPrice bbo /\
  dNewFromString (b_BidPrice bbo) = Some bid /\ dNewFromString (b_AskPrice bbo) = Some ask /\ 0 < dval bid /\ 0 < dval ask.

(** The price written into the execution is the one of the quote. *)
Lemma trigger_price (owned bid ask : D) bbo :
  quoteOf bbo bid ask -> ~ dval owned == 0 ->
  0 < dval (closeFlattenOwnedExecutablePrice owned bbo) /\
  dval (if dIsPositive owned then parsePositiveDecimal (D := D) (dString bid) else parsePositiveDecimal (dString ask)) ==
  dval (closeFlattenOwnedExecutablePrice owned bbo).
Proof.
  intros (T1 & T2 & P1 & P2 & Hb & Ha) Hnz. unfold closeFlattenOwnedExecutablePrice, closeFlattenSide, bboPriceForSide.
  assert (EqualFold (TrimSpace "buy") "sell" = false /\ EqualFold (TrimSpace "sell") "sell" = true) as [E1 E2] by (split; vm_compute; reflexivity).
  destruct (dIsZero_reflect owned); [done|].
  destruct (dIsNegative_reflect owned), (dIsPositive_reflect owned); try lra; rewrite ?E1, ?E2.
  - rewrite parsePositiveDecimal_String by done. unfold parsePositiveDecimal. rewrite T2, P2. destruct (dIsPositive_reflect ask); [|done]. by split.
  - rewrite parsePositiveDecimal_String by done. unfold parsePositiveDecimal. rewrite T1, P1. destruct (dIsPositive_reflect bid); [|done]. by split.
Qed.

Lemma legBelowThreshold_proper (owned p p' : D) : dval p == dval p' -> legBelowThreshold owned p = legBelowThreshold owned p'.
Proof.
  intros E. unfold legBelowThreshold. f_equal. f_equal.
  - destruct (dIsPositive_reflect p), (dIsPositive_reflect p'); try done; lra.
  - destruct (dLessThan_reflect (dAbs owned * p)%dec (dNewFromInt arbitrageMinOpenNotional)) as [H1|H1],
      (dLessThan_reflect (dAbs owned * p')%dec (dNewFromInt arbitrageMinOpenNotional)) as [H2|H2]; try done; exfalso; rewrite !dMul_val, E in *; done.
Qed.

Lemma trigger_below_threshold c x bboA bboB aBid aAsk bBid bAsk :
  quoteOf bboA aBid aAsk -> quoteOf bboB bBid bAsk ->
  x_TriggerLegABid x = dString aBid -> x_TriggerLegAAsk x = dString aAsk -> x_TriggerLegBBid x = dString bBid -> x_TriggerLegBAsk x = dString bAsk ->
  oneShotFinalFlattenRemainingBelowThresholdFromExecution (D := D) c x = oneShotFinalFlattenRemainingBelowThreshold (D := D) c bboA bboB.
Proof.
  intros QA QB E1 E2 E3 E4. unfold oneShotFinalFlattenRemainingBelowThresholdFromExecution, oneShotFinalFlattenRemainingBelowThreshold, remainingBelowThreshold.
  assert (forall owned : D, legBelowThreshold owned (oneShotFinalFlattenTriggerPrice x owned "a") = legBelowThreshold owned (closeFlattenOwnedExecutablePrice owned bboA)) as HA.
  { intros owned. destruct (dIsZero_reflect owned) as [Hz|Hz]; [unfold legBelowThreshold; by destruct (dIsZero_reflect owned)|]. apply legBelowThreshold_proper.
    rewrite <- (proj2 (trigger_price owned aBid aAsk bboA QA Hz)). unfold oneShotFinalFlattenTriggerPrice.
    destruct (dIsZero_reflect owned); [done|]. change (EqualFold (TrimSpace "a") "b") with false. cbv iota. by destruct (dIsPositive owned); rewrite ?E1, ?E2. }
  assert (forall owned : D, legBelowThreshold owned (oneShotFinalFlattenTriggerPrice x owned "b") = legBelowThreshold owned (closeFlattenOwnedExecutablePrice owned bboB)) as HB.
  { intros owned. destruct (dIsZero_reflect owned) as [Hz|Hz]; [unfold legBelowThreshold; by destruct (dIsZero_reflect owned)|]. apply legBelowThreshold_proper.
    rewrite <- (proj2 (trigger_price owned bBid bAsk bboB QB Hz)). unfold oneShotFinalFlattenTriggerPrice.
    destruct (dIsZero_reflect owned); [done|]. change (EqualFold (TrimSpace "b") "b") with true. cbv iota. by destruct (dIsPositive owned); rewrite ?E3, ?E4. }
  by rewrite HA, HB.
Qed.

Lemma planned_name c i name leg (l : OwnedFlattenLeg D) : planOwnedFlattenLeg c i name leg = Some l -> fl_LegName l = ToLower (TrimSpace name).
Proof. unfold planOwnedFlattenLeg. destruct (negb _); [done|]. destruct (negb _); [done|]. by intros [= <-]. Qed.

Lemma planned_positive c i name leg (l : OwnedFlattenLeg D) : planOwnedFlattenLeg c i name leg = Some l -> 0 < dval (fl_BaseQuantity l).
Proof.
  unfold planOwnedFlattenLeg. destruct (negb _); [done|]. cbv zeta.
  destruct (dIsPositive_reflect (dAbs (closeFlattenOwnedPlaceBase (D := D) c i name))); [|done]. by intros [= <-].
Qed.

(** The quantities of a plan, zero for a leg without one. *)
Definition plannedQuantity (l : option (OwnedFlattenLeg D)) : D := from_option fl_BaseQuantity dZero l.

Lemma plannedQuantities c iA iB :
  oneShotFinalFlattenPlannedQuantities (planOwnedFlattenLegs (D := D) c iA iB) =
  (plannedQuantity (planOwnedFlattenLeg c iA "a" (c_LegA c)), plannedQuantity (planOwnedFlattenLeg c iB "b" (c_LegB c))).
Proof.
  unfold oneShotFinalFlattenPlannedQuantities, planOwnedFlattenLegs.
  destruct (planOwnedFlattenLeg c iA "a" (c_LegA c)) as [lA|] eqn:PA, (planOwnedFlattenLeg c iB "b" (c_LegB c)) as [lB|] eqn:PB; simpl.
  all: try (rewrite (planned_name _ _ _ _ _ PA); change (ToLower (TrimSpace (ToLower (TrimSpace "a"))) =?s "b") with false; cbv iota beta).
  all: try (rewrite (planned_name _ _ _ _ _ PB); change (ToLower (TrimSpace (ToLower (TrimSpace "b"))) =?s "b") with true; cbv iota beta); reflexivity.
Qed.

(** What a planned leg gives the claim. *)
Lemma planned_claim c i name leg bbo bid ask owned venue baseline :
  closeFlattenOwnedLegValues (D := D) c name = (owned, venue, baseline) -> quoteOf bbo bid ask ->
  let q := plannedQuantity (planOwnedFlattenLeg c i name leg) in
  dval q <= dval (oneShotFinalFlattenLegCap (D := D) c name) ->
  0 <= dval q /\ legClaimOk c name q = true /\ (0 < dval q -> 0 < dval (closeFlattenOwnedExecutablePrice owned bbo)).
Proof.
  intros E HQ. cbv zeta. destruct (planOwnedFlattenLeg c i name leg) as [l|] eqn:P; cbn [plannedQuantity from_option]; intros Hcap.
  2: { rewrite dZero_val. split; [lra|]. split; [|lra]. unfold legClaimOk. destruct (dIsPositive_reflect (dZero (D := D))); [|done]. rewrite dZero_val in *. lra. }
  pose proof (planned_leg _ _ _ _ _ P) as Hl. rewrite E in Hl. destruct Hl as (_ & _ & Hnz & Hp & _).
  split; [lra|]. split; [|intros _; by apply (trigger_price owned bid ask bbo)].
  unfold legClaimOk. destruct (dIsPositive _); [|done]. unfold planOwnedFlattenLeg in P. destruct (closeFlattenOwnedVenueReducible c name); [|done].
  destruct (dLessThan_reflect (oneShotFinalFlattenLegCap (D := D) c name) (fl_BaseQuantity l)); [lra|done].
Qed.

Lemma parsePositive_max (a b : D) : 0 < dval (dMax a b) -> dEqual (parsePositiveDecimal (dString (dMax a b))) (dMax a b) = true /\
  dIsPositive (parsePositiveDecimal (D := D) (dString (dMax a b))) = true.
Proof.
  intros Hp. pose proof (parsePositiveDecimal_String (dMax a b) Hp) as E. split.
  - destruct (dEqual_reflect (parsePositiveDecimal (dString (dMax a b))) (dMax a b)); done.
  - destruct (dIsPositive_reflect (parsePositiveDecimal (D := D) (dString (dMax a b)))); [done|]. lra.
Qed.

Lemma ready_plans c iA iB bboA bboB now :
  oneShotFinalFlattenReady (D := D) c iA iB bboA bboB now = true ->
  oneShotRunningExiting c = true /\ c_PositionUncertain c = false /\ (c_RuntimeState c =?s "manual_intervention") = false /\
  closeFlattenBothPerpetual (l_ContractType (c_LegA c)) (l_ContractType (c_LegB c)) = true /\ circuitOpenBaselineComplete c = true /\
  closeFlattenSnapshotFresh (c_LastPositionReconciledAt c) now = true /\
  oneShotFinalFlattenRemainingBelowThreshold (D := D) c bboA bboB = true /\ planOwnedFlattenLegs (D := D) c iA iB <> [].
Proof.
  unfold oneShotFinalFlattenReady. intros Hr.
  repeat match type of Hr with (if ?b then _ else _) = true => destruct b eqn:?; [discriminate Hr|] end. cbv zeta in Hr.
  repeat match goal with H : negb _ = false |- _ => apply negb_false_iff in H end.
  by split_and!.
Qed.

(** A final flatten the scheduler finds ready is one the store accepts.
    The claim it builds from its plan and quotes passes the validation that the
    transaction repeats on the stored combination: the trigger prices written as
    text give the same threshold test, the quantities are within the caps of
    their legs and the target and notional are those of the plan. *)
Theorem final_flatten_claim_accepted id c iA iB bboA bboB (aBid aAsk bBid bAsk : D) now :
  quoteOf bboA aBid aAsk -> quoteOf bboB bBid bAsk ->
  oneShotFinalFlattenReady (D := D) c iA iB bboA bboB now = true ->
  dval (plannedQuantity (planOwnedFlattenLeg c iA "a" (c_LegA c))) <= dval (oneShotFinalFlattenLegCap (D := D) c "a") ->
  dval (plannedQuantity (planOwnedFlattenLeg c iB "b" (c_LegB c))) <= dval (oneShotFinalFlattenLegCap (D := D) c "b") ->
  exists claim, finalFlattenClaim id c (planOwnedFlattenLegs c iA iB) bboA bboB aBid aAsk bBid bAsk = Some claim /\
    validateOneShotFinalFlattenClaim (D := D) c claim now = true.
Proof.
  intros QA QB (R1 & R2 & R3 & R4 & R5 & R6 & R7 & R8)%ready_plans CA CB.
  destruct (planned_claim c iA "a" (c_LegA c) bboA aBid aAsk _ _ _ eq_refl QA CA) as (NA & OA & PA).
  destruct (planned_claim c iB "b" (c_LegB c) bboB bBid bAsk _ _ _ eq_refl QB CB) as (NB & OB & PB).
  set (qA := plannedQuantity (planOwnedFlattenLeg c iA "a" (c_LegA c))) in *. set (qB := plannedQuantity (planOwnedFlattenLeg c iB "b" (c_LegB c))) in *.
  assert (0 < dval qA \/ 0 < dval qB) as Hone.
  { unfold qA, qB, planOwnedFlattenLegs in *. clear - R8 DecimalLaws0.
    destruct (planOwnedFlattenLeg c iA "a" (c_LegA c)) as [l|] eqn:P; [left; by apply planned_positive in P|].
    destruct (planOwnedFlattenLeg c iB "b" (c_LegB c)) as [l|] eqn:P'; [right; by apply planned_positive in P'|done]. }
  unfold finalFlattenClaim. rewrite plannedQuantities. fold qA qB.
  assert (negb (dIsPositive qA) && negb (dIsPositive qB) = false) as E0 by (destruct (dIsPositive_reflect qA), (dIsPositive_reflect qB); try done; tauto).
  rewrite E0. cbv zeta.
  set (pA := closeFlattenOwnedExecutablePrice (parseDecimal (c_LegABasePosition c)) bboA) in *. set (pB := closeFlattenOwnedExecutablePrice (parseDecimal (c_LegBBasePosition c)) bboB) in *.
  assert ((oneShotFinalFlattenDirection (D := D) c qA qB =?s "") = false) as Ed.
  { unfold oneShotFinalFlattenDirection. destruct (dIsPositive_reflect qA); [by destruct (_ =?s "sell")|].
    destruct (dIsPositive_reflect qB); [by destruct (_ =?s "buy")|tauto]. }
  rewrite Ed. eexists. split; [reflexivity|].
  set (nA := if dIsPositive qA then (qA * pA)%dec else dZero). set (nB := if dIsPositive qB then (qB * pB)%dec else dZero).
  assert (0 < dval (dMax qA qB)) as Hq by (rewrite dMax_val; destruct Hone; [pose proof (Q.le_max_l (dval qA) (dval qB))|pose proof (Q.le_max_r (dval qA) (dval qB))]; lra).
  assert (0 < dval (dMax nA nB)) as Hn.
  { rewrite dMax_val. pose proof (Q.le_max_l (dval nA) (dval nB)). pose proof (Q.le_max_r (dval nA) (dval nB)).
    destruct Hone as [Ha|Hb].
    - assert (0 < dval nA) by (unfold nA; destruct (dIsPositive_reflect qA); [rewrite dMul_val; pose proof (PA Ha); nra|done]). lra.
    - assert (0 < dval nB) by (unfold nB; destruct (dIsPositive_reflect qB); [rewrite dMul_val; pose proof (PB Hb); nra|done]). lra. }
  destruct (parsePositive_max qA qB Hq) as [Q1 Q2]. destruct (parsePositive_max nA nB Hn) as [N1 N2].
  assert (dIsNegative qA || dIsNegative qB = false) as Nn by (destruct (dIsNegative_reflect qA), (dIsNegative_reflect qB); try done; lra).
  unfold validateOneShotFinalFlattenClaim, oneShotFinalFlattenClaimShape. cbn [fc_Execution fc_LegAQuantity fc_LegBQuantity fc_LegANotional fc_LegBNotional fc_ReconciledAt].
  match goal with |- context [oneShotFinalFlattenRemainingBelowThresholdFromExecution c ?x] =>
    rewrite (trigger_below_threshold c x bboA bboB aBid aAsk bBid bAsk QA QB eq_refl eq_refl eq_refl eq_refl), R7 end.
  cbn [x_LastCloseClip x_ReduceOnly x_PositionEffect x_TargetBaseQuantity x_RequestedNotional setter].
  fold nA nB. rewrite R1, R2, R3, R4, R5, R6, Z.eqb_refl, Nn, E0, OA, OB, Q1, Q2, N1, N2. reflexivity.
Qed.

(** A residual that no order can remove: worth less than the minimum at
    [price], and less than one market step of [i]. *)
Definition stuckDust (owned price : D) (i : Instrument) : Prop :=
  ~ dval owned == 0 /\ 0 < dval price /\ Qabs (dval owned) * dval price < inject_Z arbitrageMinOpenNotional /\
  ~ 0 < dval (closeFlattenQuantity i (dAbs owned)).

(** A residual of the carry that neither leg can hedge. *)
Definition unhedgeable (carry price : D) (i : Instrument) : Prop :=
  Qabs (dval carry) * dval price < inject_Z arbitrageMinOpenNotional /\
  snd (fst (executableHedgeQuantity (dAbs carry) price i false)) = false.

Lemma building_dust in_ (legA legB carry : D) :
  evaluateBuildingOneShotDust in_ legA legB carry = oneShotDustAccepted ->
  dval (du_Remaining in_) < inject_Z arbitrageMinOpenNotional /\ dval legA * dval legB < 0 /\
  (dval carry == 0 \/ unhedgeable carry (du_PriceA in_) (du_InstrumentA in_) /\ unhedgeable carry (du_PriceB in_) (du_InstrumentB in_)).
Proof.
  unfold evaluateBuildingOneShotDust. destruct (dGreaterThanOrEqual_reflect (du_Remaining in_) (dNewFromInt arbitrageMinOpenNotional)) as [|Hr]; [done|].
  destruct (dIsZero_reflect legA) as [|HA]; [done|]. destruct (dIsZero_reflect legB) as [|HB]; [done|]. cbn [orb].
  destruct (Z.eqb_spec (dSign legA) (dSign legB)) as [|Hs]; [done|]. intros Hv. rewrite dNewFromInt_val in Hr.
  split; [by apply Qnot_le_lt|]. split.
  { destruct (dSign_cases legA) as [[? E1]|[[? E1]|[? E1]]], (dSign_cases legB) as [[? E2]|[[? E2]|[? E2]]]; rewrite E1, E2 in Hs; try done; nra. }
  destruct (dIsZero_reflect carry) as [|Hc]; [by left|]. right.
  destruct (dIsPositive_reflect (du_PriceA in_)) as [PA|]; [|done]. destruct (dIsPositive_reflect (du_PriceB in_)) as [PB|]; [|done]. cbn in Hv.
  destruct (dGreaterThanOrEqual_reflect (dMax (dAbs carry * du_PriceA in_) (dAbs carry * du_PriceB in_))%dec (dNewFromInt arbitrageMinOpenNotional)) as [|Hm]; [done|].
  destruct (executableHedgeQuantity (dAbs carry) (du_PriceA in_) (du_InstrumentA in_) false) as [[qA eA] [errA|]] eqn:XA;
    destruct (executableHedgeQuantity (dAbs carry) (du_PriceB in_) (du_InstrumentB in_) false) as [[qB eB] [errB|]] eqn:XB; try done.
  destruct eA, eB; try done. unfold unhedgeable. rewrite XA, XB. cbn. rewrite dMax_val, !dMul_val, dAbs_val, dNewFromInt_val in Hm.
  pose proof (Q.le_max_l (Qabs (dval carry) * dval (du_PriceA in_)) (Qabs (dval carry) * dval (du_PriceB in_))).
  pose proof (Q.le_max_r (Qabs (dval carry) * dval (du_PriceA in_)) (Qabs (dval carry) * dval (du_PriceB in_))).
  apply Qnot_le_lt in Hm. split; (split; [|done]); (eapply Qle_lt_trans; [|exact Hm]); done.
Qed.

Lemma exiting_dust in_ (legA legB carry : D) :
  evaluateExitingOneShotDust in_ legA legB carry = oneShotDustAccepted ->
  (dval legB == 0 /\ stuckDust legA (du_PriceA in_) (du_InstrumentA in_)) \/ (dval legA == 0 /\ stuckDust legB (du_PriceB in_) (du_InstrumentB in_)).
Proof.
  unfold evaluateExitingOneShotDust, stuckDust. destruct (dIsZero_reflect legA) as [HA|HA], (dIsZero_reflect legB) as [HB|HB]; cbn; try done.
  - destruct (dIsZero carry); [done|]. destruct (dIsPositive_reflect (du_PriceB in_)) as [HP|]; [|done]. cbn.
    destruct (dGreaterThanOrEqual_reflect (dAbs legB * du_PriceB in_)%dec (dNewFromInt arbitrageMinOpenNotional)) as [|Hm]; [done|].
    destruct (dIsPositive_reflect (closeFlattenQuantity (du_InstrumentB in_) (dAbs legB))) as [|Hq]; [done|]. intros _. right.
    rewrite dMul_val, dAbs_val, dNewFromInt_val in Hm. apply Qnot_le_lt in Hm. by split_and!.
  - destruct (dIsZero carry); [done|]. destruct (dIsPositive_reflect (du_PriceA in_)) as [HP|]; [|done]. cbn.
    destruct (dGreaterThanOrEqual_reflect (dAbs legA * du_PriceA in_)%dec (dNewFromInt arbitrageMinOpenNotional)) as [|Hm]; [done|].
    destruct (dIsPositive_reflect (closeFlattenQuantity (du_InstrumentA in_) (dAbs legA))) as [|Hq]; [done|]. intros _. left.
    rewrite dMul_val, dAbs_val, dNewFromInt_val in Hm. apply Qnot_le_lt in Hm. by split_and!.
Qed.

(** Dust is accepted only where it is dust.  When the evaluation accepts
    the residual of a one-shot combination, the combination is certain, not
    tripped, not in manual intervention, nothing of it is running, live or
    unreconciled, and the carry is the sum of its legs; while it builds its
    target the legs oppose each other and the carry is zero or can be hedged
    with no order of either leg, and while it exits exactly one leg is left, for
    less than the minimum notional and less than one step of its market. *)
Theorem accepted_dust_is_dust (in_ : oneShotDustInput D) :
  evaluateOneShotDust in_ = oneShotDustAccepted ->
  let c := du_Combination in_ in
  let legA := parseDecimal (D := D) (c_LegABasePosition c) in
  let legB := parseDecimal (D := D) (c_LegBBasePosition c) in
  let carry := parseDecimal (D := D) (c_CarryBaseQuantity c) in
  (c_PositionUncertain c = false /\ c_CircuitOpen c = false /\ c_RuntimeState c <> "manual_intervention"%string /\
   du_ExecutionRunning in_ = false /\ du_LiveOrder in_ = false /\ du_LiveExecution in_ = false /\ du_Unreconciled in_ = false) /\
  dval carry == dval legA + dval legB /\
  ((du_Phase in_ = "building_target"%string /\ dval (du_Remaining in_) < inject_Z arbitrageMinOpenNotional /\ dval legA * dval legB < 0 /\
    (dval carry == 0 \/ unhedgeable carry (du_PriceA in_) (du_InstrumentA in_) /\ unhedgeable carry (du_PriceB in_) (du_InstrumentB in_))) \/
   (du_Phase in_ = "exiting"%string /\
    ((dval legB == 0 /\ stuckDust legA (du_PriceA in_) (du_InstrumentA in_)) \/ (dval legA == 0 /\ stuckDust legB (du_PriceB in_) (du_InstrumentB in_))))).
Proof.
  intros Hv c legA legB carry. unfold evaluateOneShotDust in Hv. fold c in Hv. fold legA legB carry in Hv. cbv zeta in Hv.
  destruct (negb _ || negb _); [done|]. destruct (String.eqb_spec (TrimSpace (c_OneShotPhase c)) (du_Phase in_)) as [Ep|]; [|done]. cbn in Hv.
  destruct (String.eqb_spec (c_RuntimeState c) "manual_intervention") as [|Hm]; [done|].
  destruct (c_PositionUncertain c) eqn:Hu; [done|]. destruct (c_CircuitOpen c) eqn:Ho; [done|]. destruct (du_ExecutionRunning in_) eqn:Hx; [done|]. cbn in Hv.
  destruct (du_GateErr in_); [done|]. destruct (du_LiveOrder in_) eqn:Hl; [done|]. destruct (du_LiveExecution in_) eqn:He; [done|].
  destruct (du_Unreconciled in_) eqn:Hr; [done|]. cbn in Hv. destruct (IsZeroTime _ || _); [done|].
  destruct (closeFlattenBothPerpetual _ _); [|cbn in Hv; by destruct (_ =?s "exiting")]. cbn in Hv. destruct (du_InstrumentErr in_); [done|].
  destruct (dEqual_reflect carry (legA + legB)%dec) as [Ec|]; [|done]. cbn in Hv. rewrite dAdd_val in Ec. rewrite <- Ep.
  split; [by split_and!|]. split; [done|].
  destruct (String.eqb_spec (TrimSpace (c_OneShotPhase c)) "building_target") as [Eb|]; [left; split; [done|by apply building_dust]|].
  destruct (String.eqb_spec (TrimSpace (c_OneShotPhase c)) "exiting") as [Ee|]; [|done]. right. split; [done|]. by apply exiting_dust in Hv.
Qed.
End Facts.

(** ** Witnesses *)

Section FlattenWitnesses.
Local Open Scope Q_scope.

#[local] Instance exampleUuids : Uuids := {| residualUUID s := String.append "residual-" s |}.

Definition exitingCombo : ArbitrageCombination :=
  dustCombo <| c_Status := "running"%string |> <| c_RunMode := "one_shot"%string |> <| c_OneShotPhase := "exiting"%string |>.
Definition exitingExecution : ArbitrageExecution := zero_ArbitrageExecution <| x_ID := "x1"%string |>.
Definition exitingPlan : list (OwnedFlattenLeg Dec) := planOwnedFlattenLegs exitingCombo ruledPerp ruledPerp.
Definition exitingOrders : list Order :=
  map (fun leg => (oneShotFinalFlattenOrderIntent exitingCombo exitingExecution leg ruledPerp) <| o_FilledQuantity := dString (fl_BaseQuantity leg) |>) exitingPlan.

Lemma full_fills (legs : list (OwnedFlattenLeg Dec)) :
  Forall (fun l => 0 <= dval (fl_BaseQuantity l)) legs ->
  Forall2 fillOf legs (map (fun leg => (oneShotFinalFlattenOrderIntent exitingCombo exitingExecution leg ruledPerp) <| o_FilledQuantity := dString (fl_BaseQuantity leg) |>) legs).
Proof.
  induction 1 as [|l legs Hl _ IH]; [constructor|]. cbn [map]. constructor; [|exact IH]. split; [done|]. split; [done|].
  cbn [o_FilledQuantity setter]. rewrite (parseDecimal_String (D := Dec)). split; [done|apply Qle_refl].
Qed.

Lemma final_flatten_only_reduces_witness :
  let c' := applyOneShotFinalFlattenLedger (D := Dec) exitingCombo exitingOrders "x1" in
  reducedTo (stepEps (closeFlattenQuantityStep (D := Dec) ruledPerp)) (dval (parseDecimal (D := Dec) "0.1")) (dval (parseDecimal (D := Dec) (c_LegABasePosition c'))).
Proof.
  pose proof (final_flatten_only_reduces (D := Dec) exitingCombo ruledPerp ruledPerp exitingExecution exitingOrders) as (_ & _ & Hf).
  assert (Forall2 fillOf (planOwnedFlattenLegs (D := Dec) exitingCombo ruledPerp ruledPerp) (flattenOrdersFor exitingOrders (x_ID exitingExecution))) as Hfill.
  { assert (flattenOrdersFor exitingOrders (x_ID exitingExecution) = exitingOrders) as ->.
    { apply intents_found. intros l. split; [unfold ofExecution; cbn; apply String.eqb_refl|apply flatten_key_found]. }
    apply full_fills, Forall_forall. intros l Hl. apply list_elem_of_In in Hl. vm_compute in Hl. destruct Hl as [<-|[<-|[]]]; vm_compute; discriminate. }
  exact (proj1 (Hf Hfill)).
Defined.

Lemma final_flatten_claim_accepted_witness :
  exists claim, finalFlattenClaim (D := Dec) "x1" exitingCombo (planOwnedFlattenLegs exitingCombo ruledPerp ruledPerp) dustBBO dustBBO
      (mkDec 100 0) (mkDec 1001 (-1)) (mkDec 100 0) (mkDec 1001 (-1)) = Some claim /\
    validateOneShotFinalFlattenClaim (D := Dec) exitingCombo claim dustTime = true.
Proof.
  assert (quoteOf (D := Dec) dustBBO (mkDec 100 0) (mkDec 1001 (-1))) as Hq by (unfold quoteOf; split_and!; vm_compute; reflexivity).
  apply (final_flatten_claim_accepted (D := Dec) "x1" exitingCombo ruledPerp ruledPerp dustBBO dustBBO _ _ _ _ dustTime Hq Hq); vm_compute; [reflexivity|discriminate|discriminate].
Defined.

Definition leftoverDust : oneShotDustInput Dec :=
  mkDustInput (exitingCombo <| c_LegABasePosition := "0.0001"%string |> <| c_LegBBasePosition := "0"%string |> <| c_CarryBaseQuantity := "0.0001"%string |>)
    dZero "exiting" ruledPerp ruledPerp false (mkDec 100 0) dZero false false false false false.

Lemma accepted_dust_is_dust_witness : evaluateOneShotDust leftoverDust = oneShotDustAccepted /\ c_CircuitOpen (du_Combination leftoverDust) = false.
Proof.
  assert (evaluateOneShotDust leftoverDust = oneShotDustAccepted) as Hv by (vm_compute; reflexivity).
  split; [exact Hv|]. pose proof (accepted_dust_is_dust (D := Dec) leftoverDust Hv) as [(_ & H & _) _]. exact H.
Defined.

(** The plan can exceed the cap by the rounding of one step, with quantities
    the columns can hold, and the store then refuses the claim the scheduler
    finds ready. *)
Definition roundedCombo : ArbitrageCombination :=
  exitingCombo <| c_LegABasePosition := "999.999999999999999999"%string |> <| c_LegAVenueBasePosition := "999.999999999999999999"%string |>
    <| c_LegBBasePosition := "0"%string |>.
Definition thousandLots : Instrument := ruledPerp <| i_QuantityStep := "1000"%string |> <| i_MarketQuantityStep := "1000"%string |>.
Definition centQuote : BBO := dustBBO <| b_BidPrice := "0.01"%string |> <| b_AskPrice := "0.0101"%string |>.
Lemma rounded_claim_refused :
  oneShotFinalFlattenReady (D := Dec) roundedCombo thousandLots thousandLots centQuote centQuote dustTime = true /\
  option_map (fun claim => validateOneShotFinalFlattenClaim (D := Dec) roundedCombo claim dustTime)
    (finalFlattenClaim (D := Dec) "x1" roundedCombo (planOwnedFlattenLegs roundedCombo thousandLots thousandLots) centQuote centQuote
      (mkDec 1 (-2)) (mkDec 101 (-4)) (mkDec 1 (-2)) (mkDec 101 (-4))) = Some false.
Proof. split; vm_compute; reflexivity. Qed.
End FlattenWitnesses.
