(* ===== verification/TwapStore.v ===== *)
(** * The TWAP repository (twap_repository.go)

    The jobs and their child orders: creating a job under the limit of active
    jobs, leasing the due ones, writing the schedule, closing, and creating a
    child order together with the job's pointer to it, in one transaction that
    a closed job refuses. *)
From Stdlib Require Import ZArith QArith Qabs Lqa String Ascii.
From stdpp Require Import base strings list gmap sorting.
From S2P Require Import Prelude Decimal DecimalRef Types Sha256 Quantity Validate ArbMath Resolution FillAverage Store OrderStore OrderService.

#[local] Set Warnings "-clear-no-such-hyp".

Definition errActiveTwapLimit : GoError := mkError [ErrActiveTwapLimit] "active twap limit reached".
Definition errTwapNotCancelable : GoError := mkError [ErrTwapNotCancelable] "twap is not cancelable".

(** [terminalTwapStatus], types.go. *)
Definition terminalTwapStatus (status : string) : bool :=
  (status =?s "completed") || (status =?s "partially_completed") || (status =?s "canceled") || (status =?s "failed").

(** [status IN ('pending','running')]. *)
Definition activeTwapStatus (status : string) : bool := (status =?s "pending") || (status =?s "running").

Section TwapStore.
Context {D : Type} `{!Decimal D} `{!Postgres D} `{!Env D}.

Definition twapRows (st : Store D) : list TwapRow := map snd (map_to_list (st_twaps st)).

(** ** Reading *)

Definition getTwapRow (P : TwapJob -> bool) : M D (Result TwapJob) :=
  sql (fun _ st => (match List.find (fun r => P (tw_job r)) (twapRows st) with
                    | Some row => Ok (scanTwap (D := D) row)
                    | None => Err errNotFound
                    end, st)).

Definition GetTwapByOwner (owner id : string) : M D (Result TwapJob) :=
  getTwapRow (fun j => (t_OwnerUsername j =?s owner) && (t_ID j =?s id)).

Definition GetTwap (id : string) : M D (Result TwapJob) := getTwapRow (fun j => t_ID j =?s id).

(** [ORDER BY twap_slice_index ASC, twap_attempt_index ASC]. *)
Definition sliceBefore (a b : Order) : Prop :=
  (o_TwapSliceIndex a <? o_TwapSliceIndex b) ||
  ((o_TwapSliceIndex a =? o_TwapSliceIndex b) && (o_TwapAttemptIndex a <=? o_TwapAttemptIndex b)) = true.
#[local] Instance sliceBefore_dec : RelDecision sliceBefore := fun a b => decide (_ = true).

Definition ListTwapOrders (owner jobID : string) : M D (Result (list Order)) :=
  sql (fun _ st => (Ok (merge_sort sliceBefore
    (List.filter (fun o => o_OwnerUsername o =?s owner) (map scanOrder (twapOrders st jobID)))), st)).

(** ** Jobs *)

(** A value a numeric column does not accept fails the statement. *)
Definition newTwapRow (job : TwapJob) (dbnow : GoTime) : option TwapRow :=
  match numericText (D := D) (t_TotalQuantity job), nullableNumeric (D := D) (t_LimitPrice job),
        nullableNumeric (D := D) (t_MaxQuantity job) with
  | Some total, Some limit, Some maximum =>
      Some (mkTwapRow
        (job <| t_TotalQuantity := total |> <| t_LimitPrice := limit |> <| t_MaxQuantity := maximum |>
             <| t_FilledQuantity := "0"%string |> <| t_AveragePrice := "0"%string |>
             <| t_StartAt := timestamptz (D := D) (t_StartAt job) |> <| t_EndAt := timestamptz (D := D) (t_EndAt job) |>
             <| t_NextActionAt := timestamptz (D := D) (t_NextActionAt job) |>
             <| t_Status := "pending"%string |> <| t_CurrentSlice := 0 |> <| t_CurrentAttempt := 0 |>
             <| t_ActiveOrderID := ""%string |> <| t_SchedulerFailures := 0 |> <| t_ErrorMessage := ""%string |>
             <| t_CreatedAt := dbnow |> <| t_UpdatedAt := dbnow |>) None None None)
  | _, _, _ => None
  end.

Definition createTwapTransaction (job : TwapJob) (dbnow : GoTime) (st : Store D) : Result (TwapJob * bool) * Store D :=
  match List.find (fun r => t_IdempotencyKey (tw_job r) =?s t_IdempotencyKey job) (twapRows st) with
  | Some existing => (Ok (scanTwap existing, false), st)
  | None =>
      let active := length (List.filter (fun r =>
        (t_TradingAccountID (tw_job r) =? t_TradingAccountID job) && activeTwapStatus (t_Status (tw_job r)))
        (twapRows st)) in
      if Nat.leb 5 active then (Err errActiveTwapLimit, st)
      else match newTwapRow job dbnow, st_twaps st !! t_ID job with
      | Some row, None =>
          (Ok (scanTwap row, true),
           st <| st_twaps := <[t_ID job := row]> (st_twaps st) |>
              <| st_twapEvents := st_twapEvents st ++ [(t_ID job, "created"%string)] |>)
      | _, _ => (Err (errPlain "create twap"), st)
      end
  end.

Definition CreateTwap (job : TwapJob) : M D (Result (TwapJob * bool)) :=
  do n <- tick;
  let job := if t_ID job =?s "" then job <| t_ID := newUUID n |> else job in
  sql (createTwapTransaction job).

Definition scheduleTransaction (id status : string) (slice attempt : Z) (next : GoTime)
    (activeOrderID errorMessage : string) (dbnow : GoTime) (st : Store D) : Result TwapJob * Store D :=
  match st_twaps st !! id with
  | Some row =>
      if activeTwapStatus (t_Status (tw_job row)) then
        let row' := mkTwapRow
          ((tw_job row) <| t_Status := status |> <| t_CurrentSlice := slice |> <| t_CurrentAttempt := attempt |>
             <| t_NextActionAt := timestamptz (D := D) next |> <| t_ActiveOrderID := activeOrderID |>
             <| t_ErrorMessage := truncateMessage errorMessage |> <| t_SchedulerFailures := 0 |>
             <| t_UpdatedAt := dbnow |>)
          None
          (if status =?s "running" then coalesce (tw_started_at row) (Some dbnow) else tw_started_at row)
          (tw_closed_at row) in
        (Ok (scanTwap row'), st <| st_twaps := <[id := row']> (st_twaps st) |>)
      else (Err errNotFound, st)
  | None => (Err errNotFound, st)
  end.

Definition UpdateTwapSchedule (id status : string) (slice attempt : Z) (next : GoTime)
    (activeOrderID errorMessage : string) : M D (Result TwapJob) :=
  sql (scheduleTransaction id status slice attempt next activeOrderID errorMessage).

Definition closeTransaction (id status message : string) (dbnow : GoTime) (st : Store D)
    : Result (option TwapJob) * Store D :=
  match st_twaps st !! id with
  | Some row =>
      if activeTwapStatus (t_Status (tw_job row)) then
        let closed := default dbnow (tw_closed_at row) in
        let row' := mkTwapRow
          ((tw_job row) <| t_Status := status |> <| t_ErrorMessage := truncateMessage message |>
             <| t_ActiveOrderID := ""%string |> <| t_UpdatedAt := dbnow |> <| t_NextActionAt := closed |>)
          None (tw_started_at row) (Some closed) in
        (Ok (Some (scanTwap row')), st <| st_twaps := <[id := row']> (st_twaps st) |>)
      else (Ok None, st)
  | None => (Ok None, st)
  end.

Definition CloseTwap (id status message : string) : M D (Result TwapJob) :=
  do r <- sql (closeTransaction id status message);
  match r with
  | Err e => ret (Err e)
  | Ok (Some job) => ret (Ok job)
  | Ok None => GetTwap id
  end.

Definition AppendTwapEvent (id eventType : string) : M D (Result unit) :=
  sql (fun _ st => match st_twaps st !! id with
                   | Some _ => (Ok tt, st <| st_twapEvents := st_twapEvents st ++ [(id, eventType)] |>)
                   | None => (Err (errPlain "foreign key"), st)
                   end).

(** [ORDER BY next_action_at,created_at,id]. *)
Definition dueBefore (a b : TwapRow) : Prop :=
  let k r := (t_NextActionAt (tw_job r), t_CreatedAt (tw_job r)) in
  let '(na, ca) := k a in let '(nb, cb) := k b in
  (na <? nb) || ((na =? nb) && ((ca <? cb) ||
    ((ca =? cb) && negb (String.ltb (t_ID (tw_job b)) (t_ID (tw_job a)))))) = true.
#[local] Instance dueBefore_dec : RelDecision dueBefore := fun a b => decide (_ = true).

Definition twapDue (dbnow : GoTime) (r : TwapRow) : bool :=
  activeTwapStatus (t_Status (tw_job r)) && (t_NextActionAt (tw_job r) <=? dbnow) &&
  match tw_scheduler_lease_until r with None => true | Some t => TimeBefore t dbnow end.

Definition leaseTwapsTransaction (limit : Z) (lease : Duration) (dbnow : GoTime) (st : Store D)
    : Result (list TwapJob) * Store D :=
  let rows := firstn (Z.to_nat limit) (merge_sort dueBefore (List.filter (twapDue dbnow) (twapRows st))) in
  let leased r := r <| tw_scheduler_lease_until := Some (TimeAdd dbnow lease) |> in
  (Ok (map (fun r => scanTwap (leased r)) rows),
   st <| st_twaps := fold_left (fun m r => alter leased (t_ID (tw_job r)) m) rows (st_twaps st) |>).

Definition LeaseDueTwaps (limit : Z) (lease : Duration) : M D (Result (list TwapJob)) :=
  let limit := if (limit <=? 0) || (100 <? limit) then 20 else limit in
  let lease := if lease <=? 0 then 30 * Second else lease in
  sql (leaseTwapsTransaction limit lease).

(** The children of a deleted job lose their reference to it. *)
Definition closedBefore (a b : TwapRow) : Prop :=
  match tw_closed_at a, tw_closed_at b with Some x, Some y => x <= y | _, _ => True end.
#[local] Instance closedBefore_dec : RelDecision closedBefore.
Proof. intros a b. unfold closedBefore. destruct (tw_closed_at a), (tw_closed_at b); apply _. Defined.

Definition deleteTwapsTransaction (cutoff : GoTime) (limit : Z) (dbnow : GoTime) (st : Store D) : Result Z * Store D :=
  let old r := terminalTwapStatus (t_Status (tw_job r)) &&
    match tw_closed_at r with Some t => TimeBefore t cutoff | None => false end in
  let rows := firstn (Z.to_nat limit) (merge_sort closedBefore (List.filter old (twapRows st))) in
  let ids := map (fun r => t_ID (tw_job r)) rows in
  let orphan (r : OrderRow) := if existsb (String.eqb (o_TwapJobID (row_order r))) ids
    then r <| row_order := (row_order r) <| o_TwapJobID := ""%string |> |> else r in
  (Ok (Z.of_nat (length rows)),
   st <| st_twaps := fold_left (fun m id => delete id m) ids (st_twaps st) |>
      <| st_orders := orphan <$> st_orders st |>).

Definition DeleteClosedTwaps (cutoff : GoTime) (limit : Z) : M D (Result Z) :=
  let limit := if (limit <=? 0) || (1000 <? limit) then 100 else limit in
  sql (deleteTwapsTransaction (timestamptz (D := D) cutoff) limit).

(** ** Child orders *)

(** The unique indexes on the children of a job: one order per slice and
    attempt, and one order that is not terminal. *)
Definition childConflict (st : Store D) (jobID : string) (slice attempt : Z) : bool :=
  existsb (fun r => ((o_TwapSliceIndex (row_order r) =? slice) && (o_TwapAttemptIndex (row_order r) =? attempt)) ||
                    openStatus (o_Status (row_order r))) (twapOrders st jobID).

Definition setActive (jobID orderID : string) (dbnow : GoTime) (st : Store D) : Store D :=
  st <| st_twaps := alter (fun r => r <| tw_job := (tw_job r) <| t_ActiveOrderID := orderID |> <| t_UpdatedAt := dbnow |> |>)
                      jobID (st_twaps st) |>.

Definition twapIntentTransaction (jobID : string) (order : Order) (dbnow : GoTime) (st : Store D)
    : Result (Order * bool) * Store D :=
  match st_twaps st !! jobID with
  | None => (Err errNotFound, st)
  | Some job =>
      if negb (activeTwapStatus (t_Status (tw_job job))) then (Err errTwapNotCancelable, st)
      else match byIdempotency (o_IdempotencyKey order) st with
      | Some existing =>
          let o := row_order existing in
          if negb (o_RequestFingerprint o =?s o_RequestFingerprint order) || negb (o_TwapJobID o =?s jobID)
          then (Err errIdempotencyConflict, st)
          else (Ok (scanOrder existing, false), setActive jobID (o_ID o) dbnow st)
      | None =>
          let order := order <| o_TwapJobID := jobID |> in
          if childConflict st jobID (o_TwapSliceIndex order) (o_TwapAttemptIndex order)
          then (Err (errPlain "create twap child intent: unique constraint"), st)
          else match insertOrder order dbnow st with
          | Err e => (Err e, st)
          | Ok row =>
              (Ok (scanOrder row, true),
               (setActive jobID (o_ID order) dbnow st)
                 <| st_orders := <[o_ID order := row]> (st_orders st) |>
                 <| st_events := st_events st ++ [(o_ID order, "intent"%string)] |>)
          end
      end
  end.

Definition CreateTwapIntent (jobID : string) (order : Order) : M D (Result (Order * bool)) :=
  do n <- tick;
  let order := if o_ID order =?s "" then order <| o_ID := newUUID n |> else order in
  sql (twapIntentTransaction jobID order).
End TwapStore.
