(* ===== verification/Twap.v ===== *)
(** * TWAP jobs (twap_service.go, twap_scheduler.go)

    A job buys or sells a total quantity in slices between two instants.  The
    service creates and cancels jobs; the scheduler leases the due ones and
    advances each: it starts a job, submits a slice, watches the active child
    order, retries a maker order within its slice, goes on to the next slice,
    and closes the job when it is filled or its window has ended. *)
From Stdlib Require Import ZArith QArith Qabs Lqa String Ascii.
From stdpp Require Import base strings list gmap sorting.
From S2P Require Import Prelude Decimal DecimalRef Types Sha256 Quantity Validate ArbMath Resolution FillAverage Store OrderStore OrderService TwapStore.

#[local] Set Warnings "-clear-no-such-hyp".

(** ** Text *)

(** The verb [%d]. *)
Definition formatInt (n : Z) : string :=
  if n <? 0 then String.append "-" (digits_of (- n)) else digits_of n.

(** The verb [%0wd]: zeros after the sign up to the width. *)
Definition zeroPad (width : nat) (s : string) : string :=
  String.append (string_of_list_ascii (repeat (ascii_of_nat 48) (width - String.length s))) s.
Definition formatPadded (width : nat) (n : Z) : string :=
  if n <? 0 then String.append "-" (zeroPad (width - 1) (digits_of (- n))) else zeroPad width (digits_of n).

(** [Format(time.RFC3339Nano)] of an instant in UTC: the civil date of a day
    count, the time of the day, the fraction without trailing zeros. *)
Definition civilDate (days : Z) : Z * Z * Z :=
  let z := days + 719468 in
  let era := z / 146097 in
  let doe := z mod 146097 in
  let yoe := (doe - doe / 1460 + doe / 36524 - doe / 146096) / 365 in
  let doy := doe - (365 * yoe + yoe / 4 - yoe / 100) in
  let mp := (5 * doy + 2) / 153 in
  let m := if mp <? 10 then mp + 3 else mp - 9 in
  (yoe + era * 400 + (if m <=? 2 then 1 else 0), m, doy - (153 * mp + 2) / 5 + 1).

Definition formatFraction (nanos : Z) : string :=
  if nanos =? 0 then ""%string
  else let '(m, k) := strip 9 nanos 9 in String.append "." (formatPadded (Z.to_nat k) m).

Definition formatRFC3339Nano (t : GoTime) : string :=
  let seconds := t / Second in
  let '(y, m, d) := civilDate (seconds / 86400) in
  let r := seconds mod 86400 in
  Join [formatPadded 4 y; "-"; formatPadded 2 m; "-"; formatPadded 2 d; "T"; formatPadded 2 (r / 3600); ":";
        formatPadded 2 (r / 60 mod 60); ":"; formatPadded 2 (r mod 60); formatFraction (t mod Second); "Z"]%string "".

Example formatRFC3339Nano_examples :
  map formatRFC3339Nano [1000000000 * Second; 951782400 * Second + 120000000; -1]
  = ["2001-09-09T01:46:40Z"; "2000-02-29T00:00:00.12Z"; "1969-12-31T23:59:59.999999999Z"]%string.
Proof. vm_compute. reflexivity. Qed.

Definition deterministicTwapClientID (jobID : string) (slice attempt : Z) : string :=
  let compact := String.substring 0 12 (removeDashes jobID) in
  Join ["sqt"; compact; formatPadded 5 slice; formatPadded 3 attempt]%string "".

Definition twapKey (jobID : string) (slice attempt : Z) : string :=
  Join ["twap:"; jobID; ":"; formatInt slice; ":"; formatInt attempt]%string "".

Definition tradingAuthorizationLost (e : GoError) : bool :=
  let message := ToLower (err_text e) in
  Contains message "unauthorized" || Contains message "private key" ||
  Contains message "api wallet not found" || Contains message "wallet unauthorized".

(** ** Times and quantities of a slice *)

Definition twapSliceEnd (job : TwapJob) : GoTime :=
  let sliceEnd := TimeAdd (t_StartAt job)
    (wrap64 (wrap64 (wrap64 (t_CurrentSlice job + 1) * t_IntervalSeconds job) * Second)) in
  if TimeAfter sliceEnd (t_EndAt job) then t_EndAt job else sliceEnd.

Section TwapPure.
Context {D : Type} `{!Decimal D}.
Local Open Scope dec_scope.

Definition twapFingerprint (input : CreateTwapInput) : string :=
  EncodeToString (Sum256 (bytes_of_string (Join
    [itoa (D := D) (ti_TradingAccountID input); itoa (D := D) (ti_InstrumentID input); ti_Side input;
     ti_TotalQuantity input; formatRFC3339Nano (ti_StartAt input); formatRFC3339Nano (ti_EndAt input);
     formatInt (ti_IntervalSeconds input); ti_LimitPrice input; ti_MaxQuantity input; ti_ExecutionType input;
     formatInt (ti_OrderTimeoutSeconds input)] "|"))).

(** The first eight bytes of the digest, modulo the window. *)
Definition sliceOffset (jobID : string) (slice : Z) (window : Duration) : Duration :=
  let sum := Sum256 (bytes_of_string (Join [jobID; ":"%string; itoa (D := D) slice] "")) in
  (from_big_endian (firstn 8 sum) mod window)%Z.

Definition twapSliceFireAt (jobID : string) (slice : Z) (start end_ : GoTime) (intervalSeconds : Z) : GoTime :=
  let sliceStart := TimeAdd start (wrap64 (wrap64 (slice * intervalSeconds) * Second)) in
  if negb (TimeBefore sliceStart end_) then end_
  else
    let sliceEnd := TimeAdd sliceStart (wrap64 (intervalSeconds * Second)) in
    let sliceEnd := if TimeAfter sliceEnd end_ then end_ else sliceEnd in
    let window := TimeSub sliceEnd sliceStart in
    if (window <=? 0)%Z then sliceStart else TimeAdd sliceStart (sliceOffset jobID slice window).

Definition calculateSliceQuantity (remaining : D) (interval remainingTime : Duration) (maxQuantity step : D) : D :=
  if negb (dIsPositive remaining) || (interval <=? 0)%Z || (remainingTime <=? 0)%Z then dZero
  else
    let qty := remaining * dNewFromInt interval / dNewFromInt remainingTime in
    let qty := if dIsPositive maxQuantity && (qty >? maxQuantity) then maxQuantity else qty in
    let qty := if qty >? remaining then remaining else qty in
    floorToStep qty step.

Definition makerPrice (job : TwapJob) (i : Instrument) (bbo : VenueBBO) : Result string :=
  let sell := t_Side job =?s "sell" in
  let value := if sell then vb_AskPrice bbo else vb_BidPrice bbo in
  match dNewFromString (D := D) (TrimSpace value) with
  | None => Err errInvalidArgument
  | Some price =>
      if negb (dIsPositive price) then Err errInvalidArgument
      else
        let tick := parsePositiveDecimal (i_PriceTick i) in
        let price := if dIsPositive tick
                     then (if sell then ceilToStep price tick else floorToStep price tick) else price in
        let limit := parsePositiveDecimal (t_LimitPrice job) in
        let price :=
          if dIsPositive limit then
            let price := if (t_Side job =?s "buy") && (price >? limit) then limit else price in
            if sell && (price <? limit) then limit else price
          else price in
        Ok (dString price)
  end.

Definition errPreviousAttempt : GoError := errPlain "previous twap attempt not found".

Definition makerRetryQuantityFromOrders (job : TwapJob) (i : Instrument) (orders : list Order) : Result D :=
  let previousAttempt := (t_CurrentAttempt job - 1)%Z in
  match List.find (fun o => (o_TwapSliceIndex o =? t_CurrentSlice job)%Z &&
                            (o_TwapAttemptIndex o =? previousAttempt)%Z) (rev orders) with
  | Some o => Ok (floorToStep (parseDecimal (o_Quantity o) - parseDecimal (o_FilledQuantity o))
                    (parsePositiveDecimal (i_QuantityStep i)))
  | None => Err errPreviousAttempt
  end.
End TwapPure.

(** ** The scheduler *)

Section TwapScheduler.
Context {D : Type} `{!Decimal D} `{!Postgres D} `{!Env D} `{svc : !Services}.
Local Open Scope dec_scope.

Definition ignore {A} (m : M D A) : M D unit := run m; ret tt.

(** Both [retry]s shift a second left, at most to a minute. *)
Definition twapRetryDelay (failures : Z) : Duration :=
  let delay := int_shl Second (Z.min failures 6) in
  if (Minute <? delay)%Z then Minute else delay.

Definition retry (job : TwapJob) (e : GoError) : M D unit :=
  do now <- timeNow;
  ignore (UpdateTwapSchedule (t_ID job) (t_Status job) (t_CurrentSlice job) (t_CurrentAttempt job)
    (TimeAdd now (twapRetryDelay (t_SchedulerFailures job))) (t_ActiveOrderID job) (sanitizeError e)).

Definition close (job : TwapJob) (status message : string) : M D unit :=
  do r <- CloseTwap (t_ID job) status message;
  match r with
  | Err e => retry job e
  | Ok closed =>
      if negb (t_Status closed =?s status) then ret tt
      else
        run RefreshTwapProgress (t_ID closed);
        ignore (AppendTwapEvent (t_ID job) "closed")
  end.

Definition fail (job : TwapJob) (message : string) : M D unit := close job "failed" message.

Definition advanceSlice (job : TwapJob) : M D unit :=
  let nextSlice := (t_CurrentSlice job + 1)%Z in
  let next := twapSliceFireAt (D := D) (t_ID job) nextSlice (t_StartAt job) (t_EndAt job) (t_IntervalSeconds job) in
  do r <- UpdateTwapSchedule (t_ID job) "running" nextSlice 0 next "" "";
  match r with
  | Ok _ => ignore (AppendTwapEvent (t_ID job) "slice_advanced")
  | Err _ => ret tt
  end.

Definition scheduleMakerRetry (job : TwapJob) (order : Order) : M D unit :=
  let remaining := parseDecimal (o_Quantity order) - parseDecimal (o_FilledQuantity order) in
  do r <- callCatalog (t_InstrumentID job);
  match r with
  | Err e => retry job e
  | Ok i =>
      let remaining := floorToStep remaining (parsePositiveDecimal (i_QuantityStep i)) in
      do now <- timeNow;
      if negb (dIsPositive remaining) || negb (TimeBefore now (twapSliceEnd job)) then advanceSlice job
      else
        let nextAttempt := (Z.max (t_CurrentAttempt job) (o_TwapAttemptIndex order) + 1)%Z in
        do now <- timeNow;
        do r <- UpdateTwapSchedule (t_ID job) "running" (t_CurrentSlice job) nextAttempt now "" "";
        match r with
        | Ok _ => ignore (AppendTwapEvent (t_ID job) "slice_retry_scheduled")
        | Err _ => ret tt
        end
  end.

Definition errAwaitingCancel : GoError :=
  mkError [ErrVenueUncertain] "venue result uncertain: cancellation awaiting venue confirmation".

Definition cancelActive (job : TwapJob) : M D (Result Order) :=
  do r <- GetByOwner (t_OwnerUsername job) (t_ActiveOrderID job);
  match r with
  | Err e => ret (Err e)
  | Ok order =>
      if terminalStatus (o_Status order) then ret (Ok order)
      else
        do n <- tick;
        match credentialsInternal n (t_OwnerUsername job) (t_TradingAccountID job) with
        | Err e => ret (Err e)
        | Ok credentials =>
            do r <- callCatalog (t_InstrumentID job);
            match r with
            | Err e => ret (Err e)
            | Ok i =>
                if negb (adapterKnown (t_Exchange job)) then ret (Err errUnsupportedExchange)
                else
                  do answer <- callCancel (t_Exchange job) credentials
                    (mkCancelRequest (toVenueInstrument i) (o_ClientOrderID order) (o_VenueOrderID order));
                  match answer with
                  | (_, Some e) => ret (Err e)
                  | (result, None) =>
                      let result := if TrimSpace (r_Status result) =?s ""
                                    then result <| r_Status := "canceled"%string |> else result in
                      do updated <- UpdateResult (o_ID order) (storedResult result false);
                      match updated with
                      | Err e => ret (Err e)
                      | Ok updated =>
                          run AppendTwapEvent (t_ID job) "slice_canceled";
                          if terminalStatus (o_Status updated) then ret (Ok updated) else ret (Err errAwaitingCancel)
                      end
                  end
            end
        end
  end.

Definition handleActive (job : TwapJob) : M D unit :=
  do r <- GetByOwner (t_OwnerUsername job) (t_ActiveOrderID job);
  match r with
  | Err e => retry job e
  | Ok order =>
      if terminalStatus (o_Status order) then
        if (t_ExecutionType job =?s "maker") && ((o_Status order =?s "canceled") || (o_Status order =?s "expired")) then
          do now <- timeNow;
          if TimeBefore now (twapSliceEnd job) then scheduleMakerRetry job order else advanceSlice job
        else advanceSlice job
      else if t_ExecutionType job =?s "maker" then
        let deadline := TimeAdd (o_CreatedAt order) (wrap64 (t_OrderTimeoutSeconds job * Second)%Z) in
        let sliceEnd := twapSliceEnd job in
        let deadline := if TimeBefore sliceEnd deadline then sliceEnd else deadline in
        do now <- timeNow;
        if negb (TimeBefore now deadline) then
          do canceled <- cancelActive job;
          match canceled with
          | Err e => retry job e
          | Ok canceled =>
              do now <- timeNow;
              if TimeBefore now sliceEnd then scheduleMakerRetry job canceled else advanceSlice job
          end
        else ignore (UpdateTwapSchedule (t_ID job) "running" (t_CurrentSlice job) (t_CurrentAttempt job)
                       deadline (t_ActiveOrderID job) "")
      else
        do now <- timeNow;
        ignore (UpdateTwapSchedule (t_ID job) "running" (t_CurrentSlice job) (t_CurrentAttempt job)
                  (TimeAdd now Second) (t_ActiveOrderID job) "")
  end.

(** The order of a slice. *)
Definition childOrder (job : TwapJob) (orderType quantity price : string) : Order :=
  zero_Order <| o_IdempotencyKey := twapKey (t_ID job) (t_CurrentSlice job) (t_CurrentAttempt job) |>
    <| o_OwnerUsername := t_OwnerUsername job |> <| o_TradingAccountID := t_TradingAccountID job |>
    <| o_ProductName := t_ProductName job |> <| o_Exchange := t_Exchange job |>
    <| o_InstrumentID := t_InstrumentID job |> <| o_ContractType := t_ContractType job |>
    <| o_ExchangeSymbol := t_ExchangeSymbol job |> <| o_BaseAsset := t_BaseAsset job |>
    <| o_QuoteAsset := t_QuoteAsset job |>
    <| o_ClientOrderID := deterministicTwapClientID (t_ID job) (t_CurrentSlice job) (t_CurrentAttempt job) |>
    <| o_Side := t_Side job |> <| o_OrderType := orderType |> <| o_Quantity := quantity |> <| o_Price := price |>
    <| o_RequestFingerprint := requestFingerprint (D := D) (t_TradingAccountID job) (t_InstrumentID job)
         (t_Side job) orderType quantity price [] |>
    <| o_TwapJobID := t_ID job |> <| o_TwapSliceIndex := t_CurrentSlice job |>
    <| o_TwapAttemptIndex := t_CurrentAttempt job |>.

(** The price of a slice: [None] when the market data do not allow one. *)
Definition slicePrice (job : TwapJob) (i : Instrument) : M D (option (string * string * string * bool)) :=
  if t_ExecutionType job =?s "maker" then
    do n <- tick;
    let '(bbo, bboErr) := adapterBBO n (t_Exchange job) (toVenueInstrument i) in
    do now <- timeNow;
    ret (match bboErr with
         | Some _ => None
         | None =>
             if IsZeroTime (vb_Timestamp bbo) || (5 * Second <? TimeSub now (vb_Timestamp bbo))%Z then None
             else match makerPrice (D := D) job i bbo with
                  | Ok price => Some ("limit", price, "GTC", true)%string
                  | Err _ => None
                  end
         end)
  else ret (Some (if negb (t_LimitPrice job =?s "") then ("limit", t_LimitPrice job, "IOC", false)%string
                  else ("market", "", "", false)%string)).

(** The quantity of a slice or of a retry within it. *)
Definition sliceQuantity (job : TwapJob) (i : Instrument) (remaining : D) (now : GoTime) : M D (Result D) :=
  if (0 <? t_CurrentAttempt job)%Z then
    do r <- ListTwapOrders (t_OwnerUsername job) (t_ID job);
    ret (match r with Err e => Err e | Ok orders => makerRetryQuantityFromOrders job i orders end)
  else ret (Ok (calculateSliceQuantity remaining (wrap64 (t_IntervalSeconds job * Second)%Z)
                  (TimeSub (t_EndAt job) now) (parsePositiveDecimal (t_MaxQuantity job))
                  (parsePositiveDecimal (i_QuantityStep i)))).

(** When the job is looked at again after a submission. *)
Definition afterSubmit (job : TwapJob) (intent : Order) : M D GoTime :=
  do now <- timeNow;
  if t_ExecutionType job =?s "maker" then
    let timeout := wrap64 (t_OrderTimeoutSeconds job * Second)%Z in
    do now <- timeNow;
    let next := if IsZeroTime (o_CreatedAt intent) then TimeAdd now timeout else TimeAdd (o_CreatedAt intent) timeout in
    ret (if TimeBefore (twapSliceEnd job) next then twapSliceEnd job else next)
  else ret (TimeAdd now Second).

Definition submitChild (job : TwapJob) (credentials : Credentials) (i : Instrument) (qty : D)
    (orderType price tif : string) (postOnly : bool) : M D unit :=
  do r <- CreateTwapIntent (t_ID job) (childOrder job orderType (dString qty) price);
  match r with
  | Err e => if errorsIs e ErrTwapNotCancelable then ret tt else retry job e
  | Ok (intent, created) =>
      do lost <- (if created then
                    run AppendTwapEvent (t_ID job) "slice_submitted";
                    do answer <- submitWithOptions (D := D) (t_Exchange job) credentials i intent tif postOnly;
                    ret (match snd answer with
                         | Some e => negb (errorsIs e ErrVenueUncertain) && tradingAuthorizationLost e
                         | None => false
                         end)
                  else ret false);
      if (lost : bool) then fail job "trading authorization lost"
      else
        do next <- afterSubmit job intent;
        ignore (UpdateTwapSchedule (t_ID job) "running" (t_CurrentSlice job) (t_CurrentAttempt job)
                  next (o_ID intent) "")
  end.

Definition submitSlice (job : TwapJob) : M D unit :=
  do now <- timeNow;
  let remaining := parsePositiveDecimal (t_TotalQuantity job) - parseDecimal (t_FilledQuantity job) in
  if negb (dIsPositive remaining) || (TimeSub (t_EndAt job) now <=? 0)%Z
  then close job "partially_completed" "execution window ended"
  else
    do r <- callCatalog (t_InstrumentID job);
    match r with
    | Err e => retry job e
    | Ok i =>
        do q <- sliceQuantity job i remaining now;
        match q with
        | Err e => retry job e
        | Ok qty =>
            if negb (dIsPositive qty) then advanceSlice job
            else
              do n <- tick;
              match credentialsInternal n (t_OwnerUsername job) (t_TradingAccountID job) with
              | Err e => retry job e
              | Ok credentials =>
                  if negb (adapterKnown (t_Exchange job)) then fail job "unsupported exchange"
                  else
                    do p <- slicePrice job i;
                    match p with
                    | None => advanceSlice job
                    | Some (orderType, price, tif, postOnly) =>
                        submitChild job credentials i qty orderType price tif postOnly
                    end
              end
        end
    end.

(** [advance]: the job is refreshed first; the end of the window closes it. *)
Definition advance (job : TwapJob) : M D unit :=
  do now <- timeNow;
  do r <- RefreshTwapProgress (t_ID job);
  match r with
  | Err e => retry job e
  | Ok job =>
      let total := parsePositiveDecimal (D := D) (t_TotalQuantity job) in
      let filled := parseDecimal (t_FilledQuantity job) in
      if negb (dIsPositive total) then fail job "invalid persisted total quantity"
      else if filled >=? total then close job "completed" ""
      else if negb (TimeBefore now (t_EndAt job)) then
        if (t_ExecutionType job =?s "maker") && negb (t_ActiveOrderID job =?s "") then
          run cancelActive job;
          do r <- RefreshTwapProgress (t_ID job);
          let job := match r with Ok j => j | Err _ => zero_TwapJob end in
          close job (if parseDecimal (t_FilledQuantity job) >=? total then "completed" else "partially_completed")
            "execution window ended"
        else close job "partially_completed" "execution window ended"
      else if t_Status job =?s "pending" then
        let fireAt := twapSliceFireAt (D := D) (t_ID job) (t_CurrentSlice job) (t_StartAt job) (t_EndAt job)
                        (t_IntervalSeconds job) in
        do r <- UpdateTwapSchedule (t_ID job) "running" (t_CurrentSlice job) (t_CurrentAttempt job)
                  fireAt (t_ActiveOrderID job) "";
        match r with
        | Err e => retry zero_TwapJob e
        | Ok job => ignore (AppendTwapEvent (t_ID job) "started")
        end
      else if negb (t_ActiveOrderID job =?s "") then handleActive job
      else submitSlice job
  end.

(** The goroutine of one account: its leased jobs, one after the other. *)
Fixpoint advanceGroup (jobs : list TwapJob) : M D unit :=
  match jobs with
  | [] => ret tt
  | job :: rest => run advance job; advanceGroup rest
  end.

(** ** The service *)

Definition validUUID (value : string) : bool := uuidParses (TrimSpace value).

Definition twapReturn {A} (m : M D (Result A)) (k : A -> M D (Result TwapJob)) : M D (Result TwapJob) :=
  do r <- m; match r with Err e => ret (Err e) | Ok a => k a end.

Definition newTwapJob (id owner : string) (account : Credentials) (i : Instrument) (input : CreateTwapInput) : TwapJob :=
  zero_TwapJob <| t_ID := id |> <| t_IdempotencyKey := ti_IdempotencyKey input |>
    <| t_RequestFingerprint := twapFingerprint (D := D) input |> <| t_OwnerUsername := owner |>
    <| t_TradingAccountID := cr_TradingAccountID account |> <| t_ProductName := cr_ProductName account |>
    <| t_Exchange := cr_Exchange account |> <| t_InstrumentID := i_ID i |>
    <| t_ContractType := i_ContractType i |> <| t_ExchangeSymbol := i_ExchangeSymbol i |>
    <| t_BaseAsset := i_BaseAsset i |> <| t_QuoteAsset := i_QuoteAsset i |>
    <| t_Side := ti_Side input |> <| t_TotalQuantity := ti_TotalQuantity input |>
    <| t_StartAt := ti_StartAt input |> <| t_EndAt := ti_EndAt input |>
    <| t_IntervalSeconds := ti_IntervalSeconds input |> <| t_LimitPrice := ti_LimitPrice input |>
    <| t_MaxQuantity := ti_MaxQuantity input |> <| t_ExecutionType := ti_ExecutionType input |>
    <| t_OrderTimeoutSeconds := ti_OrderTimeoutSeconds input |> <| t_Status := "pending"%string |>
    <| t_NextActionAt := ti_StartAt input |>.

Definition serviceCreateTwap (input : CreateTwapInput) : M D (Result TwapJob) :=
  do now <- timeNow;
  match normalizeTwapInput (D := D) input now with
  | Err e => ret (Err e)
  | Ok normalized =>
      twapReturn (do n <- tick; ret (credentialsOwner n (ti_Token normalized))) (fun owner =>
      twapReturn (do n <- tick; ret (credentialsGet n (ti_Token normalized) (ti_TradingAccountID normalized)))
      (fun account =>
      twapReturn (callCatalog (ti_InstrumentID normalized)) (fun i =>
      if negb (i_Exchange i =?s cr_Exchange account) then ret (Err errInvalidArgument)
      else if negb (adapterKnown (cr_Exchange account)) then ret (Err errUnsupportedExchange)
      else twapReturn (callCapabilities (cr_Exchange account) account) (fun capabilities =>
      if negb (capabilitiesAllow capabilities i) ||
         ((ti_ExecutionType normalized =?s "maker") && negb (cap_MakerTwap capabilities))
      then ret (Err errInvalidArgument)
      else match validateTwapInstrument (D := D) i normalized with
      | Err e => ret (Err e)
      | Ok _ =>
          do n <- tick;
          let job := newTwapJob (newUUID n) owner account i normalized in
          twapReturn (CreateTwap job) (fun '(created, inserted) =>
          if negb inserted && negb (t_RequestFingerprint created =?s t_RequestFingerprint job)
          then ret (Err errIdempotencyConflict) else ret (Ok created))
      end))))
  end.

Definition serviceGetTwap (token id : string) : M D (Result TwapJob) :=
  if (TrimSpace token =?s "") || negb (validUUID id) then ret (Err errInvalidArgument)
  else twapReturn (do n <- tick; ret (credentialsOwner n token)) (fun owner =>
       twapReturn (GetTwapByOwner owner id) (fun job =>
       if terminalTwapStatus (t_Status job) then ret (Ok job)
       else do r <- RefreshTwapProgress (t_ID job);
            ret (match r with Ok refreshed => Ok refreshed | Err _ => Ok job end))).

Definition serviceCancelTwap (token id : string) : M D (Result TwapJob) :=
  if (TrimSpace token =?s "") || negb (validUUID id) then ret (Err errInvalidArgument)
  else twapReturn (do n <- tick; ret (credentialsOwner n token)) (fun owner =>
       twapReturn (GetTwapByOwner owner id) (fun job =>
       if terminalTwapStatus (t_Status job) then ret (Err errTwapNotCancelable)
       else twapReturn (CloseTwap (t_ID job) "canceled" "canceled by user") (fun closed =>
         run AppendTwapEvent (t_ID job) "canceled";
         run (if t_ActiveOrderID job =?s "" then ret (zero_Order, None)
              else CancelOrder (D := D) token (t_ActiveOrderID job));
         do r <- RefreshTwapProgress (t_ID closed);
         ret (match r with Ok refreshed => Ok refreshed | Err _ => Ok closed end)))).
End TwapScheduler.

(** ** Slices in time and quantity *)

Section TwapSlices.
Context {D : Type} `{!Decimal D} `{!DecimalLaws D}.

Lemma sliceOffset_range (jobID : string) (slice window : Z) :
  0 < window -> 0 <= sliceOffset (D := D) jobID slice window < window.
Proof. intros H. by apply Z.mod_pos_bound. Qed.

(** The start of a slice, when no product overflows. *)
Definition sliceStartAt (start slice interval : Z) : Z := start + slice * interval * Second.

Lemma fireAt_window (jobID : string) (slice start end_ interval : Z) :
  0 <= slice -> 0 < interval -> (slice + 1) * interval * Second < 2 ^ 63 ->
  let s := sliceStartAt start slice interval in
  let f := twapSliceFireAt (D := D) jobID slice start end_ interval in
  (end_ <= s -> f = end_) /\ (s < end_ -> s <= f < Z.min end_ (s + interval * Second)).
Proof.
  intros Hs Hi Hb s f.
  assert (0 <= slice * interval /\ 0 < interval * Second /\ slice * interval * Second + interval * Second < 2 ^ 63)
    as (H1 & H2 & H3) by (unfold Second in *; nia).
  unfold f, twapSliceFireAt, TimeBefore, TimeAfter, TimeAdd; cbv zeta.
  rewrite (wrap64_id (slice * interval)) by (unfold int64_min, int64_max, Second in *; nia).
  rewrite (wrap64_id (slice * interval * Second)) by (unfold int64_min, int64_max, Second in *; nia).
  rewrite (wrap64_id (interval * Second)) by (unfold int64_min, int64_max, Second in *; nia).
  fold (sliceStartAt start slice interval). fold s.
  destruct (Z.ltb_spec s end_) as [Hlt|Hge]; cbn [negb]; [|by split; [|lia]].
  split; [lia|]. intros _.
  match goal with |- context [TimeSub ?x ?y] => set (e := x) end.
  assert (e = Z.min end_ (s + interval * Second)) as He by (unfold e; destruct (Z.ltb_spec end_ (s + interval * Second)); lia).
  clearbody e. subst e.
  assert (TimeSub (Z.min end_ (s + interval * Second)) s = Z.min end_ (s + interval * Second) - s) as ->
    by (unfold TimeSub, int64_min, int64_max; lia).
  destruct (Z.leb_spec (Z.min end_ (s + interval * Second) - s) 0); [lia|].
  pose proof (sliceOffset_range jobID slice (Z.min end_ (s + interval * Second) - s)). lia.
Qed.

(** A slice fires inside its own window and inside the job's: not before
    the slice starts, before it ends and before the job ends; a slice past the
    end fires at the end.  Slices therefore fire in their order. *)
Theorem twapSliceFireAt_window (jobID : string) (slice start end_ interval : Z) :
  0 <= slice -> 0 < interval -> (slice + 2) * interval * Second < 2 ^ 63 ->
  let s := sliceStartAt start slice interval in
  let f := twapSliceFireAt (D := D) jobID slice start end_ interval in
  (end_ <= s -> f = end_) /\ (s < end_ -> s <= f < Z.min end_ (s + interval * Second)) /\
  (s < end_ -> f < twapSliceFireAt (D := D) jobID (slice + 1) start end_ interval).
Proof.
  intros Hs Hi Hb s f.
  destruct (fireAt_window jobID slice start end_ interval) as [H1 H2]; [done..|unfold Second in *; nia|].
  destruct (fireAt_window jobID (slice + 1) start end_ interval) as [H3 H4]; [lia|done|unfold Second in *; nia|].
  fold s f in H1, H2. split; [done|]. split; [done|]. intros Hlt. specialize (H2 Hlt).
  assert (sliceStartAt start (slice + 1) interval = s + interval * Second) as E
    by (unfold s, sliceStartAt; lia). rewrite E in *.
  destruct (Z.le_gt_cases end_ (s + interval * Second)) as [Hle|Hgt]; [rewrite H3 by done; lia|].
  pose proof (H4 Hgt). lia.
Qed.

Local Open Scope Q_scope.

Lemma sliceQuantity_facts (remaining maxQuantity step : D) (interval remainingTime : Duration) :
  let q := dval (calculateSliceQuantity remaining interval remainingTime maxQuantity step) in
  0 <= q /\ (0 <= dval remaining -> q <= dval remaining + stepEps step) /\
  (0 < dval maxQuantity -> q <= dval maxQuantity + stepEps step) /\
  (0 < dval step -> dval maxQuantity <= 0 -> (0 < remainingTime <= interval)%Z ->
   dval remaining - divEps - dval step < q).
Proof.
  intros q. unfold q, calculateSliceQuantity. pose proof divEps_pos as He.
  destruct (dIsPositive_reflect remaining) as [Hr|Hr]; cbn [negb orb];
    [|rewrite dZero_val; pose proof (stepEps_nonneg step); repeat split; intros; lra].
  destruct (Z.leb_spec interval 0); cbn [orb];
    [rewrite dZero_val; pose proof (stepEps_nonneg step); repeat split; intros; try lra; lia|].
  destruct (Z.leb_spec remainingTime 0); [rewrite dZero_val; pose proof (stepEps_nonneg step); repeat split; intros; try lra; lia|].
  cbv zeta. set (share := dDiv _ _).
  assert (0 <= dval share /\ ((remainingTime <= interval)%Z -> dval remaining - divEps <= dval share)) as [Hs1 Hs2].
  { assert (0 < inject_Z interval /\ 0 < inject_Z remainingTime) as [Hi Ht]
      by (split; change 0 with (inject_Z 0); by rewrite <- Zlt_Qlt).
    unfold share. split.
    - apply dDiv_nonneg; rewrite ?dMul_val, !dNewFromInt_val; nra.
    - intros Hle. rewrite Zle_Qle in Hle.
      pose proof (dDiv_bounds (dMul remaining (dNewFromInt interval)) (dNewFromInt remainingTime)) as Hb.
      rewrite dMul_val, !dNewFromInt_val in Hb. specialize (Hb ltac:(lra)) as [Hb _].
      enough (dval remaining <= dval remaining * inject_Z interval / inject_Z remainingTime) by lra.
      apply Qle_shift_div_l; nra. }
  clearbody share. set (c1 := if dIsPositive maxQuantity && _ then maxQuantity else share).
  assert (0 <= dval c1 /\ (0 < dval maxQuantity -> dval c1 <= dval maxQuantity) /\
          (dval maxQuantity <= 0 -> dval c1 = dval share)) as (H1 & H2 & H3).
  { unfold c1. destruct (dIsPositive_reflect maxQuantity); cbn [andb]; [|repeat split; intros; try lra; done].
    destruct (dGreaterThan_reflect share maxQuantity); repeat split; intros; lra. }
  clearbody c1. set (c2 := if dGreaterThan c1 remaining then remaining else c1).
  assert (0 <= dval c2 <= dval remaining /\ dval c2 <= dval c1 /\ (dval c2 == dval remaining \/ dval c2 = dval c1))
    as ([H4 H5] & H6 & H7) by (unfold c2; destruct (dGreaterThan_reflect c1 remaining); repeat split; try lra; first [by left|by right]).
  clearbody c2. pose proof (floorToStep_le c2 step). pose proof (floorToStep_nonneg c2 step H4).
  split; [done|]. split; [intros; lra|]. split; [intros Hm; specialize (H2 Hm); lra|].
  intros Hst Hm [_ Hle]. specialize (H3 Hm). specialize (Hs2 Hle).
  pose proof (floorToStep_bounds c2 step Hst) as [Hf _]. destruct H7 as [H7|H7]; rewrite ?H7, ?H3 in *; lra.
Qed.

Lemma sliceQuantity_le (remaining maxQuantity step : D) (interval remainingTime : Duration) :
  0 <= dval remaining ->
  dval (calculateSliceQuantity remaining interval remainingTime maxQuantity step) <= dval remaining + stepEps step.
Proof. intros H. destruct (sliceQuantity_facts remaining maxQuantity step interval remainingTime) as (_ & Hl & _). by apply Hl. Qed.

(** A slice is never larger than what is left of the job or than its
    maximum, up to the rounding of one step, and never negative; the slice
    that falls into the last interval takes all that is left of a job without
    a maximum, except for less than a step. *)
Theorem calculateSliceQuantity_bounds (remaining maxQuantity step : D) (interval remainingTime : Duration) :
  let q := dval (calculateSliceQuantity remaining interval remainingTime maxQuantity step) in
  0 <= q /\ (0 <= dval remaining -> q <= dval remaining + stepEps step) /\
  (0 < dval maxQuantity -> q <= dval maxQuantity + stepEps step) /\
  (0 < dval step -> dval maxQuantity <= 0 -> (0 < remainingTime <= interval)%Z ->
   dval remaining - divEps - dval step < q).
Proof. apply sliceQuantity_facts. Qed.
End TwapSlices.

(** ** The end of a job *)

Section TwapEnd.
Context {D : Type} `{!Decimal D} `{!DecimalLaws D} `{!Postgres D} `{!PostgresLaws D} `{!Env D} `{svc : !Services}.

(** Transactions that leave the jobs alone. *)
Lemma applyTransaction_twaps orderID result eventAt receivedAt stream fills skip n fault (st : Store D) :
  st_twaps (snd (applyTransaction orderID result eventAt receivedAt stream fills skip n fault st)) = st_twaps st.
Proof.
  unfold applyTransaction. destruct (st_orders st !! orderID) as [row|]; [|by destruct fault as [[[] ?]|]].
  cbv zeta. destruct (if hyperliquidArbitrageFillAverageEnabled _ then _ else _) as [h t].
  destruct (planUpdate _ _ _ _ _ _ _ _ _ _ _ _ _ _) as [t' [p|e]]; by destruct fault as [[[] ?]|].
Qed.

Variable id : string.
Variable E : GoTime.

(** The job is there, for a positive total, with its end; it is running or
    closed. *)
Definition jobLives (st : Store D) : Prop :=
  exists row T, st_twaps st !! id = Some row /\ t_ID (tw_job row) = id /\ t_EndAt (tw_job row) = E /\
    numericColumn (D := D) (t_TotalQuantity (tw_job row)) T /\ (0 < T)%Q /\
    (activeTwapStatus (t_Status (tw_job row)) = true \/ terminalTwapStatus (t_Status (tw_job row)) = true).
Definition jobClosed (st : Store D) : Prop :=
  exists row, st_twaps st !! id = Some row /\ t_ID (tw_job row) = id /\ terminalTwapStatus (t_Status (tw_job row)) = true.

Section Preserved.
Variable I : Store D -> Prop.
Hypothesis I_rely : forall n st, I st -> I (interfere n st).
Hypothesis I_twaps : forall st st' : Store D, st_twaps st' = st_twaps st -> I st -> I st'.
Hypothesis I_refresh : forall j t (st st' : Store D) r, refreshTransaction j t st = (Ok r, st') -> I st -> I st'.

Lemma keeps_RefreshTwapProgress j : keeps I (RefreshTwapProgress j).
Proof. apply keeps_sql; [done|]. intros t st a st'. apply I_refresh. Qed.
#[local] Hint Resolve keeps_RefreshTwapProgress : keeps.

Lemma keeps_UpdateResult o r : keeps I (UpdateResult o r).
Proof.
  unfold UpdateResult, UpdateResultWithFillDelta, applyOrderUpdate. keeps_tac.
  apply holds_transact; [done|]. intros n fault st HI. by apply (I_twaps st); [apply applyTransaction_twaps|].
Qed.
#[local] Hint Resolve keeps_UpdateResult : keeps.

Lemma keeps_AppendTwapEvent j t : keeps I (AppendTwapEvent j t).
Proof.
  apply keeps_sql; [done|]. intros ? st a st' H. destruct (st_twaps st !! j); [|done]. injection H as <- <-.
  by apply I_twaps.
Qed.
#[local] Hint Resolve keeps_AppendTwapEvent : keeps.

Lemma keeps_GetByOwner a b : keeps I (GetByOwner a b).
Proof. apply keeps_sql; [done|]. intros ? st r st' H. by injection H as _ <-. Qed.
#[local] Hint Resolve keeps_GetByOwner : keeps.

Lemma keeps_cancelActive job : keeps I (cancelActive job).
Proof. unfold cancelActive, callCatalog, callCancel. keeps_tac. Qed.
End Preserved.

Lemma refresh_rows j t (st st' : Store D) r :
  refreshTransaction j t st = (Ok r, st') ->
  exists row f a, st_twaps st !! j = Some row /\
    st_twaps st' = <[j := row <| tw_job := (tw_job row) <| t_FilledQuantity := f |> <| t_AveragePrice := a |>
                                   <| t_UpdatedAt := t |> |>]> (st_twaps st) /\
    r = scanTwap (D := D) (row <| tw_job := (tw_job row) <| t_FilledQuantity := f |> <| t_AveragePrice := a |>
                                   <| t_UpdatedAt := t |> |>) /\ st_orders st' = st_orders st.
Proof.
  unfold refreshTransaction. destruct (st_twaps st !! j) as [row|]; [|done]. cbv zeta.
  destruct (numericText _) as [f|]; [|done]. destruct (numericText _) as [a|]; [|done].
  intros [= <- <-]. by exists row, f, a.
Qed.

Lemma jobLives_refresh j t (st st' : Store D) r :
  refreshTransaction j t st = (Ok r, st') -> jobLives st -> jobLives st'.
Proof.
  intros H (row & T & Hr & H1 & H2 & H3 & H4 & H5). apply refresh_rows in H as (row0 & f & a & Hr0 & Hst & _).
  unfold jobLives. rewrite Hst. destruct (decide (j = id)) as [->|Hn].
  - rewrite Hr in Hr0. injection Hr0 as <-. rewrite lookup_insert_eq. by do 2 eexists.
  - rewrite lookup_insert_ne by done. by exists row, T.
Qed.

Lemma jobClosed_refresh j t (st st' : Store D) r :
  refreshTransaction j t st = (Ok r, st') -> jobClosed st -> jobClosed st'.
Proof.
  intros H (row & Hr & H1 & H2). apply refresh_rows in H as (row0 & f & a & Hr0 & Hst & _).
  unfold jobClosed. rewrite Hst. destruct (decide (j = id)) as [->|Hn].
  - rewrite Hr in Hr0. injection Hr0 as <-. rewrite lookup_insert_eq. by eexists.
  - rewrite lookup_insert_ne by done. by exists row.
Qed.

Lemma jobLives_twaps (st st' : Store D) : st_twaps st' = st_twaps st -> jobLives st -> jobLives st'.
Proof. unfold jobLives. by intros ->. Qed.
Lemma jobClosed_twaps (st st' : Store D) : st_twaps st' = st_twaps st -> jobClosed st -> jobClosed st'.
Proof. unfold jobClosed. by intros ->. Qed.

Lemma terminal_not_active (s : string) : terminalTwapStatus s = true -> activeTwapStatus s = false.
Proof.
  unfold terminalTwapStatus, activeTwapStatus. intros H.
  destruct (String.eqb_spec s "pending") as [->|]; [done|]. by destruct (String.eqb_spec s "running") as [->|].
Qed.

Lemma jobClosed_schedule j s sl att next act e t (st st' : Store D) r :
  scheduleTransaction j s sl att next act e t st = (Ok r, st') -> jobClosed st -> jobClosed st'.
Proof.
  unfold scheduleTransaction. destruct (st_twaps st !! j) as [row0|] eqn:Hr0; [|done].
  destruct (activeTwapStatus _) eqn:Ha; [|done]. cbv zeta. intros [= <- <-] (row & Hr & H1 & H2).
  destruct (decide (j = id)) as [->|Hn].
  - rewrite Hr in Hr0. injection Hr0 as <-. by rewrite terminal_not_active in Ha.
  - exists row. cbn. by rewrite lookup_insert_ne.
Qed.

(** A run in which the database answers; other processes keep the job, and
    keep it closed once it is. *)
Hypothesis no_fault : forall n, dbFault n = None.
Hypothesis others_keep : forall n st, jobLives st -> jobLives (interfere n st).
Hypothesis others_keep_closed : forall n st, jobClosed st -> jobClosed (interfere n st).

Lemma close_transaction_closes s m t (st : Store D) :
  terminalTwapStatus s = true -> jobLives st -> jobClosed (snd (closeTransaction id s m t st)).
Proof.
  intros Hs (row & T & Hr & H1 & _ & _ & _ & H5). unfold closeTransaction. rewrite Hr.
  destruct (activeTwapStatus _) eqn:Ha; [|exists row; cbn; by destruct H5].
  eexists. cbn. by rewrite lookup_insert_eq.
Qed.

Lemma keeps_closed_schedule j s sl att next act e : keeps jobClosed (UpdateTwapSchedule j s sl att next act e).
Proof. apply keeps_sql; [done|]. intros *. apply jobClosed_schedule. Qed.
Lemma keeps_closed_GetTwap j : keeps jobClosed (GetTwap j).
Proof. apply keeps_sql; [done|]. intros ? st r st' H. by injection H as _ <-. Qed.
Lemma keeps_closed_event j t : keeps jobClosed (AppendTwapEvent j t).
Proof. apply keeps_AppendTwapEvent; [done|apply jobClosed_twaps]. Qed.
Lemma keeps_closed_refresh j : keeps jobClosed (RefreshTwapProgress j).
Proof. apply keeps_RefreshTwapProgress; [done|apply jobClosed_refresh]. Qed.
#[local] Hint Resolve keeps_closed_schedule keeps_closed_GetTwap keeps_closed_event keeps_closed_refresh : keeps.

Lemma keeps_closed_retry job e : keeps jobClosed (retry job e).
Proof. unfold retry, ignore. keeps_tac. Qed.
#[local] Hint Resolve keeps_closed_retry : keeps.

Lemma close_closes job s m :
  t_ID job = id -> terminalTwapStatus s = true -> holds jobLives (close job s m) (fun _ => jobClosed).
Proof.
  intros Hid Hs. unfold close, CloseTwap. rewrite Hid.
  apply holds_bind with (R := fun _ => jobClosed).
  - apply holds_bind with (R := fun _ => jobClosed); [|intros a; change (keeps jobClosed (match a with Ok (Some job) => ret (Ok job) | Ok None => GetTwap id | Err e => ret (Err e) end)); keeps_tac].
    apply holds_sql_nofault; [done|done|]. intros t st Hst.
    pose proof (close_transaction_closes s m t st Hs Hst) as Hc.
    assert (exists a, fst (closeTransaction id s m t st) = Ok a) as [a Hok].
    { unfold closeTransaction. destruct (st_twaps st !! id); [|eauto]. destruct (activeTwapStatus _); eauto. }
    by destruct (closeTransaction _ _ _ _ _) as [[?|e] st'].
  - intros a. match goal with |- holds _ ?m _ => change (keeps jobClosed m) end. unfold ignore. keeps_tac.
Qed.
Lemma refresh_answer (w w' : World D) (j : TwapJob) :
  RefreshTwapProgress id w = (Ok j, w') -> jobLives (w_store w) ->
  jobLives (w_store w') /\ t_ID j = id /\ t_EndAt j = E /\
  (0 < dval (parsePositiveDecimal (D := D) (t_TotalQuantity j)))%Q.
Proof.
  unfold RefreshTwapProgress, sql, transact. rewrite no_fault. intros H HL%(others_keep (w_tick w)).
  destruct (refreshTransaction _ _ _) as [[r|e] st'] eqn:Hr; [|done]. injection H as -> <-. cbn.
  split; [by eapply jobLives_refresh|].
  apply refresh_rows in Hr as (row & f & a & Hrow & _ & -> & _).
  destruct HL as (row' & T & Hrow' & H1 & H2 & (_ & _ & d & Hd & Ed) & H4 & _). rewrite Hrow in Hrow'.
  injection Hrow' as <-. cbn [scanTwap]. split; [done|]. split; [done|].
  destruct (padScale_val _ _ Hd) as (Ht & b & Hb & Eb). unfold parsePositiveDecimal. cbn -[TrimSpace]. rewrite Ht, Hb.
  assert (0 < dval b)%Q as Hpos by (rewrite Eb, Ed; done).
  destruct (dIsPositive_reflect b); [done|contradiction].
Qed.

(** C28: a job whose window has ended is closed by the next pass over it, maker
    or not, with or without an active order and whatever the venue answers,
    when the database answers: it does not run for ever. *)
Theorem advance_closes_ended (job job' : TwapJob) (w w' : World D) :
  t_ID job = id -> E <= clock (w_tick w) -> jobLives (w_store w) ->
  RefreshTwapProgress id (snd (timeNow w)) = (Ok job', w') ->
  (t_ExecutionType job' = "maker"%string -> exists job'', fst (RefreshTwapProgress id (snd (cancelActive job' w'))) = Ok job'') ->
  jobClosed (w_store (snd (advance job w))).
Proof.
  intros Hid HE HL Hr Hm. unfold advance, bind at 1. destruct (timeNow w) as [now w1] eqn:Ht.
  assert (now = clock (w_tick w) /\ jobLives (w_store w1)) as [-> HL1] by (unfold timeNow, bind, tick, ret in Ht; by injection Ht as <- <-).
  cbn [snd] in Hr. unfold bind at 1. rewrite Hid, Hr.
  destruct (refresh_answer _ _ _ Hr HL1) as (HL' & Hid' & HE' & Hpos). cbv zeta.
  destruct (dIsPositive_reflect (parsePositiveDecimal (D := D) (t_TotalQuantity job'))); [|contradiction]. cbn [negb].
  destruct (dGreaterThanOrEqual _ _); [by apply close_closes|].
  rewrite HE'. unfold TimeBefore. destruct (Z.ltb_spec (clock (w_tick w)) E); [lia|]. cbn [negb].
  destruct (String.eqb_spec (t_ExecutionType job') "maker") as [Em|]; cbn [andb]; [|by apply close_closes].
  destruct (negb _); [|by apply close_closes].
  destruct (Hm Em) as [job'' Hr'']. unfold bind at 1.
  pose proof (keeps_cancelActive jobLives others_keep jobLives_twaps jobLives_refresh job' w' HL') as HLc.
  destruct (cancelActive job' w') as [rc wc]. cbn [snd] in *. rewrite Hid'. unfold bind at 1.
  destruct (RefreshTwapProgress id wc) as [r2 w2] eqn:Hr2. cbn [fst] in Hr''. subst r2.
  destruct (refresh_answer _ _ _ Hr2 HLc) as (HL2 & Hid2 & _).
  apply close_closes; [done|by destruct (dGreaterThanOrEqual _ _)|done].
Qed.
End TwapEnd.

(** ** What a pass sends *)

Section TwapSends.
Context {D : Type} `{!Decimal D} `{!DecimalLaws D} `{!Postgres D} `{!PostgresLaws D} `{!Env D} `{svc : !Services}.

Lemma quiet_RefreshTwapProgress j : quiet (RefreshTwapProgress (D := D) j).
Proof. apply quiet_transact. Qed.
Lemma quiet_UpdateTwapSchedule id s sl att next act e : quiet (UpdateTwapSchedule (D := D) id s sl att next act e).
Proof. apply quiet_transact. Qed.
Lemma quiet_AppendTwapEvent id t : quiet (AppendTwapEvent (D := D) id t).
Proof. apply quiet_transact. Qed.
Lemma quiet_GetByOwner a b : quiet (GetByOwner (D := D) a b).
Proof. apply quiet_transact. Qed.
#[local] Hint Resolve quiet_RefreshTwapProgress quiet_UpdateTwapSchedule quiet_AppendTwapEvent quiet_GetByOwner : quiet.
Lemma quiet_callCatalog id : quiet (callCatalog (D := D) id).
Proof. unfold callCatalog. quiet_tac. Qed.
Lemma quiet_CloseTwap id s m : quiet (CloseTwap (D := D) id s m).
Proof. unfold CloseTwap, GetTwap, getTwapRow. quiet_tac. Qed.
Lemma quiet_retry job e : quiet (retry (D := D) job e).
Proof. unfold retry, ignore. quiet_tac. Qed.
#[local] Hint Resolve quiet_callCatalog quiet_CloseTwap quiet_retry : quiet.
Lemma quiet_close job s m : quiet (close (D := D) job s m).
Proof. unfold close, ignore. quiet_tac. Qed.
Lemma quiet_advanceSlice job : quiet (advanceSlice (D := D) job).
Proof. unfold advanceSlice, ignore. quiet_tac. Qed.
#[local] Hint Resolve quiet_close quiet_advanceSlice : quiet.
Lemma quiet_scheduleMakerRetry job o : quiet (scheduleMakerRetry (D := D) job o).
Proof. unfold scheduleMakerRetry, ignore. quiet_tac. Qed.
Lemma quiet_cancelActive job : quiet (cancelActive (D := D) job).
Proof. unfold cancelActive, callCancel. quiet_tac. Qed.
#[local] Hint Resolve quiet_scheduleMakerRetry quiet_cancelActive : quiet.
Lemma quiet_handleActive job : quiet (handleActive (D := D) job).
Proof. unfold handleActive, ignore. quiet_tac. Qed.
Lemma quiet_CreateTwapIntent id o : quiet (CreateTwapIntent (D := D) id o).
Proof. unfold CreateTwapIntent. quiet_tac. Qed.
Lemma quiet_sliceQuantity job i r now : quiet (sliceQuantity (D := D) job i r now).
Proof. unfold sliceQuantity, ListTwapOrders. quiet_tac. Qed.
Lemma quiet_slicePrice job i : quiet (slicePrice (D := D) job i).
Proof. unfold slicePrice. quiet_tac. Qed.
Lemma quiet_afterSubmit job o : quiet (afterSubmit (D := D) job o).
Proof. unfold afterSubmit. quiet_tac. Qed.
#[local] Hint Resolve quiet_handleActive quiet_CreateTwapIntent quiet_sliceQuantity quiet_slicePrice quiet_afterSubmit : quiet.

Lemma mayOne_bind {A B} P (m : M D A) (k : A -> M D B) :
  quiet m -> (forall w, mayOne P (k (fst (m w)))) -> mayOne P (bind m k).
Proof.
  intros Hm Hk w. unfold bind. pose proof (Hm w) as E. specialize (Hk w). destruct (m w) as [a w1]. cbn in *.
  destruct (Hk w1) as [->|(x & Hx & ->)]; rewrite E; [by left|right; by exists x].
Qed.
Lemma mayOne_then {A B} P (m : M D A) (k : A -> M D B) : mayOne P m -> (forall a, quiet (k a)) -> mayOne P (bind m k).
Proof.
  intros Hm Hk w. unfold bind. specialize (Hm w). destruct (m w) as [a w1]. cbn in *.
  pose proof (Hk a w1) as Ek. destruct Hm as [E|(x & Hx & E)]; [left; congruence|right; exists x; split; [done|congruence]].
Qed.

(** The child that is sent is the row that was inserted. *)
Lemma CreateTwapIntent_created jobID (order stored : Order) (w : World D) :
  fst (CreateTwapIntent jobID order w) = Ok (stored, true) ->
  o_Side stored = o_Side order /\ o_OrderType stored = o_OrderType order /\
  numericText (D := D) (o_Quantity order) = Some (o_Quantity stored) /\
  nullableNumeric (D := D) (o_Price order) = Some (o_Price stored).
Proof.
  unfold CreateTwapIntent, bind, tick, sql, transact. cbn [w_tick w_store].
  set (o := if o_ID order =?s "" then _ else order).
  assert (o_Side o = o_Side order /\ o_OrderType o = o_OrderType order /\
          o_Quantity o = o_Quantity order /\ o_Price o = o_Price order) as (<- & <- & <- & <-)
    by (unfold o; by destruct (_ =?s _)).
  clearbody o. set (st := interfere _ _). destruct (dbFault _) as [[? ?]|]; [done|].
  unfold twapIntentTransaction. destruct (st_twaps st !! jobID); [|done]. destruct (negb _); [done|].
  destruct (byIdempotency _ _); [by destruct (_ || _)|]. cbv zeta. destruct (childConflict _ _ _ _); [done|].
  destruct (insertOrder _ _ _) as [row|] eqn:Ei; [|done].
  apply insertOrder_row in Ei as (q & p & Hq & Hp & -> & _). cbn. intros [= <-]. by split_and!.
Qed.

(** The price keeps to the limit of the job. *)
Definition withinLimit (job : TwapJob) (price : D) : Prop :=
  forall L : D, dNewFromString (TrimSpace (t_LimitPrice job)) = Some L -> (0 < dval L)%Q ->
    (t_Side job = "buy"%string -> (dval price <= dval L)%Q) /\ (t_Side job = "sell"%string -> (dval L <= dval price)%Q).

Lemma makerPrice_within (job : TwapJob) i bbo s :
  makerPrice (D := D) job i bbo = Ok s -> exists price, s = dString price /\ withinLimit job price.
Proof.
  unfold makerPrice. destruct (dNewFromString _) as [p0|]; [|done]. destruct (negb _); [done|]. cbv zeta.
  set (p1 := if dIsPositive (parsePositiveDecimal (i_PriceTick i)) then _ else p0). clearbody p1.
  intros [= <-]. eexists. split; [reflexivity|]. intros L HL Hpos. unfold parsePositiveDecimal. rewrite HL.
  destruct (dIsPositive_reflect L) as [_|]; [|contradiction].
  destruct (dIsPositive_reflect L) as [_|]; [|contradiction].
  destruct (String.eqb_spec (t_Side job) "buy") as [Eb|Eb]; cbn [andb].
  - split; [intros _|by rewrite Eb]. rewrite Eb. change (String.eqb "buy" "sell") with false. cbn [andb]. destruct (dGreaterThan_reflect p1 L); lra.
  - split; [intros E; contradiction|]. intros ->. change (String.eqb "sell" "sell") with true. cbn [andb]. destruct (dLessThan_reflect p1 L); lra.
Qed.

(** An order of the job: its side; its quantity, for the first attempt of a
    slice at most what the job has left; its price within the limit. *)
Definition childOf (job : TwapJob) (x : Z * OrderRequest) : Prop :=
  rq_Side (snd x) = t_Side job /\
  (exists (i : Instrument) (qty : D), rq_Instrument (snd x) = toVenueInstrument i /\
     numericColumn (D := D) (rq_Quantity (snd x)) (qround 18 (dval qty)) /\ (0 < dval qty)%Q /\
     (t_CurrentAttempt job <= 0 ->
      (dval qty <= dval (parsePositiveDecimal (D := D) (t_TotalQuantity job)) -
         dval (parseDecimal (D := D) (t_FilledQuantity job)) + stepEps (parsePositiveDecimal (D := D) (i_QuantityStep i)))%Q)) /\
  (rq_OrderType (snd x) = "market"%string /\ t_LimitPrice job = ""%string \/
   rq_OrderType (snd x) = "limit"%string /\ exists price : D, withinLimit job price /\
     numericColumn (D := D) (rq_Price (snd x)) (qround 18 (dval price))).

Definition childPrice (job : TwapJob) (orderType price : string) : Prop :=
  orderType = "market"%string /\ t_LimitPrice job = ""%string \/
  orderType = "limit"%string /\ forall s, nullableNumeric (D := D) price = Some s ->
    exists p : D, withinLimit job p /\ numericColumn (D := D) s (qround 18 (dval p)).

Lemma slicePrice_child job i w orderType price tif postOnly :
  TrimSpace (t_LimitPrice job) = t_LimitPrice job ->
  fst (slicePrice (D := D) job i w) = Some (orderType, price, tif, postOnly) -> childPrice job orderType price.
Proof.
  intros Ht. unfold slicePrice. destruct (t_ExecutionType job =?s "maker").
  - unfold bind, tick, timeNow. cbn. destruct (adapterBBO _ _ _) as [bbo [e|]]; [done|].
    cbn. destruct (IsZeroTime _ || _); [done|]. destruct (makerPrice job i bbo) as [s|] eqn:Em; [|done].
    intros [= <- <- <- <-]. right. split; [done|]. apply makerPrice_within in Em as (p & -> & Hp).
    intros s. unfold nullableNumeric. destruct (String.eqb_spec (dString p) "") as [E|_]; [by destruct (dString_nonempty p)|].
    intros H%numericText_dString. by exists p.
  - cbn. destruct (String.eqb_spec (t_LimitPrice job) "") as [E|En]; cbn; intros [= <- <- <- <-]; [by left|right].
    split; [done|]. intros s. unfold nullableNumeric. destruct (String.eqb_spec (t_LimitPrice job) "") as [|_]; [done|].
    intros Hs. destruct (numericText_val _ _ Hs) as (_ & a & _ & Ha & _). exists a.
    split; [|by apply (numericText_column _ _ _ Hs)]. intros L. rewrite Ht, Ha. intros [= <-] _. split; intros; lra.
Qed.

Lemma submitChild_mayOne job credentials i qty orderType price tif postOnly :
  (0 < dval qty)%Q ->
  (t_CurrentAttempt job <= 0 ->
   (dval qty <= dval (parsePositiveDecimal (D := D) (t_TotalQuantity job)) -
      dval (parseDecimal (D := D) (t_FilledQuantity job)) + stepEps (parsePositiveDecimal (D := D) (i_QuantityStep i)))%Q) ->
  childPrice job orderType price ->
  mayOne (childOf job) (submitChild (D := D) job credentials i qty orderType price tif postOnly).
Proof.
  intros Hq Hle Hp. unfold submitChild. apply mayOne_bind; [auto with quiet|intros w].
  destruct (fst (CreateTwapIntent _ _ w)) as [[intent created]|e] eqn:Ec; [|apply mayOne_quiet; quiet_tac].
  apply mayOne_then; [|intros lost; unfold fail, ignore; quiet_tac].
  destruct created; [|apply mayOne_quiet; quiet_tac].
  apply mayOne_bind; [auto with quiet|intros _]. apply mayOne_then; [|intros ?; quiet_tac].
  intros w1. right. eexists. split; [|unfold submitWithOptions; rewrite placeSubmitted_sends; reflexivity].
  apply CreateTwapIntent_created in Ec as (Es & Et & Eq & Ep). cbn [childOrder o_Side o_OrderType o_Quantity o_Price setter] in *.
  split; [done|]. split.
  - exists i, qty. split; [done|]. split; [by apply numericText_dString|]. by split.
  - cbn [snd requestOf rq_OrderType rq_Price]. rewrite Et. destruct Hp as [[H1 H2]|[H1 H2]]; [by left|right].
    split; [done|]. by apply H2.
Qed.

Lemma submitSlice_mayOne job :
  TrimSpace (t_LimitPrice job) = t_LimitPrice job -> mayOne (childOf job) (submitSlice (D := D) job).
Proof.
  intros Ht. unfold submitSlice. apply mayOne_bind; [auto with quiet|intros w0]. cbv zeta. set (now := fst (timeNow w0)).
  set (remaining := dSub _ _).
  destruct (dIsPositive_reflect remaining) as [Hr|]; cbn [negb orb]; [|apply mayOne_quiet; quiet_tac].
  destruct (_ <=? 0); [apply mayOne_quiet; quiet_tac|].
  apply mayOne_bind; [auto with quiet|intros w1]. destruct (fst (callCatalog _ w1)) as [i|e]; [|apply mayOne_quiet; quiet_tac].
  apply mayOne_bind; [auto with quiet|intros w2].
  destruct (fst (sliceQuantity job i remaining now w2)) as [qty|e] eqn:Eq; [|apply mayOne_quiet; quiet_tac].
  destruct (dIsPositive_reflect qty) as [Hq|]; cbn [negb]; [|apply mayOne_quiet; quiet_tac].
  apply mayOne_bind; [auto with quiet|intros w3].
  destruct (credentialsInternal _ _ _) as [credentials|e]; [|apply mayOne_quiet; quiet_tac].
  destruct (negb _); [apply mayOne_quiet; unfold fail; quiet_tac|].
  apply mayOne_bind; [auto with quiet|intros w4].
  destruct (fst (slicePrice job i w4)) as [[[[orderType price] tif] postOnly]|] eqn:Ep; [|apply mayOne_quiet; quiet_tac].
  apply submitChild_mayOne; [done| |by eapply slicePrice_child].
  intros Ha. unfold sliceQuantity in Eq. destruct (Z.ltb_spec 0 (t_CurrentAttempt job)); [lia|]. cbn in Eq.
  injection Eq as <-.
  assert (dval remaining == dval (parsePositiveDecimal (D := D) (t_TotalQuantity job)) -
    dval (parseDecimal (D := D) (t_FilledQuantity job)))%Q as Er by apply dSub_val.
  rewrite <- Er. apply sliceQuantity_le. lra.
Qed.

(** C29: a pass over a job sends at most one order.  It is sent only before the
    job's end, while something of the total is not filled and no child is
    active; it has the job's side, keeps to its limit price, and for the first
    attempt of a slice it asks for no more than what is left of the total, up
    to the rounding of a step. *)
Theorem advance_sends_within (job job' : TwapJob) (w w' : World D) :
  RefreshTwapProgress (t_ID job) (snd (timeNow w)) = (Ok job', w') ->
  TrimSpace (t_LimitPrice job') = t_LimitPrice job' ->
  placed (snd (advance job w)) = placed w \/
  exists x, placed (snd (advance job w)) = placed w ++ [x] /\ childOf job' x /\ t_ActiveOrderID job' = ""%string /\
    clock (w_tick w) < t_EndAt job' /\
    (dval (parseDecimal (D := D) (t_FilledQuantity job')) < dval (parsePositiveDecimal (D := D) (t_TotalQuantity job')))%Q.
Proof.
  intros Hr Ht. remember (snd (advance job w)) as wf eqn:Hwf. unfold advance, bind at 1 in Hwf. pose proof (quiet_timeNow w) as Hq1.
  destruct (timeNow w) as [now w1] eqn:Hn. assert (now = clock (w_tick w)) as -> by (by injection Hn as <- _).
  cbn [snd] in *. unfold bind at 1 in Hwf. pose proof (quiet_RefreshTwapProgress (t_ID job) w1) as Hq2. rewrite Hr in *.
  cbn [snd] in Hq2. rewrite Hq1 in Hq2. cbv zeta in Hwf.
  assert (forall A (m : M D A), quiet m -> placed (snd (m w')) = placed w) as Hquiet by (intros A m Hm; by rewrite Hm).
  destruct (negb _); [left; rewrite Hwf; apply Hquiet; unfold fail; quiet_tac|].
  destruct (dGreaterThanOrEqual_reflect (parseDecimal (D := D) (t_FilledQuantity job'))
              (parsePositiveDecimal (D := D) (t_TotalQuantity job'))) as [|Hlt]; [left; rewrite Hwf; apply Hquiet; quiet_tac|].
  unfold TimeBefore in Hwf. destruct (Z.ltb_spec (clock (w_tick w)) (t_EndAt job')) as [HE|]; cbn [negb] in Hwf;
    [|left; rewrite Hwf; apply Hquiet; quiet_tac].
  destruct (t_Status job' =?s "pending"); [left; rewrite Hwf; apply Hquiet; unfold ignore; quiet_tac|].
  destruct (String.eqb_spec (t_ActiveOrderID job') "") as [Ha|]; cbn [negb] in Hwf; [|left; rewrite Hwf; apply Hquiet; quiet_tac].
  destruct (submitSlice_mayOne job' Ht w') as [E|(x & Hx & E)]; rewrite Hq2, <- Hwf in E; [by left|right].
  exists x. split_and!; [exact E|done..|lra].
Qed.
End TwapSends.

(** ** Closed is final *)

Section TwapFinal.
Context {D : Type} `{!Decimal D} `{!Postgres D} `{!Env D}.

(** The transactions on jobs, in any order and from any process; reports on
    orders and other changes of the order table leave the jobs and add no
    child. *)
Inductive twapStep : Store D -> Store D -> Prop :=
| tstep_create job t st r st' : createTwapTransaction job t st = (r, st') -> twapStep st st'
| tstep_schedule id s sl att next act e t st r st' :
    scheduleTransaction id s sl att next act e t st = (r, st') -> twapStep st st'
| tstep_close id s m t st r st' : closeTransaction id s m t st = (r, st') -> twapStep st st'
| tstep_lease n lease t st r st' : leaseTwapsTransaction n lease t st = (r, st') -> twapStep st st'
| tstep_intent id order t st r st' : twapIntentTransaction id order t st = (r, st') -> twapStep st st'
| tstep_refresh id t st r st' : refreshTransaction id t st = (r, st') -> twapStep st st'
| tstep_orders st st' : st_twaps st' = st_twaps st ->
    (forall oid row', st_orders st' !! oid = Some row' -> o_TwapJobID (row_order row') <> ""%string ->
       exists row, st_orders st !! oid = Some row /\ o_TwapJobID (row_order row) = o_TwapJobID (row_order row')) ->
    twapStep st st'.

(** A row of a job after a step: it is there, with the same or a new schedule. *)
Definition rowStep (P : TwapRow -> TwapRow -> Prop) (st st' : Store D) : Prop :=
  forall id row, st_twaps st !! id = Some row -> exists row', st_twaps st' !! id = Some row' /\ P row row'.

Lemma rowStep_same (P : TwapRow -> TwapRow -> Prop) (st st' : Store D) :
  (forall r, P r r) -> st_twaps st' = st_twaps st -> rowStep P st st'.
Proof. intros HP E id row Hr. rewrite E. eauto. Qed.

Lemma rowStep_insert (P : TwapRow -> TwapRow -> Prop) (st st' : Store D) j row0 row1 :
  (forall r, P r r) -> st_twaps st !! j = Some row0 -> P row0 row1 ->
  st_twaps st' = <[j := row1]> (st_twaps st) -> rowStep P st st'.
Proof.
  intros HP Hr0 H E id row Hr. rewrite E. destruct (decide (j = id)) as [->|Hn].
  - rewrite Hr0 in Hr. injection Hr as <-. rewrite lookup_insert_eq. eauto.
  - rewrite lookup_insert_ne by done. eauto.
Qed.

Lemma rowStep_alter (P : TwapRow -> TwapRow -> Prop) (f : TwapRow -> TwapRow) j (m : gmap string TwapRow) id row :
  (forall r, P r r) -> (forall r, P r (f r)) -> m !! id = Some row -> exists row', alter f j m !! id = Some row' /\ P row row'.
Proof.
  intros HP Hf Hr. destruct (decide (j = id)) as [->|Hn].
  - rewrite lookup_alter_eq, Hr. cbn. eauto.
  - rewrite lookup_alter_ne by done. eauto.
Qed.

Lemma lease_rows (P : TwapRow -> TwapRow -> Prop) (rows : list TwapRow) (f : TwapRow -> TwapRow) (key : TwapRow -> string)
    (m : gmap string TwapRow) id row :
  (forall r, P r r) -> (forall a b c, P a b -> P b c -> P a c) -> (forall r, P r (f r)) -> m !! id = Some row ->
  exists row', fold_left (fun m r => alter f (key r) m) rows m !! id = Some row' /\ P row row'.
Proof.
  intros HP Htr Hf. revert m row. induction rows as [|r rows IH]; intros m row Hr; cbn; [eauto|].
  destruct (rowStep_alter P f (key r) m id row HP Hf Hr) as (row1 & H1 & P1).
  destruct (IH _ _ H1) as (row2 & H2 & P2). eauto.
Qed.

(** What every step does to a row: a relation with the four kinds of change. *)
Section RowInvariant.
Variable P : TwapRow -> TwapRow -> Prop.
Hypothesis P_refl : forall r, P r r.
Hypothesis P_trans : forall a b c, P a b -> P b c -> P a c.
Hypothesis P_lease : forall r v, P r (r <| tw_scheduler_lease_until := v |>).
Hypothesis P_progress : forall r f a t,
  P r (r <| tw_job := (tw_job r) <| t_FilledQuantity := f |> <| t_AveragePrice := a |> <| t_UpdatedAt := t |> |>).
Hypothesis P_active : forall r row',
  activeTwapStatus (t_Status (tw_job r)) = true ->
  t_SchedulerFailures (tw_job row') = t_SchedulerFailures (tw_job r) \/ t_SchedulerFailures (tw_job row') = 0 -> P r row'.

Lemma intent_twaps id order t (st st' : Store D) r :
  twapIntentTransaction id order t st = (r, st') ->
  st_twaps st' = st_twaps st \/
  exists row oid, st_twaps st !! id = Some row /\ activeTwapStatus (t_Status (tw_job row)) = true /\
    st_twaps st' = <[id := row <| tw_job := (tw_job row) <| t_ActiveOrderID := oid |> <| t_UpdatedAt := t |> |>]> (st_twaps st).
Proof.
  unfold twapIntentTransaction. destruct (st_twaps st !! id) as [row|] eqn:Hr; [|intros [= _ <-]; by left].
  destruct (activeTwapStatus _) eqn:Ha; cbn [negb]; [|intros [= _ <-]; by left].
  assert (forall oid, alter (fun r => r <| tw_job := (tw_job r) <| t_ActiveOrderID := oid |> <| t_UpdatedAt := t |> |>) id (st_twaps st) =
    <[id := row <| tw_job := (tw_job row) <| t_ActiveOrderID := oid |> <| t_UpdatedAt := t |> |>]> (st_twaps st)) as Halt.
  { intros oid. apply map_eq. intros k. destruct (decide (k = id)) as [->|Hn].
    - by rewrite lookup_alter_eq, Hr, lookup_insert_eq.
    - by rewrite lookup_alter_ne, lookup_insert_ne. }
  destruct (byIdempotency _ _) as [existing|]; cbv zeta.
  - destruct (_ || _); intros [= _ <-]; [by left|right]. exists row. eexists. split_and!; [done..|]. apply Halt.
  - destruct (childConflict _ _ _ _); [intros [= _ <-]; by left|].
    destruct (insertOrder _ _ _); intros [= _ <-]; [|by left]. right. exists row. eexists. split_and!; [done..|]. apply Halt.
Qed.

Lemma twapStep_rows (st st' : Store D) : twapStep st st' -> rowStep P st st'.
Proof.
  destruct 1 as [job t st r st' H|id s sl att next act e t st r st' H|id s m t st r st' H|n lease t st r st' H
                |id order t st r st' H|id t st r st' H|st st' E _].
  - unfold createTwapTransaction in H. destruct (List.find _ _); [injection H as _ <-; by apply rowStep_same|].
    cbv zeta in H. destruct (Nat.leb _ _); [injection H as _ <-; by apply rowStep_same|].
    destruct (newTwapRow job t) as [row|]; [|injection H as _ <-; by apply rowStep_same].
    destruct (st_twaps st !! t_ID job) eqn:Hn; injection H as _ <-; [by apply rowStep_same|].
    intros id row0 Hr. cbn. rewrite lookup_insert_ne by congruence. eauto.
  - unfold scheduleTransaction in H. destruct (st_twaps st !! id) as [row|] eqn:Hr; [|injection H as _ <-; by apply rowStep_same].
    destruct (activeTwapStatus _) eqn:Ha; injection H as _ <-; [|by apply rowStep_same].
    eapply rowStep_insert; [done|done| |reflexivity]. apply P_active; [done|by right].
  - unfold closeTransaction in H. destruct (st_twaps st !! id) as [row|] eqn:Hr; [|injection H as _ <-; by apply rowStep_same].
    destruct (activeTwapStatus _) eqn:Ha; injection H as _ <-; [|by apply rowStep_same].
    eapply rowStep_insert; [done|done| |reflexivity]. apply P_active; [done|by left].
  - unfold leaseTwapsTransaction in H. injection H as _ <-. intros id row Hr. cbn. by apply lease_rows.
  - destruct (intent_twaps _ _ _ _ _ _ H) as [E|(row & oid & Hr & Ha & E)]; [by apply rowStep_same|].
    eapply rowStep_insert; [done|done| |exact E]. apply P_active; [done|by left].
  - unfold refreshTransaction in H. destruct (st_twaps st !! id) as [row|] eqn:Hr; [|injection H as _ <-; by apply rowStep_same].
    cbv zeta in H. destruct (numericText _) as [f|]; [|injection H as _ <-; by apply rowStep_same].
    destruct (numericText _) as [a|]; injection H as _ <-; [|by apply rowStep_same].
    eapply rowStep_insert; [done|done| |reflexivity]. apply P_progress.
  - by apply rowStep_same.
Qed.
End RowInvariant.

Definition finalRow (row row' : TwapRow) : Prop :=
  activeTwapStatus (t_Status (tw_job row)) = false ->
  t_Status (tw_job row') = t_Status (tw_job row) /\ tw_closed_at row' = tw_closed_at row /\
  t_CurrentSlice (tw_job row') = t_CurrentSlice (tw_job row) /\ t_ActiveOrderID (tw_job row') = t_ActiveOrderID (tw_job row).

Lemma finalRow_step (st st' : Store D) : twapStep st st' -> rowStep finalRow st st'.
Proof.
  apply twapStep_rows; try (by intros; intros _).
  - intros a b c Hab Hbc Ha. destruct (Hab Ha) as (E1 & E2 & E3 & E4). rewrite <- E1 in Ha.
    destruct (Hbc Ha) as (F1 & F2 & F3 & F4). split_and!; congruence.
  - intros r row' Ha _ Hf. congruence.
Qed.

(** The children of a closed job were there before. *)
Definition noNewChild (id : string) (st st' : Store D) : Prop :=
  forall oid row', st_orders st' !! oid = Some row' -> o_TwapJobID (row_order row') = id ->
    exists row, st_orders st !! oid = Some row /\ o_TwapJobID (row_order row) = id.

Lemma noNewChild_same id (st st' : Store D) : st_orders st' = st_orders st -> noNewChild id st st'.
Proof. intros E oid row' Hr. rewrite E in Hr. eauto. Qed.

Lemma step_noNewChild id row (st st' : Store D) :
  id <> ""%string -> twapStep st st' -> st_twaps st !! id = Some row ->
  activeTwapStatus (t_Status (tw_job row)) = false -> noNewChild id st st'.
Proof.
  intros Hid.
  destruct 1 as [job t st r st' H|j s sl att next act e t st r st' H|j s m t st r st' H|n lease t st r st' H
                |j order t st r st' H|j t st r st' H|st st' E Ho]; intros Hrow Hna.
  - apply noNewChild_same. unfold createTwapTransaction in H. repeat (case_match; simplify_eq/=; try done).
  - apply noNewChild_same. unfold scheduleTransaction in H. repeat (case_match; simplify_eq/=; try done).
  - apply noNewChild_same. unfold closeTransaction in H. repeat (case_match; simplify_eq/=; try done).
  - apply noNewChild_same. by injection H as _ <-.
  - unfold twapIntentTransaction in H. destruct (st_twaps st !! j) as [row0|] eqn:Hr0; [|injection H as _ <-; by apply noNewChild_same].
    destruct (decide (j = id)) as [->|Hn].
    { rewrite Hrow in Hr0. injection Hr0 as <-. rewrite Hna in H. injection H as _ <-. by apply noNewChild_same. }
    destruct (negb _); [injection H as _ <-; by apply noNewChild_same|].
    destruct (byIdempotency _ _); cbv zeta in H; [destruct (_ || _); injection H as _ <-; by apply noNewChild_same|].
    destruct (childConflict _ _ _ _); [injection H as _ <-; by apply noNewChild_same|].
    destruct (insertOrder _ _ _) as [row1|] eqn:Ei; [|injection H as _ <-; by apply noNewChild_same].
    apply insertOrder_row in Ei as (q & p & _ & _ & -> & _). injection H as _ <-.
    intros oid row' Hr'. cbn in Hr'. apply lookup_insert_Some in Hr' as [[_ <-]|[_ Hr']]; [by cbn; intros <-|eauto].
  - apply noNewChild_same. unfold refreshTransaction in H. repeat (case_match; simplify_eq/=; try done).
  - intros oid row' Hr' Hj. destruct (Ho _ _ Hr') as (r & Hr & Ej); [congruence|]. exists r. split; [done|congruence].
Qed.

(** A closed job stays closed: whatever the scheduler, the service and the
    reports on orders do after it, until it is deleted, its status, its closing
    time and its slice stay and it gets no new child order. *)
Theorem closed_twap_final (id : string) (row : TwapRow) (st st' : Store D) :
  rtc twapStep st st' -> id <> ""%string -> st_twaps st !! id = Some row ->
  activeTwapStatus (t_Status (tw_job row)) = false ->
  (exists row', st_twaps st' !! id = Some row' /\ t_Status (tw_job row') = t_Status (tw_job row) /\
     tw_closed_at row' = tw_closed_at row /\ t_CurrentSlice (tw_job row') = t_CurrentSlice (tw_job row) /\
     t_ActiveOrderID (tw_job row') = t_ActiveOrderID (tw_job row)) /\
  noNewChild id st st'.
Proof.
  intros Hrtc Hid. revert row. induction Hrtc as [st|st st1 st2 Hs _ IH]; intros row Hr Hna.
  { split; [by exists row|]. by apply noNewChild_same. }
  destruct (finalRow_step _ _ Hs _ _ Hr) as (row1 & Hr1 & Hf). destruct (Hf Hna) as (E1 & E2 & E3 & E4).
  destruct (IH row1 Hr1) as [(row2 & Hr2 & F1 & F2 & F3 & F4) Hc]; [by rewrite E1|].
  split; [exists row2; split_and!; congruence|].
  intros oid row' Hr' Hj. destruct (Hc _ _ Hr' Hj) as (r & Hr'' & Hj').
  exact (step_noNewChild _ _ _ _ Hid Hs Hr Hna _ _ Hr'' Hj').
Qed.

(** No failure of the scheduler is ever counted. *)
Definition failuresZero (st : Store D) : Prop :=
  forall id row, st_twaps st !! id = Some row -> t_SchedulerFailures (tw_job row) = 0.

Lemma twapStep_new (st st' : Store D) id row' :
  twapStep st st' -> st_twaps st !! id = None -> st_twaps st' !! id = Some row' -> t_SchedulerFailures (tw_job row') = 0.
Proof.
  assert (forall (m : gmap string TwapRow) j row1 row0, m !! id = None -> m !! j = Some row0 -> <[j := row1]> m !! id = None) as Hins.
  { intros m j row1 row0 Hn Hj. by rewrite lookup_insert_ne by congruence. }
  destruct 1 as [job t st r st' H|j s sl att next act e t st r st' H|j s m t st r st' H|n lease t st r st' H
                |j order t st r st' H|j t st r st' H|st st' E _]; intros Hn Hr'.
  - unfold createTwapTransaction in H. destruct (List.find _ _); [injection H as _ <-; congruence|].
    cbv zeta in H. destruct (Nat.leb _ _); [injection H as _ <-; congruence|].
    destruct (newTwapRow job t) as [row|] eqn:Hw; [|injection H as _ <-; congruence].
    destruct (st_twaps st !! t_ID job) eqn:Hj; injection H as _ <-; [congruence|]. cbn in Hr'.
    apply lookup_insert_Some in Hr' as [[_ <-]|[_ Hr']]; [|congruence]. unfold newTwapRow in Hw.
    destruct (numericText _); [|done]. destruct (nullableNumeric _); [|done]. destruct (nullableNumeric _); [|done].
    by injection Hw as <-.
  - unfold scheduleTransaction in H. destruct (st_twaps st !! j) as [row|] eqn:Hr; [|injection H as _ <-; congruence].
    destruct (activeTwapStatus _); injection H as _ <-; [|congruence]. cbn in Hr'. by rewrite (Hins _ _ _ _ Hn Hr) in Hr'.
  - unfold closeTransaction in H. destruct (st_twaps st !! j) as [row|] eqn:Hr; [|injection H as _ <-; congruence].
    destruct (activeTwapStatus _); injection H as _ <-; [|congruence]. cbn in Hr'. by rewrite (Hins _ _ _ _ Hn Hr) in Hr'.
  - unfold leaseTwapsTransaction in H. injection H as _ <-. cbn in Hr'. exfalso. revert Hn Hr'.
    generalize (st_twaps st). match goal with |- context [firstn ?a ?b] => generalize (firstn a b) end.
    intros rows. induction rows as [|r0 rows IH]; intros m Hn Hr'; cbn in Hr'; [congruence|].
    apply (IH _) in Hr'; [done|]. apply lookup_alter_None, Hn.
  - destruct (intent_twaps _ _ _ _ _ _ H) as [E|(row & oid & Hr & _ & E)]; rewrite E in Hr'; [congruence|].
    by rewrite (Hins _ _ _ _ Hn Hr) in Hr'.
  - unfold refreshTransaction in H. destruct (st_twaps st !! j) as [row|] eqn:Hr; [|injection H as _ <-; congruence].
    cbv zeta in H. destruct (numericText _) as [f|]; [|injection H as _ <-; congruence].
    destruct (numericText _) as [a|]; injection H as _ <-; [|congruence]. cbn in Hr'. by rewrite (Hins _ _ _ _ Hn Hr) in Hr'.
  - congruence.
Qed.

(** The back-off of the scheduler never backs off.  Its delay doubles with
    the job's count of failures, but no operation of the repository raises that
    count and every rescheduling resets it: it is zero in every reachable
    store, so [retry] always waits one second, however often the job fails. *)
Theorem twap_backoff_constant (st st' : Store D) :
  rtc twapStep st st' -> failuresZero st ->
  forall id row, st_twaps st' !! id = Some row -> twapRetryDelay (t_SchedulerFailures (tw_job row)) = Second.
Proof.
  intros Hrtc Hz. enough (failuresZero st') as Hz' by (intros id row Hr; by rewrite (Hz' _ _ Hr)).
  revert Hz. induction Hrtc as [st|st st1 st2 Hs _ IH]; [done|]. intros Hz. apply IH. clear IH st2.
  intros id row1 Hr1. destruct (st_twaps st !! id) as [row|] eqn:Hr; [|by eapply twapStep_new].
  destruct (twapStep_rows (fun r r' => t_SchedulerFailures (tw_job r') = t_SchedulerFailures (tw_job r) \/
    t_SchedulerFailures (tw_job r') = 0)) with (st := st) (st' := st1) (id := id) (row := row) as (row' & Hr' & HP); try done.
  - intros; by left.
  - intros a b c Hab Hbc. destruct Hbc as [Hbc|Hbc]; rewrite Hbc; auto.
  - intros; by left.
  - intros; by left.
  - rewrite Hr1 in Hr'. injection Hr' as <-. pose proof (Hz _ _ Hr). destruct HP; congruence.
Qed.
End TwapFinal.

(** ** Witnesses and runs *)

Section TwapWitnesses.
#[local] Existing Instance stillEnv.
#[local] Existing Instance simpleServices.

Definition runningJob : TwapJob :=
  zero_TwapJob <| t_ID := "j1"%string |> <| t_OwnerUsername := "alice"%string |> <| t_TradingAccountID := 7 |>
    <| t_Exchange := i_Exchange ruledPerp |> <| t_Side := "buy"%string |> <| t_TotalQuantity := "10"%string |>
    <| t_FilledQuantity := "0"%string |> <| t_AveragePrice := "0"%string |> <| t_LimitPrice := "100"%string |>
    <| t_StartAt := 999999000 * Second |> <| t_EndAt := 1000000600 * Second |> <| t_IntervalSeconds := 60 |>
    <| t_ExecutionType := "taker"%string |> <| t_OrderTimeoutSeconds := 10 |> <| t_Status := "running"%string |>.
(** The same job, for a maker, with the window past its end and a child at the
    venue. *)
Definition endedJob : TwapJob :=
  runningJob <| t_EndAt := 999999999 * Second |> <| t_ExecutionType := "maker"%string |> <| t_ActiveOrderID := "o1"%string |>.

Definition jobWorld (job : TwapJob) : World Dec :=
  mkWorld (openStore
    <| st_orders := {["o1"%string := openRow <| row_order := openOrder <| o_OwnerUsername := "alice"%string |>
                                                   <| o_TwapJobID := if t_ActiveOrderID job =?s "" then ""%string else "j1"%string |> |>]} |>
    <| st_twaps := {["j1"%string := mkTwapRow job None None None]} |>) 0 [].

Lemma twapSliceFireAt_window_witness :
  let f := twapSliceFireAt (D := Dec) "j1" 3 0 (600 * Second) 60 in
  sliceStartAt 0 3 60 <= f < Z.min (600 * Second) (sliceStartAt 0 3 60 + 60 * Second).
Proof.
  pose proof (twapSliceFireAt_window (D := Dec) "j1" 3 0 (600 * Second) 60) as H.
  specialize (H ltac:(lia) ltac:(lia) ltac:(vm_compute; reflexivity)). destruct H as (_ & H & _).
  apply H. vm_compute. reflexivity.
Defined.

Lemma calculateSliceQuantity_bounds_witness :
  (dval (calculateSliceQuantity (mkDec 10 0) (60 * Second)%Z (600 * Second)%Z dZero (mkDec 1 (-1)))
     <= dval (mkDec 10 0) + stepEps (mkDec 1 (-1)))%Q.
Proof.
  pose proof (calculateSliceQuantity_bounds (D := Dec) (mkDec 10 0) dZero (mkDec 1 (-1)) (60 * Second) (600 * Second)) as H.
  destruct H as (_ & H & _). apply H. vm_compute. discriminate.
Defined.

Lemma endedJob_lives : jobLives (D := Dec) "j1" (999999999 * Second) (w_store (jobWorld endedJob)).
Proof.
  exists (mkTwapRow endedJob None None None), (inject_Z 10). split; [reflexivity|]. split; [reflexivity|].
  split; [reflexivity|]. split; [|split; [reflexivity|by left]].
  split; [reflexivity|]. split; [apply qround_int; lia|]. exists (mkDec 10 0). split; [reflexivity|].
  unfold dval; cbn. change (pow10 0) with 1%Q. ring.
Qed.

Lemma advance_closes_ended_witness : jobClosed (D := Dec) "j1" (w_store (snd (advance (D := Dec) endedJob (jobWorld endedJob)))).
Proof.
  pose proof (advance_closes_ended (D := Dec) "j1" (999999999 * Second) (fun _ => eq_refl) (fun _ _ h => h) (fun _ _ h => h)
    endedJob) as H.
  destruct (RefreshTwapProgress (D := Dec) "j1" (snd (timeNow (jobWorld endedJob)))) as [[job'|e] w'] eqn:E;
    [|vm_compute in E; done].
  specialize (H job' (jobWorld endedJob) w' eq_refl ltac:(vm_compute; discriminate) endedJob_lives E). apply H. intros _.
  vm_compute in E. injection E as <- <-. eexists. vm_compute. reflexivity.
Defined.

Lemma advance_sends_within_witness :
  exists job' x, placed (snd (advance (D := Dec) runningJob (jobWorld runningJob))) = [x] /\ childOf (D := Dec) job' x.
Proof.
  destruct (RefreshTwapProgress (D := Dec) (t_ID runningJob) (snd (timeNow (jobWorld runningJob)))) as [[job'|e] w'] eqn:E;
    [|vm_compute in E; done].
  pose proof (advance_sends_within (D := Dec) runningJob job' (jobWorld runningJob) w' E) as H.
  assert (TrimSpace (t_LimitPrice job') = t_LimitPrice job') as Ht by (vm_compute in E; injection E as <- <-; reflexivity).
  specialize (H Ht). destruct H as [H|(x & H & Hc & _)]; [exfalso; clear E; vm_compute in H; discriminate H|].
  exists job', x. split; [exact H|exact Hc].
Defined.

Definition closedRow : TwapRow :=
  mkTwapRow (endedJob <| t_Status := "canceled"%string |> <| t_ActiveOrderID := ""%string |>) None None (Some (5 * Second)).
Definition closedStore : Store Dec := openStore <| st_twaps := {["j1"%string := closedRow]} |>.
Definition retried : Store Dec :=
  snd (scheduleTransaction "j1" "running" 1 0 0 "" "" 0 closedStore).

Lemma closed_twap_final_witness : exists row', st_twaps retried !! "j1"%string = Some row' /\
  t_Status (tw_job row') = "canceled"%string /\ noNewChild "j1" closedStore retried.
Proof.
  pose proof (closed_twap_final (D := Dec) "j1" closedRow closedStore retried) as H.
  assert (twapStep closedStore retried) as Hs
    by (eapply (tstep_schedule "j1" "running" 1 0 0 "" "" 0); apply surjective_pairing).
  specialize (H (rtc_once _ _ Hs) ltac:(done) ltac:(reflexivity) ltac:(reflexivity)).
  destruct H as [(row' & Hr & Hst & _) Hc]. exists row'. by split_and!.
Defined.

Lemma twap_backoff_constant_witness :
  exists row, st_twaps (w_store (jobWorld runningJob)) !! "j1"%string = Some row /\
    twapRetryDelay (t_SchedulerFailures (tw_job row)) = Second.
Proof.
  exists (mkTwapRow runningJob None None None). split; [reflexivity|].
  pose proof (twap_backoff_constant (D := Dec) (w_store (jobWorld runningJob)) (w_store (jobWorld runningJob)) (rtc_refl _ _)) as H.
  apply (H ltac:(intros id row; cbn; intros [<- <-]%lookup_singleton_Some; reflexivity) "j1"%string). reflexivity.
Defined.
End TwapWitnesses.

(** A venue that refuses to cancel. *)
Definition refusingServices : Services := {|
  catalogGet := @catalogGet simpleServices; credentialsOwner := @credentialsOwner simpleServices;
  credentialsGet := @credentialsGet simpleServices; credentialsInternal := @credentialsInternal simpleServices;
  adapterKnown _ := true; adapterCapabilities := @adapterCapabilities simpleServices;
  adapterClientID := @adapterClientID simpleServices; adapterBBO := @adapterBBO simpleServices;
  adapterPlace := @adapterPlace simpleServices;
  adapterCancel _ _ _ _ := (zero_VenueResult, Some (mkError [ErrRateLimited] "rate limited"));
  adapterQuery := @adapterQuery simpleServices; orderStreamsConfigured := false; uuidParses s := negb (s =?s "")
|}.

(** The end of a maker job can leave its order at the venue.  When the
    window has ended the scheduler asks for the cancellation of the active
    order but ignores the error: here the venue is rate limited, the job is
    closed all the same and forgets the order, which stays open. *)
Theorem ended_job_leaves_order_open :
  let w := snd (advance (D := Dec) (svc := refusingServices) (Env0 := stillEnv) endedJob (jobWorld endedJob)) in
  (exists row, st_twaps (w_store w) !! "j1"%string = Some row /\
     t_Status (tw_job row) = "partially_completed"%string /\ t_ActiveOrderID (tw_job row) = ""%string) /\
  exists row, st_orders (w_store w) !! "o1"%string = Some row /\ o_Status (row_order row) = "open"%string /\
    terminalStatus (o_Status (row_order row)) = false.
Proof. split; (eexists; split; [vm_compute; reflexivity|]); vm_compute; done. Qed.
