(* ===== verification/ArbStore.v ===== *)
(** * The arbitrage repository (arbitrage_repository.go)

    Combinations and their executions: claiming an execution, writing its
    progress and its hedge orders, recomputing the ledger positions from the
    fills, counting failures and opening the circuit, and moving a combination
    through its life and a one-shot through its phases.  Every operation is a
    transaction on [Store]: an [UPDATE ... WHERE ... RETURNING] is [updateCombination]
    or [updateExecution] with its condition and its assignments. *)
From Stdlib Require Import ZArith QArith Qabs Lqa String Ascii.
From stdpp Require Import base strings list gmap sorting.
From S2P Require Import Prelude Decimal DecimalRef Types Quantity Validate ArbMath ArbSize ArbHedge Resolution FillAverage OneShotExit Store OrderStore OrderService.

#[local] Set Warnings "-clear-no-such-hyp".

(** ** Columns *)

(** [CASE WHEN column IN ('-infinity','infinity') THEN 'epoch' ELSE column END]. *)
Definition finiteOrEpoch (t : PgInstant) : GoTime := match t with At t => t | _ => unixEpoch end.

Definition zeroString (value : string) : string := if value =?s "" then "0" else value.

Definition arbitrageRuntimeStates : list string :=
  ["monitoring"; "maker_open"; "maker_canceling"; "repricing"; "opportunity_gone"; "hedging"; "hedge_deferred_dust";
   "reconciling"; "backoff"; "position_uncertain"; "manual_intervention"; "closing"]%string.

Definition arbitrageRuntimeState (value : string) : string :=
  if existsb (String.eqb value) arbitrageRuntimeStates then value else "monitoring".

(** [nullableArbitrageTimestamp]. *)
Definition nullableArbitrageTimestamp (t : GoTime) : option GoTime :=
  if IsZeroTime t || TimeEqual t unixEpoch then None else Some t.

(** [status IN ('running','closing')]. *)
Definition liveCombination (c : ArbitrageCombination) : bool :=
  (c_Status c =?s "running") || (c_Status c =?s "closing").

(** The cast of a double to [integer], when it fits. *)
Definition castInt (z : Z) : option Z := if (- 2 ^ 31 <=? z) && (z <? 2 ^ 31) then Some z else None.

Definition errOverflow : GoError := errPlain "numeric field overflow".
Definition errIntegerRange : GoError := errPlain "integer out of range".

Section ArbStore.
Context {D : Type} `{!Decimal D} `{!Postgres D} `{!Env D}.
Local Open Scope dec_scope.

(** [arbitrageCombinationColumns]; [carry_base_quantity] is generated from the
    two positions. *)
Definition carryColumn (c : ArbitrageCombination) : D :=
  parseDecimal (c_LegABasePosition c) + parseDecimal (c_LegBBasePosition c).

Definition scanCombination (r : CombinationRow) : ArbitrageCombination :=
  let c := cb_item r in
  c <| c_CarryBaseQuantity := dString (carryColumn c) |>
    <| c_LegAVenueBasePosition := zeroString (c_LegAVenueBasePosition c) |>
    <| c_LegBVenueBasePosition := zeroString (c_LegBVenueBasePosition c) |>
    <| c_LegAPositionDifference := zeroString (c_LegAPositionDifference c) |>
    <| c_LegBPositionDifference := zeroString (c_LegBPositionDifference c) |>
    <| c_LegAReconciliationAdjustment := zeroString (c_LegAReconciliationAdjustment c) |>
    <| c_LegBReconciliationAdjustment := zeroString (c_LegBReconciliationAdjustment c) |>
    <| c_VenueBaselineCapturedAt := orEpoch (cb_venue_baseline_captured_at r) |>
    <| c_LastPositionReconciledAt := orEpoch (cb_last_position_reconciled_at r) |>
    <| c_NextRetryAt := finiteOrEpoch (cb_next_retry_at r) |>
    <| c_SchedulerLeaseUntil := finiteOrEpoch (cb_scheduler_lease_until r) |>
    <| c_ClosedAt := orEpoch (cb_closed_at r) |>
    <| c_TargetReachedAt := orEpoch (cb_target_reached_at r) |>
    <| c_ScheduledExitAt := orEpoch (cb_scheduled_exit_at r) |>
    <| c_MetricsCalculatedAt := orEpoch (cb_metrics_calculated_at r) |>
    <| c_FinalMetricsNextRetryAt := finiteOrEpoch (cb_final_metrics_next_retry_at r) |>
    <| c_FinalMetricsRetryFinite := match cb_final_metrics_next_retry_at r with PosInfinity => false | _ => true end |>
    <| c_FinalMetricsCompletedAt := orEpoch (cb_final_metrics_completed_at r) |>.

(** [arbitrageExecutionColumns]. *)
Definition scanExecution (r : ExecutionRow) : ArbitrageExecution :=
  (ex_item r) <| x_ClosedAt := orEpoch (ex_closed_at r) |>.

(** ** The rows of a combination *)

Definition executionRows (st : Store D) (id : string) : list ExecutionRow :=
  List.filter (fun r => x_CombinationID (ex_item r) =?s id) (map snd (map_to_list (st_executions st))).

Definition activeExecution (r : ExecutionRow) : bool := negb (terminalArbitrageExecutionStatus (x_Status (ex_item r))).

Definition hasActiveExecution (st : Store D) (id : string) : bool := existsb activeExecution (executionRows st id).

(** [trader_orders o JOIN trader_arbitrage_executions e ON
    e.id=o.arbitrage_execution_id WHERE e.combination_id=$1]. *)
Definition combinationOrders (st : Store D) (id : string) : list OrderRow :=
  List.filter (fun r => match st_executions st !! o_ArbitrageExecutionID (row_order r) with
                        | Some e => x_CombinationID (ex_item e) =?s id
                        | None => false
                        end) (map snd (map_to_list (st_orders st))).

Definition hasLiveOrder (st : Store D) (id : string) : bool :=
  existsb (fun r => negb (terminalStatus (o_Status (row_order r)))) (combinationOrders st id).

(** A live order that has filled. *)
Definition hasLiveFilledOrder (st : Store D) (id : string) : bool :=
  existsb (fun r => dIsPositive (parseDecimal (D := D) (o_FilledQuantity (row_order r))) &&
                    negb (terminalStatus (o_Status (row_order r)))) (combinationOrders st id).

(** [UPDATE trader_arbitrage_combinations SET ... WHERE id=$1 AND ... RETURNING]:
    no row, or the assigned row, or the error of an assignment. *)
Definition updateCombination (id : string) (cond : CombinationRow -> bool)
    (assign : CombinationRow -> Result CombinationRow) (st : Store D) : Result (option ArbitrageCombination) * Store D :=
  match st_combinations st !! id with
  | Some row =>
      if cond row then
        match assign row with
        | Ok row' => (Ok (Some (scanCombination row')), st <| st_combinations := <[id := row']> (st_combinations st) |>)
        | Err e => (Err e, st)
        end
      else (Ok None, st)
  | None => (Ok None, st)
  end.

(** [version=version+1,updated_at=now()]. *)
Definition touch (dbnow : GoTime) (r : CombinationRow) : CombinationRow :=
  r <| cb_item := (cb_item r) <| c_Version := (c_Version (cb_item r) + 1)%Z |> <| c_UpdatedAt := dbnow |> |>.

Definition orNotFound (m : M D (Result (option ArbitrageCombination))) : M D (Result ArbitrageCombination) :=
  do r <- m;
  ret (match r with Err e => Err e | Ok None => Err errNotFound | Ok (Some c) => Ok c end).

(** [ErrNoRows] is [false]; the event is written after the statement and its
    error ignored. *)
Definition AppendArbitrageEvent (id executionID eventType : string) : M D (Result unit) :=
  sql (fun _ st => match st_combinations st !! id with
                   | Some _ => (Ok tt, st <| st_arbitrageEvents := st_arbitrageEvents st ++ [(id, executionID, eventType)] |>)
                   | None => (Err (errPlain "foreign key"), st)
                   end).

Definition orUnmarked (id eventType : string) (m : M D (Result (option ArbitrageCombination)))
    : M D (Result (ArbitrageCombination * bool)) :=
  do r <- m;
  match r with
  | Err e => ret (Err e)
  | Ok None => ret (Ok (zero_ArbitrageCombination, false))
  | Ok (Some c) => run AppendArbitrageEvent id "" eventType; ret (Ok (c, true))
  end.

(** ** Failures and the circuit *)

Definition circuitTrips (key : string) (c : ArbitrageCombination) : bool :=
  (c_LastFailureKey c =?s key) && (5 <=? c_RepeatedFailureCount c + 1)%Z.

Definition countFailure (key message : string) (c : ArbitrageCombination) : ArbitrageCombination :=
  c <| c_ErrorMessage := message |> <| c_ConsecutiveFailures := (c_ConsecutiveFailures c + 1)%Z |>
    <| c_RepeatedFailureCount := if c_LastFailureKey c =?s key then (c_RepeatedFailureCount c + 1)%Z else 1%Z |>
    <| c_LastFailureKey := key |>.

(** [LEAST(60, (2 * POWER(2, consecutive_failures))::int)]: the cast comes
    before the minimum. *)
Definition failureSeconds (failures : Z) : option Z :=
  match castInt (2 * 2 ^ failures) with Some s => Some (Z.min 60 s) | None => None end.

Definition recordFailure (message : string) (dbnow : GoTime) (r : CombinationRow) : Result CombinationRow :=
  let c := cb_item r in
  let key := truncateMessage message in
  let opened := c_CircuitOpen c || circuitTrips key c in
  let counted := countFailure key (truncateMessage message) c in
  if opened then
    Ok (touch dbnow (r <| cb_item := counted <| c_CircuitOpen := if circuitTrips key c then true else c_CircuitOpen c |>
                                        <| c_RuntimeState := "manual_intervention"%string |> |>
                       <| cb_next_retry_at := PosInfinity |>))
  else match failureSeconds (c_ConsecutiveFailures c) with
       | None => Err errIntegerRange
       | Some secs =>
           Ok (touch dbnow (r <| cb_item := counted <| c_RuntimeState := "backoff"%string |> |>
                              <| cb_next_retry_at := At (TimeAdd dbnow (secs * Second)%Z) |>))
       end.

Definition failureTransaction (id message : string) (dbnow : GoTime) : Store D -> Result (option ArbitrageCombination) * Store D :=
  updateCombination id (fun r => liveCombination (cb_item r)) (recordFailure message dbnow).

Definition RecordArbitrageFailure (id message : string) : M D (Result ArbitrageCombination) :=
  orNotFound (sql (failureTransaction id message)).

Definition closeFailureSeconds (failures : Z) : Z :=
  if (failures =? 0)%Z then 2%Z else if (failures =? 1)%Z then 4%Z else if (failures =? 2)%Z then 8%Z
  else if (failures =? 3)%Z then 16%Z else if (failures =? 4)%Z then 30%Z else 60%Z.

Definition recordCloseFailure (failureKey message : string) (dbnow : GoTime) (r : CombinationRow) : Result CombinationRow :=
  let c := cb_item r in
  let key := truncateMessage failureKey in
  let c' := countFailure key (truncateMessage message) c in
  let c' := c' <| c_RuntimeState := if c_Status c =?s "closing" then "closing"%string else "backoff"%string |> in
  let c' := if key =?s "final_metrics_not_ready"
            then c' <| c_CombinedPositionAnnualized := ""%string |> <| c_MetricsQuality := "partial"%string |> else c' in
  Ok (touch dbnow (r <| cb_item := c' |>
        <| cb_next_retry_at := At (TimeAdd dbnow (closeFailureSeconds (c_ConsecutiveFailures c) * Second)%Z) |>)).

Definition closeFailureApplies (r : CombinationRow) : bool :=
  let c := cb_item r in
  negb (c_PositionUncertain c) && negb (c_RuntimeState c =?s "manual_intervention") &&
  ((c_Status c =?s "closing") ||
   ((c_Status c =?s "running") && (c_RunMode c =?s "one_shot") && (c_OneShotPhase c =?s "exiting"))).

Definition closeFailureTransaction (id failureKey message : string) (dbnow : GoTime)
    : Store D -> Result (option ArbitrageCombination) * Store D :=
  updateCombination id closeFailureApplies (recordCloseFailure failureKey message dbnow).

Definition RecordArbitrageCloseFailure (id failureKey message : string) : M D (Result ArbitrageCombination) :=
  orNotFound (sql (closeFailureTransaction id failureKey message)).

(** The assignments that forget the failures. *)
Definition forgetFailures (r : CombinationRow) : CombinationRow :=
  r <| cb_item := (cb_item r) <| c_ConsecutiveFailures := 0%Z |> <| c_LastFailureKey := ""%string |>
                    <| c_RepeatedFailureCount := 0%Z |> |>
    <| cb_next_retry_at := NegInfinity |>.

Definition clearFailureTransaction (id expectedError : string) (dbnow : GoTime)
    : Store D -> Result (option ArbitrageCombination) * Store D :=
  updateCombination id
    (fun r => let c := cb_item r in
       (c_ErrorMessage c =?s expectedError) && negb (c_PositionUncertain c) && negb (c_CircuitOpen c) &&
       negb (existsb (String.eqb (c_RuntimeState c)) ["manual_intervention"; "position_uncertain"]%string))
    (fun r => let r := forgetFailures r in
       Ok (touch dbnow (r <| cb_item := (cb_item r) <| c_ErrorMessage := ""%string |>
          <| c_RuntimeState := if c_RuntimeState (cb_item r) =?s "backoff" then "monitoring"%string
                               else c_RuntimeState (cb_item r) |> |>))).

Definition ClearArbitrageFailureIfUnchanged (id expectedError : string) : M D (Result ArbitrageCombination) :=
  orNotFound (sql (clearFailureTransaction id expectedError)).

(** ** The runtime state *)

(** [NULLIF($n,'')::numeric] into a column without bounds. *)
Definition nullableAny (s : string) : option string := if s =?s "" then Some ""%string else numericAny (D := D) s.

Definition finishedStatus (s : string) : bool := (s =?s "closed") || (s =?s "failed").

(** The state a worker may not overwrite. *)
Definition runtimeKept (item : ArbitrageCombination) (c : ArbitrageCombination) : bool :=
  negb (finishedStatus (c_Status item)) && negb (c_PositionUncertain item) &&
  ((c_RuntimeState c =?s "closing") || (c_RuntimeState c =?s "manual_intervention")) &&
  negb (arbitrageRuntimeState (c_RuntimeState item) =?s c_RuntimeState c).

Definition writeRuntime (item : ArbitrageCombination) (dbnow : GoTime) (r : CombinationRow) : Result CombinationRow :=
  let c := cb_item r in
  let status := c_Status item in
  let runtime := arbitrageRuntimeState (c_RuntimeState item) in
  let writes := c_PositionUncertain item || negb (c_PositionUncertain c) in
  match nullableAny (c_CurrentAskSpreadBps item), nullableAny (c_CurrentBidSpreadBps item) with
  | Some ask, Some bid =>
      let c' := c
        <| c_Status := if ((c_Status c =?s "closing") || finishedStatus (c_Status c)) && (status =?s "running")
                       then c_Status c else status |>
        <| c_CurrentAskSpreadBps := ask |> <| c_CurrentBidSpreadBps := bid |>
        <| c_MarketDataStale := c_MarketDataStale item |>
        <| c_ErrorMessage := if runtimeKept item c then c_ErrorMessage c
                             else if writes then c_ErrorMessage item else c_ErrorMessage c |>
        <| c_RuntimeState := if runtimeKept item c then c_RuntimeState c
                             else if writes then runtime else c_RuntimeState c |>
        <| c_PositionUncertain := c_PositionUncertain c || c_PositionUncertain item |>
        <| c_CircuitOpen := if status =?s "closed" then false
                            else c_CircuitOpen c || (runtime =?s "manual_intervention") |> in
      let r := r <| cb_item := c' |>
                 <| cb_closed_at := if finishedStatus status then Some (default dbnow (cb_closed_at r)) else cb_closed_at r |> in
      Ok (touch dbnow (if status =?s "closed" then forgetFailures r else r))
  | _, _ => Err errOverflow
  end.

Definition runtimeTransaction (item : ArbitrageCombination) (dbnow : GoTime)
    : Store D -> Result (option ArbitrageCombination) * Store D :=
  updateCombination (c_ID item) (fun _ => true) (writeRuntime item dbnow).

Definition UpdateArbitrageCombinationRuntime (item : ArbitrageCombination) : M D (Result ArbitrageCombination) :=
  orNotFound (sql (runtimeTransaction item)).

Definition snapshotTransaction (id askSpread bidSpread : string) (stale : bool) (dbnow : GoTime) (st : Store D)
    : Result (option ArbitrageCombination) * Store D :=
  updateCombination id (fun r => liveCombination (cb_item r))
    (fun r => let c := cb_item r in
       match nullableAny askSpread, nullableAny bidSpread with
       | Some ask, Some bid =>
           let idle := negb (existsb (String.eqb (c_RuntimeState c))
             ["backoff"; "hedge_deferred_dust"; "position_uncertain"; "manual_intervention"; "closing"]%string) &&
             negb (hasActiveExecution st id) in
           Ok (r <| cb_item := c <| c_CurrentAskSpreadBps := ask |> <| c_CurrentBidSpreadBps := bid |>
                    <| c_MarketDataStale := stale |> <| c_UpdatedAt := dbnow |>
                    <| c_RuntimeState := if idle then "monitoring"%string else c_RuntimeState c |> |>)
       | _, _ => Err errOverflow
       end) st.

Definition UpdateArbitrageMarketSnapshot (id askSpread bidSpread : string) (stale : bool) : M D (Result ArbitrageCombination) :=
  orNotFound (sql (snapshotTransaction id askSpread bidSpread stale)).

(** ** Position notional *)

Definition deltaTransaction (id delta : string) (dbnow : GoTime) : Store D -> Result (option ArbitrageCombination) * Store D :=
  updateCombination id (fun r => liveCombination (cb_item r))
    (fun r => let c := cb_item r in
       match numericAny (D := D) delta with
       | None => Err errOverflow
       | Some delta =>
           let delta := parseDecimal (D := D) delta in
           match numericAny (D := D) (dString (parseDecimal (c_PositionNotional c) + delta)),
                 numericAny (D := D) (dString (parseDecimal (c_CumulativeTurnoverNotional c) + dAbs delta)) with
           | Some position, Some turnover =>
               Ok (touch dbnow (r <| cb_item := c <| c_PositionNotional := position |>
                     <| c_CumulativeTurnoverNotional := turnover |> <| c_ConsecutiveFailures := 0%Z |>
                     <| c_ErrorMessage := if c_PositionUncertain c then c_ErrorMessage c else ""%string |> |>
                     <| cb_next_retry_at := NegInfinity |>))
           | _, _ => Err errOverflow
           end
       end).

Definition AddArbitragePositionDelta (id delta : string) : M D (Result ArbitrageCombination) :=
  orNotFound (sql (deltaTransaction id delta)).

(** The paired position at a mark price, positive when leg A is long. *)
Definition pairedNotional (c : ArbitrageCombination) (mark : D) : D :=
  let a := parseDecimal (c_LegABasePosition c) in
  let b := parseDecimal (c_LegBBasePosition c) in
  if dIsPositive a && dIsNegative b then dMin a (dNeg b) * mark
  else if dIsNegative a && dIsPositive b then dNeg (dMin (dNeg a) b) * mark
  else dZero.

Definition fromBaseTransaction (id mark turnoverDelta : string) (dbnow : GoTime)
    : Store D -> Result (option ArbitrageCombination) * Store D :=
  updateCombination id (fun r => liveCombination (cb_item r))
    (fun r => let c := cb_item r in
       match numericAny (D := D) mark, numericAny (D := D) turnoverDelta with
       | Some mark, Some delta =>
           match numericAny (D := D) (dString (pairedNotional c (parseDecimal mark))),
                 numericAny (D := D) (dString (parseDecimal (c_CumulativeTurnoverNotional c) + dAbs (parseDecimal delta))) with
           | Some position, Some turnover =>
               let r := forgetFailures r in
               Ok (touch dbnow (r <| cb_item := (cb_item r) <| c_PositionNotional := position |>
                     <| c_CumulativeTurnoverNotional := turnover |> <| c_CircuitOpen := false |>
                     <| c_ErrorMessage := if c_PositionUncertain c then c_ErrorMessage c else ""%string |> |>))
           | _, _ => Err errOverflow
           end
       | _, _ => Err errOverflow
       end).

Definition UpdateArbitragePositionFromBase (id mark turnoverDelta : string) : M D (Result ArbitrageCombination) :=
  orNotFound (sql (fromBaseTransaction id mark turnoverDelta)).
End ArbStore.

(** ** The life of a combination and the phases of a one-shot *)

Section ArbLife.
Context {D : Type} `{!Decimal D} `{!Postgres D} `{!Env D}.
Local Open Scope dec_scope.

Definition markClosing (dbnow : GoTime) (r : CombinationRow) : Result CombinationRow :=
  let status := c_Status (cb_item r) in
  let starts := (status =?s "running") || (status =?s "failed") in
  let r1 := if starts
            then let r := forgetFailures r in
                 r <| cb_item := (cb_item r) <| c_Status := "closing"%string |> <| c_RuntimeState := "closing"%string |>
                                   <| c_ErrorMessage := ""%string |> <| c_CircuitOpen := false |> |>
            else r in
  Ok (touch dbnow (r1 <| cb_scheduler_lease_until := NegInfinity |>
                      <| cb_closed_at := if status =?s "failed" then None else cb_closed_at r |>)).

Definition closingTransaction (owner id : string) (dbnow : GoTime) : Store D -> Result (option ArbitrageCombination) * Store D :=
  updateCombination id (fun r => c_OwnerUsername (cb_item r) =?s owner) (markClosing dbnow).

Definition MarkArbitrageClosing (owner id : string) : M D (Result ArbitrageCombination) :=
  do r <- orNotFound (sql (closingTransaction owner id));
  match r with
  | Err e => ret (Err e)
  | Ok c => run AppendArbitrageEvent id "" "closing"; ret (Ok c)
  end.

(** [id=$1 AND version=$2 AND status='running' AND run_mode='one_shot']. *)
Definition oneShotAt (version : Z) (r : CombinationRow) : bool :=
  let c := cb_item r in
  (c_Version c =? version)%Z && (c_Status c =?s "running") && (c_RunMode c =?s "one_shot").

Definition inPhase (phases : list string) (r : CombinationRow) : bool :=
  existsb (String.eqb (c_OneShotPhase (cb_item r))) phases.

(** [NOT position_uncertain AND runtime_state<>'manual_intervention']. *)
Definition unattended (r : CombinationRow) : bool :=
  negb (c_PositionUncertain (cb_item r)) && negb (c_RuntimeState (cb_item r) =?s "manual_intervention").

Definition waitingExitTransaction (id : string) (version : Z) (scheduledExitAt dbnow : GoTime)
    : Store D -> Result (option ArbitrageCombination) * Store D :=
  updateCombination id
    (fun r => oneShotAt version r && inPhase ["building_target"%string] r)
    (fun r => Ok (touch dbnow (r <| cb_item := (cb_item r) <| c_OneShotPhase := "waiting_exit"%string |> |>
        <| cb_target_reached_at := Some dbnow |>
        <| cb_scheduled_exit_at := coalesce (cb_scheduled_exit_at r)
             (timestamptz (D := D) <$> nullableArbitrageTimestamp scheduledExitAt) |>))).

Definition MarkOneShotWaitingExit (id : string) (version : Z) (scheduledExitAt : GoTime)
    : M D (Result (ArbitrageCombination * bool)) :=
  orUnmarked id "one_shot_waiting_exit" (sql (waitingExitTransaction id version scheduledExitAt)).

(** A comparison with a [NULL] is not true. *)
Definition numericLe (a b : string) : bool :=
  negb (a =?s "") && negb (b =?s "") && (parseDecimal (D := D) a <=? parseDecimal b).

Definition exitReasonHolds (reason : string) (dbnow : GoTime) (r : CombinationRow) : bool :=
  let c := cb_item r in
  if reason =?s "time" then match cb_scheduled_exit_at r with Some t => (t <=? dbnow)%Z | None => false end
  else if reason =?s "annualized" then negb (c_ExitAnnualizedRate c =?s "")
  else if reason =?s "funding_8h_floor" then negb (c_EarlyExitFunding8hAnnualizedFloor c =?s "")
  else if reason =?s "liquidation_distance_threshold" then
    numericLe (c_LegALiquidationDistancePct c) (c_EarlyExitLiquidationDistancePct c) ||
    numericLe (c_LegBLiquidationDistancePct c) (c_EarlyExitLiquidationDistancePct c)
  else false.

(** No execution is active and no live order has filled. *)
Definition quietForExit (st : Store D) (id : string) : bool :=
  negb (hasActiveExecution st id) && negb (hasLiveFilledOrder st id).

Definition exitReasons : list string :=
  ["annualized"; "time"; "funding_8h_floor"; "liquidation_distance_threshold"]%string.

Definition startExit (dbnow : GoTime) (r : CombinationRow) : Result CombinationRow :=
  Ok (touch dbnow (r <| cb_item := (cb_item r) <| c_OneShotPhase := "exiting"%string |> |>)).

Definition exitingTransaction (id : string) (version : Z) (reason : string) (dbnow : GoTime) (st : Store D)
    : Result (option ArbitrageCombination) * Store D :=
  updateCombination id
    (fun r => oneShotAt version r && inPhase ["building_target"; "waiting_exit"]%string r &&
              exitReasonHolds reason dbnow r && unattended r && quietForExit st id)
    (startExit dbnow) st.

Definition MarkOneShotExiting (id : string) (version : Z) (reason : string) : M D (Result (ArbitrageCombination * bool)) :=
  let reason := ToLower (TrimSpace reason) in
  if negb (existsb (String.eqb reason) exitReasons) then ret (Err errInvalidArgument)
  else orUnmarked id "one_shot_exit_started" (sql (exitingTransaction id version reason)).

(** [column = $n::numeric]. *)
Definition numericEq (column : string) (value : D) : bool :=
  negb (column =?s "") && dEqual (parseDecimal column) value.

(** What the guard saw is still what the row says. *)
Definition guardUnchanged (g : oneShotAnnualizedExitGuard D) (r : CombinationRow) : bool :=
  let c := cb_item r in
  numericEq (c_ExitAnnualizedRate c) (g_ExitAnnualizedRate g) &&
  (orEpoch (cb_metrics_calculated_at r) =? timestamptz (D := D) (annualizedExitClock (g_CalculatedAt g)))%Z &&
  numericEq (c_LegABasePosition c) (g_ComboA g) && numericEq (c_LegBBasePosition c) (g_ComboB g) &&
  numericEq (c_LegAAverageEntryPrice c) (g_AvgA g) && numericEq (c_LegBAverageEntryPrice c) (g_AvgB g) &&
  numericEq (zeroString (c_LegAVenueBaselineBasePosition c)) (g_BaselineA g) &&
  numericEq (zeroString (c_LegBVenueBaselineBasePosition c)) (g_BaselineB g) &&
  (orEpoch (cb_venue_baseline_captured_at r) =? timestamptz (D := D) (annualizedExitClock (g_BaselineCapturedAt g)))%Z &&
  numericEq (zeroString (c_LegAVenueBasePosition c)) (g_VenueA g) &&
  numericEq (zeroString (c_LegBVenueBasePosition c)) (g_VenueB g) &&
  numericEq (zeroString (c_LegAPositionDifference c)) (g_DifferenceA g) &&
  numericEq (zeroString (c_LegBPositionDifference c)) (g_DifferenceB g).

Definition annualizedExitTransaction (g : oneShotAnnualizedExitGuard D) (dbnow : GoTime) (st : Store D)
    : Result (option ArbitrageCombination) * Store D :=
  let id := g_CombinationID g in
  updateCombination id
    (fun r => (c_Status (cb_item r) =?s "running") && (c_RunMode (cb_item r) =?s "one_shot") &&
              inPhase ["building_target"; "waiting_exit"]%string r && guardUnchanged g r && unattended r &&
              quietForExit st id)
    (startExit dbnow) st.

Definition MarkOneShotAnnualizedExiting (g : oneShotAnnualizedExitGuard D) : M D (Result (ArbitrageCombination * bool)) :=
  let id := g_CombinationID g in
  if (TrimSpace id =?s "") || negb (dIsPositive (g_ExitAnnualizedRate g)) then ret (Err errInvalidArgument)
  else orUnmarked id "one_shot_exit_started" (sql (annualizedExitTransaction g)).

(** Neither an execution nor an order of the combination is live. *)
Definition nothingLive (st : Store D) (id : string) : bool :=
  negb (hasActiveExecution st id) && negb (hasLiveOrder st id).

Definition metricsCompleted (r : CombinationRow) : bool := c_FinalMetricsStatus (cb_item r) =?s "completed".

Definition exitedTransaction (id : string) (version : Z) (dbnow : GoTime) (st : Store D)
    : Result (option ArbitrageCombination) * Store D :=
  updateCombination id
    (fun r => let c := cb_item r in
       oneShotAt version r && inPhase ["exiting"%string] r && unattended r &&
       dIsZero (parseDecimal (D := D) (c_LegABasePosition c)) && dIsZero (parseDecimal (D := D) (c_LegBBasePosition c)) &&
       dIsZero (carryColumn (D := D) c) && nothingLive st id)
    (fun r => let done := metricsCompleted r in
       Ok (touch dbnow (r <| cb_item := (cb_item r) <| c_OneShotPhase := "exited"%string |>
            <| c_FinalMetricsStatus := if done then "completed"%string else "pending"%string |> |>
            <| cb_final_metrics_next_retry_at := if done then cb_final_metrics_next_retry_at r else At dbnow |>))) st.

Definition MarkOneShotExited (id : string) (version : Z) : M D (Result (ArbitrageCombination * bool)) :=
  orUnmarked id "one_shot_exit_completed" (sql (exitedTransaction id version)).

Definition dustTransaction (id : string) (version : Z) (wantA wantB wantCarry : D) (dbnow : GoTime) (st : Store D)
    : Result (option ArbitrageCombination) * Store D :=
  updateCombination id
    (fun r => let c := cb_item r in
       let a := parseDecimal (c_LegABasePosition c) in
       let b := parseDecimal (c_LegBBasePosition c) in
       oneShotAt version r && inPhase ["exiting"%string] r && unattended r && negb (c_CircuitOpen c) &&
       negb (dIsZero (carryColumn c)) && dEqual (carryColumn c) (a + b) &&
       dEqual a wantA && dEqual b wantB && dEqual (carryColumn c) wantCarry &&
       ((negb (dIsZero a) && dIsZero b) || (dIsZero a && negb (dIsZero b))) && nothingLive st id)
    (fun r => let done := metricsCompleted r in
       Ok (touch dbnow (r <| cb_item := (cb_item r) <| c_OneShotPhase := "exited"%string |>
            <| c_FinalMetricsStatus := if done then "completed"%string else "partial"%string |>
            <| c_FinalMetricsLastError := if done then c_FinalMetricsLastError (cb_item r)
                                          else "one_shot_dust_metrics_skipped"%string |> |>
            <| cb_final_metrics_next_retry_at := if done then cb_final_metrics_next_retry_at r else PosInfinity |>
            <| cb_final_metrics_completed_at := if done then cb_final_metrics_completed_at r else None |>))) st.

Definition MarkOneShotExitedWithDust (id : string) (version : Z) (expectedA expectedB expectedCarry : string)
    : M D (Result (ArbitrageCombination * bool)) :=
  match dNewFromString (D := D) (TrimSpace expectedA), dNewFromString (D := D) (TrimSpace expectedB),
        dNewFromString (D := D) (TrimSpace expectedCarry) with
  | Some wantA, Some wantB, Some wantCarry =>
      orUnmarked id "one_shot_exited_with_dust" (sql (dustTransaction id version wantA wantB wantCarry))
  | _, _, _ => ret (Err errInvalidArgument)
  end.

(** [MarkArbitrageClosedAndScheduleFinalMetrics], arbitrage_position_metrics_final.go;
    the columns that depend on [position_uncertain] do not here, since the
    condition excludes it. *)
Definition closedRowOf (dbnow : GoTime) (r : CombinationRow) : CombinationRow :=
  let done := metricsCompleted r in
  let r1 := forgetFailures r in
  let c := cb_item r1 in
  touch dbnow (r1 <| cb_item := c <| c_Status := "closed"%string |> <| c_MarketDataStale := true |>
      <| c_RuntimeState := "monitoring"%string |> <| c_ErrorMessage := ""%string |>
      <| c_OneShotPhase := if c_RunMode c =?s "one_shot" then "exited"%string else c_OneShotPhase c |>
      <| c_FinalMetricsStatus := if done then "completed"%string else "pending"%string |> |>
      <| cb_closed_at := Some dbnow |>
      <| cb_final_metrics_next_retry_at := if done then cb_final_metrics_next_retry_at r else At dbnow |>).

Definition closedTransaction (id : string) (version : Z) (dbnow : GoTime) (st : Store D)
    : Result (option ArbitrageCombination) * Store D :=
  updateCombination id
    (fun r => let c := cb_item r in
       (c_Version c =? version)%Z && (c_Status c =?s "closing") && unattended r &&
       dIsZero (parseDecimal (D := D) (c_LegABasePosition c)) && dIsZero (parseDecimal (D := D) (c_LegBBasePosition c)) &&
       dIsZero (carryColumn (D := D) c) && nothingLive st id)
    (fun r => Ok (closedRowOf dbnow r)) st.

Definition MarkArbitrageClosedAndScheduleFinalMetrics (id : string) (version : Z) : M D (Result (ArbitrageCombination * bool)) :=
  do r <- sql (closedTransaction id version);
  ret (match r with
       | Err e => Err e
       | Ok None => Ok (zero_ArbitrageCombination, false)
       | Ok (Some c) => Ok (c, true)
       end).

Definition ArbitrageDustOrderGate (id : string) (reconciledAt : GoTime) : M D (Result (bool * bool * bool)) :=
  sql (fun _ st => (Ok (hasLiveOrder st id,
    existsb (fun r => TimeAfter (o_UpdatedAt (row_order r)) (timestamptz (D := D) reconciledAt)) (combinationOrders st id),
    hasActiveExecution st id), st)).

Definition HasUnfinishedArbitrageWork (id : string) : M D (Result bool) :=
  sql (fun _ st => (Ok (hasActiveExecution st id || hasLiveOrder st id), st)).

(** ** Leases *)

Definition leaseFree (dbnow : GoTime) (r : CombinationRow) : bool :=
  match cb_scheduler_lease_until r with NegInfinity => true | At t => (t <=? dbnow)%Z | PosInfinity => false end.

(** [ORDER BY updated_at,id]. *)
Definition updatedBefore (a b : CombinationRow) : Prop :=
  let '(ta, tb) := (c_UpdatedAt (cb_item a), c_UpdatedAt (cb_item b)) in
  (ta <? tb)%Z || ((ta =? tb)%Z && negb (String.ltb (c_ID (cb_item b)) (c_ID (cb_item a)))) = true.
#[local] Instance updatedBefore_dec : RelDecision updatedBefore := fun a b => decide (_ = true).

Definition leaseCombinations (limit : Z) (lease : Duration) (dbnow : GoTime) (st : Store D)
    : Result (list ArbitrageCombination) * Store D :=
  let due := List.filter (fun r => liveCombination (cb_item r) && leaseFree dbnow r) (map snd (map_to_list (st_combinations st))) in
  let rows := firstn (Z.to_nat limit) (merge_sort updatedBefore due) in
  let leased r := r <| cb_item := (cb_item r) <| c_UpdatedAt := dbnow |> |>
                    <| cb_scheduler_lease_until := At (TimeAdd dbnow lease) |> in
  (Ok (map (fun r => scanCombination (D := D) (leased r)) rows),
   st <| st_combinations := fold_left (fun m r => alter leased (c_ID (cb_item r)) m) rows (st_combinations st) |>).

Definition LeaseArbitrageCombinations (limit : Z) (lease : Duration) : M D (Result (list ArbitrageCombination)) :=
  sql (leaseCombinations (if (limit <=? 0)%Z then 50%Z else limit) lease).

Definition RenewArbitrageLease (id : string) (lease : Duration) : M D (Result bool) :=
  sql (fun dbnow st =>
    match st_combinations st !! id with
    | Some r =>
        if liveCombination (cb_item r) && negb (leaseFree dbnow r)
        then (Ok true, st <| st_combinations := <[id := r <| cb_scheduler_lease_until := At (TimeAdd dbnow lease) |>]>
                                                   (st_combinations st) |>)
        else (Ok false, st)
    | None => (Ok false, st)
    end).
End ArbLife.

(** ** The position audit and the configuration *)

Definition arbitragePositionAuditErrorPrefix : string := "account position differs from combination ledger:".
Definition errUnsafeHedge : GoError := mkError [ErrArbitrageUnsafeHedge] "arbitrage hedge would reverse position".
Definition errArbitrageConflict : GoError := mkError [ErrArbitrageConflict] "arbitrage combination conflict".
Definition errConfigInvalid (message : string) : GoError :=
  mkError [ErrArbitrageConfigInvalid] (Join ["invalid arbitrage configuration"; message]%string ": ").

(** [strings.HasPrefix]. *)
Definition HasPrefix (s p : string) : bool := String.prefix p s.

(** [ArbitragePositionAuditDeferredError]. *)
Inductive AuditResult :=
| AuditUpdated (c : ArbitrageCombination)
| AuditDeferred (reason executionID : string)
| AuditError (e : GoError).

Record UpdateArbitrageInput := mkUpdateArbitrageInput {
  ui_AskThresholdBps : option string;
  ui_BidThresholdBps : option string;
  ui_TargetNotional : option string;
  ui_ExitAfterSeconds : option Z;
  ui_ExitAnnualizedRate : option string;
  ui_EarlyExitFunding8hAnnualizedFloor : option string;
  ui_EarlyExitLiquidationDistancePct : option string
}.

Section ArbAudit.
Context {D : Type} `{!Decimal D} `{!Postgres D} `{!Env D}.
Local Open Scope dec_scope.

Definition lastCloseResidualAuditUnlockEligible (status runtimeState currentError : string)
    (currentUncertain circuitOpen recoveredLatest zeroDifferences : bool) : bool :=
  EqualFold (TrimSpace status) "closing" && currentUncertain && EqualFold (TrimSpace runtimeState) "position_uncertain" &&
  (currentError =?s err_text errUnsafeHedge) && negb circuitOpen && zeroDifferences && recoveredLatest.

(** The latest execution is a completed last close clip whose residual was
    recovered. *)
Definition residualRecoveredLatest (st : Store D) (id : string) : bool :=
  let rows := executionRows st id in
  existsb (fun r => let x := ex_item r in
    (x_Status x =?s "completed") && x_LastCloseClip x && (ToLower (TrimSpace (x_PositionEffect x)) =?s "close") &&
    x_ReduceOnly x && forallb (fun r' => (x_Sequence (ex_item r') <=? x_Sequence x)%Z) rows &&
    existsb (fun '(c, e, t) => (c =?s id) && (e =?s x_ID x) && (t =?s "last_close_residual_recovered")) (st_arbitrageEvents st))
    rows.

(** The newest active execution. *)
Definition newestActive (st : Store D) (id : string) : string :=
  match fold_left (fun best r => if activeExecution r then
            match best with
            | Some b => if (x_CreatedAt (ex_item b) <? x_CreatedAt (ex_item r))%Z then Some r else Some b
            | None => Some r
            end else best) (executionRows st id) None with
  | Some r => x_ID (ex_item r)
  | None => ""%string
  end.

(** The columns [UpdateArbitragePositionAudit] writes: uncertain, runtime
    state, error. *)
Definition auditVerdict (st : Store D) (id : string) (c : ArbitrageCombination)
    (legADifference legBDifference : string) (uncertain : bool) (message : string) : bool * string * string :=
  let status := c_Status c in
  let runtime := c_RuntimeState c in
  let error := c_ErrorMessage c in
  let auditOwned := HasPrefix error arbitragePositionAuditErrorPrefix in
  let zeroDifferences := strictZeroFilledQuantity (D := D) legADifference && strictZeroFilledQuantity (D := D) legBDifference in
  let '(nextUncertain, nextRuntime, nextError) :=
    if uncertain then
      if negb (c_CircuitOpen c) && liveCombination c &&
         (negb (c_PositionUncertain c) || (error =?s "") || auditOwned)
      then (true, "position_uncertain"%string, truncateMessage message)
      else if (status =?s "closed") && c_PositionUncertain c && auditOwned
      then (c_PositionUncertain c, runtime, truncateMessage message)
      else (c_PositionUncertain c, runtime, error)
    else
      let clearAuditOwned := c_PositionUncertain c && auditOwned && negb (c_CircuitOpen c) in
      let clearStickyEmpty := c_PositionUncertain c && (error =?s "") && (runtime =?s "monitoring") &&
        (status =?s "running") && negb (c_CircuitOpen c) && zeroDifferences in
      let clearOrderUncertain := c_PositionUncertain c && (error =?s arbitrageOrderReconcileError) &&
        (runtime =?s "position_uncertain") && (status =?s "running") && negb (c_CircuitOpen c) && zeroDifferences &&
        negb (bool_decide (executionRows st id = [])) && negb (bool_decide (combinationOrders st id = [])) in
      let clearResidual := lastCloseResidualAuditUnlockEligible status runtime error (c_PositionUncertain c)
        (c_CircuitOpen c) (residualRecoveredLatest st id) zeroDifferences in
      if clearAuditOwned || clearStickyEmpty || clearOrderUncertain || clearResidual
      then (false, if status =?s "closing" then "closing"%string else "monitoring"%string, ""%string)
      else (c_PositionUncertain c, runtime, error) in
  if (status =?s "running") && (runtime =?s "manual_intervention") && negb (c_CircuitOpen c) &&
     negb (c_PositionUncertain c) && negb uncertain && negb nextUncertain &&
     strictZeroFilledQuantity (D := D) (dString (carryColumn (D := D) c)) && zeroDifferences && (error =?s "") &&
     (c_ConsecutiveFailures c =? 0)%Z && (c_RepeatedFailureCount c =? 0)%Z && (c_LastFailureKey c =?s "") &&
     existsb (fun r => x_Status (ex_item r) =?s "completed") (executionRows st id)
  then (nextUncertain, "monitoring"%string, ""%string)
  else (nextUncertain, nextRuntime, nextError).

Definition auditTransaction (id : string) (expectedVersion : Z) (legAVenue legBVenue legADifference legBDifference : string)
    (uncertain : bool) (message legALiquidation legBLiquidation : string) (dbnow : GoTime) (st : Store D)
    : AuditResult * Store D :=
  match st_combinations st !! id with
  | None => (AuditError errNotFound, st)
  | Some row =>
      let c := cb_item row in
      if negb (c_Version c =? expectedVersion)%Z then (AuditDeferred "version_conflict" "", st)
      else if negb (newestActive st id =?s "") then (AuditDeferred "active_execution" (newestActive st id), st)
      else if hasLiveOrder st id then (AuditDeferred "active_order" "", st)
      else if existsb (fun r => (0 <? o_ReconcileFailures (row_order r))%Z) (combinationOrders st id)
      then (AuditDeferred "reconcile_failure" "", st)
      else if negb (liveCombination c) &&
              negb ((c_Status c =?s "closed") && c_PositionUncertain c && HasPrefix (c_ErrorMessage c) arbitragePositionAuditErrorPrefix)
      then (AuditError errNotFound, st)
      else
        let '(nextUncertain, nextRuntime, nextError) := auditVerdict st id c legADifference legBDifference uncertain message in
        match numericText (D := D) legAVenue, numericText (D := D) legBVenue, numericText (D := D) legADifference,
              numericText (D := D) legBDifference, nullableAny (D := D) legALiquidation, nullableAny (D := D) legBLiquidation with
        | Some va, Some vb, Some da, Some db, Some la, Some lb =>
            let row' := touch dbnow (row <| cb_item := c <| c_LegAVenueBasePosition := va |> <| c_LegBVenueBasePosition := vb |>
                 <| c_LegAPositionDifference := da |> <| c_LegBPositionDifference := db |>
                 <| c_PositionUncertain := nextUncertain |> <| c_RuntimeState := nextRuntime |> <| c_ErrorMessage := nextError |>
                 <| c_LegALiquidationDistancePct := la |> <| c_LegBLiquidationDistancePct := lb |> |>
                 <| cb_last_position_reconciled_at := Some dbnow |>) in
            (AuditUpdated (scanCombination (D := D) row'), st <| st_combinations := <[id := row']> (st_combinations st) |>)
        | _, _, _, _, _, _ => (AuditError errOverflow, st)
        end
  end.

Definition UpdateArbitragePositionAudit (id : string) (expectedVersion : Z)
    (legAVenue legBVenue legADifference legBDifference : string) (uncertain : bool)
    (message legALiquidation legBLiquidation : string) : M D AuditResult :=
  do r <- sql (fun dbnow st =>
    match auditTransaction id expectedVersion legAVenue legBVenue legADifference legBDifference uncertain message
            legALiquidation legBLiquidation dbnow st with
    | (AuditError e, st') => (Err e, st')
    | (answer, st') => (Ok answer, st')
    end);
  ret (match r with Ok answer => answer | Err e => AuditError e end).

(** ** Configuration *)

Definition nullableTrim (s : string) : option string :=
  if TrimSpace s =?s "" then Some ""%string else numericAny (D := D) (TrimSpace s).

Definition scheduledExitFromCreated (created : GoTime) (seconds : Z) : GoTime :=
  if IsZeroTime created || (seconds <=? 0)%Z then zeroTime else TimeAdd created (wrap64 (seconds * Second)%Z).

(** A one-shot field may be changed only where it was set at creation. *)
Definition patched (current : string) (input : option string) (message : string) : Result string :=
  match input with
  | None => Ok current
  | Some v => if TrimSpace current =?s "" then Err (errConfigInvalid message) else Ok v
  end.

Definition oneShotPhaseAfter (phase : string) (input : option string) (targetValue oldTarget : D)
    (scheduled now : GoTime) : string :=
  if (phase =?s "waiting_exit") && (match input with Some _ => true | None => false end) &&
     (targetValue >? oldTarget) &&
     (IsZeroTime scheduled || TimeEqual scheduled unixEpoch || TimeAfter scheduled now)
  then "building_target"%string else phase.

(** The columns the two configuration statements assign. *)
Definition assignOneShotConfig (target rate floor distance : string) (exitAfter : Z) (phase : string)
    (scheduled dbnow : GoTime) (r : CombinationRow) : Result CombinationRow :=
  match numericAny (D := D) target, nullableTrim rate, nullableTrim floor, nullableTrim distance with
  | Some target, Some rate, Some floor, Some distance =>
      Ok (touch dbnow (r <| cb_item := (cb_item r) <| c_TargetNotional := target |>
           <| c_ExitAfterSeconds := Z.max 0 exitAfter |> <| c_ExitAnnualizedRate := rate |>
           <| c_EarlyExitFunding8hAnnualizedFloor := floor |> <| c_EarlyExitLiquidationDistancePct := distance |>
           <| c_OneShotPhase := phase |> |>
           <| cb_scheduled_exit_at := timestamptz (D := D) <$> nullableArbitrageTimestamp scheduled |>))
  | _, _, _, _ => Err errOverflow
  end.

Definition assignSpreadConfig (ask bid target : string) (dbnow : GoTime) (r : CombinationRow) : Result CombinationRow :=
  match numericAny (D := D) ask, numericAny (D := D) bid, numericAny (D := D) target with
  | Some ask, Some bid, Some target =>
      Ok (touch dbnow (r <| cb_item := (cb_item r) <| c_AskThresholdBps := ask |> <| c_BidThresholdBps := bid |>
           <| c_TargetNotional := target |> |>))
  | _, _, _ => Err errOverflow
  end.

Definition updateOneShotConfig (current : ArbitrageCombination) (input : UpdateArbitrageInput) (target : string)
    (targetValue positionValue : D) (now dbnow : GoTime) (st : Store D) : Result ArbitrageCombination * Store D :=
  let refuse e := (Err e, st) in
  let phase := TrimSpace (c_OneShotPhase current) in
  let oldTarget := match dNewFromString (c_TargetNotional current) with Some v => v | None => dZero end in
  let occupancy := dAbs positionValue in
  if negb ((phase =?s "building_target") || (phase =?s "waiting_exit")) then refuse errArbitrageConflict
  else if c_PositionUncertain current || (c_RuntimeState current =?s "manual_intervention") then refuse errArbitrageConflict
  else if match ui_AskThresholdBps input, ui_BidThresholdBps input with None, None => false | _, _ => true end
  then refuse (errConfigInvalid "one_shot combinations cannot patch spread thresholds")
  else if hasActiveExecution st (c_ID current) || hasLiveOrder st (c_ID current) then refuse errArbitrageConflict
  else if match ui_TargetNotional input with
          | Some _ => dIsPositive occupancy && (negb (targetValue >? oldTarget) || (targetValue <? occupancy))
          | None => false
          end
  then refuse (errConfigInvalid "one_shot target with inventory must exceed the previous target and cover occupancy")
  else if match ui_ExitAfterSeconds input with Some _ => negb (c_ExitPolicy current =?s "time") | None => false end
  then refuse (errConfigInvalid "historical annualized combinations cannot patch hold time")
  else
    let exitAfter := default (c_ExitAfterSeconds current) (ui_ExitAfterSeconds input) in
    match patched (c_ExitAnnualizedRate current) (ui_ExitAnnualizedRate input)
            "annualized early-exit cannot be enabled after create",
          patched (c_EarlyExitFunding8hAnnualizedFloor current) (ui_EarlyExitFunding8hAnnualizedFloor input)
            "8h funding early-exit cannot be enabled after create",
          patched (c_EarlyExitLiquidationDistancePct current) (ui_EarlyExitLiquidationDistancePct input)
            "liquidation distance early-exit cannot be enabled after create" with
    | Ok rate, Ok floor, Ok distance =>
        let scheduled := match ui_ExitAfterSeconds input with
                         | Some _ => if IsZeroTime (c_CreatedAt current) then c_ScheduledExitAt current
                                     else scheduledExitFromCreated (c_CreatedAt current) exitAfter
                         | None => c_ScheduledExitAt current
                         end in
        let nextPhase := oneShotPhaseAfter phase (ui_TargetNotional input) targetValue oldTarget scheduled now in
        match updateCombination (c_ID current)
          (fun r => (c_OwnerUsername (cb_item r) =?s c_OwnerUsername current) && (c_Status (cb_item r) =?s "running") &&
                    (c_RunMode (cb_item r) =?s "one_shot") && inPhase ["building_target"; "waiting_exit"]%string r && unattended r)
          (assignOneShotConfig target rate floor distance exitAfter nextPhase scheduled dbnow) st with
        | (Ok (Some updated), st') => (Ok updated, st')
        | (Ok None, st') => (Err errArbitrageConflict, st')
        | (Err e, st') => (Err e, st')
        end
    | Err e, _, _ | _, Err e, _ | _, _, Err e => refuse e
    end.

Definition isSome {A} (o : option A) : bool := match o with Some _ => true | None => false end.

Definition updateSpreadConfig (owner id : string) (input : UpdateArbitrageInput) (ask bid target : string)
    (targetValue positionValue : D) (dbnow : GoTime) (st : Store D) : Result ArbitrageCombination * Store D :=
  if isSome (ui_ExitAfterSeconds input) || isSome (ui_ExitAnnualizedRate input) ||
     isSome (ui_EarlyExitFunding8hAnnualizedFloor input) || isSome (ui_EarlyExitLiquidationDistancePct input)
  then (Err (errConfigInvalid "spread combinations cannot patch one-shot exit fields"), st)
  else if isSome (ui_TargetNotional input) && (targetValue <? dAbs positionValue)
  then (Err (errConfigInvalid "target notional cannot be below current absolute position"), st)
  else match updateCombination id
    (fun r => (c_OwnerUsername (cb_item r) =?s owner) && (c_Status (cb_item r) =?s "running") && (c_RunMode (cb_item r) =?s "spread"))
    (assignSpreadConfig ask bid target dbnow) st with
  | (Ok (Some updated), st') => (Ok updated, st')
  | (Ok None, st') => (Err errArbitrageConflict, st')
  | (Err e, st') => (Err e, st')
  end.

Definition configTransaction (owner id : string) (input : UpdateArbitrageInput) (now dbnow : GoTime) (st : Store D)
    : Result ArbitrageCombination * Store D :=
  match st_combinations st !! id with
  | None => (Err errNotFound, st)
  | Some row =>
      let current := scanCombination (D := D) row in
      if negb (c_OwnerUsername current =?s owner) then (Err errNotFound, st)
      else if negb (c_Status current =?s "running") then (Err errArbitrageConflict, st)
      else
        let ask := default (c_AskThresholdBps current) (ui_AskThresholdBps input) in
        let bid := default (c_BidThresholdBps current) (ui_BidThresholdBps input) in
        let target := default (c_TargetNotional current) (ui_TargetNotional input) in
        match dNewFromString (D := D) target, dNewFromString (D := D) (c_PositionNotional current) with
        | Some targetValue, Some positionValue =>
            if negb (dIsPositive targetValue) then (Err (errConfigInvalid "target notional must be positive"), st)
            else
              match (if EqualFold (TrimSpace (c_RunMode current)) "one_shot"
                     then updateOneShotConfig current input target targetValue positionValue now dbnow st
                     else updateSpreadConfig owner id input ask bid target targetValue positionValue dbnow st) with
              | (Ok updated, st') =>
                  (Ok updated, st' <| st_arbitrageEvents := st_arbitrageEvents st' ++ [(id, ""%string, "config_updated"%string)] |>)
              | failed => failed
              end
        | _, _ => (Err (errConfigInvalid "target notional must be positive"), st)
        end
  end.

Definition UpdateArbitrageCombinationConfig (owner id : string) (input : UpdateArbitrageInput)
    : M D (Result ArbitrageCombination) :=
  do now <- timeNow; sql (configTransaction owner id input now).
End ArbAudit.

(** ** Executions *)

Definition errExecutionTerminal : GoError := mkError [ErrArbitrageExecutionTerminal] "arbitrage execution is already terminal".
Definition errReconciling : GoError := mkError [ErrArbitrageReconciling] "arbitrage execution reconciling".
Definition errHedgeSequence : GoError := mkError [ErrArbitrageHedgeSequence] "arbitrage hedge sequence mismatch".
Definition errHedgeAdmission (message : string) : GoError :=
  mkError [ErrArbitrageHedgeAdmissionConflict] (Join ["arbitrage hedge admission conflict"; message]%string ": ").
Definition errLastCloseConflict : GoError :=
  mkError [ErrArbitrageLastCloseClipUnbalancedConflict] "last close clip unbalanced conflict".

(** [PrepareArbitrageHedgeIntentInput]; the fields that are only logged are
    left out. *)
Record PrepareHedgeInput := mkPrepareHedgeInput {
  ph_Combination : ArbitrageCombination;
  ph_Execution : ArbitrageExecution;
  ph_Order : Order;
  ph_ExpectedSequence : Z;
  ph_FastPathAdmission : bool;
  ph_ConfirmedMakerFilled : string;
  ph_ConfirmedHedgeFilled : string;
  ph_AggregateCarry : bool;
  ph_ExpectedCarryQuantity : string
}.
#[export] Instance eta_PrepareHedgeInput : Eta PrepareHedgeInput := fun r =>
  mkPrepareHedgeInput (ph_Combination r) (ph_Execution r) (ph_Order r) (ph_ExpectedSequence r) (ph_FastPathAdmission r)
    (ph_ConfirmedMakerFilled r) (ph_ConfirmedHedgeFilled r) (ph_AggregateCarry r) (ph_ExpectedCarryQuantity r).

Record PrepareHedgeResult := mkPrepareHedgeResult {
  pr_Order : Order;
  pr_Created : bool;
  pr_Execution : ArbitrageExecution;
  pr_Combination : ArbitrageCombination
}.

Section ArbExecutions.
Context {D : Type} `{!Decimal D} `{!Postgres D} `{!Env D}.
Local Open Scope dec_scope.

(** *** Claiming *)

(** The columns [ClaimArbitrageExecution] reads of the combination. *)
Definition claimView (r : CombinationRow) : ArbitrageCombination :=
  let c := cb_item r in
  zero_ArbitrageCombination <| c_Status := c_Status c |> <| c_RuntimeState := c_RuntimeState c |>
    <| c_RunMode := c_RunMode c |> <| c_OneShotPhase := c_OneShotPhase c |>
    <| c_PositionUncertain := c_PositionUncertain c |>
    <| c_LegABasePosition := c_LegABasePosition c |> <| c_LegBBasePosition := c_LegBBasePosition c |>
    <| c_LegAVenueBaselineBasePosition := c_LegAVenueBaselineBasePosition c |>
    <| c_LegBVenueBaselineBasePosition := c_LegBVenueBaselineBasePosition c |>
    <| c_VenueBaselineCapturedAt := orEpoch (cb_venue_baseline_captured_at r) |>
    <| c_LegAVenueBasePosition := c_LegAVenueBasePosition c |> <| c_LegBVenueBasePosition := c_LegBVenueBasePosition c |>.

Definition effectIs (x : ArbitrageExecution) (effect : string) : bool := EqualFold (TrimSpace (x_PositionEffect x)) effect.

Definition claimOpening (x : ArbitrageExecution) : bool := effectIs x "open" || (TrimSpace (x_PositionEffect x) =?s "").

(** The state of the combination allows an execution of this kind. *)
Definition claimState (combo : ArbitrageCombination) (x : ArbitrageExecution) : bool :=
  let flattening := arbitrageFlattening combo in
  negb (c_PositionUncertain combo) && negb (c_RuntimeState combo =?s "manual_intervention") &&
  (if flattening then effectIs x "close" && x_ReduceOnly x else c_Status combo =?s "running") &&
  negb (negb flattening && EqualFold (c_RunMode combo) "one_shot" &&
        ((c_OneShotPhase combo =?s "waiting_exit") || (c_OneShotPhase combo =?s "exited"))).

(** The prices at which the execution's legs trade. *)
Definition claimPrices (x : ArbitrageExecution) : D * D :=
  if EqualFold (TrimSpace (x_Direction x)) "bid"
  then (parsePositiveDecimal (x_TriggerLegABid x), parsePositiveDecimal (x_TriggerLegBBid x))
  else (parsePositiveDecimal (x_TriggerLegAAsk x), parsePositiveDecimal (x_TriggerLegBAsk x)).

Definition midOr (bid ask : string) (fallback : D) : D :=
  let mid := (parsePositiveDecimal bid + parsePositiveDecimal ask) / dNewFromInt 2 in
  if dIsPositive mid then mid else fallback.

(** The size of the execution fits what may be opened or closed. *)
Definition claimSize (combo : ArbitrageCombination) (targetNotional : string) (x : ArbitrageExecution) : bool :=
  let requested := parsePositiveDecimal (D := D) (x_RequestedNotional x) in
  let targetBase := parsePositiveDecimal (x_TargetBaseQuantity x) in
  let '(priceA, priceB) := claimPrices x in
  let worth q := dMax (q * priceA) (q * priceB) in
  if negb (dIsPositive requested) || negb (dIsPositive targetBase) then false
  else if negb (dIsPositive priceA) || negb (dIsPositive priceB) then false
  else
    let implied := worth targetBase in
    if claimOpening x then
      let remaining := remainingDirectionNotional (parseDecimal (c_LegABasePosition combo)) (parseDecimal (c_LegBBasePosition combo))
        (parsePositiveDecimal targetNotional)
        (midOr (x_TriggerLegABid x) (x_TriggerLegAAsk x) priceA) (midOr (x_TriggerLegBBid x) (x_TriggerLegBAsk x) priceB) in
      negb ((remaining <? dNewFromInt arbitrageMinOpenNotional) || (requested >? remaining) || (implied >? remaining))
    else if arbitrageFlattening combo then
      match arbitrageOwnedCloseDirection (D := D) combo, arbitrageVenueReduceDirection (D := D) combo with
      | Some owned, Some venue =>
          let closeableBase := dMin (arbitrageOwnedCloseableBase combo) (arbitrageCloseableBase combo) in
          EqualFold (x_Direction x) owned && (owned =?s venue) && dIsPositive closeableBase &&
          negb (targetBase >? closeableBase) &&
          negb ((requested >? worth closeableBase) || (implied >? worth closeableBase))
      | _, _ => false
      end
    else
      let closeableBase := arbitrageCloseableBase combo in
      let closeable := if dIsPositive closeableBase then worth closeableBase else dZero in
      negb ((requested >? closeable) || (implied >? closeable)).

Definition nextSequence (st : Store D) (id : string) : Z :=
  match executionRows st id with
  | [] => 1%Z
  | first :: rest => (fold_left (fun m r => Z.max m (x_Sequence (ex_item r))) rest (x_Sequence (ex_item first)) + 1)%Z
  end.

(** The columns of a new execution; [None] when a number does not fit. *)
Definition newExecutionRow (x : ArbitrageExecution) (sequence : Z) (dbnow : GoTime) : option ExecutionRow :=
  match mapM (numericAny (D := D)) [x_TriggerAskSpread x; x_TriggerBidSpread x; x_TriggerLegABid x; x_TriggerLegAAsk x;
                                    x_TriggerLegBBid x; x_TriggerLegBAsk x; x_TargetBaseQuantity x;
                                    zeroString (x_RequestedNotional x); zeroString (x_LegAFilledQuantity x);
                                    zeroString (x_LegBFilledQuantity x); zeroString (x_DeltaNotional x)] with
  | Some [askSpread; bidSpread; aBid; aAsk; bBid; bAsk; target; requested; fillA; fillB; delta] =>
      Some (mkExecutionRow
        (x <| x_Sequence := sequence |> <| x_TriggerAskSpread := askSpread |> <| x_TriggerBidSpread := bidSpread |>
           <| x_TriggerLegABid := aBid |> <| x_TriggerLegAAsk := aAsk |> <| x_TriggerLegBBid := bBid |>
           <| x_TriggerLegBAsk := bAsk |> <| x_TargetBaseQuantity := target |> <| x_RequestedNotional := requested |>
           <| x_LegAFilledQuantity := fillA |> <| x_LegBFilledQuantity := fillB |> <| x_DeltaNotional := delta |>
           <| x_MakerOrderID := ""%string |> <| x_HedgeOrderID := ""%string |>
           <| x_CreatedAt := dbnow |> <| x_UpdatedAt := dbnow |>) None)
  | _ => None
  end.

(** The unique indexes: the identifier, and one active execution per
    combination. *)
Definition executionConflict (st : Store D) (x : ArbitrageExecution) : bool :=
  isSome (st_executions st !! x_ID x) ||
  (negb (terminalArbitrageExecutionStatus (x_Status x)) && hasActiveExecution st (x_CombinationID x)).

(** [INSERT ... ON CONFLICT DO NOTHING] and the new version. *)
Definition insertExecution (x : ArbitrageExecution) (row : CombinationRow) (dbnow : GoTime) (st : Store D)
    : Result (ArbitrageExecution * bool) * Store D :=
  let id := x_CombinationID x in
  match newExecutionRow x (nextSequence st id) dbnow with
  | None => (Err errOverflow, st)
  | Some inserted =>
      if executionConflict st x then (Ok (zero_ArbitrageExecution, false), st)
      else (Ok (scanExecution inserted, true),
            st <| st_executions := <[x_ID x := inserted]> (st_executions st) |>
               <| st_combinations := <[id := touch dbnow row]> (st_combinations st) |>)
  end.

Definition claimTransaction (x : ArbitrageExecution) (dbnow : GoTime) (st : Store D)
    : Result (ArbitrageExecution * bool) * Store D :=
  let id := x_CombinationID x in
  match st_combinations st !! id with
  | None => (Ok (zero_ArbitrageExecution, false), st)
  | Some row =>
      let combo := claimView row in
      if negb (claimState combo x) || negb (claimSize combo (c_TargetNotional (cb_item row)) x) || hasLiveOrder st id
      then (Ok (zero_ArbitrageExecution, false), st)
      else insertExecution x row dbnow st
  end.

Definition ClaimArbitrageExecution (x : ArbitrageExecution) : M D (Result (ArbitrageExecution * bool)) :=
  do n <- tick;
  let x := if x_ID x =?s "" then x <| x_ID := newUUID n |> else x in
  sql (claimTransaction x).

Definition GetActiveArbitrageExecution (id : string) : M D (Result ArbitrageExecution) :=
  sql (fun _ st => (match List.find activeExecution (executionRows st id) with
                    | Some r => Ok (scanExecution r)
                    | None => Err errNotFound
                    end, st)).

(** *** Writing an execution *)

(** The columns every update of an execution assigns. *)
Definition assignExecution (x : ArbitrageExecution) (dbnow : GoTime) (r : ExecutionRow) : option ExecutionRow :=
  match numericAny (D := D) (zeroString (x_LegAFilledQuantity x)), numericAny (D := D) (zeroString (x_LegBFilledQuantity x)),
        numericAny (D := D) (zeroString (x_DeltaNotional x)) with
  | Some fillA, Some fillB, Some delta =>
      Some (r <| ex_item := (ex_item r) <| x_Status := x_Status x |> <| x_LegAFilledQuantity := fillA |>
                <| x_LegBFilledQuantity := fillB |> <| x_DeltaNotional := delta |>
                <| x_MakerOrderID := x_MakerOrderID x |> <| x_HedgeOrderID := x_HedgeOrderID x |>
                <| x_HedgeSequence := x_HedgeSequence x |> <| x_Attempt := x_Attempt x |>
                <| x_ErrorMessage := x_ErrorMessage x |> <| x_UpdatedAt := dbnow |> |>)
  | _, _, _ => None
  end.

Definition updateExecutionTransaction (x : ArbitrageExecution) (dbnow : GoTime) (st : Store D)
    : Result (option ArbitrageExecution) * Store D :=
  match st_executions st !! x_ID x with
  | Some row =>
      let ends := terminalArbitrageExecutionStatus (x_Status x) in
      if activeExecution row || ends then
        match assignExecution x dbnow row with
        | Some row' =>
            let row' := row' <| ex_closed_at := if ends then Some (default dbnow (ex_closed_at row)) else ex_closed_at row |> in
            (Ok (Some (scanExecution row')), st <| st_executions := <[x_ID x := row']> (st_executions st) |>)
        | None => (Err errOverflow, st)
        end
      else (Ok None, st)
  | None => (Ok None, st)
  end.

Definition UpdateArbitrageExecution (x : ArbitrageExecution) : M D (Result ArbitrageExecution) :=
  do r <- sql (updateExecutionTransaction x);
  match r with
  | Err e => ret (Err e)
  | Ok (Some updated) => ret (Ok updated)
  | Ok None =>
      do current <- sql (fun _ st => (match st_executions st !! x_ID x with
                                      | Some row => Ok (x_Status (ex_item row))
                                      | None => Err errNotFound
                                      end, st));
      ret (match current with
           | Err e => Err e
           | Ok status => if terminalArbitrageExecutionStatus status && negb (terminalArbitrageExecutionStatus (x_Status x))
                          then Err errExecutionTerminal else Err errNotFound
           end)
  end.

(** *** Ledger positions *)

(** [SUM(CASE WHEN leg AND side='buy' THEN filled WHEN leg AND side='sell'
    THEN -filled ELSE 0 END)] over the filled orders. *)
Definition signedFill (leg : string) (r : OrderRow) : D :=
  let o := row_order r in
  let filled := parseDecimal (o_FilledQuantity o) in
  if negb (dIsPositive filled) || negb (o_ArbitrageLeg o =?s leg) then dZero
  else if o_Side o =?s "buy" then filled else if o_Side o =?s "sell" then dNeg filled else dZero.

Definition legPosition (st : Store D) (id leg : string) : D := sqlSum (signedFill leg) (combinationOrders st id).

Definition assignPositions (st : Store D) (id : string) (dbnow : GoTime) (r : CombinationRow) : Result CombinationRow :=
  let c := cb_item r in
  match numericText (D := D) (dString (legPosition st id "a" + parseDecimal (c_LegAReconciliationAdjustment c))),
        numericText (D := D) (dString (legPosition st id "b" + parseDecimal (c_LegBReconciliationAdjustment c))) with
  | Some a, Some b => Ok (touch dbnow (r <| cb_item := c <| c_LegABasePosition := a |> <| c_LegBBasePosition := b |> |>))
  | _, _ => Err errOverflow
  end.

Definition updatePositions (id : string) (dbnow : GoTime) (st : Store D) : Result ArbitrageCombination * Store D :=
  match updateCombination id (fun _ => true) (assignPositions st id dbnow) st with
  | (Ok (Some c), st') => (Ok c, st')
  | (Ok None, st') => (Err errNotFound, st')
  | (Err e, st') => (Err e, st')
  end.

(** [retryOnDeadlock] repeats a transaction that failed on a deadlock; a
    failure here stands for the last one. *)
Definition RecomputeArbitrageBasePositions (id : string) : M D (Result ArbitrageCombination) :=
  if TrimSpace id =?s "" then ret (Err errInvalidArgument) else sql (updatePositions id).

(** The fills of an execution by role and leg. *)
Definition executionOrders (st : Store D) (executionID : string) : list OrderRow :=
  List.filter (fun r => o_ArbitrageExecutionID (row_order r) =?s executionID) (map snd (map_to_list (st_orders st))).

Definition sqlFold (s : string) : string := ToLower (TrimSpace s).

Definition roleFill (st : Store D) (executionID role leg side : string) : D :=
  sqlSum (fun r => let o := row_order r in
    if (sqlFold (o_ArbitrageRole o) =?s role) && (sqlFold (o_ArbitrageLeg o) =?s leg) &&
       ((side =?s "*") || (sqlFold (o_Side o) =?s side)) && dIsPositive (parseDecimal (D := D) (o_FilledQuantity o))
    then parseDecimal (o_FilledQuantity o) else dZero) (executionOrders st executionID).

(** Every role but [residual]. *)
Definition pairedFill (st : Store D) (executionID leg : string) : D :=
  sqlSum (fun r => let o := row_order r in
    if (o_ArbitrageLeg o =?s leg) && negb (o_ArbitrageRole o =?s "residual") && dIsPositive (parseDecimal (D := D) (o_FilledQuantity o))
    then parseDecimal (o_FilledQuantity o) else dZero) (executionOrders st executionID).

Definition hedgeSide (direction makerLeg : string) : string :=
  if direction =?s "ask" then if makerLeg =?s "b" then "buy" else "sell"
  else if direction =?s "bid" then if makerLeg =?s "b" then "sell" else "buy" else "".

(** The fills of the two legs of an execution: of a last close clip the
    maker's fills and the hedges with what of the residual belongs to them. *)
Definition executionFills (st : Store D) (c : ArbitrageCombination) (x : ArbitrageExecution) : D * D :=
  let makerLeg := if sqlFold (c_MakerLeg c) =?s "" then "a"%string else sqlFold (c_MakerLeg c) in
  let hedgeLeg := if makerLeg =?s "b" then "a"%string else "b"%string in
  let side := hedgeSide (sqlFold (x_Direction x)) makerLeg in
  let lastClose := (sqlFold (c_Status c) =?s "closing") && x_LastCloseClip x && (sqlFold (x_PositionEffect x) =?s "close") &&
                   x_ReduceOnly x in
  let id := x_ID x in
  let makerFill := roleFill st id "maker" makerLeg "*" in
  let hedgeFill := roleFill st id "hedge" hedgeLeg side in
  let residualFill := roleFill st id "residual" hedgeLeg side in
  let hedged := hedgeFill + dMin residualFill (dMax (makerFill - hedgeFill) dZero) in
  if lastClose && (sqlFold (c_ExecutionMode c) =?s "simultaneous_market")
  then (roleFill st id "market" "a" "*", roleFill st id "market" "b" "*")
  else if lastClose && (makerLeg =?s "a") then (makerFill, hedged)
  else if lastClose && (makerLeg =?s "b") then (hedged, makerFill)
  else (pairedFill st id "a", pairedFill st id "b").

Definition recomputeForExecution (executionID : string) (dbnow : GoTime) (st : Store D) : Result ArbitrageCombination * Store D :=
  match st_executions st !! executionID with
  | None => (Err errNotFound, st)
  | Some row =>
      let id := x_CombinationID (ex_item row) in
      match st_combinations st !! id with
      | None => (Err errNotFound, st)
      | Some combo =>
          let '(fillA, fillB) := executionFills st (cb_item combo) (ex_item row) in
          match numericAny (D := D) (dString fillA), numericAny (D := D) (dString fillB) with
          | Some a, Some b =>
              let row' := row <| ex_item := (ex_item row) <| x_LegAFilledQuantity := a |> <| x_LegBFilledQuantity := b |>
                                               <| x_UpdatedAt := dbnow |> |> in
              updatePositions id dbnow (st <| st_executions := <[executionID := row']> (st_executions st) |>)
          | _, _ => (Err errOverflow, st)
          end
      end
  end.

Definition RecomputeArbitrageBasePositionsForExecution (executionID : string) : M D (Result ArbitrageCombination) :=
  if TrimSpace executionID =?s "" then ret (Err errInvalidArgument) else sql (recomputeForExecution executionID).
End ArbExecutions.

(** ** Hedge intents *)

Section ArbHedgeIntent.
Context {D : Type} `{!Decimal D} `{!Postgres D} `{!Env D}.
Local Open Scope dec_scope.

(** [requireUniqueActiveExecution]. *)
Definition requireUniqueActiveExecution (st : Store D) (combinationID executionID : string) : option GoError :=
  match List.filter activeExecution (executionRows st combinationID) with
  | [r] => if x_ID (ex_item r) =?s executionID then None else Some (errHedgeAdmission "active execution")
  | _ => Some (errHedgeAdmission "active execution")
  end.

Definition executionHedgeFilled (x : ArbitrageExecution) (makerLeg : string) : D :=
  if EqualFold (TrimSpace makerLeg) "b" then parseDecimal (x_LegAFilledQuantity x) else parseDecimal (x_LegBFilledQuantity x).

Definition setExecutionMakerFilled (x : ArbitrageExecution) (makerLeg : string) (filled : D) : ArbitrageExecution :=
  if EqualFold (TrimSpace makerLeg) "b" then x <| x_LegBFilledQuantity := dString filled |>
  else x <| x_LegAFilledQuantity := dString filled |>.

(** The maker order of the execution is terminal. *)
Definition makerSettled (x : ArbitrageExecution) (maker : Order) : bool :=
  (o_ArbitrageExecutionID maker =?s x_ID x) && (o_ArbitrageRole maker =?s "maker") && terminalStatus (o_Status maker).

Definition admitFastPathHedgeIntent (st : Store D) (input : PrepareHedgeInput) (x : ArbitrageExecution)
    : Result ArbitrageExecution :=
  match requireUniqueActiveExecution st (c_ID (ph_Combination input)) (x_ID x) with
  | Some e => Err e
  | None =>
      let makerID := TrimSpace (x_MakerOrderID x) in
      let inputMakerID := TrimSpace (x_MakerOrderID (ph_Execution input)) in
      if negb (existsb (String.eqb (x_Status x)) ["maker_open"; "maker_canceling"; "hedging"]%string)
      then Err (errHedgeAdmission "status")
      else if (makerID =?s "") || (negb (inputMakerID =?s "") && negb (inputMakerID =?s makerID))
      then Err (errHedgeAdmission "maker order id")
      else match st_orders st !! makerID with
      | None => Err (errHedgeAdmission "maker order not found")
      | Some row =>
          let maker := row_order row in
          let authoritative := parseDecimal (D := D) (o_FilledQuantity maker) in
          let makerLeg := c_MakerLeg (ph_Combination input) in
          if negb (makerSettled x maker) then Err (errHedgeAdmission "maker order")
          else if negb (dEqual authoritative (parseDecimal (ph_ConfirmedMakerFilled input)))
          then Err (errHedgeAdmission "maker fill mismatch")
          else if negb (dEqual (executionHedgeFilled x makerLeg) (parseDecimal (ph_ConfirmedHedgeFilled input)))
          then Err (errHedgeAdmission "hedge fill mismatch")
          else Ok (setExecutionMakerFilled x makerLeg authoritative)
      end
  end.

Definition admitAggregateCarry (st : Store D) (input : PrepareHedgeInput) (combo : ArbitrageCombination)
    (x : ArbitrageExecution) : Result unit :=
  match requireUniqueActiveExecution st (c_ID (ph_Combination input)) (x_ID x) with
  | Some e => Err e
  | None =>
      let makerID := TrimSpace (x_MakerOrderID x) in
      let makerOk := if makerID =?s "" then true
                     else match st_orders st !! makerID with Some row => makerSettled x (row_order row) | None => false end in
      let expected := parseDecimal (D := D) (ph_ExpectedCarryQuantity input) in
      let quantity := parseDecimal (D := D) (o_Quantity (ph_Order input)) in
      if negb makerOk then Err (errHedgeAdmission "maker order")
      else if (TrimSpace (ph_ExpectedCarryQuantity input) =?s "") || negb (dEqual (carryColumn combo) expected)
      then Err (errHedgeAdmission "carry mismatch")
      else if negb (dIsPositive quantity) || (quantity >? dAbs expected) then Err (errHedgeAdmission "hedge quantity")
      else Ok tt
  end.

(** A hedge may be replaced when it is settled and no other hedge is live. *)
Definition admitAggregateCarryHedgeReplacement (st : Store D) (x : ArbitrageExecution) (hedgeLeg : string) : Result unit :=
  match st_orders st !! TrimSpace (x_HedgeOrderID x) with
  | None => Err (errHedgeAdmission "previous hedge not found")
  | Some row =>
      let previous := row_order row in
      if negb (o_ArbitrageExecutionID previous =?s x_ID x) || negb (isArbitrageCarryHedgeRole (o_ArbitrageRole previous)) ||
         negb (o_ArbitrageLeg previous =?s hedgeLeg) || negb (terminalStatus (o_Status previous)) ||
         negb (o_ReconcileFailures previous =? 0)%Z
      then Err (errHedgeAdmission "previous hedge not replaceable")
      else if existsb (fun r => ((o_ArbitrageRole (row_order r) =?s "hedge") || (o_ArbitrageRole (row_order r) =?s "residual")) &&
                                negb (terminalStatus (o_Status (row_order r)))) (executionOrders st (x_ID x))
      then Err (errHedgeAdmission "active hedge exists")
      else Ok tt
  end.

Definition arbitrageOrder (o : Order) : Order :=
  o <| o_TwapJobID := ""%string |> <| o_TwapSliceIndex := 0%Z |> <| o_TwapAttemptIndex := 0%Z |>.

(** The hedge order: the stored one of the same key, or a new one under the
    expected sequence. *)
Definition hedgeOrder (input : PrepareHedgeInput) (x : ArbitrageExecution) (dbnow : GoTime) (st : Store D)
    : Result (Order * bool * ArbitrageExecution * Store D) :=
  let order := ph_Order input in
  match byIdempotency (o_IdempotencyKey order) st with
  | Some row =>
      let stored := row_order row in
      if negb (o_ArbitrageExecutionID stored =?s x_ID x) || negb (o_ArbitrageRole stored =?s o_ArbitrageRole order) ||
         negb (o_ArbitrageLeg stored =?s o_ArbitrageLeg order) || negb (o_RequestFingerprint stored =?s o_RequestFingerprint order)
      then Err errIdempotencyConflict
      else Ok (scanOrder row, false, x, st)
  | None =>
      let hedgeID := TrimSpace (x_HedgeOrderID x) in
      if ph_FastPathAdmission input && negb (hedgeID =?s "") then Err (errHedgeAdmission "hedge order already set")
      else match (if ph_AggregateCarry input && negb (hedgeID =?s "")
                  then admitAggregateCarryHedgeReplacement st x (o_ArbitrageLeg order) else Ok tt) with
      | Err e => Err e
      | Ok _ =>
          if negb (x_HedgeSequence x =? ph_ExpectedSequence input)%Z then Err errHedgeSequence
          else match insertOrder (arbitrageOrder order) dbnow st with
          | Err e => Err e
          | Ok row =>
              Ok (scanOrder row, true, x <| x_HedgeSequence := (x_HedgeSequence x + 1)%Z |>,
                  st <| st_orders := <[o_ID order := row]> (st_orders st) |>
                     <| st_events := st_events st ++ [(o_ID order, "intent"%string); (o_ID order, "submitted"%string)] |>)
          end
      end
  end.

(** The runtime state of a combination that hedges. *)
Definition hedgingState (dbnow : GoTime) (r : CombinationRow) : CombinationRow :=
  let c := cb_item r in
  let keep := c_PositionUncertain c ||
              existsb (String.eqb (c_RuntimeState c)) ["position_uncertain"; "closing"; "manual_intervention"]%string ||
              existsb (String.eqb (c_Status c)) ["closing"; "closed"; "failed"]%string in
  touch dbnow (r <| cb_item := c <| c_ErrorMessage := if keep then c_ErrorMessage c else ""%string |>
                   <| c_RuntimeState := if keep then c_RuntimeState c else "hedging"%string |> |>).

Definition prepareHedgeTransaction (input : PrepareHedgeInput) (dbnow : GoTime) (st : Store D)
    : Result PrepareHedgeResult * Store D :=
  let id := c_ID (ph_Combination input) in
  let refuse e := (Err e, st) in
  match st_combinations st !! id, st_executions st !! x_ID (ph_Execution input) with
  | None, _ | _, None => refuse errNotFound
  | Some combo, Some row =>
      let x := scanExecution row in
      if negb (x_CombinationID x =?s id) then refuse errInvalidArgument
      else if terminalArbitrageExecutionStatus (x_Status x) then refuse errExecutionTerminal
      else match (if ph_FastPathAdmission input then admitFastPathHedgeIntent st input x else Ok x) with
      | Err e => refuse e
      | Ok x1 =>
          match (if ph_AggregateCarry input then admitAggregateCarry st input (cb_item combo) x1 else Ok tt) with
          | Err e => refuse e
          | Ok _ =>
              match hedgeOrder input x1 dbnow st with
              | Err e => refuse e
              | Ok (stored, created, x2, st2) =>
                  let x3 := x2 <| x_HedgeOrderID := o_ID stored |> <| x_Status := "hedging"%string |> <| x_ErrorMessage := ""%string |> in
                  match assignExecution (D := D) x3 dbnow row with
                  | None => refuse errOverflow
                  | Some row' =>
                      let combo' := hedgingState dbnow combo in
                      let events := if created && negb (x_Status x =?s "hedging")
                                    then [(id, x_ID x, "hedge_started"%string)] else [] in
                      (Ok (mkPrepareHedgeResult stored created (scanExecution row') (scanCombination (D := D) combo')),
                       st2 <| st_executions := <[x_ID (ph_Execution input) := row']> (st_executions st2) |>
                           <| st_combinations := <[id := combo']> (st_combinations st2) |>
                           <| st_arbitrageEvents := st_arbitrageEvents st2 ++ events |>)
                  end
              end
          end
      end
  end.

Definition PrepareArbitrageHedgeIntent (input : PrepareHedgeInput) : M D (Result PrepareHedgeResult) :=
  let combinationID := TrimSpace (c_ID (ph_Combination input)) in
  let combinationID := if combinationID =?s "" then TrimSpace (x_CombinationID (ph_Execution input)) else combinationID in
  if (x_ID (ph_Execution input) =?s "") || (o_IdempotencyKey (ph_Order input) =?s "") || (combinationID =?s "")
  then ret (Err errInvalidArgument)
  else
    do n <- tick;
    do m <- tick;
    let order := ph_Order input in
    let order := if o_ID order =?s "" then order <| o_ID := newUUID n |> else order in
    let order := if o_ClientOrderID order =?s "" then order <| o_ClientOrderID := clientOrderID (newUUID m) |> else order in
    sql (prepareHedgeTransaction (input <| ph_Combination := (ph_Combination input) <| c_ID := combinationID |> |>
                                        <| ph_Order := order |>)).

(** ** A last close clip that does not balance *)

Definition lastCloseClipUnbalancedErrorMessage (executionID fillA fillB remaining : string) : string :=
  Join ["last close clip unbalanced execution="; executionID; " fillA="; fillA; " fillB="; fillB; " remaining="; remaining]%string "".

Definition unbalancedReported (st : Store D) (executionID : string) : bool :=
  existsb (fun '(_, e, t) => (e =?s executionID) && (t =?s "last_close_clip_unbalanced")) (st_arbitrageEvents st).

Definition failLastCloseTransaction (combination : ArbitrageCombination) (executionID fillA fillB remaining : string)
    (dbnow : GoTime) (st : Store D) : Result (ArbitrageCombination * ArbitrageExecution) * Store D :=
  let id := c_ID combination in
  match st_combinations st !! id, st_executions st !! executionID with
  | None, _ | _, None => (Err errNotFound, st)
  | Some combo, Some row =>
      let locked := scanExecution row in
      if negb (x_CombinationID locked =?s id) then (Err errInvalidArgument, st)
      else if (x_Status locked =?s "failed") && unbalancedReported st executionID
      then (Ok (scanCombination (D := D) combo, locked), st)
      else
        let message := lastCloseClipUnbalancedErrorMessage executionID fillA fillB remaining in
        let c := cb_item combo in
        if negb (c_Version c =? c_Version combination)%Z || negb (liveCombination c) then (Err errLastCloseConflict, st)
        else if terminalArbitrageExecutionStatus (x_Status locked) then (Err errLastCloseConflict, st)
        else
          let combo' := touch dbnow (combo <| cb_item := c <| c_RuntimeState := "manual_intervention"%string |>
                          <| c_ErrorMessage := message |> <| c_CircuitOpen := true |> |>) in
          let row' := row <| ex_item := (ex_item row) <| x_Status := "failed"%string |> <| x_ErrorMessage := message |>
                                          <| x_UpdatedAt := dbnow |> |>
                          <| ex_closed_at := Some (default dbnow (ex_closed_at row)) |> in
          let events := if unbalancedReported st executionID then [] else [(id, executionID, "last_close_clip_unbalanced"%string)] in
          (Ok (scanCombination (D := D) combo', scanExecution row'),
           st <| st_combinations := <[id := combo']> (st_combinations st) |>
              <| st_executions := <[executionID := row']> (st_executions st) |>
              <| st_arbitrageEvents := st_arbitrageEvents st ++ events |>)
  end.

Definition FailLastCloseClipUnbalanced (combination : ArbitrageCombination) (executionID fillA fillB remaining : string)
    : M D (Result (ArbitrageCombination * ArbitrageExecution)) :=
  if (TrimSpace (c_ID combination) =?s "") || (TrimSpace executionID =?s "") then ret (Err errInvalidArgument)
  else sql (failLastCloseTransaction combination executionID fillA fillB remaining).

(** ** Order intents of an execution *)

(** One transaction for all of them: a conflict on one undoes the others. *)
Fixpoint insertIntents (orders : list Order) (dbnow : GoTime) (st : Store D) : Result (list (Order * bool)) * Store D :=
  match orders with
  | [] => (Ok [], st)
  | order :: rest =>
      match byIdempotency (o_IdempotencyKey order) st with
      | Some row =>
          if negb (o_RequestFingerprint (row_order row) =?s o_RequestFingerprint order) then (Err errIdempotencyConflict, st)
          else match insertIntents rest dbnow st with
          | (Ok l, st') => (Ok ((scanOrder row, false) :: l), st')
          | failed => failed
          end
      | None =>
          match insertOrder (arbitrageOrder order) dbnow st with
          | Err e => (Err e, st)
          | Ok row =>
              match insertIntents rest dbnow (st <| st_orders := <[o_ID order := row]> (st_orders st) |>
                      <| st_events := st_events st ++ [(o_ID order, "intent"%string)] |>) with
              | (Ok l, st') => (Ok ((scanOrder row, true) :: l), st')
              | failed => failed
              end
          end
      end
  end.

(** Identifiers are drawn before the transaction. *)
Fixpoint nameOrders (orders : list Order) : M D (list Order) :=
  match orders with
  | [] => ret []
  | order :: rest =>
      do n <- tick;
      do m <- tick;
      let order := if o_ID order =?s "" then order <| o_ID := newUUID n |> else order in
      let order := if o_ClientOrderID order =?s "" then order <| o_ClientOrderID := clientOrderID (newUUID m) |> else order in
      do rest <- nameOrders rest;
      ret (order :: rest)
  end.

Definition CreateArbitrageIntents (orders : list Order) : M D (Result (list (Order * bool))) :=
  if bool_decide (orders = []) then ret (Err errInvalidArgument)
  else do orders <- nameOrders orders; sql (insertIntents orders).

(** ** Creating a combination *)

(** A live combination of the owner holds one of the two instruments on the
    same account. *)
Definition instrumentConflict (st : Store D) (item : ArbitrageCombination) (keep : ArbitrageCombination -> bool) : bool :=
  let uses c leg := (l_TradingAccountID (c_LegA c) =? l_TradingAccountID leg)%Z && (l_InstrumentID (c_LegA c) =? l_InstrumentID leg)%Z ||
                    (l_TradingAccountID (c_LegB c) =? l_TradingAccountID leg)%Z && (l_InstrumentID (c_LegB c) =? l_InstrumentID leg)%Z in
  existsb (fun r => let c := cb_item r in
    (c_OwnerUsername c =?s c_OwnerUsername item) && liveCombination c && keep c && (uses c (c_LegA item) || uses c (c_LegB item)))
    (map snd (map_to_list (st_combinations st))).

Definition errInstrumentConflict : GoError :=
  mkError [ErrActiveArbitrageInstrumentConflict] "active arbitrage instrument conflict".

Definition defaultRunMode (value : string) : string :=
  let value := ToLower (TrimSpace value) in if value =?s "" then "spread" else value.

Definition nullableOneShotPhase (item : ArbitrageCombination) : string :=
  if negb (EqualFold (TrimSpace (c_RunMode item)) "one_shot") then ""
  else let phase := ToLower (TrimSpace (c_OneShotPhase item)) in if phase =?s "" then "building_target" else phase.

(** The inserted row: the arguments and the defaults of the table. *)
Definition newCombinationRow (item : ArbitrageCombination) (dbnow : GoTime) : option CombinationRow :=
  match mapM (numericAny (D := D)) [c_AskThresholdBps item; c_BidThresholdBps item; c_TargetNotional item;
                                    zeroString (c_PositionNotional item); zeroString (c_CumulativeTurnoverNotional item)],
        mapM (nullableTrim (D := D)) [c_OrderNotional item; c_LegALeverage item; c_LegBLeverage item; c_ExitAnnualizedRate item;
                            c_EarlyExitFunding8hAnnualizedFloor item; c_EarlyExitLiquidationDistancePct item],
        mapM (nullableNumeric (D := D)) [c_LegAVenueBaselineBasePosition item; c_LegBVenueBaselineBasePosition item] with
  | Some [ask; bid; target; position; turnover], Some [notional; levA; levB; rate; floor; distance], Some [baseA; baseB] =>
      let seconds := Z.max 0 (c_ExitAfterSeconds item) in
      Some (mkCombinationRow
        (zero_ArbitrageCombination <| c_ID := c_ID item |> <| c_IdempotencyKey := c_IdempotencyKey item |>
           <| c_RequestFingerprint := c_RequestFingerprint item |> <| c_OwnerUsername := c_OwnerUsername item |>
           <| c_LegA := c_LegA item |> <| c_LegB := c_LegB item |>
           <| c_AskThresholdBps := ask |> <| c_BidThresholdBps := bid |> <| c_TargetNotional := target |>
           <| c_OrderNotional := notional |> <| c_ExecutionMode := c_ExecutionMode item |> <| c_MakerLeg := c_MakerLeg item |>
           <| c_Status := c_Status item |> <| c_PositionNotional := position |> <| c_CumulativeTurnoverNotional := turnover |>
           <| c_LegAVenueBaselineBasePosition := baseA |> <| c_LegBVenueBaselineBasePosition := baseB |>
           <| c_MarketDataStale := c_MarketDataStale item |> <| c_RunMode := defaultRunMode (c_RunMode item) |>
           <| c_EntryDirection := c_EntryDirection item |> <| c_LegALeverage := levA |> <| c_LegBLeverage := levB |>
           <| c_ExitPolicy := c_ExitPolicy item |> <| c_ExitAnnualizedRate := rate |> <| c_ExitAfterSeconds := seconds |>
           <| c_OneShotPhase := nullableOneShotPhase item |> <| c_EarlyExitFunding8hAnnualizedFloor := floor |>
           <| c_EarlyExitLiquidationDistancePct := distance |> <| c_RuntimeState := "monitoring"%string |>
           <| c_LegABasePosition := "0"%string |> <| c_LegBBasePosition := "0"%string |>
           <| c_GrossTurnoverNotional := "0"%string |> <| c_RealizedSpreadPnl := "0"%string |>
           <| c_EstimatedFundingPnl := "0"%string |> <| c_NotionalExposureSeconds := "0"%string |>
           <| c_HoldingSeconds := "0"%string |> <| c_FundingHistoryComplete := true |>
           <| c_LegAReconciliationAdjustment := "0"%string |> <| c_LegBReconciliationAdjustment := "0"%string |>
           <| c_FinalMetricsStatus := "pending"%string |> <| c_Version := 1%Z |> <| c_CreatedAt := dbnow |> <| c_UpdatedAt := dbnow |>)
        NegInfinity NegInfinity None
        (if (seconds =? 0)%Z then None else Some (TimeAdd dbnow (seconds * Second)%Z)) None None
        (timestamptz (D := D) <$> nullableArbitrageTimestamp (c_VenueBaselineCapturedAt item)) None NegInfinity None)
  | _, _, _ => None
  end.

Definition createCombinationTransaction (item : ArbitrageCombination) (dbnow : GoTime) (st : Store D)
    : Result (ArbitrageCombination * bool) * Store D :=
  if instrumentConflict st item (fun c => negb (c_IdempotencyKey c =?s c_IdempotencyKey item)) then (Err errInstrumentConflict, st)
  else match newCombinationRow item dbnow with
  | None => (Err errOverflow, st)
  | Some row =>
      match List.find (fun r => c_IdempotencyKey (cb_item r) =?s c_IdempotencyKey item) (map snd (map_to_list (st_combinations st))) with
      | Some existing => (Ok (scanCombination (D := D) existing, false), st)
      | None =>
          if isSome (st_combinations st !! c_ID item) then (Err (errPlain "create arbitrage combination: duplicate key"), st)
          else (Ok (scanCombination (D := D) row, true),
                st <| st_combinations := <[c_ID item := row]> (st_combinations st) |>
                   <| st_arbitrageEvents := st_arbitrageEvents st ++ [(c_ID item, ""%string, "created"%string)] |>)
      end
  end.

Definition CreateArbitrageCombination (item : ArbitrageCombination) : M D (Result (ArbitrageCombination * bool)) :=
  do n <- tick;
  let item := if c_ID item =?s "" then item <| c_ID := newUUID n |> else item in
  sql (createCombinationTransaction item).

Definition FindActiveArbitrageInstrumentConflict (item : ArbitrageCombination) : M D (Result unit) :=
  sql (fun _ st => (if instrumentConflict st item (fun c => negb (c_IdempotencyKey c =?s c_IdempotencyKey item))
                    then Err errInstrumentConflict else Ok tt, st)).
End ArbHedgeIntent.
