(* ===== verification/FlattenStore.v ===== *)
(** * Transactions of the flattenings (arbitrage_repository.go)

    The claims of the final flatten of a one-shot exit and of the residual
    flatten of a close, the transaction that ends the first and the one that
    closes a combination with dust, the events that mark a recovery, and the
    queries the scheduler and the executor read the tables with. *)
From Stdlib Require Import ZArith QArith Lqa String.
From stdpp Require Import base strings list gmap sorting.
From S2P Require Import Prelude Decimal DecimalRef Types Quantity Validate ArbMath ArbSize ArbHedge Resolution FillAverage Store OrderStore OrderService FlattenRules ArbStore.

#[local] Set Warnings "-clear-no-such-hyp".

(** [LastCloseResidualFlattenClaim] *)
Record LastCloseResidualFlattenClaim := mkResidualClaim {
  rk_ExpectedVersion : Z;
  rk_Combination : ArbitrageCombination;
  rk_Orders : list Order
}.

(** [LastCloseResidualDustClose], without the payload of its event. *)
Record LastCloseResidualDustClose (D : Type) := mkDustClose {
  dc_CombinationID : string;
  dc_ExecutionID : string;
  dc_ExpectedVersion : Z;
  dc_LastOrderUpdatedAt : GoTime;
  dc_LegANotional : D;
  dc_LegBNotional : D;
  dc_LegAReducible : bool;
  dc_LegBReducible : bool
}.
Arguments mkDustClose {D}.
Arguments dc_CombinationID {D}.
Arguments dc_ExecutionID {D}.
Arguments dc_ExpectedVersion {D}.
Arguments dc_LastOrderUpdatedAt {D}.
Arguments dc_LegANotional {D}.
Arguments dc_LegBNotional {D}.
Arguments dc_LegAReducible {D}.
Arguments dc_LegBReducible {D}.

(** [arbitrageControlSummary] *)
Record arbitrageControlSummary := mkControlSummary { cs_Version : Z; cs_Status : string; cs_RuntimeState : string }.

Definition lastCloseResidualRecoveredEvent : string := "last_close_residual_recovered".
Definition lastCloseRecoveryOrderNotTerminalEvent : string := "last_close_recovery_order_not_terminal".
Definition lastCloseRecoveryFillMismatchEvent : string := "last_close_recovery_fill_mismatch".
Definition lastCloseResidualDustEvent : string := "closed_with_dust".

(** ['1970-01-02']. *)
Definition secondDay : GoTime := (unixEpoch + 24 * 3600 * Second)%Z.

Section FlattenStore.
Context {D : Type} `{!Decimal D} `{!Postgres D} `{!Env D} `{!Uuids}.
Local Open Scope dec_scope.

(** ** Queries *)

Definition GetArbitrageCombinationByOwner (owner id : string) : M D (Result ArbitrageCombination) :=
  sql (fun _ st => (match st_combinations st !! id with
                    | Some r => if c_OwnerUsername (cb_item r) =?s owner then Ok (scanCombination (D := D) r) else Err errNotFound
                    | None => Err errNotFound
                    end, st)).

Definition GetArbitrageControlSummary (id : string) : M D (Result arbitrageControlSummary) :=
  sql (fun _ st => (match st_combinations st !! id with
                    | Some r => Ok (mkControlSummary (c_Version (cb_item r)) (c_Status (cb_item r)) (c_RuntimeState (cb_item r)))
                    | None => Err errNotFound
                    end, st)).

(** [ORDER BY created_at DESC]; rows of the same instant in the order of the
    table. *)
Definition newerOrder (a b : OrderRow) : Prop := (o_CreatedAt (row_order b) <=? o_CreatedAt (row_order a))%Z = true.
#[local] Instance newerOrder_dec : RelDecision newerOrder := fun a b => decide (_ = true).
Definition ordersOf (owner id : string) (st : Store D) : list Order :=
  map scanOrder (merge_sort newerOrder (List.filter (fun r => o_OwnerUsername (row_order r) =?s owner) (combinationOrders st id))).
Definition ListArbitrageOrders (owner id : string) : M D (Result (list Order)) := sql (fun _ st => (Ok (ordersOf owner id st), st)).

(** [ORDER BY created_at DESC,id DESC LIMIT $2]. *)
Definition newerExecution (a b : ExecutionRow) : Prop :=
  let '(ta, tb) := (x_CreatedAt (ex_item a), x_CreatedAt (ex_item b)) in
  (tb <? ta)%Z || ((ta =? tb)%Z && negb (String.ltb (x_ID (ex_item a)) (x_ID (ex_item b)))) = true.
#[local] Instance newerExecution_dec : RelDecision newerExecution := fun a b => decide (_ = true).
Definition ListArbitrageExecutions (id : string) (limit : Z) : M D (Result (list ArbitrageExecution)) :=
  let limit := if (limit <=? 0)%Z || (100 <? limit)%Z then 20%Z else limit in
  sql (fun _ st => (Ok (map scanExecution (firstn (Z.to_nat limit) (merge_sort newerExecution (executionRows st id)))), st)).

Definition GetLastCloseResidualFlattenExecution (id : string) : M D (Result (option ArbitrageExecution)) :=
  if TrimSpace id =?s "" then ret (Err errInvalidArgument)
  else sql (fun _ st => (Ok (match st_executions st !! lastCloseResidualFlattenExecutionID id with
                             | Some r => if x_CombinationID (ex_item r) =?s id then Some (scanExecution r) else None
                             | None => None
                             end), st)).

(** ** Marks of a recovery *)

Definition eventSeen (st : Store D) (P : string -> string -> string -> bool) : bool :=
  existsb (fun '(c, e, t) => P c e t) (st_arbitrageEvents st).

(** [INSERT ... WHERE NOT EXISTS] an event of this kind of the execution. *)
Definition markOnce (id executionID eventType : string) (st : Store D) : Result unit * Store D :=
  if eventSeen st (fun _ e t => (e =?s executionID) && (t =?s eventType)) then (Ok tt, st)
  else match st_combinations st !! id with
       | Some _ => (Ok tt, st <| st_arbitrageEvents := st_arbitrageEvents st ++ [(id, executionID, eventType)] |>)
       | None => (Err (errPlain "foreign key"), st)
       end.

Definition RecordLastCloseRecoveryBlocked (id executionID eventType : string) : M D (Result unit) :=
  if negb ((eventType =?s lastCloseRecoveryOrderNotTerminalEvent) || (eventType =?s lastCloseRecoveryFillMismatchEvent))
  then ret (Err errInvalidArgument)
  else if (TrimSpace id =?s "") || (TrimSpace executionID =?s "") then ret (Err errInvalidArgument)
  else sql (fun _ st => markOnce id executionID eventType st).

Definition RecordLastCloseResidualRecovered (id executionID : string) : M D (Result unit) :=
  if (TrimSpace id =?s "") || (TrimSpace executionID =?s "") then ret (Err errInvalidArgument)
  else sql (fun _ st => markOnce id executionID lastCloseResidualRecoveredEvent st).

Definition LastCloseResidualRecovered (id : string) : M D (Result bool) :=
  if TrimSpace id =?s "" then ret (Err errInvalidArgument)
  else sql (fun _ st => (Ok (eventSeen st (fun c _ t => (c =?s id) && (t =?s lastCloseResidualRecoveredEvent))), st)).

(** ** The final flatten of a one-shot exit *)

(** [now] is the clock of the process, [dbnow] the one of the database. *)
Definition flattenClaimTransaction (claim : OneShotFinalFlattenClaim D) (now dbnow : GoTime) (st : Store D)
    : Result (ArbitrageExecution * bool) * Store D :=
  let x := fc_Execution claim in
  let id := x_CombinationID x in
  match st_combinations st !! id with
  | None => (Ok (zero_ArbitrageExecution, false), st)
  | Some row =>
      if negb (validateOneShotFinalFlattenClaim (scanCombination (D := D) row) claim now) || hasLiveOrder st id
      then (Ok (zero_ArbitrageExecution, false), st)
      else insertExecution x row dbnow st
  end.

Definition ClaimOneShotFinalFlattenExecution (claim : OneShotFinalFlattenClaim D) : M D (Result (ArbitrageExecution * bool)) :=
  do n <- tick;
  let x := fc_Execution claim in
  let x := if x_ID x =?s "" then x <| x_ID := newUUID n |> else x in
  if TrimSpace (x_CombinationID x) =?s "" then ret (Err errInvalidArgument)
  else
    do now <- timeNow;
    sql (flattenClaimTransaction
      (mkFlattenClaim x (fc_LegAQuantity claim) (fc_LegBQuantity claim) (fc_LegANotional claim) (fc_LegBNotional claim) (fc_ReconciledAt claim)) now).

(** The runtime state of a combination whose execution has ended. *)
Definition afterExecution (state : string) : string :=
  if existsb (String.eqb state) ["hedging"; "maker_open"; "repricing"]%string then "monitoring"%string else state.

(** The update of the combination, with or without a turnover. *)
Definition settleFlatten (id : string) (notional : D) (dbnow : GoTime) : Store D -> Result (option ArbitrageCombination) * Store D :=
  updateCombination id (fun _ => true)
    (fun r =>
       let c := cb_item r in
       let settled turnover := touch dbnow (r <| cb_item := c <| c_CumulativeTurnoverNotional := turnover |> <| c_RuntimeState := afterExecution (c_RuntimeState c) |> |>) in
       if dIsPositive notional then
         match numericAny (D := D) (dString (parseDecimal (c_CumulativeTurnoverNotional c) + dAbs notional)) with
         | Some turnover => Ok (settled turnover)
         | None => Err errOverflow
         end
       else Ok (settled (c_CumulativeTurnoverNotional c))).

(** [(combination, execution, applied)] *)
Definition finalizeFlattenTransaction (executionID : string) (dbnow : GoTime) (st : Store D)
    : Result (ArbitrageCombination * ArbitrageExecution * bool) * Store D :=
  match st_executions st !! executionID with
  | None => (Err errNotFound, st)
  | Some row =>
      let x := scanExecution row in
      let id := x_CombinationID x in
      match st_combinations st !! id with
      | None => (Err errNotFound, st)
      | Some combo =>
          let orders := map scanOrder (executionOrders st executionID) in
          if negb (oneShotFinalFlattenOrdersTerminal orders executionID) then (Err errReconciling, st)
          else if terminalArbitrageExecutionStatus (x_Status x) then (Ok (scanCombination (D := D) combo, x, false), st)
          else match updatePositions id dbnow st with
          | (Err e, _) => (Err e, st)
          | (Ok _, st1) =>
              let '(fillA, fillB, notional) := oneShotFinalFlattenFillTotals orders executionID in
              let status := if negb (dIsPositive fillA) && negb (dIsPositive fillB) then "failed"%string else "completed"%string in
              match numericAny (D := D) (dString fillA), numericAny (D := D) (dString fillB), numericAny (D := D) (dString notional) with
              | Some a, Some b, Some delta =>
                  let row' := row <| ex_item := (ex_item row) <| x_Status := status |> <| x_LegAFilledQuantity := a |> <| x_LegBFilledQuantity := b |>
                                       <| x_DeltaNotional := delta |> <| x_ErrorMessage := ""%string |> <| x_UpdatedAt := dbnow |> |>
                                  <| ex_closed_at := Some dbnow |> in
                  match settleFlatten id notional dbnow (st1 <| st_executions := <[executionID := row']> (st_executions st1) |>) with
                  | (Ok (Some c), st2) => (Ok (c, scanExecution row', true), st2)
                  | (Ok None, _) => (Err errNotFound, st)
                  | (Err e, _) => (Err e, st)
                  end
              | _, _, _ => (Err errOverflow, st)
              end
          end
      end
  end.

Definition FinalizeOneShotFinalFlattenExecution (executionID : string) : M D (Result (ArbitrageCombination * ArbitrageExecution * bool)) :=
  if TrimSpace executionID =?s "" then ret (Err errInvalidArgument) else sql (finalizeFlattenTransaction executionID).

(** ** The residual flatten of a close *)

Definition residualOrderOk (executionID : string) (o : Order) : bool :=
  let leg := legOf o in
  ((leg =?s "a") || (leg =?s "b")) && o_ReduceOnly o && (o_OrderType o =?s "market") &&
  (o_ArbitrageExecutionID o =?s executionID) && (o_IdempotencyKey o =?s lastCloseResidualFlattenIdempotencyKey executionID leg) &&
  dIsPositive (parseDecimal (D := D) (o_Quantity o)).

(** One or two orders, of different legs. *)
Definition validateLastCloseResidualFlattenOrders (executionID : string) (orders : list Order) : bool :=
  match orders with
  | [o] => residualOrderOk executionID o
  | [o; p] => residualOrderOk executionID o && residualOrderOk executionID p && negb (legOf o =?s legOf p)
  | _ => false
  end.

(** Another execution of the combination, or an order of one, is under way. *)
Definition otherWork (st : Store D) (id executionID : string) : bool :=
  existsb (fun r => negb (x_ID (ex_item r) =?s executionID) && activeExecution r) (executionRows st id) ||
  existsb (fun r => negb (o_ArbitrageExecutionID (row_order r) =?s executionID) && negb (terminalStatus (o_Status (row_order r)))) (combinationOrders st id).

Fixpoint insertResidualOrders (executionID : string) (orders : list Order) (dbnow : GoTime) (st : Store D) : Result unit * Store D :=
  match orders with
  | [] => (Ok tt, st)
  | order :: rest =>
      match byIdempotency (o_IdempotencyKey order) st with
      | Some _ => (Err (errPlain "duplicate key value violates unique constraint"), st)
      | None =>
          match insertOrder (arbitrageOrder (order <| o_ArbitrageExecutionID := executionID |>)) dbnow st with
          | Err e => (Err e, st)
          | Ok row => insertResidualOrders executionID rest dbnow (st <| st_orders := <[o_ID order := row]> (st_orders st) |>)
          end
      end
  end.

Definition residualDirection (orders : list Order) : string :=
  if existsb (fun o => EqualFold (o_ArbitrageLeg o) "a" && EqualFold (o_Side o) "buy") orders then "ask"%string else "bid"%string.

(** The columns of the new execution. *)
Definition newResidualExecution (id executionID : string) (orders : list Order) : ArbitrageExecution :=
  zero_ArbitrageExecution <| x_ID := executionID |> <| x_CombinationID := id |> <| x_Direction := residualDirection orders |>
    <| x_Status := "hedging"%string |> <| x_TriggerAskSpread := "0"%string |> <| x_TriggerBidSpread := "0"%string |>
    <| x_TriggerLegABid := "0"%string |> <| x_TriggerLegAAsk := "0"%string |> <| x_TriggerLegBBid := "0"%string |> <| x_TriggerLegBAsk := "0"%string |>
    <| x_TargetBaseQuantity := dString (fold_left (fun t o => t + parseDecimal (o_Quantity o)) orders (dZero (D := D))) |>
    <| x_RequestedNotional := "0"%string |> <| x_PositionEffect := "close"%string |> <| x_ReduceOnly := true |> <| x_LastCloseClip := false |>
    <| x_LegAFilledQuantity := "0"%string |> <| x_LegBFilledQuantity := "0"%string |> <| x_DeltaNotional := "0"%string |>.

Definition residualClaimTransaction (id : string) (claim : LastCloseResidualFlattenClaim) (dbnow : GoTime) (st : Store D)
    : Result (ArbitrageExecution * bool) * Store D :=
  let executionID := lastCloseResidualFlattenExecutionID id in
  match st_combinations st !! id with
  | None => (Err errNotFound, st)
  | Some row =>
      match st_executions st !! executionID with
      | Some existing => (Ok (scanExecution existing, false), st)
      | None =>
          let c := cb_item row in
          if negb (c_Version c =? rk_ExpectedVersion claim)%Z || negb (EqualFold (c_Status c) "closing") || c_PositionUncertain c ||
             c_CircuitOpen c || (c_RuntimeState c =?s "manual_intervention") then (Ok (zero_ArbitrageExecution, false), st)
          else if otherWork st id executionID then (Ok (zero_ArbitrageExecution, false), st)
          else
            let x := newResidualExecution id executionID (rk_Orders claim) in
            match newExecutionRow (D := D) x (nextSequence st id) dbnow with
            | None => (Err errOverflow, st)
            | Some inserted =>
                if executionConflict st x then (Err (errPlain "duplicate key value violates unique constraint"), st)
                else match insertResidualOrders executionID (rk_Orders claim) dbnow (st <| st_executions := <[executionID := inserted]> (st_executions st) |>) with
                | (Err e, _) => (Err e, st)
                | (Ok _, st1) =>
                    if negb (c_Status c =?s "closing") then (Ok (zero_ArbitrageExecution, false), st)
                    else (Ok (scanExecution inserted, true), st1 <| st_combinations := <[id := touch dbnow row]> (st_combinations st1) |>)
                end
            end
      end
  end.

Definition ClaimLastCloseResidualFlattenExecution (claim : LastCloseResidualFlattenClaim) : M D (Result (ArbitrageExecution * bool)) :=
  let id := TrimSpace (c_ID (rk_Combination claim)) in
  if (id =?s "") || (rk_ExpectedVersion claim <=? 0)%Z || bool_decide (rk_Orders claim = []) then ret (Err errInvalidArgument)
  else if negb (validateLastCloseResidualFlattenOrders (lastCloseResidualFlattenExecutionID id) (rk_Orders claim)) then ret (Err errInvalidArgument)
  else do orders <- nameOrders (rk_Orders claim);
       sql (residualClaimTransaction id (mkResidualClaim (rk_ExpectedVersion claim) (rk_Combination claim) orders)).

(** The row of a combination closed with dust. *)
Definition dustClosedRow (dbnow : GoTime) (r : CombinationRow) : CombinationRow :=
  let done := metricsCompleted r in
  let r1 := forgetFailures r in
  let c := cb_item r1 in
  touch dbnow (r1 <| cb_item := c <| c_Status := "closed"%string |> <| c_MarketDataStale := true |>
      <| c_RuntimeState := "monitoring"%string |> <| c_ErrorMessage := ""%string |>
      <| c_FinalMetricsStatus := if done then "completed"%string else "partial"%string |>
      <| c_FinalMetricsLastError := if done then c_FinalMetricsLastError c else "residual_dust_metrics_skipped"%string |> |>
      <| cb_closed_at := Some dbnow |>
      <| cb_final_metrics_next_retry_at := if done then cb_final_metrics_next_retry_at r else PosInfinity |>
      <| cb_final_metrics_completed_at := if done then cb_final_metrics_completed_at r else None |>).

Definition dustCloseAllowed (request : LastCloseResidualDustClose D) (st : Store D) (r : CombinationRow) : bool :=
  let c := cb_item r in
  let lastOrder := if IsZeroTime (dc_LastOrderUpdatedAt request) then unixEpoch else dc_LastOrderUpdatedAt request in
  let lastOrder := timestamptz (D := D) lastOrder in
  (c_Version c =? dc_ExpectedVersion request)%Z && (c_Status c =?s "closing") && negb (c_PositionUncertain c) && negb (c_CircuitOpen c) &&
  negb (c_RuntimeState c =?s "manual_intervention") &&
  match cb_last_position_reconciled_at r with
  | Some at_ => (secondDay <? at_)%Z && ((lastOrder <=? secondDay)%Z || (lastOrder <=? at_)%Z)
  | None => false
  end &&
  (dc_LegANotional request <? dNewFromInt arbitrageMinOpenNotional) && (dc_LegBNotional request <? dNewFromInt arbitrageMinOpenNotional) &&
  negb (dc_LegAReducible request) && negb (dc_LegBReducible request) && nothingLive st (dc_CombinationID request).

Definition dustCloseTransaction (request : LastCloseResidualDustClose D) (dbnow : GoTime) (st : Store D)
    : Result (option ArbitrageCombination) * Store D :=
  let id := dc_CombinationID request in
  match st_combinations st !! id with
  | None => (Err errNotFound, st)
  | Some _ =>
      match updateCombination id (dustCloseAllowed request st) (fun r => Ok (dustClosedRow dbnow r)) st with
      | (Ok (Some c), st1) =>
          (Ok (Some c), if eventSeen st1 (fun c e t => (c =?s id) && (t =?s lastCloseResidualDustEvent)) then st1
                        else st1 <| st_arbitrageEvents := st_arbitrageEvents st1 ++ [(id, dc_ExecutionID request, lastCloseResidualDustEvent)] |>)
      | other => other
      end
  end.

Definition CloseLastCloseResidualWithDust (request : LastCloseResidualDustClose D) : M D (Result (option ArbitrageCombination)) :=
  if (TrimSpace (dc_CombinationID request) =?s "") || (dc_ExpectedVersion request <=? 0)%Z then ret (Err errInvalidArgument)
  else if negb (dc_LegANotional request <? dNewFromInt arbitrageMinOpenNotional) || negb (dc_LegBNotional request <? dNewFromInt arbitrageMinOpenNotional) ||
          dc_LegAReducible request || dc_LegBReducible request || dIsNegative (dc_LegANotional request) || dIsNegative (dc_LegBNotional request)
  then ret (Ok None)
  else sql (dustCloseTransaction request).
End FlattenStore.
