(* ===== verification/ArbLedger.v ===== *)
(** * What the arbitrage repository keeps

    Invariants of the tables under every transaction of ArbStore: one active
    execution per combination, hedge orders once per key and sequence, the
    ledger positions as the signed sum of the fills, the circuit after five
    equal failures, and the order of the phases of a one-shot. *)
From Stdlib Require Import ZArith QArith Qabs Qround Qminmax Lqa String Ascii.
From stdpp Require Import base strings list gmap sorting.
From S2P Require Import Prelude Decimal DecimalRef Types Quantity Validate ArbMath ArbSize ArbHedge Resolution FillAverage OneShotExit Store OrderStore OrderService FlattenRules ArbStore FlattenStore.

#[local] Set Warnings "-clear-no-such-hyp".

(** ** One active execution *)

Section OneActive.
Context {D : Type} `{!Decimal D} `{!Postgres D} `{!Env D}.

(** Every transaction of the repository; [astep_combination] is any [UPDATE]
    of a combination. *)
Inductive arbStep : Store D -> Store D -> Prop :=
| astep_combination id cond assign st r st' : updateCombination id cond assign st = (r, st') -> arbStep st st'
| astep_create item t st r st' : createCombinationTransaction item t st = (r, st') -> arbStep st st'
| astep_audit id v va vb da db u m la lb t st r st' :
    auditTransaction id v va vb da db u m la lb t st = (r, st') -> arbStep st st'
| astep_config owner id input now t st r st' : configTransaction owner id input now t st = (r, st') -> arbStep st st'
| astep_lease n lease t st r st' : leaseCombinations n lease t st = (r, st') -> arbStep st st'
| astep_claim x t st r st' : claimTransaction x t st = (r, st') -> arbStep st st'
| astep_execution x t st r st' : updateExecutionTransaction x t st = (r, st') -> arbStep st st'
| astep_positions id t st r st' : updatePositions id t st = (r, st') -> arbStep st st'
| astep_recompute e t st r st' : recomputeForExecution e t st = (r, st') -> arbStep st st'
| astep_hedge input t st r st' : prepareHedgeTransaction input t st = (r, st') -> arbStep st st'
| astep_unbalanced c e fa fb rem t st r st' : failLastCloseTransaction c e fa fb rem t st = (r, st') -> arbStep st st'
| astep_intents orders t st r st' : insertIntents orders t st = (r, st') -> arbStep st st'
| astep_flatten claim now t st r st' : flattenClaimTransaction (D := D) claim now t st = (r, st') -> arbStep st st'
| astep_finalize e t st r st' : finalizeFlattenTransaction (D := D) e t st = (r, st') -> arbStep st st'
| astep_residual (u : Uuids) id claim t st r st' : residualClaimTransaction (D := D) id claim t st = (r, st') -> arbStep st st'
| astep_dust request t st r st' : dustCloseTransaction (D := D) request t st = (r, st') -> arbStep st st'
| astep_other st st' : st_executions st' = st_executions st -> arbStep st st'.

(** The rows are under their identifiers, and two active executions of a
    combination are one. *)
Definition executionsKeyed (st : Store D) : Prop :=
  forall k r, st_executions st !! k = Some r -> x_ID (ex_item r) = k.
Definition oneActive (st : Store D) : Prop :=
  forall k1 k2 r1 r2, st_executions st !! k1 = Some r1 -> st_executions st !! k2 = Some r2 ->
    x_CombinationID (ex_item r1) = x_CombinationID (ex_item r2) ->
    activeExecution r1 = true -> activeExecution r2 = true -> k1 = k2.
Definition executionsSound (st : Store D) : Prop := executionsKeyed st /\ oneActive st.

(** What a step may do to the executions: nothing, rewrite one without
    reviving it, or add one to a combination that has no other active. *)
Definition rewritten (row row' : ExecutionRow) : Prop :=
  x_ID (ex_item row') = x_ID (ex_item row) /\ x_CombinationID (ex_item row') = x_CombinationID (ex_item row) /\
  (activeExecution row' = true -> activeExecution row = true).

Definition executionChange (m m' : gmap string ExecutionRow) : Prop :=
  m' = m \/
  (exists k row row', m !! k = Some row /\ rewritten row row' /\ m' = <[k := row']> m) \/
  (exists k row', m !! k = None /\ x_ID (ex_item row') = k /\ m' = <[k := row']> m /\
     (activeExecution row' = true -> forall j r, m !! j = Some r ->
        x_CombinationID (ex_item r) = x_CombinationID (ex_item row') -> activeExecution r = false)).

Lemma executionChange_sound (st st' : Store D) :
  executionChange (st_executions st) (st_executions st') -> executionsSound st -> executionsSound st'.
Proof.
  intros [E|[(k & row & row' & Hk & (Hid & Hc & Ha) & E)|(k & row' & Hk & Hid & E & Ha)]] [K O];
    unfold executionsSound, executionsKeyed, oneActive; rewrite E; [by split|..].
  - split.
    + intros j r [[<- <-]|[_ Hj]]%lookup_insert_Some; [rewrite Hid|]; eauto.
    + intros j1 j2 r1 r2 [[<- <-]|[Hn1 H1]]%lookup_insert_Some [[<- <-]|[Hn2 H2]]%lookup_insert_Some Hcc A1 A2.
      * done.
      * apply (O k j2 row r2); [done|done|congruence|by apply Ha|done].
      * apply (O j1 k r1 row); [done|done|congruence|done|by apply Ha].
      * by apply (O j1 j2 r1 r2).
  - split.
    + intros j r [[<- <-]|[_ Hj]]%lookup_insert_Some; eauto.
    + intros j1 j2 r1 r2 [[<- <-]|[Hn1 H1]]%lookup_insert_Some [[<- <-]|[Hn2 H2]]%lookup_insert_Some Hcc A1 A2.
      * done.
      * by rewrite (Ha A1 _ _ H2 (eq_sym Hcc)) in A2.
      * by rewrite (Ha A2 _ _ H1 Hcc) in A1.
      * by apply (O j1 j2 r1 r2).
Qed.

Lemma hasActiveExecution_spec (st : Store D) id :
  hasActiveExecution st id = false <->
  forall j r, st_executions st !! j = Some r -> x_CombinationID (ex_item r) = id -> activeExecution r = false.
Proof.
  unfold hasActiveExecution. split.
  - intros H j r Hj Hc. destruct (activeExecution r) eqn:Ha; [|done]. rewrite <- H. symmetry. apply existsb_exists.
    exists r. split; [|done]. apply filter_In. split; [|by apply String.eqb_eq].
    apply in_map_iff. exists (j, r). split; [done|]. by apply list_elem_of_In, elem_of_map_to_list.
  - intros H. destruct (existsb _ _) eqn:E; [|done]. apply existsb_exists in E as (r & Hin & Ha).
    apply filter_In in Hin as [Hin Hc]. apply String.eqb_eq in Hc. apply in_map_iff in Hin as ([j r'] & <- & Hin).
    apply list_elem_of_In, elem_of_map_to_list in Hin. cbn in Ha, Hc. by rewrite (H _ _ Hin Hc) in Ha.
Qed.

(** Transactions that leave the executions. *)
Lemma updateCombination_executions id cond assign (st st' : Store D) r :
  updateCombination id cond assign st = (r, st') -> st_executions st' = st_executions st.
Proof. unfold updateCombination. intros H. repeat (case_match; simplify_eq/=; try done). Qed.

Lemma updatePositions_executions id t (st st' : Store D) r :
  updatePositions id t st = (r, st') -> st_executions st' = st_executions st.
Proof.
  unfold updatePositions. destruct (updateCombination _ _ _ _) as [u st1] eqn:E. apply updateCombination_executions in E.
  destruct u as [[c|]|e]; intros [= <- <-]; done.
Qed.

Lemma configTransaction_executions owner id input now t (st st' : Store D) r :
  configTransaction owner id input now t st = (r, st') -> st_executions st' = st_executions st.
Proof.
  unfold configTransaction, updateOneShotConfig, updateSpreadConfig. intros H.
  repeat (case_match; simplify_eq/=; try done);
    match goal with E : updateCombination _ _ _ _ = _ |- _ => by apply updateCombination_executions in E end.
Qed.

Lemma insertIntents_executions orders t (st st' : Store D) r :
  insertIntents orders t st = (r, st') -> st_executions st' = st_executions st.
Proof.
  revert st st' r. induction orders as [|o orders IH]; intros st st' r; cbn [insertIntents]; [by intros [= _ <-]|].
  destruct (byIdempotency _ _).
  - destruct (negb _); [by intros [= _ <-]|]. destruct (insertIntents _ _ _) as [[l|e] st1] eqn:E; apply IH in E; by intros [= _ <-].
  - destruct (insertOrder _ _ _); [|by intros [= _ <-]].
    destruct (insertIntents _ _ _) as [[l|e] st1] eqn:E; apply IH in E; by intros [= _ <-].
Qed.

Lemma assignExecution_item x t row row' :
  assignExecution (D := D) x t row = Some row' ->
  x_ID (ex_item row') = x_ID (ex_item row) /\ x_CombinationID (ex_item row') = x_CombinationID (ex_item row) /\
  x_Status (ex_item row') = x_Status x.
Proof.
  unfold assignExecution. destruct (numericAny _); [|done]. destruct (numericAny _); [|done].
  destruct (numericAny _); [|done]. by intros [= <-].
Qed.

Lemma finalizeFlatten_change e t (st st' : Store D) r :
  finalizeFlattenTransaction (D := D) e t st = (r, st') -> executionChange (st_executions st) (st_executions st').
Proof.
  unfold finalizeFlattenTransaction. cbv zeta. intros H. destruct (st_executions st !! e) as [row|] eqn:Hr; [|injection H as _ <-; by left].
  destruct (st_combinations st !! _); [|injection H as _ <-; by left]. destruct (negb _); [injection H as _ <-; by left|].
  destruct (terminalArbitrageExecutionStatus _) eqn:Ht; [injection H as _ <-; by left|].
  destruct (updatePositions _ _ _) as [[c1|e1] st1] eqn:Ep; [|injection H as _ <-; by left]. apply updatePositions_executions in Ep.
  destruct (oneShotFinalFlattenFillTotals _ _) as [[fa fb] nt].
  destruct (numericAny _); [|injection H as _ <-; by left]. destruct (numericAny _); [|injection H as _ <-; by left].
  destruct (numericAny _); [|injection H as _ <-; by left].
  destruct (settleFlatten _ _ _ _) as [u st2] eqn:Es. apply updateCombination_executions in Es.
  destruct u as [[c2|]|e2]; injection H as _ <-; [|by left|by left]. right. left.
  exists e, row. eexists. split; [done|]. split; [|rewrite Es; cbn; by rewrite Ep].
  split; [done|]. split; [done|]. intros Ha. exfalso. unfold activeExecution in Ha. cbn in Ha. by destruct (_ && _) in Ha.
Qed.

Lemma insertResidualOrders_executions e orders t (st st' : Store D) r :
  insertResidualOrders e orders t st = (r, st') -> st_executions st' = st_executions st.
Proof.
  revert st. induction orders as [|o orders IH]; intros st; cbn [insertResidualOrders]; [by intros [= _ <-]|].
  destruct (byIdempotency _ _); [by intros [= _ <-]|]. destruct (insertOrder _ _ _); [|by intros [= _ <-]]. by intros ->%IH.
Qed.

Lemma newExecutionRow_item (x : ArbitrageExecution) n t inserted : newExecutionRow (D := D) x n t = Some inserted ->
  x_ID (ex_item inserted) = x_ID x /\ x_CombinationID (ex_item inserted) = x_CombinationID x /\ x_Status (ex_item inserted) = x_Status x.
Proof.
  unfold newExecutionRow. destruct (mapM _ _) as [l|]; [|done]. do 12 (destruct l as [|? l]; try done). by intros [= <-].
Qed.

Lemma insert_change (x : ArbitrageExecution) n t inserted (st : Store D) :
  newExecutionRow (D := D) x n t = Some inserted -> executionConflict st x = false ->
  executionChange (st_executions st) (<[x_ID x := inserted]> (st_executions st)).
Proof.
  intros (Hid & Hc & Hs)%newExecutionRow_item [Hn Ha]%orb_false_iff. right. right.
  exists (x_ID x), inserted. split; [by destruct (st_executions st !! x_ID x)|]. split; [done|]. split; [done|].
  unfold activeExecution at 1. rewrite Hs. intros Hact. rewrite Hact in Ha. cbn in Ha. intros j r' Hj Hcc.
  apply (proj1 (hasActiveExecution_spec st (x_CombinationID x)) Ha j r' Hj). congruence.
Qed.

Lemma insertExecution_change x row t (st st' : Store D) r :
  insertExecution x row t st = (r, st') -> executionChange (st_executions st) (st_executions st').
Proof.
  unfold insertExecution. destruct (newExecutionRow _ _ _) as [inserted|] eqn:En; [|intros [= _ <-]; by left].
  destruct (executionConflict st x) eqn:Hx; intros [= _ <-]; [by left|]. by eapply insert_change.
Qed.

Lemma residualClaim_change {u : Uuids} id claim t (st st' : Store D) r :
  residualClaimTransaction (D := D) id claim t st = (r, st') -> executionChange (st_executions st) (st_executions st').
Proof.
  unfold residualClaimTransaction. cbv zeta. intros H. destruct (st_combinations st !! id); [|injection H as _ <-; by left].
  destruct (st_executions st !! _) eqn:He; [injection H as _ <-; by left|]. destruct (_ || _); [injection H as _ <-; by left|].
  destruct (otherWork _ _ _) eqn:Hw; [injection H as _ <-; by left|].
  destruct (newExecutionRow _ _ _) as [inserted|] eqn:En; [|injection H as _ <-; by left].
  destruct (executionConflict _ _) eqn:Ex; [injection H as _ <-; by left|].
  destruct (insertResidualOrders _ _ _ _) as [[v|e] st1] eqn:Ei; [|injection H as _ <-; by left]. apply insertResidualOrders_executions in Ei.
  destruct (negb _); injection H as _ <-; [by left|]. cbn. rewrite Ei. exact (insert_change _ _ _ _ st En Ex).
Qed.

Lemma arbStep_change (st st' : Store D) : arbStep st st' -> executionChange (st_executions st) (st_executions st').
Proof.
  destruct 1 as [id cond assign st r st' H|item t st r st' H|id v va vb da db u m la lb t st r st' H|owner id input now t st r st' H
    |n lease t st r st' H|x t st r st' H|x t st r st' H|id t st r st' H|e t st r st' H|input t st r st' H|c e fa fb rem t st r st' H
    |orders t st r st' H|claim now t st r st' H|e t st r st' H|u id claim t st r st' H|request t st r st' H|st st' E].
  - left. by eapply updateCombination_executions.
  - left. unfold createCombinationTransaction in H. repeat (case_match; simplify_eq/=; try done).
  - left. unfold auditTransaction in H. repeat (case_match; simplify_eq/=; try done).
  - left. by eapply configTransaction_executions.
  - left. by injection H as _ <-.
  - unfold claimTransaction in H. destruct (st_combinations st !! _); [|injection H as _ <-; by left].
    destruct (_ || _); [injection H as _ <-; by left|]. by eapply insertExecution_change.
  - unfold updateExecutionTransaction in H. destruct (st_executions st !! x_ID x) as [row|] eqn:Hr; [|injection H as _ <-; by left].
    cbv zeta in H. destruct (activeExecution row || _) eqn:Hc; [|injection H as _ <-; by left].
    destruct (assignExecution _ _ _) as [row'|] eqn:Ea; injection H as _ <-; [right; left|by left].
    apply assignExecution_item in Ea as (Ei & Ec & Es). exists (x_ID x), row. eexists. split; [done|]. split; [|reflexivity].
    split; [done|]. split; [done|]. unfold activeExecution at 1. cbn [ex_item setter]. rewrite Es. intros Ht.
    apply orb_true_iff in Hc as [Hc|Hc]; [done|]. by rewrite Hc in Ht.
  - left. by eapply updatePositions_executions.
  - unfold recomputeForExecution in H. destruct (st_executions st !! e) as [row|] eqn:Hr; [|injection H as _ <-; by left].
    cbv zeta in H. destruct (st_combinations st !! _); [|injection H as _ <-; by left].
    destruct (executionFills _ _ _) as [fa fb]. destruct (numericAny _); [|injection H as _ <-; by left].
    destruct (numericAny _); [|injection H as _ <-; by left]. apply updatePositions_executions in H. right. left.
    exists e, row. eexists. split; [done|]. split; [|exact H]. by repeat split.
  - unfold prepareHedgeTransaction in H. cbv zeta in H.
    destruct (st_combinations st !! _); [|injection H as _ <-; by left].
    destruct (st_executions st !! _) as [row|] eqn:Hr; [|injection H as _ <-; by left].
    destruct (negb _); [injection H as _ <-; by left|].
    destruct (terminalArbitrageExecutionStatus _) eqn:Ht; [injection H as _ <-; by left|].
    destruct (if ph_FastPathAdmission input then _ else _) as [x1|]; [|injection H as _ <-; by left].
    destruct (if ph_AggregateCarry input then _ else _); [|injection H as _ <-; by left].
    destruct (hedgeOrder input x1 t st) as [[[[stored created] x2] st2]|] eqn:Eh; [|injection H as _ <-; by left].
    destruct (assignExecution _ _ _) as [row'|] eqn:Ea; injection H as _ <-; [right; left|by left].
    apply assignExecution_item in Ea as (Ei & Ec & Es).
    assert (st_executions st2 = st_executions st) as E2.
    { unfold hedgeOrder in Eh. repeat (case_match; simplify_eq/=; try done). }
    exists (x_ID (ph_Execution input)), row, row'. split; [done|]. split; [|cbn; by rewrite E2].
    split; [done|]. split; [done|]. intros _. unfold activeExecution.
    change (x_Status (scanExecution row)) with (x_Status (ex_item row)) in Ht. by rewrite Ht.
  - unfold failLastCloseTransaction in H. cbv zeta in H.
    destruct (st_combinations st !! _); [|injection H as _ <-; by left].
    destruct (st_executions st !! e) as [row|] eqn:Hr; [|injection H as _ <-; by left].
    destruct (negb _); [injection H as _ <-; by left|]. destruct (_ && _); [injection H as _ <-; by left|].
    destruct (_ || _); [injection H as _ <-; by left|].
    destruct (terminalArbitrageExecutionStatus _); injection H as _ <-; [by left|right; left].
    exists e, row. eexists. split; [done|]. split; [|reflexivity]. by repeat split.
  - left. by eapply insertIntents_executions.
  - unfold flattenClaimTransaction in H. destruct (st_combinations st !! _); [|injection H as _ <-; by left].
    destruct (_ || _); [injection H as _ <-; by left|]. by eapply insertExecution_change.
  - by eapply finalizeFlatten_change.
  - by eapply residualClaim_change.
  - left. unfold dustCloseTransaction in H. destruct (st_combinations st !! _); [|by injection H as _ <-].
    destruct (updateCombination _ _ _ _) as [u st1] eqn:Eu. apply updateCombination_executions in Eu.
    destruct u as [[c'|]|e]; [|by injection H as _ <-..]. injection H as _ <-. by destruct (eventSeen _ _).
  - by left.
Qed.

(** C5: a combination has at most one execution in flight.  Whatever sequence
    of claims, updates, hedge intents, recomputations and failures the workers
    run, and however they interleave, two executions of a combination are never
    active at the same time, and a finished one is never revived. *)
Theorem one_active_execution (st st' : Store D) :
  rtc arbStep st st' -> executionsSound st ->
  executionsSound st' /\
  forall k row, st_executions st !! k = Some row -> activeExecution row = false ->
    exists row', st_executions st' !! k = Some row' /\ activeExecution row' = false /\
      x_CombinationID (ex_item row') = x_CombinationID (ex_item row).
Proof.
  intros Hrtc. induction Hrtc as [st|st st1 st2 Hs _ IH]; intros HS; [by eauto|].
  pose proof (arbStep_change _ _ Hs) as Hch. destruct (IH (executionChange_sound _ _ Hch HS)) as [HS2 IH2].
  split; [done|]. intros k row Hk Ha.
  assert (exists row1, st_executions st1 !! k = Some row1 /\ activeExecution row1 = false /\
    x_CombinationID (ex_item row1) = x_CombinationID (ex_item row)) as (row1 & Hk1 & Ha1 & Hc1).
  { destruct Hch as [E|[(j & r & r' & Hj & (_ & Hc & Hact) & E)|(j & r' & Hj & _ & E & _)]]; rewrite E; [by eauto|..].
    - destruct (decide (j = k)) as [->|Hn]; [|rewrite lookup_insert_ne by done; by eauto].
      rewrite lookup_insert_eq. assert (r = row) as -> by congruence. exists r'. split; [done|]. split; [|done].
      destruct (activeExecution r') eqn:E'; [|done]. by rewrite (Hact eq_refl) in Ha.
    - rewrite lookup_insert_ne by congruence. by eauto. }
  destruct (IH2 _ _ Hk1 Ha1) as (row2 & ? & ? & Hc2). exists row2. split; [done|]. split; [done|]. congruence.
Qed.
End OneActive.

(** ** Hedge orders *)

Section HedgeOnce.
Context {D : Type} `{!Decimal D} `{!DecimalLaws D} `{!Postgres D} `{!Env D}.

Record prepared (input : PrepareHedgeInput) (t : GoTime) (st st' : Store D) (r : PrepareHedgeResult)
    (combo : CombinationRow) (row row' : ExecutionRow) : Prop := {
  pd_combo : st_combinations st !! c_ID (ph_Combination input) = Some combo;
  pd_row : st_executions st !! x_ID (ph_Execution input) = Some row;
  pd_active : activeExecution row = true;
  pd_admitted : ph_AggregateCarry input = true -> exists x, admitAggregateCarry st input (cb_item combo) x = Ok tt;
  pd_row' : st_executions st' !! x_ID (ph_Execution input) = Some row';
  pd_old : pr_Created r = false -> st_orders st' = st_orders st;
  pd_new : pr_Created r = true -> x_HedgeSequence (ex_item row) = ph_ExpectedSequence input /\
    x_HedgeSequence (ex_item row') = ph_ExpectedSequence input + 1 /\
    byIdempotency (o_IdempotencyKey (ph_Order input)) st = None /\
    exists orow, st_orders st' = <[o_ID (ph_Order input) := orow]> (st_orders st) /\
      o_IdempotencyKey (row_order orow) = o_IdempotencyKey (ph_Order input)
}.

Lemma fastPath_sequence (st : Store D) input x x' :
  admitFastPathHedgeIntent st input x = Ok x' -> x_HedgeSequence x' = x_HedgeSequence x.
Proof.
  unfold admitFastPathHedgeIntent. intros H. repeat (case_match; simplify_eq/=; try done).
  unfold setExecutionMakerFilled. by destruct (EqualFold _ _).
Qed.

Lemma prepare_ok input t (st st' : Store D) r :
  prepareHedgeTransaction input t st = (Ok r, st') -> exists combo row row', prepared input t st st' r combo row row'.
Proof.
  unfold prepareHedgeTransaction. cbv zeta. destruct (st_combinations st !! _) as [combo|] eqn:Hc; [|done].
  destruct (st_executions st !! _) as [row|] eqn:Hr; [|done]. destruct (negb _); [done|].
  destruct (terminalArbitrageExecutionStatus _) eqn:Ht; [done|].
  destruct (if ph_FastPathAdmission input then _ else _) as [x1|] eqn:E1; [|done].
  assert (x_HedgeSequence x1 = x_HedgeSequence (ex_item row)) as Hs1.
  { destruct (ph_FastPathAdmission input); [by apply fastPath_sequence in E1|by injection E1 as <-]. }
  destruct (if ph_AggregateCarry input then _ else _) as [[]|] eqn:E2; [|done].
  destruct (hedgeOrder input x1 t st) as [[[[stored created] x2] st2]|] eqn:Eh; [|done].
  destruct (assignExecution _ _ _) as [row'|] eqn:Ea; [|done]. intros [= <- <-]. exists combo, row, row'.
  assert (x_HedgeSequence (ex_item row') = x_HedgeSequence x2) as Hs2.
  { unfold assignExecution in Ea. repeat (case_match; simplify_eq/=; try done). }
  constructor; cbn [pr_Created].
  - done.
  - done.
  - unfold activeExecution. change (x_Status (scanExecution row)) with (x_Status (ex_item row)) in Ht. by rewrite Ht.
  - intros Hagg. rewrite Hagg in E2. by exists x1.
  - cbn. by rewrite lookup_insert_eq.
  - intros ->. unfold hedgeOrder in Eh. repeat (case_match; simplify_eq/=; try done).
  - intros ->. unfold hedgeOrder in Eh. destruct (byIdempotency _ _) as [erow|] eqn:Eb; [by repeat (case_match; simplify_eq/=; try done)|].
    cbv zeta in Eh. destruct (_ && _); [done|]. destruct (if _ && _ then _ else _); [|done].
    destruct (Z.eqb_spec (x_HedgeSequence x1) (ph_ExpectedSequence input)) as [Es|]; [|done]. cbn [negb] in Eh.
    destruct (insertOrder _ _ _) as [orow|] eqn:Ei; [|done]. apply insertOrder_row in Ei as (q & p & _ & _ & -> & _).
    injection Eh as <- <- <-. cbn in Hs2. split; [lia|]. split; [lia|]. split; [done|].
    eexists. split; [reflexivity|]. done.
Qed.

Lemma byIdempotency_used key (st : Store D) id row :
  st_orders st !! id = Some row -> o_IdempotencyKey (row_order row) = key -> is_Some (byIdempotency key st).
Proof. intros Hl Hk. eapply findOrder_used; [exact Hl|]. rewrite Hk. apply String.eqb_refl. Qed.

Lemma prepare_carry input t (st st' : Store D) r combo row row' :
  prepared input t st st' r combo row row' -> ph_AggregateCarry input = true ->
  (0 < dval (parseDecimal (D := D) (o_Quantity (ph_Order input))) <= Qabs (dval (carryColumn (D := D) (cb_item combo))))%Q.
Proof.
  intros P Hagg. destruct (pd_admitted _ _ _ _ _ _ _ _ P Hagg) as (x & Hx). unfold admitAggregateCarry in Hx.
  destruct (requireUniqueActiveExecution _ _ _); [done|]. cbv zeta in Hx. destruct (negb _); [done|].
  destruct (_ =?s _); [done|]. cbn [orb] in Hx.
  destruct (dEqual_reflect (carryColumn (D := D) (cb_item combo)) (parseDecimal (ph_ExpectedCarryQuantity input))) as [He|]; [|done].
  cbn [negb] in Hx. destruct (dIsPositive_reflect (parseDecimal (D := D) (o_Quantity (ph_Order input)))); [|done]. cbn [negb orb] in Hx.
  destruct (dGreaterThan_reflect (parseDecimal (o_Quantity (ph_Order input))) (dAbs (parseDecimal (ph_ExpectedCarryQuantity input)))) as [|Hn];
    [done|]. rewrite dAbs_val, <- He in Hn. split; [done|]. apply Qnot_lt_le, Hn.
Qed.

(** A later state of the orders: rows are updated and added, none loses its key. *)
Definition keysKept (st st' : Store D) : Prop :=
  forall id row, st_orders st !! id = Some row ->
    exists row', st_orders st' !! id = Some row' /\ o_IdempotencyKey (row_order row') = o_IdempotencyKey (row_order row).

End HedgeOnce.

(** ** Positions *)

Section Ledger.
Context {D : Type} `{!Decimal D} `{!DecimalLaws D} `{!Postgres D} `{!PostgresLaws D} `{!Env D}.
Local Open Scope Q_scope.

(** Sums of values with 18 digits have 18 digits. *)
Lemma is18_int (q : Q) : is18 q <-> exists n, q * pow10 18 == inject_Z n.
Proof.
  split.
  - intros H. unfold is18, qround in H. cbv zeta in H. set (n := Qfloor _) in H.
    assert (forall x, x / pow10 18 * pow10 18 == x) as Hx
      by (intros x; unfold Qdiv; rewrite <- Qmult_assoc, (Qmult_comm (/ _)), Qmult_inv_r by (apply Qpos_nonzero, pow10_pos); ring).
    destruct (Qle_bool 0 q); [exists n|exists (- n)%Z]; rewrite <- H; [apply Hx|].
    rewrite inject_Z_opp. transitivity (- (inject_Z n / pow10 18 * pow10 18)); [ring|by rewrite Hx].
  - intros [n H]. by apply (qround_exact 18 n).
Qed.

#[local] Opaque qround.

Lemma is18_plus (a b : Q) : is18 a -> is18 b -> is18 (a + b).
Proof.
  rewrite !is18_int. intros [n Hn] [m Hm]. exists (n + m)%Z. rewrite inject_Z_plus, <- Hn, <- Hm. ring.
Qed.
Lemma is18_opp (a : Q) : is18 a -> is18 (- a).
Proof. rewrite !is18_int. intros [n Hn]. exists (- n)%Z. rewrite inject_Z_opp, <- Hn. ring. Qed.

(** The reference: over all orders, what each adds to a leg of a combination. *)
Definition inCombination (st : Store D) (id : string) (r : OrderRow) : bool :=
  match st_executions st !! o_ArbitrageExecutionID (row_order r) with
  | Some e => x_CombinationID (ex_item e) =?s id
  | None => false
  end.
Definition legSign (leg : string) (r : OrderRow) : Q :=
  if o_ArbitrageLeg (row_order r) =?s leg
  then if o_Side (row_order r) =?s "buy" then 1 else if o_Side (row_order r) =?s "sell" then -1 else 0 else 0.
Definition contribution (st : Store D) (id leg : string) (r : OrderRow) : Q :=
  if inCombination st id r then legSign leg r * filledOf (D := D) r else 0.
Definition ledger (st : Store D) (id leg : string) : Q := tableSum (contribution st id leg) (st_orders st).

Lemma sqlSum_val (f : OrderRow -> D) (l : list OrderRow) : dval (sqlSum f l) == sumQ (fun r => dval (f r)) l.
Proof.
  unfold sqlSum, sumQ. induction l as [|r l IH]; cbn; [apply dZero_val|]. by rewrite dAdd_val, IH.
Qed.

Lemma sumQ_filter {A} (p : A -> bool) (f : A -> Q) (l : list A) :
  sumQ f (List.filter p l) == sumQ (fun x => if p x then f x else 0) l.
Proof.
  induction l as [|x l IH]; cbn [List.filter]; [reflexivity|]. rewrite (sumQ_cons (fun x => if p x then _ else _)).
  destruct (p x); [rewrite sumQ_cons|]; rewrite IH; [reflexivity|ring].
Qed.

Lemma sumQ_ext {A} (f g : A -> Q) (l : list A) : (forall x, x ∈ l -> f x == g x) -> sumQ f l == sumQ g l.
Proof.
  induction l as [|x l IH]; intros H; [reflexivity|]. rewrite !sumQ_cons, (H x) by set_solver. rewrite IH; [reflexivity|set_solver].
Qed.

Lemma filledOf_nonneg (st : Store D) id r : storeTyped st -> st_orders st !! id = Some r -> 0 <= filledOf (D := D) r /\ is18 (filledOf (D := D) r).
Proof.
  intros [Ho _] Hr. destruct (Ho _ _ Hr) as (_ & q & f & a & T). unfold filledOf.
  pose proof (numericColumn_parse _ _ (ot_filled _ _ _ _ T)) as E. rewrite E. split; [apply T|]. apply (ot_filled _ _ _ _ T).
Qed.

Lemma legPosition_ledger (st : Store D) id leg : storeTyped st -> dval (legPosition st id leg) == ledger st id leg.
Proof.
  intros Ty. unfold legPosition, combinationOrders. rewrite sqlSum_val, sumQ_filter. apply sumQ_ext.
  intros r (kv & -> & Hin)%list_elem_of_fmap. destruct kv as [k r]. apply elem_of_map_to_list in Hin. cbn [snd].
  destruct (filledOf_nonneg _ _ _ Ty Hin) as [Hn _]. unfold contribution, inCombination.
  destruct (st_executions st !! _) as [e|]; [|reflexivity]. destruct (_ =?s id); [|reflexivity].
  unfold signedFill, legSign. unfold filledOf in *. cbv zeta.
  destruct (_ =?s leg); cbn [negb]; [rewrite orb_false_r|rewrite orb_true_r, dZero_val; ring].
  destruct (dIsPositive_reflect (parseDecimal (D := D) (o_FilledQuantity (row_order r)))) as [Hp|Hp]; cbn [negb].
  - destruct (_ =?s "buy"); [ring|]. destruct (_ =?s "sell"); [rewrite dNeg_val; ring|rewrite dZero_val; ring].
  - assert (dval (parseDecimal (D := D) (o_FilledQuantity (row_order r))) == 0) as -> by lra. rewrite dZero_val.
    destruct (_ =?s "buy"); [ring|]. destruct (_ =?s "sell"); ring.
Qed.

Lemma ledger_is18 (st : Store D) id leg : storeTyped st -> is18 (ledger st id leg).
Proof.
  intros Ty. unfold ledger, tableSum. assert (forall r, r ∈ map snd (map_to_list (st_orders st)) -> is18 (contribution st id leg r)) as H.
  { intros r (kv & -> & Hin)%list_elem_of_fmap. destruct kv as [k r]. apply elem_of_map_to_list in Hin. cbn [snd].
    destruct (filledOf_nonneg _ _ _ Ty Hin) as [_ H18]. unfold contribution, legSign.
    destruct (inCombination _ _ _); [|apply is18_0]. set (f := filledOf _) in *.
    assert (is18 (1 * f) /\ is18 (-1 * f) /\ is18 (0 * f)) as (H1 & H2 & H3).
    { split; [assert (1 * f == f) as -> by ring; done|]. split; [|assert (0 * f == 0) as -> by ring; apply is18_0].
      assert (-1 * f == - f) as -> by ring. by apply is18_opp. }
    destruct (_ =?s leg); [|exact H3]. destruct (_ =?s "buy"); [exact H1|]. destruct (_ =?s "sell"); assumption. }
  induction (map snd (map_to_list (st_orders st))) as [|r l IH]; [apply is18_0|]. rewrite sumQ_cons.
  apply is18_plus; [apply H; set_solver|apply IH; set_solver].
Qed.

(** The position columns after a recomputation. *)
Lemma updatePositions_ledger (st st' : Store D) id t row c adjA adjB :
  storeTyped st -> st_combinations st !! id = Some row ->
  numericColumn (D := D) (c_LegAReconciliationAdjustment (cb_item row)) adjA ->
  numericColumn (D := D) (c_LegBReconciliationAdjustment (cb_item row)) adjB ->
  updatePositions id t st = (Ok c, st') ->
  numericColumn (D := D) (c_LegABasePosition c) (ledger st id "a" + adjA) /\
  numericColumn (D := D) (c_LegBBasePosition c) (ledger st id "b" + adjB) /\
  exists row', st_combinations st' !! id = Some row' /\ c = scanCombination (D := D) row'.
Proof.
  intros Ty Hrow HA HB. unfold updatePositions, updateCombination. rewrite Hrow. unfold assignPositions; cbv zeta.
  destruct (numericText (dString (dAdd (legPosition st id "a") _))) as [a|] eqn:Ea; [|done].
  destruct (numericText (dString (dAdd (legPosition st id "b") _))) as [b|] eqn:Eb; [|done]. intros [= <- <-].
  apply numericText_dString in Ea, Eb.
  assert (forall leg adj s col, numericColumn (D := D) col adj ->
    numericColumn (D := D) s (qround 18 (dval (dAdd (legPosition st id leg) (parseDecimal col)))) ->
    numericColumn (D := D) s (ledger st id leg + adj)) as Hcol.
  { intros leg adj s col Hadj Hs. eapply numericColumn_proper; [|exact Hs].
    assert (dval (dAdd (legPosition st id leg) (parseDecimal col)) == ledger st id leg + adj) as E
      by (by rewrite dAdd_val, (numericColumn_parse _ _ Hadj), legPosition_ledger).
    etransitivity; [apply qround_proper, E|]. destruct Hadj as (_ & H18 & _).
    apply (is18_plus _ _ (ledger_is18 st id leg Ty) H18). }
  pose proof (Hcol "a"%string adjA a _ HA Ea) as FA. pose proof (Hcol "b"%string adjB b _ HB Eb) as FB. clear Hcol Ea Eb.
  split; [exact FA|]. split; [exact FB|]. eexists. split; [apply lookup_insert_eq|reflexivity].
Qed.

(** C10: the position columns are the ledger.  After a recomputation the base
    position of each leg is exactly the signed sum of the fills of all orders
    of the combination's executions plus its reconciliation adjustment, to the
    last of the 18 digits, and the carry is the sum of the two. *)
Theorem recompute_is_ledger (st st' : Store D) (id : string) (t : GoTime) (row : CombinationRow) (c : ArbitrageCombination) (adjA adjB : Q) :
  storeTyped st -> st_combinations st !! id = Some row ->
  numericColumn (D := D) (c_LegAReconciliationAdjustment (cb_item row)) adjA ->
  numericColumn (D := D) (c_LegBReconciliationAdjustment (cb_item row)) adjB ->
  updatePositions id t st = (Ok c, st') ->
  dval (parseDecimal (D := D) (c_LegABasePosition c)) == ledger st id "a" + adjA /\
  dval (parseDecimal (D := D) (c_LegBBasePosition c)) == ledger st id "b" + adjB /\
  dval (parseDecimal (D := D) (c_CarryBaseQuantity c)) == ledger st id "a" + adjA + (ledger st id "b" + adjB).
Proof.
  intros Ty Hrow HA HB H. destruct (updatePositions_ledger _ _ _ _ _ _ _ _ Ty Hrow HA HB H) as (CA & CB & row' & _ & ->).
  pose proof (numericColumn_parse _ _ CA) as EA. pose proof (numericColumn_parse _ _ CB) as EB.
  split; [done|]. split; [done|]. cbn [scanCombination c_CarryBaseQuantity].
  assert (forall d : D, dval (parseDecimal (D := D) (dString d)) == dval d) as Hrt.
  { intros d. unfold parseDecimal. rewrite dString_TrimSpace. by destruct (dNewFromString_String d) as (d' & -> & E). }
  cbn. rewrite Hrt. unfold carryColumn. rewrite dAdd_val. cbn in EA, EB. by rewrite EA, EB.
Qed.

(** *** A report moves the ledger by what it fills *)

Lemma ledger_report (st st1 : Store D) id leg oid row row' :
  st_executions st1 = st_executions st -> st_orders st !! oid = Some row ->
  st_orders st1 = <[oid := row']> (st_orders st) ->
  o_ArbitrageExecutionID (row_order row') = o_ArbitrageExecutionID (row_order row) ->
  o_ArbitrageLeg (row_order row') = o_ArbitrageLeg (row_order row) -> o_Side (row_order row') = o_Side (row_order row) ->
  ledger st1 id leg == ledger st id leg +
    (if inCombination st id row then legSign leg row * (filledOf (D := D) row' - filledOf (D := D) row) else 0).
Proof.
  intros Ex Hr Ho E1 E2 E3. unfold ledger. rewrite Ho.
  assert (forall r, contribution st1 id leg r = contribution st id leg r) as Hc by (intros r; unfold contribution, inCombination; by rewrite Ex).
  transitivity (tableSum (contribution st id leg) (<[oid := row']> (st_orders st))).
  { apply sumQ_ext. intros r _. by rewrite Hc. }
  rewrite (tableSum_set _ _ _ _ _ Hr). unfold contribution, inCombination, legSign. rewrite E1, E2, E3.
  destruct (st_executions st !! _) as [e|]; [destruct (_ =?s id)|]; ring.
Qed.

(** A fill report and a recomputation together move a combination's books
    by exactly the newly filled quantity: recomputing after a report on one
    order changes the leg the order trades by the new part of its fill, with
    the sign of its side, and leaves the other leg. *)
Theorem report_moves_position (st st1 st' st1' : Store D) (id oid : string) (leg : string) (result : VenueResult)
    (eventAt receivedAt t t1 : GoTime) (stream skip : bool) (fills : list OrderFill) (n : nat) fault (o : Order) (changed : bool)
    (row : OrderRow) (combo : CombinationRow) (c c1 : ArbitrageCombination) (adjA adjB : Q) :
  storeTyped st -> (leg = "a" \/ leg = "b")%string ->
  st_orders st !! oid = Some row -> ackWithin (D := D) (row_order row) result -> inCombination st id row = true ->
  o_ArbitrageLeg (row_order row) = leg ->
  applyTransaction oid result eventAt receivedAt stream fills skip n fault st = (Ok (o, changed), st1) ->
  st_combinations st !! id = Some combo ->
  numericColumn (D := D) (c_LegAReconciliationAdjustment (cb_item combo)) adjA ->
  numericColumn (D := D) (c_LegBReconciliationAdjustment (cb_item combo)) adjB ->
  updatePositions id t st = (Ok c, st') -> updatePositions id t1 st1 = (Ok c1, st1') ->
  let side := if o_Side (row_order row) =?s "buy" then 1 else if o_Side (row_order row) =?s "sell" then -1 else 0 in
  let moved := side * (dval (parseDecimal (D := D) (o_FilledQuantity o)) - filledOf (D := D) row) in
  dval (parseDecimal (D := D) (c_LegABasePosition c1)) ==
    dval (parseDecimal (D := D) (c_LegABasePosition c)) + (if leg =?s "a" then moved else 0) /\
  dval (parseDecimal (D := D) (c_LegBBasePosition c1)) ==
    dval (parseDecimal (D := D) (c_LegBBasePosition c)) + (if leg =?s "b" then moved else 0).
Proof.
  intros Ty Hleg Hrow Hack Hin Hl Happ Hcombo HA HB H0 H1 side moved.
  destruct (apply_cases _ _ _ _ _ _ _ _ _ _ _ _ Happ Ty) as ((_ & Ex & Ecb & _) & Ht1 & row0 & row' & q & f & a & f' & a' & ins & Hap & ->).
  { intros r Hr. assert (r = row) as -> by congruence. done. }
  assert (row0 = row) as -> by (pose proof (ap_row _ _ _ _ _ _ _ _ _ _ _ _ _ _ _ Hap); congruence).
  pose proof (ap_orders _ _ _ _ _ _ _ _ _ _ _ _ _ _ _ Hap) as Ho.
  destruct (ap_same _ _ _ _ _ _ _ _ _ _ _ _ _ _ _ Hap) as (? & ? & ? & ? & ? & ? & ? & ? & ? & Hs).
  assert (storeTyped st1) as Ty1.
  { destruct Ty as [To Tt]. split; [|done]. rewrite Ho. intros k r [[<- <-]|[_ Hk]]%lookup_insert_Some; [|by apply To].
    destruct (To _ _ Hrow) as (Hid & _). split; [by rewrite Hs|]. do 3 eexists. exact (ap_after _ _ _ _ _ _ _ _ _ _ _ _ _ _ _ Hap). }
  destruct (updatePositions_ledger _ _ _ _ _ _ _ _ Ty Hcombo HA HB H0) as (CA & CB & _).
  destruct (updatePositions_ledger st1 _ id _ combo _ _ _ Ty1 ltac:(by rewrite Ecb) HA HB H1) as (CA1 & CB1 & _).
  rewrite (numericColumn_parse _ _ CA), (numericColumn_parse _ _ CB), (numericColumn_parse _ _ CA1), (numericColumn_parse _ _ CB1).
  rewrite !(ledger_report st st1 id _ oid row row' Ex Hrow Ho) by (by rewrite Hs). rewrite Hin.
  unfold legSign, moved, side. rewrite Hl.
  change (dval (parseDecimal (D := D) (o_FilledQuantity (scanOrder row')))) with (filledOf (D := D) row'). destruct Hleg as [-> | ->]; cbn; split; ring.
Qed.
End Ledger.

(** ** The circuit *)

Section Circuit.
Context {D : Type} `{!Decimal D} `{!DecimalLaws D} `{!Postgres D} `{!Env D}.

(** The same failure recorded at each of the given times. *)
Fixpoint failuresAt (message : string) (times : list GoTime) (r : CombinationRow) : Result CombinationRow :=
  match times with
  | [] => Ok r
  | t :: rest => match recordFailure message t r with Ok r' => failuresAt message rest r' | Err e => Err e end
  end.

Definition circuitBroken (r : CombinationRow) : Prop :=
  c_CircuitOpen (cb_item r) = true /\ c_RuntimeState (cb_item r) = "manual_intervention"%string /\ cb_next_retry_at r = PosInfinity.

(** After [k] equal failures the count is at least [k], or the circuit is open. *)
Definition counted (message : string) (k : Z) (r : CombinationRow) : Prop :=
  0 <= c_RepeatedFailureCount (cb_item r) /\
  (c_CircuitOpen (cb_item r) = true \/ k <= 0 \/
   (c_LastFailureKey (cb_item r) = truncateMessage message /\ k <= c_RepeatedFailureCount (cb_item r))).

Lemma recordFailure_counts message t r r' k :
  recordFailure message t r = Ok r' -> counted message k r -> k <= 4 -> counted message (k + 1) r'.
Proof.
  intros H [H0 Hk] Hle. unfold recordFailure, circuitTrips, countFailure in H. cbv zeta in H. unfold counted.
  destruct (String.eqb_spec (c_LastFailureKey (cb_item r)) (truncateMessage message)) as [E|E]; cbn [andb] in H.
  - destruct (c_CircuitOpen (cb_item r) || _) eqn:Eo.
    + injection H as <-. cbn. split; [lia|]. destruct (5 <=? _); [by left|]. destruct (c_CircuitOpen _); [by left|done].
    + destruct (failureSeconds _); [|done]. injection H as <-. cbn. split; [lia|]. right. right. split; [done|].
      apply orb_false_iff in Eo as [Ec _]. destruct Hk as [Hk|[Hk|[_ Hk]]]; [congruence|lia|lia].
  - rewrite orb_false_r in H. destruct (c_CircuitOpen (cb_item r)) eqn:Ec.
    + injection H as <-. cbn. split; [lia|]. left. done.
    + destruct (failureSeconds _); [|done]. injection H as <-. cbn. split; [lia|]. right. right. split; [done|].
      destruct Hk as [Hk|[Hk|[Hk _]]]; [done|lia|done].
Qed.

Lemma recordFailure_trips message t r r' : recordFailure message t r = Ok r' -> counted message 4 r -> circuitBroken r'.
Proof.
  intros H [H0 Hk]. unfold recordFailure in H. cbv zeta in H.
  destruct (c_CircuitOpen (cb_item r) || circuitTrips (truncateMessage message) (cb_item r)) eqn:Eo.
  - injection H as <-. split; [|done]. cbn. destruct (circuitTrips _ _); [done|]. by rewrite orb_false_r in Eo.
  - exfalso. apply orb_false_iff in Eo as [Ec Et]. destruct Hk as [Hk|[Hk|[Hk Hn]]]; [congruence|lia|].
    unfold circuitTrips in Et. rewrite Hk, String.eqb_refl in Et. cbn [andb] in Et. apply Z.leb_gt in Et. lia.
Qed.


(** The back-off after a failure breaks at the thirty-first failure in a
    row.  The delay is the minimum of a minute and a power of two, but the
    power is cast to an integer before the minimum is taken: from thirty
    failures on, without an open circuit, the cast fails, the statement with
    it, and the failure is not recorded, so no retry is delayed any more. *)
Theorem failure_backoff_overflows (message : string) (t : GoTime) (r : CombinationRow) (st : Store D) (id : string) :
  st_combinations st !! id = Some r -> 30 <= c_ConsecutiveFailures (cb_item r) -> c_CircuitOpen (cb_item r) = false ->
  circuitTrips (truncateMessage message) (cb_item r) = false -> liveCombination (cb_item r) = true ->
  updateCombination id (fun r => liveCombination (cb_item r)) (recordFailure message t) st = (Err errIntegerRange, st).
Proof.
  intros Hr Hf Hc Ht Hl. unfold updateCombination. rewrite Hr, Hl. unfold recordFailure; cbv zeta. rewrite Hc, Ht. cbn [orb].
  assert (failureSeconds (c_ConsecutiveFailures (cb_item r)) = None) as ->; [|done].
  unfold failureSeconds, castInt.
  assert (2 ^ 30 <= 2 ^ c_ConsecutiveFailures (cb_item r)) by (apply Z.pow_le_mono_r; lia).
  destruct (Z.ltb_spec (2 * 2 ^ c_ConsecutiveFailures (cb_item r)) (2 ^ 31)); [lia|]. by rewrite andb_false_r.
Qed.
End Circuit.

(** ** Claims *)

Section Claims.
Context {D : Type} `{!Decimal D} `{!DecimalLaws D} `{!Postgres D} `{!Env D}.
Local Open Scope Q_scope.

Definition baseA (c : ArbitrageCombination) : Q := dval (parseDecimal (D := D) (c_LegABasePosition c)).
Definition baseB (c : ArbitrageCombination) : Q := dval (parseDecimal (D := D) (c_LegBBasePosition c)).

Lemma dMax_ge (a b m : D) : (dGreaterThan (dMax a b) m) = false -> dval a <= dval m /\ dval b <= dval m.
Proof.
  destruct (dGreaterThan_reflect (dMax a b) m) as [|Hn]; [done|]. intros _. rewrite dMax_val in Hn.
  pose proof (Q.le_max_l (dval a) (dval b)). pose proof (Q.le_max_r (dval a) (dval b)). split; lra.
Qed.

(** The owned closeable base is positive only for opposite legs, and is at
    most each of them. *)
Lemma ownedCloseable_legs (c : ArbitrageCombination) (q : Q) :
  0 < q -> q <= dval (arbitrageOwnedCloseableBase (D := D) c) ->
  q <= Qabs (baseA c) /\ q <= Qabs (baseB c) /\ baseA c * baseB c < 0.
Proof.
  intros Hq. unfold arbitrageOwnedCloseableBase, ownedPairedQuantity, baseA, baseB.
  set (a := parseDecimal (c_LegABasePosition c)). set (b := parseDecimal (c_LegBBasePosition c)).
  destruct (dIsZero_reflect a) as [|Ha]; cbn [orb]; [rewrite dZero_val; lra|].
  destruct (dIsZero_reflect b) as [|Hb]; cbn [orb]; [rewrite dZero_val; lra|].
  destruct (Z.eqb_spec (dSign a) (dSign b)) as [|Hs]; [rewrite dZero_val; lra|]. rewrite dMin_val, !dAbs_val. intros Hle.
  pose proof (Q.le_min_l (Qabs (dval a)) (Qabs (dval b))). pose proof (Q.le_min_r (Qabs (dval a)) (Qabs (dval b))).
  split; [lra|]. split; [lra|].
  destruct (dSign_cases a) as [[Pa Sa]|[[Pa _]|[Pa Sa]]], (dSign_cases b) as [[Pb Sb]|[[Pb _]|[Pb Sb]]]; try congruence; try lra; nra.
Qed.

Lemma remaining_cap (a b target midA midB : D) (q : Q) :
  0 < q -> q <= dval (remainingDirectionNotional a b target midA midB) ->
  q + Qabs (dval a) * dval midA <= dval target /\ q + Qabs (dval b) * dval midB <= dval target.
Proof.
  intros Hq. unfold remainingDirectionNotional. destruct (negb _); [rewrite dZero_val; lra|]. cbv zeta.
  destruct (dIsNegative _); [rewrite dZero_val; lra|]. rewrite dSub_val, dMax_val, !dMul_val, !dAbs_val. intros Hle.
  pose proof (Q.le_max_l (Qabs (dval a) * dval midA) (Qabs (dval b) * dval midB)).
  pose proof (Q.le_max_r (Qabs (dval a) * dval midA) (Qabs (dval b) * dval midB)). split; lra.
Qed.

Lemma claimView_state (r : CombinationRow) :
  c_PositionUncertain (claimView r) = c_PositionUncertain (cb_item r) /\ c_RuntimeState (claimView r) = c_RuntimeState (cb_item r) /\
  c_LegABasePosition (claimView r) = c_LegABasePosition (cb_item r) /\ c_LegBBasePosition (claimView r) = c_LegBBasePosition (cb_item r).
Proof. repeat split. Qed.
Lemma claimView_flattening (r : CombinationRow) : arbitrageFlattening (claimView r) = arbitrageFlattening (cb_item r).
Proof.
  assert (c_Status (claimView r) = c_Status (cb_item r)) as E1 by reflexivity.
  assert (c_RunMode (claimView r) = c_RunMode (cb_item r)) as E2 by reflexivity.
  assert (c_OneShotPhase (claimView r) = c_OneShotPhase (cb_item r)) as E3 by reflexivity.
  unfold arbitrageFlattening. by rewrite E1, E2, E3.
Qed.
Lemma claimView_owned (r : CombinationRow) :
  arbitrageOwnedCloseDirection (D := D) (claimView r) = arbitrageOwnedCloseDirection (D := D) (cb_item r) /\
  arbitrageOwnedCloseableBase (D := D) (claimView r) = arbitrageOwnedCloseableBase (D := D) (cb_item r).
Proof.
  destruct (claimView_state r) as (_ & _ & EA & EB).
  unfold arbitrageOwnedCloseDirection, arbitrageOwnedCloseableBase. by rewrite EA, EB.
Qed.
#[local] Opaque claimView.

(** What a claim needs of the combination and of the other tables. *)
Definition claimQuiet (st : Store D) (row : CombinationRow) (x : ArbitrageExecution) : Prop :=
  c_PositionUncertain (cb_item row) = false /\ c_RuntimeState (cb_item row) <> "manual_intervention"%string /\
  hasLiveOrder st (x_CombinationID x) = false /\ executionConflict st x = false.

Lemma claim_created x t (st st' : Store D) y :
  claimTransaction x t st = (Ok (y, true), st') ->
  exists row, st_combinations st !! x_CombinationID x = Some row /\ claimQuiet st row x /\
    claimState (claimView row) x = true /\ claimSize (D := D) (claimView row) (c_TargetNotional (cb_item row)) x = true.
Proof.
  unfold claimTransaction. destruct (st_combinations st !! _) as [row|]; [|done]. cbv zeta.
  destruct (claimState (claimView row) x) eqn:Hs; cbn [negb orb]; [|done].
  destruct (claimSize (claimView row) _ x) eqn:Hz; cbn [negb orb]; [|done]. destruct (hasLiveOrder st _) eqn:Hl; [done|].
  intros H. exists row. split; [done|]. split; [|done].
  unfold insertExecution in H. destruct (newExecutionRow _ _ _); [|done]. destruct (executionConflict st x) eqn:Hx; [done|].
  unfold claimState in Hs. apply andb_true_iff in Hs as [[[Hu Hm]%andb_true_iff _]%andb_true_iff _].
  apply negb_true_iff in Hu, Hm. apply String.eqb_neq in Hm.
  destruct (claimView_state row) as (Eu & Er & _). rewrite Eu in Hu. rewrite Er in Hm. by split_and!.
Qed.

End Claims.

(** ** The phases of a one-shot *)

Section Phases.
Context {D : Type} `{!Decimal D} `{!DecimalLaws D} `{!Postgres D} `{!Env D}.

(** The transactions that write a combination. *)
Inductive lifeStep : Store D -> Store D -> Prop :=
| life_failure id m t st r st' : failureTransaction id m t st = (r, st') -> lifeStep st st'
| life_closeFailure id k m t st r st' : closeFailureTransaction id k m t st = (r, st') -> lifeStep st st'
| life_clear id e t st r st' : clearFailureTransaction id e t st = (r, st') -> lifeStep st st'
| life_runtime item t st r st' : runtimeTransaction item t st = (r, st') -> lifeStep st st'
| life_snapshot id a b s t st r st' : snapshotTransaction id a b s t st = (r, st') -> lifeStep st st'
| life_delta id d t st r st' : deltaTransaction id d t st = (r, st') -> lifeStep st st'
| life_fromBase id m d t st r st' : fromBaseTransaction id m d t st = (r, st') -> lifeStep st st'
| life_closing o id t st r st' : closingTransaction o id t st = (r, st') -> lifeStep st st'
| life_waiting id v s t st r st' : waitingExitTransaction id v s t st = (r, st') -> lifeStep st st'
| life_exiting id v reason t st r st' : exitingTransaction id v reason t st = (r, st') -> lifeStep st st'
| life_annualized g t st r st' : annualizedExitTransaction g t st = (r, st') -> lifeStep st st'
| life_exited id v t st r st' : exitedTransaction id v t st = (r, st') -> lifeStep st st'
| life_dust id v a b c t st r st' : dustTransaction id v a b c t st = (r, st') -> lifeStep st st'
| life_closed id v t st r st' : closedTransaction id v t st = (r, st') -> lifeStep st st'
| life_positions id t st r st' : updatePositions id t st = (r, st') -> lifeStep st st'
| life_config o id i now t st r st' : configTransaction o id i now t st = (r, st') -> lifeStep st st'
| life_claim x t st r st' : claimTransaction x t st = (r, st') -> lifeStep st st'
| life_hedge input t st r st' : prepareHedgeTransaction input t st = (r, st') -> lifeStep st st'
| life_flatten claim now t st r st' : flattenClaimTransaction (D := D) claim now t st = (r, st') -> lifeStep st st'
| life_finalize e t st r st' : finalizeFlattenTransaction (D := D) e t st = (r, st') -> lifeStep st st'
| life_residual (u : Uuids) id claim t st r st' : residualClaimTransaction (D := D) id claim t st = (r, st') -> lifeStep st st'
| life_dust_close request t st r st' : dustCloseTransaction (D := D) request t st = (r, st') -> lifeStep st st'
| life_other st st' : st_combinations st' = st_combinations st -> lifeStep st st'.

Definition flatOrDust (c : ArbitrageCombination) : Prop :=
  (dval (parseDecimal (D := D) (c_LegABasePosition c)) == 0 \/ dval (parseDecimal (D := D) (c_LegBBasePosition c)) == 0)%Q.

(** What a step may do to the phase of a row. *)
Definition phaseOf (r : CombinationRow) : string := c_OneShotPhase (cb_item r).
Definition phaseMove (st : Store D) (id : string) (r r' : CombinationRow) : Prop :=
  phaseOf r' = phaseOf r \/
  ((phaseOf r = "building_target" \/ phaseOf r = "waiting_exit") /\
   (phaseOf r' = "building_target" \/ phaseOf r' = "waiting_exit"))%string \/
  ((phaseOf r = "building_target" \/ phaseOf r = "waiting_exit") /\ phaseOf r' = "exiting" /\
   c_PositionUncertain (cb_item r) = false /\ hasActiveExecution st id = false)%string \/
  ((phaseOf r = "exiting" \/ c_Status (cb_item r) = "closing") /\ phaseOf r' = "exited" /\
   c_PositionUncertain (cb_item r) = false /\ flatOrDust (cb_item r) /\
   hasActiveExecution st id = false /\ hasLiveOrder st id = false)%string.

Definition phasesMove (st st' : Store D) : Prop :=
  forall id r, st_combinations st !! id = Some r ->
    exists r', st_combinations st' !! id = Some r' /\ phaseMove st id r r'.

Lemma phasesMove_same (st st' : Store D) : st_combinations st' = st_combinations st -> phasesMove st st'.
Proof. intros E id r Hr. rewrite E. exists r. split; [done|by left]. Qed.

Lemma updateCombination_phase id cond assign (st st' : Store D) u :
  updateCombination id cond assign st = (u, st') ->
  (forall r r', st_combinations st !! id = Some r -> cond r = true -> assign r = Ok r' -> phaseMove st id r r') ->
  phasesMove st st'.
Proof.
  unfold updateCombination. destruct (st_combinations st !! id) as [r0|] eqn:H0; [|intros [= _ <-] _; by apply phasesMove_same].
  destruct (cond r0) eqn:Hc; [|intros [= _ <-] _; by apply phasesMove_same].
  destruct (assign r0) as [r1|] eqn:Ha; intros [= _ <-] H; [|by apply phasesMove_same].
  intros j r Hr. cbn. destruct (decide (j = id)) as [->|Hn].
  - rewrite lookup_insert_eq. exists r1. split; [done|]. rewrite H0 in Hr. injection Hr as <-. by apply H.
  - rewrite lookup_insert_ne by done. exists r. split; [done|by left].
Qed.

Lemma inPhase_cases (phases : list string) r : inPhase phases r = true -> phaseOf r ∈ phases.
Proof. unfold inPhase. intros (p & Hp & E)%existsb_exists. apply String.eqb_eq in E. unfold phaseOf. rewrite E. by apply list_elem_of_In. Qed.

Lemma building_or_waiting r :
  inPhase ["building_target"; "waiting_exit"]%string r = true -> (phaseOf r = "building_target" \/ phaseOf r = "waiting_exit")%string.
Proof. intros H%inPhase_cases. rewrite !elem_of_cons in H. destruct H as [|[|H]]; [by left|by right|]. by apply not_elem_of_nil in H. Qed.

Lemma touch_phase t r : phaseOf (touch t r) = phaseOf r.
Proof. reflexivity. Qed.

Lemma assignOneShotConfig_phase target rate floor distance after phase scheduled t r r' :
  assignOneShotConfig (D := D) target rate floor distance after phase scheduled t r = Ok r' -> phaseOf r' = phase.
Proof.
  unfold assignOneShotConfig. destruct (numericAny _); [|done]. do 3 (destruct (nullableTrim _); [|done]).
  intros [= <-]. rewrite touch_phase. reflexivity.
Qed.

Lemma assignSpreadConfig_phase ask bid target t r r' :
  assignSpreadConfig (D := D) ask bid target t r = Ok r' -> phaseOf r' = phaseOf r.
Proof.
  unfold assignSpreadConfig. do 3 (destruct (numericAny _); [|done]). intros [= <-]. rewrite touch_phase. reflexivity.
Qed.

Lemma oneShotPhaseAfter_cases phase input (a b : D) scheduled now :
  (phase =?s "building_target") || (phase =?s "waiting_exit") = true ->
  (oneShotPhaseAfter phase input a b scheduled now = "building_target" \/
   oneShotPhaseAfter phase input a b scheduled now = "waiting_exit")%string.
Proof.
  intros H. unfold oneShotPhaseAfter. destruct (_ && _); [by left|].
  apply orb_true_iff in H as [H%String.eqb_eq|H%String.eqb_eq]; [by left|by right].
Qed.

Ltac refused E := repeat match type of E with
  | (if ?b then (Err _, _) else _) = _ => destruct b; [injection E as _ <-; by apply phasesMove_same|]
  end.

Lemma updateOneShotConfig_phase current input target tv pv now t (st st' : Store D) u :
  updateOneShotConfig current input target tv pv now t st = (u, st') -> phasesMove st st'.
Proof.
  unfold updateOneShotConfig. cbv zeta. intros E.
  destruct ((TrimSpace (c_OneShotPhase current) =?s "building_target") || (TrimSpace (c_OneShotPhase current) =?s "waiting_exit"))
    eqn:Hph; [|injection E as _ <-; by apply phasesMove_same].
  cbn [negb] in E. refused E.
  do 3 (destruct (patched _ _ _); [|injection E as _ <-; by apply phasesMove_same]).
  destruct (updateCombination _ _ _ _) as [w st2] eqn:Eu in E.
  assert (phasesMove st st2) as H2; [|destruct w as [[]|]; injection E as _ <-; done].
  eapply updateCombination_phase; [exact Eu|]. intros r r' _ Hc Ha%assignOneShotConfig_phase.
  apply andb_true_iff in Hc as [[_ Hin]%andb_true_iff _]. right. left.
  split; [by apply building_or_waiting|]. rewrite Ha. by apply oneShotPhaseAfter_cases.
Qed.

Lemma updateSpreadConfig_phase owner id input ask bid target tv pv t (st st' : Store D) u :
  updateSpreadConfig owner id input ask bid target tv pv t st = (u, st') -> phasesMove st st'.
Proof.
  unfold updateSpreadConfig. intros E. refused E.
  destruct (updateCombination _ _ _ _) as [w st2] eqn:Eu in E.
  assert (phasesMove st st2) as H2; [|destruct w as [[]|]; injection E as _ <-; done].
  eapply updateCombination_phase; [exact Eu|]. intros r r' _ _ Ha%assignSpreadConfig_phase. by left.
Qed.

Lemma config_phase owner id input now t (st st' : Store D) u :
  configTransaction owner id input now t st = (u, st') -> phasesMove st st'.
Proof.
  unfold configTransaction. destruct (st_combinations st !! id) as [row|] eqn:Hr; [|intros [= _ <-]; by apply phasesMove_same].
  cbv zeta. generalize (scanCombination (D := D) row) as current. intros current E. refused E.
  do 2 (destruct (dNewFromString _); [|injection E as _ <-; by apply phasesMove_same]). refused E.
  destruct (if EqualFold _ _ then _ else _) as [v st1] eqn:E1.
  assert (phasesMove st st1) as H1.
  { destruct (EqualFold _ _); [by eapply updateOneShotConfig_phase|by eapply updateSpreadConfig_phase]. }
  destruct v; injection E as _ <-; exact H1.
Qed.

Lemma dIsZero_val (d : D) : dIsZero d = true -> (dval d == 0)%Q.
Proof. by destruct (dIsZero_reflect d). Qed.

Lemma nothingLive_cases (st : Store D) id : nothingLive st id = true -> hasActiveExecution st id = false /\ hasLiveOrder st id = false.
Proof. unfold nothingLive. by intros [?%negb_true_iff ?%negb_true_iff]%andb_true_iff. Qed.

Lemma unattended_cases r : unattended r = true -> c_PositionUncertain (cb_item r) = false.
Proof. unfold unattended. by intros [?%negb_true_iff _]%andb_true_iff. Qed.

Lemma quiet_cases (st : Store D) id : quietForExit st id = true -> hasActiveExecution st id = false.
Proof. unfold quietForExit. by intros [?%negb_true_iff _]%andb_true_iff. Qed.

(** A row rewritten with its phase. *)
Lemma phasesMove_row (st st' : Store D) id row row' :
  st_combinations st !! id = Some row -> st_combinations st' = <[id := row']> (st_combinations st) -> phaseOf row' = phaseOf row -> phasesMove st st'.
Proof.
  intros Hr E Hp j r Hj. rewrite E. destruct (decide (j = id)) as [->|Hn].
  - rewrite lookup_insert_eq. exists row'. split; [done|]. left. congruence.
  - rewrite lookup_insert_ne by done. exists r. split; [done|by left].
Qed.

Lemma insertExecution_phase x row t (st st' : Store D) u :
  st_combinations st !! x_CombinationID x = Some row -> insertExecution x row t st = (u, st') -> phasesMove st st'.
Proof.
  intros Hr. unfold insertExecution. destruct (newExecutionRow _ _ _); [|intros [= _ <-]; by apply phasesMove_same].
  destruct (executionConflict _ _); intros [= _ <-]; [by apply phasesMove_same|]. by eapply phasesMove_row.
Qed.

Lemma claim_phase x t (st st' : Store D) u : claimTransaction x t st = (u, st') -> phasesMove st st'.
Proof.
  unfold claimTransaction. destruct (st_combinations st !! _) as [row|] eqn:Hr; [|intros [= _ <-]; by apply phasesMove_same].
  destruct (_ || _); [intros [= _ <-]; by apply phasesMove_same|]. by apply insertExecution_phase.
Qed.

Lemma flatten_phase claim now t (st st' : Store D) u : flattenClaimTransaction (D := D) claim now t st = (u, st') -> phasesMove st st'.
Proof.
  unfold flattenClaimTransaction. cbv zeta. destruct (st_combinations st !! _) as [row|] eqn:Hr; [|intros [= _ <-]; by apply phasesMove_same].
  destruct (_ || _); [intros [= _ <-]; by apply phasesMove_same|]. by apply insertExecution_phase.
Qed.

Lemma hedge_phase input t (st st' : Store D) u : prepareHedgeTransaction input t st = (u, st') -> phasesMove st st'.
Proof.
  unfold prepareHedgeTransaction. cbv zeta. intros H.
  destruct (st_combinations st !! _) as [combo|] eqn:Hc; [|injection H as _ <-; by apply phasesMove_same].
  destruct (st_executions st !! _) as [row|]; [|injection H as _ <-; by apply phasesMove_same].
  destruct (negb _); [injection H as _ <-; by apply phasesMove_same|].
  destruct (terminalArbitrageExecutionStatus _); [injection H as _ <-; by apply phasesMove_same|].
  destruct (if ph_FastPathAdmission input then _ else _) as [x1|]; [|injection H as _ <-; by apply phasesMove_same].
  destruct (if ph_AggregateCarry input then _ else _); [|injection H as _ <-; by apply phasesMove_same].
  destruct (hedgeOrder input x1 t st) as [[[[stored created] x2] st2]|] eqn:Eh; [|injection H as _ <-; by apply phasesMove_same].
  destruct (assignExecution _ _ _); injection H as _ <-; [|by apply phasesMove_same].
  assert (st_combinations st2 = st_combinations st) as E2 by (unfold hedgeOrder in Eh; repeat (case_match; simplify_eq/=; try done)).
  eapply phasesMove_row; [exact Hc|cbn; by rewrite E2|]. reflexivity.
Qed.

Lemma phasesMove_keep (st st1 st2 : Store D) :
  phasesMove st st1 -> (forall id r, st_combinations st1 !! id = Some r -> exists r', st_combinations st2 !! id = Some r' /\ phaseOf r' = phaseOf r) ->
  phasesMove st st2.
Proof.
  intros H1 H2 id r Hr. destruct (H1 id r Hr) as (r1 & Hr1 & M). destruct (H2 id r1 Hr1) as (r2 & Hr2 & E). exists r2. split; [done|].
  unfold phaseMove in *. by rewrite E.
Qed.

Lemma updatePositions_phase id t (st st' : Store D) u : updatePositions id t st = (u, st') -> phasesMove st st'.
Proof.
  unfold updatePositions. destruct (updateCombination _ _ _ _) as [w st1] eqn:Eu. intros H.
  assert (st1 = st') as -> by (by destruct w as [[]|]; injection H as _ <-).
  eapply updateCombination_phase; [exact Eu|]. intros r0 r1 _ _ Ha. left. unfold assignPositions in Ha. cbv zeta in Ha.
  destruct (numericText _); [|done]. destruct (numericText _); [|done]. by injection Ha as <-.
Qed.

Lemma settle_keeps id (notional : D) t (st st' : Store D) u :
  settleFlatten id notional t st = (u, st') ->
  forall j r, st_combinations st !! j = Some r -> exists r', st_combinations st' !! j = Some r' /\ phaseOf r' = phaseOf r.
Proof.
  unfold settleFlatten, updateCombination. intros H j r Hj. destruct (st_combinations st !! id) as [row|] eqn:Hr; [|injection H as _ <-; eauto].
  destruct (if dIsPositive notional then _ else _) as [row'|] eqn:Ea; injection H as _ <-; [|by eauto]. cbn.
  assert (phaseOf row' = phaseOf row) as Ep.
  { destruct (dIsPositive notional); [destruct (numericAny _); [|done]|]; injection Ea as <-; reflexivity. }
  destruct (decide (j = id)) as [->|Hn]; [rewrite lookup_insert_eq; exists row'; split; [done|congruence]|rewrite lookup_insert_ne by done; by eauto].
Qed.

Lemma finalize_phase e t (st st' : Store D) u : finalizeFlattenTransaction (D := D) e t st = (u, st') -> phasesMove st st'.
Proof.
  unfold finalizeFlattenTransaction. cbv zeta. intros H. destruct (st_executions st !! e) as [row|]; [|injection H as _ <-; by apply phasesMove_same].
  destruct (st_combinations st !! _); [|injection H as _ <-; by apply phasesMove_same]. destruct (negb _); [injection H as _ <-; by apply phasesMove_same|].
  destruct (terminalArbitrageExecutionStatus _); [injection H as _ <-; by apply phasesMove_same|].
  destruct (updatePositions _ _ _) as [[c1|e1] st1] eqn:Ep; [|injection H as _ <-; by apply phasesMove_same]. apply updatePositions_phase in Ep.
  destruct (oneShotFinalFlattenFillTotals _ _) as [[fa fb] nt]. do 3 (destruct (numericAny _); [|injection H as _ <-; by apply phasesMove_same]).
  destruct (settleFlatten _ _ _ _) as [w st2] eqn:Es. destruct w as [[c2|]|e2]; injection H as _ <-; [|by apply phasesMove_same..].
  eapply phasesMove_keep; [exact Ep|]. exact (settle_keeps _ _ _ _ _ _ Es).
Qed.

Lemma insertResidualOrders_combinations e orders t (st st' : Store D) u :
  insertResidualOrders e orders t st = (u, st') -> st_combinations st' = st_combinations st.
Proof.
  revert st. induction orders as [|o orders IH]; intros st; cbn [insertResidualOrders]; [by intros [= _ <-]|].
  destruct (byIdempotency _ _); [by intros [= _ <-]|]. destruct (insertOrder _ _ _); [|by intros [= _ <-]]. by intros ->%IH.
Qed.

Lemma residual_phase {uu : Uuids} id claim t (st st' : Store D) u :
  residualClaimTransaction (D := D) id claim t st = (u, st') -> phasesMove st st'.
Proof.
  unfold residualClaimTransaction. cbv zeta. intros H. destruct (st_combinations st !! id) as [row|] eqn:Hr; [|injection H as _ <-; by apply phasesMove_same].
  destruct (st_executions st !! _); [injection H as _ <-; by apply phasesMove_same|]. destruct (_ || _); [injection H as _ <-; by apply phasesMove_same|].
  destruct (otherWork _ _ _); [injection H as _ <-; by apply phasesMove_same|].
  destruct (newExecutionRow _ _ _); [|injection H as _ <-; by apply phasesMove_same].
  destruct (executionConflict _ _); [injection H as _ <-; by apply phasesMove_same|].
  destruct (insertResidualOrders _ _ _ _) as [[v|e0] st1] eqn:Ei; [|injection H as _ <-; by apply phasesMove_same]. apply insertResidualOrders_combinations in Ei.
  destruct (negb _); injection H as _ <-; [by apply phasesMove_same|]. eapply phasesMove_row; [exact Hr|cbn; by rewrite Ei|done].
Qed.

Lemma dust_close_phase request t (st st' : Store D) u : dustCloseTransaction (D := D) request t st = (u, st') -> phasesMove st st'.
Proof.
  unfold dustCloseTransaction. cbv zeta. intros H. destruct (st_combinations st !! _); [|injection H as _ <-; by apply phasesMove_same].
  destruct (updateCombination _ _ _ _) as [w st1] eqn:Eu.
  assert (phasesMove st st1) as H1.
  { eapply updateCombination_phase; [exact Eu|]. intros r0 r1 _ _ Ha. injection Ha as <-. by left. }
  destruct w as [[c1|]|e1]; [|by injection H as _ <-..]. injection H as _ <-. by destruct (eventSeen _ _).
Qed.

Lemma lifeStep_phase (st st' : Store D) : lifeStep st st' -> phasesMove st st'.
Proof.
  destruct 1 as [id m t st r st' H|id k m t st r st' H|id e t st r st' H|item t st r st' H|id a b s t st r st' H|id d t st r st' H
    |id m d t st r st' H|o id t st r st' H|id v s t st r st' H|id v reason t st r st' H|g t st r st' H|id v t st r st' H
    |id v a b c t st r st' H|id v t st r st' H|id t st r st' H|o id i now t st r st' H
    |x t st r st' H|input t st r st' H|claim now t st r st' H|e t st r st' H|u id claim t st r st' H|request t st r st' H|st st' E].
  - unfold failureTransaction in H. eapply updateCombination_phase; [exact H|]. intros r0 r1 _ _ Ha. left. unfold recordFailure in Ha.
    cbv zeta in Ha. destruct (_ || _); [by injection Ha as <-|]. destruct (failureSeconds _); [by injection Ha as <-|done].
  - eapply updateCombination_phase; [exact H|]. intros r0 r1 _ _ Ha. left. unfold recordCloseFailure in Ha. cbv zeta in Ha.
    injection Ha as <-. unfold phaseOf. cbn. by destruct (_ =?s _).
  - eapply updateCombination_phase; [exact H|]. intros r0 r1 _ _ Ha. left. by injection Ha as <-.
  - eapply updateCombination_phase; [exact H|]. intros r0 r1 _ _ Ha. left. unfold writeRuntime in Ha. cbv zeta in Ha.
    destruct (nullableAny _); [|done]. destruct (nullableAny _); [|done]. injection Ha as <-. by destruct (_ =?s _).
  - eapply updateCombination_phase; [exact H|]. intros r0 r1 _ _ Ha. left. cbv zeta in Ha.
    destruct (nullableAny _); [|done]. destruct (nullableAny _); [|done]. by injection Ha as <-.
  - eapply updateCombination_phase; [exact H|]. intros r0 r1 _ _ Ha. left. cbv zeta in Ha.
    destruct (numericAny d); [|done]. destruct (numericAny _); [|done]. destruct (numericAny _); [|done]. by injection Ha as <-.
  - eapply updateCombination_phase; [exact H|]. intros r0 r1 _ _ Ha. left. cbv zeta in Ha.
    destruct (numericAny m); [|done]. destruct (numericAny d); [|done]. destruct (numericAny _); [|done].
    destruct (numericAny _); [|done]. by injection Ha as <-.
  - eapply updateCombination_phase; [exact H|]. intros r0 r1 _ _ Ha. left. unfold markClosing in Ha. cbv zeta in Ha.
    injection Ha as <-. by destruct (_ || _).
  - eapply updateCombination_phase; [exact H|]. intros r0 r1 _ Hc Ha. right. left.
    apply andb_true_iff in Hc as [_ Hc%inPhase_cases]. apply list_elem_of_singleton in Hc. injection Ha as <-. by split; [left|right].
  - eapply updateCombination_phase; [exact H|]. intros r0 r1 _ Hc Ha. right. right. left.
    apply andb_true_iff in Hc as [[[[_ Hp]%andb_true_iff _]%andb_true_iff Hu]%andb_true_iff Hq]. injection Ha as <-.
    split; [by apply building_or_waiting|]. split; [done|]. split; [by apply unattended_cases|by apply quiet_cases].
  - eapply updateCombination_phase; [exact H|]. intros r0 r1 _ Hc Ha. right. right. left.
    apply andb_true_iff in Hc as [[[[_ Hp]%andb_true_iff _]%andb_true_iff Hu]%andb_true_iff Hq]. injection Ha as <-.
    split; [by apply building_or_waiting|]. split; [done|]. split; [by apply unattended_cases|by apply quiet_cases].
  - eapply updateCombination_phase; [exact H|]. intros r0 r1 _ Hc Ha. right. right. right. cbv zeta in Hc.
    apply andb_true_iff in Hc as [[[[[[_ Hp]%andb_true_iff Hu]%andb_true_iff HA]%andb_true_iff _]%andb_true_iff _]%andb_true_iff Hl].
    injection Ha as <-. apply inPhase_cases, list_elem_of_singleton in Hp.
    split; [by left|]. split; [done|]. split; [by apply unattended_cases|]. split; [left; by apply dIsZero_val|by apply nothingLive_cases].
  - eapply updateCombination_phase; [exact H|]. intros r0 r1 _ Hc Ha. right. right. right. cbv zeta in Hc.
    apply andb_true_iff in Hc as [[Hc Hz]%andb_true_iff Hl]. injection Ha as <-.
    assert (oneShotAt v r0 && inPhase ["exiting"%string] r0 && unattended r0 = true) as Hc0
      by (by repeat (apply andb_true_iff in Hc as [Hc _]; try exact Hc)).
    apply andb_true_iff in Hc0 as [[_ Hp]%andb_true_iff Hu]. apply inPhase_cases, list_elem_of_singleton in Hp.
    split; [by left|]. split; [done|]. split; [by apply unattended_cases|]. split; [|by apply nothingLive_cases].
    apply orb_true_iff in Hz as [[_ Hz]%andb_true_iff|[Hz _]%andb_true_iff]; [right|left]; by apply dIsZero_val.
  - eapply updateCombination_phase; [exact H|]. intros r0 r1 _ Hc Ha. injection Ha as <-. cbv zeta in Hc. unfold phaseMove.
    apply andb_true_iff in Hc as [[[[[[_ Hs]%andb_true_iff Hu]%andb_true_iff HA]%andb_true_iff _]%andb_true_iff _]%andb_true_iff Hl].
    apply String.eqb_eq in Hs. unfold phaseOf. cbn. destruct (_ =?s "one_shot"); [right; right; right|by left].
    split; [by right|]. split; [done|]. split; [by apply unattended_cases|]. split; [left; by apply dIsZero_val|by apply nothingLive_cases].
  - by eapply updatePositions_phase.
  - by eapply config_phase.
  - by eapply claim_phase.
  - by eapply hedge_phase.
  - by eapply flatten_phase.
  - by eapply finalize_phase.
  - by eapply residual_phase.
  - by eapply dust_close_phase.
  - by apply phasesMove_same.
Qed.

End Phases.

(** ** Witnesses *)

Section LedgerWitnesses.
#[local] Existing Instance stillEnv.

Definition quietItem : ArbitrageCombination :=
  zero_ArbitrageCombination <| c_ID := "c1"%string |> <| c_OwnerUsername := "u"%string |> <| c_Status := "running"%string |>
    <| c_RunMode := "one_shot"%string |> <| c_OneShotPhase := "building_target"%string |>
    <| c_TargetNotional := "1000"%string |> <| c_PositionNotional := "0"%string |>
    <| c_LegABasePosition := "0"%string |> <| c_LegBBasePosition := "0"%string |>
    <| c_LegAReconciliationAdjustment := "0"%string |> <| c_LegBReconciliationAdjustment := "0"%string |> <| c_MakerLeg := "a"%string |>.
Definition rowOf (c : ArbitrageCombination) : CombinationRow :=
  mkCombinationRow c (At 0) (At 0) None None None None None None (At 0) None.
Definition arbStore (c : ArbitrageCombination) : Store Dec := openStore <| st_combinations := {["c1"%string := rowOf c]} |>.

Definition openingClaim : ArbitrageExecution :=
  zero_ArbitrageExecution <| x_ID := "x1"%string |> <| x_CombinationID := "c1"%string |> <| x_Status := "claimed"%string |>
    <| x_Direction := "ask"%string |> <| x_PositionEffect := "open"%string |>
    <| x_TriggerAskSpread := "1"%string |> <| x_TriggerBidSpread := "1"%string |>
    <| x_TriggerLegABid := "99"%string |> <| x_TriggerLegAAsk := "100"%string |>
    <| x_TriggerLegBBid := "101"%string |> <| x_TriggerLegBAsk := "102"%string |>
    <| x_TargetBaseQuantity := "2"%string |> <| x_RequestedNotional := "204"%string |>.
Definition claimedStore : Store Dec := snd (claimTransaction openingClaim 0 (arbStore quietItem)).

Lemma arbStore_sound (c : ArbitrageCombination) : executionsSound (arbStore c).
Proof.
  assert (st_executions (arbStore c) = ∅) as E by reflexivity.
  split; [intros k r|intros k1 k2 r1 r2]; rewrite E, lookup_empty; discriminate.
Qed.

Lemma one_active_execution_witness : executionsSound claimedStore.
Proof.
  pose proof (one_active_execution (arbStore quietItem) claimedStore) as H.
  specialize (H (rtc_once _ _ (astep_claim _ _ _ _ _ (surjective_pairing _))) (arbStore_sound quietItem)).
  exact (proj1 H).
Defined.


Definition hedgeInput (key : string) : PrepareHedgeInput :=
  mkPrepareHedgeInput quietItem openingClaim
    (openOrder <| o_ID := "h1"%string |> <| o_ClientOrderID := "sqh1"%string |> <| o_IdempotencyKey := key |> <| o_ArbitrageExecutionID := "x1"%string |>
       <| o_ArbitrageRole := "hedge"%string |> <| o_ArbitrageLeg := "b"%string |>)
    0 false "" "" false "".

Definition createdBy (answer : Result PrepareHedgeResult * Store Dec) : bool :=
  match fst answer with Ok r => pr_Created r | Err _ => false end.


(** A combination with one execution, one of whose orders on leg a trades. *)
Definition tradingRow : OrderRow :=
  openRow <| row_order := openOrder <| o_Side := "buy"%string |> <| o_ArbitrageLeg := "a"%string |>
                                    <| o_ArbitrageExecutionID := "x1"%string |> |>.
Definition tradingStore : Store Dec := claimedStore <| st_orders := {["o1"%string := tradingRow]} |>.

Lemma tradingStore_typed : storeTyped tradingStore.
Proof.
  assert (st_tracker tradingStore = newOrderFillAverageTracker) as Et by (vm_compute; reflexivity).
  split; [|rewrite Et; intros a s; cbn; by rewrite lookup_empty].
  intros id row. change (st_orders tradingStore) with ({["o1"%string := tradingRow]} : gmap string OrderRow).
  intros [<- <-]%lookup_singleton_Some. split; [done|].
  exists (inject_Z 5), (inject_Z 0), (inject_Z 0).
  constructor; try (apply integer_column; vm_compute; reflexivity); try (vm_compute; congruence); try reflexivity.
  apply list_elem_of_In. cbn. tauto.
Qed.

Lemma zero_adjustments (row : CombinationRow) (st : Store Dec) :
  st = tradingStore -> st_combinations st !! "c1"%string = Some row ->
  numericColumn (D := Dec) (c_LegAReconciliationAdjustment (cb_item row)) 0 /\
  numericColumn (D := Dec) (c_LegBReconciliationAdjustment (cb_item row)) 0.
Proof.
  intros -> E. vm_compute in E. injection E as <-. split; apply (integer_column "0" 0); vm_compute; reflexivity.
Qed.

Lemma recompute_is_ledger_witness : exists c st', updatePositions "c1" 9 tradingStore = (Ok c, st') /\
  (dval (parseDecimal (D := Dec) (c_LegABasePosition c)) == ledger tradingStore "c1" "a" + 0)%Q.
Proof.
  destruct (st_combinations tradingStore !! "c1"%string) as [row|] eqn:Er; [|vm_compute in Er; discriminate].
  destruct (updatePositions "c1" 9 tradingStore) as [[c|] st'] eqn:Eu; [|vm_compute in Eu; discriminate].
  exists c, st'. split; [reflexivity|]. destruct (zero_adjustments row tradingStore eq_refl Er) as [Ha Hb].
  pose proof (recompute_is_ledger tradingStore st' "c1" 9 row c 0 0 tradingStore_typed Er Ha Hb Eu) as H.
  clear Eu Er. exact (proj1 H).
Defined.

Definition afterTradeOf (st : Store Dec) : Result (Order * bool) * Store Dec :=
  applyTransaction "o1" (fillReport "2") (7 * Second) (8 * Second) true [] false 0 None st.

Lemma report_moves_position_witness : exists c c1 st1,
  fst (updatePositions "c1" 9 tradingStore) = Ok c /\ snd (afterTradeOf tradingStore) = st1 /\
  fst (updatePositions "c1" 10 st1) = Ok c1 /\
  (dval (parseDecimal (D := Dec) (c_LegBBasePosition c1)) == dval (parseDecimal (D := Dec) (c_LegBBasePosition c)) + 0)%Q.
Proof.
  destruct (afterTradeOf tradingStore) as [[[o changed]|] st1] eqn:Et; [|vm_compute in Et; discriminate].
  destruct (st_combinations tradingStore !! "c1"%string) as [row|] eqn:Er; [|vm_compute in Er; discriminate].
  destruct (updatePositions "c1" 9 tradingStore) as [[c|] st'] eqn:Eu; [|vm_compute in Eu; discriminate].
  destruct (updatePositions "c1" 10 st1) as [[c1|] st1'] eqn:Eu1.
  2:{ exfalso. vm_compute in Et. injection Et as _ _ <-. vm_compute in Eu1. discriminate. }
  exists c, c1, st1. do 2 (split; [reflexivity|]). split; [rewrite Eu1; reflexivity|]. destruct (zero_adjustments row tradingStore eq_refl Er) as [Ha Hb].
  pose proof (report_moves_position tradingStore st1 st' st1' "c1" "o1" "a" (fillReport "2") (7 * Second) (8 * Second) 9 10
    true false [] 0 None o changed tradingRow row c c1 0 0 tradingStore_typed (or_introl eq_refl)) as H.
  specialize (H eq_refl ltac:(vm_compute; discriminate) ltac:(vm_compute; reflexivity) eq_refl Et Er Ha Hb Eu Eu1).
  clear Eu Eu1 Et Er. exact (proj2 H).
Defined.

Definition fiveTimes : list GoTime := [1; 2; 3; 4; 5].


(** Thirty failures with two alternating messages: the circuit stays closed. *)
Fixpoint alternating (n : nat) (r : CombinationRow) : Result CombinationRow :=
  match n with
  | O => Ok r
  | S n => match recordFailure (if Nat.even n then "busy" else "timeout") 0 r with Ok r' => alternating n r' | Err e => Err e end
  end.
Definition thirtyFailures : CombinationRow :=
  match alternating 30 (rowOf quietItem) with Ok r => r | Err _ => rowOf quietItem end.
Definition failedStore : Store Dec := openStore <| st_combinations := {["c1"%string := thirtyFailures]} |>.

Lemma failure_backoff_overflows_witness :
  updateCombination "c1" (fun r => liveCombination (cb_item r)) (recordFailure "timeout" 9) failedStore =
    (Err errIntegerRange, failedStore).
Proof.
  pose proof (failure_backoff_overflows (D := Dec) "timeout" 9 thirtyFailures failedStore "c1") as H.
  specialize (H ltac:(vm_compute; reflexivity) ltac:(vm_compute; discriminate) ltac:(vm_compute; reflexivity)
    ltac:(vm_compute; reflexivity) ltac:(vm_compute; reflexivity)). exact H.
Defined.

Definition exitedItem : ArbitrageCombination := quietItem <| c_OneShotPhase := "exited"%string |>.

End LedgerWitnesses.
