(* ===== verification/FlattenLedger.v ===== *)
(** * What the flattenings keep

    The residual flatten of a close is claimed once for the life of its
    combination and only when nothing else of it is under way, and the end of a
    final flatten writes the books of its combination. *)
From Stdlib Require Import ZArith QArith Lqa String.
From stdpp Require Import base strings list gmap.
From S2P Require Import Prelude Decimal DecimalRef Types Quantity Validate ArbMath ArbSize ArbHedge Resolution FillAverage Store OrderStore OrderService FlattenRules ArbStore FlattenStore ArbLedger.

#[local] Set Warnings "-clear-no-such-hyp".

Section Residual.
Context {D : Type} `{!Decimal D} `{!Postgres D} `{!Env D} `{uu : !Uuids}.

(** Nothing but the residual execution [e] of combination [id] is under way. *)
Definition onlyResidual (st : Store D) (id e : string) : Prop :=
  (forall j r, st_executions st !! j = Some r -> x_CombinationID (ex_item r) = id -> activeExecution r = false) /\
  (forall r, r ∈ combinationOrders st id -> o_ArbitrageExecutionID (row_order r) <> e -> terminalStatus (o_Status (row_order r)) = true).

(** The orders [orders] of execution [e] are stored as pending. *)
Definition ordersPending (st : Store D) (e : string) (orders : list Order) : Prop :=
  Forall (fun o => exists row, st_orders st !! o_ID o = Some row /\ o_Status (row_order row) = "pending"%string /\
    o_ArbitrageExecutionID (row_order row) = e /\ o_ReduceOnly (row_order row) = o_ReduceOnly o /\
    o_IdempotencyKey (row_order row) = o_IdempotencyKey o) orders.

Lemma insertResidual_kept e orders t (st st' : Store D) k row :
  insertResidualOrders e orders t st = (Ok tt, st') -> st_orders st !! k = Some row -> st_orders st' !! k = Some row.
Proof.
  revert st. induction orders as [|o orders IH]; intros st; cbn [insertResidualOrders]; [by intros [= <-]|].
  destruct (byIdempotency _ _); [done|]. destruct (insertOrder _ _ _) as [r|] eqn:Ei; [|done]. intros H Hk. apply (IH _ H). cbn.
  rewrite lookup_insert_ne; [done|]. intros <-. unfold insertOrder in Ei. cbn in Ei. by rewrite Hk in Ei.
Qed.

Lemma insertOrder_stored (o : Order) t (st : Store D) row : insertOrder o t st = Ok row ->
  o_Status (row_order row) = "pending"%string /\ o_ArbitrageExecutionID (row_order row) = o_ArbitrageExecutionID o /\
  o_ReduceOnly (row_order row) = o_ReduceOnly o /\ o_IdempotencyKey (row_order row) = o_IdempotencyKey o.
Proof. unfold insertOrder. intros H. repeat (case_match; try done). injection H as <-. done. Qed.

Lemma insertResidual_pending e orders t (st st' : Store D) :
  insertResidualOrders e orders t st = (Ok tt, st') -> ordersPending st' e orders.
Proof.
  revert st. induction orders as [|o orders IH]; intros st; cbn [insertResidualOrders]; [by intros [= <-]; constructor|].
  destruct (byIdempotency _ _); [done|]. destruct (insertOrder _ _ _) as [r|] eqn:Ei; [|done]. intros H.
  constructor; [|by eapply IH]. exists r. split; [eapply insertResidual_kept; [exact H|]; apply lookup_insert_eq|].
  by apply insertOrder_stored in Ei.
Qed.

(** No step of the repository removes an execution. *)
Lemma arbStep_key (st st' : Store D) k row : arbStep st st' -> st_executions st !! k = Some row -> exists row', st_executions st' !! k = Some row'.
Proof.
  intros [E|[(j & r & r' & _ & _ & E)|(j & r' & _ & _ & E & _)]]%arbStep_change Hk; rewrite E; [by eauto|..].
  - destruct (decide (j = k)) as [->|]; [rewrite lookup_insert_eq; eauto|rewrite lookup_insert_ne by done; eauto].
  - destruct (decide (j = k)) as [->|]; [rewrite lookup_insert_eq; eauto|rewrite lookup_insert_ne by done; eauto].
Qed.

Lemma arbSteps_key (st st' : Store D) k row : rtc arbStep st st' -> st_executions st !! k = Some row -> exists row', st_executions st' !! k = Some row'.
Proof.
  intros Hr. revert row. induction Hr as [st|st st1 st2 Hs _ IH]; intros row Hk; [by eauto|].
  destruct (arbStep_key _ _ _ _ Hs Hk) as [row1 Hk1]. by eapply IH.
Qed.

Lemma residualClaim_won id claim t (st st' : Store D) x :
  residualClaimTransaction id claim t st = (Ok (x, true), st') ->
  exists row, st_combinations st !! id = Some row /\ c_Version (cb_item row) = rk_ExpectedVersion claim /\ c_Status (cb_item row) = "closing"%string /\
    c_PositionUncertain (cb_item row) = false /\ c_CircuitOpen (cb_item row) = false /\ c_RuntimeState (cb_item row) <> "manual_intervention"%string /\
    st_executions st !! lastCloseResidualFlattenExecutionID id = None /\
    onlyResidual st id (lastCloseResidualFlattenExecutionID id) /\
    ordersPending st' (lastCloseResidualFlattenExecutionID id) (rk_Orders claim) /\
    exists inserted, st_executions st' !! lastCloseResidualFlattenExecutionID id = Some inserted /\ x = scanExecution inserted /\
      x_ReduceOnly (ex_item inserted) = true.
Proof.
  unfold residualClaimTransaction. cbv zeta. intros H. destruct (st_combinations st !! id) as [row|]; [|done].
  destruct (st_executions st !! _) eqn:He; [done|].
  destruct (Z.eqb_spec (c_Version (cb_item row)) (rk_ExpectedVersion claim)) as [Ev|]; [|done]. destruct (EqualFold _ _); [|done].
  destruct (c_PositionUncertain (cb_item row)) eqn:Hu; [done|]. destruct (c_CircuitOpen (cb_item row)) eqn:Ho; [done|].
  destruct (String.eqb_spec (c_RuntimeState (cb_item row)) "manual_intervention") as [|Hm]; [done|]. cbn in H.
  destruct (otherWork _ _ _) eqn:Hw; [done|]. destruct (newExecutionRow _ _ _) as [inserted|] eqn:En; [|done].
  destruct (executionConflict _ _) eqn:Ex; [done|]. destruct (insertResidualOrders _ _ _ _) as [[[]|e] st1] eqn:Ei; [|done].
  destruct (String.eqb_spec (c_Status (cb_item row)) "closing") as [Es|]; [|done]. injection H as <- <-. exists row.
  split; [done|]. split; [done|]. split; [done|]. split; [done|]. split; [done|]. split; [done|]. split; [done|].
  split.
  { split.
    - apply orb_false_iff in Ex as [_ Ha]. cbn in Ha. exact (proj1 (hasActiveExecution_spec st id) Ha).
    - intros r Hr Hne. apply orb_false_iff in Hw as [_ Hw]. destruct (terminalStatus (o_Status (row_order r))) eqn:Ht; [done|]. rewrite <- Hw.
      apply existsb_exists. exists r. split; [by apply list_elem_of_In|]. rewrite Ht. by destruct (String.eqb_spec (o_ArbitrageExecutionID (row_order r)) (lastCloseResidualFlattenExecutionID id)). }
  split; [by apply insertResidual_pending in Ei|]. exists inserted. cbn. rewrite (insertResidualOrders_executions _ _ _ _ _ _ Ei). cbn.
  split; [apply lookup_insert_eq|]. split; [done|]. unfold newExecutionRow in En. destruct (mapM _ _) as [l|]; [|done].
  do 12 (destruct l as [|? l]; try done). by injection En as <-.
Qed.

(** C26: the residual of a close is flattened once.  A claim that wins finds the
    combination closing at the expected version, certain, not tripped and not in
    manual intervention, with no execution of it active and no order of another
    execution live, and stores its reduce-only execution and its pending orders
    together; after it, whatever the repository does, no claim for this
    combination ever wins or changes a table again. *)
Theorem residual_flatten_once id claim claim' t t' (st st' st2 st3 : Store D) x r :
  residualClaimTransaction id claim t st = (Ok (x, true), st') ->
  (exists row, st_combinations st !! id = Some row /\ c_Version (cb_item row) = rk_ExpectedVersion claim /\ c_Status (cb_item row) = "closing"%string /\
     c_PositionUncertain (cb_item row) = false /\ c_CircuitOpen (cb_item row) = false /\ c_RuntimeState (cb_item row) <> "manual_intervention"%string) /\
  onlyResidual st id (lastCloseResidualFlattenExecutionID id) /\
  ordersPending st' (lastCloseResidualFlattenExecutionID id) (rk_Orders claim) /\ x_ReduceOnly x = true /\
  (rtc arbStep st' st2 -> residualClaimTransaction id claim' t' st2 = (r, st3) -> st3 = st2 /\ forall y, r <> Ok (y, true)).
Proof.
  intros (row & H1 & H2 & H3 & H4 & H5 & H6 & _ & H8 & H9 & inserted & Hk & -> & Hro)%residualClaim_won.
  split; [by exists row|]. split; [done|]. split; [done|]. split; [done|]. intros Hr Hc.
  destruct (arbSteps_key _ _ _ _ Hr Hk) as [row2 Hk2]. unfold residualClaimTransaction in Hc. cbv zeta in Hc.
  destruct (st_combinations st2 !! id); [|by injection Hc as <- <-]. rewrite Hk2 in Hc. by injection Hc as <- <-.
Qed.
End Residual.

Section Settle.
Context {D : Type} `{!Decimal D} `{!DecimalLaws D} `{!Postgres D} `{!PostgresLaws D} `{!Env D}.
Local Open Scope Q_scope.

(** The books of combination [id] after the flatten [e]: the execution has
    ended and the position columns are [a] and [b]. *)
Definition settled (st' : Store D) (id e : string) (a b : Q) : Prop :=
  (exists row', st_executions st' !! e = Some row' /\ activeExecution row' = false) /\
  exists combo', st_combinations st' !! id = Some combo' /\
    numericColumn (D := D) (c_LegABasePosition (cb_item combo')) a /\ numericColumn (D := D) (c_LegBBasePosition (cb_item combo')) b.

Lemma settleFlatten_row id (notional : D) t (st st' : Store D) c combo :
  st_combinations st !! id = Some combo -> settleFlatten id notional t st = (Ok (Some c), st') ->
  exists combo', st_combinations st' !! id = Some combo' /\ c_LegABasePosition (cb_item combo') = c_LegABasePosition (cb_item combo) /\
    c_LegBBasePosition (cb_item combo') = c_LegBBasePosition (cb_item combo) /\ c = scanCombination (D := D) combo'.
Proof.
  intros Hc. unfold settleFlatten, updateCombination. rewrite Hc. destruct (if dIsPositive notional then _ else _) as [row'|] eqn:Ea; [|done]. intros [= <- <-].
  exists row'. cbn. rewrite lookup_insert_eq. split; [done|].
  assert (c_LegABasePosition (cb_item row') = c_LegABasePosition (cb_item combo) /\ c_LegBBasePosition (cb_item row') = c_LegBBasePosition (cb_item combo)) as [E1 E2].
  { destruct (dIsPositive notional); [destruct (numericAny _); [|done]|]; injection Ea as <-; by split. }
  by split_and!.
Qed.

(** C27: ending a final flatten writes the books.  The transaction that ends the
    execution applies only when every order of the flatten is terminal, leaves
    the execution finished, completed exactly when something was filled, and in
    the same step sets the position of each leg to the signed sum of all fills
    of the combination plus its adjustment; while an order is not terminal it
    changes nothing. *)
Theorem final_flatten_settles (e : string) (t : GoTime) (st : Store D) (row : ExecutionRow) (combo : CombinationRow) (adjA adjB : Q) :
  let id := x_CombinationID (ex_item row) in
  let orders := map scanOrder (executionOrders st e) in
  storeTyped st -> st_executions st !! e = Some row -> st_combinations st !! id = Some combo ->
  numericColumn (D := D) (c_LegAReconciliationAdjustment (cb_item combo)) adjA ->
  numericColumn (D := D) (c_LegBReconciliationAdjustment (cb_item combo)) adjB ->
  match finalizeFlattenTransaction (D := D) e t st with
  | (Ok (c, x, true), st') =>
      oneShotFinalFlattenOrdersTerminal orders e = true /\ activeExecution row = true /\
      settled st' id e (ledger st id "a" + adjA) (ledger st id "b" + adjB) /\
      (x_Status x = "completed"%string <->
       0 < dval (fst (fst (oneShotFinalFlattenFillTotals (D := D) orders e))) \/ 0 < dval (snd (fst (oneShotFinalFlattenFillTotals (D := D) orders e))))
  | (_, st') => st' = st
  end.
Proof.
  intros id orders Ty Hr Hc HA HB. unfold finalizeFlattenTransaction. rewrite Hr. cbv zeta. fold orders.
  change (x_CombinationID (scanExecution row)) with id. rewrite Hc.
  destruct (oneShotFinalFlattenOrdersTerminal orders e) eqn:Ht; [|done]. cbn [negb].
  destruct (terminalArbitrageExecutionStatus _) eqn:Hx; [done|].
  destruct (updatePositions id t st) as [[c1|e1] st1] eqn:Ep; [|done].
  destruct (updatePositions_ledger _ _ _ _ _ _ _ _ Ty Hc HA HB Ep) as (CA & CB & combo1 & Hc1 & ->).
  destruct (oneShotFinalFlattenFillTotals orders e) as [[fillA fillB] notional]. cbn [fst snd].
  destruct (numericAny _) as [na|]; [|done]. destruct (numericAny _) as [nb|]; [|done]. destruct (numericAny _) as [nd|]; [|done].
  destruct (settleFlatten _ _ _ _) as [[[c2|]|e2] st2] eqn:Es; [|done..].
  apply updatePositions_executions in Ep. pose proof Es as Ex. apply updateCombination_executions in Ex. cbn in Ex.
  eapply (settleFlatten_row id notional t _ st2 c2 combo1) in Es as (combo2 & Hc2 & EA & EB & _); [|exact Hc1].
  split; [done|]. split; [unfold activeExecution; by change (x_Status (ex_item row)) with (x_Status (scanExecution row)); rewrite Hx|].
  split.
  - split; [eexists; rewrite Ex, lookup_insert_eq; split; [reflexivity|]; unfold activeExecution; cbn; by destruct (_ && _)|].
    exists combo2. split; [done|]. rewrite EA, EB. by split.
  - cbn. destruct (dIsPositive_reflect fillA), (dIsPositive_reflect fillB); cbn; split; try done; try tauto; intros; by try (left; done); right.
Qed.
End Settle.

(** ** Witnesses *)

Section FlattenLedgerWitnesses.
#[local] Instance prefixUuids : Uuids := {| residualUUID s := String.append "residual-" s |}.

Definition closingStore : Store Dec := arbStore (quietItem <| c_Status := "closing"%string |>).
Definition residualOrder : Order :=
  zero_Order <| o_ID := "r1"%string |> <| o_IdempotencyKey := "k-r1"%string |> <| o_ClientOrderID := "cr1"%string |> <| o_Quantity := "0.1"%string |> <| o_ReduceOnly := true |>
    <| o_ArbitrageLeg := "a"%string |> <| o_Side := "sell"%string |>.
Definition residualClaim : LastCloseResidualFlattenClaim := mkResidualClaim 0 quietItem [residualOrder].
Definition residualWon : bool := match fst (residualClaimTransaction (D := Dec) "c1" residualClaim 5 closingStore) with Ok (_, b) => b | Err _ => false end.

Lemma residual_flatten_once_witness : residualWon = true /\ exists row, st_combinations closingStore !! "c1"%string = Some row /\ c_CircuitOpen (cb_item row) = false.
Proof.
  split; [vm_compute; reflexivity|].
  assert (residualWon = true) as Hw by (vm_compute; reflexivity). unfold residualWon in Hw.
  destruct (residualClaimTransaction (D := Dec) "c1" residualClaim 5 closingStore) as [[[x b]|e] st'] eqn:E; [|discriminate]. cbn in Hw. subst b.
  pose proof (residual_flatten_once (D := Dec) "c1" residualClaim residualClaim 5 6 closingStore st' st' st' x (Ok (x, false)) E)
    as [(row & H1 & _ & _ & _ & H5 & _) _].
  clear E. exists row. split; [exact H1|exact H5].
Defined.

Lemma final_flatten_settles_witness :
  match finalizeFlattenTransaction (D := Dec) "x1" 9 tradingStore with
  | (Ok (_, _, true), st') => settled st' "c1" "x1" (ledger tradingStore "c1" "a" + 0)%Q (ledger tradingStore "c1" "b" + 0)%Q
  | _ => False
  end.
Proof.
  destruct (st_combinations tradingStore !! "c1"%string) as [combo|] eqn:Ec; [|vm_compute in Ec; discriminate].
  destruct (st_executions tradingStore !! "x1"%string) as [row|] eqn:Er; [|vm_compute in Er; discriminate].
  assert (x_CombinationID (ex_item row) = "c1"%string) as Ei by (vm_compute in Er; injection Er as <-; reflexivity).
  destruct (zero_adjustments combo tradingStore eq_refl Ec) as [Ha Hb].
  pose proof (final_flatten_settles (D := Dec) "x1" 9 tradingStore row combo 0%Q 0%Q) as H. cbv zeta in H. rewrite Ei in H.
  specialize (H tradingStore_typed Er Ec Ha Hb).
  assert (match finalizeFlattenTransaction (D := Dec) "x1" 9 tradingStore with (Ok (_, _, true), _) => true | _ => false end = true) as Hv by (vm_compute; reflexivity).
  destruct (finalizeFlattenTransaction (D := Dec) "x1" 9 tradingStore) as [[[[c x] [|]]|e] st']; [|discriminate..].
  exact (proj1 (proj2 (proj2 H))).
Defined.
End FlattenLedgerWitnesses.
