(* ===== verification/CircuitStore.v ===== *)
(** * Closing an open circuit (arbitrage_circuit_recovery_repository.go,
      arbitrage_repository.go)

    The transactions that end the manual intervention of a combination whose
    circuit is open: a new opening after a margin reject, the completion of an
    execution whose fills explain the account, the adoption of an external
    change of the position, and the snapshot that is kept when none applies.
    Below them, the position of a leg in the account's portfolio. *)
From Stdlib Require Import ZArith QArith Lqa Ascii String.
From stdpp Require Import base strings list gmap.
From S2P Require Import Prelude Decimal DecimalRef Types Quantity Validate ArbMath ArbSize ArbHedge Resolution Store OrderStore OrderService FlattenRules ArbStore FlattenStore ArbLedger.

#[local] Set Warnings "-clear-no-such-hyp".

(** ** Data *)

Definition circuitCloseExplained : string := "explained".
Definition circuitCloseFilled : string := "filled".

(** [circuitOpenRecoveryCloseRequest] without the payload of the event. *)
Record circuitOpenRecoveryCloseRequest (D : Type) := mkRecoveryClose {
  rq_CombinationID : string;
  rq_ExecutionID : string;
  rq_ExpectedVersion : Z;
  rq_Kind : string;
  rq_EventType : string;
  rq_VenueA : D;
  rq_VenueB : D;
  rq_MarkA : D;
  rq_MarkB : D;
  rq_ObservedAt : GoTime;
  rq_RecoveryStartedAt : GoTime;
  rq_OrderSumA : D;
  rq_OrderSumB : D;
  rq_LegAFilled : string;
  rq_LegBFilled : string;
  rq_DeltaNotional : string;
  rq_TurnoverDelta : string
}.
Arguments mkRecoveryClose {D}.
Arguments rq_CombinationID {D}.
Arguments rq_ExecutionID {D}.
Arguments rq_ExpectedVersion {D}.
Arguments rq_Kind {D}.
Arguments rq_EventType {D}.
Arguments rq_VenueA {D}.
Arguments rq_VenueB {D}.
Arguments rq_MarkA {D}.
Arguments rq_MarkB {D}.
Arguments rq_ObservedAt {D}.
Arguments rq_RecoveryStartedAt {D}.
Arguments rq_OrderSumA {D}.
Arguments rq_OrderSumB {D}.
Arguments rq_LegAFilled {D}.
Arguments rq_LegBFilled {D}.
Arguments rq_DeltaNotional {D}.
Arguments rq_TurnoverDelta {D}.

(** [circuitOpenExternalReconcileRequest] *)
Record circuitOpenExternalReconcileRequest (D : Type) := mkExternalReconcile {
  xq_CombinationID : string;
  xq_ExecutionID : string;
  xq_ExpectedVersion : Z;
  xq_VenueA : D;
  xq_VenueB : D;
  xq_MarkA : D;
  xq_MarkB : D;
  xq_InstrumentA : Instrument;
  xq_InstrumentB : Instrument
}.
Arguments mkExternalReconcile {D}.
Arguments xq_CombinationID {D}.
Arguments xq_ExecutionID {D}.
Arguments xq_ExpectedVersion {D}.
Arguments xq_VenueA {D}.
Arguments xq_VenueB {D}.
Arguments xq_MarkA {D}.
Arguments xq_MarkB {D}.
Arguments xq_InstrumentA {D}.
Arguments xq_InstrumentB {D}.

(** [ClaimCircuitRecoveryExecutionInput] *)
Record ClaimCircuitRecoveryInput := mkClaimRecovery {
  ri_ExpectedVersion : Z;
  ri_FailedExecutionID : string;
  ri_Execution : ArbitrageExecution
}.

(** The fields of [portfolio.Position] and [portfolio.Snapshot] that a
    position and a mark are read from. *)
Record PortfolioPosition := mkPortfolioPosition {
  pp_Kind : string;
  pp_Exchange : string;
  pp_WireSymbol : string;
  pp_Symbol : string;
  pp_BaseAsset : string;
  pp_Side : string;
  pp_SignedContractSize : string;
  pp_MarkPrice : string;
  pp_LiquidationPrice : string
}.
Record PortfolioSnapshot := mkPortfolioSnapshot {
  ps_SpotBalances : list (string * string);
  ps_Positions : list PortfolioPosition
}.

(** ** The position of a leg in a portfolio *)

(** The characters the [Replacer] of [normalizedAuditSymbol] deletes. *)
Fixpoint dropSeparators (s : string) : string :=
  match s with
  | EmptyString => EmptyString
  | String ch r =>
      if existsb (Ascii.eqb ch) ["-"; "_"; "/"; ":"]%char then dropSeparators r else String ch (dropSeparators r)
  end.
Definition normalizedAuditSymbol (value : string) : string := ToUpper (dropSeparators (TrimSpace value)).

Section VenuePositions.
Context {D : Type} `{!Decimal D}.
Local Open Scope dec_scope.

(** The position belongs to the instrument of the leg. *)
Definition positionOfLeg (leg : ArbitrageLeg) (p : PortfolioPosition) : bool :=
  let target := normalizedAuditSymbol (l_ExchangeSymbol leg) in
  negb (negb (pp_Kind p =?s "") && negb (pp_Kind p =?s "cex")) &&
  EqualFold (pp_Exchange p) (l_Exchange leg) &&
  ((normalizedAuditSymbol (pp_WireSymbol p) =?s target) || (normalizedAuditSymbol (pp_Symbol p) =?s target) ||
   (negb (pp_BaseAsset p =?s "") && EqualFold (pp_BaseAsset p) (l_BaseAsset leg))).

Definition portfolioAuditMark (snapshot : PortfolioSnapshot) (leg : ArbitrageLeg) : D :=
  match List.find (fun p => positionOfLeg leg p && dIsPositive (parsePositiveDecimal (D := D) (pp_MarkPrice p))) (ps_Positions snapshot) with
  | Some p => parsePositiveDecimal (pp_MarkPrice p)
  | None => dZero
  end.

(** The signed base quantity of one position. *)
Definition positionBase (instrument : Instrument) (p : PortfolioPosition) : Result D :=
  match dNewFromString (D := D) (pp_SignedContractSize p) with
  | None => Err (errPlain "parse account contract position")
  | Some signed =>
      match FromVenueQuantity (D := D) (toVenueInstrument instrument) (dString (dAbs signed)) with
      | Err e => Err e
      | Ok converted =>
          let base := parseDecimal converted in
          Ok (if dIsNegative signed then dNeg base else base)
      end
  end.
Fixpoint sumPositions (leg : ArbitrageLeg) (instrument : Instrument) (positions : list PortfolioPosition) (total : D) : Result D :=
  match positions with
  | [] => Ok total
  | p :: rest =>
      if negb (positionOfLeg leg p) then sumPositions leg instrument rest total
      else match positionBase instrument p with
           | Err e => Err e
           | Ok base => sumPositions leg instrument rest (total + base)
           end
  end.

(** The map of spot balances has one entry per asset: the order in which Go
    visits it only matters for names that differ in case. *)
Definition venueBasePosition (snapshot : PortfolioSnapshot) (leg : ArbitrageLeg) (instrument : Instrument) : Result D :=
  if l_ContractType leg =?s "spot" then
    match List.find (fun '(asset, _) => EqualFold asset (l_BaseAsset leg)) (ps_SpotBalances snapshot) with
    | Some (_, value) =>
        match dNewFromString (D := D) value with
        | Some position => Ok position
        | None => Err (errPlain "parse spot account position")
        end
    | None => Ok dZero
    end
  else sumPositions leg instrument (ps_Positions snapshot) dZero.

Definition arbitrageExpectedVenuePositions (c : ArbitrageCombination) (localA localB : D) : D * D :=
  if IsZeroTime (c_VenueBaselineCapturedAt c) || TimeEqual (c_VenueBaselineCapturedAt c) unixEpoch then (localA, localB)
  else (parseDecimal (c_LegAVenueBaselineBasePosition c) + localA, parseDecimal (c_LegBVenueBaselineBasePosition c) + localB).
End VenuePositions.

(** ** Transactions *)

Section CircuitStore.
Context {D : Type} `{!Decimal D} `{!Postgres D} `{!Env D}.
Local Open Scope dec_scope.

(** The fills of the combination by leg; none when an order is not settled. *)
Definition addSettled (isB : Order -> bool) (sums : D * D) (o : Order) : D * D :=
  let '(a, b) := sums in
  if dIsPositive (parseDecimal (D := D) (o_FilledQuantity o)) then
    if isB o then (a, b + signedFilledBase o) else (a + signedFilledBase o, b)
  else (a, b).
Definition settledSums (isB : Order -> bool) (orders : list Order) : option (D * D) :=
  if existsb (fun o => negb (terminalStatus (o_Status o)) || (0 <? o_ReconcileFailures o)%Z) orders then None
  else Some (fold_left (addSettled isB) orders (dZero, dZero)).

(** *** A new opening after a margin reject *)

Definition recoveryRefused (combo : ArbitrageCombination) (version : Z) : bool :=
  negb (c_Version combo =? version)%Z || negb (c_Status combo =?s "running") || negb (c_CircuitOpen combo) ||
  arbitrageFlattening combo ||
  existsb (String.eqb (ToLower (TrimSpace (c_OneShotPhase combo)))) ["waiting_exit"; "exiting"; "exited"]%string.

Definition recoveryFits (combo : ArbitrageCombination) (x : ArbitrageExecution) : bool :=
  let requested := parsePositiveDecimal (D := D) (x_RequestedNotional x) in
  let targetBase := parsePositiveDecimal (D := D) (x_TargetBaseQuantity x) in
  let priceA := parsePositiveDecimal (D := D) (x_TriggerLegAAsk x) in
  let priceB := parsePositiveDecimal (D := D) (x_TriggerLegBAsk x) in
  if negb (dIsPositive requested) || negb (dIsPositive targetBase) then false
  else if negb (dIsPositive priceA) || negb (dIsPositive priceB) then false
  else
    let midA := dDiv (parsePositiveDecimal (x_TriggerLegABid x) + priceA) (dNewFromInt 2) in
    let midB := dDiv (parsePositiveDecimal (x_TriggerLegBBid x) + priceB) (dNewFromInt 2) in
    let midA := if negb (dIsPositive midA) then priceA else midA in
    let midB := if negb (dIsPositive midB) then priceB else midB in
    let remaining := remainingDirectionNotional (parseDecimal (c_LegABasePosition combo)) (parseDecimal (c_LegBBasePosition combo))
                       (parsePositiveDecimal (c_TargetNotional combo)) midA midB in
    negb ((remaining <? dNewFromInt arbitrageMinOpenNotional) || (requested >? remaining)).

Definition claimRecoveryTransaction (in_ : ClaimCircuitRecoveryInput) (dbnow : GoTime) (st : Store D)
    : Result (ArbitrageExecution * bool) * Store D :=
  let x := ri_Execution in_ in
  let refused := (Ok (zero_ArbitrageExecution, false), st) in
  match st_combinations st !! x_CombinationID x with
  | None => (Err errNotFound, st)
  | Some row =>
      let combo := scanCombination (D := D) row in
      let id := x_CombinationID x in
      if recoveryRefused combo (ri_ExpectedVersion in_) then refused
      else if hasActiveExecution st id then refused
      else if hasLiveOrder st id then refused
      else match st_executions st !! ri_FailedExecutionID in_ with
      | None => refused
      | Some failedRow =>
          let failed := scanExecution failedRow in
          if negb (x_CombinationID failed =?s id) then refused
          else if negb (EqualFold (x_Status failed) "failed") || negb (EqualFold (TrimSpace (x_PositionEffect failed)) "open") || x_LastCloseClip failed
          then refused
          else match quoteRecoveryOrder (D := D) failed (map scanOrder (executionOrders st (ri_FailedExecutionID in_))) with
          | None => refused
          | Some _ =>
              if negb (recoveryFits combo x) then refused
              else
                let x := x <| x_Status := "claimed"%string |> <| x_PositionEffect := "open"%string |>
                           <| x_ReduceOnly := false |> <| x_LastCloseClip := false |> in
                match newExecutionRow (D := D) x (nextSequence st id) dbnow with
                | None => (Err errOverflow, st)
                | Some inserted =>
                    if executionConflict st x then (Err (errPlain "unique"), st)
                    else if negb (c_CircuitOpen combo && (c_RuntimeState combo =?s "manual_intervention")) then refused
                    else (Ok (scanExecution inserted, true),
                          st <| st_executions := <[x_ID x := inserted]> (st_executions st) |>
                             <| st_combinations := <[id := touch dbnow row]> (st_combinations st) |>)
                end
          end
      end
  end.

Definition ClaimCircuitRecoveryExecution (in_ : ClaimCircuitRecoveryInput) : M D (Result (ArbitrageExecution * bool)) :=
  let x := ri_Execution in_ in
  if (TrimSpace (x_CombinationID x) =?s "") || (TrimSpace (ri_FailedExecutionID in_) =?s "") then ret (Err errInvalidArgument)
  else
    do n <- tick;
    let x := if x_ID x =?s "" then x <| x_ID := newUUID n |> else x in
    if negb (EqualFold (TrimSpace (x_PositionEffect x)) "open") || x_LastCloseClip x || x_ReduceOnly x
    then ret (Ok (zero_ArbitrageExecution, false))
    else sql (claimRecoveryTransaction (mkClaimRecovery (ri_ExpectedVersion in_) (ri_FailedExecutionID in_) x)).

(** *** The combination is in order again *)

(** The assignments both closures of a circuit share. *)
Definition closedCircuit (dbnow : GoTime) (r : CombinationRow) : CombinationRow :=
  let r := forgetFailures r in
  touch dbnow (r <| cb_item := (cb_item r) <| c_CircuitOpen := false |> <| c_PositionUncertain := false |>
                      <| c_RuntimeState := "monitoring"%string |> <| c_ErrorMessage := ""%string |>
                      <| c_LegAPositionDifference := "0"%string |> <| c_LegBPositionDifference := "0"%string |> |>
                 <| cb_last_position_reconciled_at := Some dbnow |>).

(** The notional of the positions [localA] and [localB]. *)
Definition reconciledNotional (combo : ArbitrageCombination) (localA localB markA markB : D) : D :=
  let '(_, notional, _) := arbitragePositionNotionals
    (combo <| c_LegABasePosition := dString localA |> <| c_LegBBasePosition := dString localB |>) markA markB in notional.

Definition otherCombination (id : string) (c : ArbitrageCombination) : bool := negb (c_ID c =?s id).

Definition explainedRow (request : circuitOpenRecoveryCloseRequest D) (localA localB notional : D) (dbnow : GoTime) (r : CombinationRow)
    : Result CombinationRow :=
  let c := cb_item r in
  match numericText (D := D) (dString localA), numericText (D := D) (dString localB), numericAny (D := D) (dString notional),
        numericAny (D := D) (dString (parseDecimal (c_CumulativeTurnoverNotional c) + dAbs (parseDecimal (rq_TurnoverDelta request)))),
        numericText (D := D) (dString (rq_VenueA request)), numericText (D := D) (dString (rq_VenueB request)) with
  | Some a, Some b, Some position, Some turnover, Some va, Some vb =>
      Ok (closedCircuit dbnow (r <| cb_item := c <| c_LegABasePosition := a |> <| c_LegBBasePosition := b |>
            <| c_PositionNotional := position |> <| c_CumulativeTurnoverNotional := turnover |>
            <| c_LegAVenueBasePosition := va |> <| c_LegBVenueBasePosition := vb |> |>))
  | _, _, _, _, _, _ => Err errOverflow
  end.

(** The fills are written when the request brings them. *)
Definition completedRow (request : circuitOpenRecoveryCloseRequest D) (dbnow : GoTime) (r : ExecutionRow) : Result ExecutionRow :=
  let x := ex_item r in
  match numericAny (D := D) (zeroString (rq_LegAFilled request)), numericAny (D := D) (zeroString (rq_LegBFilled request)),
        numericAny (D := D) (zeroString (rq_DeltaNotional request)) with
  | Some a, Some b, Some delta =>
      let x := if rq_Kind request =?s circuitCloseFilled
               then x <| x_LegAFilledQuantity := a |> <| x_LegBFilledQuantity := b |> <| x_DeltaNotional := delta |> else x in
      Ok (r <| ex_item := x <| x_Status := "completed"%string |> <| x_ErrorMessage := ""%string |> <| x_UpdatedAt := dbnow |> |>
            <| ex_closed_at := Some dbnow |>)
  | _, _, _ => Err errOverflow
  end.

(** The account is what the baseline, the orders and the adjustments say. *)
Definition accountExplained (combo : ArbitrageCombination) (venueA venueB sumA sumB : D) : bool :=
  dEqual venueA (parseDecimal (c_LegAVenueBaselineBasePosition combo) + sumA + parseDecimal (c_LegAReconciliationAdjustment combo)) &&
  dEqual venueB (parseDecimal (c_LegBVenueBaselineBasePosition combo) + sumB + parseDecimal (c_LegBReconciliationAdjustment combo)).

Definition recoveryCloses (request : circuitOpenRecoveryCloseRequest D) (combo : ArbitrageCombination) (sums : D * D) : bool :=
  let '(sumA, sumB) := sums in
  dEqual sumA (rq_OrderSumA request) && dEqual sumB (rq_OrderSumB request) &&
  accountExplained combo (rq_VenueA request) (rq_VenueB request) sumA sumB &&
  dIsPositive (parseDecimal (D := D) (rq_LegAFilled request)) && dIsPositive (parseDecimal (D := D) (rq_LegBFilled request)).

(** [now] is the clock of the process at the second check of the snapshot. *)
Definition completeRecoveryTransaction (request : circuitOpenRecoveryCloseRequest D) (now dbnow : GoTime) (st : Store D)
    : Result (ArbitrageCombination * bool) * Store D :=
  let id := rq_CombinationID request in
  match st_combinations st !! id with
  | None => (Err errNotFound, st)
  | Some row =>
      let combo := scanCombination (D := D) row in
      let refused := (Ok (combo, false), st) in
      if negb (c_Version combo =? rq_ExpectedVersion request)%Z || negb (c_Status combo =?s "running") || negb (c_CircuitOpen combo) ||
         negb (circuitOpenBaselineComplete combo) then refused
      else if negb (circuitRecoverySnapshotFresh (rq_RecoveryStartedAt request) (rq_ObservedAt request) now) then refused
      else if instrumentConflict st combo (otherCombination id) then refused
      else match st_executions st !! rq_ExecutionID request with
      | None => refused
      | Some exRow =>
          let x := scanExecution exRow in
          if negb (x_CombinationID x =?s id) || terminalArbitrageExecutionStatus (x_Status x) then refused
          else match settledSums (fun o => EqualFold (o_ArbitrageLeg o) "b") (map scanOrder (combinationOrders st id)) with
          | None => refused
          | Some (sumA, sumB) =>
              if negb (recoveryCloses request combo (sumA, sumB)) then refused
              else
                let localA := sumA + parseDecimal (c_LegAReconciliationAdjustment combo) in
                let localB := sumB + parseDecimal (c_LegBReconciliationAdjustment combo) in
                let notional := reconciledNotional combo localA localB (rq_MarkA request) (rq_MarkB request) in
                if negb (c_RuntimeState combo =?s "manual_intervention") then refused
                else match explainedRow request localA localB notional dbnow row, completedRow request dbnow exRow with
                | Ok row', Ok exRow' =>
                    let eventType := if TrimSpace (rq_EventType request) =?s "" then "execution_completed"%string else TrimSpace (rq_EventType request) in
                    (Ok (scanCombination (D := D) row', true),
                     st <| st_combinations := <[id := row']> (st_combinations st) |>
                        <| st_executions := <[rq_ExecutionID request := exRow']> (st_executions st) |>
                        <| st_arbitrageEvents := st_arbitrageEvents st ++ [(id, x_ID x, eventType)] |>)
                | Err e, _ | _, Err e => (Err e, st)
                end
          end
      end
  end.

Definition CompleteCircuitOpenRecovery (request : circuitOpenRecoveryCloseRequest D) : M D (Result (ArbitrageCombination * bool)) :=
  let refused := ret (Ok (zero_ArbitrageCombination, false)) in
  if (TrimSpace (rq_CombinationID request) =?s "") || (TrimSpace (rq_ExecutionID request) =?s "") then ret (Err errInvalidArgument)
  else if negb (rq_Kind request =?s circuitCloseExplained) && negb (rq_Kind request =?s circuitCloseFilled) then refused
  else if negb (dIsPositive (rq_MarkA request)) || negb (dIsPositive (rq_MarkB request)) then refused
  else
    do now <- timeNow;
    if negb (circuitRecoverySnapshotFresh (rq_RecoveryStartedAt request) (rq_ObservedAt request) now) then refused
    else
      do now <- timeNow;
      sql (completeRecoveryTransaction request now).

(** *** An external change of the position *)

(** [commitCircuitOpenVenueSnapshot]: the account is written down, the circuit
    stays open. *)
Definition snapshotRow (combo : ArbitrageCombination) (venueA venueB : D) (dbnow : GoTime) (r : CombinationRow) : Result CombinationRow :=
  let '(expectedA, expectedB) := arbitrageExpectedVenuePositions combo (parseDecimal (c_LegABasePosition combo)) (parseDecimal (c_LegBBasePosition combo)) in
  match numericText (D := D) (dString venueA), numericText (D := D) (dString venueB),
        numericText (D := D) (dString (venueA - expectedA)), numericText (D := D) (dString (venueB - expectedB)) with
  | Some va, Some vb, Some da, Some db =>
      Ok (r <| cb_item := (cb_item r) <| c_LegAVenueBasePosition := va |> <| c_LegBVenueBasePosition := vb |>
                 <| c_LegAPositionDifference := da |> <| c_LegBPositionDifference := db |> |>
            <| cb_last_position_reconciled_at := Some dbnow |>)
  | _, _, _, _ => Err errOverflow
  end.

Definition adoptedRow (request : circuitOpenExternalReconcileRequest D) (adjustmentA adjustmentB localA localB notional : D)
    (dbnow : GoTime) (r : CombinationRow) : Result CombinationRow :=
  match numericText (D := D) (dString adjustmentA), numericText (D := D) (dString adjustmentB),
        numericText (D := D) (dString localA), numericText (D := D) (dString localB), numericAny (D := D) (dString notional),
        numericText (D := D) (dString (xq_VenueA request)), numericText (D := D) (dString (xq_VenueB request)) with
  | Some ja, Some jb, Some a, Some b, Some position, Some va, Some vb =>
      Ok (closedCircuit dbnow (r <| cb_item := (cb_item r) <| c_LegAReconciliationAdjustment := ja |> <| c_LegBReconciliationAdjustment := jb |>
            <| c_LegABasePosition := a |> <| c_LegBBasePosition := b |> <| c_PositionNotional := position |>
            <| c_LegAVenueBasePosition := va |> <| c_LegBVenueBasePosition := vb |> |>))
  | _, _, _, _, _, _, _ => Err errOverflow
  end.

Definition canceledRow (dbnow : GoTime) (r : ExecutionRow) : ExecutionRow :=
  r <| ex_item := (ex_item r) <| x_Status := "canceled"%string |> <| x_ErrorMessage := "externally_reconciled"%string |> <| x_UpdatedAt := dbnow |> |>
    <| ex_closed_at := Some dbnow |>.

Definition externalReconcileTransaction (request : circuitOpenExternalReconcileRequest D) (dbnow : GoTime) (st : Store D)
    : Result (ArbitrageCombination * bool) * Store D :=
  let id := xq_CombinationID request in
  match st_combinations st !! id with
  | None => (Err errNotFound, st)
  | Some row =>
      let combo := scanCombination (D := D) row in
      let refused := (Ok (combo, false), st) in
      if negb (c_Version combo =? xq_ExpectedVersion request)%Z || negb (c_Status combo =?s "running") || negb (c_CircuitOpen combo) ||
         negb (circuitOpenBaselineComplete combo) then refused
      else if instrumentConflict st combo (otherCombination id) then refused
      else match st_executions st !! xq_ExecutionID request with
      | None => refused
      | Some exRow =>
          let x := scanExecution exRow in
          if negb (x_CombinationID x =?s id) || terminalArbitrageExecutionStatus (x_Status x) then refused
          else match settledSums (fun o => o_ArbitrageLeg o =?s "b") (map scanOrder (combinationOrders st id)) with
          | None => refused
          | Some (sumA, sumB) =>
              let adjustmentA := xq_VenueA request - parseDecimal (c_LegAVenueBaselineBasePosition combo) - sumA in
              let adjustmentB := xq_VenueB request - parseDecimal (c_LegBVenueBaselineBasePosition combo) - sumB in
              let localA := sumA + adjustmentA in
              let localB := sumB + adjustmentB in
              if negb (circuitOpenLegsNotSameDirection localA localB) ||
                 negb (circuitOpenCarryDust (localA + localB) (xq_InstrumentA request) (xq_InstrumentB request) (xq_MarkA request) (xq_MarkB request))
              then match snapshotRow combo (xq_VenueA request) (xq_VenueB request) dbnow row with
                   | Ok row' => (Ok (scanCombination (D := D) row', false), st <| st_combinations := <[id := row']> (st_combinations st) |>)
                   | Err e => (Err e, st)
                   end
              else
                let notional := reconciledNotional combo localA localB (xq_MarkA request) (xq_MarkB request) in
                match adoptedRow request adjustmentA adjustmentB localA localB notional dbnow row with
                | Ok row' =>
                    (Ok (scanCombination (D := D) row', true),
                     st <| st_combinations := <[id := row']> (st_combinations st) |>
                        <| st_executions := <[xq_ExecutionID request := canceledRow dbnow exRow]> (st_executions st) |>
                        <| st_arbitrageEvents := st_arbitrageEvents st ++ [(id, x_ID x, "externally_reconciled"%string)] |>)
                | Err e => (Err e, st)
                end
          end
      end
  end.

Definition ApplyCircuitOpenExternalReconcile (request : circuitOpenExternalReconcileRequest D) : M D (Result (ArbitrageCombination * bool)) :=
  if (TrimSpace (xq_CombinationID request) =?s "") || (TrimSpace (xq_ExecutionID request) =?s "") then ret (Err errInvalidArgument)
  else if negb (dIsPositive (xq_MarkA request)) || negb (dIsPositive (xq_MarkB request)) then ret (Ok (zero_ArbitrageCombination, false))
  else sql (externalReconcileTransaction request).
End CircuitStore.

(** ** What a closed circuit means *)

Section CircuitFacts.
Context {D : Type} `{!Decimal D} `{!DecimalLaws D} `{!Postgres D} `{!PostgresLaws D} `{!Env D}.
Local Open Scope Q_scope.
#[local] Opaque qround.

(** The orders of the combination are settled, and its books agree with the
    account over the baseline. *)
Definition ordersSettled (st : Store D) (id : string) : Prop :=
  Forall (fun r => terminalStatus (o_Status (scanOrder r)) = true /\ (o_ReconcileFailures (scanOrder r) <= 0)%Z) (combinationOrders st id).
Definition booksAre (c : ArbitrageCombination) (venueA venueB : D) (c' : ArbitrageCombination) : Prop :=
  numericColumn (D := D) (c_LegABasePosition c')
    (qround 18 (dval venueA - dval (parseDecimal (D := D) (c_LegAVenueBaselineBasePosition c)))) /\
  numericColumn (D := D) (c_LegBBasePosition c')
    (qround 18 (dval venueB - dval (parseDecimal (D := D) (c_LegBVenueBaselineBasePosition c)))).

Lemma settledSums_settled isB (st : Store D) id sums :
  settledSums isB (map scanOrder (combinationOrders st id)) = Some sums -> ordersSettled st id.
Proof.
  unfold settledSums. destruct (existsb _ _) eqn:E; [done|]. intros _. apply List.Forall_forall. intros r Hr.
  destruct (terminalStatus (o_Status (scanOrder r))) eqn:Et; [split; [done|]|].
  - destruct (Z.ltb_spec 0 (o_ReconcileFailures (scanOrder r))) as [H|H]; [|lia]. exfalso.
    apply not_true_iff_false in E. apply E, existsb_exists. exists (scanOrder r). split; [by apply in_map|].
    apply orb_true_iff. right. by apply Z.ltb_lt.
  - exfalso. apply not_true_iff_false in E. apply E, existsb_exists. exists (scanOrder r). split; [by apply in_map|]. by rewrite Et.
Qed.

Lemma column_eq (s : string) (p q : Q) : p == q -> numericColumn (D := D) s (qround 18 p) -> numericColumn (D := D) s (qround 18 q).
Proof.
  intros E (Ht & _ & d & Hd & Ed). split; [done|]. split; [apply is18_round|]. exists d. split; [done|].
  rewrite Ed. by apply qround_proper.
Qed.

Lemma explained_books request (localA localB notional : D) t r r' :
  explainedRow request localA localB notional t r = Ok r' ->
  numericColumn (D := D) (c_LegABasePosition (cb_item r')) (qround 18 (dval localA)) /\
  numericColumn (D := D) (c_LegBBasePosition (cb_item r')) (qround 18 (dval localB)) /\
  c_CircuitOpen (cb_item r') = false /\ c_PositionUncertain (cb_item r') = false.
Proof.
  unfold explainedRow. cbv zeta. repeat (case_match; try done). intros [= <-].
  split; [by apply numericText_dString|]. split; [by apply numericText_dString|done].
Qed.
Lemma adopted_books request (ja jb localA localB notional : D) t r r' :
  adoptedRow request ja jb localA localB notional t r = Ok r' ->
  numericColumn (D := D) (c_LegABasePosition (cb_item r')) (qround 18 (dval localA)) /\
  numericColumn (D := D) (c_LegBBasePosition (cb_item r')) (qround 18 (dval localB)) /\
  c_CircuitOpen (cb_item r') = false /\ c_PositionUncertain (cb_item r') = false.
Proof.
  unfold adoptedRow. repeat (case_match; try done). intros [= <-].
  split; [by apply numericText_dString|]. split; [by apply numericText_dString|done].
Qed.

Lemma completed_inactive request t r r' : completedRow (D := D) request t r = Ok r' -> rewritten r r' /\ activeExecution r' = false.
Proof.
  unfold completedRow. cbv zeta. do 3 (destruct (numericAny _); [|done]). intros [= <-]. unfold rewritten, activeExecution.
  by destruct (rq_Kind request =?s circuitCloseFilled).
Qed.

(** What a transaction that closed the circuit found and left. *)
Definition circuitClosed (id executionID : string) (venueA venueB : D) (st st' : Store D) : Prop :=
  exists row row' x', st_combinations st !! id = Some row /\ st_combinations st' !! id = Some row' /\
    c_CircuitOpen (cb_item row) = true /\ c_CircuitOpen (cb_item row') = false /\ c_PositionUncertain (cb_item row') = false /\
    ordersSettled st id /\ booksAre (cb_item row) venueA venueB (cb_item row') /\
    st_executions st' !! executionID = Some x' /\ activeExecution x' = false.

Lemma complete_closed request now t (st st' : Store D) c :
  completeRecoveryTransaction request now t st = (Ok (c, true), st') ->
  circuitClosed (rq_CombinationID request) (rq_ExecutionID request) (rq_VenueA request) (rq_VenueB request) st st'.
Proof.
  unfold completeRecoveryTransaction. cbv zeta. intros H. destruct (st_combinations st !! _) as [row|] eqn:Hr; [|done].
  destruct (_ || negb (circuitOpenBaselineComplete _)) eqn:Hg; [done|]. destruct (negb (circuitRecoverySnapshotFresh _ _ _)); [done|].
  destruct (instrumentConflict _ _ _); [done|]. destruct (st_executions st !! _) as [ex|] eqn:Hx; [|done].
  destruct (_ || terminalArbitrageExecutionStatus _); [done|].
  destruct (settledSums _ _) as [[sumA sumB]|] eqn:Hs; [|done].
  destruct (recoveryCloses request _ _) eqn:Hc; [|done]. cbn [negb] in H. destruct (negb (c_RuntimeState _ =?s _)); [done|].
  destruct (explainedRow _ _ _ _ _ _) as [row'|] eqn:He; [|done]. destruct (completedRow _ _ _) as [ex'|] eqn:Hd; [|done].
  injection H as _ <-. exists row, row', ex'. cbn. rewrite !lookup_insert_eq. repeat (split; [done|]).
  apply explained_books in He as (Ha & Hb & Ho & Hu).
  rewrite !orb_false_iff, !negb_false_iff in Hg. destruct Hg as [[_ Hopen] _].
  do 3 (split; [done|]). split; [by eapply settledSums_settled|].
  split; [|split; [done|by eapply completed_inactive]].
  unfold recoveryCloses, accountExplained in Hc. rewrite !andb_true_iff in Hc. destruct Hc as [[[_ [Va Vb]] _] _].
  rewrite dEqual_val, !dAdd_val in Va. rewrite dEqual_val, !dAdd_val in Vb.   split; [eapply column_eq; [|exact Ha]|eapply column_eq; [|exact Hb]]; rewrite dAdd_val; cbn in *; lra.
Qed.

Lemma external_closed request t (st st' : Store D) c :
  externalReconcileTransaction request t st = (Ok (c, true), st') ->
  circuitClosed (xq_CombinationID request) (xq_ExecutionID request) (xq_VenueA request) (xq_VenueB request) st st'.
Proof.
  unfold externalReconcileTransaction. cbv zeta. intros H. destruct (st_combinations st !! _) as [row|] eqn:Hr; [|done].
  destruct (_ || negb (circuitOpenBaselineComplete _)) eqn:Hg; [done|].
  destruct (instrumentConflict _ _ _); [done|]. destruct (st_executions st !! _) as [ex|] eqn:Hx; [|done].
  destruct (_ || terminalArbitrageExecutionStatus _); [done|]. destruct (settledSums _ _) as [[sumA sumB]|] eqn:Hs; [|done].
  destruct (negb (circuitOpenLegsNotSameDirection _ _) || _) eqn:Hd; [by destruct (snapshotRow _ _ _ _ _)|].
  destruct (adoptedRow _ _ _ _ _ _ _ _) as [row'|] eqn:He; [|done]. injection H as _ <-.
  apply adopted_books in He as (Ha & Hb & Ho & Hu). rewrite !orb_false_iff, !negb_false_iff in Hg. destruct Hg as [[_ Hopen] _].
  exists row, row', (canceledRow t ex). cbn. rewrite !lookup_insert_eq. repeat (split; [done|]).
  split; [by eapply settledSums_settled|]. split; [|done].
  split; [eapply column_eq; [|exact Ha]|eapply column_eq; [|exact Hb]]; rewrite dAdd_val, !dSub_val; cbn; lra.
Qed.

(** C19: closing a circuit.  Whenever a recovery closes the circuit of a
    combination, by completing the execution that explains the account or by
    adopting an external change, every order of the combination was settled,
    the execution has ended, and the books now are the position observed at
    the venue over the baseline of the combination (to 18 decimals). *)
Theorem closed_circuit_follows_account (request : circuitOpenRecoveryCloseRequest D) (external : circuitOpenExternalReconcileRequest D)
    (now t : GoTime) (st st' : Store D) (c : ArbitrageCombination) :
  (completeRecoveryTransaction request now t st = (Ok (c, true), st') ->
   circuitClosed (rq_CombinationID request) (rq_ExecutionID request) (rq_VenueA request) (rq_VenueB request) st st') /\
  (externalReconcileTransaction external t st = (Ok (c, true), st') ->
   circuitClosed (xq_CombinationID external) (xq_ExecutionID external) (xq_VenueA external) (xq_VenueB external) st st').
Proof. split; intros H; [by eapply complete_closed|by eapply external_closed]. Qed.
End CircuitFacts.

(** ** The tables *)

Section CircuitTables.
Context {D : Type} `{!Decimal D} `{!DecimalLaws D} `{!Postgres D} `{!Env D}.

Inductive circuitStep : Store D -> Store D -> Prop :=
| circuit_claim in_ t st r st' : claimRecoveryTransaction in_ t st = (r, st') -> circuitStep st st'
| circuit_complete request now t st r st' : completeRecoveryTransaction request now t st = (r, st') -> circuitStep st st'
| circuit_external request t st r st' : externalReconcileTransaction request t st = (r, st') -> circuitStep st st'.

(** The tables a step leaves as they are, and how it changes the others. *)
Definition tablesMove (st st' : Store D) : Prop :=
  st_orders st' = st_orders st /\ st_tracker st' = st_tracker st /\
  executionChange (st_executions st) (st_executions st') /\ phasesMove st st'.

Lemma tablesMove_refl (st : Store D) : tablesMove st st.
Proof. split; [done|]. split; [done|]. split; [by left|by apply phasesMove_same]. Qed.

Ltac unmoved := first [by apply tablesMove_refl | match goal with H : (_, ?s) = (_, ?s') |- tablesMove ?s ?s' => injection H as _ <-; apply tablesMove_refl end].

Lemma explained_phase request (a b n : D) t r r' : explainedRow request a b n t r = Ok r' -> phaseOf r' = phaseOf r.
Proof. unfold explainedRow. cbv zeta. repeat (case_match; try done). by intros [= <-]. Qed.
Lemma adopted_phase request (ja jb a b n : D) t r r' : adoptedRow request ja jb a b n t r = Ok r' -> phaseOf r' = phaseOf r.
Proof. unfold adoptedRow. repeat (case_match; try done). by intros [= <-]. Qed.
Lemma snapshot_phase c (va vb : D) t r r' : snapshotRow c va vb t r = Ok r' -> phaseOf r' = phaseOf r.
Proof. unfold snapshotRow. repeat (case_match; try done). by intros [= <-]. Qed.

Lemma circuitStep_moves (st st' : Store D) : circuitStep st st' -> tablesMove st st'.
Proof.
  intros [in_ t s r s' H|request now t s r s' H|request t s r s' H].
  - unfold claimRecoveryTransaction in H. cbv zeta in H. destruct (st_combinations s !! _) as [row|] eqn:Hr; [|unmoved].
    destruct (recoveryRefused _ _); [unmoved|]. destruct (hasActiveExecution _ _) eqn:Ha; [unmoved|]. destruct (hasLiveOrder _ _); [unmoved|].
    destruct (st_executions s !! _); [|unmoved]. destruct (negb (x_CombinationID _ =?s _)); [unmoved|].
    destruct (_ || x_LastCloseClip _); [unmoved|].
    destruct (quoteRecoveryOrder _ _); [|unmoved]. destruct (negb (recoveryFits _ _)); [unmoved|].
    destruct (newExecutionRow _ _ _) as [inserted|] eqn:En; [|unmoved]. destruct (executionConflict _ _) eqn:Ex; [unmoved|].
    destruct (negb (c_CircuitOpen _ && _)); [unmoved|]. injection H as _ <-. split; [done|]. split; [done|]. split; [exact (insert_change _ _ _ _ _ En Ex)|].
    eapply phasesMove_row; [exact Hr|reflexivity|done].
  - unfold completeRecoveryTransaction in H. cbv zeta in H. destruct (st_combinations s !! _) as [row|] eqn:Hr; [|unmoved].
    destruct (_ || negb (circuitOpenBaselineComplete _)); [unmoved|]. destruct (negb (circuitRecoverySnapshotFresh _ _ _)); [unmoved|].
    destruct (instrumentConflict _ _ _); [unmoved|]. destruct (st_executions s !! _) as [ex|] eqn:Hx; [|unmoved].
    destruct (_ || terminalArbitrageExecutionStatus _); [unmoved|]. destruct (settledSums _ _) as [[a b]|]; [|unmoved].
    destruct (negb (recoveryCloses _ _ _)); [unmoved|]. destruct (negb (c_RuntimeState _ =?s _)); [unmoved|].
    destruct (explainedRow _ _ _ _ _ _) as [row'|] eqn:He; [|unmoved]. destruct (completedRow _ _ _) as [ex'|] eqn:Hd; [|unmoved].
    injection H as _ <-. split; [done|]. split; [done|]. apply explained_phase in He. apply completed_inactive in Hd as [Hd _].
    split; [right; left; by exists (rq_ExecutionID request), ex, ex'|]. eapply phasesMove_row; [exact Hr|reflexivity|done].
  - unfold externalReconcileTransaction in H. cbv zeta in H. destruct (st_combinations s !! _) as [row|] eqn:Hr; [|unmoved].
    destruct (_ || negb (circuitOpenBaselineComplete _)); [unmoved|]. destruct (instrumentConflict _ _ _); [unmoved|].
    destruct (st_executions s !! _) as [ex|] eqn:Hx; [|unmoved]. destruct (_ || terminalArbitrageExecutionStatus _); [unmoved|].
    destruct (settledSums _ _) as [[a b]|]; [|unmoved].
    destruct (negb (circuitOpenLegsNotSameDirection _ _) || _).
    + destruct (snapshotRow _ _ _ _ _) as [row'|] eqn:He; [|unmoved]. injection H as _ <-. apply snapshot_phase in He.
      split; [done|]. split; [done|]. split; [by left|]. eapply phasesMove_row; [exact Hr|reflexivity|done].
    + destruct (adoptedRow _ _ _ _ _ _ _ _) as [row'|] eqn:He; [|unmoved]. injection H as _ <-. apply adopted_phase in He.
      split; [done|]. split; [done|]. split; [right; left; exists (xq_ExecutionID request), ex; eexists; split; [done|]; split; [|reflexivity]; by split|].
      eapply phasesMove_row; [exact Hr|reflexivity|done].
Qed.
End CircuitTables.

(** ** A concrete circuit *)

Definition brokenItem : ArbitrageCombination :=
  quietItem <| c_CircuitOpen := true |> <| c_RuntimeState := "manual_intervention"%string |>.
Definition brokenStore : Store Dec :=
  claimedStore <| st_combinations := {["c1"%string := (rowOf brokenItem) <| cb_venue_baseline_captured_at := Some Second |>]} |>.
Definition movedAccount : circuitOpenExternalReconcileRequest Dec :=
  mkExternalReconcile "c1" (x_ID openingClaim) (c_Version brokenItem) (dNewFromInt 3) (dNewFromInt (-3)) (dNewFromInt 100) (dNewFromInt 100)
    ruledPerp ruledPerp.

Lemma closed_circuit_follows_account_witness :
  circuitClosed "c1" (x_ID openingClaim) (dNewFromInt (D := Dec) 3) (dNewFromInt (-3)) brokenStore
    (snd (externalReconcileTransaction movedAccount 0 brokenStore)).
Proof.
  assert (match fst (externalReconcileTransaction movedAccount 0 brokenStore) with Ok (_, b) => b | Err _ => false end = true) as H by (vm_compute; reflexivity).
  destruct (externalReconcileTransaction movedAccount 0 brokenStore) as [[[c b]|e] st'] eqn:E; cbn [fst] in H; [subst b|done].
  exact (proj2 (closed_circuit_follows_account (D := Dec)
    (mkRecoveryClose "" "" 0 "" "" dZero dZero dZero dZero 0 0 dZero dZero "" "" "" "") movedAccount 0 0 brokenStore st' c) E).
Defined.
