(* ===== verification/Reconciler.v ===== *)
(** * The reconciler (reconciler.go)

    The loop that finds out what became of the orders a venue has not answered
    for: it leases the orders that are due, asks the venue, writes the answer,
    confirms an absence, recomputes the positions of the combination whose
    order was filled, and keeps one private stream per order under way. *)
From Stdlib Require Import ZArith QArith Lqa String.
From stdpp Require Import base strings list gmap.
From S2P Require Import Prelude Decimal DecimalRef Types Quantity Validate ArbMath ArbHedge Resolution FillAverage OrderStream StreamManager Store OrderStore OrderService ArbStore ArbLedger.

#[local] Set Warnings "-clear-no-such-hyp".

(** ** The private stream of orders *)

(** What the stream manager answers: whether the stream of a key is healthy,
    and the errors of subscribing to it and of watching an order. *)
Class OrderStreams := {
  streamHealthy : nat -> StreamKey -> bool;
  streamSubscribe : nat -> StreamKey -> Credentials -> option GoError;
  streamWatchOrder : nat -> StreamKey -> string -> option GoError
}.

Definition toOrderStreamCredentials (account : Credentials) : StreamCredentials :=
  mkStreamCredentials (cr_APIKey account) (cr_APISecret account) (cr_Passphrase account) (cr_CredentialKind account)
    (cr_SigningAddress account) (cr_VaultAddress account) (cr_AccountIndex account) (cr_APIKeyIndex account) "".

(** The answers of the stream manager in the states [managers] it goes
    through: the theorems below hold for it. *)
Definition managedStreams (managers : nat -> Manager) : OrderStreams := {|
  streamHealthy n key := Healthy key (managers n);
  streamSubscribe n key account :=
    match Subscribe key (toOrderStreamCredentials account) (managers n) with
    | Some (inl _, _) => None
    | _ => Some (mkError [ErrOther] "order stream subscription failed")
    end;
  streamWatchOrder n key clientOrderID :=
    match fst (WatchOrder key clientOrderID (managers n)) with
    | inl _ => None
    | inr _ => Some (mkError [ErrOther] "order stream watch failed")
    end
|}.

Definition fillUnknownError : GoError :=
  mkError [errHyperliquidFillUnknown] "hyperliquid terminal snapshot missing cumulative filled".

(** [StatusNew] is stored as open. *)
Definition streamStatus (status : string) : string := if status =?s "new" then "open" else status.

Definition hyperliquidTerminalFillUnknown (exchangeName : string) (type : UpdateType) (status cumulative : string) : bool :=
  if negb (EqualFold exchangeName "hyperliquid") || negb (bool_decide (type = UpdateOrder)) then false
  else terminalStatus (streamStatus status) && (TrimSpace cumulative =?s "").

Definition streamFillSkipsVenueWatermark (exchangeName : string) (type : UpdateType) (cumulative : string) : bool :=
  if negb (bool_decide (type = UpdateTrade)) then false
  else if EqualFold exchangeName "hyperliquid" then true
  else EqualFold exchangeName "bitget" && (TrimSpace cumulative =?s "").

(** ** State *)

(** [watches]: the orders with a private stream; [consumers]: the goroutines
    that read those streams. *)
Record Reconciler := mkReconciler {
  rc_watches : gset string;
  rc_consumers : list (Instrument * Order)
}.
#[export] Instance eta_Reconciler : Eta Reconciler := fun r => mkReconciler (rc_watches r) (rc_consumers r).

Definition newReconciler : Reconciler := mkReconciler ∅ [].

(** [time.Second << min(n, 6)], at most a minute; the counters are never
    negative. *)
Definition reconcileDelay (n : Z) : Duration :=
  let delay := wrap64 (Z.shiftl Second (Z.min n 6)) in
  if Minute <? delay then Minute else delay.

Section Reconcile.
Context {D : Type} `{!Decimal D} `{!Postgres D} `{!Env D} `{svc : !Services} `{str : !OrderStreams}.
Local Open Scope dec_scope.

Definition streamKey (order : Order) : StreamKey :=
  mkStreamKey (itoa (D := D) (o_TradingAccountID order)) (o_Exchange order) (o_ContractType order).

Definition fail (order : Order) : M D unit :=
  do now <- timeNow;
  run MarkReconcileFailure (o_ID order) (TimeAdd now (reconcileDelay (wrap64 (o_ReconcileFailures order + 1)%Z)));
  run AppendEvent (o_ID order) "reconcile_failed";
  ret tt.

(** [_, _ = store.FinalizeConfirmedAbsentZeroFillExecution]: the transaction
    of Resolution.v on the tables of the store. *)
Definition finalizeTransaction (executionID : string) (dbnow : GoTime) (st : Store D)
    : Result confirmedAbsentFinalizeResult * Store D :=
  let skip := (Ok confirmedAbsentFinalizeSkipped, st) in
  if executionID =?s "" then skip
  else match st_executions st !! executionID with
  | None => skip
  | Some row =>
      let id := x_CombinationID (ex_item row) in
      match st_combinations st !! id with
      | None => skip
      | Some combo =>
          let orders := map scanOrder (combinationOrders st id) in
          let executions := map scanExecution (executionRows st id) in
          match evaluateConfirmedAbsentZeroFillFinalize (D := D) (scanCombination (D := D) combo) (scanExecution row) orders executions with
          | confirmedAbsentFinalizeSkipped => skip
          | outcome =>
              let canceledNow := activeExecution row in
              let row' := if canceledNow
                          then row <| ex_item := (ex_item row) <| x_Status := "canceled"%string |> <| x_ErrorMessage := ""%string |>
                                                 <| x_UpdatedAt := dbnow |> |>
                                   <| ex_closed_at := Some (default dbnow (ex_closed_at row)) |>
                          else row in
              let c := cb_item combo in
              let guarded := (c_Status c =?s "running") && negb (c_CircuitOpen c) in
              let combo' := if guarded
                            then touch dbnow (combo <| cb_item := c <| c_PositionUncertain := true |>
                                   <| c_RuntimeState := "position_uncertain"%string |>
                                   <| c_ErrorMessage := arbitrageOrderReconcileError |> |>)
                            else combo in
              if negb guarded && negb canceledNow then skip
              else (Ok outcome,
                    st <| st_executions := <[executionID := row']> (st_executions st) |>
                       <| st_combinations := <[id := combo']> (st_combinations st) |>
                       <| st_arbitrageEvents := st_arbitrageEvents st ++ [(id, executionID, confirmedAbsentCanceledEvent)] |>)
          end
      end
  end.

(** ** Watching a stream *)

Definition releaseWatch (orderID : string) (r : Reconciler) : Reconciler :=
  r <| rc_watches := rc_watches r ∖ {[orderID]} |>.

Definition ensureOrderStreamWatch (account : Credentials) (instrument : Instrument) (order : Order) (r : Reconciler)
    : M D Reconciler :=
  if negb orderStreamsConfigured || terminalStatus (o_Status order) then ret r
  else
    do n <- tick;
    match adapterCapabilities n (cr_Exchange account) account with
    | None | Some (Err _) => ret r
    | Some (Ok capabilities) =>
        if negb (cap_PrivateOrderStream capabilities) then ret r
        else if bool_decide (o_ID order ∈ rc_watches r) then ret r
        else
          let r := r <| rc_watches := {[o_ID order]} ∪ rc_watches r |> in
          do m <- tick;
          match streamSubscribe m (streamKey order) account with
          | Some _ => ret (releaseWatch (o_ID order) r)
          | None =>
              do k <- tick;
              match streamWatchOrder k (streamKey order) (adapterClientID (cr_Exchange account) (o_ClientOrderID order)) with
              | Some _ => ret (releaseWatch (o_ID order) r)
              | None => ret (r <| rc_consumers := rc_consumers r ++ [(instrument, order)] |>)
              end
          end
    end.

(** A quantity of the venue in base units; an empty one stays empty. *)
Definition streamQuantity (instrument : Instrument) (quantity : string) : Result string :=
  if quantity =?s "" then Ok quantity else FromVenueQuantity (D := D) (toVenueInstrument instrument) quantity.

(** The update that is stored, or the error that keeps it from being. *)
Definition streamUpdateOf (instrument : Instrument) (order : Order) (update : Update) (receivedAt : GoTime)
    : Result StreamUpdate :=
  let status := streamStatus (ou_Status update) in
  match streamQuantity instrument (ou_CumulativeFilled update) with
  | Err e => Err e
  | Ok cumulative =>
  match streamQuantity instrument (ou_LastFilled update) with
  | Err e => Err e
  | Ok last =>
      if hyperliquidTerminalFillUnknown (o_Exchange order) (ou_Type update) (ou_Status update) cumulative
      then Err fillUnknownError
      else
        let quantity := dAbs (parseDecimal (D := D) last) in
        let price := if ou_LastPrice update =?s "" then ou_AveragePrice update else ou_LastPrice update in
        Ok (mkStreamUpdate
          (zero_VenueResult <| r_VenueOrderID := ou_VenueOrderID update |> <| r_Status := status |>
             <| r_FilledQuantity := cumulative |> <| r_AveragePrice := ou_AveragePrice update |>
             <| r_ErrorCode := ou_ErrorCode update |> <| r_ErrorMessage := ou_ErrorMessage update |>
             <| r_Reference := zero_VenueReference <| vr_ClientOrderID := ou_ClientOrderID update |>
                  <| vr_VenueOrderID := ou_VenueOrderID update |> <| vr_EventAt := ou_EventTime update |>
                  <| vr_ReconcileStatus := status |> |>)
          (ou_EventTime update) receivedAt
          (if negb (ou_TradeID update =?s "") && dIsPositive quantity
           then [zero_OrderFill <| of_TradeID := ou_TradeID update |> <| of_Quantity := dString quantity |>
                   <| of_Price := price |> <| of_ExecutedAt := ou_EventTime update |> <| of_FeeAmount := ou_FeeAmount update |>
                   <| of_FeeCurrency := ou_FeeCurrency update |> <| of_LiquidityRole := ou_LiquidityRole update |>]
           else [])
          (streamFillSkipsVenueWatermark (o_Exchange order) (ou_Type update) cumulative))
  end end.

Definition applyPrivateStreamUpdate (instrument : Instrument) (order : Order) (update : Update) : M D (Result Order) :=
  do receivedAt <- timeNow;
  match streamUpdateOf instrument order update receivedAt with
  | Err e => ret (Err e)
  | Ok streamUpdate => ApplyStreamUpdate (o_ID order) streamUpdate
  end.

(** The loop of the goroutine over the updates that arrive until the channel
    is closed; a terminal status ends it earlier. *)
Fixpoint consumeUpdates (instrument : Instrument) (order : Order) (updates : list Update) : M D unit :=
  match updates with
  | [] => ret tt
  | update :: rest =>
      if bool_decide (ou_Type update = UpdateConnection) then consumeUpdates instrument order rest
      else
        do answer <- applyPrivateStreamUpdate instrument order update;
        match answer with
        | Err _ => consumeUpdates instrument order rest
        | Ok updated =>
            run AppendEvent (o_ID order) "venue_stream";
            if terminalStatus (o_Status updated) then ret tt else consumeUpdates instrument order rest
        end
  end.

(** The consumer at position [k] runs to its end. *)
Definition consumeOrderStream (k : nat) (updates : list Update) (r : Reconciler) : M D Reconciler :=
  match rc_consumers r !! k with
  | None => ret r
  | Some (instrument, order) =>
      run consumeUpdates instrument order updates;
      ret (releaseWatch (o_ID order) (r <| rc_consumers := delete k (rc_consumers r) |>))
  end.

(** ** Reconciling *)

Definition recomputeFor (order : Order) : M D (option GoError) :=
  do r <- RecomputeArbitrageBasePositionsForExecution (o_ArbitrageExecutionID order);
  ret (match r with Err e => Some e | Ok _ => None end).

Definition ofArbitrage (order : Order) : bool := negb (o_ArbitrageExecutionID order =?s "").

(** The venue could not be asked: what it did answer is kept as uncertain. *)
Definition reconcileUnresolved (order : Order) (result : VenueResult) : M D unit :=
  run (if hasVenueResult result
       then
         let result := normalizeVenueResult (D := D) order (result <| r_Status := "unknown"%string |>) in
         do r <- UpdateResultWithFillDelta (o_ID order) (storedResult result false);
         match r with
         | Ok (updated, true) => if ofArbitrage updated then run recomputeFor updated; ret tt else ret tt
         | _ => ret tt
         end
       else ret tt);
  fail order.

(** The absence reached its last confirmation. *)
Definition reconcileConverted (order updated : Order) : M D unit :=
  run AppendEvent (o_ID order) "reconcile";
  if negb (ofArbitrage updated) then ret tt
  else
    do e <- (if negb (dEqual (parseDecimal (D := D) (o_FilledQuantity order)) (parseDecimal (o_FilledQuantity updated)))
             then recomputeFor updated else ret None);
    match e with
    | Some _ => fail order
    | None => run sql (finalizeTransaction (o_ArbitrageExecutionID updated)); ret tt
    end.

(** The venue has confirmed that it does not know the order. *)
Definition reconcileAbsent (order : Order) : M D unit :=
  if terminalStatus (o_Status order) then
    do r <- UpdateResultWithFillDelta (o_ID order)
      (zero_VenueResult <| r_VenueOrderID := o_VenueOrderID order |> <| r_Status := o_Status order |>
         <| r_FilledQuantity := o_FilledQuantity order |> <| r_AveragePrice := o_AveragePrice order |>
         <| r_ErrorCode := o_ErrorCode order |> <| r_ErrorMessage := o_ErrorMessage order |>);
    match r with Err _ => fail order | Ok _ => ret tt end
  else if negb (TrimSpace (o_VenueOrderID order) =?s "") then fail order
  else
    do now <- timeNow;
    do r <- ConfirmOrderAbsence (o_ID order) (o_UpdatedAt order)
              (TimeAdd now (reconcileDelay (wrap64 (o_AbsenceConfirmations order + 1)%Z)));
    match r with
    | Err _ => fail order
    | Ok (updated, true) => reconcileConverted order updated
    | Ok (updated, false) =>
        if (o_AbsenceConfirmations updated =? o_AbsenceConfirmations order)%Z
        then do now <- timeNow; run DeferReconcile (o_ID order) (TimeAdd now (2 * Second)%Z); ret tt
        else run AppendEvent (o_ID order) "reconcile_absent"; ret tt
    end.

(** The venue knows the order. *)
Definition reconcileFound (order : Order) (result : VenueResult) : M D unit :=
  let result := normalizeVenueResult (D := D) order result in
  do r <- UpdateResultWithFillDelta (o_ID order) (storedResult result false);
  match r with
  | Err _ => fail order
  | Ok (updated, changed) =>
      do e <- (if changed && ofArbitrage updated then recomputeFor updated else ret None);
      match e with
      | Some _ => fail order
      | None => run AppendEvent (o_ID order) "reconcile"; ret tt
      end
  end.

(** A healthy stream that has reported lately is trusted. *)
Definition streamIsFresh (streamAudit : Duration) (order : Order) : M D bool :=
  if negb (ofArbitrage order) || negb orderStreamsConfigured || IsZeroTime (o_LastStreamEventAt order) then ret false
  else
    do now <- timeNow;
    if negb (TimeSub now (o_LastStreamEventAt order) <? streamAudit)%Z then ret false
    else do n <- tick; ret (streamHealthy n (streamKey order)).

Definition reconcileOrder (streamAudit : Duration) (account : Credentials) (order : Order) (r : Reconciler)
    : M D Reconciler :=
  do fresh <- streamIsFresh streamAudit order;
  if fresh then
    do now <- timeNow;
    run DeferReconcile (o_ID order) (TimeAdd now streamAudit);
    ret r
  else
    do answer <- callCatalog (o_InstrumentID order);
    match answer with
    | Err _ => run fail order; ret r
    | Ok instrument =>
        do r <- ensureOrderStreamWatch account instrument order r;
        do answer <- callResolve (cr_Exchange account) account instrument order;
        run (match answer with
             | (resolution, Some _) => reconcileUnresolved order (or_Result resolution)
             | (resolution, None) =>
                 if or_ConfirmedAbsent resolution then reconcileAbsent order
                 else reconcileFound order (or_Result resolution)
             end);
        ret r
    end.

Fixpoint failAll (orders : list Order) : M D unit :=
  match orders with
  | [] => ret tt
  | order :: rest => run fail order; failAll rest
  end.

Fixpoint reconcileOrders (streamAudit : Duration) (account : Credentials) (orders : list Order) (r : Reconciler)
    : M D Reconciler :=
  match orders with
  | [] => ret r
  | order :: rest =>
      do r <- reconcileOrder streamAudit account order r;
      reconcileOrders streamAudit account rest r
  end.

(** The orders of one account, under the account's lock. *)
Definition reconcileAccount (streamAudit : Duration) (orders : list Order) (r : Reconciler) : M D Reconciler :=
  match orders with
  | [] => ret r
  | first :: _ =>
      do n <- tick;
      match credentialsInternal n (o_OwnerUsername first) (o_TradingAccountID first) with
      | Err _ => run failAll orders; ret r
      | Ok account =>
          if negb (adapterKnown (cr_Exchange account)) then run failAll orders; ret r
          else reconcileOrders streamAudit account orders r
      end
  end.

(** [groups[key] = append(groups[key], order)]. *)
Definition groupKey (order : Order) : string :=
  Join [o_OwnerUsername order; itoa (D := D) (o_TradingAccountID order)] ":".

Fixpoint addToGroup (order : Order) (groups : list (string * list Order)) : list (string * list Order) :=
  match groups with
  | [] => [(groupKey order, [order])]
  | (key, orders) :: rest =>
      if groupKey order =?s key then (key, orders ++ [order]) :: rest
      else (key, orders) :: addToGroup order rest
  end.

Definition groupOrders (orders : list Order) : list (string * list Order) := fold_left (fun g o => addToGroup o g) orders [].

Fixpoint reconcileGroups (streamAudit : Duration) (groups : list (string * list Order)) (r : Reconciler) : M D Reconciler :=
  match groups with
  | [] => ret r
  | (_, orders) :: rest =>
      do r <- reconcileAccount streamAudit orders r;
      reconcileGroups streamAudit rest r
  end.

(** One round.  The groups run concurrently: what the others write while a
    group runs is among the writes of other processes. *)
Definition runOnce (batchSize : Z) (timeout streamAudit : Duration) (r : Reconciler) : M D Reconciler :=
  do leased <- LeaseDueOrders batchSize (wrap64 (2 * timeout)%Z);
  match leased with
  | Err _ => ret r
  | Ok orders => reconcileGroups streamAudit (groupOrders orders) r
  end.
End Reconcile.

(** ** What a round does to the store *)

Section ReconcileSafe.
Context {D : Type} `{!Decimal D} `{!DecimalLaws D} `{!Postgres D} `{!PostgresLaws D} `{!Env D} `{svc : !Services} `{str : !OrderStreams}.

(** An invariant of the transactions the reconciler runs, and of the other
    processes. *)
Section Kept.
Variable I : Store D -> Prop.
Hypothesis I_rely : forall n st, I st -> I (interfere n st).
Hypothesis I_order : forall st st' : Store D, orderStep st st' -> I st -> I st'.
Hypothesis I_events : forall (st : Store D) l, I st -> I (st <| st_events := l |>).
Hypothesis I_recompute : forall e t (st st' : Store D) r, recomputeForExecution e t st = (r, st') -> I st -> I st'.
Hypothesis I_finalize : forall e t (st st' : Store D) r, finalizeTransaction e t st = (r, st') -> I st -> I st'.

Lemma keeps_AppendEvent o t : keeps I (AppendEvent o t).
Proof.
  apply keeps_sql; [done|]. intros ? st a st' H. destruct (st_orders st !! o); [|done]. injection H as _ <-. apply I_events.
Qed.
Lemma keeps_markFailure o t : keeps I (MarkReconcileFailure o t).
Proof. apply keeps_sql; [done|]. intros ? st a st' H. by eapply I_order, step_fail. Qed.
Lemma keeps_defer o t : keeps I (DeferReconcile o t).
Proof. apply keeps_sql; [done|]. intros ? st a st' H. by eapply I_order, step_defer. Qed.
Lemma keeps_refresh j : keeps I (RefreshTwapProgress j).
Proof. apply keeps_sql; [done|]. intros ? st a st' H. by eapply I_order, step_refresh. Qed.
Lemma keeps_lease n l : keeps I (LeaseDueOrders n l).
Proof. apply keeps_sql; [done|]. intros ? st a st' H. by eapply I_order, step_lease. Qed.
Lemma keeps_getOrder P : keeps I (getOrder P).
Proof. apply keeps_sql; [done|]. intros ? st r st' H. by injection H as _ <-. Qed.
Lemma keeps_confirm o u t : keeps I (sql (confirmTransaction o u t)).
Proof. apply keeps_sql; [done|]. intros ? st a st' H. by eapply I_order, step_absent. Qed.
Lemma keeps_finalize e : keeps I (sql (finalizeTransaction e)).
Proof. apply keeps_sql; [done|]. intros ? st a st' H. by eapply I_finalize. Qed.
Lemma keeps_recompute o : keeps I (recomputeFor o).
Proof.
  unfold recomputeFor, RecomputeArbitrageBasePositionsForExecution. keeps_tac.
  apply keeps_sql; [done|]. intros ? st a st' H. by eapply I_recompute.
Qed.
#[local] Hint Resolve keeps_AppendEvent keeps_markFailure keeps_defer keeps_refresh keeps_lease keeps_getOrder keeps_confirm
  keeps_finalize keeps_recompute : keeps.

Lemma keeps_applyOrderUpdate o result eventAt receivedAt stream fills skip :
  r_LocalCommandAck result = false -> keeps I (applyOrderUpdate o result eventAt receivedAt stream fills skip).
Proof.
  intros Hack. unfold applyOrderUpdate. keeps_tac. apply holds_transact; [done|]. intros n fault st HI.
  eapply I_order; [|exact HI]. eapply step_apply; [|apply surjective_pairing].
  intros row _ H. congruence.
Qed.
Lemma keeps_update o result : r_LocalCommandAck result = false -> keeps I (UpdateResultWithFillDelta o result).
Proof. intros H. unfold UpdateResultWithFillDelta. apply keeps_bind; [keeps_tac|]. intros t. by apply keeps_applyOrderUpdate. Qed.
Lemma keeps_stream o u : r_LocalCommandAck (su_Result u) = false -> keeps I (ApplyStreamUpdate o u).
Proof.
  intros H. unfold ApplyStreamUpdate. apply keeps_bind; [keeps_tac|]. intros t. apply keeps_bind; [keeps_tac|]. intros t'.
  apply keeps_bind; [by apply keeps_applyOrderUpdate|]. intros a. apply keeps_ret.
Qed.
#[local] Hint Resolve keeps_update keeps_stream : keeps.

Lemma keeps_fail o : keeps I (fail o).
Proof. unfold fail. keeps_tac. Qed.
#[local] Hint Resolve keeps_fail : keeps.

Lemma keeps_unresolved o result : keeps I (reconcileUnresolved o result).
Proof. unfold reconcileUnresolved. keeps_tac. Qed.
Lemma keeps_absent o : keeps I (reconcileAbsent o).
Proof. unfold reconcileAbsent, ConfirmOrderAbsence, reconcileConverted. keeps_tac. Qed.
Lemma keeps_found o result : keeps I (reconcileFound o result).
Proof. unfold reconcileFound. keeps_tac. Qed.
Lemma keeps_watch account i o r : keeps I (ensureOrderStreamWatch account i o r).
Proof. unfold ensureOrderStreamWatch. keeps_tac. Qed.
#[local] Hint Resolve keeps_unresolved keeps_absent keeps_found keeps_watch : keeps.

Lemma keeps_reconcileOrder audit account o r : keeps I (reconcileOrder audit account o r).
Proof. unfold reconcileOrder, streamIsFresh, callCatalog, callResolve. keeps_tac. Qed.
Lemma keeps_failAll orders : keeps I (failAll orders).
Proof. induction orders as [|o orders IH]; cbn [failAll]; keeps_tac. Qed.
#[local] Hint Resolve keeps_reconcileOrder keeps_failAll : keeps.
Lemma keeps_reconcileOrders audit account orders r : keeps I (reconcileOrders audit account orders r).
Proof. revert r. induction orders as [|o orders IH]; intros r; cbn [reconcileOrders]; keeps_tac. Qed.
#[local] Hint Resolve keeps_reconcileOrders : keeps.
Lemma keeps_groups audit groups r : keeps I (reconcileGroups audit groups r).
Proof.
  revert r. induction groups as [|[key orders] groups IH]; intros r; cbn [reconcileGroups]; [apply keeps_ret|].
  apply keeps_bind; [|intros r'; apply IH]. unfold reconcileAccount. keeps_tac.
Qed.
#[local] Hint Resolve keeps_groups : keeps.
Lemma keeps_runOnce n timeout audit r : keeps I (runOnce n timeout audit r).
Proof. unfold runOnce. keeps_tac. Qed.

Lemma keeps_consumeUpdates i o updates : keeps I (consumeUpdates i o updates).
Proof.
  induction updates as [|u updates IH]; cbn [consumeUpdates]; [apply keeps_ret|]. destruct (bool_decide _); [done|].
  apply keeps_bind.
  - unfold applyPrivateStreamUpdate. apply keeps_bind; [keeps_tac|]. intros t.
    destruct (streamUpdateOf i o u t) as [s|] eqn:E; [|apply keeps_ret]. apply keeps_stream.
    unfold streamUpdateOf in E. cbv zeta in E. repeat (case_match; simplify_eq/=; try done).
  - intros [a|e]; keeps_tac.
Qed.
End Kept.
End ReconcileSafe.

(** ** A round is safe *)

Section RoundSafe.
Context {D : Type} `{!Decimal D} `{!DecimalLaws D} `{!Postgres D} `{!PostgresLaws D} `{!Env D} `{svc : !Services} `{str : !OrderStreams}.

(** Later states of the tables: well typed, one active execution per
    combination, every order still there and only further on. *)
Definition reconciledFrom (st0 st : Store D) : Prop :=
  storeTyped st /\ executionsSound st /\
  forall id row, st_orders st0 !! id = Some row -> exists row', st_orders st !! id = Some row' /\ progress (D := D) row row'.

Lemma orderStep_executions (st st' : Store D) : storeTyped st -> orderStep st st' -> st_executions st' = st_executions st.
Proof.
  intros HT H.
  destruct H as [o result eventAt receivedAt stream fills skip n fault st r st' Hack H|id t st r st' H|o t st r st' _ H|o next t st r st' H
    |o next t st r st' H|o e next t st r st' H|l d t st r st' H].
  - by destruct (apply_cases _ _ _ _ _ _ _ _ _ _ _ _ H HT Hack) as [(_ & E & _) _].
  - unfold refreshTransaction in H. repeat (case_match; simplify_eq/=; try done).
  - unfold createIntentTransaction in H. repeat (case_match; simplify_eq/=; try done).
  - by injection H as _ <-.
  - unfold markFailureTransaction in H. cbv zeta in H. repeat (case_match; simplify_eq/=; try done).
  - unfold confirmTransaction in H. repeat (case_match; simplify_eq/=; try done).
  - by injection H as _ <-.
Qed.

Lemma reconciled_order st0 (st st' : Store D) : orderStep st st' -> reconciledFrom st0 st -> reconciledFrom st0 st'.
Proof.
  intros Hs (HT & HX & HP). split; [by eapply stepped_typed, orderStep_stepped|]. split.
  - unfold executionsSound, executionsKeyed, oneActive. by rewrite (orderStep_executions _ _ HT Hs).
  - intros id row Hr. destruct (HP _ _ Hr) as (row1 & H1 & P1).
    destruct (orderStep_progress _ _ _ _ HT Hs H1) as (row2 & H2 & P2). exists row2. split; [done|]. by eapply progress_trans.
Qed.

Lemma reconciled_tables st0 (st st' : Store D) :
  st_orders st' = st_orders st -> st_tracker st' = st_tracker st ->
  executionChange (st_executions st) (st_executions st') -> reconciledFrom st0 st -> reconciledFrom st0 st'.
Proof.
  intros Eo Et Hc ([Ho Ht] & HX & HP). split; [split; [by rewrite Eo|by rewrite Et]|].
  split; [by eapply executionChange_sound|]. by rewrite Eo.
Qed.

Lemma reconciled_events st0 (st : Store D) l : reconciledFrom st0 st -> reconciledFrom st0 (st <| st_events := l |>).
Proof. apply reconciled_tables; [done|done|by left]. Qed.

Lemma updatePositions_orders id t (st st' : Store D) r :
  updatePositions id t st = (r, st') -> st_orders st' = st_orders st /\ st_tracker st' = st_tracker st.
Proof.
  unfold updatePositions, updateCombination. intros H. repeat (case_match; simplify_eq/=; try done).
Qed.

Lemma reconciled_recompute st0 e t (st st' : Store D) r :
  recomputeForExecution e t st = (r, st') -> reconciledFrom st0 st -> reconciledFrom st0 st'.
Proof.
  intros H. apply reconciled_tables; [| |by eapply arbStep_change, astep_recompute].
  - unfold recomputeForExecution in H. repeat (case_match; simplify_eq/=; try done).
    by apply updatePositions_orders in H as [-> _].
  - unfold recomputeForExecution in H. repeat (case_match; simplify_eq/=; try done).
    by apply updatePositions_orders in H as [_ ->].
Qed.

Lemma finalize_change e t (st st' : Store D) r :
  finalizeTransaction e t st = (r, st') ->
  st_orders st' = st_orders st /\ st_tracker st' = st_tracker st /\ executionChange (st_executions st) (st_executions st').
Proof.
  unfold finalizeTransaction. cbv zeta. intros H.
  destruct (e =?s ""); [injection H as _ <-; split; [done|split; [done|by left]]|].
  destruct (st_executions st !! e) as [row|] eqn:Hr; [|injection H as _ <-; split; [done|split; [done|by left]]].
  destruct (st_combinations st !! _) as [combo|]; [|injection H as _ <-; split; [done|split; [done|by left]]].
  destruct (evaluateConfirmedAbsentZeroFillFinalize _ _ _ _); [injection H as _ <-; split; [done|split; [done|by left]]|..];
    (destruct (negb _ && negb _); injection H as _ <-; [split; [done|split; [done|by left]]|]);
    (split; [done|split; [done|right; left; exists e, row; eexists; split; [done|split; [|reflexivity]]]]);
    (destruct (activeExecution row) eqn:Ea; by repeat split).
Qed.

Lemma reconciled_finalize st0 e t (st st' : Store D) r :
  finalizeTransaction e t st = (r, st') -> reconciledFrom st0 st -> reconciledFrom st0 st'.
Proof. intros (Eo & Et & Hc)%finalize_change. by apply reconciled_tables. Qed.

(** C17: a round of the reconciler, and the streams it reads, keep what the
    other components rely on, whatever the venue answers, whichever statement
    fails, and among other processes that keep it too: the rows stay well
    typed, no combination gets a second active execution, and every order is
    still there and only further on: no fill is taken back, no terminal
    status undone, no venue identifier replaced. *)
Theorem reconcile_round_safe (st0 : Store D) (batch : Z) (timeout audit : Duration) (r r' : Reconciler)
    (k : nat) (updates : list Update) (w : World D) :
  (forall n st, reconciledFrom st0 st -> reconciledFrom st0 (interfere n st)) -> reconciledFrom st0 (w_store w) ->
  reconciledFrom st0 (w_store (snd (runOnce batch timeout audit r w))) /\
  reconciledFrom st0 (w_store (snd (consumeOrderStream k updates r' w))).
Proof.
  intros Hi Hw. split.
  - exact (keeps_runOnce (reconciledFrom st0) Hi (reconciled_order st0) (reconciled_events st0) (reconciled_recompute st0)
      (reconciled_finalize st0) batch timeout audit r w Hw).
  - unfold consumeOrderStream. destruct (rc_consumers r' !! k) as [[i o]|]; [|done].
    pose proof (keeps_consumeUpdates (reconciledFrom st0) Hi (reconciled_order st0) (reconciled_events st0) i o updates w Hw) as H.
    unfold bind. by destruct (consumeUpdates i o updates w).
Qed.
End RoundSafe.

(** ** Fills reach the books *)

Section Books.
Context {D : Type} `{!Decimal D} `{!DecimalLaws D} `{!Postgres D} `{!PostgresLaws D} `{!Env D} `{svc : !Services} `{str : !OrderStreams}.
Local Open Scope Q_scope.
#[local] Opaque qround.

(** The position columns of a combination are its ledger. *)
Definition booksFollow (st : Store D) (id : string) : Prop :=
  exists combo adjA adjB, st_combinations st !! id = Some combo /\
    numericColumn (D := D) (c_LegAReconciliationAdjustment (cb_item combo)) adjA /\
    numericColumn (D := D) (c_LegBReconciliationAdjustment (cb_item combo)) adjB /\
    numericColumn (D := D) (c_LegABasePosition (cb_item combo)) (ledger st id "a" + adjA) /\
    numericColumn (D := D) (c_LegBBasePosition (cb_item combo)) (ledger st id "b" + adjB).

Lemma merged_filled_trim o result eventAt ins skip m :
  mergeOrderUpdate (D := D) o result eventAt ins skip = Ok m -> TrimSpace (o_FilledQuantity o) = o_FilledQuantity o ->
  TrimSpace (o_FilledQuantity m) = o_FilledQuantity m.
Proof.
  unfold mergeOrderUpdate, mergeLocalAck, bindVenueOrderID; cbv zeta. intros H Ht.
  repeat (case_match; simplify_eq/=; try done); apply dString_TrimSpace.
Qed.

(** A report that is said not to have changed the fill has not. *)
Lemma apply_unchanged oid result eventAt receivedAt stream fills skip n fault (st st' : Store D) o row :
  applyTransaction oid result eventAt receivedAt stream fills skip n fault st = (Ok (o, false), st') ->
  storeTyped st -> st_orders st !! oid = Some row ->
  exists row', st_orders st' !! oid = Some row' /\ filledOf (D := D) row' == filledOf (D := D) row.
Proof.
  intros H [Ty _] Hr. destruct (Ty _ _ Hr) as (_ & q & f & a & T). unfold applyTransaction in H. rewrite Hr in H.
  destruct fault as [[[] e]|]; [done|..]; cbv zeta in H;
  destruct (if hyperliquidArbitrageFillAverageEnabled _ then Acquire _ _ _ _ else _) as [h t] in H;
  destruct (planUpdate _ _ _ _ _ _ _ _ _ _ _ _ _ _) as [t1 [p|e']] eqn:Ep in H; try done;
  injection H as _ Hc <-; unfold planUpdate in Ep; cbv zeta in Ep;
  destruct (insertFills _ _ _ _) as [[ins table]|] in Ep; try done;
  destruct (mergeOrderUpdate _ _ _ _ _) as [m|] eqn:Em in Ep; try done;
  destruct (if hyperliquidArbitrageFillAverageEnabled _ then _ else _) as [[t2 pd] average] in Ep;
  injection Ep as _ Ep; destruct (writeMerged _ _ _ _ _ _ _) as [row'|] eqn:Ew in Ep; try done.
  injection Ep as <-. cbn in Hc. apply negb_false_iff, dEqual_val in Hc.
  exists row'. split; [cbn; by rewrite lookup_insert_eq|].
  assert (TrimSpace (o_FilledQuantity m) = o_FilledQuantity m) as Hm.
  { apply (merged_filled_trim _ _ _ _ _ _ Em). by destruct (ot_filled _ _ _ _ T) as (? & _). }
  set (m' := match average with Some _ => _ | None => _ end) in *.
  assert (o_FilledQuantity m' = o_FilledQuantity m) as E' by (by destruct average).
  unfold writeMerged in Ew. destruct (numericText (o_FilledQuantity m')) as [tf|] eqn:Nf; [|done].
  destruct (numericText (o_AveragePrice m')); [|done]. injection Ew as <-. unfold filledOf. cbn [row_order].
  rewrite E' in Nf. destruct (numericText_val _ _ Nf) as (_ & d & _ & Hd & _).
  pose proof (numericText_column _ _ _ Nf Hd) as Cf. cbn. rewrite (numericColumn_parse _ _ Cf).
  assert (parseDecimal (o_FilledQuantity m) = d) as Hp by (unfold parseDecimal; by rewrite Hm, Hd). rewrite E', Hp in Hc.
  change (o_FilledQuantity (scanOrder row)) with (o_FilledQuantity (row_order row)) in Hc.
  pose proof (ot_filled _ _ _ _ T) as Cr. rewrite (numericColumn_parse _ _ Cr) in Hc |- *.
  destruct Cr as (_ & H18 & _). unfold is18 in H18. etransitivity; [|exact H18]. by apply qround_proper.
Qed.

(** The ledger looks at the orders and at whose execution they are. *)
Lemma ledger_ext (st st' : Store D) id leg :
  st_orders st' = st_orders st ->
  (forall k, (fun e => x_CombinationID (ex_item e)) <$> (st_executions st' !! k) = (fun e => x_CombinationID (ex_item e)) <$> (st_executions st !! k)) ->
  ledger st' id leg == ledger st id leg.
Proof.
  intros Eo Ex. unfold ledger. rewrite Eo. apply sumQ_ext. intros r _. unfold contribution, inCombination.
  specialize (Ex (o_ArbitrageExecutionID (row_order r))).
  destruct (st_executions st' !! _) as [e'|], (st_executions st !! _) as [e|]; cbn in Ex; try done. injection Ex as ->. reflexivity.
Qed.

Lemma booksFollow_ext (st st' : Store D) id :
  st_combinations st' !! id = st_combinations st !! id ->
  (forall leg, ledger st' id leg == ledger st id leg) -> booksFollow st id -> booksFollow st' id.
Proof.
  intros Ec El (combo & adjA & adjB & Hc & HA & HB & CA & CB). exists combo, adjA, adjB. split; [congruence|]. split; [done|]. split; [done|].
  split; [eapply numericColumn_proper; [|exact CA]|eapply numericColumn_proper; [|exact CB]]; by rewrite El.
Qed.

Lemma updatePositions_row id t (st st' : Store D) c row :
  updatePositions id t st = (Ok c, st') -> st_combinations st !! id = Some row ->
  exists row', st' = st <| st_combinations := <[id := row']> (st_combinations st) |> /\ c = scanCombination (D := D) row' /\
    c_LegAReconciliationAdjustment (cb_item row') = c_LegAReconciliationAdjustment (cb_item row) /\
    c_LegBReconciliationAdjustment (cb_item row') = c_LegBReconciliationAdjustment (cb_item row).
Proof.
  unfold updatePositions, updateCombination. intros H Hr. rewrite Hr in H. unfold assignPositions in H. cbv zeta in H.
  destruct (numericText _); [|done]. destruct (numericText _); [|done]. injection H as <- <-. eexists. by repeat split.
Qed.

(** A recomputation puts the books of its combination right and touches no other. *)
Lemma recompute_books e t (st st' : Store D) c id :
  recomputeForExecution e t st = (Ok c, st') -> storeTyped st ->
  (forall row, st_executions st !! e = Some row -> x_CombinationID (ex_item row) = id \/ booksFollow st id) ->
  (exists combo adjA adjB, st_combinations st !! id = Some combo /\
    numericColumn (D := D) (c_LegAReconciliationAdjustment (cb_item combo)) adjA /\
    numericColumn (D := D) (c_LegBReconciliationAdjustment (cb_item combo)) adjB) ->
  booksFollow st' id.
Proof.
  intros H Ty Hid (combo & adjA & adjB & Hc & HA & HB). unfold recomputeForExecution in H.
  destruct (st_executions st !! e) as [row|] eqn:Hr; [|done]. cbv zeta in H.
  destruct (st_combinations st !! x_CombinationID (ex_item row)) as [combo'|] eqn:Hc'; [|done].
  destruct (executionFills _ _ _) as [fa fb]. destruct (numericAny _); [|done]. destruct (numericAny _); [|done].
  set (row' := row <| ex_item := _ |>) in H.
  set (st1 := st <| st_executions := <[e := row']> (st_executions st) |>) in H.
  assert (forall leg, ledger st1 id leg == ledger st id leg) as E1.
  { intros leg. apply ledger_ext; [done|]. intros k. cbn. destruct (decide (k = e)) as [->|Hn].
    - by rewrite lookup_insert_eq, Hr.
    - by rewrite lookup_insert_ne. }
  assert (storeTyped st1) as Ty1 by (destruct Ty as [To Tt]; by split).
  destruct (updatePositions_row _ _ _ _ _ _ H Hc') as (row2 & Est & Ec & EA & EB).
  assert (forall leg, ledger st' id leg == ledger st1 id leg) as E2 by (intros leg; rewrite Est; by apply ledger_ext).
  destruct (decide (x_CombinationID (ex_item row) = id)) as [E|E].
  - rewrite E in *. assert (combo' = combo) as -> by congruence.
    destruct (updatePositions_ledger st1 st' id t combo c adjA adjB Ty1 Hc HA HB H) as (CA & CB & _).
    exists row2, adjA, adjB. split; [rewrite Est; cbn; apply lookup_insert_eq|]. rewrite EA, EB. split; [done|]. split; [done|].
    rewrite Ec in CA, CB. split; [eapply numericColumn_proper; [|exact CA]|eapply numericColumn_proper; [|exact CB]]; by rewrite E2.
  - destruct (Hid row eq_refl) as [?|Hb]; [done|]. eapply (booksFollow_ext st); [|intros leg; by rewrite E2|done].
    rewrite Est. cbn. by rewrite lookup_insert_ne.
Qed.

(** A round in which the database answers and nobody else writes. *)
Hypothesis no_fault : forall n, dbFault n = None.
Hypothesis alone : forall n (st : Store D), interfere n st = st.

Lemma holds_alone {A} f (st0 : Store D) (Q : Result A -> Store D -> Prop) :
  (forall t, match f t st0 with (Ok a, st') => Q (Ok a) st' | (Err e, _) => Q (Err e) st0 end) ->
  holds (fun st => st = st0) (sql f) Q.
Proof. intros H. apply holds_sql_nofault; [done|intros n st ->; apply alone|intros t st ->; apply H]. Qed.

Definition failedEvent (order : Order) : string * string := (o_ID order, "reconcile_failed"%string).

Lemma fail_recorded order (l : list (string * string)) :
  holds (fun st => st_events st = l /\ is_Some (st_orders st !! o_ID order)) (fail order)
    (fun _ st => st_events st = l ++ [failedEvent order]).
Proof.
  unfold fail. eapply holds_bind; [apply holds_timeNow|]. intros now. cbn beta.
  eapply holds_bind with (R := fun _ st => st_events st = l /\ is_Some (st_orders st !! o_ID order)).
  - apply holds_sql_nofault; [done|intros n st H; by rewrite alone|]. intros t st [He Ho]. unfold markFailureTransaction. cbv zeta.
    destruct (st_orders st !! o_ID order) as [row|] eqn:Hr; [|by destruct Ho].
    repeat case_match; simplify_eq/=; rewrite ?lookup_insert_eq, ?Hr; (split; [done|by eexists]).
  - intros _. eapply holds_bind with (R := fun _ st => st_events st = l ++ [failedEvent order]); [|intros _; by apply holds_ret].
    apply holds_sql_nofault; [done|intros n st H; by rewrite alone|]. intros t st [He [row Hr]]. rewrite Hr. cbn. by rewrite He.
Qed.

Lemma update_books st0 oid row result id :
  storeTyped st0 -> st_orders st0 !! oid = Some row -> r_LocalCommandAck result = false -> booksFollow st0 id ->
  holds (fun st => st = st0) (UpdateResultWithFillDelta oid result)
    (fun r st => st_events st = st_events st0 /\ is_Some (st_orders st !! oid) /\
       match r with
       | Err _ => True
       | Ok (o, changed) =>
           storeTyped st /\ st_combinations st = st_combinations st0 /\ st_executions st = st_executions st0 /\
           o_ArbitrageExecutionID o = o_ArbitrageExecutionID (row_order row) /\
           (inCombination st0 id row = false \/ changed = false -> booksFollow st id)
       end).
Proof.
  intros Ty Hr Hack Hb. unfold UpdateResultWithFillDelta.
  eapply holds_bind with (R := fun _ st => st = st0); [destruct (_ && _); [apply holds_timeNow|by apply holds_ret]|].
  intros eventAt. unfold applyOrderUpdate.
  eapply holds_bind with (R := fun r st => st_events st = st_events st0 /\ is_Some (st_orders st !! oid) /\
       match r with
       | Err _ => True
       | Ok (o, changed) =>
           storeTyped st /\ st_combinations st = st_combinations st0 /\ st_executions st = st_executions st0 /\
           o_ArbitrageExecutionID o = o_ArbitrageExecutionID (row_order row) /\
           (inCombination st0 id row = false \/ changed = false -> booksFollow st id)
       end).
  - apply holds_transact; [intros n st ->; apply alone|]. intros n fault st ->.
    destruct (applyTransaction oid result eventAt zeroTime false [] false n fault st0) as [r st1] eqn:Ea. cbn [fst snd].
    assert (forall row0, st_orders st0 !! oid = Some row0 -> ackWithin (D := D) (row_order row0) result) as Hw by (intros row0 _ H; congruence).
    destruct (apply_cases _ _ _ _ _ _ _ _ _ _ _ _ Ea Ty Hw) as ((_ & Ex & Ec & Ee & _) & Ht & Hcase).
    split; [done|]. destruct r as [[o changed]|e].
    2:{ destruct Hcase as [-> _]. by rewrite Hr. }
    destruct Hcase as (row0 & row' & q & f & a & f' & a' & ins & Hap & ->).
    assert (row0 = row) as -> by (pose proof (ap_row _ _ _ _ _ _ _ _ _ _ _ _ _ _ _ Hap); congruence).
    pose proof (ap_orders _ _ _ _ _ _ _ _ _ _ _ _ _ _ _ Hap) as Ho.
    destruct (ap_same _ _ _ _ _ _ _ _ _ _ _ _ _ _ _ Hap) as (? & ? & ? & ? & ? & ? & ? & ? & ? & Hs).
    split; [rewrite Ho, lookup_insert_eq; by eexists|]. split; [|split; [done|split; [done|split; [cbn; by rewrite Hs|]]]].
    + eapply stepped_typed, orderStep_stepped; [done|done|]. by eapply step_apply.
    + intros Hun. eapply (booksFollow_ext st0); [by rewrite Ec| |done]. intros leg.
      rewrite (ledger_report st0 st1 id leg oid row row' Ex Hr Ho) by (by rewrite Hs).
      destruct Hun as [->| ->]; [ring|]. destruct (apply_unchanged _ _ _ _ _ _ _ _ _ _ _ _ _ Ea Ty Hr) as (row2 & H2 & E2).
      rewrite Ho, lookup_insert_eq in H2. injection H2 as <-. destruct (inCombination _ _ _); [rewrite E2|]; ring.
  - intros [[o changed]|e]; [|by apply holds_ret]. destruct (o_TwapJobID o =?s ""); [by apply holds_ret|].
    eapply holds_bind with (R := fun _ st => st_events st = st_events st0 /\ is_Some (st_orders st !! oid) /\
           storeTyped st /\ st_combinations st = st_combinations st0 /\ st_executions st = st_executions st0 /\
           o_ArbitrageExecutionID o = o_ArbitrageExecutionID (row_order row) /\
           (inCombination st0 id row = false \/ changed = false -> booksFollow st id)).
    + apply holds_sql_nofault; [done|intros n st H; by rewrite alone|]. intros t st (H1 & H2 & H3 & H4 & H5 & H6 & H7).
      unfold refreshTransaction. destruct (st_twaps st !! _); [|done]. cbv zeta.
      destruct (numericText _); [|done]. destruct (numericText _); [|done].
      split; [done|]. split; [done|]. split; [destruct H3 as [To Tt]; by split|]. split; [done|]. split; [done|]. split; [done|].
      intros Hun. eapply (booksFollow_ext st); [done| |by apply H7]. intros leg. by apply ledger_ext.
    + intros [j|e]; apply holds_ret; [done|]. intros st (H1 & H2 & _). done.
Qed.

End Books.

(** ** One stream per order *)

Section Watches.
Context {D : Type} `{!Decimal D} `{!Postgres D} `{!Env D} `{svc : !Services} `{str : !OrderStreams}.

Definition consumerIDs (r : Reconciler) : list string := map (fun c => o_ID (snd c)) (rc_consumers r).
Definition watchesSound (r : Reconciler) : Prop :=
  NoDup (consumerIDs r) /\ forall id, id ∈ rc_watches r <-> id ∈ consumerIDs r.

(** The computation returns a sound state, in whatever world it runs. *)
Definition gives {A} (P : A -> Prop) (m : M D A) : Prop := forall w, P (fst (m w)).

Lemma gives_ret {A} (P : A -> Prop) a : P a -> gives P (ret a).
Proof. by intros H w. Qed.
Lemma gives_bind {A B} (R : A -> Prop) (P : B -> Prop) (m : M D A) (k : A -> M D B) :
  gives R m -> (forall a, R a -> gives P (k a)) -> gives P (bind m k).
Proof. intros Hm Hk w. unfold bind. specialize (Hm w). destruct (m w) as [a w']. by apply Hk. Qed.
Lemma gives_after {A B} (P : B -> Prop) (m : M D A) (k : A -> M D B) : (forall a, gives P (k a)) -> gives P (bind m k).
Proof. intros Hk. by apply (gives_bind (fun _ => True)). Qed.

Lemma release_added o (r : Reconciler) :
  watchesSound r -> o ∉ rc_watches r -> watchesSound (releaseWatch o (r <| rc_watches := {[o]} ∪ rc_watches r |>)).
Proof.
  intros [Hd Hw] Hn. split; [done|]. intros id. cbn. change (consumerIDs _) with (consumerIDs r). rewrite <- Hw. set_solver.
Qed.

Lemma ensure_sound account i o r : watchesSound r -> gives watchesSound (ensureOrderStreamWatch (D := D) account i o r).
Proof.
  intros Hr. unfold ensureOrderStreamWatch. destruct (_ || _); [by apply gives_ret|]. apply gives_after. intros n.
  destruct (adapterCapabilities _ _ _) as [[c|e]|]; [|by apply gives_ret..]. destruct (negb _); [by apply gives_ret|].
  destruct (bool_decide _) eqn:Eb; [by apply gives_ret|]. apply bool_decide_eq_false in Eb.
  apply gives_after. intros m. destruct (streamSubscribe _ _ _); [apply gives_ret; by apply release_added|].
  apply gives_after. intros k. destruct (streamWatchOrder _ _ _); apply gives_ret; [by apply release_added|].
  destruct Hr as [Hd Hw]. split.
  - unfold consumerIDs in *. cbn. rewrite map_app. apply NoDup_app. split; [done|]. split; [|apply NoDup_singleton].
    intros x Hx ->%list_elem_of_singleton. by apply Eb, Hw.
  - intros id. unfold consumerIDs in *. cbn. rewrite map_app, elem_of_union, elem_of_app, Hw. cbn. rewrite elem_of_singleton, list_elem_of_singleton. tauto.
Qed.

Lemma reconcileOrder_sound audit account o r : watchesSound r -> gives watchesSound (reconcileOrder (D := D) audit account o r).
Proof.
  intros Hr. unfold reconcileOrder. apply gives_after. intros [].
  - apply gives_after. intros now. apply gives_after. intros _. by apply gives_ret.
  - apply gives_after. intros [i|e]; [|apply gives_after; intros _; by apply gives_ret].
    apply (gives_bind watchesSound); [by apply ensure_sound|]. intros r' Hr'.
    apply gives_after. intros answer. apply gives_after. intros _. by apply gives_ret.
Qed.

Lemma reconcileOrders_sound audit account orders r : watchesSound r -> gives watchesSound (reconcileOrders (D := D) audit account orders r).
Proof.
  revert r. induction orders as [|o orders IH]; intros r Hr; cbn [reconcileOrders]; [by apply gives_ret|].
  apply (gives_bind watchesSound); [by apply reconcileOrder_sound|]. apply IH.
Qed.

Lemma groups_sound audit groups r : watchesSound r -> gives watchesSound (reconcileGroups (D := D) audit groups r).
Proof.
  revert r. induction groups as [|[key orders] groups IH]; intros r Hr; cbn [reconcileGroups]; [by apply gives_ret|].
  apply (gives_bind watchesSound); [|apply IH]. unfold reconcileAccount. destruct orders as [|first rest]; [by apply gives_ret|].
  apply gives_after. intros n. destruct (credentialsInternal _ _ _) as [account|]; [destruct (negb _)|];
    [apply gives_after; intros _; by apply gives_ret|by apply reconcileOrders_sound|apply gives_after; intros _; by apply gives_ret].
Qed.

Lemma runOnce_sound n timeout audit r : watchesSound r -> gives watchesSound (runOnce (D := D) n timeout audit r).
Proof. intros Hr. unfold runOnce. apply gives_after. intros [orders|e]; [by apply groups_sound|by apply gives_ret]. Qed.

(** What a finished consumer leaves. *)
Definition consumed (k : nat) (r r' : Reconciler) : Prop :=
  forall i o, rc_consumers r !! k = Some (i, o) ->
    watchesSound r' /\ (o_ID o ∉ rc_watches r') /\ forall id, id <> o_ID o -> (id ∈ rc_watches r' <-> id ∈ rc_watches r).

Lemma consume_sound k updates r : watchesSound r -> gives (consumed k r) (consumeOrderStream (D := D) k updates r).
Proof.
  intros [Hd Hw] w i o Hk. unfold consumeOrderStream. rewrite Hk. unfold bind. destruct (consumeUpdates i o updates w) as [u w']. cbn [fst ret].
  unfold watchesSound, consumerIDs in *. cbn.
  assert (rc_consumers r = take k (rc_consumers r) ++ (i, o) :: drop (S k) (rc_consumers r)) as E by (symmetry; by apply take_drop_middle).
  rewrite delete_take_drop. rewrite E, map_app in Hd, Hw. rewrite map_app. cbn in Hd, Hw.
  apply NoDup_app in Hd as (D1 & D2 & D3). apply NoDup_cons in D3 as [D3 D4].
  split; [split|split; [set_solver|]].
  - apply NoDup_app. split; [done|]. split; [|done]. intros x Hx Hx'. apply (D2 x Hx). by right.
  - intros id. rewrite elem_of_difference, Hw, !elem_of_app, elem_of_cons, elem_of_singleton. split.
    + intros [[?|[?|?]] ?]; [by left|done|by right].
    + intros [H|H]; (split; [tauto|]); intros ->; [apply (D2 _ H); by left|done].
  - intros id Hn. rewrite elem_of_difference, elem_of_singleton. tauto.
Qed.

(** The rounds and the ends of consumers, in any order and any world. *)
Inductive watchStep : Reconciler -> Reconciler -> Prop :=
| watch_round n timeout audit r (w : World D) : watchStep r (fst (runOnce n timeout audit r w))
| watch_consumed k updates r (w : World D) : watchStep r (fst (consumeOrderStream k updates r w)).

(** An order has at most one private stream.  After any rounds and any
    ends of streams the watched orders are exactly the orders with a running
    consumer, each with one; and when a stream ends, whatever it delivered,
    its order is released, so that the next round can watch it again, and no
    other is. *)
Theorem one_watch_per_order (r : Reconciler) :
  rtc watchStep newReconciler r ->
  watchesSound r /\ forall k updates (w : World D), consumed k r (fst (consumeOrderStream k updates r w)).
Proof.
  intros H. assert (watchesSound r) as Hs; [|split; [done|]; intros k updates w; by apply consume_sound].
  assert (watchesSound newReconciler) as H0 by (split; [apply NoDup_nil_2|set_solver]).
  induction H as [|r1 r2 r3 Hs _ IH]; [done|]. apply IH. destruct Hs as [n timeout audit r1 w|k updates r1 w]; [by apply runOnce_sound|].
  pose proof (consume_sound k updates r1 H0 w) as Hc. destruct (rc_consumers r1 !! k) as [[i o]|] eqn:Ek; [by apply (Hc i o)|].
  unfold consumeOrderStream. by rewrite Ek.
Qed.
End Watches.

(** ** Witnesses *)

Section ReconcilerWitnesses.

(** A venue that knows every order as filled for two, with private streams. *)
Definition streamingServices : Services := {|
  catalogGet _ _ := Ok ruledPerp;
  credentialsOwner _ _ := Ok "alice"%string;
  credentialsGet _ _ id := Ok (mkCredentials id "p" (i_Exchange ruledPerp) "" "" "" "" "" "" "" None None);
  credentialsInternal _ _ id := Ok (mkCredentials id "p" (i_Exchange ruledPerp) "" "" "" "" "" "" "" None None);
  adapterKnown _ := true;
  adapterCapabilities _ _ _ := Some (Ok (mkCapabilities [] [] [] true true true true true true));
  adapterClientID _ c := c;
  adapterBBO _ _ _ := (mkVenueBBO "100" "101" 0, None);
  adapterPlace _ _ _ _ := (zero_VenueResult, None);
  adapterCancel _ _ _ _ := (zero_VenueResult, None);
  adapterQuery _ _ := {| Resolution.GetOrder _ := (fillReport "2", None); ResolveOrder := None |};
  orderStreamsConfigured := true;
  uuidParses s := true
|}.
Definition readyStreams : OrderStreams := {|
  streamHealthy _ _ := true; streamSubscribe _ _ _ := None; streamWatchOrder _ _ _ := None
|}.
#[local] Existing Instance streamingServices.
#[local] Existing Instance readyStreams.

(** The database fails at the given ticks. *)
Definition failingEnv (ticks : list nat) : Env Dec := {|
  clock _ := 1000000000 * Second; dbClock _ := 1000000000 * Second;
  dbFault n := if existsb (Nat.eqb n) ticks then Some (AtStatement, errPlain "connection reset") else None;
  interfere _ st := st; newUUID _ := "uuid-1"%string; mapScan _ := []
|}.

Definition tradingOrder : Order := scanOrder tradingRow.
Definition tradingWorld : World Dec := mkWorld tradingStore 0 [].

Lemma trading_executions : executionsSound tradingStore.
Proof.
  pose proof (arbStep_change (arbStore quietItem) claimedStore (astep_claim _ _ _ _ _ (surjective_pairing _))) as Hc.
  pose proof (executionChange_sound _ _ Hc (arbStore_sound quietItem)) as H.
  assert (st_executions tradingStore = st_executions claimedStore) as E by (vm_compute; reflexivity).
  unfold executionsSound, executionsKeyed, oneActive in *. by rewrite E.
Qed.

Lemma reconcile_round_safe_witness :
  reconciledFrom tradingStore (w_store (snd (runOnce (Env0 := failingEnv [4]%nat) 20 (12 * Second) 0 newReconciler tradingWorld))).
Proof.
  assert (reconciledFrom tradingStore tradingStore) as H0.
  { split; [exact tradingStore_typed|]. split; [exact trading_executions|]. intros id row Hr. exists row. exact (conj Hr (progress_refl row)). }
  pose proof (reconcile_round_safe (Env0 := failingEnv [4]%nat) tradingStore 20 (12 * Second) 0 newReconciler newReconciler 0 [] tradingWorld
    (fun _ _ H => H) H0) as H. exact (proj1 H).
Defined.

Definition calmEnv : Env Dec := failingEnv [].

Lemma trading_books : booksFollow tradingStore "c1".
Proof.
  destruct (st_combinations tradingStore !! "c1"%string) as [row|] eqn:Er; [|vm_compute in Er; discriminate].
  destruct (zero_adjustments row tradingStore eq_refl Er) as [Ha Hb].
  exists row, 0%Q, 0%Q. split; [done|]. split; [done|]. split; [done|].
  vm_compute in Er. injection Er as <-. split; (eapply numericColumn_proper; [|apply (integer_column "0" 0); vm_compute; reflexivity]); vm_compute; reflexivity.
Qed.


Definition watchingReconciler : Reconciler :=
  fst (runOnce (Env0 := calmEnv) 20 (12 * Second) 0 newReconciler tradingWorld).

Lemma one_watch_per_order_witness : rc_watches watchingReconciler = {["o1"%string]} /\ watchesSound watchingReconciler.
Proof.
  split; [vm_compute; reflexivity|].
  pose proof (one_watch_per_order (Env0 := calmEnv) watchingReconciler (rtc_once _ _ (watch_round 20 (12 * Second) 0 newReconciler tradingWorld))) as H.
  exact (proj1 H).
Defined.

(** The rounds after the recomputation failed once (its third statement). *)
Fixpoint rounds (n : nat) (w : World Dec) : World Dec :=
  match n with
  | O => w
  | S n => rounds n (snd (reconcileFound (Env0 := failingEnv [2]%nat) tradingOrder (fillReport "2") w))
  end.

End ReconcilerWitnesses.
