(* ===== verification/Scheduler.v ===== *)
(** * The scheduler of combinations (arbitrage_scheduler.go)

    One event loop per leased combination: it follows the quotes of both legs,
    the notices of the batchers and the clock, keeps its copy of the row, and
    decides when an execution is claimed, resumed or recovered, when a
    combination is flattened, exited or closed.  The work itself runs in
    goroutines of the executor, one at a time per combination. *)
From Stdlib Require Import ZArith QArith Lqa String.
From stdpp Require Import base strings list gmap.
From S2P Require Import Prelude Decimal DecimalRef Types Quantity Validate ArbMath ArbSize ArbHedge WorkPermit SchedResources Resolution Store OrderStore OrderService FlattenRules ArbStore FlattenStore ArbLedger Reconciler.

#[local] Set Warnings "-clear-no-such-hyp".

(** ** Data *)

Definition marketSnapshotPersistInterval : Duration := 5 * Second.
Definition defaultSignalBBOStale : Duration := 2 * Second.
Definition arbitrageLeaseMergeWindow : Duration := 50000000.
Definition arbitrageUnpairedLegsManualReason : string := "combination-owned legs are not a paired opposite position".
Definition oneShotFinalFlattenStartedEvent : string := "one_shot_final_flatten_started".
Definition finalMetricsNotReadyKey : string := "final_metrics_not_ready".
Definition finalMetricsPersistKey : string := "final_metrics_persist_failed".

(** January 1 of year 9999, UTC: the first instant whose [Year()] is 9999. *)
Definition year9999 : GoTime := 253370764800 * Second.

(** [exitRequest] *)
Record exitRequest := mkExitRequest { er_Requested : bool; er_Version : Z; er_Reason : string }.
Definition noExitRequest : exitRequest := mkExitRequest false 0 "".

(** [ArbitrageValuation] *)
Record ArbitrageValuation := mkValuation {
  va_LegAMid : string;
  va_LegBMid : string;
  va_LegAUpdatedAt : GoTime;
  va_LegBUpdatedAt : GoTime
}.
Definition zero_ArbitrageValuation : ArbitrageValuation := mkValuation "" "" zeroTime zeroTime.

(** [arbitrageMarketSnapshot] *)
Record arbitrageMarketSnapshot := mkSnapshot {
  sn_CurrentAskSpreadBps : string;
  sn_CurrentBidSpreadBps : string;
  sn_MarketDataStale : bool;
  sn_RuntimeState : string;
  sn_Status : string;
  sn_Version : Z;
  sn_UpdatedAt : GoTime
}.

(** [arbitrageMarketSnapshotWrite] *)
Record arbitrageMarketSnapshotWrite := mkSnapshotWrite {
  sw_CombinationID : string;
  sw_AskSpread : string;
  sw_BidSpread : string;
  sw_ExpectedVersion : Z;
  sw_ExpectedUpdatedAt : GoTime;
  sw_Sequence : Z
}.

(** [arbitrageMarketSnapshotBatchItem] *)
Record arbitrageMarketSnapshotBatchItem := mkBatchItem {
  bi_CombinationID : string;
  bi_Applied : bool;
  bi_Version : Z;
  bi_Status : string;
  bi_RuntimeState : string;
  bi_MarketDataStale : bool;
  bi_UpdatedAt : GoTime;
  bi_AskSpread : string;
  bi_BidSpread : string;
  bi_Sequence : Z
}.

(** [controlProbeSnapshot] *)
Record controlProbeSnapshot := mkControlProbe {
  cp_ready : bool;
  cp_queryFailed : bool;
  cp_missing : bool;
  cp_summary : arbitrageControlSummary
}.

(** [leaseRenewNotice] *)
Record leaseRenewNotice := mkLeaseNotice { ln_generation : Z; ln_failed : bool; ln_renewed : bool }.

(** [snapshotFlushNotice] *)
Record snapshotFlushNotice := mkFlushNotice {
  fn_generation : Z;
  fn_seq : Z;
  fn_applied : bool;
  fn_skipped : bool;
  fn_failed : bool;
  fn_item : arbitrageMarketSnapshotBatchItem
}.

(** The work of a goroutine: [Execute] of an execution claimed just now or
    found active, the recovery without market data, the reconciliation of an
    open circuit, the residual flatten. *)
Inductive Job :=
| ExecuteClaimed (item : ArbitrageCombination) (x : ArbitrageExecution) (bboA bboB : BBO)
| ExecuteActive (item : ArbitrageCombination) (x : ArbitrageExecution) (bboA bboB : BBO)
| RecoverWithoutMarketData (item : ArbitrageCombination) (x : ArbitrageExecution)
| ReconcileCircuitOpen (item : ArbitrageCombination)
| RunLastCloseResidualFlatten (item : ArbitrageCombination) (bboA bboB : BBO).

(** What a loop did, for the theorems: resources acquired, given back or
    handed to a goroutine, a goroutine that was seen to have ended, an
    execution asked of the store, and what was sent to other components. *)
Inductive RuntimeEvent :=
| Acquired (class : workPermitClass) (takeSlot : bool)
| Released
| Spawned (j : Job)
| Finished
| Claiming (item : ArbitrageCombination) (x : ArbitrageExecution) (bboA bboB : BBO) (at_ : GoTime)
| RefreshRequested (item : ArbitrageCombination) (reason : string)
| SnapshotSubmitted (write : arbitrageMarketSnapshotWrite) (generation : Z)
| LeaseSubmitted (id : string) (generation : Z).

(** [arbitrageRuntime]; [rt_valuations] is the scheduler's map, of which the
    loop writes its own entry. *)
Record Runtime := mkRuntime {
  rt_combination : ArbitrageCombination;
  rt_latestA : BBO;
  rt_latestB : BBO;
  rt_hasA : bool;
  rt_hasB : bool;
  rt_nextRenew : GoTime;
  rt_lastPersist : GoTime;
  rt_lastSignal : string;
  rt_executionRunning : bool;
  rt_recoveryRunning : bool;
  rt_lastCircuitOpenReconcileAt : GoTime;
  rt_lastConfirmedAbsentFinalizeAt : GoTime;
  rt_lastDustCheckAt : GoTime;
  rt_generation : Z;
  rt_renewPending : bool;
  rt_snapshotSequence : Z;
  rt_lastAppliedSnapshotSeq : Z;
  rt_snapshotInFlightSeq : Z;
  rt_nextSnapshotAttemptAt : GoTime;
  rt_lastSnapshotUpdatedAt : GoTime;
  rt_exitRequest : exitRequest;
  rt_valuations : gmap string ArbitrageValuation;
  rt_log : list RuntimeEvent
}.
#[export] Instance eta_Runtime : Eta Runtime := fun r =>
  mkRuntime (rt_combination r) (rt_latestA r) (rt_latestB r) (rt_hasA r) (rt_hasB r) (rt_nextRenew r) (rt_lastPersist r)
    (rt_lastSignal r) (rt_executionRunning r) (rt_recoveryRunning r) (rt_lastCircuitOpenReconcileAt r)
    (rt_lastConfirmedAbsentFinalizeAt r) (rt_lastDustCheckAt r) (rt_generation r) (rt_renewPending r) (rt_snapshotSequence r)
    (rt_lastAppliedSnapshotSeq r) (rt_snapshotInFlightSeq r) (rt_nextSnapshotAttemptAt r) (rt_lastSnapshotUpdatedAt r)
    (rt_exitRequest r) (rt_valuations r) (rt_log r).

(** [NewArbitrageScheduler] and the [Configure] methods: the settings the
    loops read.  [sg_enabledVenues] is [None] for a nil map. *)
Class SchedulerConfig := {
  sg_controlInterval : Duration;
  sg_lease : Duration;
  sg_signalBBOStale : Duration;
  sg_batch : Z;
  sg_enabledVenues : option (gset string);
  sg_dryRun : bool;
  sg_catalog : bool;
  sg_runner : bool;
  sg_lifecycle : bool;
  sg_batchersStarted : bool
}.

(** What goes on around a loop: the latest quotes of its two subscriptions,
    the goroutine that ends, the resources other combinations leave, the
    values the batchers store, the exits the metrics worker signals, and the
    random source of the sizes. *)
Class Surroundings (D : Type) := {
  legLatest : nat -> string -> BBO * option GoError;
  jobEnds : nat -> bool;
  recoveryEnds : nat -> bool;
  resourcesGranted : nat -> ArbitrageCombination -> workPermitClass -> bool -> bool;
  leaseNoticeAt : nat -> option leaseRenewNotice;
  snapshotNoticeAt : nat -> option snapshotFlushNotice;
  controlProbeAt : nat -> option controlProbeSnapshot;
  exitSignalAt : nat -> option (Z * string);
  sizeRandom : nat -> D
}.

(** The part of [arbitrageExecutionRunner] a loop waits for; the other methods
    run in goroutines ([Job]). *)
Class Runner (D : Type) := {
  runnerCloseCombination : ArbitrageCombination -> M D (option GoError);
  runnerResidualFlatten : ArbitrageCombination -> BBO -> BBO -> M D (option GoError)
}.

(** [subscribe]: the state of a new loop at [t]; [valuations] is the map of
    the scheduler. *)
Definition newRuntime `{cfg : !SchedulerConfig} (item : ArbitrageCombination) (generation : Z) (t : GoTime)
    (valuations : gmap string ArbitrageValuation) : Runtime :=
  mkRuntime item zero_BBO zero_BBO false false (TimeAdd t (Z.quot sg_lease 3)) zeroTime "" false false zeroTime zeroTime zeroTime
    generation false 0 0 0 zeroTime (c_UpdatedAt item) noExitRequest valuations [].

(** The answers about resources in the states [resources] that the pool of
    SchedResources.v goes through. *)
Definition sharedResources (resources : nat -> Resources) (n : nat) (item : ArbitrageCombination)
    (class : workPermitClass) (takeSlot : bool) : bool :=
  match tryAcquireExecutionResources item false class takeSlot (resources n) with
  | (Some _, _, _) => true
  | (None, _, _) => false
  end.

(** ** Pure rules *)

Definition retryTimerDelay (at_ now : GoTime) : option Duration :=
  if IsZeroTime at_ || TimeEqual at_ unixEpoch || (year9999 <=? at_) || negb (TimeAfter at_ now) then None
  else Some (TimeSub at_ now).

Definition retryReady (at_ now : GoTime) : bool :=
  negb (IsZeroTime at_) && negb (TimeEqual at_ unixEpoch) && (at_ <? year9999) && negb (TimeAfter at_ now).

(** [!at.IsZero() && !at.Equal(epoch) && now.Before(at)] *)
Definition retryPending (at_ now : GoTime) : bool := timeSet at_ && TimeBefore now at_.

Definition arbitrageTradingLocked (c : ArbitrageCombination) : bool :=
  c_CircuitOpen c || c_PositionUncertain c || (c_RuntimeState c =?s "manual_intervention") || (c_RuntimeState c =?s "position_uncertain").

Definition arbitrageActiveResumeBlocked (c : ArbitrageCombination) : bool :=
  c_CircuitOpen c || c_PositionUncertain c || (c_RuntimeState c =?s "manual_intervention") || (c_RuntimeState c =?s "position_uncertain").

Definition shouldPersistMarketSnapshot (force : bool) (lastPersist now : GoTime) : bool :=
  force || IsZeroTime lastPersist || (marketSnapshotPersistInterval <=? TimeSub now lastPersist).

Definition exchangeEnabled (values : option (gset string)) (exchangeName : string) : bool :=
  match values with None => true | Some enabled => bool_decide (ToLower (TrimSpace exchangeName) ∈ enabled) end.

Definition snapshotNeedsUrgent (rt : Runtime) (wasStale stale : bool) : bool :=
  let c := rt_combination rt in
  if wasStale || stale || c_MarketDataStale c then true
  else if EqualFold (c_Status c) "closing" then true
  else if existsb (String.eqb (c_RuntimeState c)) ["backoff"; "hedge_deferred_dust"; "position_uncertain"; "manual_intervention"]%string then true
  else IsZeroTime (rt_lastPersist rt).

(** [applyArbitrageMarketSnapshot]: the combination, and whether it is to be
    loaded again. *)
Definition applyArbitrageMarketSnapshot (c : ArbitrageCombination) (s : arbitrageMarketSnapshot) : ArbitrageCombination * bool :=
  let previousVersion := c_Version c in
  let c := c <| c_CurrentAskSpreadBps := sn_CurrentAskSpreadBps s |> <| c_CurrentBidSpreadBps := sn_CurrentBidSpreadBps s |>
             <| c_MarketDataStale := sn_MarketDataStale s |> <| c_RuntimeState := sn_RuntimeState s |>
             <| c_Status := sn_Status s |> <| c_UpdatedAt := sn_UpdatedAt s |> in
  if (sn_Version s =? previousVersion) then (c <| c_Version := sn_Version s |>, false) else (c, true).

Definition snapshotFromBatchItem (i : arbitrageMarketSnapshotBatchItem) : arbitrageMarketSnapshot :=
  mkSnapshot (bi_AskSpread i) (bi_BidSpread i) (bi_MarketDataStale i) (bi_RuntimeState i) (bi_Status i) (bi_Version i) (bi_UpdatedAt i).

(** The columns [UpdateArbitrageMarketSnapshot] returns of the row. *)
Definition snapshotOf (c : ArbitrageCombination) : arbitrageMarketSnapshot :=
  mkSnapshot (c_CurrentAskSpreadBps c) (c_CurrentBidSpreadBps c) (c_MarketDataStale c) (c_RuntimeState c) (c_Status c) (c_Version c) (c_UpdatedAt c).

Definition requestOneShotExitAt (version : Z) (reason : string) (rt : Runtime) : Runtime :=
  if c_OneShotPhase (rt_combination rt) =?s "exiting" then rt
  else rt <| rt_exitRequest := mkExitRequest true version reason |>.

Definition requestOneShotExit (reason : string) (rt : Runtime) : Runtime :=
  requestOneShotExitAt (c_Version (rt_combination rt)) reason rt.

Definition oneShotShouldStopOpen (rt : Runtime) : bool :=
  let c := rt_combination rt in
  if negb (EqualFold (c_RunMode c) "one_shot") then false
  else if (c_OneShotPhase c =?s "exiting") || (c_OneShotPhase c =?s "exited") || (c_OneShotPhase c =?s "waiting_exit") then true
  else er_Requested (rt_exitRequest rt) && (er_Version (rt_exitRequest rt) =? c_Version c).

Definition refreshExitRequest (rt : Runtime) : Runtime :=
  if c_OneShotPhase (rt_combination rt) =?s "exiting" then rt
  else if er_Requested (rt_exitRequest rt) && negb (er_Version (rt_exitRequest rt) =? c_Version (rt_combination rt))
  then rt <| rt_exitRequest := noExitRequest |> else rt.

Definition oneShotDustRetryInterval (controlInterval : Duration) : Duration :=
  let interval := if controlInterval <? Second then Second else controlInterval in
  if 5 * Second <? interval then 5 * Second else interval.

(** One leg of [applyArbitrageLegValuations]: the mid price and its time. *)
Definition legValuation {D : Type} `{!Decimal D} (ok : bool) (bid ask : D) (updatedAt now : GoTime) : string * GoTime :=
  let mid := dDiv (dAdd bid ask) (dNewFromInt 2) in
  if ok && dIsPositive mid then (dString mid, if IsZeroTime updatedAt then now else updatedAt) else ("", zeroTime)%string.

(** ** The loop's computations *)

(** A computation on the state of a loop. *)
Definition R (D A : Type) : Type := Runtime -> M D (A * Runtime).
Definition pure {D A} (a : A) : R D A := fun rt => ret (a, rt).
Definition rbind {D A B} (m : R D A) (k : A -> R D B) : R D B := fun rt => bind (m rt) (fun '(a, rt') => k a rt').
Notation "'let*' x ':=' m 'in' k" := (rbind m (fun x => k))
  (at level 10, x pattern, m at level 100, k at level 200) : go_scope.
Definition lift {D A} (m : M D A) : R D A := fun rt => do a <- m; ret (a, rt).
Definition getRuntime {D} : R D Runtime := fun rt => ret (rt, rt).
Definition setRuntime {D} (f : Runtime -> Runtime) : R D unit := fun rt => ret (tt, f rt).
Definition setCombination {D} (c : ArbitrageCombination) : R D unit := setRuntime (fun rt => rt <| rt_combination := c |>).
Definition record {D} (e : RuntimeEvent) : R D unit := setRuntime (fun rt => rt <| rt_log := rt_log rt ++ [e] |>).

(** What [observeAndPersistMarket] found: both quotes, their prices when both
    are fresh, and the spreads when they could be computed. *)
Record Market (D : Type) := mkMarket {
  mk_bboA : BBO;
  mk_bboB : BBO;
  mk_prices : option ((D * D) * (D * D));
  mk_spreads : option (D * D)
}.
Arguments mkMarket {D}.
Arguments mk_bboA {D}.
Arguments mk_bboB {D}.
Arguments mk_prices {D}.
Arguments mk_spreads {D}.

Section Scheduler.
Context {D : Type} `{!Decimal D} `{!Postgres D} `{!Env D} `{svc : !Services} `{uu : !Uuids} `{cfg : !SchedulerConfig} `{sur : !Surroundings D} `{rn : !Runner D}.
Local Open Scope dec_scope.

Definition now : R D GoTime := lift timeNow.
Definition combination : R D ArbitrageCombination := let* rt := getRuntime in pure (rt_combination rt).

(** [runtime.executionRunning.Load()]: a goroutine that has ended has cleared
    the flag. *)
Definition executionRunning : R D bool :=
  let* n := lift tick in
  let* rt := getRuntime in
  if rt_executionRunning rt && jobEnds n then
    let* _ := setRuntime (fun rt => rt <| rt_executionRunning := false |> <| rt_recoveryRunning := false |>
                             <| rt_log := rt_log rt ++ [Finished] |>) in
    pure false
  else pure (rt_executionRunning rt).

(** [runtime.recoveryRunning.Load()]: cleared before the other flag. *)
Definition recoveryRunning : R D bool :=
  let* n := lift tick in
  let* rt := getRuntime in
  if rt_recoveryRunning rt && recoveryEnds n then let* _ := setRuntime (fun rt => rt <| rt_recoveryRunning := false |>) in pure false
  else pure (rt_recoveryRunning rt).

(** [a || b] of two loads. *)
Definition orElse (m k : R D bool) : R D bool := let* b := m in if b then pure true else k.

Definition catalog (id : Z) : R D (Result Instrument) := lift (callCatalog id).

(** Both instruments, or the first error. *)
Definition instruments (c : ArbitrageCombination) : R D (Result (Instrument * Instrument)) :=
  if negb sg_catalog then pure (Err errInstrumentUnavailable)
  else
    let* a := catalog (l_InstrumentID (c_LegA c)) in
    let* b := catalog (l_InstrumentID (c_LegB c)) in
    pure (match a, b with Ok iA, Ok iB => Ok (iA, iB) | Err e, _ => Err e | _, Err e => Err e end).

Definition signalBBOTooOld (bboA bboB : BBO) : R D bool :=
  let* t := now in pure (Stale bboA t sg_signalBBOStale || Stale bboB t sg_signalBBOStale).
Definition rejectStaleSignal (bboA bboB : BBO) : R D bool := signalBBOTooOld bboA bboB.

Definition combinationEnabled (c : ArbitrageCombination) : bool :=
  exchangeEnabled sg_enabledVenues (l_Exchange (c_LegA c)) && exchangeEnabled sg_enabledVenues (l_Exchange (c_LegB c)).

(** *** Resources and goroutines *)

(** [tryAcquireExecutionResources]: slot, permit and capacity, then the
    compare-and-swap of the running flag. *)
Definition acquireForWork (class : workPermitClass) (takeSlot : bool) : R D bool :=
  let* n := lift tick in
  let* c := combination in
  if negb (resourcesGranted n c class takeSlot) then pure false
  else
    let* running := executionRunning in
    if running then pure false
    else
      let* _ := setRuntime (fun rt => rt <| rt_executionRunning := true |> <| rt_log := rt_log rt ++ [Acquired class takeSlot] |>) in
      pure true.

(** [releaseExecutionResources] by the loop itself. *)
Definition releaseAcquired : R D unit :=
  setRuntime (fun rt => rt <| rt_executionRunning := false |> <| rt_log := rt_log rt ++ [Released] |>).

(** [go func ... ]: the goroutine owns the resources from here on. *)
Definition spawn (j : Job) : R D unit := record (Spawned j).

Definition resumeWithoutMarketData : R D bool :=
  let* busy := orElse executionRunning recoveryRunning in
  if busy || negb sg_runner then orElse executionRunning recoveryRunning
  else
    let* c := combination in
    let* r := lift (GetActiveArbitrageExecution (c_ID c)) in
    match r with
    | Err e => pure (negb (errorsIs e ErrNotFound))
    | Ok x =>
        let* ok := acquireForWork workPermitUrgent false in
        if negb ok then pure true
        else
          let* _ := setRuntime (fun rt => rt <| rt_recoveryRunning := true |>) in
          let* _ := spawn (RecoverWithoutMarketData c x) in
          pure true
    end.

Definition resumeActiveWithState (bboA bboB : BBO) (allowIntervention : bool) : R D bool :=
  let* running := executionRunning in
  let* c := combination in
  if running then pure true
  else if negb allowIntervention && arbitrageActiveResumeBlocked c then pure true
  else
    let* r := lift (GetActiveArbitrageExecution (c_ID c)) in
    match r with
    | Err e => pure (negb (errorsIs e ErrNotFound))
    | Ok x =>
        let* t := now in
        if retryPending (c_NextRetryAt c) t then pure true
        else if negb sg_runner then pure true
        else
          let* ok := acquireForWork workPermitUrgent true in
          if negb ok then pure true else let* _ := spawn (ExecuteActive c x bboA bboB) in pure true
    end.
Definition resumeActive (bboA bboB : BBO) : R D bool := resumeActiveWithState bboA bboB false.
Definition resumeActiveForIntervention (bboA bboB : BBO) : R D bool := resumeActiveWithState bboA bboB true.

Definition lockedSafeHedgeResume (c : ArbitrageCombination) (x : ArbitrageExecution) : bool :=
  if (c_RuntimeState c =?s "maker_open") || (c_RuntimeState c =?s "repricing") then false
  else let '(makerFilled, _, remaining) := makerHedgeRemaining (D := D) c x in dIsPositive makerFilled && dIsPositive remaining.

Definition resumeLockedSafe (bboA bboB : BBO) (bothFresh : bool) : R D unit :=
  let* busy := orElse executionRunning recoveryRunning in
  let* c := combination in
  if busy then pure tt
  else if circuitOpenManualHotPathSuppressed c then pure tt
  else
    let* r := lift (GetActiveArbitrageExecution (c_ID c)) in
    match r with
    | Err _ => pure tt
    | Ok x =>
        if lastCloseClipLockedResumeEligible c x then let* _ := resumeWithoutMarketData in pure tt
        else if bothFresh && lockedSafeHedgeResume c x then let* _ := resumeActiveForIntervention bboA bboB in pure tt
        else if arbitrageFlattening c then pure tt
        else let* _ := resumeWithoutMarketData in pure tt
    end.

(** *** The copy of the row *)

(** [(stop, refreshed)] *)
Definition liveStatus (status : string) : bool := (status =?s "running") || (status =?s "closing").

Definition reloadCombination : R D (bool * bool) :=
  let* c := combination in
  let* r := lift (GetArbitrageCombinationByOwner (c_OwnerUsername c) (c_ID c)) in
  match r with
  | Err e => pure (errorsIs e ErrNotFound, false)
  | Ok item =>
      let* _ := setRuntime (fun rt =>
        let rt := rt <| rt_combination := item |> in
        if negb (c_OneShotPhase item =?s "exiting") && er_Requested (rt_exitRequest rt) &&
           negb (er_Version (rt_exitRequest rt) =? c_Version item)%Z
        then rt <| rt_exitRequest := noExitRequest |> else rt) in
      pure (negb (liveStatus (c_Status item)), true)
  end.

Definition summaryUnchanged (s : arbitrageControlSummary) (c : ArbitrageCombination) : bool :=
  (cs_Version s =? c_Version c)%Z && (cs_Status s =?s c_Status c) && (cs_RuntimeState s =?s c_RuntimeState c).

Definition refreshFrom (s : arbitrageControlSummary) : R D (bool * bool) :=
  let* c := combination in
  if negb (liveStatus (cs_Status s)) then pure (true, false)
  else if summaryUnchanged s c then pure (false, false)
  else reloadCombination.

Definition refreshCombinationMode (periodic : bool) : R D (bool * bool) :=
  let* n := lift tick in
  let* c := combination in
  match (if periodic then controlProbeAt n else None) with
  | Some probe =>
      if cp_ready probe then
        if cp_queryFailed probe then pure (false, false)
        else if cp_missing probe then pure (true, false)
        else refreshFrom (cp_summary probe)
      else
        let* r := lift (GetArbitrageControlSummary (c_ID c)) in
        match r with Err e => pure (errorsIs e ErrNotFound, false) | Ok s => refreshFrom s end
  | None =>
      let* r := lift (GetArbitrageControlSummary (c_ID c)) in
      match r with Err e => pure (errorsIs e ErrNotFound, false) | Ok s => refreshFrom s end
  end.
Definition refreshCombination : R D (bool * bool) := refreshCombinationMode false.
Definition refreshCombinationPeriodic : R D (bool * bool) := refreshCombinationMode true.

(** *** Requests to exit *)

(** [SignalOneShotExit] may have come before any of the loop's accesses to
    the request. *)
Definition receiveExitSignal : R D unit :=
  let* n := lift tick in
  match exitSignalAt n with
  | Some (version, reason) => setRuntime (requestOneShotExitAt version reason)
  | None => pure tt
  end.
Definition refreshExit : R D unit := let* _ := receiveExitSignal in setRuntime refreshExitRequest.
Definition shouldStopOpen : R D bool :=
  let* _ := receiveExitSignal in
  let* rt := getRuntime in
  pure (oneShotShouldStopOpen rt).

(** *** Quotes and snapshots *)

Definition freshLegQuote (bbo : BBO) (err : option GoError) (t : GoTime) : option (D * D) :=
  match err with
  | Some _ => None
  | None =>
      match dNewFromString (D := D) (b_BidPrice bbo), dNewFromString (D := D) (b_AskPrice bbo) with
      | Some bid, Some ask =>
          if negb (dIsPositive bid) || negb (dIsPositive ask) then None
          else
            let staleAfter := if (sg_signalBBOStale <=? 0)%Z then defaultSignalBBOStale else sg_signalBBOStale in
            if Stale bbo t staleAfter then None else Some (bid, ask)
      | _, _ => None
      end
  end.

Definition legQuote (leg : string) : R D (BBO * option GoError) := let* n := lift tick in pure (legLatest n leg).

Definition applyArbitrageLegValuations (id : string) (a b : option (D * D)) (updatedA updatedB : GoTime) : R D unit :=
  let* t := now in
  setRuntime (fun rt =>
    let current := default zero_ArbitrageValuation (rt_valuations rt !! id) in
    let '(midA, atA) := match a with Some (bid, ask) => legValuation true bid ask updatedA t | None => legValuation false dZero dZero updatedA t end in
    let '(midB, atB) := match b with Some (bid, ask) => legValuation true bid ask updatedB t | None => legValuation false dZero dZero updatedB t end in
    rt <| rt_valuations := <[id := mkValuation midA midB atA atB]> (rt_valuations rt) |>).

(** The write goes to the batcher when nothing is urgent. *)
Definition submitSnapshot (ask bid : string) (seq : Z) : R D bool :=
  let* rt := getRuntime in
  let c := rt_combination rt in
  let expectedAt := if IsZeroTime (rt_lastSnapshotUpdatedAt rt) then c_UpdatedAt c else rt_lastSnapshotUpdatedAt rt in
  let* _ := setRuntime (fun rt => rt <| rt_snapshotInFlightSeq := seq |>) in
  let* _ := record (SnapshotSubmitted (mkSnapshotWrite (c_ID c) ask bid (c_Version c) expectedAt seq) (rt_generation rt)) in
  pure false.

(** The write by the loop itself. *)
Definition writeSnapshot (ask bid : string) (stale urgent : bool) (seq : Z) (t : GoTime) : R D bool :=
  let* c := combination in
  let* r := lift (UpdateArbitrageMarketSnapshot (c_ID c) ask bid stale) in
  match r with
  | Err _ =>
      let* _ := (if urgent then pure tt
                 else setRuntime (fun rt => rt <| rt_nextSnapshotAttemptAt := TimeAdd t marketSnapshotPersistInterval |>)) in
      pure false
  | Ok row =>
      let updated := snapshotOf row in
      let '(item, requiresReload) := applyArbitrageMarketSnapshot c updated in
      let* _ := setRuntime (fun rt => rt <| rt_combination := item |> <| rt_lastPersist := t |>
                   <| rt_lastSnapshotUpdatedAt := sn_UpdatedAt updated |> <| rt_lastAppliedSnapshotSeq := seq |>
                   <| rt_nextSnapshotAttemptAt := zeroTime |>) in
      if requiresReload then let* (stop, _) := refreshCombination in pure stop else pure false
  end.

Definition persistMarketSnapshot (ask bid : string) (stale wasStale : bool) : R D bool :=
  let* t := now in
  let* rt := getRuntime in
  let urgent := snapshotNeedsUrgent rt wasStale stale in
  if negb (shouldPersistMarketSnapshot (wasStale || stale) (rt_lastPersist rt) t) then pure false
  else if negb urgent && negb (IsZeroTime (rt_nextSnapshotAttemptAt rt)) && TimeBefore t (rt_nextSnapshotAttemptAt rt) then pure false
  else if negb urgent && negb (rt_snapshotInFlightSeq rt =? 0)%Z then pure false
  else
    let seq := (rt_snapshotSequence rt + 1)%Z in
    let* _ := setRuntime (fun rt => rt <| rt_snapshotSequence := seq |>) in
    if negb urgent && sg_batchersStarted then submitSnapshot ask bid seq else writeSnapshot ask bid stale urgent seq t.

Definition observeAndPersistMarket : R D (Market D * bool) :=
  let* t := now in
  let* (bboA, errA) := legQuote "a" in
  let* (bboB, errB) := legQuote "b" in
  let* _ := setRuntime (fun rt => rt <| rt_latestA := bboA |> <| rt_latestB := bboB |>
               <| rt_hasA := match errA with None => true | Some _ => false end |>
               <| rt_hasB := match errB with None => true | Some _ => false end |>) in
  let a := freshLegQuote bboA errA t in
  let b := freshLegQuote bboB errB t in
  let* c := combination in
  let* _ := applyArbitrageLegValuations (c_ID c) a b (b_ReceiveTimestamp bboA) (b_ReceiveTimestamp bboB) in
  let prices := match a, b with Some a, Some b => Some (a, b) | _, _ => None end in
  let spreads := match prices with
                 | Some ((aBid, aAsk), (bBid, bAsk)) => executableArbitrageSpreads c aBid aAsk bBid bAsk
                 | None => None
                 end in
  let '(askSpread, bidSpread) := match spreads with
                                 | Some (ask, bid) => (dString ask, dString bid)
                                 | None => (c_CurrentAskSpreadBps c, c_CurrentBidSpreadBps c)
                                 end in
  let stale := match prices with Some _ => false | None => true end in
  let wasStale := c_MarketDataStale c in
  let* _ := setCombination (c <| c_CurrentAskSpreadBps := askSpread |> <| c_CurrentBidSpreadBps := bidSpread |> <| c_MarketDataStale := stale |>) in
  let* stop := persistMarketSnapshot askSpread bidSpread stale wasStale in
  pure (mkMarket bboA bboB prices spreads, stop).

(** *** Closing and manual intervention *)

Definition closeFlattenTinyOwnedPrecheck (c : ArbitrageCombination) (bboA bboB : BBO) : R D bool :=
  let* answer := instruments c in
  match answer with
  | Err _ => pure false
  | Ok (iA, iB) =>
      let* t := now in
      let stale := if (sg_signalBBOStale <=? 0)%Z then defaultSignalBBOStale else sg_signalBBOStale in
      pure (closeFlattenTinyOwnedPositions (D := D) t (mkTinyOwned c iA iB bboA bboB t zeroTime false stale))
  end.

Definition appendEvent (id executionID eventType : string) : R D unit :=
  let* _ := lift (AppendArbitrageEvent id executionID eventType) in pure tt.

Definition markFlattenManualIntervention (reason : string) : R D unit :=
  let* c := combination in
  if (c_RuntimeState c =?s "manual_intervention") || c_PositionUncertain c then pure tt
  else
    let item := c <| c_RuntimeState := "manual_intervention"%string |> <| c_ErrorMessage := reason |> in
    let* r := lift (UpdateArbitrageCombinationRuntime item) in
    match r with
    | Err _ => pure tt
    | Ok updated =>
        let* _ := setCombination updated in
        appendEvent (c_ID item) "" "flatten_manual_intervention"
    end.

(** The key a failed close is counted under. *)
Definition closeFailureKey (c : ArbitrageCombination) (e : GoError) : string :=
  if c_LastFailureKey c =?s lastClipHedgeMinNotionalFailureKey then lastClipHedgeMinNotionalFailureKey
  else if errorsIs e ErrCloseOrderOpen then "close_order_open"
  else if errorsIs e ErrCloseOrderUncertain then "close_order_uncertain"
  else if errorsIs e ErrFinalMetricsNotReady then finalMetricsNotReadyKey
  else if errorsIs e ErrFinalMetricsPersist then finalMetricsPersistKey
  else "close_internal".

Definition recordCloseFailureOf (key message : string) : R D unit :=
  let* c := combination in
  let* r := lift (RecordArbitrageCloseFailure (c_ID c) key message) in
  match r with Ok updated => setCombination updated | Err _ => pure tt end.

(** The executor closes, and the row is read again. *)
Definition runClose : R D bool :=
  let* c := combination in
  let* err := (if sg_runner then lift (runnerCloseCombination c) else pure None) in
  match err with
  | Some e =>
      if errorsIs e ErrArbitrageCloseWaitingSnapshot then pure false
      else let* _ := recordCloseFailureOf (closeFailureKey c e) (sanitizeError e) in pure false
  | None =>
      let* r := lift (GetArbitrageCombinationByOwner (c_OwnerUsername c) (c_ID c)) in
      let* _ := (match r with Ok item => setCombination item | Err _ => pure tt end) in
      let* c := combination in
      pure (negb (EqualFold (c_Status c) "closing"))
  end.

Definition closeCombination : R D bool :=
  let* rt := getRuntime in
  let c := rt_combination rt in
  if negb (c_Status c =?s "closing") then pure false
  else
    let* may := (if combinationLooksFlat (D := D) c then pure true
                 else closeFlattenTinyOwnedPrecheck c (rt_latestA rt) (rt_latestB rt)) in
    if negb may then pure false
    else
      let* recovering := recoveryRunning in
      if recovering then pure false
      else
        let* t := now in
        if TimeAfter (c_NextRetryAt c) t then pure false else runClose.

Definition oneShotExitedVenueReady : R D bool :=
  let* c := combination in
  let* r := lift (ListArbitrageOrders (c_OwnerUsername c) (c_ID c)) in
  match r with
  | Err _ => pure false
  | Ok orders =>
      if negb (existsb hasFlattenKey orders) then pure true
      else
        let* answer := instruments c in
        match answer with
        | Err _ => pure false
        | Ok (iA, iB) => pure (oneShotFinalFlattenReconcileReady (D := D) c orders "" iA iB)
        end
  end.

Definition finalizeFlattening : R D bool :=
  let* c := combination in
  if negb (combinationLooksFlat (D := D) c) then pure false
  else if EqualFold (c_Status c) "closing" then closeCombination
  else if negb (EqualFold (c_RunMode c) "one_shot") || negb (c_OneShotPhase c =?s "exiting") then pure false
  else
    let* ready := oneShotExitedVenueReady in
    if negb ready then pure false
    else
      let* r := lift (MarkOneShotExited (c_ID c) (c_Version c)) in
      let* _ := (match r with Ok (updated, true) => setCombination updated | _ => pure tt end) in
      pure false.

(** *** The phases of a one-shot combination *)

Definition maybeMarkOneShotTimeExiting (t : GoTime) : R D unit :=
  let* c := combination in
  if negb (EqualFold (c_RunMode c) "one_shot") || negb (c_Status c =?s "running") then pure tt
  else if negb (c_OneShotPhase c =?s "waiting_exit") && negb (c_OneShotPhase c =?s "building_target") then pure tt
  else if negb (timeSet (c_ScheduledExitAt c)) || TimeBefore t (c_ScheduledExitAt c) then pure tt
  else
    let* _ := setRuntime (requestOneShotExit "time") in
    let* _ := receiveExitSignal in
    let* rt := getRuntime in
    let* r := lift (MarkOneShotExiting (c_ID c) (er_Version (rt_exitRequest rt)) "time") in
    match r with
    | Ok (updated, true) => setCombination updated
    | _ => refreshExit
    end.

Definition evaluateRuntimeOneShotDust (remaining : D) (bboA bboB : BBO) (phase : string) : R D oneShotDustVerdict :=
  let* c := combination in
  let* gate := lift (ArbitrageDustOrderGate (c_ID c) (c_LastPositionReconciledAt c)) in
  let* answer := instruments c in
  let '(iA, iB, instrumentErr) := match answer with Ok (iA, iB) => (iA, iB, false) | Err _ => (zero_Instrument, zero_Instrument, true) end in
  let '(live, unreconciled, liveExecution, gateErr) :=
    match gate with Ok (a, b, x) => (a, b, x, false) | Err _ => (false, false, false, true) end in
  let legA : D := parseDecimal (c_LegABasePosition c) in
  let legB : D := parseDecimal (c_LegBBasePosition c) in
  let '(priceA, priceB) :=
    if phase =?s "exiting" then
      if negb (dIsZero legA) then (closeFlattenOwnedExecutablePrice legA bboA, dZero)
      else if negb (dIsZero legB) then (dZero, closeFlattenOwnedExecutablePrice legB bboB)
      else carryClosePrices (parseDecimal (c_CarryBaseQuantity c)) bboA bboB
    else carryClosePrices (parseDecimal (c_CarryBaseQuantity c)) bboA bboB in
  let* running := executionRunning in
  pure (evaluateOneShotDust (mkDustInput c remaining phase iA iB instrumentErr priceA priceB live unreconciled liveExecution gateErr running)).

Definition applyOneShotWaitingExit (withDust : bool) : R D unit :=
  let* c := combination in
  let* scheduled := (if (c_ExitPolicy c =?s "time") && (0 <? c_ExitAfterSeconds c)%Z
                     then let* t := now in pure (TimeAdd t (wrap64 (c_ExitAfterSeconds c * Second)%Z)) else pure zeroTime) in
  let* r := lift (MarkOneShotWaitingExit (c_ID c) (c_Version c) scheduled) in
  match r with
  | Ok (updated, true) =>
      let* _ := setCombination updated in
      let* _ := (if sg_lifecycle then record (RefreshRequested updated "waiting_exit") else pure tt) in
      if withDust then appendEvent (c_ID updated) "" "one_shot_target_reached_with_dust" else pure tt
  | _ => pure tt
  end.

Definition maybeMarkOneShotWaitingExit (remaining : D) : R D unit :=
  let* rt := getRuntime in
  let c := rt_combination rt in
  if negb (EqualFold (c_RunMode c) "one_shot") || negb (c_OneShotPhase c =?s "building_target") || negb (c_Status c =?s "running") then pure tt
  else if remaining >=? dNewFromInt arbitrageMinOpenNotional then pure tt
  else
    let* blocked := (if c_PositionUncertain c then pure true
                     else orElse executionRunning (pure (c_CircuitOpen c || (c_RuntimeState c =?s "manual_intervention")))) in
    if blocked || negb (timeSet (c_LastPositionReconciledAt c)) then pure tt
    else
      let legA : D := parseDecimal (c_LegABasePosition c) in
      let legB : D := parseDecimal (c_LegBBasePosition c) in
      if dIsZero (parseDecimal (D := D) (c_CarryBaseQuantity c)) then
        let* gate := lift (ArbitrageDustOrderGate (c_ID c) (c_LastPositionReconciledAt c)) in
        match gate with
        | Ok (false, false, false) =>
            if dIsZero legA || dIsZero legB || (dSign legA =? dSign legB)%Z then pure tt else applyOneShotWaitingExit false
        | _ => pure tt
        end
      else
        let* verdict := evaluateRuntimeOneShotDust remaining (rt_latestA rt) (rt_latestB rt) "building_target" in
        match verdict with oneShotDustAccepted => applyOneShotWaitingExit true | _ => pure tt end.

(** The remaining notional at the mid prices of two quotes. *)
Definition remainingAt (c : ArbitrageCombination) (aBid aAsk bBid bAsk : D) : D :=
  remainingDirectionNotional (parseDecimal (c_LegABasePosition c)) (parseDecimal (c_LegBBasePosition c))
    (default dZero (dNewFromString (c_TargetNotional c))) ((aBid + aAsk) / dNewFromInt 2) ((bBid + bAsk) / dNewFromInt 2).

Definition maybePromoteOneShotWaitingExit (force : bool) : R D unit :=
  let* c := combination in
  if negb (EqualFold (c_RunMode c) "one_shot") || negb (c_OneShotPhase c =?s "building_target") || negb (c_Status c =?s "running") then pure tt
  else
    let* (bboA, errA) := legQuote "a" in
    let* (bboB, errB) := legQuote "b" in
    match errA, errB with
    | None, None =>
        let* _ := setRuntime (fun rt => rt <| rt_latestA := bboA |> <| rt_latestB := bboB |> <| rt_hasA := true |> <| rt_hasB := true |>) in
        match dNewFromString (b_BidPrice bboA), dNewFromString (b_AskPrice bboA), dNewFromString (b_BidPrice bboB), dNewFromString (b_AskPrice bboB) with
        | Some aBid, Some aAsk, Some bBid, Some bAsk =>
            let remaining := remainingAt c aBid aAsk bBid bAsk in
            if remaining >=? dNewFromInt arbitrageMinOpenNotional then pure tt
            else
              let* t := now in
              let* rt := getRuntime in
              if negb force && negb (IsZeroTime (rt_lastDustCheckAt rt)) &&
                 (TimeSub t (rt_lastDustCheckAt rt) <? oneShotDustRetryInterval sg_controlInterval)%Z then pure tt
              else
                let* _ := setRuntime (fun rt => rt <| rt_lastDustCheckAt := t |>) in
                maybeMarkOneShotWaitingExit remaining
        | _, _, _, _ => pure tt
        end
    | _, _ => pure tt
    end.

Definition markOneShotExitedWithDust : R D unit :=
  let* c := combination in
  let* r := lift (MarkOneShotExitedWithDust (c_ID c) (c_Version c) (c_LegABasePosition c) (c_LegBBasePosition c) (c_CarryBaseQuantity c)) in
  match r with Ok (updated, true) => setCombination updated | _ => pure tt end.

Definition handleOneShotExitingLeftover (bboA bboB : BBO) (source : string) : R D bool :=
  let* c := combination in
  let '(_, residualNotional, single) := oneShotLeftoverResidual (D := D) c bboA bboB in
  if source =?s "bbo_event" then
    let* _ := (if single && (residualNotional >=? dNewFromInt arbitrageMinOpenNotional)
               then markFlattenManualIntervention arbitrageUnpairedLegsManualReason else pure tt) in
    pure false
  else
    let* verdict := evaluateRuntimeOneShotDust dZero bboA bboB "exiting" in
    let* _ := (match verdict with
               | oneShotDustAccepted => markOneShotExitedWithDust
               | oneShotDustUnsafe => markFlattenManualIntervention arbitrageUnpairedLegsManualReason
               | oneShotDustRetry => pure tt
               end) in
    pure false.

(** *** Claims *)

(** Resources, a last look at the age of the quotes, and the claim [ask] makes
    of the store; the goroutine starts only with a claimed execution. *)
Definition claimWith (x : ArbitrageExecution) (ask : M D (Result (ArbitrageExecution * bool))) (eventType : string) (bboA bboB : BBO) : R D unit :=
  let* ok := acquireForWork workPermitNewExecution true in
  if negb ok then pure tt
  else
    let* t := now in
    if Stale bboA t sg_signalBBOStale || Stale bboB t sg_signalBBOStale then releaseAcquired
    else
      let* c := combination in
      let* _ := record (Claiming c x bboA bboB t) in
      let* r := lift ask in
      match r with
      | Ok (claimed, true) =>
          if negb sg_runner then releaseAcquired
          else
            let* _ := appendEvent (c_ID c) (x_ID claimed) eventType in
            spawn (ExecuteClaimed c claimed bboA bboB)
      | _ => releaseAcquired
      end.

Definition newID : R D string := let* n := lift tick in pure (newUUID n).

Definition claimOneShotFinalFlatten (bboA bboB : BBO) (aBid aAsk bBid bAsk : D) : R D bool :=
  let* c := combination in
  if negb (oneShotRunningExiting c) then pure false
  else
    let* answer := instruments c in
    match answer with
    | Err _ => pure false
    | Ok (iA, iB) =>
        let* t := now in
        if negb (oneShotFinalFlattenReady (D := D) c iA iB bboA bboB t) then pure false
        else if sg_dryRun then pure true
        else
          let* id := newID in
          match finalFlattenClaim id c (planOwnedFlattenLegs (D := D) c iA iB) bboA bboB aBid aAsk bBid bAsk with
          | None => pure true
          | Some claim =>
              let* _ := claimWith (fc_Execution claim) (ClaimOneShotFinalFlattenExecution claim) oneShotFinalFlattenStartedEvent bboA bboB in
              pure true
          end
    end.

(** The execution [claimSizedExecution] asks for. *)
Definition sizedExecution (id : string) (c : ArbitrageCombination) (plan : arbitrageSizePlan D) (direction : string)
    (aBid aAsk bBid bAsk ask bid : D) : ArbitrageExecution :=
  zero_ArbitrageExecution <| x_ID := id |> <| x_CombinationID := c_ID c |> <| x_Direction := direction |> <| x_Status := "claimed"%string |>
    <| x_TriggerAskSpread := dString ask |> <| x_TriggerBidSpread := dString bid |>
    <| x_TriggerLegABid := dString aBid |> <| x_TriggerLegAAsk := dString aAsk |>
    <| x_TriggerLegBBid := dString bBid |> <| x_TriggerLegBAsk := dString bAsk |>
    <| x_TargetBaseQuantity := dString (sp_TargetBaseQuantity plan) |> <| x_RequestedNotional := dString (sp_RequestedNotional plan) |>
    <| x_PositionEffect := sp_Effect plan |> <| x_ReduceOnly := sp_ReduceOnly plan |> <| x_LastCloseClip := sp_LastClip plan |>
    <| x_LegAFilledQuantity := "0"%string |> <| x_LegBFilledQuantity := "0"%string |> <| x_DeltaNotional := "0"%string |>.

(** No size could be found. *)
Definition unsized (c : ArbitrageCombination) (effect reason : string) (closeable : D) : R D bool :=
  if EqualFold effect "close" && dIsZero closeable then
    if arbitrageFlattening c then
      if combinationLooksFlat (D := D) c then finalizeFlattening
      else let* _ := markFlattenManualIntervention "no venue-reducible combination-owned paired position" in pure false
    else closeCombination
  else
    let* _ := (if EqualFold effect "close" && dIsPositive closeable && arbitrageFlattening c
               then let* _ := recordCloseFailureOf "close_size_unexecutable" reason in
                    let* c := combination in appendEvent (c_ID c) "" "close_size_unexecutable"
               else pure tt) in
    pure false.

(** The notional that can be closed, at the prices of the two sides. *)
Definition closeableAtQuotes (c : ArbitrageCombination) (bboA bboB : BBO) (aSide bSide : string) : D :=
  let base := arbitrageCloseableBase (D := D) c in
  let base := if arbitrageFlattening c then dMin base (arbitrageOwnedCloseableBase c) else base in
  if dIsPositive base
  then dMax (base * parsePositiveDecimal (bboPriceForSide bboA aSide)) (base * parsePositiveDecimal (bboPriceForSide bboB bSide))
  else dZero.

Definition claimSizedExecution (bboA bboB : BBO) (aBid aAsk bBid bAsk ask bid : D) (direction effect : string) (remaining : D) : R D bool :=
  let* c := combination in
  let* answer := instruments c in
  match answer, arbitrageLegSides direction with
  | Ok (iA, iB), Some (aSide, bSide) =>
      let closeable := closeableAtQuotes c bboA bboB aSide bSide in
      let* n := lift tick in
      match sizeArbitrageExecution c iA iB bboA bboB direction effect remaining closeable (sizeRandom n) with
      | inl reason => unsized c effect reason closeable
      | inr plan =>
          if sg_dryRun then
            let* rt := getRuntime in
            let* _ := (if rt_lastSignal rt =?s direction then pure tt else appendEvent (c_ID c) "" "dry_run_trigger") in
            let* _ := setRuntime (fun rt => rt <| rt_lastSignal := direction |>) in
            pure false
          else
            let* id := newID in
            let x := sizedExecution id c plan direction aBid aAsk bBid bAsk ask bid in
            let* _ := claimWith x (ClaimArbitrageExecution x) "sized" bboA bboB in
            pure false
      end
  | _, _ => pure false
  end.

(** *** Flattening *)

(** Nothing of the combination is under way and its close has no residual
    execution yet. *)
Definition residualFlattenStarts (c : ArbitrageCombination) (bboA bboB : BBO) : R D bool :=
  let* tiny := closeFlattenTinyOwnedPrecheck c bboA bboB in
  if negb tiny then pure false
  else if negb (residualFlattenDirectionAgrees (D := D) c) then pure false
  else
    let* orders := lift (ListArbitrageOrders (c_OwnerUsername c) (c_ID c)) in
    match orders with
    | Err _ => pure false
    | Ok orders =>
        let* executions := lift (ListArbitrageExecutions (c_ID c) 100) in
        match executions with
        | Err _ => pure false
        | Ok executions => pure (negb (residualFlattenBlockedByOtherWork (c_ID c) orders executions))
        end
    end.

Definition runResidualFlatten (c : ArbitrageCombination) (existing : option ArbitrageExecution) (bboA bboB : BBO) : R D unit :=
  let* busy := orElse executionRunning recoveryRunning in
  if busy then pure tt
  else
    let* direct := (match existing with
                    | Some x => if terminalArbitrageExecutionStatus (x_Status x)
                                then let* tiny := closeFlattenTinyOwnedPrecheck c bboA bboB in pure (negb tiny) else pure false
                    | None => pure false
                    end) in
    if negb sg_runner then pure tt
    else if direct then let* _ := lift (runnerResidualFlatten c bboA bboB) in pure tt
    else
      let* ok := acquireForWork workPermitUrgent true in
      if ok then spawn (RunLastCloseResidualFlatten c bboA bboB) else pure tt.

Definition routeLastCloseResidualFlatten (bboA bboB : BBO) : R D bool :=
  let* c := combination in
  if negb (EqualFold (TrimSpace (c_Status c)) "closing") || c_PositionUncertain c || c_CircuitOpen c ||
     (c_RuntimeState c =?s "manual_intervention") then pure false
  else if combinationLooksFlat (D := D) c then pure false
  else
    let* r := lift (GetLastCloseResidualFlattenExecution (c_ID c)) in
    match r with
    | Err _ => pure false
    | Ok existing =>
        let* goes := (match existing with Some _ => pure true | None => residualFlattenStarts c bboA bboB end) in
        if goes then let* _ := runResidualFlatten c existing bboA bboB in pure true else pure false
    end.

(** The legs are a pair: both are reduced by one execution. *)
Definition flattenPaired (bboA bboB : BBO) (aBid aAsk bBid bAsk : D) (direction : string) : R D bool :=
  let* c := combination in
  if negb (match arbitrageVenueReduceDirection (D := D) c with Some d => d =?s direction | None => false end) then
    let* _ := markFlattenManualIntervention "venue net position cannot reduce the combination-owned position" in pure false
  else if negb (dIsPositive (dMin (arbitrageOwnedCloseableBase (D := D) c) (arbitrageCloseableBase c))) then
    let* _ := markFlattenManualIntervention "no venue-reducible combination-owned paired position" in pure false
  else
    claimSizedExecution bboA bboB aBid aAsk bBid bAsk
      (default dZero (dNewFromString (c_CurrentAskSpreadBps c))) (default dZero (dNewFromString (c_CurrentBidSpreadBps c)))
      direction "close" dZero.

(** What is left to do once no execution is active. *)
Definition flattenRest (bboA bboB : BBO) (aBid aAsk bBid bAsk : D) (source : string) (owned : option string) (tinyOwnedClose : bool) : R D bool :=
  let* c := combination in
  if combinationLooksFlat (D := D) c then finalizeFlattening
  else
    let* tooOld := rejectStaleSignal bboA bboB in
    if tooOld then pure false
    else if tinyOwnedClose then closeCombination
    else
      let* claimed := claimOneShotFinalFlatten bboA bboB aBid aAsk bBid bAsk in
      if claimed then pure false
      else match owned with
           | Some direction => flattenPaired bboA bboB aBid aAsk bBid bAsk direction
           | None =>
               if oneShotRunningExiting c then handleOneShotExitingLeftover bboA bboB source
               else let* _ := markFlattenManualIntervention arbitrageUnpairedLegsManualReason in pure false
           end.

Definition flattenOrFinalizeClosingFrom (bboA bboB : BBO) (aBid aAsk bBid bAsk : D) (source : string) : R D bool :=
  let* _ := setRuntime (fun rt => rt <| rt_latestA := bboA |> <| rt_latestB := bboB |>) in
  let* c := combination in
  if arbitrageTradingLocked c then let* _ := resumeLockedSafe bboA bboB true in pure false
  else
    let* routed := routeLastCloseResidualFlatten bboA bboB in
    if routed then pure false
    else
      let* c := combination in
      let unpairedTiny := EqualFold (c_Status c) "closing" && (c_RuntimeState c =?s "manual_intervention") &&
                          (c_ErrorMessage c =?s arbitrageUnpairedLegsManualReason) && negb (c_PositionUncertain c) in
      let owned := arbitrageOwnedCloseDirection (D := D) c in
      let* tinyOwnedClose := (if EqualFold (c_Status c) "closing" then closeFlattenTinyOwnedPrecheck c bboA bboB else pure false) in
      let allowInterventionResume := unpairedTiny || (tinyOwnedClose && c_CircuitOpen c) in
      let* resumed := (if allowInterventionResume then resumeActiveForIntervention bboA bboB else pure false) in
      if resumed then pure false
      else
        let* t := now in
        if timeSet (c_NextRetryAt c) && TimeAfter (c_NextRetryAt c) t then pure false
        else
          let* resumed := (if allowInterventionResume then pure false else resumeActive bboA bboB) in
          if resumed then pure false
          else flattenRest bboA bboB aBid aAsk bBid bAsk source owned tinyOwnedClose.

(** *** Evaluation *)

(** The direction and effect of a signal, empty when there is none. *)
Definition signal (c : ArbitrageCombination) (ask bid venueNotional remaining : D) : option (string * string) :=
  if EqualFold (c_RunMode c) "one_shot" then
    if remaining <? dNewFromInt arbitrageMinOpenNotional then None else Some (c_EntryDirection c, "open"%string)
  else
    let direction := selectArbitragePositionDirection ask bid (default dZero (dNewFromString (c_AskThresholdBps c)))
                       (default dZero (dNewFromString (c_BidThresholdBps c))) venueNotional (default dZero (dNewFromString (c_TargetNotional c))) in
    Some (direction, if EqualFold direction "bid" then "close" else "open")%string.

(** Both quotes are fresh, nothing is active: a signal may open or close. *)
Definition evaluateSignal (m : Market D) (aBid aAsk bBid bAsk : D) (t : GoTime) : R D bool :=
  let* c := combination in
  match mk_spreads m with
  | None => pure false
  | Some (ask, bid) =>
      if negb (combinationEnabled c) || c_CircuitOpen c || (c_RuntimeState c =?s "manual_intervention") then pure false
      else if c_PositionUncertain c then pure false
      else if retryPending (c_NextRetryAt c) t then pure false
      else
        let* tooOld := rejectStaleSignal (mk_bboA m) (mk_bboB m) in
        if tooOld then pure false
        else
          let '(venueNotional, _, _) := arbitragePositionNotionals c ((aBid + aAsk) / dNewFromInt 2) ((bBid + bAsk) / dNewFromInt 2) in
          let remaining := remainingAt c aBid aAsk bBid bAsk in
          if EqualFold (c_RunMode c) "one_shot" && (c_OneShotPhase c =?s "waiting_exit") then pure false
          else match signal c ask bid venueNotional remaining with
               | None => pure false
               | Some (direction, effect) =>
                   if direction =?s "" then let* _ := setRuntime (fun rt => rt <| rt_lastSignal := ""%string |>) in pure false
                   else claimSizedExecution (mk_bboA m) (mk_bboB m) aBid aAsk bBid bAsk ask bid direction effect remaining
               end
  end.

(** The combination is neither locked nor flattening. *)
Definition evaluateTrading (m : Market D) (aBid aAsk bBid bAsk : D) (t : GoTime) (source : string) : R D bool :=
  let* _ := maybeMarkOneShotTimeExiting t in
  let* _ := refreshExit in
  let* stopOpen := shouldStopOpen in
  let* c := combination in
  if stopOpen && negb (arbitrageFlattening c) then let* _ := resumeActive (mk_bboA m) (mk_bboB m) in pure false
  else if arbitrageFlattening c then flattenOrFinalizeClosingFrom (mk_bboA m) (mk_bboB m) aBid aAsk bBid bAsk source
  else
    let* resumed := resumeActive (mk_bboA m) (mk_bboB m) in
    if resumed then pure false else evaluateSignal m aBid aAsk bBid bAsk t.

Definition evaluate (source : string) : R D bool :=
  let* c := combination in
  if negb (liveStatus (c_Status c)) then pure true
  else if EqualFold (c_Status c) "closing" && combinationLooksFlat (D := D) c then finalizeFlattening
  else if EqualFold (c_Status c) "running" && EqualFold (c_RunMode c) "one_shot" && (c_OneShotPhase c =?s "exited") then pure false
  else
    let* t := now in
    let* (m, stop) := observeAndPersistMarket in
    if stop then pure true
    else
      let* c := combination in
      if arbitrageTradingLocked c then
        let* _ := resumeLockedSafe (mk_bboA m) (mk_bboB m) (match mk_prices m with Some _ => true | None => false end) in pure false
      else match mk_prices m with
           | None => let* _ := resumeWithoutMarketData in pure false
           | Some ((aBid, aAsk), (bBid, bAsk)) =>
               if arbitrageFlattening c then flattenOrFinalizeClosingFrom (mk_bboA m) (mk_bboB m) aBid aAsk bBid bAsk source
               else evaluateTrading m aBid aAsk bBid bAsk t source
           end.

(** *** The control tick *)

Definition reconcileCircuitOpen : R D unit :=
  let* rt := getRuntime in
  let c := rt_combination rt in
  if negb sg_runner then pure tt
  else if negb (c_CircuitOpen c) || negb (c_Status c =?s "running") then pure tt
  else
    let* t := now in
    if negb (IsZeroTime (rt_lastCircuitOpenReconcileAt rt)) &&
       (TimeSub t (rt_lastCircuitOpenReconcileAt rt) <? circuitOpenReconcileInterval)%Z then pure tt
    else
      let* busy := orElse executionRunning recoveryRunning in
      if busy then pure tt
      else
        let* r := lift (GetActiveArbitrageExecution (c_ID c)) in
        if match r with Err e => negb (errorsIs e ErrNotFound) | Ok _ => false end then pure tt
        else
          let* ok := acquireForWork workPermitUrgent false in
          if negb ok then pure tt
          else
            let* _ := setRuntime (fun rt => rt <| rt_lastCircuitOpenReconcileAt := t |>) in
            spawn (ReconcileCircuitOpen c).

Definition maybeFinalizeConfirmedAbsent : R D unit :=
  let* running := executionRunning in
  let* rt := getRuntime in
  let c := rt_combination rt in
  if running || negb (confirmedAbsentFinalizeEligible c) then pure tt
  else
    let* t := now in
    if negb (IsZeroTime (rt_lastConfirmedAbsentFinalizeAt rt)) &&
       (TimeSub t (rt_lastConfirmedAbsentFinalizeAt rt) <? circuitOpenReconcileInterval)%Z then pure tt
    else
      let* r := lift (GetActiveArbitrageExecution (c_ID c)) in
      let* _ := setRuntime (fun rt => rt <| rt_lastConfirmedAbsentFinalizeAt := t |>) in
      match r with
      | Err _ => pure tt
      | Ok x =>
          let* answer := lift (sql (finalizeTransaction (x_ID x))) in
          match answer with
          | Ok confirmedAbsentFinalizeRecovered | Ok confirmedAbsentFinalizeCanceledExec => let* _ := refreshCombination in pure tt
          | _ => pure tt
          end
      end.

(** [(stop, refreshed)] *)
Definition handleControl : R D (bool * bool) :=
  let* (stop, refreshed) := refreshCombinationPeriodic in
  if stop then pure (true, refreshed)
  else
    let* c := combination in
    if arbitrageFlattening c then let* stop := evaluate "control_flatten" in pure (stop, refreshed)
    else if negb (c_Status c =?s "running") then pure (true, refreshed)
    else
      let* _ := reconcileCircuitOpen in
      let* _ := maybeFinalizeConfirmedAbsent in
      let* t := now in
      let* c := combination in
      if (c_RuntimeState c =?s "backoff") && retryReady (c_NextRetryAt c) t
      then let* stop := evaluate "control_retry" in pure (stop, refreshed)
      else
        let* (bboA, errA) := legQuote "a" in
        let* (bboB, errB) := legQuote "b" in
        match errA, errB with
        | None, None =>
            if c_MarketDataStale c then let* stop := evaluate "stale_recovered" in pure (stop, refreshed)
            else
              let* _ := setRuntime (fun rt => rt <| rt_latestA := bboA |> <| rt_latestB := bboB |> <| rt_hasA := true |> <| rt_hasB := true |>) in
              let* _ := resumeActive bboA bboB in
              let* _ := maybePromoteOneShotWaitingExit false in
              pure (false, refreshed)
        | _, _ => let* stop := evaluate "market_unavailable" in pure (stop, refreshed)
        end.

(** *** Leases and receipts *)

(** [true]: the lease is lost and the loop ends. *)
Definition renewLease : R D bool :=
  let* t := now in
  let* n := lift tick in
  let* rt := getRuntime in
  match leaseNoticeAt n with
  | Some notice =>
      if negb (ln_generation notice =? rt_generation rt)%Z then pure false
      else
        let* _ := setRuntime (fun rt => rt <| rt_renewPending := false |>) in
        if ln_failed notice || negb (ln_renewed notice) then pure true
        else let* _ := setRuntime (fun rt => rt <| rt_nextRenew := TimeAdd t (Z.quot sg_lease 3) |>) in pure false
  | None =>
      if TimeBefore t (rt_nextRenew rt) then pure false
      else if rt_renewPending rt then pure false
      else if sg_batchersStarted then
        let* _ := setRuntime (fun rt => rt <| rt_renewPending := true |>) in
        let* _ := record (LeaseSubmitted (c_ID (rt_combination rt)) (rt_generation rt)) in
        pure false
      else
        let* r := lift (RenewArbitrageLease (c_ID (rt_combination rt)) sg_lease) in
        match r with
        | Ok true => let* _ := setRuntime (fun rt => rt <| rt_nextRenew := TimeAdd t (Z.quot sg_lease 3) |>) in pure false
        | _ => pure true
        end
  end.

(** The row is read again, and with it the time later writes expect. *)
Definition reloadSnapshot : R D bool :=
  let* (stop, _) := reloadCombination in
  let* _ := (if stop then pure tt
             else setRuntime (fun rt => rt <| rt_lastSnapshotUpdatedAt := c_UpdatedAt (rt_combination rt) |>)) in
  pure stop.

(** A receipt that is due to this loop and not overtaken by a later write. *)
Definition applyReceipt (notice : snapshotFlushNotice) (t : GoTime) : R D bool :=
  let* c := combination in
  let item := fn_item notice in
  if fn_failed notice then
    let* _ := setRuntime (fun rt => rt <| rt_nextSnapshotAttemptAt := TimeAdd t marketSnapshotPersistInterval |>) in pure false
  else if fn_applied notice then
    let* _ := setRuntime (fun rt => rt <| rt_lastPersist := t |> <| rt_lastAppliedSnapshotSeq := fn_seq notice |>
                 <| rt_nextSnapshotAttemptAt := zeroTime |>) in
    if negb (bi_Version item =? c_Version c)%Z then reloadSnapshot
    else
      let* _ := setCombination (fst (applyArbitrageMarketSnapshot c (snapshotFromBatchItem item))) in
      let* _ := setRuntime (fun rt => rt <| rt_lastSnapshotUpdatedAt := c_UpdatedAt (rt_combination rt) |>) in
      pure false
  else
    let* _ := setRuntime (fun rt => rt <| rt_nextSnapshotAttemptAt := TimeAdd t marketSnapshotPersistInterval |>) in
    if negb (bi_Version item =? c_Version c)%Z || negb (bi_Status item =?s c_Status c) || negb (bi_RuntimeState item =?s c_RuntimeState c)
    then reloadSnapshot
    else let* _ := setRuntime (fun rt => rt <| rt_lastSnapshotUpdatedAt := bi_UpdatedAt item |>) in pure false.

Definition applySnapshotReceipt : R D bool :=
  let* n := lift tick in
  let* rt := getRuntime in
  match snapshotNoticeAt n with
  | None => pure false
  | Some notice =>
      if negb (fn_generation notice =? rt_generation rt)%Z then pure false
      else
        let* t := now in
        let* _ := (if (rt_snapshotInFlightSeq rt =? fn_seq notice)%Z
                   then setRuntime (fun rt => rt <| rt_snapshotInFlightSeq := 0%Z |>) else pure tt) in
        if (fn_seq notice <? rt_lastAppliedSnapshotSeq rt)%Z then pure false else applyReceipt notice t
  end.

(** *** The loop *)

(** What the select statement of [runCombination] received. *)
Inductive LoopEvent :=
| SchedulerDone
| RuntimeDone
| QuoteA (bbo : BBO)
| QuoteB (bbo : BBO)
| FeedClosed
| CoalesceTimer
| ControlTicker
| RenewTimer
| LeaseNotify
| SnapshotNotify
| RetryTimer
| Completion.

(** The timers of the loop: whether a coalescing evaluation is due and when
    the retry is. *)
Record Timers := mkTimers { tm_coalesce : bool; tm_retry : option Duration }.

Definition resetRetry (timers : Timers) : R D Timers :=
  let* t := now in
  let* c := combination in
  pure (mkTimers (tm_coalesce timers) (retryTimerDelay (c_NextRetryAt c) t)).

(** One turn of the loop: whether it ends, and the timers.  A timer that is
    not running does not fire; a feed that is closed cancels the context, and
    [RuntimeDone] follows. *)
Definition loopStep (e : LoopEvent) (timers : Timers) : R D (bool * Timers) :=
  match e with
  | SchedulerDone | RuntimeDone => pure (true, timers)
  | FeedClosed => pure (false, timers)
  | QuoteA bbo =>
      let* _ := setRuntime (fun rt => rt <| rt_latestA := bbo |> <| rt_hasA := true |>) in
      pure (false, mkTimers true (tm_retry timers))
  | QuoteB bbo =>
      let* _ := setRuntime (fun rt => rt <| rt_latestB := bbo |> <| rt_hasB := true |>) in
      pure (false, mkTimers true (tm_retry timers))
  | CoalesceTimer =>
      if negb (tm_coalesce timers) then pure (false, timers)
      else
        let timers := mkTimers false (tm_retry timers) in
        let* rt := getRuntime in
        if rt_hasA rt && rt_hasB rt then let* stop := evaluate "bbo_event" in pure (stop, timers) else pure (false, timers)
  | ControlTicker =>
      let* (stop, refreshed) := handleControl in
      let* timers := (if refreshed then resetRetry timers else pure timers) in
      pure (stop, timers)
  | RenewTimer | LeaseNotify => let* stop := renewLease in pure (stop, timers)
  | SnapshotNotify => let* stop := applySnapshotReceipt in pure (stop, timers)
  | RetryTimer =>
      match tm_retry timers with
      | None => pure (false, timers)
      | Some _ =>
          let* (stop, _) := refreshCombination in
          if stop then pure (true, timers)
          else
            let* timers := resetRetry (mkTimers (tm_coalesce timers) None) in
            let* stop := evaluate "next_retry" in
            pure (stop, timers)
      end
  | Completion =>
      let* (stop, refreshed) := refreshCombination in
      if stop then pure (true, timers)
      else if negb refreshed then pure (false, timers)
      else
        let* timers := resetRetry timers in
        let* _ := maybePromoteOneShotWaitingExit true in
        let* c := combination in
        if arbitrageFlattening c then let* stop := evaluate "execution_completion" in pure (stop, timers) else pure (false, timers)
  end.

(** The events of a loop in the order it received them, until it ends. *)
Fixpoint loopRun (events : list LoopEvent) (timers : Timers) : R D unit :=
  match events with
  | [] => pure tt
  | e :: rest => let* (stop, timers) := loopStep e timers in if stop then pure tt else loopRun rest timers
  end.

Definition runCombination (events : list LoopEvent) : R D unit :=
  let* timers := resetRetry (mkTimers false None) in loopRun events timers.
End Scheduler.
