(* ===== verification/SchedulerSafe.v ===== *)
(** * What a loop of the scheduler may do

    Theorems about Scheduler.v over any events a loop receives, whatever the
    venues, the store, the batchers and the other loops answer: the order in
    which resources are taken, handed over and given back, when an execution
    is claimed or resumed, and what happens to the tables. *)
From Stdlib Require Import ZArith QArith Lqa String.
From stdpp Require Import base strings list gmap.
From S2P Require Import Prelude Decimal DecimalRef Types Quantity Validate ArbMath ArbSize ArbHedge WorkPermit SchedResources Resolution Store OrderStore OrderService FlattenRules ArbStore FlattenStore ArbLedger Reconciler Scheduler.

#[local] Set Warnings "-clear-no-such-hyp".

(** ** Reasoning about a loop's computations *)

Section RHoare.
Context {D : Type} `{!Env D}.

(** From a state and a store with [P] the computation [m] ends with [Q]. *)
Definition rholds {A} (P : Runtime -> Store D -> Prop) (m : R D A) (Q : A -> Runtime -> Store D -> Prop) : Prop :=
  forall rt w, P rt (w_store w) -> Q (fst (fst (m rt w))) (snd (fst (m rt w))) (w_store (snd (m rt w))).

Lemma rh_pure {A} (a : A) P (Q : A -> Runtime -> Store D -> Prop) : (forall rt st, P rt st -> Q a rt st) -> rholds P (pure a) Q.
Proof. intros H rt w. apply H. Qed.
Lemma rh_bind {A B} (m : R D A) (k : A -> R D B) P T Q :
  rholds P m T -> (forall a, rholds (T a) (k a) Q) -> rholds P (rbind m k) Q.
Proof.
  intros Hm Hk rt w HP. unfold rbind, bind. pose proof (Hm rt w HP) as HT. destruct (m rt w) as [[a rt'] w']. cbn in *.
  by apply (Hk a rt' w').
Qed.
Lemma rh_lift {A} (m : M D A) P (Q : A -> Runtime -> Store D -> Prop) : (forall rt, holds (P rt) m (fun a => Q a rt)) -> rholds P (lift m) Q.
Proof.
  intros H rt w HP. unfold lift, bind. pose proof (H rt w HP) as HQ. destruct (m w) as [a w']. exact HQ.
Qed.
Lemma rh_set (f : Runtime -> Runtime) P (Q : unit -> Runtime -> Store D -> Prop) :
  (forall rt st, P rt st -> Q tt (f rt) st) -> rholds P (setRuntime f) Q.
Proof. intros H rt w. apply H. Qed.
Lemma rh_get {B} (k : Runtime -> R D B) P Q : (forall rt0, rholds (fun rt st => P rt st /\ rt = rt0) (k rt0) Q) -> rholds P (rbind getRuntime k) Q.
Proof. intros H rt w HP. by apply (H rt rt w). Qed.
Lemma rh_weaken {A} (m : R D A) (P P' : Runtime -> Store D -> Prop) (Q Q' : A -> Runtime -> Store D -> Prop) :
  rholds P m Q -> (forall rt st, P' rt st -> P rt st) -> (forall a rt st, Q a rt st -> Q' a rt st) -> rholds P' m Q'.
Proof. intros H HP HQ rt w Hw. by apply HQ, H, HP. Qed.
Lemma rh_fact {A} (F : Prop) (m : R D A) P Q : (F -> rholds P m Q) -> rholds (fun rt st => P rt st /\ F) m Q.
Proof. intros H rt w [HP HF]. by apply H. Qed.
End RHoare.

(** ** The order of a loop's events *)

Inductive LogPhase := Idle | Held | Busy.
#[export] Instance LogPhase_eq_dec : EqDecision LogPhase.
Proof. solve_decision. Defined.

(** Resources are taken when nothing runs, then given back or handed to one
    goroutine; a claim is made only with resources; a goroutine ends before
    the next one is prepared. *)
Definition phaseAfter (p : option LogPhase) (e : RuntimeEvent) : option LogPhase :=
  match p, e with
  | Some Idle, Acquired _ _ => Some Held
  | Some Held, Released => Some Idle
  | Some Held, Spawned _ => Some Busy
  | Some Busy, Finished => Some Idle
  | Some Held, Claiming _ _ _ _ _ => Some Held
  | Some p, RefreshRequested _ _ | Some p, SnapshotSubmitted _ _ | Some p, LeaseSubmitted _ _ => Some p
  | _, _ => None
  end.
Definition logPhase (log : list RuntimeEvent) : option LogPhase := fold_left phaseAfter log (Some Idle).

Lemma logPhase_snoc log e p : logPhase log = Some p -> logPhase (log ++ [e]) = phaseAfter (Some p) e.
Proof. unfold logPhase. rewrite fold_left_app. cbn. by intros ->. Qed.

(** ** What an event says of the state it happened in *)

Section Events.
Context `{cfg : !SchedulerConfig}.

Definition activeOf (c : ArbitrageCombination) (x : ArbitrageExecution) : Prop :=
  x_CombinationID x = c_ID c /\ terminalArbitrageExecutionStatus (x_Status x) = false.

(** The one-shot phases in which nothing is opened any more. *)
Definition exitPhase (c : ArbitrageCombination) : bool :=
  EqualFold (c_RunMode c) "one_shot" &&
  ((c_OneShotPhase c =?s "exiting") || (c_OneShotPhase c =?s "exited") || (c_OneShotPhase c =?s "waiting_exit")).

(** What the loop asks the store for: an execution of its own combination,
    never in a dry run, on a combination that is not locked; a flattening one
    only closes, reduce-only, and nothing is opened in an exit phase. *)
Definition claimOk (c : ArbitrageCombination) (x : ArbitrageExecution) : Prop :=
  sg_dryRun = false /\ arbitrageTradingLocked c = false /\ x_CombinationID x = c_ID c /\ x_Status x = "claimed"%string /\
  if arbitrageFlattening c then x_ReduceOnly x = true /\ x_PositionEffect x = "close"%string else exitPhase c = false.

Definition jobOk (j : Job) : Prop :=
  match j with
  | ExecuteClaimed c x _ _ => arbitrageTradingLocked c = false /\ activeOf c x
  | ExecuteActive c x _ _ | RecoverWithoutMarketData c x => activeOf c x
  | ReconcileCircuitOpen c => c_CircuitOpen c = true /\ c_Status c = "running"%string
  | RunLastCloseResidualFlatten c _ _ =>
      EqualFold (TrimSpace (c_Status c)) "closing" = true /\ c_CircuitOpen c = false /\ c_PositionUncertain c = false /\
      c_RuntimeState c <> "manual_intervention"%string
  end.

Definition eventOk (e : RuntimeEvent) : Prop :=
  match e with
  | Claiming c x bboA bboB t => claimOk c x /\ Stale bboA t sg_signalBBOStale = false /\ Stale bboB t sg_signalBBOStale = false
  | Spawned j => sg_runner = true /\ jobOk j
  | _ => True
  end.

(** The state at a phase of the log, and at rest between two turns. *)
Definition inPhaseOf (p : LogPhase) (rt : Runtime) : Prop :=
  logPhase (rt_log rt) = Some p /\ rt_executionRunning rt = (if decide (p = Idle) then false else true) /\ Forall eventOk (rt_log rt).
Definition resting (rt : Runtime) : Prop := exists p, p <> Held /\ inPhaseOf p rt.
End Events.

(** ** The invariant of a loop *)

Create HintDb rsafe discriminated.
#[local] Hint Constants Opaque : rsafe.
#[local] Hint Variables Opaque : rsafe.

Section Loop.
Context {D : Type} `{!Decimal D} `{!Postgres D} `{!Env D} `{svc : !Services} `{uu : !Uuids} `{cfg : !SchedulerConfig} `{sur : !Surroundings D} `{rn : !Runner D}.

(** The transactions a loop runs: steps of the repository that also are steps
    of a combination's life, the finalisation of an absent execution and the
    renewal of a lease. *)
Inductive schedTx : Store D -> Store D -> Prop :=
| tx_step st st' : arbStep st st' -> lifeStep st st' -> schedTx st st'
| tx_finalize e t st r st' : finalizeTransaction e t st = (r, st') -> schedTx st st'
| tx_renew id r t (st : Store D) : st_combinations st !! id = Some r ->
    schedTx st (st <| st_combinations := <[id := r <| cb_scheduler_lease_until := t |>]> (st_combinations st) |>).

Variable I : Store D -> Prop.
Hypothesis I_rely : forall n st, I st -> I (interfere n st).
Hypothesis I_tx : forall st st', schedTx st st' -> I st -> I st'.
Hypothesis I_close : forall c, keeps I (runnerCloseCombination c).
Hypothesis I_residual : forall c a b, keeps I (runnerResidualFlatten c a b).

Definition K (rt : Runtime) (st : Store D) : Prop := resting rt /\ I st.
Definition KH (rt : Runtime) (st : Store D) : Prop := inPhaseOf Held rt /\ I st.
Definition AtC (c : ArbitrageCombination) (P : Runtime -> Store D -> Prop) (rt : Runtime) (st : Store D) : Prop :=
  P rt st /\ rt_combination rt = c.

(** [rc m]: at rest before and after, on the same combination; [rk m]: at rest
    before and after. *)
Definition rc {A} (m : R D A) : Prop := forall c, rholds (AtC c K) m (fun _ => AtC c K).
Definition rk {A} (m : R D A) : Prop := forall c, rholds (AtC c K) m (fun _ => K).

Lemma rc_rk {A} (m : R D A) : rc m -> rk m.
Proof. intros H c. eapply rh_weaken; [apply H|done|]. by intros ? ? ? []. Qed.
Lemma bind_rc {A B} (m : R D A) (k : A -> R D B) c Q :
  rc m -> (forall a, rholds (AtC c K) (k a) Q) -> rholds (AtC c K) (rbind m k) Q.
Proof. intros Hm Hk. by eapply rh_bind. Qed.
Lemma bind_rk {A B} (m : R D A) (k : A -> R D B) c Q :
  rk m -> (forall a c', rholds (AtC c' K) (k a) Q) -> rholds (AtC c K) (rbind m k) Q.
Proof.
  intros Hm Hk. eapply rh_bind; [apply Hm|]. intros a rt w HK. by apply (Hk a (rt_combination rt) rt w).
Qed.
Lemma bind_combination {B} (k : ArbitrageCombination -> R D B) c P Q :
  rholds (AtC c P) (k c) Q -> rholds (AtC c P) (rbind combination k) Q.
Proof. intros H rt w [HP <-]. by apply (H rt w). Qed.
Lemma bind_getRuntime {B} (k : Runtime -> R D B) c P Q :
  (forall rt0, rt_combination rt0 = c -> rholds (AtC c P) (k rt0) Q) -> rholds (AtC c P) (rbind getRuntime k) Q.
Proof. intros H rt w [HP Hc]. by apply (H rt Hc rt w). Qed.
Lemma bind_set {B} (f : Runtime -> Runtime) (k : unit -> R D B) c c' Q :
  (forall rt, rt_combination rt = c -> rt_combination (f rt) = c' /\ rt_log (f rt) = rt_log rt /\ rt_executionRunning (f rt) = rt_executionRunning rt) ->
  rholds (AtC c' K) (k tt) Q -> rholds (AtC c K) (rbind (setRuntime f) k) Q.
Proof.
  intros Hf Hk. apply (rh_bind _ _ _ (fun _ => AtC c' K)); [|by intros []]. apply rh_set. intros rt st [[(p & Hp & Hl & Hr & He) HI] Hc].
  destruct (Hf rt Hc) as (E & El & Er). split; [|done]. split; [|done]. exists p. unfold inPhaseOf. by rewrite El, Er.
Qed.
Lemma rk_set (f : Runtime -> Runtime) :
  (forall rt, rt_log (f rt) = rt_log rt /\ rt_executionRunning (f rt) = rt_executionRunning rt) -> rk (setRuntime f).
Proof.
  intros Hf c. apply rh_set. intros rt st [[(p & Hp & Hl & Hr & He) HI] Hc].
  destruct (Hf rt) as (El & Er). split; [|done]. exists p. unfold inPhaseOf. by rewrite El, Er.
Qed.
Lemma rc_set (f : Runtime -> Runtime) :
  (forall rt, rt_combination (f rt) = rt_combination rt /\ rt_log (f rt) = rt_log rt /\ rt_executionRunning (f rt) = rt_executionRunning rt) ->
  rc (setRuntime f).
Proof.
  intros Hf c. apply rh_set. intros rt st [[(p & Hp & Hl & Hr & He) HI] Hc].
  destruct (Hf rt) as (E & El & Er). split; [|congruence]. split; [|done]. exists p. unfold inPhaseOf. by rewrite El, Er.
Qed.
Lemma rc_record e : (forall p, phaseAfter (Some p) e = Some p) -> eventOk e -> rc (record e).
Proof.
  intros Hp He c. apply rh_set. intros rt st [[(p & Hn & Hl & Hr & Hf) HI] Hc]. split; [|done]. split; [|done].
  exists p. split; [done|]. split; [rewrite <- (Hp p); by apply logPhase_snoc|]. split; [done|]. cbn. apply Forall_app. by split; [|constructor].
Qed.
Lemma rc_lift {A} (m : M D A) : keeps I m -> rc (lift m).
Proof.
  intros H c. apply rh_lift. intros rt w [[Hr HI] Hc]. split; [|done]. split; [done|]. by apply H.
Qed.
Lemma rc_pure {A} (a : A) : rc (pure a).
Proof. intros c. by apply rh_pure. Qed.

(** *** Flags, quotes and queries *)

Lemma rc_executionRunning : rc executionRunning.
Proof.
  intros c. unfold executionRunning. eapply bind_rc; [apply rc_lift, holds_tick|]. intros n. apply rh_get. intros rt0.
  destruct (rt_executionRunning rt0 && jobEnds n) eqn:E; [|apply rh_pure; by intros rt st [H _]].
  apply (rh_bind _ _ _ (fun _ => AtC c K)); [|intros []; by apply rh_pure]. apply rh_set. intros rt st [[[(p & Hp & Hl & Hr & He) HI] Hc] ->].
  split; [|done]. split; [|done]. apply andb_true_iff in E as [Er _]. rewrite Er in Hr. destruct p; try done.
  exists Idle. split; [done|]. split; [exact (logPhase_snoc _ Finished Busy Hl)|]. split; [done|]. apply Forall_app. by split; [|constructor].
Qed.
Lemma rc_recoveryRunning : rc recoveryRunning.
Proof.
  intros c. unfold recoveryRunning. eapply bind_rc; [apply rc_lift, holds_tick|]. intros n. apply bind_getRuntime. intros rt0 _.
  destruct (_ && _); [|by apply rh_pure]. eapply bind_set; [|by apply rh_pure]. done.
Qed.
Lemma rc_now : rc now.
Proof. apply rc_lift, holds_timeNow. Qed.
Lemma rc_orElse m k : rc m -> rc k -> rc (orElse m k).
Proof. intros Hm Hk c. unfold orElse. eapply bind_rc; [done|]. intros []; [apply rc_pure|apply Hk]. Qed.
Lemma rc_instruments c0 : rc (instruments c0).
Proof.
  intros c. unfold instruments, catalog. destruct (negb _); [by apply rh_pure|].
  do 2 (eapply bind_rc; [apply rc_lift; unfold callCatalog; keeps_tac|intros ?]). by apply rh_pure.
Qed.
Lemma rc_legQuote leg : rc (legQuote leg).
Proof. intros c. unfold legQuote. eapply bind_rc; [apply rc_lift, holds_tick|]. intros n. by apply rh_pure. Qed.
Lemma rc_stale a b : rc (rejectStaleSignal a b).
Proof. intros c. unfold rejectStaleSignal, signalBBOTooOld. eapply bind_rc; [apply rc_now|]. intros n. by apply rh_pure. Qed.
Lemma rc_precheck c0 a b : rc (closeFlattenTinyOwnedPrecheck c0 a b).
Proof.
  intros c. unfold closeFlattenTinyOwnedPrecheck. eapply bind_rc; [apply rc_instruments|]. intros [[iA iB]|e]; [|by apply rh_pure].
  eapply bind_rc; [apply rc_now|]. intros n. by apply rh_pure.
Qed.
Lemma rc_newID : rc newID.
Proof. intros c. unfold newID. eapply bind_rc; [apply rc_lift, holds_tick|]. intros n. by apply rh_pure. Qed.

(** Reads of the store. *)
Lemma keeps_read {A} (f : GoTime -> Store D -> Result A) : keeps I (sql (fun t st => (f t st, st))).
Proof. apply keeps_sql; [exact I_rely|]. by intros t st a st' [= _ <-]. Qed.
Lemma keeps_owner o id : keeps I (GetArbitrageCombinationByOwner o id).
Proof. apply (keeps_read (fun _ st => _)). Qed.
Lemma keeps_summary id : keeps I (GetArbitrageControlSummary id).
Proof. apply (keeps_read (fun _ st => _)). Qed.
Lemma keeps_active id : keeps I (GetActiveArbitrageExecution id).
Proof. apply (keeps_read (fun _ st => _)). Qed.
Lemma keeps_orders o id : keeps I (ListArbitrageOrders o id).
Proof. apply (keeps_read (fun _ st => _)). Qed.
Lemma keeps_executions id n : keeps I (ListArbitrageExecutions id n).
Proof. apply (keeps_read (fun _ st => _)). Qed.
Lemma keeps_gate id t : keeps I (ArbitrageDustOrderGate id t).
Proof. apply (keeps_read (fun _ st => _)). Qed.
Lemma keeps_residualGet id : keeps I (GetLastCloseResidualFlattenExecution id).
Proof. unfold GetLastCloseResidualFlattenExecution. case_match; [apply keeps_ret|]. apply (keeps_read (fun _ st => _)). Qed.

(** Its writes. *)
Lemma keeps_tx {A} (f : GoTime -> Store D -> Result A * Store D) :
  (forall t st st' r, f t st = (r, st') -> schedTx st st') -> keeps I (sql f).
Proof. intros H. apply keeps_sql; [exact I_rely|]. intros t st a st' E. by eapply I_tx, H. Qed.
Ltac tx_life c := apply keeps_tx; intros t st st' r E; apply tx_step; [eapply astep_combination; exact E|eapply c; exact E].
Lemma keeps_orNotFound m : keeps I m -> keeps I (orNotFound m).
Proof. intros H. unfold orNotFound. keeps_tac. Qed.
Lemma keeps_event id x e : keeps I (AppendArbitrageEvent id x e).
Proof.
  apply keeps_tx. intros t st st' r H. apply tx_step; [apply astep_other|apply life_other]; repeat (case_match; simplify_eq/=; try done).
Qed.
Lemma keeps_orUnmarked id e m : keeps I m -> keeps I (orUnmarked id e m).
Proof. intros H. unfold orUnmarked. pose proof keeps_event. keeps_tac. Qed.
Lemma keeps_snapshot id a b s : keeps I (UpdateArbitrageMarketSnapshot id a b s).
Proof. apply keeps_orNotFound. tx_life life_snapshot. Qed.
Lemma keeps_runtime item : keeps I (UpdateArbitrageCombinationRuntime item).
Proof. apply keeps_orNotFound. tx_life life_runtime. Qed.
Lemma keeps_closeFailure id k m : keeps I (RecordArbitrageCloseFailure id k m).
Proof. unfold RecordArbitrageCloseFailure. keeps_tac. apply keeps_orNotFound. tx_life life_closeFailure. Qed.
Lemma keeps_exited id v : keeps I (MarkOneShotExited id v).
Proof. apply keeps_orUnmarked. tx_life life_exited. Qed.
Lemma keeps_exiting id v reason : keeps I (MarkOneShotExiting id v reason).
Proof. unfold MarkOneShotExiting. cbv zeta. case_match; [apply keeps_ret|]. apply keeps_orUnmarked. tx_life life_exiting. Qed.
Lemma keeps_waiting id v s : keeps I (MarkOneShotWaitingExit id v s).
Proof. apply keeps_orUnmarked. tx_life life_waiting. Qed.
Lemma keeps_dust id v a b c : keeps I (MarkOneShotExitedWithDust id v a b c).
Proof. unfold MarkOneShotExitedWithDust. repeat case_match; try apply keeps_ret. apply keeps_orUnmarked. tx_life life_dust. Qed.
Lemma keeps_renew id l : keeps I (RenewArbitrageLease id l).
Proof.
  apply keeps_sql; [exact I_rely|]. intros t st a st' E HI. repeat (case_match; simplify_eq/=; try done). eapply I_tx; [|exact HI]. by apply tx_renew.
Qed.
Lemma keeps_finalizeAbsent e : keeps I (sql (finalizeTransaction e)).
Proof. apply keeps_tx. intros t st st' r E. by eapply tx_finalize. Qed.

(** *** Answers of the store *)

Definition activeAnswer (id : string) (r : Result ArbitrageExecution) : Prop :=
  match r with Ok x => x_CombinationID x = id /\ terminalArbitrageExecutionStatus (x_Status x) = false | Err _ => True end.

Lemma bind_active {B} c (k : Result ArbitrageExecution -> R D B) Q :
  (forall r, activeAnswer (c_ID c) r -> rholds (AtC c K) (k r) Q) ->
  rholds (AtC c K) (rbind (lift (GetActiveArbitrageExecution (c_ID c))) k) Q.
Proof.
  intros H. apply (rh_bind _ _ _ (fun r rt st => AtC c K rt st /\ activeAnswer (c_ID c) r)).
  - apply rh_lift. intros rt. unfold GetActiveArbitrageExecution. apply holds_sql.
    + intros n st [[Hr HI] Hc]. split; [|done]. split; [done|]. by apply I_rely.
    + by intros e st HK.
    + intros t st a st' HK E. destruct (List.find _ _) as [r|] eqn:F; [|done]. injection E as <- <-. split; [done|].
      apply find_some in F as [F Ha]. unfold executionRows in F. apply filter_In in F as [_ F].
      apply String.eqb_eq in F. split; [by destruct r|]. by apply negb_true_iff in Ha.
  - intros r. apply rh_fact. by apply H.
Qed.

(** The answer to a claim: an execution of the same combination, active. *)
Definition claimAnswer (x : ArbitrageExecution) (r : Result (ArbitrageExecution * bool)) : Prop :=
  match r with
  | Ok (y, true) => x_CombinationID y = x_CombinationID x /\ x_Status y = x_Status x
  | _ => True
  end.

Lemma insertExecution_answer x row t (st st' : Store D) r : insertExecution x row t st = (r, st') -> claimAnswer x r.
Proof.
  unfold insertExecution. destruct (newExecutionRow _ _ _) as [y|] eqn:E; [|by intros [= <- _]].
  case_match; intros [= <- _]; [done|]. unfold newExecutionRow in E. repeat (case_match; simplify_eq/=; try done).
Qed.
Lemma claim_answer x t (st st' : Store D) r : claimTransaction x t st = (r, st') -> claimAnswer x r.
Proof.
  unfold claimTransaction. destruct (st_combinations st !! _); [|by intros [= <- _]]. cbv zeta.
  case_match; [by intros [= <- _]|]. apply insertExecution_answer.
Qed.
Lemma flatten_answer claim now t (st st' : Store D) r : flattenClaimTransaction claim now t st = (r, st') -> claimAnswer (fc_Execution claim) r.
Proof.
  unfold flattenClaimTransaction. cbv zeta. destruct (st_combinations st !! _); [|by intros [= <- _]].
  case_match; [by intros [= <- _]|]. apply insertExecution_answer.
Qed.

Definition claims (x : ArbitrageExecution) (ask : M D (Result (ArbitrageExecution * bool))) : Prop :=
  holds I ask (fun r st => I st /\ claimAnswer x r).
Lemma claims_sql x (f : GoTime -> Store D -> Result (ArbitrageExecution * bool) * Store D) :
  (forall t st st' r, f t st = (r, st') -> schedTx st st' /\ claimAnswer x r) -> claims x (sql f).
Proof.
  intros H. apply holds_sql; [exact I_rely|by intros|]. intros t st a st' HI E. destruct (H _ _ _ _ E). split; [by eapply I_tx|done].
Qed.
Lemma claims_sized x : claims x (ClaimArbitrageExecution x).
Proof.
  unfold ClaimArbitrageExecution, claims. eapply holds_bind; [apply holds_tick|]. intros n. cbv beta zeta.
  eapply holds_weaken; [apply (claims_sql (if x_ID x =?s "" then x <| x_ID := newUUID n |> else x))|done|].
  - intros t st st' r E. split; [|by eapply claim_answer]. apply tx_step; [by eapply astep_claim|by eapply life_claim].
  - intros r st [HI Hr]. split; [done|]. by destruct (x_ID x =?s "").
Qed.
Lemma claims_flatten claim : claims (fc_Execution claim) (ClaimOneShotFinalFlattenExecution claim).
Proof.
  unfold ClaimOneShotFinalFlattenExecution, claims. eapply holds_bind; [apply holds_tick|]. intros n. cbv beta zeta.
  case_match; [by apply holds_ret|]. eapply holds_bind; [apply holds_timeNow|]. intros t0. cbv beta.
  set (x := if x_ID (fc_Execution claim) =?s "" then _ else _).
  eapply holds_weaken; [apply (claims_sql x)|done|].
  - intros t st st' r E. split; [|by apply (flatten_answer _ _ _ _ _ _ E)]. apply tx_step; [by eapply astep_flatten|by eapply life_flatten].
  - intros r st [HI Hr]. split; [done|]. subst x. by destruct (x_ID (fc_Execution claim) =?s "").
Qed.

(** *** Resources *)

Lemma bind_acquireForWork {B} c class slot (k : bool -> R D B) Q :
  rholds (AtC c K) (k false) Q -> rholds (AtC c KH) (k true) Q -> rholds (AtC c K) (rbind (acquireForWork class slot) k) Q.
Proof.
  intros Hf Ht. apply (rh_bind _ _ _ (fun b : bool => AtC c (if b then KH else K))); [|by intros []].
  unfold acquireForWork. eapply bind_rc; [apply rc_lift, holds_tick|]. intros n. apply bind_combination.
  destruct (negb _); [by apply rh_pure|].
  apply (rh_bind _ _ _ (fun b rt st => AtC c K rt st /\ rt_executionRunning rt = b)).
  - unfold executionRunning. eapply bind_rc; [apply rc_lift, holds_tick|]. intros m. apply rh_get. intros rt0.
    destruct (rt_executionRunning rt0 && jobEnds m) eqn:E; [|apply rh_pure; by intros rt st [H ->]].
    apply (rh_bind _ _ _ (fun _ rt st => AtC c K rt st /\ rt_executionRunning rt = false)); [|intros []; by apply rh_pure].
    pose proof (rc_executionRunning c) as Hx. intros rt w [HK ->]. split; [|done].
    destruct HK as [[(p & Hp & Hl & Hr & He) HI] Hc]. split; [|done]. split; [|done].
    apply andb_true_iff in E as [Er _]. rewrite Er in Hr. destruct p; try done.
    exists Idle. split; [done|]. split; [exact (logPhase_snoc _ Finished Busy Hl)|]. split; [done|]. apply Forall_app. by split; [|constructor].
  - intros []; [apply rh_pure; by intros rt st [H _]|].
    apply (rh_bind _ _ _ (fun _ => AtC c KH)); [|intros []; by apply rh_pure]. apply rh_set.
    intros rt st [[[(p & Hp & Hl & Hr & He) HI] Hc] Hn]. split; [|done]. split; [|done]. rewrite Hn in Hr. destruct p; try done.
    split; [exact (logPhase_snoc _ _ Idle Hl)|]. split; [done|]. apply Forall_app. by split; [|constructor].
Qed.

Lemma held_release c : rholds (AtC c KH) releaseAcquired (fun _ => AtC c K).
Proof.
  apply rh_set. intros rt st [[(Hl & Hr & He) HI] Hc]. split; [|done]. split; [|done].
  exists Idle. split; [done|]. split; [exact (logPhase_snoc _ Released Held Hl)|]. split; [done|]. apply Forall_app. by split; [|constructor].
Qed.
Lemma held_spawn c j : sg_runner = true -> jobOk j -> rholds (AtC c KH) (spawn j) (fun _ => AtC c K).
Proof.
  intros Hn Hj. apply rh_set. intros rt st [[(Hl & Hr & He) HI] Hc]. split; [|done]. split; [|done].
  exists Busy. split; [done|]. split; [exact (logPhase_snoc _ (Spawned j) Held Hl)|]. split; [done|]. apply Forall_app. by split; [|constructor].
Qed.
Lemma held_set {B} c (f : Runtime -> Runtime) (k : unit -> R D B) Q :
  (forall rt, rt_combination (f rt) = rt_combination rt /\ rt_log (f rt) = rt_log rt /\ rt_executionRunning (f rt) = rt_executionRunning rt) ->
  rholds (AtC c KH) (k tt) Q -> rholds (AtC c KH) (rbind (setRuntime f) k) Q.
Proof.
  intros Hf Hk. apply (rh_bind _ _ _ (fun _ => AtC c KH)); [|by intros []]. apply rh_set. intros rt st [[(Hl & Hr & He) HI] Hc].
  destruct (Hf rt) as (E & El & Er). split; [|congruence]. split; [|done]. unfold inPhaseOf. by rewrite El, Er.
Qed.
Lemma held_lift {A B} c (m : M D A) (k : A -> R D B) Q :
  keeps I m -> (forall a, rholds (AtC c KH) (k a) Q) -> rholds (AtC c KH) (rbind (lift m) k) Q.
Proof.
  intros Hm Hk. apply (rh_bind _ _ _ (fun _ => AtC c KH)); [|done]. apply rh_lift. intros rt w [[Hr HI] Hc]. split; [|done]. split; [done|]. by apply Hm.
Qed.

(** A claim: with resources in hand, fresh quotes and an admissible request. *)
Lemma rc_claimWith c x ask e a b : claims x ask -> claimOk c x -> rholds (AtC c K) (claimWith x ask e a b) (fun _ => AtC c K).
Proof.
  intros Hask Hx. unfold claimWith. apply bind_acquireForWork; cbn [negb]; [by apply rh_pure|].
  apply held_lift; [apply holds_timeNow|]. intros t. destruct (Stale a t _ || Stale b t _) eqn:Hs; [apply held_release|].
  apply orb_false_iff in Hs as [Ha Hb]. apply bind_combination.
  apply (rh_bind _ _ _ (fun _ => AtC c KH)).
  { apply rh_set. intros rt st [[(Hl & Hr & He) HI] Hc]. split; [|done]. split; [|done].
    split; [exact (logPhase_snoc _ _ Held Hl)|]. split; [done|]. apply Forall_app. by split; [|constructor]. }
  intros _. apply (rh_bind _ _ _ (fun r rt st => AtC c KH rt st /\ claimAnswer x r)).
  { apply rh_lift. intros rt w [[Hr HI] Hc]. destruct (Hask w HI) as [HI' Ha']. by split. }
  intros [[y []]|err]; apply rh_fact; intros Hy; [|apply held_release|apply held_release].
  destruct (sg_runner) eqn:Hn; cbn [negb]; [|apply held_release].
  unfold appendEvent. destruct Hx as (_ & Hlock & Hid & Hst & _). destruct Hy as [Ey Es].
  apply (rh_bind _ _ _ (fun _ => AtC c KH)).
  - apply held_lift; [apply keeps_event|]. intros _. by apply rh_pure.
  - intros _. apply held_spawn; [done|]. split; [done|]. split; [congruence|]. by rewrite Es, Hst.
Qed.

(** *** The operations of a loop *)

#[local] Hint Resolve rc_executionRunning rc_recoveryRunning rc_now rc_orElse rc_instruments rc_legQuote rc_stale rc_precheck rc_newID
  rc_pure rc_lift : rsafe.
#[local] Hint Resolve keeps_owner keeps_summary keeps_active keeps_orders keeps_executions keeps_gate keeps_residualGet keeps_event
  keeps_snapshot keeps_runtime keeps_closeFailure keeps_exited keeps_exiting keeps_waiting keeps_dust keeps_renew keeps_finalizeAbsent
  holds_tick holds_timeNow I_close I_residual keeps_ret : rsafe.

Lemma rk_setCombination c : rk (setCombination c).
Proof. by apply rk_set. Qed.
#[local] Hint Resolve rk_setCombination : rsafe.
Hint Extern 5 (rk (setRuntime _)) => (apply rk_set; intros ?; repeat case_match; done) : rsafe.
Hint Extern 5 (rc (setRuntime _)) => (apply rc_set; intros ?; repeat case_match; done) : rsafe.
Hint Extern 6 (rc (record _)) => (apply rc_record; [by intros []|done]) : rsafe.
Hint Extern 9 (rk _) => (apply rc_rk) : rsafe.
Hint Extern 3 (rc (match ?x with _ => _ end)) => destruct x : rsafe.
Hint Extern 3 (rk (match ?x with _ => _ end)) => destruct x : rsafe.
Hint Extern 4 (keeps _ tick) => apply holds_tick : rsafe.

(** One step of a proof that an operation ends at rest. *)
Ltac r_step :=
  match goal with
  | |- rc _ => intros ?
  | |- rk _ => intros ?
  | |- rholds (AtC ?c _) (rbind combination _) _ => apply bind_combination
  | |- rholds (AtC ?c _) (rbind getRuntime _) _ => apply bind_getRuntime; intros ? ?
  | |- rholds (AtC ?c K) (rbind (acquireForWork _ _) _) _ => apply bind_acquireForWork; cbn [negb]
  | |- rholds (AtC ?c K) (rbind (lift (GetActiveArbitrageExecution (c_ID ?c))) _) _ => apply bind_active; intros [?|?] ?
  | |- rholds (AtC ?c KH) (rbind (setRuntime _) _) _ => apply held_set; [done|]
  | |- rholds (AtC ?c KH) (rbind (spawn _) _) _ => eapply rh_bind; [apply held_spawn; [try done|]|intros ?; cbv beta]
  | |- rholds (AtC ?c KH) (spawn _) _ => eapply rh_weaken; [apply held_spawn; [try done|]|done|try by intros ? ? ? []]
  | |- rholds (AtC ?c K) (rbind ?m _) _ => eapply bind_rc; [solve [eauto 6 with rsafe]|intros ?; cbv beta]
  | |- rholds (AtC ?c K) (rbind ?m _) _ => eapply bind_rk; [solve [eauto 8 with rsafe]|intros ? ?; cbv beta]
  | |- rholds _ (let _ := _ in _) _ => cbv zeta
  | |- rholds _ (if ?b then _ else _) _ => destruct b eqn:?
  | |- rholds _ (match ?x with _ => _ end) _ => destruct x eqn:?
  | |- rholds (AtC _ K) (pure _) _ => apply rh_pure; solve [done | by intros ? ? []]
  | |- rholds (AtC ?c K) ?m (fun _ => AtC ?c K) => lazymatch m with rbind _ _ => fail | _ => idtac end; let H := fresh in assert (rc m) as H by eauto 6 with rsafe; exact (H c)
  | |- rholds (AtC ?c K) ?m (fun _ => K) => lazymatch m with rbind _ _ => fail | _ => idtac end; let H := fresh in assert (rk m) as H by eauto 8 with rsafe; exact (H c)
  end.
Ltac r_tac := repeat r_step.
Hint Extern 8 (rk (rbind _ _)) => (solve [r_tac]) : rsafe.
Hint Extern 8 (rc (rbind _ _)) => (solve [r_tac]) : rsafe.

Lemma rc_appendEvent id x e : rc (appendEvent id x e).
Proof. unfold appendEvent. r_tac. Qed.
#[local] Hint Resolve rc_appendEvent : rsafe.

(** Facts of the conditions on the way. *)
Ltac bools :=
  repeat match goal with
  | H : _ || _ = false |- _ => apply orb_false_iff in H as [? ?]
  | H : _ && _ = true |- _ => apply andb_true_iff in H as [? ?]
  | H : negb _ = false |- _ => apply negb_false_iff in H
  | H : negb _ = true |- _ => apply negb_true_iff in H
  end.

Lemma rc_resumeWithout : rc resumeWithoutMarketData.
Proof. unfold resumeWithoutMarketData. r_tac; bools; assumption. Qed.

(** Without an active execution the combination may trade. *)
Lemma bind_resume {B} c a b allow (k : bool -> R D B) Q :
  rholds (AtC c K) (k true) Q -> (negb allow && arbitrageActiveResumeBlocked c = false -> rholds (AtC c K) (k false) Q) ->
  rholds (AtC c K) (rbind (resumeActiveWithState a b allow) k) Q.
Proof.
  intros Ht Hf.
  apply (rh_bind _ _ _ (fun r rt st => AtC c K rt st /\ (r = false -> negb allow && arbitrageActiveResumeBlocked c = false))).
  - unfold resumeActiveWithState. eapply bind_rc; [apply rc_executionRunning|]. intros [].
    { apply bind_combination. by apply rh_pure. }
    apply bind_combination. destruct (negb allow && _) eqn:E; [by apply rh_pure|].
    apply (rh_weaken _ (AtC c K) _ (fun _ => AtC c K)); [|done|by intros r rt st H].
    r_tac; bools; assumption.
  - intros []; [apply rh_fact; by intros _|]. apply rh_fact. intros H. by apply Hf, H.
Qed.
Lemma rc_resumeState a b allow : rc (resumeActiveWithState a b allow).
Proof.
  intros c rt w H. pose proof (bind_resume c a b allow pure (fun _ => AtC c K)) as B.
  assert (rholds (AtC c K) (rbind (resumeActiveWithState a b allow) pure) (fun _ => AtC c K)) as HB.
  { apply B; [by apply rh_pure|intros _; by apply rh_pure]. }
  specialize (HB rt w H). unfold rbind, bind in HB. by destruct (resumeActiveWithState a b allow rt w) as [[r rt'] w'].
Qed.
#[local] Hint Resolve rc_resumeWithout rc_resumeState : rsafe.
Lemma rc_resumeActive a b : rc (resumeActive a b).
Proof. apply rc_resumeState. Qed.
Lemma rc_resumeIntervention a b : rc (resumeActiveForIntervention a b).
Proof. apply rc_resumeState. Qed.
#[local] Hint Resolve rc_resumeActive rc_resumeIntervention : rsafe.
Lemma rc_resumeLocked a b fresh : rc (resumeLockedSafe a b fresh).
Proof. unfold resumeLockedSafe. r_tac. Qed.
#[local] Hint Resolve rc_resumeLocked : rsafe.

Lemma rk_reload : rk reloadCombination.
Proof. unfold reloadCombination. r_tac. Qed.
#[local] Hint Resolve rk_reload : rsafe.
Lemma rk_refreshFrom s : rk (refreshFrom s).
Proof. unfold refreshFrom. r_tac. Qed.
#[local] Hint Resolve rk_refreshFrom : rsafe.
Lemma rk_refreshMode p : rk (refreshCombinationMode p).
Proof. unfold refreshCombinationMode. r_tac. Qed.
#[local] Hint Resolve rk_refreshMode : rsafe.
Lemma rk_refresh : rk refreshCombination.
Proof. apply rk_refreshMode. Qed.
Lemma rk_refreshPeriodic : rk refreshCombinationPeriodic.
Proof. apply rk_refreshMode. Qed.
#[local] Hint Resolve rk_refresh rk_refreshPeriodic : rsafe.

Lemma rc_exitSignal : rc receiveExitSignal.
Proof. unfold receiveExitSignal, requestOneShotExitAt. r_tac. Qed.
#[local] Hint Resolve rc_exitSignal : rsafe.
Lemma rc_refreshExit : rc refreshExit.
Proof. unfold refreshExit, refreshExitRequest. r_tac. Qed.
Lemma rc_valuations id a b ta tb : rc (applyArbitrageLegValuations id a b ta tb).
Proof. unfold applyArbitrageLegValuations. r_tac. Qed.
Lemma rk_submitSnapshot ask bid seq : rk (submitSnapshot ask bid seq).
Proof. unfold submitSnapshot. r_tac. Qed.
Lemma rk_writeSnapshot ask bid stale urgent seq t : rk (writeSnapshot ask bid stale urgent seq t).
Proof. unfold writeSnapshot. r_tac. Qed.
#[local] Hint Resolve rc_refreshExit rc_valuations rk_submitSnapshot rk_writeSnapshot : rsafe.
Lemma rk_persist ask bid stale was : rk (persistMarketSnapshot ask bid stale was).
Proof. unfold persistMarketSnapshot. r_tac. Qed.
#[local] Hint Resolve rk_persist : rsafe.
Lemma rk_observe : rk observeAndPersistMarket.
Proof. unfold observeAndPersistMarket. r_tac. Qed.
#[local] Hint Resolve rk_observe : rsafe.

Lemma rk_markManual reason : rk (markFlattenManualIntervention reason).
Proof. unfold markFlattenManualIntervention. r_tac. Qed.
Lemma rk_recordCloseFailure key m : rk (recordCloseFailureOf key m).
Proof. unfold recordCloseFailureOf. r_tac. Qed.
#[local] Hint Resolve rk_markManual rk_recordCloseFailure : rsafe.
Lemma rk_runClose : rk runClose.
Proof. unfold runClose. r_tac. Qed.
#[local] Hint Resolve rk_runClose : rsafe.
Lemma rk_closeCombination : rk closeCombination.
Proof. unfold closeCombination. r_tac. Qed.
Lemma rc_exitedReady : rc oneShotExitedVenueReady.
Proof. unfold oneShotExitedVenueReady. r_tac. Qed.
#[local] Hint Resolve rk_closeCombination rc_exitedReady : rsafe.
Lemma rk_finalizeFlattening : rk finalizeFlattening.
Proof. unfold finalizeFlattening. r_tac. Qed.
Lemma rk_timeExiting t : rk (maybeMarkOneShotTimeExiting t).
Proof. unfold maybeMarkOneShotTimeExiting, requestOneShotExit, requestOneShotExitAt. r_tac. Qed.
Lemma rc_dust remaining a b phase : rc (evaluateRuntimeOneShotDust remaining a b phase).
Proof. unfold evaluateRuntimeOneShotDust. r_tac. Qed.
#[local] Hint Resolve rk_finalizeFlattening rk_timeExiting rc_dust : rsafe.
Lemma rk_applyWaiting d : rk (applyOneShotWaitingExit d).
Proof. unfold applyOneShotWaitingExit. r_tac. Qed.
#[local] Hint Resolve rk_applyWaiting : rsafe.
Lemma rk_maybeWaiting r : rk (maybeMarkOneShotWaitingExit r).
Proof. unfold maybeMarkOneShotWaitingExit. r_tac. Qed.
#[local] Hint Resolve rk_maybeWaiting : rsafe.
Lemma rk_promote force : rk (maybePromoteOneShotWaitingExit force).
Proof. unfold maybePromoteOneShotWaitingExit. r_tac. Qed.
Lemma rk_markDust : rk markOneShotExitedWithDust.
Proof. unfold markOneShotExitedWithDust. r_tac. Qed.
#[local] Hint Resolve rk_promote rk_markDust : rsafe.
Lemma rk_leftover a b source : rk (handleOneShotExitingLeftover a b source).
Proof. unfold handleOneShotExitingLeftover. r_tac. Qed.
Lemma rk_unsized c effect reason closeable : rk (unsized c effect reason closeable).
Proof. unfold unsized. r_tac. Qed.
#[local] Hint Resolve rk_leftover rk_unsized : rsafe.

(** *** Claims and flattening *)

Lemma sizedPlan_effect c iA iB a b direction effect (remaining closeable rng : D) plan :
  sizeArbitrageExecution c iA iB a b direction effect remaining closeable rng = inr plan ->
  sp_Effect plan = effect /\ sp_ReduceOnly plan = EqualFold (TrimSpace effect) "close".
Proof. unfold sizeArbitrageExecution. cbv zeta. intros H. repeat (case_match; simplify_eq/=; try done). Qed.

(** What a caller of [claimSizedExecution] has checked. *)
Definition mayClaim (c : ArbitrageCombination) (effect : string) : Prop :=
  arbitrageTradingLocked c = false /\ if arbitrageFlattening c then effect = "close"%string else exitPhase c = false.

Lemma rk_claimSized c a b aBid aAsk bBid bAsk ask bid direction effect remaining :
  mayClaim c effect -> rholds (AtC c K) (claimSizedExecution a b aBid aAsk bBid bAsk ask bid direction effect remaining) (fun _ => K).
Proof.
  intros [Hlock Hm]. unfold claimSizedExecution. r_tac.
  eapply rh_bind; [apply rc_claimWith; [apply claims_sized|]|intros ?; apply rh_pure; by intros ? ? []].
  destruct (sizedPlan_effect _ _ _ _ _ _ _ _ _ _ _ ltac:(eassumption)) as [He Hr].
  split; [done|]. split; [done|]. split; [done|]. split; [done|].
  destruct (arbitrageFlattening c); [|done]. subst effect. cbn. by rewrite He, Hr.
Qed.

Lemma finalFlatten_request id c planned a b (aBid aAsk bBid bAsk : D) claim :
  finalFlattenClaim id c planned a b aBid aAsk bBid bAsk = Some claim ->
  let x := fc_Execution claim in
  x_CombinationID x = c_ID c /\ x_Status x = "claimed"%string /\ x_ReduceOnly x = true /\ x_PositionEffect x = "close"%string.
Proof. unfold finalFlattenClaim. intros H. repeat (case_match; simplify_eq/=; try done). Qed.

Lemma exiting_flattens c : oneShotRunningExiting c = true -> arbitrageFlattening c = true.
Proof. unfold oneShotRunningExiting, arbitrageFlattening. intros ->. apply orb_true_r. Qed.

(** A final flatten that is not claimed leaves the combination as it is. *)
Lemma rc_finalFlatten c a b aBid aAsk bBid bAsk :
  arbitrageTradingLocked c = false ->
  rholds (AtC c K) (claimOneShotFinalFlatten a b aBid aAsk bBid bAsk) (fun _ => AtC c K).
Proof.
  intros Hlock. unfold claimOneShotFinalFlatten. r_tac. bools.
  eapply rh_bind; [apply rc_claimWith; [apply claims_flatten|]|intros ?; by apply rh_pure].
  destruct (finalFlatten_request _ _ _ _ _ _ _ _ _ _ ltac:(eassumption)) as (Hid & Hst & Hro & Hef).
  split; [done|]. split; [done|]. split; [done|]. split; [done|]. by rewrite exiting_flattens.
Qed.

Lemma rc_residualStarts c0 a b : rc (residualFlattenStarts c0 a b).
Proof. unfold residualFlattenStarts. r_tac. Qed.
#[local] Hint Resolve rc_residualStarts : rsafe.
Lemma rc_runResidual c existing a b :
  EqualFold (TrimSpace (c_Status c)) "closing" = true -> c_CircuitOpen c = false -> c_PositionUncertain c = false ->
  (c_RuntimeState c =?s "manual_intervention") = false ->
  rholds (AtC c K) (runResidualFlatten c existing a b) (fun _ => AtC c K).
Proof.
  intros Hs Hc Hu Hm. unfold runResidualFlatten. r_tac; bools; try done. split_and!; try done. by apply String.eqb_neq.
Qed.
Lemma rc_route a b : rc (routeLastCloseResidualFlatten a b).
Proof.
  unfold routeLastCloseResidualFlatten. r_tac; bools.
  all: eapply rh_bind; [by apply rc_runResidual|intros ?; by apply rh_pure].
Qed.
#[local] Hint Resolve rc_route : rsafe.

Lemma rk_flattenPaired c a b aBid aAsk bBid bAsk direction :
  arbitrageTradingLocked c = false -> arbitrageFlattening c = true ->
  rholds (AtC c K) (flattenPaired a b aBid aAsk bBid bAsk direction) (fun _ => K).
Proof.
  intros Hlock Hf. unfold flattenPaired. r_tac. apply rk_claimSized. split; [done|]. by rewrite Hf.
Qed.
Lemma rk_flattenRest c a b aBid aAsk bBid bAsk source owned tiny :
  arbitrageTradingLocked c = false -> arbitrageFlattening c = true ->
  rholds (AtC c K) (flattenRest a b aBid aAsk bBid bAsk source owned tiny) (fun _ => K).
Proof.
  intros Hlock Hf. unfold flattenRest. r_tac.
  eapply rh_bind; [by apply rc_finalFlatten|]. intros claimed. cbv beta. r_tac. by apply rk_flattenPaired.
Qed.
Lemma rk_flatten c a b aBid aAsk bBid bAsk source :
  arbitrageFlattening c = true -> rholds (AtC c K) (flattenOrFinalizeClosingFrom a b aBid aAsk bBid bAsk source) (fun _ => K).
Proof.
  intros Hf. unfold flattenOrFinalizeClosingFrom. eapply bind_set; [by intros rt Hc; split|].
  r_tac; by apply rk_flattenRest.
Qed.

(** *** Evaluation *)

Lemma rk_evaluateSignal c m aBid aAsk bBid bAsk t :
  arbitrageTradingLocked c = false -> arbitrageFlattening c = false -> exitPhase c = false ->
  rholds (AtC c K) (evaluateSignal m aBid aAsk bBid bAsk t) (fun _ => K).
Proof.
  intros Hlock Hf He. unfold evaluateSignal. r_tac. all: apply rk_claimSized; split; [done|]; by rewrite Hf.
Qed.
Lemma stopOpen_exitPhase rt : oneShotShouldStopOpen rt = false -> exitPhase (rt_combination rt) = false.
Proof.
  unfold oneShotShouldStopOpen, exitPhase. cbv zeta. destruct (EqualFold _ "one_shot"); cbn; [|done]. by destruct (_ || _ || _).
Qed.
Lemma rk_evaluateTrading m aBid aAsk bBid bAsk t source : rk (evaluateTrading m aBid aAsk bBid bAsk t source).
Proof.
  intros c. unfold evaluateTrading. eapply bind_rk; [apply rk_timeExiting|]. intros _ c1. eapply bind_rc; [apply rc_refreshExit|]. intros _.
  apply (rh_bind _ _ _ (fun s rt st => AtC c1 K rt st /\ (s = false -> exitPhase c1 = false))).
  { unfold shouldStopOpen. eapply bind_rc; [apply rc_exitSignal|]. intros _. apply bind_getRuntime. intros rt0 <-. apply rh_pure.
    intros rt st H. split; [done|apply stopOpen_exitPhase]. }
  intros stop. apply rh_fact. intros Hstop. apply bind_combination.
  destruct (stop && negb (arbitrageFlattening c1)) eqn:E; [r_tac|]. destruct (arbitrageFlattening c1) eqn:Hf; [by apply rk_flatten|].
  apply bind_resume; [r_tac|]. intros Hb. apply rk_evaluateSignal; [exact Hb|done|].
  apply Hstop. by destruct stop.
Qed.
#[local] Hint Resolve rk_evaluateTrading : rsafe.
Lemma rk_evaluate source : rk (evaluate source).
Proof. unfold evaluate. r_tac. by apply rk_flatten. Qed.
#[local] Hint Resolve rk_evaluate : rsafe.

Lemma rc_reconcileCircuit : rc reconcileCircuitOpen.
Proof. unfold reconcileCircuitOpen. r_tac; bools; subst; try done. split; [done|]. by apply String.eqb_eq. Qed.
Lemma rk_finalizeAbsent : rk maybeFinalizeConfirmedAbsent.
Proof. unfold maybeFinalizeConfirmedAbsent. r_tac. Qed.
#[local] Hint Resolve rc_reconcileCircuit rk_finalizeAbsent : rsafe.
Lemma rk_control : rk handleControl.
Proof. unfold handleControl. r_tac. Qed.
Lemma rk_renew : rk renewLease.
Proof. unfold renewLease. r_tac. Qed.
Lemma rk_reloadSnapshot : rk reloadSnapshot.
Proof. unfold reloadSnapshot. r_tac. Qed.
#[local] Hint Resolve rk_control rk_renew rk_reloadSnapshot : rsafe.
Lemma rk_applyReceipt notice t : rk (applyReceipt notice t).
Proof. unfold applyReceipt. r_tac. Qed.
#[local] Hint Resolve rk_applyReceipt : rsafe.
Lemma rk_receipt : rk applySnapshotReceipt.
Proof. unfold applySnapshotReceipt. r_tac. Qed.
Lemma rc_resetRetry timers : rc (resetRetry timers).
Proof. unfold resetRetry. r_tac. Qed.
#[local] Hint Resolve rk_receipt rc_resetRetry : rsafe.
Lemma rk_loopStep e timers : rk (loopStep e timers).
Proof. destruct e; cbn [loopStep]; r_tac. Qed.
#[local] Hint Resolve rk_loopStep : rsafe.
Lemma rk_loopRun events timers : rk (loopRun events timers).
Proof. revert timers. induction events as [|e events IH]; intros timers; cbn [loopRun]; r_tac. Qed.
#[local] Hint Resolve rk_loopRun : rsafe.
Lemma rk_run events : rk (runCombination events).
Proof. unfold runCombination. r_tac. Qed.
End Loop.

(** ** Theorems *)

Definition acquiredCount (log : list RuntimeEvent) : nat := length (List.filter (fun e => match e with Acquired _ _ => true | _ => false end) log).
Definition releasedCount (log : list RuntimeEvent) : nat := length (List.filter (fun e => match e with Released => true | _ => false end) log).
Definition spawnedCount (log : list RuntimeEvent) : nat := length (List.filter (fun e => match e with Spawned _ => true | _ => false end) log).
Definition finishedCount (log : list RuntimeEvent) : nat := length (List.filter (fun e => match e with Finished => true | _ => false end) log).

Definition phaseHolds (p : LogPhase) (log : list RuntimeEvent) : Prop :=
  acquiredCount log = (releasedCount log + spawnedCount log + match p with Held => 1 | _ => 0 end)%nat /\
  spawnedCount log = (finishedCount log + match p with Busy => 1 | _ => 0 end)%nat.

Lemma logPhase_counts log : match logPhase log with Some p => phaseHolds p log | None => True end.
Proof.
  induction log as [|e log IH] using rev_ind; [done|]. unfold logPhase in *. rewrite fold_left_app. cbn [fold_left].
  destruct (fold_left phaseAfter log (Some Idle)) as [p|]; [|done]. destruct IH as [Ha Hs].
  unfold phaseHolds, acquiredCount, releasedCount, spawnedCount, finishedCount in *. rewrite !List.filter_app, !length_app.
  destruct p, e; cbn in *; try done; lia.
Qed.
Lemma logPhase_prefix l1 l2 p : logPhase (l1 ++ l2) = Some p -> exists q, logPhase l1 = Some q.
Proof.
  unfold logPhase. rewrite fold_left_app. destruct (fold_left phaseAfter l1 (Some Idle)) as [q|]; [by exists q|].
  intros H. exfalso. induction l2 as [|e l2 IH]; [done|]. by apply IH.
Qed.

Section Theorems.
Context {D : Type} `{!Decimal D} `{!Postgres D} `{!Env D} `{svc : !Services} `{uu : !Uuids} `{cfg : !SchedulerConfig} `{sur : !Surroundings D} `{rn : !Runner D}.

Definition logAfter (events : list LoopEvent) (rt : Runtime) (w : World D) : list RuntimeEvent := rt_log (snd (fst (runCombination events rt w))).

Lemma newRuntime_resting item generation t v : resting (newRuntime item generation t v).
Proof. exists Idle. split; [done|]. by split_and!. Qed.

Lemma run_resting events item generation t v (w : World D) :
  resting (snd (fst (runCombination events (newRuntime item generation t v) w))).
Proof.
  pose proof (rk_run (D := D) (fun _ => True) (fun _ _ _ => Logic.I) (fun _ _ _ _ => Logic.I) (fun _ _ _ => Logic.I) (fun _ _ _ _ _ => Logic.I)
    events item (newRuntime item generation t v) w) as H.
  apply H. split; [|done]. split; [|done]. apply newRuntime_resting.
Qed.

(** C12: one goroutine at a time.  Whatever events a loop receives and whatever
    is answered to it, at every moment of its life it has started at most one
    goroutine more than have ended, and has taken its resources at most once
    more than it handed them over or gave them back; between two turns none
    are left in its hands. *)
Theorem one_worker_per_combination (events : list LoopEvent) (item : ArbitrageCombination) (generation : Z) (t : GoTime)
    (v : gmap string ArbitrageValuation) (w : World D) (before after : list RuntimeEvent) :
  let log := logAfter events (newRuntime item generation t v) w in
  (log = before ++ after ->
   (finishedCount before <= spawnedCount before <= finishedCount before + 1)%nat /\
   (releasedCount before + spawnedCount before <= acquiredCount before <= releasedCount before + spawnedCount before + 1)%nat) /\
  acquiredCount log = (releasedCount log + spawnedCount log)%nat.
Proof.
  cbv zeta. destruct (run_resting events item generation t v w) as (p & Hp & Hl & _ & _).
  fold (logAfter events (newRuntime item generation t v) w) in Hl. split.
  - intros E. rewrite E in Hl. destruct (logPhase_prefix _ _ _ Hl) as [q Hq]. pose proof (logPhase_counts before) as H.
    rewrite Hq in H. destruct H as [Ha Hs]. destruct q; lia.
  - pose proof (logPhase_counts (logAfter events (newRuntime item generation t v) w)) as H. rewrite Hl in H. destruct H as [Ha _].
    rewrite Ha. destruct p; [lia|done|lia].
Qed.

(** C13: when an execution is asked for.  A loop asks the store to claim an
    execution only of its own combination, outside a dry run, with the circuit
    closed, the position certain and no manual intervention, on quotes no
    older than the limit; while the combination is flattened it asks only for
    reduce-only closes, and in an exit phase it opens nothing. *)
Theorem claims_admissible (events : list LoopEvent) (item : ArbitrageCombination) (generation : Z) (t : GoTime)
    (v : gmap string ArbitrageValuation) (w : World D) (c : ArbitrageCombination) (x : ArbitrageExecution) (a b : BBO) (at_ : GoTime) :
  Claiming c x a b at_ ∈ logAfter events (newRuntime item generation t v) w ->
  claimOk c x /\ Stale a at_ sg_signalBBOStale = false /\ Stale b at_ sg_signalBBOStale = false.
Proof.
  intros H. destruct (run_resting events item generation t v w) as (p & _ & _ & _ & He).
  exact (proj1 (Forall_forall _ _) He _ H).
Qed.

(** What a goroutine is started for.  Every goroutine a loop starts works
    on an execution of its own combination that the store holds as active, or
    reconciles an open circuit of a running combination, or flattens the
    residual of a closing combination that is not stopped; nothing runs without
    an executor. *)
Theorem goroutines_admissible (events : list LoopEvent) (item : ArbitrageCombination) (generation : Z) (t : GoTime)
    (v : gmap string ArbitrageValuation) (w : World D) (j : Job) :
  Spawned j ∈ logAfter events (newRuntime item generation t v) w -> sg_runner = true /\ jobOk j.
Proof.
  intros H. destruct (run_resting events item generation t v w) as (p & _ & _ & _ & He).
  exact (proj1 (Forall_forall _ _) He _ H).
Qed.
End Theorems.

(** ** The tables *)

Section Tables.
Context {D : Type} `{!Decimal D} `{!DecimalLaws D} `{!Postgres D} `{!Env D} `{svc : !Services} `{uu : !Uuids} `{cfg : !SchedulerConfig} `{sur : !Surroundings D} `{rn : !Runner D}.

Lemma positions_phase id t (st st' : Store D) u :
  updatePositions id t st = (u, st') -> forall j r, st_combinations st !! j = Some r -> exists r', st_combinations st' !! j = Some r' /\ phaseOf r' = phaseOf r.
Proof.
  unfold updatePositions, updateCombination. intros H j r Hj. destruct (st_combinations st !! id) as [row|] eqn:Hr; [|injection H as _ <-; eauto].
  destruct (assignPositions st id t row) as [row'|] eqn:Ea; injection H as _ <-; [|by eauto]. cbn.
  destruct (decide (j = id)) as [->|Hn]; [|rewrite lookup_insert_ne by done; by eauto].
  rewrite lookup_insert_eq. exists row'. split; [done|]. assert (row = r) as -> by congruence.
  unfold assignPositions in Ea. cbv zeta in Ea. repeat (destruct (numericText _); [|done]). by injection Ea as <-.
Qed.

(** An exit is never undone. *)
Definition exitKept (r r' : CombinationRow) : Prop :=
  (phaseOf r = "exited" -> phaseOf r' = "exited")%string /\
  (phaseOf r = "exiting" -> phaseOf r' = "exiting" \/ phaseOf r' = "exited")%string.
Definition scheduledFrom (st0 st : Store D) : Prop :=
  executionsSound st /\
  forall id r, st_combinations st0 !! id = Some r -> exists r', st_combinations st !! id = Some r' /\ exitKept r r'.

Lemma exitKept_move st id r r1 r2 : exitKept r r1 -> phaseMove (D := D) st id r1 r2 -> exitKept r r2.
Proof.
  intros [Ha Hb] M. assert (phaseOf r2 = phaseOf r1 \/ phaseOf r2 = "exited" \/ phaseOf r1 = "building_target" \/ phaseOf r1 = "waiting_exit")%string as HM.
  { destruct M as [E|[[[E|E] _]|[[[E|E] _]|(_ & E & _)]]]; auto. }
  split; intros H; [specialize (Ha H)|destruct (Hb H) as [Hx|Hx]]; destruct HM as [E|[E|[E|E]]];
    first [congruence | left; congruence | right; congruence].
Qed.
Lemma scheduled_moves st0 (st st' : Store D) :
  executionChange (st_executions st) (st_executions st') -> phasesMove st st' -> scheduledFrom st0 st -> scheduledFrom st0 st'.
Proof.
  intros Hc Hm [Hs Hk]. split; [by eapply executionChange_sound|]. intros id r Hr. destruct (Hk _ _ Hr) as (r1 & H1 & K1).
  destruct (Hm _ _ H1) as (r2 & H2 & M). exists r2. split; [done|]. by eapply exitKept_move.
Qed.

Lemma finalize_phases e t (st st' : Store D) r : finalizeTransaction e t st = (r, st') -> phasesMove st st'.
Proof.
  unfold finalizeTransaction. cbv zeta. intros H.
  destruct (e =?s ""); [injection H as _ <-; by apply phasesMove_same|].
  destruct (st_executions st !! e) as [row|]; [|injection H as _ <-; by apply phasesMove_same].
  destruct (st_combinations st !! _) as [combo|] eqn:Hc; [|injection H as _ <-; by apply phasesMove_same].
  destruct (evaluateConfirmedAbsentZeroFillFinalize _ _ _ _); [injection H as _ <-; by apply phasesMove_same|..];
    (destruct (negb _ && negb _); injection H as _ <-; [by apply phasesMove_same|]);
    (eapply phasesMove_row; [exact Hc|reflexivity|]); by destruct (_ && _).
Qed.

Lemma scheduled_tx st0 (st st' : Store D) : schedTx st st' -> scheduledFrom st0 st -> scheduledFrom st0 st'.
Proof.
  intros [s s' Ha Hl|e t s r s' H|id r t s H].
  - apply scheduled_moves; [by apply arbStep_change|by apply lifeStep_phase].
  - apply scheduled_moves; [by eapply finalize_change|by eapply finalize_phases].
  - apply scheduled_moves; [by left|]. eapply phasesMove_row; [exact H|reflexivity|done].
Qed.

(** What a loop does to the tables.  Whatever events a loop receives,
    whatever is answered to it and whichever statement fails, among other
    processes and an executor that keep it too, no combination gets a second
    active execution and the exit of a one-shot is never undone. *)
Theorem scheduler_loop_safe (st0 : Store D) (events : list LoopEvent) (item : ArbitrageCombination) (generation : Z) (t : GoTime)
    (v : gmap string ArbitrageValuation) (w : World D) :
  (forall n st, scheduledFrom st0 st -> scheduledFrom st0 (interfere n st)) ->
  (forall c, keeps (scheduledFrom st0) (runnerCloseCombination c)) ->
  (forall c a b, keeps (scheduledFrom st0) (runnerResidualFlatten c a b)) ->
  scheduledFrom st0 (w_store w) ->
  scheduledFrom st0 (w_store (snd (runCombination events (newRuntime item generation t v) w))).
Proof.
  intros Hi Hc Hr H0.
  pose proof (rk_run (scheduledFrom st0) Hi (scheduled_tx st0) Hc Hr events item (newRuntime item generation t v) w) as H.
  apply H. split; [|done]. split; [apply newRuntime_resting|done].
Qed.
End Tables.

(** ** A concrete loop *)

Section SchedulerWitnesses.
#[local] Existing Instance stillEnv.
#[local] Existing Instance simpleServices.

Definition plainConfig : SchedulerConfig := {|
  sg_controlInterval := Second; sg_lease := 30 * Second; sg_signalBBOStale := 2 * Second; sg_batch := 50; sg_enabledVenues := None;
  sg_dryRun := false; sg_catalog := true; sg_runner := true; sg_lifecycle := true; sg_batchersStarted := false
|}.
#[local] Existing Instance plainConfig.
Definition plainUuids : Uuids := {| residualUUID s := s |}.
#[local] Existing Instance plainUuids.
Definition idleRunner : Runner Dec := {| runnerCloseCombination _ := ret None; runnerResidualFlatten _ _ _ := ret None |}.
#[local] Existing Instance idleRunner.

Definition legQuoteOf (bid ask : string) : BBO :=
  zero_BBO <| b_BidPrice := bid |> <| b_AskPrice := ask |> <| b_BidQuantity := "100"%string |> <| b_AskQuantity := "100"%string |>
    <| b_ReceiveTimestamp := 1000000000 * Second |>.
Definition quoteA : BBO := legQuoteOf "100" "100.1".
Definition quoteB : BBO := legQuoteOf "101" "101.1".
Definition plainSurroundings : Surroundings Dec := {|
  legLatest _ leg := (if leg =?s "a" then quoteA else quoteB, None);
  jobEnds _ := false; recoveryEnds _ := false; resourcesGranted _ _ _ _ := true;
  leaseNoticeAt _ := None; snapshotNoticeAt _ := None; controlProbeAt _ := None; exitSignalAt _ := None; sizeRandom _ := mkDec 15 (-1)
|}.
#[local] Existing Instance plainSurroundings.

Definition buildingItem : ArbitrageCombination := quietItem <| c_EntryDirection := "ask"%string |>.
Definition buildingWorld : World Dec := mkWorld (arbStore buildingItem) 0 [].
Definition quoteEvents : list LoopEvent := [QuoteA quoteA; QuoteB quoteB; CoalesceTimer].
Local Notation buildingLog := (logAfter quoteEvents (newRuntime buildingItem 1 0 ∅) buildingWorld).

(** The quotes make the loop claim an execution and start its goroutine. *)
Example building_claims : map (fun e => match e with Acquired _ _ => 1 | Claiming _ _ _ _ _ => 2 | Spawned _ => 3 | _ => 0 end) buildingLog = [1; 2; 3].
Proof. vm_compute. reflexivity. Qed.

Lemma buildingLog_claim : exists c x a b t, buildingLog !! 1%nat = Some (Claiming c x a b t).
Proof. vm_compute. do 5 eexists. reflexivity. Qed.
Lemma buildingLog_spawn : exists j, buildingLog !! 2%nat = Some (Spawned j).
Proof. vm_compute. eexists. reflexivity. Qed.

Lemma one_worker_per_combination_witness :
  (spawnedCount (firstn 2 buildingLog) <= finishedCount (firstn 2 buildingLog) + 1)%nat /\
  acquiredCount buildingLog = (releasedCount buildingLog + spawnedCount buildingLog)%nat.
Proof.
  pose proof (one_worker_per_combination quoteEvents buildingItem 1 0 ∅ buildingWorld (firstn 2 buildingLog) (skipn 2 buildingLog)) as [H1 H2].
  split; [|exact H2]. exact (proj2 (proj1 (H1 (eq_sym (firstn_skipn 2 buildingLog))))).
Defined.
Lemma claims_admissible_witness : exists c x, claimOk c x.
Proof.
  destruct buildingLog_claim as (c & x & a & b & t & E).
  pose proof (claims_admissible quoteEvents buildingItem 1 0 ∅ buildingWorld c x a b t) as H.
  exists c, x. exact (proj1 (H (list_elem_of_lookup_2 _ _ _ E))).
Defined.
Lemma goroutines_admissible_witness : exists j, jobOk j.
Proof.
  destruct buildingLog_spawn as (j & E). pose proof (goroutines_admissible quoteEvents buildingItem 1 0 ∅ buildingWorld j) as H.
  exists j. exact (proj2 (H (list_elem_of_lookup_2 _ _ _ E))).
Defined.
Lemma scheduler_loop_safe_witness :
  scheduledFrom (arbStore buildingItem) (w_store (snd (runCombination quoteEvents (newRuntime buildingItem 1 0 ∅) buildingWorld))).
Proof.
  pose proof (scheduler_loop_safe (arbStore buildingItem) quoteEvents buildingItem 1 0 ∅ buildingWorld) as H. apply H.
  - intros n st Hs. exact Hs.
  - intros c. apply keeps_ret.
  - intros c a b. apply keeps_ret.
  - split; [apply arbStore_sound|]. intros id r Hr. exists r. split; [exact Hr|]. split; [tauto|]. intros E. left. exact E.
Defined.
End SchedulerWitnesses.
