(* ===== verification/SchedulerBatch.v ===== *)
(** * The batchers and the table of loops

    The queries that serve many loops at once (arbitrage_batch_repository.go),
    the batchers that merge renewals and snapshots (arbitrage_lease_batch.go,
    arbitrage_snapshot_batch.go) and probe the control columns
    (arbitrage_control_batch.go), and the table of the loops that run
    (acquire and finishRuntime of arbitrage_scheduler.go). *)
From Stdlib Require Import ZArith QArith Lqa String.
From stdpp Require Import base strings list gmap.
From S2P Require Import Prelude Decimal DecimalRef Types Quantity Validate ArbMath ArbSize ArbHedge WorkPermit SchedResources Resolution MetricsWorker Store OrderStore OrderService FlattenRules ArbStore FlattenStore ArbLedger Reconciler Scheduler SchedulerSafe.

#[local] Set Warnings "-clear-no-such-hyp".

Definition arbitrageControlSummaryBatchSize : Z := 250.
Definition arbitrageLeaseBatchSize : Z := 250.
Definition arbitrageSnapshotBatchSize : Z := 200.

(** ** Helpers *)

Fixpoint chunkFrom (fuel : nat) (ids : list string) (size : nat) : list (list string) :=
  match fuel, ids with
  | S fuel, _ :: _ => firstn size ids :: chunkFrom fuel (skipn size ids) size
  | _, _ => []
  end.
Definition chunkStrings (ids : list string) (size : Z) : list (list string) :=
  if (size <=? 0) || (Z.of_nat (length ids) =? 0) then if Z.of_nat (length ids) =? 0 then [] else [ids]
  else chunkFrom (length ids) ids (Z.to_nat size).

Definition uniqueNonEmptyIDs (ids : list string) : list string :=
  fold_left (fun out id => let id := TrimSpace id in
    if id =?s "" then out else if bool_decide (id ∈ out) then out else out ++ [id]) ids [].

(** [2 * interval], at least two seconds. *)
Definition controlSummaryTimeout (controlInterval : Duration) : Duration :=
  let timeout := wrap64 (2 * controlInterval) in
  if timeout <? 2 * Second then 2 * Second else timeout.

(** ** Queries over many combinations *)

(** [arbitrageControlSummaryBatch] *)
Record arbitrageControlSummaryBatch := mkSummaryBatch { sb_Found : gmap string arbitrageControlSummary; sb_Missing : list string }.

Section BatchStore.
Context {D : Type} `{!Decimal D} `{!Postgres D} `{!Env D} `{svc : !Services}.

(** The identifiers that parse, and the others; a parsed identifier prints as
    it was read. *)
Definition parseUUIDIDs (ids : list string) : list string * list string :=
  (List.filter uuidParses ids, List.filter (fun id => negb (uuidParses id)) ids).

Definition summaryOf (r : CombinationRow) : arbitrageControlSummary :=
  mkControlSummary (c_Version (cb_item r)) (c_Status (cb_item r)) (c_RuntimeState (cb_item r)).

Definition ListArbitrageControlSummaries (ids : list string) : M D (Result arbitrageControlSummaryBatch) :=
  let requested := uniqueNonEmptyIDs ids in
  let '(parsed, missing) := parseUUIDIDs requested in
  match parsed with
  | [] => ret (Ok (mkSummaryBatch ∅ missing))
  | _ :: _ => sql (fun _ st =>
      let found := list_to_map (omap (fun id => (fun r => (id, summaryOf r)) <$> st_combinations st !! id) parsed) in
      (Ok (mkSummaryBatch found (missing ++ List.filter (fun id => negb (isSome (found !! id)) && uuidParses id) requested)), st))
  end.

Definition renewRow (lease : Duration) (dbnow : GoTime) (r : CombinationRow) : option CombinationRow :=
  if liveCombination (cb_item r) && negb (leaseFree dbnow r)
  then Some (r <| cb_scheduler_lease_until := At (TimeAdd dbnow lease) |>) else None.

(** The rows that were renewed. *)
Definition renewTransaction (ids : list string) (lease : Duration) (dbnow : GoTime) (st : Store D) : Result (gset string) * Store D :=
  let due := omap (fun id => r ← st_combinations st !! id; r' ← renewRow lease dbnow r; Some (id, r')) ids in
  (Ok (list_to_set (map fst due)), st <| st_combinations := list_to_map due ∪ st_combinations st |>).

Definition RenewArbitrageLeases (ids : list string) (lease : Duration) : M D (Result (gset string)) :=
  match fst (parseUUIDIDs (uniqueNonEmptyIDs ids)) with
  | [] => ret (Ok ∅)
  | parsed => sql (renewTransaction parsed (if (lease <=? 0)%Z then Second else lease))
  end.

(** The conditions of the [UPDATE] for one write. *)
Definition snapshotApplies (st : Store D) (w : arbitrageMarketSnapshotWrite) (id : string) (r : CombinationRow) : bool :=
  let c := cb_item r in
  (c_Status c =?s "running") &&
  existsb (String.eqb (c_RuntimeState c)) ["monitoring"; "repricing"; "opportunity_gone"]%string &&
  negb (c_MarketDataStale c) && (c_Version c =? sw_ExpectedVersion w)%Z &&
  (c_UpdatedAt c =? timestamptz (D := D) (sw_ExpectedUpdatedAt w))%Z && negb (hasActiveExecution st id).

Definition snapshotRow (ask bid : string) (dbnow : GoTime) (r : CombinationRow) : CombinationRow :=
  r <| cb_item := (cb_item r) <| c_CurrentAskSpreadBps := ask |> <| c_CurrentBidSpreadBps := bid |>
         <| c_RuntimeState := "monitoring"%string |> <| c_UpdatedAt := dbnow |> |>.

Definition itemOf (id : string) (applied : bool) (r : option CombinationRow) (seq : Z) : arbitrageMarketSnapshotBatchItem :=
  match r with
  | Some r => let c := cb_item r in
      mkBatchItem id applied (c_Version c) (c_Status c) (c_RuntimeState c) (c_MarketDataStale c) (c_UpdatedAt c)
        (c_CurrentAskSpreadBps c) (c_CurrentBidSpreadBps c) seq
  | None => mkBatchItem id applied 0 "" "" false unixEpoch "" "" seq
  end.

(** One write of the statement: the row it leaves, if any, and what it
    returns.  All read the tables the statement began with. *)
Definition writeItem (dbnow : GoTime) (st : Store D) (w : arbitrageMarketSnapshotWrite)
    : Result (option (string * CombinationRow) * arbitrageMarketSnapshotBatchItem) :=
  let id := TrimSpace (sw_CombinationID w) in
  match st_combinations st !! id with
  | Some r =>
      if snapshotApplies st w id r then
        match nullableAny (D := D) (sw_AskSpread w), nullableAny (D := D) (sw_BidSpread w) with
        | Some ask, Some bid => let r' := snapshotRow ask bid dbnow r in Ok (Some (id, r'), itemOf id true (Some r') (sw_Sequence w))
        | _, _ => Err errOverflow
        end
      else Ok (None, itemOf id false (Some r) (sw_Sequence w))
  | None => Ok (None, itemOf id false None (sw_Sequence w))
  end.

Fixpoint writeItems (dbnow : GoTime) (st : Store D) (writes : list arbitrageMarketSnapshotWrite)
    : Result (list (option (string * CombinationRow) * arbitrageMarketSnapshotBatchItem)) :=
  match writes with
  | [] => Ok []
  | w :: rest => let? one := writeItem dbnow st w in let? others := writeItems dbnow st rest in Ok (one :: others)
  end.

Definition batchSnapshotTransaction (writes : list arbitrageMarketSnapshotWrite) (dbnow : GoTime) (st : Store D)
    : Result (list arbitrageMarketSnapshotBatchItem) * Store D :=
  match writeItems dbnow st writes with
  | Err e => (Err e, st)
  | Ok answers => (Ok (map snd answers), st <| st_combinations := list_to_map (omap fst answers) ∪ st_combinations st |>)
  end.

Definition BatchUpdateArbitrageMarketSnapshots (writes : list arbitrageMarketSnapshotWrite)
    : M D (Result (list arbitrageMarketSnapshotBatchItem)) :=
  match writes with
  | [] => ret (Ok [])
  | _ :: _ => if forallb (fun w => uuidParses (TrimSpace (sw_CombinationID w))) writes then sql (batchSnapshotTransaction writes)
              else ret (Err (errPlain "batch market snapshot id"))
  end.
End BatchStore.

(** ** The table of loops *)

(** A runtime is known by its generation, which no other one has.
    [lo_pending] are runtimes that are subscribed and not entered yet,
    [lo_live] the loops that were started and have not finished. *)
Record Loops := mkLoops { lo_runtimes : gmap string Z; lo_nextGeneration : Z; lo_pending : list (string * Z); lo_live : list (string * Z) }.
#[export] Instance eta_Loops : Eta Loops := fun l => mkLoops (lo_runtimes l) (lo_nextGeneration l) (lo_pending l) (lo_live l).
Definition newLoops : Loops := mkLoops ∅ 0 [] [].

(** [subscribe] succeeds: both keys are valid and both subscriptions were
    made. *)
Definition subscribable (subscribed : bool) (item : ArbitrageCombination) : bool :=
  let key leg := NewKey (l_Exchange leg) (l_ContractType leg) (l_ExchangeSymbol leg) in
  match key (c_LegA item), key (c_LegB item) with Some _, Some _ => subscribed | _, _ => false end.

(** The first look at the table and the subscription, which takes a
    generation. *)
Definition subscribeItem (subscribed : bool) (item : ArbitrageCombination) (l : Loops) : Loops :=
  if isSome (lo_runtimes l !! c_ID item) then l
  else if negb (subscribable subscribed item) then l
  else
    let generation := (lo_nextGeneration l + 1)%Z in
    l <| lo_nextGeneration := generation |> <| lo_pending := lo_pending l ++ [(c_ID item, generation)] |>.

(** [finishRuntime]: the entry is removed if it is this runtime's. *)
Definition finishRuntime (rt : string * Z) (l : Loops) : Loops :=
  let table := lo_runtimes l in
  l <| lo_runtimes := if bool_decide (table !! fst rt = Some (snd rt)) then delete (fst rt) table else table |>
    <| lo_live := List.filter (fun x => negb (bool_decide (x = rt))) (lo_live l) |>.

(** The second look, under the lock: the runtime is entered and its loop
    started, or given up. *)
Definition enterRuntime (rt : string * Z) (l : Loops) : Loops :=
  let l := l <| lo_pending := List.filter (fun x => negb (bool_decide (x = rt))) (lo_pending l) |> in
  if isSome (lo_runtimes l !! fst rt) then finishRuntime rt l
  else l <| lo_runtimes := <[fst rt := snd rt]> (lo_runtimes l) |> <| lo_live := lo_live l ++ [rt] |>.

(** Rounds of [acquire] and loops that end, in any order. *)
Inductive loopsStep : Loops -> Loops -> Prop :=
| loops_subscribe subscribed item l : loopsStep l (subscribeItem subscribed item l)
| loops_enter rt l : rt ∈ lo_pending l -> loopsStep l (enterRuntime rt l)
| loops_finish rt l : rt ∈ lo_live l -> loopsStep l (finishRuntime rt l).

(** [runtimeMatches] *)
Definition runtimeMatches (table : gmap string Z) (id : string) (generation : Z) : bool := bool_decide (table !! id = Some generation).

Record loopsSound (l : Loops) : Prop := {
  ls_live : forall id g, (id, g) ∈ lo_live l -> lo_runtimes l !! id = Some g;
  ls_nodup : NoDup (lo_live l);
  ls_fresh : forall id g, (id, g) ∈ lo_live l ++ lo_pending l -> g <= lo_nextGeneration l;
  ls_pending : forall id g, (id, g) ∈ lo_pending l -> (id, g) ∉ lo_live l;
  ls_once : NoDup (lo_pending l)
}.

Lemma filtered (A : Type) `{EqDecision A} (x y : A) l : y ∈ List.filter (fun z => negb (bool_decide (z = x))) l <-> y ∈ l /\ y <> x.
Proof.
  rewrite !list_elem_of_In, filter_In, negb_true_iff, bool_decide_eq_false. tauto.
Qed.
Lemma filtered_nodup (A : Type) `{EqDecision A} (x : A) l : NoDup l -> NoDup (List.filter (fun z => negb (bool_decide (z = x))) l).
Proof. intros H%NoDup_ListNoDup. by apply NoDup_ListNoDup, List.NoDup_filter. Qed.

Lemma finish_sound rt l : loopsSound l -> loopsSound (finishRuntime rt l).
Proof.
  intros [Hl Hn Hf Hp Ho]. split; cbn.
  - intros id g [H Hne]%filtered. specialize (Hl _ _ H). case_bool_decide as E; [|done].
    destruct (decide (id = fst rt)) as [->|]; [|by rewrite lookup_delete_ne]. exfalso. apply Hne. destruct rt as [i k]. cbn in *. congruence.
  - by apply filtered_nodup.
  - intros id g H. apply (Hf id). apply elem_of_app in H as [[H _]%filtered|H]; apply elem_of_app; [by left|by right].
  - intros id g H [H' _]%filtered. by apply (Hp id g).
  - done.
Qed.

Lemma loopsStep_sound l l' : loopsStep l l' -> loopsSound l -> loopsSound l'.
Proof.
  intros [b item l0|rt l0 Hrt|rt l0 Hrt] HS; [| |by apply finish_sound].
  - unfold subscribeItem. destruct (isSome _); [done|]. destruct (negb _); [done|]. destruct HS as [Hl Hn Hf Hp Ho]. split; cbn; try done.
    + intros id g [H|[H|H%list_elem_of_singleton]%elem_of_app]%elem_of_app; [| |by injection H as -> ->];
        (assert (g <= lo_nextGeneration l0) by (apply (Hf id), elem_of_app; tauto)); lia.
    + intros id g [H|[= -> ->]%list_elem_of_singleton]%elem_of_app; [by apply Hp|]. intros H.
      assert (lo_nextGeneration l0 + 1 <= lo_nextGeneration l0) by (apply (Hf (c_ID item)), elem_of_app; by left). lia.
    + apply NoDup_app. split; [done|]. split; [|apply NoDup_singleton]. intros [id g] H [= -> ->]%list_elem_of_singleton.
      assert (lo_nextGeneration l0 + 1 <= lo_nextGeneration l0) by (apply (Hf (c_ID item)), elem_of_app; by right). lia.
  - unfold enterRuntime. destruct HS as [Hl Hn Hf Hp Ho]. destruct rt as [i k]. pose proof (Hp _ _ Hrt) as Hnew.
    assert (loopsSound (l0 <| lo_pending := List.filter (fun x => negb (bool_decide (x = (i, k)))) (lo_pending l0) |>)) as HS'.
    { split; cbn; try done; [|by intros id g [H _]%filtered; apply Hp|by apply filtered_nodup].
      intros id g H. apply (Hf id). apply elem_of_app in H as [H|[H _]%filtered]; apply elem_of_app; tauto. }
    destruct (lo_runtimes l0 !! i) as [j|] eqn:E; cbn [fst snd lo_runtimes setter]; rewrite ?E; cbn [isSome].
    + by apply finish_sound.
    + destruct HS' as [Hl' Hn' Hf' Hp' Ho']. cbn in *. split; cbn.
      * intros id g [H|[= -> ->]%list_elem_of_singleton]%elem_of_app; [|by rewrite lookup_insert_eq].
        specialize (Hl _ _ H). rewrite lookup_insert_ne; [done|]. congruence.
      * apply NoDup_app. split; [done|]. split; [|apply NoDup_singleton]. by intros x H ->%list_elem_of_singleton.
      * intros id g H. apply (Hf id). rewrite !elem_of_app in *. destruct H as [[H|[= -> ->]%list_elem_of_singleton]|[H _]%filtered]; tauto.
      * intros id g [H Hne]%filtered [H'|H'%list_elem_of_singleton]%elem_of_app; [by apply (Hp id g)|done].
      * done.
Qed.
Lemma newLoops_sound : loopsSound newLoops.
Proof. split; cbn; try constructor; intros id g H; by apply not_elem_of_nil in H. Qed.

(** C33: one loop per combination.  In whatever order combinations are leased
    again, subscribed and entered, and loops end, two loops that run for the
    same combination are the same one, and it is the one the table names, so
    that a notice of a batcher finds it. *)
Theorem one_loop_per_combination (l : Loops) (id : string) (g g' : Z) :
  rtc loopsStep newLoops l -> (id, g) ∈ lo_live l -> (id, g') ∈ lo_live l ->
  g = g' /\ runtimeMatches (lo_runtimes l) id g = true /\ NoDup (lo_live l).
Proof.
  intros H Hg Hg'. assert (loopsSound l) as [Hl Hn _ _ _].
  { assert (forall a b, rtc loopsStep a b -> loopsSound a -> loopsSound b) as G by (induction 1; eauto using loopsStep_sound).
    exact (G _ _ H newLoops_sound). }
  pose proof (Hl _ _ Hg) as E. pose proof (Hl _ _ Hg') as E'. split; [congruence|]. split; [by apply bool_decide_eq_true|done].
Qed.

(** ** The batchers *)

(** [snapshotRequest]; the runtime is its generation. *)
Record snapshotRequest := mkSnapshotRequest { sr_write : arbitrageMarketSnapshotWrite; sr_generation : Z }.

(** [snapshotBatcher], [leaseBatcher]: what waits, and whether a batch is under
    way. *)
Record Batcher (A : Type) := mkBatcher { bt_pending : gmap string A; bt_inFlight : bool }.
Arguments mkBatcher {A}.
Arguments bt_pending {A}.
Arguments bt_inFlight {A}.
#[export] Instance eta_Batcher A : Eta (Batcher A) := fun b => mkBatcher (bt_pending b) (bt_inFlight b).

Section Batchers.
Context {A : Type}.

Definition newBatcher : Batcher A := mkBatcher ∅ false.
Definition Submit (id : string) (request : A) (b : Batcher A) : Batcher A :=
  if id =?s "" then b else b <| bt_pending := <[id := request]> (bt_pending b) |>.
Definition Remove (id : string) (b : Batcher A) : Batcher A :=
  if id =?s "" then b else b <| bt_pending := delete id (bt_pending b) |>.

(** The requests a flush takes, in the order [order] in which the map is
    scanned. *)
Fixpoint takeBatch (order : list string) (size : nat) (pending : gmap string A) : list (string * A) * gmap string A :=
  match order, size with
  | [], _ | _, O => ([], pending)
  | id :: rest, S n =>
      match pending !! id with
      | Some request => let '(batch, pending) := takeBatch rest n (delete id pending) in ((id, request) :: batch, pending)
      | None => takeBatch rest size pending
      end
  end.
Definition beginFlush (order : list string) (size : Z) (b : Batcher A) : option (list (string * A) * Batcher A) :=
  if bt_inFlight b || bool_decide (bt_pending b = ∅) then None
  else let '(batch, pending) := takeBatch order (Z.to_nat size) (bt_pending b) in Some (batch, mkBatcher pending true).
Definition endFlush (b : Batcher A) : Batcher A := b <| bt_inFlight := false |>.
End Batchers.

(** The table of the scheduler as the batchers read it. *)
Class RuntimeTable := { runtimesAt : nat -> gmap string Z }.

Section Flush.
Context {D : Type} `{!Decimal D} `{!Postgres D} `{!Env D} `{svc : !Services} `{tab : !RuntimeTable}.

(** What reaches a loop: to whom, and the value stored. *)
Definition deliver {N} (id : string) (generation : Z) (notice : N) : M D (list (string * Z * N)) :=
  do n <- tick; ret (if runtimeMatches (runtimesAt n) id generation then [(id, generation, notice)] else []).
Fixpoint deliverAll {N} (notices : list (string * Z * N)) : M D (list (string * Z * N)) :=
  match notices with
  | [] => ret []
  | (id, generation, notice) :: rest =>
      do one <- deliver id generation notice;
      do others <- deliverAll rest;
      ret (one ++ others)
  end.

Definition zeroItem : arbitrageMarketSnapshotBatchItem := mkBatchItem "" false 0 "" "" false zeroTime "" "" 0.
Definition failedNotice (req : snapshotRequest) : snapshotFlushNotice :=
  mkFlushNotice (sr_generation req) (sw_Sequence (sr_write req)) false false true zeroItem.
Definition itemNotice (req : snapshotRequest) (item : arbitrageMarketSnapshotBatchItem) : snapshotFlushNotice :=
  mkFlushNotice (sr_generation req) (sw_Sequence (sr_write req)) (bi_Applied item) (negb (bi_Applied item)) false item.
Definition noticeTo (req : snapshotRequest) (notice : snapshotFlushNotice) : string * Z * snapshotFlushNotice :=
  (sw_CombinationID (sr_write req), sr_generation req, notice).

(** The notices of a batch the store answered with [items]. *)
Definition itemNotices (batch : list snapshotRequest) (items : list arbitrageMarketSnapshotBatchItem)
    : list (string * Z * snapshotFlushNotice) :=
  let byID : gmap string snapshotRequest := list_to_map (map (fun req => (sw_CombinationID (sr_write req), req)) batch) in
  omap (fun item => (fun req => noticeTo req (itemNotice req item)) <$> byID !! bi_CombinationID item) items ++
  map (fun req => noticeTo req (failedNotice req))
    (List.filter (fun req => negb (existsb (fun item => bi_CombinationID item =?s sw_CombinationID (sr_write req)) items)) batch).

(** [flush] of the snapshot batcher, between the two critical sections. *)
Definition flushSnapshots (batch : list snapshotRequest) : M D (list (string * Z * snapshotFlushNotice)) :=
  do r <- BatchUpdateArbitrageMarketSnapshots (map sr_write batch);
  match r with
  | Err _ => deliverAll (map (fun req => noticeTo req (failedNotice req)) batch)
  | Ok items => deliverAll (itemNotices batch items)
  end.

(** [flush] of the lease batcher; a request is an identifier and a generation. *)
Definition flushLeases (lease : Duration) (batch : list (string * Z)) : M D (list (string * Z * leaseRenewNotice)) :=
  do r <- RenewArbitrageLeases (map fst batch) lease;
  deliverAll (map (fun '(id, generation) =>
    (id, generation, match r with
                     | Err _ => mkLeaseNotice generation true false
                     | Ok renewed => mkLeaseNotice generation false (bool_decide (id ∈ renewed))
                     end)) batch).

(** [flush] of the control batcher over the loops [replicas] of the table. *)
Definition probesOf (table : gmap string Z) (chunk : list string) (r : Result arbitrageControlSummaryBatch)
    : list (string * Z * controlProbeSnapshot) :=
  omap (fun id => (fun generation =>
    (id, generation, match r with
                     | Err _ => mkControlProbe true true false (mkControlSummary 0 "" "")
                     | Ok batch => match sb_Found batch !! id with
                                   | Some summary => mkControlProbe true false false summary
                                   | None => mkControlProbe true false true (mkControlSummary 0 "" "")
                                   end
                     end)) <$> table !! id) chunk.
Fixpoint flushChunks (table : gmap string Z) (chunks : list (list string)) : M D (list (string * Z * controlProbeSnapshot)) :=
  match chunks with
  | [] => ret []
  | chunk :: rest =>
      do r <- ListArbitrageControlSummaries chunk;
      do here <- deliverAll (probesOf table chunk r);
      do others <- flushChunks table rest;
      ret (here ++ others)
  end.
Definition flushControls (order : list string) : M D (list (string * Z * controlProbeSnapshot)) :=
  do n <- tick;
  let table := runtimesAt n in
  flushChunks table (chunkStrings (List.filter (fun id => isSome (table !! id)) order) arbitrageControlSummaryBatchSize).
End Flush.

(** ** Every loop is answered *)

Lemma chunkFrom_concat fuel ids size : (length ids <= fuel)%nat -> (0 < size)%nat ->
  concat (chunkFrom fuel ids size) = ids /\ Forall (fun c => c <> [] /\ (length c <= size)%nat) (chunkFrom fuel ids size).
Proof.
  revert ids. induction fuel as [|fuel IH]; intros ids Hf Hs.
  - destruct ids; [|cbn in Hf; lia]. done.
  - destruct ids as [|i ids]; [done|]. cbn [chunkFrom concat]. destruct (IH (skipn size (i :: ids))) as [Hc Hl]; [|done|].
    + rewrite length_skipn. cbn in *. lia.
    + split; [rewrite Hc; apply firstn_skipn|]. constructor; [|done]. split; [destruct size; [lia|done]|]. rewrite length_firstn. apply Nat.le_min_l.
Qed.
Lemma chunkStrings_concat ids size : concat (chunkStrings ids size) = ids.
Proof.
  unfold chunkStrings. destruct (size <=? 0) eqn:E; cbn [orb].
  - destruct (Z.of_nat (length ids) =? 0) eqn:F; [|cbn; apply app_nil_r]. destruct ids; [done|]. apply Z.eqb_eq in F. cbn in F. lia.
  - destruct (Z.of_nat (length ids) =? 0) eqn:F; [destruct ids; [done|apply Z.eqb_eq in F; cbn in F; lia]|].
    apply Z.leb_gt in E. apply chunkFrom_concat; lia.
Qed.

Section Answered.
Context {D : Type} `{!Decimal D} `{!Postgres D} `{!Env D} `{svc : !Services} `{tab : !RuntimeTable}.

Lemma deliverAll_all {N} (notices : list (string * Z * N)) (w : World D) :
  (forall n id g x, (id, g, x) ∈ notices -> runtimesAt n !! id = Some g) -> fst (deliverAll notices w) = notices.
Proof.
  revert w. induction notices as [|[[id g] x] rest IH]; intros w H; [done|]. cbn [deliverAll]. unfold deliver, bind, tick, ret. cbn.
  unfold runtimeMatches. rewrite bool_decide_true by (eapply H; left).
  specialize (IH (w <| w_tick := S (w_tick w) |>)). destruct (deliverAll rest _) as [others w']. cbn in *.
  rewrite IH; [done|]. intros n id' g' x' Hx. by eapply H; right.
Qed.

(** To whom a notice goes, and which request it answers. *)
Definition answers (d : string * Z * snapshotFlushNotice) : string * Z * Z * Z :=
  let '(id, g, n) := d in (id, g, fn_generation n, fn_seq n).
Definition asked (req : snapshotRequest) : string * Z * Z * Z :=
  (sw_CombinationID (sr_write req), sr_generation req, sr_generation req, sw_Sequence (sr_write req)).

(** The requests of a batch: one per combination, as they stand in the map of
    the batcher. *)
Definition wellKeyed (batch : list snapshotRequest) : Prop :=
  NoDup (map (fun req => sw_CombinationID (sr_write req)) batch) /\
  Forall (fun req => TrimSpace (sw_CombinationID (sr_write req)) = sw_CombinationID (sr_write req)) batch.

Lemma itemNotices_all batch items :
  wellKeyed batch -> map bi_CombinationID items = map (fun req => sw_CombinationID (sr_write req)) batch ->
  map answers (itemNotices batch items) = map asked batch.
Proof.
  intros [Hn _] Hi. unfold itemNotices. cbv zeta. set (byID := list_to_map _ : gmap string snapshotRequest).
  assert (forall req, req ∈ batch -> byID !! sw_CombinationID (sr_write req) = Some req) as Hby.
  { intros req Hr. subst byID. apply elem_of_list_to_map_1; [by rewrite map_map|]. apply list_elem_of_In, in_map_iff. exists req. by split; [|apply list_elem_of_In]. }
  assert (List.filter (fun req => negb (existsb (fun item => bi_CombinationID item =?s sw_CombinationID (sr_write req)) items)) batch = []) as ->.
  { assert (forall req, req ∈ batch -> existsb (fun item => bi_CombinationID item =?s sw_CombinationID (sr_write req)) items = true) as He.
    { intros req Hr. apply existsb_exists. assert (In (sw_CombinationID (sr_write req)) (map bi_CombinationID items)) as Hx.
      { rewrite Hi. apply in_map_iff. exists req. by split; [|apply list_elem_of_In]. }
      apply in_map_iff in Hx as (item & E & Hx). exists item. split; [done|]. rewrite E. apply String.eqb_refl. }
    clear -He. induction batch as [|req batch IH]; [done|]. cbn. rewrite He by left. apply IH. intros r Hr. apply He. by right. }
  cbn [map]. rewrite app_nil_r. clear Hn. clearbody byID. revert items Hi. induction batch as [|req batch IH]; intros [|item items] Hi; try done.
  cbn in Hi. injection Hi as E Hi. cbn. rewrite E, Hby by left. cbn. f_equal. apply IH; [|done]. intros r Hr. apply Hby. by right.
Qed.

Lemma writeItems_ids t (st : Store D) writes answered :
  writeItems t st writes = Ok answered -> map (fun a => bi_CombinationID (snd a)) answered = map (fun w => TrimSpace (sw_CombinationID w)) writes.
Proof.
  revert answered. induction writes as [|x writes IH]; cbn [writeItems]; [by intros _ [= <-]|].
  intros answered. destruct (writeItem t st x) as [one|] eqn:E; [|done]. destruct (writeItems t st writes) as [others|]; [|done].
  intros [= <-]. cbn [map]. rewrite (IH _ eq_refl). f_equal.
  unfold writeItem in E. cbv zeta in E. repeat (case_match; simplify_eq/=; try done).
Qed.

Lemma batchUpdate_ids batch (w : World D) items :
  wellKeyed batch -> fst (BatchUpdateArbitrageMarketSnapshots (map sr_write batch) w) = Ok items ->
  map bi_CombinationID items = map (fun req => sw_CombinationID (sr_write req)) batch.
Proof.
  intros [_ Ht] H. assert (map (fun x => TrimSpace (sw_CombinationID x)) (map sr_write batch) = map (fun req => sw_CombinationID (sr_write req)) batch) as Em.
  { rewrite map_map. clear -Ht. induction Ht as [|req batch E _ IH]; [done|]. cbn. by rewrite E, IH. }
  rewrite <- Em. clear Em Ht. unfold BatchUpdateArbitrageMarketSnapshots in H.
  destruct (map sr_write batch) as [|x writes]; [by injection H as <-|]. destruct (forallb _ _); [|done].
  unfold sql, transact, batchSnapshotTransaction in H. destruct (dbFault _) as [[? ?]|]; [done|].
  destruct (writeItems _ _ _) as [answered|] eqn:E; [|done]. cbn in H. injection H as <-. rewrite map_map. by eapply writeItems_ids.
Qed.

Lemma flushSnapshots_all table batch (w : World D) :
  (forall n, runtimesAt n = table) -> wellKeyed batch ->
  (forall req, req ∈ batch -> table !! sw_CombinationID (sr_write req) = Some (sr_generation req)) ->
  map answers (fst (flushSnapshots batch w)) = map asked batch.
Proof.
  intros Ht Hk Hs. unfold flushSnapshots, bind. pose proof (batchUpdate_ids batch w) as Hi.
  destruct (BatchUpdateArbitrageMarketSnapshots _ w) as [[items|e] w'].
  - specialize (Hi items Hk eq_refl). pose proof (itemNotices_all _ _ Hk Hi) as Ha. rewrite deliverAll_all; [done|].
    intros n id g x Hx. rewrite Ht. assert (In (answers (id, g, x)) (map asked batch)) as Hx'.
    { rewrite <- Ha. apply in_map. by apply list_elem_of_In. }
    apply in_map_iff in Hx' as (req & E & Hr). unfold asked, answers in E. injection E as <- <- _ _. by apply Hs, list_elem_of_In.
  - rewrite deliverAll_all; [by rewrite map_map|]. intros n id g x Hx. rewrite Ht.
    apply list_elem_of_In, in_map_iff in Hx as (req & E & Hr). unfold noticeTo in E. injection E as <- <- _. by apply Hs, list_elem_of_In.
Qed.
Lemma flushLeases_all table lease batch (w : World D) :
  (forall n, runtimesAt n = table) -> (forall id g, (id, g) ∈ batch -> table !! id = Some g) ->
  map (fun d => (fst d, ln_generation (snd d))) (fst (flushLeases lease batch w)) = map (fun '(id, g) => (id, g, g)) batch.
Proof.
  intros Ht Hl. unfold flushLeases, bind. destruct (RenewArbitrageLeases _ _ w) as [r w'].
  rewrite deliverAll_all.
  - rewrite map_map. apply map_ext. intros [id g]. by destruct r.
  - intros n id g x Hx. rewrite Ht. apply list_elem_of_In, in_map_iff in Hx as ([id' g'] & E & Hr). injection E as <- <- _. by apply Hl, list_elem_of_In.
Qed.
Lemma probesOf_all table chunk r :
  (forall id, id ∈ chunk -> is_Some (table !! id)) -> map (fun d => fst (fst d)) (probesOf table chunk r) = chunk.
Proof.
  unfold probesOf. induction chunk as [|id chunk IH]; intros H; [done|]. cbn. destruct (H id) as [g ->]; [by left|]. cbn.
  f_equal. apply IH. intros i Hi. apply H. by right.
Qed.
Lemma probesOf_table table chunk r id g x : (id, g, x) ∈ probesOf table chunk r -> table !! id = Some g.
Proof.
  unfold probesOf. intros (i & Hi & E)%list_elem_of_omap. destruct (table !! i) as [g'|] eqn:F; [|done]. cbn in E. injection E as <- <- _. done.
Qed.
Lemma flushChunks_all table chunks (w : World D) :
  (forall n, runtimesAt n = table) -> (forall id, id ∈ concat chunks -> is_Some (table !! id)) ->
  map (fun d => fst (fst d)) (fst (flushChunks table chunks w)) = concat chunks.
Proof.
  intros Ht. revert w. induction chunks as [|chunk chunks IH]; intros w H; [done|]. cbn [flushChunks concat]. unfold bind.
  destruct (ListArbitrageControlSummaries chunk w) as [r w1]. pose proof (deliverAll_all (probesOf table chunk r) w1) as Hd.
  destruct (deliverAll _ w1) as [here w2]. cbn in Hd. specialize (IH w2). destruct (flushChunks table chunks w2) as [others w3]. cbn in *.
  rewrite map_app, IH by (intros id Hid; apply H, elem_of_app; by right).
  f_equal. rewrite Hd; [|intros n id g x Hx; rewrite Ht; by eapply probesOf_table].
  apply probesOf_all. intros id Hid. apply H, elem_of_app. by left.
Qed.

End Answered.

(** ** Receipts *)

Section Receipts.
Context {D : Type} `{!Decimal D} `{!Postgres D} `{!Env D} `{svc : !Services} `{tab : !RuntimeTable} `{cfg : !SchedulerConfig} `{sur : !Surroundings D}.

(** The numbers of the snapshots are not touched by reading the row. *)
Definition numbers (inFlight low : Z) (rt : Runtime) (_ : Store D) : Prop :=
  rt_snapshotInFlightSeq rt = inFlight /\ low <= rt_lastAppliedSnapshotSeq rt.

Lemma numbers_set {B} inFlight low f (k : unit -> R D B) Q :
  (forall rt, rt_snapshotInFlightSeq (f rt) = rt_snapshotInFlightSeq rt /\ rt_lastAppliedSnapshotSeq (f rt) = rt_lastAppliedSnapshotSeq rt) ->
  rholds (numbers inFlight low) (k tt) Q -> rholds (numbers inFlight low) (rbind (setRuntime f) k) Q.
Proof.
  intros Hf Hk. apply (rh_bind _ _ _ (fun _ => numbers inFlight low)); [|by intros []]. apply rh_set. intros rt st [H1 H2].
  destruct (Hf rt) as [E1 E2]. split; congruence.
Qed.
Lemma numbers_combination {B} inFlight low (k : ArbitrageCombination -> R D B) Q :
  (forall c, rholds (numbers inFlight low) (k c) Q) -> rholds (numbers inFlight low) (rbind combination k) Q.
Proof. intros Hk rt w H. by apply (Hk (rt_combination rt) rt w). Qed.
Lemma numbers_lift {A B} inFlight low (m : M D A) (k : A -> R D B) Q :
  (forall a, rholds (numbers inFlight low) (k a) Q) -> rholds (numbers inFlight low) (rbind (lift m) k) Q.
Proof.
  intros Hk. apply (rh_bind _ _ _ (fun _ => numbers inFlight low)); [|done]. apply rh_lift. intros rt w H. done.
Qed.

Lemma reload_numbers inFlight low : rholds (numbers inFlight low) reloadSnapshot (fun _ => numbers inFlight low).
Proof.
  unfold reloadSnapshot. apply (rh_bind _ _ _ (fun _ => numbers inFlight low)).
  - unfold reloadCombination. apply numbers_combination. intros c. apply numbers_lift. intros [item|e]; [|by apply rh_pure].
    apply numbers_set; [|by apply rh_pure]. intros rt. cbv zeta. by destruct (_ && _).
  - intros [stop refreshed]. apply (rh_bind _ _ _ (fun _ => numbers inFlight low)); [|intros ?; by apply rh_pure].
    destruct stop; [by apply rh_pure|]. apply rh_set. by intros rt st H.
Qed.

(** A receipt moves the last applied number only forwards. *)
Lemma applyReceipt_numbers inFlight low notice t :
  low <= fn_seq notice -> rholds (numbers inFlight low) (applyReceipt notice t) (fun _ => numbers inFlight low).
Proof.
  intros Hs. unfold applyReceipt. apply numbers_combination. intros c. cbv zeta.
  destruct (fn_failed notice); [apply numbers_set; [done|by apply rh_pure]|].
  destruct (fn_applied notice).
  - apply (rh_bind _ _ _ (fun _ => numbers inFlight low)); [apply rh_set; by intros rt st [H _]|]. intros _.
    destruct (negb _); [apply reload_numbers|]. apply numbers_set; [done|]. apply numbers_set; [done|by apply rh_pure].
  - apply numbers_set; [done|]. destruct (_ || _ || _); [apply reload_numbers|]. apply numbers_set; [done|by apply rh_pure].
Qed.

(** Receipts.  The notice a batch gives a loop for its snapshot under way
    frees the loop to write the next one; the number of the last applied
    snapshot never goes back; a receipt that a later write has overtaken
    changes nothing of the combination. *)
Theorem receipt_frees_loop (batch : list snapshotRequest) (table : gmap string Z) (req : snapshotRequest) (rt : Runtime) (w : World D) :
  (forall n, runtimesAt n = table) -> wellKeyed batch ->
  (forall r, r ∈ batch -> table !! sw_CombinationID (sr_write r) = Some (sr_generation r)) ->
  req ∈ batch -> sr_generation req = rt_generation rt -> sw_Sequence (sr_write req) = rt_snapshotInFlightSeq rt ->
  exists notice, (sw_CombinationID (sr_write req), rt_generation rt, notice) ∈ fst (flushSnapshots batch w) /\
    forall w', snapshotNoticeAt (w_tick w') = Some notice ->
      let rt' := snd (fst (applySnapshotReceipt rt w')) in
      rt_snapshotInFlightSeq rt' = 0 /\ rt_lastAppliedSnapshotSeq rt <= rt_lastAppliedSnapshotSeq rt' /\
      (fn_seq notice < rt_lastAppliedSnapshotSeq rt -> rt_combination rt' = rt_combination rt).
Proof.
  intros Ht Hk Hs Hr Hg Hq. pose proof (flushSnapshots_all table batch w Ht Hk Hs) as Ha.
  assert (In (asked req) (map answers (fst (flushSnapshots batch w)))) as Hin by (rewrite Ha; apply in_map; by apply list_elem_of_In).
  apply in_map_iff in Hin as ([[id g] notice] & E & Hin). unfold answers, asked in E. injection E as -> -> Eg Eq.
  exists notice. split; [rewrite <- Hg; by apply list_elem_of_In|]. intros w' Hn. cbv zeta.
  unfold applySnapshotReceipt, rbind, lift, tick, bind, getRuntime, ret, now, timeNow. cbn. rewrite Hn, Eg, Hg, Z.eqb_refl. cbn [negb].
  rewrite Eq, Hq, Z.eqb_refl. cbn. destruct (rt_snapshotInFlightSeq rt <? rt_lastAppliedSnapshotSeq rt) eqn:Hlt.
  - cbn. split; [done|]. split; [lia|done].
  - set (rt1 := rt <| rt_snapshotInFlightSeq := 0 |>). set (w1 := w' <| _ := _ |> <| _ := _ |>).
    destruct (applyReceipt_numbers 0 (rt_lastAppliedSnapshotSeq rt) notice (clock (S (w_tick w'))) ltac:(lia) rt1 w1 ltac:(done)) as [H0 H1].
    split; [exact H0|]. split; [exact H1|]. lia.
Qed.
End Receipts.

(** ** Concrete instances *)

Section BatchWitnesses.
#[local] Existing Instance stillEnv.
#[local] Existing Instance simpleServices.
#[local] Existing Instance plainConfig.
#[local] Existing Instance plainSurroundings.

Definition oneLoopTable : gmap string Z := {["c1"%string := 1]}.
Definition oneLoop : RuntimeTable := {| runtimesAt _ := oneLoopTable |}.
#[local] Existing Instance oneLoop.
Definition oneRequest : snapshotRequest := mkSnapshotRequest (mkSnapshotWrite "c1" "10" "9" 0 0 1) 1.
Definition waitingRuntime : Runtime := (newRuntime buildingItem 1 0 ∅) <| rt_snapshotSequence := 1 |> <| rt_snapshotInFlightSeq := 1 |>.
Definition tradedLeg : ArbitrageLeg := zero_ArbitrageLeg <| l_Exchange := "binance"%string |> <| l_ContractType := "perpetual"%string |> <| l_ExchangeSymbol := "BTCUSDT"%string |>.
Definition tradedItem : ArbitrageCombination := buildingItem <| c_LegA := tradedLeg |> <| c_LegB := tradedLeg |>.
Definition startedLoops : Loops := enterRuntime ("c1"%string, 1) (subscribeItem true tradedItem newLoops).

Lemma oneRequest_keyed : wellKeyed [oneRequest].
Proof. split; [apply NoDup_singleton|]. by constructor. Qed.
Lemma oneRequest_listed r : r ∈ [oneRequest] -> oneLoopTable !! sw_CombinationID (sr_write r) = Some (sr_generation r).
Proof. by intros ->%list_elem_of_singleton. Qed.

Lemma one_loop_per_combination_witness : lo_live startedLoops = [("c1"%string, 1)] /\ runtimeMatches (lo_runtimes startedLoops) "c1" 1 = true.
Proof.
  assert (("c1"%string, 1) ∈ lo_live startedLoops) as H by (vm_compute; left).
  split; [vm_compute; reflexivity|]. pose proof (one_loop_per_combination startedLoops "c1" 1 1) as T.
  refine (proj1 (proj2 (T _ H H))).
  eapply rtc_l; [exact (loops_subscribe true tradedItem newLoops)|]. eapply rtc_l; [|apply rtc_refl]. apply loops_enter. vm_compute. left.
Defined.
Lemma receipt_frees_loop_witness :
  exists notice, ("c1"%string, 1, notice) ∈ fst (flushSnapshots [oneRequest] buildingWorld).
Proof.
  pose proof (receipt_frees_loop [oneRequest] oneLoopTable oneRequest waitingRuntime buildingWorld) as H.
  specialize (H (fun _ => eq_refl) oneRequest_keyed oneRequest_listed). destruct H as (notice & H & _); [left|reflexivity|reflexivity|].
  exists notice. exact H.
Defined.
End BatchWitnesses.
