(* ===== verification/Auditor.v ===== *)
(** * The position auditor (arbitrage_position_auditor.go,
      arbitrage_liquidation_distance_exit.go, arbitrage_repository.go)

    The auditor compares the positions of quiet combinations with what the
    accounts report.  A difference that could be traded is first explained with
    the fills the venue reports, and marks the combination as uncertain when it
    remains; a closing combination whose account is back at its baseline is
    settled; a leg too close to its liquidation price starts the exit of a
    one-shot.  Portfolios, fill readers and valuations are parameters. *)
From Stdlib Require Import ZArith QArith Lqa String.
From stdpp Require Import base strings list gmap sorting.
From S2P Require Import Prelude Decimal DecimalRef Types Quantity Validate ArbMath ArbHedge Resolution Store OrderStore OrderService ArbStore FlattenStore ArbLedger CircuitStore Reconciler Scheduler SchedulerSafe.

#[local] Set Warnings "-clear-no-such-hyp".

(** ** Data *)

(** [auditedAccount] *)
Record auditedAccount := mkAudited { aa_credentials : Credentials; aa_snapshot : PortfolioSnapshot }.

(** [auditFill]: a fill as a venue reports it. *)
Record auditFill := mkAuditFill { fl_orderID : string; fl_quantity : string; fl_price : string }.

(** [closingExternalFlatReconcileRequest] *)
Record closingExternalFlatReconcileRequest (D : Type) := mkFlatReconcile {
  fq_CombinationID : string;
  fq_ExpectedVersion : Z;
  fq_VenueA : D;
  fq_VenueB : D
}.
Arguments mkFlatReconcile {D}.
Arguments fq_CombinationID {D}.
Arguments fq_ExpectedVersion {D}.
Arguments fq_VenueA {D}.
Arguments fq_VenueB {D}.

(** What an audit compares: the expected positions, the differences and
    whether one of them matters. *)
Record AuditReading (D : Type) := mkReading {
  rd_expectedA : D;
  rd_expectedB : D;
  rd_diffA : D;
  rd_diffB : D;
  rd_uncertain : bool
}.
Arguments mkReading {D}.
Arguments rd_expectedA {D}.
Arguments rd_expectedB {D}.
Arguments rd_diffA {D}.
Arguments rd_diffB {D}.
Arguments rd_uncertain {D}.

(** How an audit ends: with the exit it signals to the loop of the
    combination, put off, or with an error. *)
Inductive AuditEnd :=
| AuditDone (signal : option (string * Z))
| AuditPutOff (reason : string)
| AuditFailed (e : GoError).

(** The counters of the auditor and the exits it signalled in a round. *)
Record AuditRound := mkAuditRound {
  ar_deferredVersionConflict : Z;
  ar_deferredActiveWork : Z;
  ar_signals : list (string * Z)
}.
#[export] Instance eta_AuditRound : Eta AuditRound := fun r =>
  mkAuditRound (ar_deferredVersionConflict r) (ar_deferredActiveWork r) (ar_signals r).

(** The accounts of a round, by owner, account and exchange. *)
Definition AuditCache : Type := gmap (string * Z * string) (Result auditedAccount).

(** What the auditor reads: portfolios and trades of an account, the fill
    reader of a decentralised venue, when its adapter has one, the valuation of
    a combination, whether the context has ended, in which order a map of two
    accounts is ranged over, and the [created_at] of the rows of the event
    table. *)
Class AuditSurroundings := {
  auditSnapshot : nat -> string -> Credentials -> Result PortfolioSnapshot;
  auditTradeFills : nat -> string -> Credentials -> GoTime -> GoTime -> Result (list auditFill);
  auditFillReader : string -> option (nat -> Credentials -> VenueInstrument -> GoTime -> Result (list auditFill));
  auditValuation : nat -> string -> option ArbitrageValuation;
  auditEnds : nat -> bool;
  accountsSwapped : nat -> bool;
  eventCreatedAt : nat -> GoTime
}.

Definition errFlatSnapshotStale : GoError := mkError [errLastCloseExternalFlatSnapshotStale] "closing external flat snapshot is not after last close recovery".

(** ** Rules *)

Definition dexArbitrageVenue (value : string) : bool :=
  existsb (String.eqb (ToLower (TrimSpace value))) ["hyperliquid"; "aster"; "lighter"]%string.

Section AuditRules.
Context {D : Type} `{!Decimal D}.
Local Open Scope dec_scope.

Definition venueMatchesCreationBaseline (venue baseline : D) : bool := dIsZero (venue - baseline).

Definition closingExternalFlatErrorAccepted (c : ArbitrageCombination) : bool :=
  HasPrefix (c_ErrorMessage c) arbitragePositionAuditErrorPrefix ||
  ((c_ErrorMessage c =?s err_text errUnsafeHedge) && EqualFold (TrimSpace (c_RuntimeState c)) "position_uncertain" && negb (c_CircuitOpen c)).

Definition closingExternalFlatReady (c : ArbitrageCombination) (venueA venueB : D) : bool :=
  let baselineA := parseDecimal (c_LegAVenueBaselineBasePosition c) in
  let baselineB := parseDecimal (c_LegBVenueBaselineBasePosition c) in
  if negb (EqualFold (TrimSpace (c_Status c)) "closing") || negb (c_PositionUncertain c) then false
  else if negb (closingExternalFlatErrorAccepted c) then false
  else if negb (EqualFold (l_ContractType (c_LegA c)) "perpetual") || negb (EqualFold (l_ContractType (c_LegB c)) "perpetual") then false
  else if negb (circuitOpenBaselineComplete c) then false
  else if negb (venueMatchesCreationBaseline venueA baselineA) || negb (venueMatchesCreationBaseline venueB baselineB) then false
  else venueMatchesCreationBaseline (parseDecimal (c_LegAVenueBasePosition c)) baselineA &&
       venueMatchesCreationBaseline (parseDecimal (c_LegBVenueBasePosition c)) baselineB.

(** A difference matters when it could be traded, or when the rules that say
    so are unknown. *)
Definition positionDifferenceMaterial (difference price : D) (instrument : Instrument) : bool :=
  match executableHedgeQuantity (dAbs difference) price instrument false with
  | (quantity, _, Some _) => dIsPositive quantity
  | (_, executable, None) => executable
  end.

Definition arbitragePositionAuditMark (c : ArbitrageCombination) : D :=
  let positionNotional := dAbs (parseDecimal (c_PositionNotional c)) in
  let pairedBase := dMin (dAbs (parseDecimal (c_LegABasePosition c))) (dAbs (parseDecimal (c_LegBBasePosition c))) in
  if negb (dIsPositive positionNotional) || negb (dIsPositive pairedBase) then dZero else dDiv positionNotional pairedBase.

(** The positions of the leg on the side of the ledger; [None] when one of them
    cannot be read or contradicts itself. *)
Fixpoint legPositions (leg : ArbitrageLeg) (wantLong : bool) (positions : list PortfolioPosition) : option (list PortfolioPosition) :=
  match positions with
  | [] => Some []
  | p :: rest =>
      if negb (positionOfLeg leg p) then legPositions leg wantLong rest
      else match dNewFromString (D := D) (TrimSpace (pp_SignedContractSize p)) with
      | None => None
      | Some signed =>
          let side := ToLower (TrimSpace (pp_Side p)) in
          if dIsZero signed then None
          else if ((side =?s "long") && dIsNegative signed) || ((side =?s "short") && dIsPositive signed) then None
          else if negb (Bool.eqb (dIsPositive signed) wantLong) then legPositions leg wantLong rest
          else option_map (cons p) (legPositions leg wantLong rest)
      end
  end.

Definition liquidationDistancePct (snapshot : PortfolioSnapshot) (leg : ArbitrageLeg) (legBasePosition : string) : string :=
  let ledger := parseDecimal (D := D) legBasePosition in
  let wantLong := dIsPositive ledger in
  if negb (EqualFold (TrimSpace (l_ContractType leg)) "perpetual") then ""%string
  else if dIsZero ledger then ""%string
  else match legPositions leg wantLong (ps_Positions snapshot) with
  | Some [p] =>
      let mark := parsePositiveDecimal (D := D) (pp_MarkPrice p) in
      let liquidation := parsePositiveDecimal (D := D) (pp_LiquidationPrice p) in
      if negb (dIsPositive mark) || negb (dIsPositive liquidation) then ""%string
      else dString (dMul (dDiv (if wantLong then mark - liquidation else liquidation - mark) mark) (dNewFromInt 100))
  | _ => ""%string
  end.

Definition liquidationDistanceHit (raw : string) (threshold : D) : bool :=
  if TrimSpace raw =?s "" then false
  else match dNewFromString (D := D) (TrimSpace raw) with
  | None => false
  | Some distance => distance <=? threshold
  end.

(** The leg of the exit that [maybeTriggerLiquidationDistanceExit] starts, when
    there is one. *)
Definition liquidationExitDue (c : ArbitrageCombination) : bool :=
  let raw := TrimSpace (c_EarlyExitLiquidationDistancePct c) in
  if (raw =?s "") || negb (EqualFold (TrimSpace (c_RunMode c)) "one_shot") ||
     (negb (c_OneShotPhase c =?s "building_target") && negb (c_OneShotPhase c =?s "waiting_exit")) ||
     c_PositionUncertain c || EqualFold (TrimSpace (c_RuntimeState c)) "manual_intervention" then false
  else match dNewFromString (D := D) raw with
  | None => false
  | Some threshold =>
      dIsPositive threshold &&
      (liquidationDistanceHit (c_LegALiquidationDistancePct c) threshold || liquidationDistanceHit (c_LegBLiquidationDistancePct c) threshold)
  end.

(** *** Fills by order *)

(** [ordersByVenueID]: of the orders with one identifier the last one. *)
Definition orderOfFill (orders : list Order) (venueID : string) : option Order :=
  List.find (fun o => negb (o_VenueOrderID o =?s "") && (o_VenueOrderID o =?s venueID)) (rev orders).

(** Quantity and notional of the fills of an order. *)
Definition FillTotals : Type := gmap string (D * D).

Definition addFill (orders : list Order) (accountID : Z) (iA iB : Instrument) (totals : FillTotals) (fill : auditFill) : Result FillTotals :=
  match orderOfFill orders (fl_orderID fill) with
  | None => Ok totals
  | Some order =>
      if negb (o_TradingAccountID order =? accountID)%Z then Ok totals
      else match FromVenueQuantity (D := D) (toVenueInstrument (if o_ArbitrageLeg order =?s "b" then iB else iA)) (fl_quantity fill) with
      | Err e => Err e
      | Ok quantity =>
          match dNewFromString (D := D) quantity, dNewFromString (D := D) (fl_price fill) with
          | Some base, Some price =>
              if negb (dIsPositive base) || dIsNegative price then Ok totals
              else
                let '(q, n) := default (dZero, dZero) (totals !! o_ID order) in
                Ok (<[o_ID order := (q + base, n + dMul base price)]> totals)
          | _, _ => Ok totals
          end
      end
  end.
Fixpoint sumFills (orders : list Order) (accountID : Z) (iA iB : Instrument) (totals : FillTotals) (fills : list auditFill) : Result FillTotals :=
  match fills with
  | [] => Ok totals
  | fill :: rest =>
      match addFill orders accountID iA iB totals fill with
      | Err e => Err e
      | Ok totals => sumFills orders accountID iA iB totals rest
      end
  end.
End AuditRules.

(** ** The store *)

Section AuditStore.
Context {D : Type} `{!Decimal D} `{!Postgres D} `{!Env D} `{asur : !AuditSurroundings}.
Local Open Scope dec_scope.

Definition unsettledOrder (st : Store D) (id : string) : bool :=
  existsb (fun r => negb (terminalStatus (o_Status (row_order r))) || (0 <? o_ReconcileFailures (row_order r))%Z) (combinationOrders st id).

(** [ORDER BY last_position_reconciled_at ASC NULLS FIRST,updated_at ASC]. *)
Definition auditBefore (a b : CombinationRow) : Prop :=
  match cb_last_position_reconciled_at a, cb_last_position_reconciled_at b with
  | None, None => (c_UpdatedAt (cb_item a) <= c_UpdatedAt (cb_item b))%Z
  | None, Some _ => True
  | Some _, None => False
  | Some x, Some y => (x < y)%Z \/ x = y /\ (c_UpdatedAt (cb_item a) <= c_UpdatedAt (cb_item b))%Z
  end.
#[local] Instance auditBefore_dec : RelDecision auditBefore.
Proof. intros a b. unfold auditBefore. destruct (cb_last_position_reconciled_at a), (cb_last_position_reconciled_at b); apply _. Defined.

Definition auditCandidate (st : Store D) (r : CombinationRow) : bool :=
  let c := cb_item r in
  (liveCombination c ||
   ((c_Status c =?s "closed") && c_PositionUncertain c && HasPrefix (c_ErrorMessage c) arbitragePositionAuditErrorPrefix)) &&
  negb (hasActiveExecution st (c_ID c)) && negb (unsettledOrder st (c_ID c)).

Definition ListArbitrageCombinationsForPositionAudit (limit : Z) : M D (Result (list ArbitrageCombination)) :=
  let limit := if (limit <=? 0)%Z || (100 <? limit)%Z then 20%Z else limit in
  sql (fun _ st =>
    (Ok (map (scanCombination (D := D)) (firstn (Z.to_nat limit)
       (merge_sort auditBefore (List.filter (auditCandidate st) (map snd (map_to_list (st_combinations st))))))), st)).

(** The newest recovery event of the combination whose execution exists, with
    the status of that execution: [ORDER BY ev.created_at DESC LIMIT 1]. *)
Definition newestRecovery (st : Store D) (id : string) : option (GoTime * string) :=
  fold_left (fun best '(i, (c, e, t)) =>
      match (if (c =?s id) && (t =?s lastCloseResidualRecoveredEvent) then st_executions st !! e else None) with
      | None => best
      | Some x =>
          match best with
          | Some (at_, _) => if (at_ <? eventCreatedAt i)%Z then Some (eventCreatedAt i, x_Status (ex_item x)) else best
          | None => Some (eventCreatedAt i, x_Status (ex_item x))
          end
      end) (imap pair (st_arbitrageEvents st)) None.

Definition recoveredLastCloseFlatSnapshotReady (st : Store D) (combo : ArbitrageCombination) : bool :=
  match newestRecovery st (c_ID combo) with
  | Some (created, status) => (status =?s "completed") && (created <=? c_LastPositionReconciledAt combo)%Z
  | None => false
  end.

(** The positions become zero and the adjustments take what the account does
    not have. *)
Definition flattenedRow (request : closingExternalFlatReconcileRequest D) (adjustmentA adjustmentB : D) (dbnow : GoTime) (r : CombinationRow)
    : Result CombinationRow :=
  match numericText (D := D) (dString adjustmentA), numericText (D := D) (dString adjustmentB),
        numericText (D := D) (dString (fq_VenueA request)), numericText (D := D) (dString (fq_VenueB request)) with
  | Some ja, Some jb, Some va, Some vb =>
      Ok (touch dbnow (r <| cb_item := (cb_item r) <| c_LegAReconciliationAdjustment := ja |> <| c_LegBReconciliationAdjustment := jb |>
             <| c_LegABasePosition := "0"%string |> <| c_LegBBasePosition := "0"%string |> <| c_PositionNotional := "0"%string |>
             <| c_LegAPositionDifference := "0"%string |> <| c_LegBPositionDifference := "0"%string |>
             <| c_LegAVenueBasePosition := va |> <| c_LegBVenueBasePosition := vb |>
             <| c_PositionUncertain := false |> <| c_RuntimeState := "closing"%string |> <| c_ErrorMessage := ""%string |> |>
           <| cb_last_position_reconciled_at := Some dbnow |> <| cb_next_retry_at := NegInfinity |>))
  | _, _, _, _ => Err errOverflow
  end.

Definition flatRefused (request : closingExternalFlatReconcileRequest D) (combo : ArbitrageCombination) : bool :=
  negb (c_Version combo =? fq_ExpectedVersion request)%Z || negb (c_Status combo =?s "closing") || negb (c_PositionUncertain combo) ||
  negb (circuitOpenBaselineComplete combo) || negb (EqualFold (l_ContractType (c_LegA combo)) "perpetual") ||
  negb (EqualFold (l_ContractType (c_LegB combo)) "perpetual").

(** The account and the last snapshot of it are at the baseline. *)
Definition atBaseline (request : closingExternalFlatReconcileRequest D) (combo : ArbitrageCombination) : bool :=
  let baselineA := parseDecimal (c_LegAVenueBaselineBasePosition combo) in
  let baselineB := parseDecimal (c_LegBVenueBaselineBasePosition combo) in
  venueMatchesCreationBaseline (fq_VenueA request) baselineA && venueMatchesCreationBaseline (fq_VenueB request) baselineB &&
  venueMatchesCreationBaseline (parseDecimal (c_LegAVenueBasePosition combo)) baselineA &&
  venueMatchesCreationBaseline (parseDecimal (c_LegBVenueBasePosition combo)) baselineB.

Definition flatReconcileTransaction (request : closingExternalFlatReconcileRequest D) (dbnow : GoTime) (st : Store D)
    : Result (ArbitrageCombination * bool) * Store D :=
  let id := fq_CombinationID request in
  match st_combinations st !! id with
  | None => (Err errNotFound, st)
  | Some row =>
      let combo := scanCombination (D := D) row in
      let refused := (Ok (combo, false), st) in
      if flatRefused request combo then refused
      else if instrumentConflict st combo (otherCombination id) then refused
      else if hasActiveExecution st id then refused
      else if unsettledOrder st id then refused
      else
        let unsafe := c_ErrorMessage combo =?s err_text errUnsafeHedge in
        if unsafe && (c_CircuitOpen combo || negb (EqualFold (TrimSpace (c_RuntimeState combo)) "position_uncertain")) then refused
        else if unsafe && negb (recoveredLastCloseFlatSnapshotReady st combo) then (Err errFlatSnapshotStale, st)
        else if negb (atBaseline request combo) then refused
        else
          let diffA := fq_VenueA request - (parseDecimal (c_LegAVenueBaselineBasePosition combo) + parseDecimal (c_LegABasePosition combo)) in
          let diffB := fq_VenueB request - (parseDecimal (c_LegBVenueBaselineBasePosition combo) + parseDecimal (c_LegBBasePosition combo)) in
          match flattenedRow request (parseDecimal (c_LegAReconciliationAdjustment combo) + diffA)
                  (parseDecimal (c_LegBReconciliationAdjustment combo) + diffB) dbnow row with
          | Err e => (Err e, st)
          | Ok row' =>
              (Ok (scanCombination (D := D) row', true),
               st <| st_combinations := <[id := row']> (st_combinations st) |>
                  <| st_arbitrageEvents := st_arbitrageEvents st ++ [(id, ""%string, "closing_external_flat_reconciled"%string)] |>)
          end
  end.

Definition ApplyClosingExternalFlatReconcile (request : closingExternalFlatReconcileRequest D) : M D (Result (ArbitrageCombination * bool)) :=
  if TrimSpace (fq_CombinationID request) =?s "" then ret (Err errInvalidArgument) else sql (flatReconcileTransaction request).
End AuditStore.

(** ** Fills of the venue *)

Section AuditFills.
Context {D : Type} `{!Decimal D} `{!Postgres D} `{!Env D} `{asur : !AuditSurroundings}.
Local Open Scope dec_scope.

(** The instruments of the account on which a decentralised venue is asked. *)
Definition fillTargets (c : ArbitrageCombination) (accountID : Z) (iA iB : Instrument) : list Instrument :=
  let onA := (l_TradingAccountID (c_LegA c) =? accountID)%Z in
  let onB := (l_TradingAccountID (c_LegB c) =? accountID)%Z in
  (if onA then [iA] else []) ++ (if onB && (negb onA || negb (i_ID iB =? i_ID iA)%Z) then [iB] else []).

Fixpoint readerFills (reader : nat -> Credentials -> VenueInstrument -> GoTime -> Result (list auditFill)) (credentials : Credentials)
    (since : GoTime) (targets : list Instrument) : M D (Result (list auditFill)) :=
  match targets with
  | [] => ret (Ok [])
  | i :: rest =>
      do n <- tick;
      match reader n credentials (toVenueInstrument i) since with
      | Err e => ret (Err e)
      | Ok fills =>
          do more <- readerFills reader credentials since rest;
          ret (match more with Err e => Err e | Ok more => Ok (fills ++ more) end)
      end
  end.

Definition accountFills (c : ArbitrageCombination) (accountID : Z) (account : auditedAccount) (iA iB : Instrument) (since : GoTime)
    : M D (Result (list auditFill)) :=
  let credentials := aa_credentials account in
  if dexArbitrageVenue (cr_Exchange credentials) then
    match auditFillReader (cr_Exchange credentials) with
    | None => ret (Err (errPlain (String.append "DEX fill reader is unavailable for " (cr_Exchange credentials))))
    | Some reader => readerFills reader credentials since (fillTargets c accountID iA iB)
    end
  else
    do until <- timeNow;
    do n <- tick;
    ret (auditTradeFills n (cr_Exchange credentials) credentials since until).

(** The fills of all accounts, summed by order. *)
Fixpoint collectFills (c : ArbitrageCombination) (orders : list Order) (iA iB : Instrument) (since : GoTime)
    (accounts : list (Z * auditedAccount)) (totals : FillTotals (D := D)) : M D (Result FillTotals) :=
  match accounts with
  | [] => ret (Ok totals)
  | (accountID, account) :: rest =>
      do fills <- accountFills c accountID account iA iB since;
      match fills with
      | Err e => ret (Err e)
      | Ok fills =>
          match sumFills orders accountID iA iB totals fills with
          | Err e => ret (Err e)
          | Ok totals => collectFills c orders iA iB since rest totals
          end
      end
  end.

(** The orders the venue has filled further are updated: whether there was one
    and the executions whose fills changed, in the order they were met. *)
Fixpoint applyTotals (orders : list Order) (totals : FillTotals (D := D)) (changed : bool) (executionIDs : list string)
    : M D (Result (bool * list string)) :=
  match orders with
  | [] => ret (Ok (changed, executionIDs))
  | order :: rest =>
      match totals !! o_ID order with
      | None => applyTotals rest totals changed executionIDs
      | Some (quantity, notional) =>
          if negb (quantity >? parseDecimal (o_FilledQuantity order)) then applyTotals rest totals changed executionIDs
          else
            let average := if dIsPositive quantity then dDiv notional quantity else dZero in
            do answer <- UpdateResultWithFillDelta (o_ID order)
              (zero_VenueResult <| r_VenueOrderID := o_VenueOrderID order |> <| r_Status := o_Status order |>
                 <| r_FilledQuantity := dString quantity |> <| r_AveragePrice := dString average |>);
            match answer with
            | Err e => ret (Err e)
            | Ok (updated, filledChanged) =>
                let id := o_ArbitrageExecutionID updated in
                applyTotals rest totals true
                  (if negb filledChanged || (id =?s "") || existsb (String.eqb id) executionIDs then executionIDs else executionIDs ++ [id])
            end
      end
  end.

Fixpoint recomputeExecutions (c : ArbitrageCombination) (ids : list string) : M D (Result ArbitrageCombination) :=
  match ids with
  | [] => ret (Ok c)
  | id :: rest =>
      do updated <- RecomputeArbitrageBasePositionsForExecution id;
      match updated with
      | Err e => ret (Err e)
      | Ok updated => recomputeExecutions updated rest
      end
  end.

(** [map[int64]auditedAccount] as it is ranged over. *)
Definition accountsOf (c : ArbitrageCombination) (accountA accountB : auditedAccount) (swapped : bool) : list (Z * auditedAccount) :=
  let a := l_TradingAccountID (c_LegA c) in
  let b := l_TradingAccountID (c_LegB c) in
  if (a =? b)%Z then [(b, accountB)] else if swapped then [(b, accountB); (a, accountA)] else [(a, accountA); (b, accountB)].

(** [reconcileTradeFills]: the combination with its new positions; [None] when
    nothing changed. *)
Definition reconcileTradeFills (c : ArbitrageCombination) (accountA accountB : auditedAccount) (iA iB : Instrument)
    : M D (Result (option ArbitrageCombination)) :=
  do listed <- ListArbitrageOrders (c_OwnerUsername c) (c_ID c);
  match listed with
  | Err e => ret (Err e)
  | Ok orders =>
      if forallb (fun o => o_VenueOrderID o =?s "") orders then ret (Ok None)
      else
        do now <- timeNow;
        let since := if IsZeroTime (c_CreatedAt c) then TimeAdd now (- (7 * 24 * Hour))%Z else TimeAdd (c_CreatedAt c) (- Minute)%Z in
        do n <- tick;
        do totals <- collectFills c orders iA iB since (accountsOf c accountA accountB (accountsSwapped n)) ∅;
        match totals with
        | Err e => ret (Err e)
        | Ok totals =>
            do applied <- applyTotals orders totals false [];
            match applied with
            | Err e => ret (Err e)
            | Ok (false, _) => ret (Ok None)
            | Ok (true, ids) =>
                do refreshed <- recomputeExecutions c ids;
                ret (match refreshed with Err e => Err e | Ok c => Ok (Some c) end)
            end
        end
  end.
End AuditFills.

(** ** An audit *)

Section Audit.
Context {D : Type} `{!Decimal D} `{!Postgres D} `{!Env D} `{svc : !Services} `{asur : !AuditSurroundings}.
Local Open Scope dec_scope.

(** An account is read once per round, errors included. *)
Definition loadAccount (owner : string) (leg : ArbitrageLeg) (cache : AuditCache) : M D (Result auditedAccount * AuditCache) :=
  let key := (owner, l_TradingAccountID leg, ToLower (TrimSpace (l_Exchange leg))) in
  match cache !! key with
  | Some cached => ret (cached, cache)
  | None =>
      do n <- tick;
      do loaded <- (match credentialsInternal n owner (l_TradingAccountID leg) with
                    | Err e => ret (Err e)
                    | Ok credentials =>
                        do m <- tick;
                        ret (match auditSnapshot m (cr_Exchange credentials) credentials with
                             | Err e => Err e
                             | Ok snapshot => Ok (mkAudited credentials snapshot)
                             end)
                    end);
      ret (loaded, <[key := loaded]> cache)
  end.

Definition arbitragePositionAuditMarks (c : ArbitrageCombination) : M D (D * D) :=
  let mark := arbitragePositionAuditMark (D := D) c in
  if dIsPositive mark then ret (mark, mark)
  else
    do n <- tick;
    ret (match auditValuation n (c_ID c) with
         | None => (dZero, dZero)
         | Some valuation =>
             let markA := parsePositiveDecimal (va_LegAMid valuation) in
             let markB := parsePositiveDecimal (va_LegBMid valuation) in
             let markA := if dIsPositive markA then markA else markB in
             (markA, if dIsPositive markB then markB else markA)
         end).

(** The marks, with those of the portfolios in the place of missing ones. *)
Definition auditMarks (c : ArbitrageCombination) (accountA accountB : auditedAccount) : M D (D * D) :=
  do (markA, markB) <- arbitragePositionAuditMarks c;
  let markA := if dIsPositive markA then markA else portfolioAuditMark (aa_snapshot accountA) (c_LegA c) in
  let markB := if dIsPositive markB then markB else portfolioAuditMark (aa_snapshot accountB) (c_LegB c) in
  let markA := if dIsPositive markA then markA else markB in
  ret (markA, if dIsPositive markB then markB else markA).

(** What the ledger of the combination expects and the account shows. *)
Definition readPositions (c : ArbitrageCombination) (accountA accountB : auditedAccount) (iA iB : Instrument) (venueA venueB : D)
    : M D (AuditReading D) :=
  let '(expectedA, expectedB) := arbitrageExpectedVenuePositions c (parseDecimal (c_LegABasePosition c)) (parseDecimal (c_LegBBasePosition c)) in
  let diffA := venueA - expectedA in
  let diffB := venueB - expectedB in
  do (markA, markB) <- auditMarks c accountA accountB;
  ret (mkReading expectedA expectedB diffA diffB (positionDifferenceMaterial diffA markA iA || positionDifferenceMaterial diffB markB iB)).

Definition auditMessage (rd : AuditReading D) (venueA venueB : D) : string :=
  if rd_uncertain rd then
    Join [arbitragePositionAuditErrorPrefix;
          " leg_a_expected="; dString (rd_expectedA rd); " leg_a_observed="; dString venueA; " leg_a_difference="; dString (rd_diffA rd);
          " leg_b_expected="; dString (rd_expectedB rd); " leg_b_observed="; dString venueB; " leg_b_difference="; dString (rd_diffB rd)]%string ""
  else ""%string.

Definition maybeTriggerLiquidationDistanceExit (c : ArbitrageCombination) : M D (option (string * Z)) :=
  if negb (liquidationExitDue (D := D) c) then ret None
  else
    do marked <- MarkOneShotExiting (c_ID c) (c_Version c) "liquidation_distance_threshold";
    ret (match marked with
         | Ok (marked, true) => Some (c_ID c, c_Version marked)
         | _ => None
         end).

(** The events of a change the audit made. *)
Definition auditEvents (before after : ArbitrageCombination) : M D unit :=
  run (if c_PositionUncertain before && negb (c_PositionUncertain after)
       then AppendArbitrageEvent (c_ID before) "" "position_uncertain_recovered" else ret (Ok tt));
  run (if (c_RuntimeState before =?s "manual_intervention") && (c_RuntimeState after =?s "monitoring")
       then AppendArbitrageEvent (c_ID before) "" "manual_intervention_recovered" else ret (Ok tt));
  run (if negb (c_PositionUncertain before) && c_PositionUncertain after && HasPrefix (c_ErrorMessage after) arbitragePositionAuditErrorPrefix
       then AppendArbitrageEvent (c_ID before) "" "position_difference" else ret (Ok tt));
  ret tt.

(** The reading is written down. *)
Definition recordAudit (c : ArbitrageCombination) (accountA accountB : auditedAccount) (venueA venueB : D) (rd : AuditReading D) : M D AuditEnd :=
  do written <- UpdateArbitragePositionAudit (c_ID c) (c_Version c) (dString venueA) (dString venueB) (dString (rd_diffA rd)) (dString (rd_diffB rd))
    (rd_uncertain rd) (auditMessage rd venueA venueB)
    (liquidationDistancePct (D := D) (aa_snapshot accountA) (c_LegA c) (c_LegABasePosition c))
    (liquidationDistancePct (D := D) (aa_snapshot accountB) (c_LegB c) (c_LegBBasePosition c));
  match written with
  | AuditDeferred reason _ => ret (AuditPutOff reason)
  | AuditError e => ret (AuditFailed e)
  | AuditUpdated updated =>
      run auditEvents c updated;
      do signal <- maybeTriggerLiquidationDistanceExit updated;
      ret (AuditDone signal)
  end.

(** A difference that matters is looked for in the fills of the venue. *)
Definition auditPositions (c : ArbitrageCombination) (accountA accountB : auditedAccount) (iA iB : Instrument) (venueA venueB : D) : M D AuditEnd :=
  do rd <- readPositions c accountA accountB iA iB venueA venueB;
  if negb (rd_uncertain rd) then recordAudit c accountA accountB venueA venueB rd
  else
    do reconciled <- reconcileTradeFills c accountA accountB iA iB;
    match reconciled with
    | Ok (Some c) =>
        do rd <- readPositions c accountA accountB iA iB venueA venueB;
        recordAudit c accountA accountB venueA venueB rd
    | _ => recordAudit c accountA accountB venueA venueB rd
    end.

(** The positions were read: an account that is back at the baseline settles a
    closing combination. *)
Definition auditAccounts (c : ArbitrageCombination) (accountA accountB : auditedAccount) (iA iB : Instrument) : M D AuditEnd :=
  match venueBasePosition (D := D) (aa_snapshot accountA) (c_LegA c) iA, venueBasePosition (D := D) (aa_snapshot accountB) (c_LegB c) iB with
  | Err e, _ => ret (AuditFailed e)
  | _, Err e => ret (AuditFailed e)
  | Ok venueA, Ok venueB =>
      if closingExternalFlatReady c venueA venueB then
        do applied <- ApplyClosingExternalFlatReconcile (mkFlatReconcile (c_ID c) (c_Version c) venueA venueB);
        match applied with
        | Ok _ => ret (AuditDone None)
        | Err e =>
            if errorsIs e errLastCloseExternalFlatSnapshotStale then auditPositions c accountA accountB iA iB venueA venueB
            else ret (AuditFailed e)
        end
      else auditPositions c accountA accountB iA iB venueA venueB
  end.

Definition audit (c : ArbitrageCombination) (cache : AuditCache) : M D (AuditEnd * AuditCache) :=
  do iA <- callCatalog (l_InstrumentID (c_LegA c));
  match iA with
  | Err e => ret (AuditFailed e, cache)
  | Ok iA =>
      do iB <- callCatalog (l_InstrumentID (c_LegB c));
      match iB with
      | Err e => ret (AuditFailed e, cache)
      | Ok iB =>
          do (accountA, cache) <- loadAccount (c_OwnerUsername c) (c_LegA c) cache;
          match accountA with
          | Err e => ret (AuditFailed e, cache)
          | Ok accountA =>
              do (accountB, cache) <- loadAccount (c_OwnerUsername c) (c_LegB c) cache;
              match accountB with
              | Err e => ret (AuditFailed e, cache)
              | Ok accountB => do ended <- auditAccounts c accountA accountB iA iB; ret (ended, cache)
              end
          end
      end
  end.

Definition wrapU64 (z : Z) : Z := z mod 2 ^ 64.

Definition countAudit (ended : AuditEnd) (r : AuditRound) : AuditRound :=
  match ended with
  | AuditDone signal => r <| ar_signals := ar_signals r ++ match signal with Some s => [s] | None => [] end |>
  | AuditPutOff reason =>
      if reason =?s "version_conflict" then r <| ar_deferredVersionConflict := wrapU64 (ar_deferredVersionConflict r + 1) |>
      else r <| ar_deferredActiveWork := wrapU64 (ar_deferredActiveWork r + 1) |>
  | AuditFailed _ => r
  end.

Fixpoint auditItems (items : list ArbitrageCombination) (cache : AuditCache) (r : AuditRound) : M D AuditRound :=
  match items with
  | [] => ret r
  | item :: rest =>
      do n <- tick;
      if auditEnds n then ret r
      else
        do (ended, cache) <- audit item cache;
        auditItems rest cache (countAudit ended r)
  end.

(** [runOnce] of the auditor. *)
Definition auditOnce (batchSize : Z) (r : AuditRound) : M D AuditRound :=
  do items <- ListArbitrageCombinationsForPositionAudit batchSize;
  match items with
  | Err _ => ret r
  | Ok items => auditItems items ∅ r
  end.
End Audit.

(** ** A round is safe *)

Section AuditSafe.
Context {D : Type} `{!Decimal D} `{!DecimalLaws D} `{!Postgres D} `{!PostgresLaws D} `{!Env D} `{svc : !Services} `{asur : !AuditSurroundings}.

(** Later states of the tables: what the reconciler and the scheduler keep. *)
Definition auditedFrom (st0 st : Store D) : Prop := reconciledFrom st0 st /\ scheduledFrom st0 st.

Lemma audited_moves st0 (st st' : Store D) : tablesMove st st' -> auditedFrom st0 st -> auditedFrom st0 st'.
Proof. intros (Eo & Et & Hc & Hm) [Hr Hs]. split; [by eapply reconciled_tables|by eapply scheduled_moves]. Qed.

Lemma orderStep_phases (st st' : Store D) : storeTyped st -> orderStep st st' -> phasesMove st st'.
Proof.
  intros HT H.
  destruct H as [o result eventAt receivedAt stream fills skip n fault st r st' Hack H|id t st r st' H|o t st r st' _ H|o next t st r st' H
    |o next t st r st' H|o e next t st r st' H|l d t st r st' H];
    [apply phasesMove_same..| |apply phasesMove_same|apply phasesMove_same].
  - by destruct (apply_cases _ _ _ _ _ _ _ _ _ _ _ _ H HT Hack) as [(_ & _ & -> & _) _].
  - unfold refreshTransaction in H. repeat (case_match; simplify_eq/=; try done).
  - unfold createIntentTransaction in H. repeat (case_match; simplify_eq/=; try done).
  - by injection H as _ <-.
  - unfold markFailureTransaction in H. cbv zeta in H.
    destruct (st_orders st !! o) as [row|]; [|injection H as _ <-; by apply phasesMove_same].
    destruct (negb _); [injection H as _ <-; by apply phasesMove_same|].
    destruct (st_executions _ !! _) as [x|]; [|injection H as _ <-; by apply phasesMove_same].
    destruct (st_combinations _ !! _) as [c|] eqn:Hc; [|injection H as _ <-; by apply phasesMove_same].
    destruct (_ && _); injection H as _ <-; [|by apply phasesMove_same]. by eapply phasesMove_row; [exact Hc|reflexivity|].
  - unfold confirmTransaction in H. repeat (case_match; simplify_eq/=; try done).
  - by injection H as _ <-.
Qed.

Lemma audited_order st0 (st st' : Store D) : orderStep st st' -> auditedFrom st0 st -> auditedFrom st0 st'.
Proof.
  intros H [Hr Hs]. destruct (id Hr) as (HT & _). split; [by eapply reconciled_order|].
  eapply scheduled_moves; [left; by apply orderStep_executions|by apply orderStep_phases|done].
Qed.

Ltac still := match goal with H : (_, ?s) = (_, ?s') |- tablesMove ?s ?s' => injection H as _ <-; apply tablesMove_refl end.

Lemma recompute_moves e t (st st' : Store D) r : recomputeForExecution e t st = (r, st') -> tablesMove st st'.
Proof.
  intros H. pose proof (arbStep_change _ _ (astep_recompute _ _ _ _ _ H)) as Hc. unfold recomputeForExecution in H. cbv zeta in H.
  destruct (st_executions st !! e) as [row|]; [|still]. destruct (st_combinations st !! _) as [combo|]; [|still].
  destruct (executionFills _ _ _) as [fa fb]. destruct (numericAny _) as [a|]; [|still]. destruct (numericAny _) as [b|]; [|still].
  destruct (updatePositions_orders _ _ _ _ _ H) as [Eo Et]. split; [done|]. split; [done|]. split; [done|].
  intros j c Hj. destruct (positions_phase _ _ _ _ _ H j c Hj) as (c' & H' & E). exists c'. split; [done|by left].
Qed.
Lemma audit_moves id v va vb da db u m la lb t (st st' : Store D) r :
  auditTransaction id v va vb da db u m la lb t st = (r, st') -> tablesMove st st'.
Proof.
  intros H. unfold auditTransaction in H. cbv zeta in H. destruct (st_combinations st !! id) as [row|] eqn:Hr; [|still].
  repeat (match type of H with context[if ?b then _ else _] => destruct b; [still|] end).
  destruct (auditVerdict _ _ _ _ _ _ _) as [[nu nr] ne]. do 6 (case_match; [|still]).
  injection H as _ <-. split; [done|]. split; [done|]. split; [by left|]. by eapply phasesMove_row; [exact Hr|reflexivity|].
Qed.

Lemma flattened_phase request (a b : D) t r r' : flattenedRow request a b t r = Ok r' -> phaseOf r' = phaseOf r.
Proof. unfold flattenedRow. repeat (case_match; try done). by intros [= <-]. Qed.
Lemma flatReconcile_moves request t (st st' : Store D) r : flatReconcileTransaction request t st = (r, st') -> tablesMove st st'.
Proof.
  intros H. unfold flatReconcileTransaction in H. cbv zeta in H. destruct (st_combinations st !! _) as [row|] eqn:Hr; [|still].
  repeat (match type of H with context[if ?b then _ else _] => destruct b; [still|] end).
  destruct (flattenedRow _ _ _ _ _) as [row'|] eqn:Ef; [|still]. injection H as _ <-.
  split; [done|]. split; [done|]. split; [by left|]. eapply phasesMove_row; [exact Hr|reflexivity|]. by eapply flattened_phase.
Qed.

Lemma exiting_moves id v reason t (st st' : Store D) r : exitingTransaction id v reason t st = (r, st') -> tablesMove st st'.
Proof.
  intros H. split; [|split; [|split]].
  - unfold exitingTransaction, updateCombination in H. repeat (case_match; simplify_eq/=; try done).
  - unfold exitingTransaction, updateCombination in H. repeat (case_match; simplify_eq/=; try done).
  - left. by eapply updateCombination_executions.
  - by eapply lifeStep_phase, life_exiting.
Qed.
(** The transactions of a round keep what other processes keep. *)
Section Kept.
Variable st0 : Store D.
Hypothesis rely : forall n st, auditedFrom st0 st -> auditedFrom st0 (interfere n st).

Lemma keeps_moves {A} (f : GoTime -> Store D -> Result A * Store D) :
  (forall t st st' r, f t st = (r, st') -> tablesMove st st') -> keeps (auditedFrom st0) (sql f).
Proof. intros H. apply keeps_sql; [exact rely|]. intros t st a st' E. by eapply audited_moves, H. Qed.
Lemma keeps_reads {A} (f : GoTime -> Store D -> Result A) : keeps (auditedFrom st0) (sql (fun t st => (f t st, st))).
Proof. apply keeps_moves. intros t st st' r [= _ <-]. apply tablesMove_refl. Qed.
Lemma keeps_append id x e : keeps (auditedFrom st0) (AppendArbitrageEvent id x e).
Proof.
  apply keeps_moves. intros t st st' r H. destruct (st_combinations st !! id); injection H as _ <-; [|apply tablesMove_refl].
  split; [done|]. split; [done|]. split; [by left|by apply phasesMove_same].
Qed.
#[local] Hint Resolve keeps_append : keeps.
Lemma keeps_auditWrite id v va vb da db u m la lb : keeps (auditedFrom st0) (UpdateArbitragePositionAudit id v va vb da db u m la lb).
Proof.
  apply keeps_bind; [|intros ?; apply keeps_ret]. apply keeps_moves. intros t st st' r H.
  destruct (auditTransaction _ _ _ _ _ _ _ _ _ _ _ _) as [answer st1] eqn:E. apply audit_moves in E. by destruct answer; injection H as _ <-.
Qed.
Lemma keeps_flat request : keeps (auditedFrom st0) (ApplyClosingExternalFlatReconcile request).
Proof.
  unfold ApplyClosingExternalFlatReconcile. case_match; [apply keeps_ret|]. apply keeps_moves. intros t st st' r. apply flatReconcile_moves.
Qed.
Lemma keeps_liquidation c : keeps (auditedFrom st0) (maybeTriggerLiquidationDistanceExit c).
Proof.
  unfold maybeTriggerLiquidationDistanceExit, MarkOneShotExiting, orUnmarked. cbv zeta. keeps_tac.
  apply keeps_moves. intros t st st' r. apply exiting_moves.
Qed.
Lemma keeps_recomputeOf id : keeps (auditedFrom st0) (RecomputeArbitrageBasePositionsForExecution id).
Proof.
  unfold RecomputeArbitrageBasePositionsForExecution. case_match; [apply keeps_ret|]. apply keeps_moves. intros t st st' r. apply recompute_moves.
Qed.
#[local] Hint Resolve keeps_auditWrite keeps_flat keeps_liquidation keeps_recomputeOf : keeps.

Lemma keeps_readerFills reader credentials since targets : keeps (auditedFrom st0) (readerFills reader credentials since targets).
Proof. induction targets as [|i targets IH]; cbn [readerFills]; keeps_tac. Qed.
#[local] Hint Resolve keeps_readerFills : keeps.
Lemma keeps_collectFills c orders iA iB since accounts totals : keeps (auditedFrom st0) (collectFills c orders iA iB since accounts totals).
Proof.
  revert totals. induction accounts as [|[id account] accounts IH]; intros totals; cbn [collectFills]; unfold accountFills; keeps_tac.
Qed.
Lemma keeps_applyTotals orders totals changed ids : keeps (auditedFrom st0) (applyTotals orders totals changed ids).
Proof.
  revert changed ids. induction orders as [|o orders IH]; intros changed ids; cbn [applyTotals]; [apply keeps_ret|].
  destruct (totals !! o_ID o) as [[quantity notional]|]; [|apply IH]. destruct (negb _); [apply IH|]. cbv zeta.
  apply keeps_bind; [by apply (keeps_update (auditedFrom st0) rely (audited_order st0))|]. intros [[updated filled]|e]; keeps_tac.
Qed.
Lemma keeps_recomputes c ids : keeps (auditedFrom st0) (recomputeExecutions c ids).
Proof. revert c. induction ids as [|id ids IH]; intros c; cbn [recomputeExecutions]; keeps_tac. Qed.
#[local] Hint Resolve keeps_collectFills keeps_applyTotals keeps_recomputes : keeps.
Lemma keeps_tradeFills c a b iA iB : keeps (auditedFrom st0) (reconcileTradeFills c a b iA iB).
Proof.
  unfold reconcileTradeFills. apply keeps_bind; [apply (keeps_reads (fun _ st => _))|]. intros [orders|e]; [|apply keeps_ret]. keeps_tac.
Qed.
#[local] Hint Resolve keeps_tradeFills : keeps.

Lemma keeps_readPositions c a b iA iB (va vb : D) : keeps (auditedFrom st0) (readPositions c a b iA iB va vb).
Proof. unfold readPositions, auditMarks, arbitragePositionAuditMarks. cbv zeta. keeps_tac. Qed.
Lemma keeps_record c a b (va vb : D) rd : keeps (auditedFrom st0) (recordAudit c a b va vb rd).
Proof. unfold recordAudit, auditEvents. keeps_tac. Qed.
#[local] Hint Resolve keeps_readPositions keeps_record : keeps.
Lemma keeps_positions c a b iA iB (va vb : D) : keeps (auditedFrom st0) (auditPositions c a b iA iB va vb).
Proof. unfold auditPositions. keeps_tac. Qed.
#[local] Hint Resolve keeps_positions : keeps.
Lemma keeps_load owner leg cache : keeps (auditedFrom st0) (loadAccount owner leg cache).
Proof. unfold loadAccount. cbv zeta. keeps_tac. Qed.
#[local] Hint Resolve keeps_load : keeps.
Lemma keeps_audit c cache : keeps (auditedFrom st0) (audit c cache).
Proof. unfold audit, auditAccounts, callCatalog. keeps_tac. Qed.
#[local] Hint Resolve keeps_audit : keeps.
Lemma keeps_auditItems items cache r : keeps (auditedFrom st0) (auditItems items cache r).
Proof. revert cache r. induction items as [|item items IH]; intros cache r; cbn [auditItems]; keeps_tac. Qed.
#[local] Hint Resolve keeps_auditItems : keeps.
Lemma keeps_auditOnce n r : keeps (auditedFrom st0) (auditOnce n r).
Proof.
  unfold auditOnce, ListArbitrageCombinationsForPositionAudit. cbv zeta. apply keeps_bind; [apply (keeps_reads (fun _ st => _))|].
  intros [items|e]; keeps_tac.
Qed.
End Kept.

(** C25: a round of the position auditor keeps what the other components rely
    on, whatever portfolios, fills and prices it is told, whichever statement
    fails and among other processes that keep it too: the rows stay well typed,
    no combination gets a second active execution, no order loses a fill, a
    terminal status or its venue identifier, and the exit of a one-shot is never
    undone. *)
Theorem audit_round_safe (st0 : Store D) (batch : Z) (r : AuditRound) (w : World D) :
  (forall n st, auditedFrom st0 st -> auditedFrom st0 (interfere n st)) -> auditedFrom st0 (w_store w) ->
  auditedFrom st0 (w_store (snd (auditOnce batch r w))).
Proof. intros Hi. apply (keeps_auditOnce st0 Hi). Qed.
End AuditSafe.

(** ** A closing combination whose account is flat *)

Section ExternalFlat.
Context {D : Type} `{!Decimal D} `{!DecimalLaws D} `{!Postgres D} `{!PostgresLaws D} `{!Env D} `{asur : !AuditSurroundings}.
Local Open Scope Q_scope.
#[local] Opaque qround.

(** The store after the settlement, and what was checked before. *)
Lemma flatReconcile_applied request t (st st' : Store D) c :
  flatReconcileTransaction request t st = (Ok (c, true), st') ->
  exists row row', st_combinations st !! fq_CombinationID request = Some row /\
    (let combo := scanCombination (D := D) row in
     flatRefused request combo = false /\ hasActiveExecution st (fq_CombinationID request) = false /\
     unsettledOrder st (fq_CombinationID request) = false /\ atBaseline request combo = true /\
     flattenedRow request
       (dAdd (parseDecimal (c_LegAReconciliationAdjustment combo)) (dSub (fq_VenueA request) (dAdd (parseDecimal (c_LegAVenueBaselineBasePosition combo)) (parseDecimal (c_LegABasePosition combo)))))
       (dAdd (parseDecimal (c_LegBReconciliationAdjustment combo)) (dSub (fq_VenueB request) (dAdd (parseDecimal (c_LegBVenueBaselineBasePosition combo)) (parseDecimal (c_LegBBasePosition combo)))))
       t row = Ok row') /\
    c = scanCombination (D := D) row' /\ st_combinations st' = <[fq_CombinationID request := row']> (st_combinations st) /\
    st_orders st' = st_orders st /\ st_executions st' = st_executions st.
Proof.
  intros H. unfold flatReconcileTransaction in H. cbv zeta in H. destruct (st_combinations st !! _) as [row|] eqn:Hr; [|done].
  destruct (flatRefused _ _) eqn:E1; [done|]. destruct (instrumentConflict _ _ _); [done|]. destruct (hasActiveExecution _ _) eqn:E2; [done|].
  destruct (unsettledOrder _ _) eqn:E3; [done|]. destruct (_ && (_ || _)); [done|]. destruct (_ && negb _); [done|].
  destruct (atBaseline _ _) eqn:E4; [|done]. cbn [negb] in H. destruct (flattenedRow _ _ _ _ _) as [row'|] eqn:E5; [|done].
  injection H as <- <-. exists row, row'. by repeat split.
Qed.

Lemma zeroString_column (s : string) q : numericColumn (D := D) s q -> numericColumn (D := D) (zeroString s) q.
Proof.
  unfold zeroString. intros H. destruct (String.eqb_spec s ""); [|done]. subst. destruct H as (_ & _ & d & Hd & _).
  by rewrite dNewFromString_empty in Hd.
Qed.

(** The adjustment takes what the ledger has, to the last digit. *)
Lemma settled_adjustment (venue baseline : D) (adjustment position written : string) (led adj : Q) :
  venueMatchesCreationBaseline venue baseline = true -> numericColumn (D := D) adjustment adj -> numericColumn (D := D) position (led + adj) ->
  numericText (D := D) (dString (dAdd (parseDecimal (zeroString adjustment)) (dSub venue (dAdd baseline (parseDecimal position))))) = Some written ->
  numericColumn (D := D) written (- led).
Proof.
  intros Hm Ha Hp Hw. apply dIsZero_val in Hm. rewrite dSub_val in Hm.
  eapply numericColumn_proper; [|apply (numericText_dString _ _ Hw)].
  assert (is18 (- led)) as H18.
  { pose proof Ha as (_ & A & _). pose proof Hp as (_ & B & _). assert (- led == adj + - (led + adj)) as -> by ring. by apply is18_plus, is18_opp. }
  etransitivity; [|exact H18]. apply qround_proper.
  rewrite dAdd_val, dSub_val, dAdd_val, (numericColumn_parse _ _ (zeroString_column _ _ Ha)), (numericColumn_parse _ _ Hp). lra.
Qed.

Lemma settled_books request t (st st' : Store D) c :
  flatReconcileTransaction request t st = (Ok (c, true), st') ->
  booksFollow st (fq_CombinationID request) -> booksFollow st' (fq_CombinationID request).
Proof.
  intros (row & row' & Hr & (_ & _ & _ & Hb & Hf) & _ & Ec & Eo & Ee)%flatReconcile_applied (r0 & adjA & adjB & H0 & HA & HB & PA & PB).
  assert (r0 = row) as -> by congruence. unfold atBaseline in Hb. cbv zeta in Hb.
  apply andb_prop in Hb as [[[Ba Bb]%andb_prop _]%andb_prop _]. unfold flattenedRow in Hf.
  destruct (numericText _) as [ja|] eqn:Na in Hf; [|done]. destruct (numericText _) as [jb|] eqn:Nb in Hf; [|done].
  destruct (numericText _) in Hf; [|done]. destruct (numericText _) in Hf; [|done]. injection Hf as <-.
  pose proof (settled_adjustment _ _ _ _ _ _ _ Ba HA PA Na) as Ja. pose proof (settled_adjustment _ _ _ _ _ _ _ Bb HB PB Nb) as Jb.
  assert (forall leg, ledger st' (fq_CombinationID request) leg == ledger st (fq_CombinationID request) leg) as El
    by (intros leg; apply ledger_ext; [done|intros k; by rewrite Ee]).
  eexists _, (- ledger st (fq_CombinationID request) "a"), (- ledger st (fq_CombinationID request) "b").
  split; [rewrite Ec; apply lookup_insert_eq|]. split; [exact Ja|]. split; [exact Jb|].
  split; (eapply numericColumn_proper; [|apply numericColumn_zero]); rewrite El; ring.
Qed.

(** The orders of a combination without an unsettled one. *)
Lemma unsettledOrder_false (st : Store D) id :
  unsettledOrder st id = false ->
  hasLiveOrder st id = false /\ Forall (fun r => terminalStatus (o_Status (row_order r)) = true) (combinationOrders st id).
Proof.
  unfold unsettledOrder, hasLiveOrder. induction (combinationOrders st id) as [|r rows IH]; cbn; [done|].
  intros [[H1%negb_false_iff H2]%orb_false_iff H3]%orb_false_iff. destruct (IH H3) as [E F]. rewrite H1, E. by split; [|constructor].
Qed.

(** A settled combination is closed by the next attempt. *)
Lemma settled_closes request (a b : D) t t' id (st st' : Store D) row row' :
  flattenedRow request a b t row = Ok row' -> c_Status (cb_item row) = "closing"%string ->
  hasActiveExecution st id = false -> hasLiveOrder st id = false ->
  st_combinations st' = <[id := row']> (st_combinations st) -> st_orders st' = st_orders st -> st_executions st' = st_executions st ->
  exists closed st2, closedTransaction id (c_Version (scanCombination (D := D) row')) t' st' = (Ok (Some closed), st2) /\ c_Status closed = "closed"%string.
Proof.
  intros Hf Hs Hx Hl Ec Eo Ee. assert (nothingLive st' id = true) as Hn.
  { unfold nothingLive, hasActiveExecution, hasLiveOrder, combinationOrders, executionRows in *. by rewrite Eo, Ee, Hx, Hl. }
  assert (dIsZero (parseDecimal (D := D) "0") = true) as Hz by (apply (proj2 (Decimal.dIsZero_val _)), numericColumn_parse, numericColumn_zero).
  assert (dIsZero (dAdd (parseDecimal (D := D) "0") (parseDecimal (D := D) "0")) = true) as Hc.
  { apply (proj2 (Decimal.dIsZero_val _)). rewrite dAdd_val, (numericColumn_parse _ _ numericColumn_zero). ring. }
  unfold flattenedRow in Hf. do 4 (destruct (numericText _) in Hf; [|done]). injection Hf as <-.
  unfold closedTransaction, updateCombination. rewrite Ec, lookup_insert_eq. cbn. rewrite Z.eqb_refl, Hs, Hn, Hz.
  unfold carryColumn; cbn. rewrite Hc. cbn. do 2 eexists. by split.
Qed.

Lemma flatRefused_false (request : closingExternalFlatReconcileRequest D) (row : CombinationRow) :
  flatRefused request (scanCombination (D := D) row) = false ->
  c_Status (cb_item row) = "closing"%string /\ c_PositionUncertain (cb_item row) = true /\ c_Version (cb_item row) = fq_ExpectedVersion request.
Proof.
  unfold flatRefused, scanCombination. cbn. intros H. repeat apply orb_false_iff in H as [H ?].
  repeat match goal with H : negb _ = false |- _ => apply negb_false_iff in H end.
  split; [by apply String.eqb_eq|]. split; [done|]. by apply Z.eqb_eq.
Qed.
Lemma atBaseline_true (request : closingExternalFlatReconcileRequest D) (row : CombinationRow) :
  atBaseline request (scanCombination (D := D) row) = true ->
  dval (fq_VenueA request) == dval (parseDecimal (D := D) (c_LegAVenueBaselineBasePosition (cb_item row))) /\
  dval (fq_VenueB request) == dval (parseDecimal (D := D) (c_LegBVenueBaselineBasePosition (cb_item row))).
Proof.
  unfold atBaseline, scanCombination. cbn. intros [[[Ba Bb]%andb_prop _]%andb_prop _]%andb_prop.
  apply dIsZero_val in Ba, Bb. rewrite dSub_val in Ba, Bb. split; lra.
Qed.

(** C24: an account that was flattened outside the system settles a closing
    combination.  The settlement is written only for a closing combination that
    is marked uncertain, at the version that was audited, without an active
    execution, all of whose orders are terminal, and whose account is exactly
    where it was before the combination existed.  It leaves orders and executions
    alone; the positions become zero and stay the ledger of the combination,
    because the adjustments take up the difference to the last digit; and the
    combination can be closed at once, at the version that is returned. *)
Theorem external_flat_settles (request : closingExternalFlatReconcileRequest D) (t : GoTime) (st st' : Store D) (c : ArbitrageCombination) :
  let id := fq_CombinationID request in
  flatReconcileTransaction request t st = (Ok (c, true), st') ->
  (exists row, st_combinations st !! id = Some row /\ c_Status (cb_item row) = "closing"%string /\ c_PositionUncertain (cb_item row) = true /\
     c_Version (cb_item row) = fq_ExpectedVersion request /\
     dval (fq_VenueA request) == dval (parseDecimal (D := D) (c_LegAVenueBaselineBasePosition (cb_item row))) /\
     dval (fq_VenueB request) == dval (parseDecimal (D := D) (c_LegBVenueBaselineBasePosition (cb_item row)))) /\
  hasActiveExecution st id = false /\ Forall (fun r => terminalStatus (o_Status (row_order r)) = true) (combinationOrders st id) /\
  st_orders st' = st_orders st /\ st_executions st' = st_executions st /\
  (booksFollow st id -> booksFollow st' id) /\
  forall t', exists closed st2, closedTransaction id (c_Version c) t' st' = (Ok (Some closed), st2) /\ c_Status closed = "closed"%string.
Proof.
  intros id H. pose proof (settled_books _ _ _ _ _ H) as Hbooks.
  destruct (flatReconcile_applied _ _ _ _ _ H) as (row & row' & Hr & (Hq & Hx & Hu & Hb & Hf) & -> & Ec & Eo & Ee).
  destruct (flatRefused_false _ _ Hq) as (Hs & Hp & Hv). destruct (atBaseline_true _ _ Hb) as [Ba Bb].
  destruct (unsettledOrder_false _ _ Hu) as [Hl Hall].
  split; [by exists row|]. do 5 (split; [assumption|]). intros t'.
  exact (settled_closes _ _ _ _ _ _ _ _ _ _ Hf Hs Hx Hl Ec Eo Ee).
Qed.
End ExternalFlat.

(** ** A concrete round *)

Section AuditWitnesses.
#[local] Existing Instance stillEnv.
#[local] Existing Instance simpleServices.

(** Empty portfolios, and nothing traded. *)
Definition flatAccounts : AuditSurroundings := {|
  auditSnapshot _ _ _ := Ok (mkPortfolioSnapshot [] []);
  auditTradeFills _ _ _ _ _ := Ok []; auditFillReader _ := None; auditValuation _ _ := None;
  auditEnds _ := false; accountsSwapped _ := false; eventCreatedAt i := Z.of_nat i
|}.
#[local] Existing Instance flatAccounts.

(** A closing combination whose position was closed by hand. *)
Definition flatItem : ArbitrageCombination :=
  quietItem <| c_Status := "closing"%string |> <| c_PositionUncertain := true |> <| c_RuntimeState := "position_uncertain"%string |>
    <| c_ErrorMessage := arbitragePositionAuditErrorPrefix |>
    <| c_LegABasePosition := "2"%string |> <| c_LegBBasePosition := "-2"%string |>
    <| c_LegAReconciliationAdjustment := "2"%string |> <| c_LegBReconciliationAdjustment := "-2"%string |>
    <| c_LegAVenueBaselineBasePosition := "0"%string |> <| c_LegBVenueBaselineBasePosition := "0"%string |>
    <| c_LegAVenueBasePosition := "0"%string |> <| c_LegBVenueBasePosition := "0"%string |>
    <| c_LegA := zero_ArbitrageLeg <| l_ContractType := "perpetual"%string |> <| l_InstrumentID := 1 |> <| l_TradingAccountID := 1 |> |>
    <| c_LegB := zero_ArbitrageLeg <| l_ContractType := "perpetual"%string |> <| l_InstrumentID := 2 |> <| l_TradingAccountID := 2 |> |>.
Definition flatStore : Store Dec :=
  openStore <| st_combinations := {["c1"%string := (rowOf flatItem) <| cb_venue_baseline_captured_at := Some Second |>]} |>.
Definition flatWorld : World Dec := mkWorld flatStore 0 [].
Definition flatRequest : closingExternalFlatReconcileRequest Dec := mkFlatReconcile "c1" (c_Version flatItem) (mkDec 0 0) (mkDec 0 0).

(** The round settles the combination. *)
Example round_settles :
  (fun r => (c_LegABasePosition (cb_item r), c_LegAReconciliationAdjustment (cb_item r), c_PositionUncertain (cb_item r))) <$>
    st_combinations (w_store (snd (auditOnce 20 (mkAuditRound 0 0 []) flatWorld))) !! "c1"%string = Some ("0", "0", false)%string.
Proof. vm_compute. reflexivity. Qed.

Lemma flat_books : booksFollow flatStore "c1".
Proof.
  exists ((rowOf flatItem) <| cb_venue_baseline_captured_at := Some Second |>), 2%Q, (-2)%Q. split; [done|].
  split; [by apply (integer_column "2" 2)|]. split; [by apply (integer_column "-2" (-2))|].
  split; [eapply numericColumn_proper; [|by apply (integer_column "2" 2)]|eapply numericColumn_proper; [|by apply (integer_column "-2" (-2))]];
    vm_compute; reflexivity.
Qed.

Lemma external_flat_settles_witness :
  exists c st', flatReconcileTransaction flatRequest 9 flatStore = (Ok (c, true), st') /\ booksFollow st' "c1" /\
    exists closed st2, closedTransaction "c1" (c_Version c) 10 st' = (Ok (Some closed), st2) /\ c_Status closed = "closed"%string.
Proof.
  destruct (flatReconcileTransaction flatRequest 9 flatStore) as [[[c [|]]|e] st'] eqn:E; [|vm_compute in E; discriminate E..].
  pose proof (external_flat_settles flatRequest 9 flatStore st' c E) as (_ & _ & _ & _ & _ & Hb & Hc).
  exists c, st'. split; [reflexivity|]. exact (conj (Hb flat_books) (Hc 10)).
Defined.

Lemma audit_round_safe_witness : auditedFrom flatStore (w_store (snd (auditOnce 20 (mkAuditRound 0 0 []) flatWorld))).
Proof.
  pose proof (audit_round_safe flatStore 20 (mkAuditRound 0 0 []) flatWorld (fun _ _ H => H)) as H. apply H.
  split; [split; [|split]|split].
  - destruct openStore_typed as [Ho Ht]. split; [exact Ho|exact Ht].
  - exact (arbStore_sound flatItem).
  - intros id row Hr. exists row. exact (conj Hr (progress_refl row)).
  - exact (arbStore_sound flatItem).
  - intros id r Hr. exists r. split; [exact Hr|]. split; [tauto|]. intros E. left. exact E.
Defined.
End AuditWitnesses.
