(* ===== verification/Executor.v ===== *)
(** * The executor: orders of an execution (arbitrage_executor.go)

    What the executor does with one order: its intent, the query, cancellation
    and observation of it at the venue and on the private stream, the maker
    order that is watched, repriced and canceled, and the positions that are
    recomputed after it.  Hedges are in ExecHedge.v, whole executions in
    ExecRun.v. *)
From Stdlib Require Import ZArith QArith Lqa Ascii String.
From stdpp Require Import base strings list gmap.
From S2P Require Import Prelude Decimal DecimalRef Types Quantity Validate ArbMath ArbSize ArbHedge Resolution OrderStream Store OrderStore OrderService FlattenRules ArbStore FlattenStore CircuitStore Reconciler.

#[local] Set Warnings "-clear-no-such-hyp".

(** ** Data *)

Definition arbitrageCancelRESTFloor : Duration := 2 * Second.
Definition arbitrageCancelWSSGrace : Duration := Second.

(** A context: [cx_background] for [context.Background()] with or without a
    time limit, which nobody cancels; [cx_recovery] is the value that
    [withCircuitRecoveryCompletion] stores in it. *)
Record Ctx := mkCtx { cx_background : bool; cx_recovery : bool }.
Definition backgroundContext : Ctx := mkCtx true false.
Definition callerContext : Ctx := mkCtx false false.

(** What a [select] of the executor receives.  A loop is run on the events it
    receives, in the order they come; which of them are cases of its [select]
    and which channels are still open is up to the loop. *)
Inductive SelectEvent :=
| SelDone (e : GoError)
| SelUpdate (u : Update)
| SelClosed
| SelTimer
| SelHealth
| SelTimeout.

(** [makerOutcome] *)
Inductive makerOutcome := makerTerminal | makerReprice | makerOpportunityGone.
#[export] Instance makerOutcome_eq_dec : EqDecision makerOutcome.
Proof. solve_decision. Defined.

(** What [executionDependencies] returns: the adapter is the one of the
    registry under the exchange of the leg. *)
Record Dependencies := mkDependencies {
  dp_instrument : Instrument;
  dp_credentials : Credentials;
  dp_adapter : string
}.

(** [orderObservation]: the subscription, by its key, and whether the order is
    watched on it. *)
Record orderObservation := mkObservation { ob_subscription : option StreamKey; ob_watch : bool }.
Definition noObservation : orderObservation := mkObservation None false.

(** [cancelGeneration]; [None] when no generation was recorded. *)
Definition cancelGeneration : Type := option Z.

(** The variables of one run of the executor: the execution and the
    combination it works with, its work permit, when it has one, with whether
    it is held, and the spot balances it has read ([spotSnapshots] of this execution). *)
Record Exec := mkExec {
  xs_execution : ArbitrageExecution;
  xs_combination : ArbitrageCombination;
  xs_permit : option bool;
  xs_spot : gmap Z (list (string * string))
}.
#[export] Instance eta_Exec : Eta Exec := fun s => mkExec (xs_execution s) (xs_combination s) (xs_permit s) (xs_spot s).

(** The settings of [NewArbitrageExecutor] and its [Configure] methods. *)
Class ExecutorConfig := {
  ec_repriceTicks : Z;
  ec_iocBps : Z;
  ec_iocRetries : Z;
  ec_hedgeEmergencyAfter : Duration;
  ec_timeout : Duration;
  ec_signalBBOStale : Duration;
  ec_streamAudit : Duration;
  ec_finalMetrics : bool
}.

(** What goes on around a run: [ctx.Err()] of the caller's context, the events
    of the loops, the work permits, the market data, the balances and the
    portfolio of an account, the warming of a transport, the generation of a
    stream, which of two goroutines runs first, and the end of the runs that
    [CloseCombination] canceled. *)
Class ExecutorSurroundings := {
  contextEnds : nat -> option GoError;
  selectEvents : nat -> list SelectEvent;
  permitAcquire : nat -> option GoError;
  marketLatest : nat -> ArbitrageLeg -> Result BBO;
  spotSnapshot : nat -> string -> Credentials -> Result (list (string * string));
  transportWarm : nat -> string -> Credentials -> Instrument -> option GoError;
  streamGeneration : nat -> StreamKey -> Z;
  portfolioSnapshot : nat -> string -> Credentials -> Result PortfolioSnapshot;
  legBFirst : nat -> bool;
  runsDrain : nat -> option GoError
}.

(** ** Pure rules *)

Definition makerPostOnlyReprice {D : Type} `{!Decimal D} (instrument : Instrument) (order : Order) : bool :=
  if dIsPositive (parseDecimal (D := D) (o_FilledQuantity order)) then false
  else
    let exchangeName := ToLower (TrimSpace (i_Exchange instrument)) in
    let code := TrimSpace (o_ErrorCode order) in
    let message := TrimSpace (o_ErrorMessage order) in
    let rejected := o_Status order =?s "rejected" in
    let canceled := o_Status order =?s "canceled" in
    if exchangeName =?s "gate" then rejected && ((code =?s "POC_FILL_IMMEDIATELY") || (code =?s "ORDER_POC_IMMEDIATE"))
    else if exchangeName =?s "binance" then
      if i_ContractType instrument =?s "spot"
      then rejected && (code =?s "-2010") && (message =?s "Order would immediately match and take.")
      else rejected && (code =?s "-5022")
    else if exchangeName =?s "bybit" then rejected && (code =?s "EC_PostOnlyWillTakeLiquidity")
    else if exchangeName =?s "okx" then canceled && (code =?s "31")
    else if exchangeName =?s "bitget" then canceled && (code =?s "post_only_fill_cancel")
    else false.

(** [err != nil && errors.Is(err, s)] *)
Definition isError (e : option GoError) (s : Sentinel) : bool := match e with Some e => errorsIs e s | None => false end.

Definition errorsIsCanceled (e : option GoError) : bool := isError e Canceled.

Definition closingArbitrageExecution (c : ArbitrageCombination) (x : ArbitrageExecution) : bool :=
  arbitrageFlattening c && EqualFold (TrimSpace (x_PositionEffect x)) "close".

Definition arbitrageDeterministicCloseReject (e : GoError) : bool :=
  errorsIs e ErrRiskLimit || errorsIs e ErrOrderBelowMinimum || errorsIs e ErrVenueRejected || errorsIs e ErrRejected.

Definition hedgeAdmissionConflict (e : option GoError) : bool :=
  isError e ErrArbitrageHedgeAdmissionConflict || isError e ErrArbitrageExecutionTerminal ||
  isError e ErrArbitrageHedgeSequence || isError e ErrIdempotencyConflict || isError e ErrNotFound.

Definition makerCancelNotSent (e : option GoError) : bool :=
  match e with
  | None => false
  | Some e =>
      if errorsIs e DeadlineExceeded then false
      else Contains (ToLower (err_text e)) "invalid hyperliquid order id" || errorsIs e Canceled
  end.

Definition cancelUnconfirmed (e : option GoError) : bool :=
  isError e ErrAmbiguousCancel || isError e ErrUncertain || isError e ErrOrderNotFound || isError e DeadlineExceeded.

(** [strings.Split(key, ":")]. *)
Fixpoint splitColon (s : string) : list string :=
  match s with
  | EmptyString => [EmptyString]
  | String ch r =>
      if Ascii.eqb ch ":"%char then EmptyString :: splitColon r
      else match splitColon r with
           | part :: rest => String ch part :: rest
           | [] => [String ch EmptyString]
           end
  end.

(** [strconv.ParseInt(s, 10, 64)]. *)
Fixpoint parseDigits (s : string) (acc : Z) : option Z :=
  match s with
  | EmptyString => Some acc
  | String ch r =>
      let n := Z.of_nat (Ascii.nat_of_ascii ch) in
      if (48 <=? n) && (n <=? 57) then parseDigits r (acc * 10 + (n - 48)) else None
  end.
Definition parseNatural (s : string) : option Z := match s with EmptyString => None | _ => parseDigits s 0 end.
Definition ParseInt (s : string) : option Z :=
  let signed := match s with
                | String ch r => if Ascii.eqb ch "-"%char then option_map Z.opp (parseNatural r)
                                 else if Ascii.eqb ch "+"%char then parseNatural r else parseNatural s
                | EmptyString => None
                end in
  match signed with
  | Some z => if (- 2 ^ 63 <=? z) && (z <? 2 ^ 63) then Some z else None
  | None => None
  end.

Definition hedgeSequenceFromIdempotency (key : string) : option Z :=
  match splitColon key with
  | [arb; _; _; role; sequence] => if (arb =?s "arb") && (role =?s "hedge") then ParseInt sequence else None
  | _ => None
  end.

(** The errors the executor builds or returns as they are. *)
Definition errOrderNotFound : GoError := mkError [ErrOrderNotFound] "venue order not found".
Definition errVenueUncertain : GoError := mkError [ErrVenueUncertain] "venue result uncertain".
Definition errMarketDataStale : GoError := mkError [ErrMarketDataStale] "market data is stale".
Definition errRiskLimit : GoError := mkError [ErrRiskLimit] "arbitrage risk limit exceeded".
Definition errDustHandoff : GoError := mkError [errLastClipDustHandoff] "last clip dust handoff".
Definition errSpotBalance (e : GoError) : GoError := mkError [ErrVenueUnavailable] (String.append "venue unavailable: read spot balance: " (err_text e)).

(** [strings.TrimSpace(strings.Join([]string{order.ErrorCode, order.ErrorMessage}, " "))] *)
Definition orderErrorText (order : Order) : string := TrimSpace (Join [o_ErrorCode order; o_ErrorMessage order] " ").

(** ** Computations on the variables of a run *)

Definition E (D A : Type) : Type := Exec -> M D (A * Exec).
Definition eret {D A} (a : A) : E D A := fun s => ret (a, s).
Definition ebind {D A B} (m : E D A) (k : A -> E D B) : E D B := fun s => bind (m s) (fun '(a, s') => k a s').
Definition elift {D A} (m : M D A) : E D A := fun s => do a <- m; ret (a, s).
Definition getExec {D} : E D Exec := fun s => ret (s, s).
Definition setExec {D} (f : Exec -> Exec) : E D unit := fun s => ret (tt, f s).

(** [if err != nil { return err }]. *)
Definition etry {D A B} (m : E D (Result A)) (k : A -> E D (Result B)) : E D (Result B) :=
  ebind m (fun r => match r with Ok a => k a | Err e => eret (Err e) end).

Notation "'do*' x '<-' m ';' k" := (ebind m (fun x => k))
  (at level 10, x pattern, m at level 100, k at level 200) : go_scope.
Notation "'run*' m ';' k" := (ebind m (fun _ => k)) (at level 10, m at level 100, k at level 200) : go_scope.
Notation "'try*' x '<-' m ';' k" := (etry m (fun x => k))
  (at level 10, x pattern, m at level 100, k at level 200) : go_scope.

Section Executor.
Context {D : Type} `{!Decimal D} `{!Postgres D} `{!Env D} `{svc : !Services} `{str : !OrderStreams}
  `{ecfg : !ExecutorConfig} `{esur : !ExecutorSurroundings}.
Local Open Scope dec_scope.

Definition execution : E D ArbitrageExecution := do* s <- getExec; eret (xs_execution s).
Definition setExecution (x : ArbitrageExecution) : E D unit := setExec (fun s => s <| xs_execution := x |>).
Definition theCombination : E D ArbitrageCombination := do* s <- getExec; eret (xs_combination s).
Definition setTheCombination (c : ArbitrageCombination) : E D unit := setExec (fun s => s <| xs_combination := c |>).
Definition enow : E D GoTime := elift timeNow.

(** [ctx.Err()]. *)
Definition contextErr (cx : Ctx) : M D (option GoError) :=
  if cx_background cx then ret None else do n <- tick; ret (contextEnds n).

(** [_ = e.store.AppendArbitrageEvent(...)]. *)
Definition appendExecutionEvent (id executionID eventType : string) : E D unit :=
  run* elift (AppendArbitrageEvent id executionID eventType); eret tt.

(** [_, _ = e.store.UpdateArbitrageExecution(ctx, *execution)] *)
Definition saveExecution : E D unit :=
  do* x <- execution;
  run* elift (UpdateArbitrageExecution x); eret tt.

(** [execution.Status = status; _, _ = e.store.UpdateArbitrageExecution(...)]. *)
Definition saveStatus (status : string) : E D unit :=
  do* x <- execution;
  run* setExecution (x <| x_Status := status |>);
  saveExecution.

(** ** Services of a leg *)

Definition executionDependencies (owner : string) (leg : ArbitrageLeg) : M D (Result Dependencies) :=
  do instrument <- callCatalog (l_InstrumentID leg);
  match instrument with
  | Err e => ret (Err e)
  | Ok instrument =>
      do n <- tick;
      match credentialsInternal n owner (l_TradingAccountID leg) with
      | Err e => ret (Err e)
      | Ok credentials =>
          ret (if adapterKnown (l_Exchange leg) then Ok (mkDependencies instrument credentials (l_Exchange leg))
               else Err errUnsupportedExchange)
      end
  end.

Definition warmArbitrageOrderTransport (d : Dependencies) : M D (Result unit) :=
  do n <- tick;
  ret (match transportWarm n (dp_adapter d) (dp_credentials d) (dp_instrument d) with Some e => Err e | None => Ok tt end).

Definition latestForLeg (leg : ArbitrageLeg) : M D (Result BBO) := do n <- tick; ret (marketLatest n leg).

(** [bidSpotSnapshot]: the balances of an account are read once per run. *)
Definition bidSpotSnapshot (leg : ArbitrageLeg) (credentials : Credentials) : E D (Result (list (string * string))) :=
  do* s <- getExec;
  match xs_spot s !! cr_TradingAccountID credentials with
  | Some balances => eret (Ok balances)
  | None =>
      do* n <- elift tick;
      match spotSnapshot n (l_Exchange leg) credentials with
      | Err e => eret (Err e)
      | Ok balances =>
          run* setExec (fun s => s <| xs_spot := <[cr_TradingAccountID credentials := balances]> (xs_spot s) |>);
          eret (Ok balances)
      end
  end.

(** A reduce-only close ([execution.ReduceOnly && EqualFold(effect, "close")]). *)
Definition reduceOnlyClose (x : ArbitrageExecution) : bool :=
  x_ReduceOnly x && EqualFold (TrimSpace (x_PositionEffect x)) "close".

Fixpoint prefetchSpot (legs : list (ArbitrageLeg * Dependencies)) : E D (Result unit) :=
  match legs with
  | [] => eret (Ok tt)
  | (leg, d) :: rest =>
      if negb (i_ContractType (dp_instrument d) =?s "spot") then prefetchSpot rest
      else
        do* r <- bidSpotSnapshot leg (dp_credentials d);
        match r with
        | Err e => eret (Err (mkError [ErrVenueUnavailable]
            (Join ["venue unavailable: read "; l_ExchangeSymbol leg; " spot balance: "; err_text e] "")))
        | Ok _ => prefetchSpot rest
        end
  end.
Definition prefetchReduceSpotSnapshots (legs : list (ArbitrageLeg * Dependencies)) : E D (Result unit) :=
  do* x <- execution;
  if negb (reduceOnlyClose x) then eret (Ok tt) else prefetchSpot legs.

Definition subscribeOrders (d : Dependencies) : M D (option StreamKey) :=
  if negb orderStreamsConfigured then ret None
  else
    let key := mkStreamKey (itoa (D := D) (cr_TradingAccountID (dp_credentials d))) (cr_Exchange (dp_credentials d))
                 (i_ContractType (dp_instrument d)) in
    do n <- tick;
    ret (match streamSubscribe n key (dp_credentials d) with Some _ => None | None => Some key end).

Definition watchOrder (subscription : option StreamKey) (adapter : string) (order : Order) : M D bool :=
  match subscription with
  | None => ret false
  | Some key =>
      do n <- tick;
      ret (match streamWatchOrder n key (adapterClientID adapter (o_ClientOrderID order)) with Some _ => false | None => true end)
  end.

(** [subscription != nil && subscription.Healthy()], and the generation of a
    healthy one. *)
Definition streamState (subscription : option StreamKey) : M D (option Z) :=
  match subscription with
  | None => ret None
  | Some key =>
      do n <- tick;
      if streamHealthy n key then do m <- tick; ret (Some (streamGeneration m key)) else ret None
  end.

(** ** One order *)

Definition orderIntent (c : ArbitrageCombination) (x : ArbitrageExecution) (leg : ArbitrageLeg) (instrument : Instrument)
    (side orderType quantity price role : string) (attempt : Z) : Order :=
  let legName := if arbitrageLegName c leg =?s "" then "a"%string else arbitrageLegName c leg in
  let reduceOnly := x_ReduceOnly x && (i_ContractType instrument =?s "perpetual") in
  zero_Order <| o_IdempotencyKey := Join ["arb"; x_ID x; legName; role; itoa (D := D) attempt]%string ":" |>
    <| o_OwnerUsername := c_OwnerUsername c |> <| o_TradingAccountID := l_TradingAccountID leg |>
    <| o_ProductName := l_ProductName leg |> <| o_Exchange := l_Exchange leg |> <| o_InstrumentID := i_ID instrument |>
    <| o_ContractType := i_ContractType instrument |> <| o_ExchangeSymbol := i_ExchangeSymbol instrument |>
    <| o_BaseAsset := i_BaseAsset instrument |> <| o_QuoteAsset := i_QuoteAsset instrument |>
    <| o_Side := side |> <| o_OrderType := orderType |> <| o_Quantity := quantity |> <| o_Price := price |>
    <| o_RequestFingerprint := requestFingerprint (D := D) (l_TradingAccountID leg) (i_ID instrument) side orderType quantity price
         (if reduceOnly then ["reduce_only"%string] else []) |>
    <| o_ArbitrageExecutionID := x_ID x |> <| o_ArbitrageLeg := legName |> <| o_ArbitrageRole := role |>
    <| o_ReduceOnly := reduceOnly |>.

Definition queryInternal (d : Dependencies) (order : Order) : M D (Order * option GoError) :=
  do answer <- callResolve (dp_adapter d) (dp_credentials d) (dp_instrument d) order;
  match answer with
  | (_, Some e) => ret (order, Some e)
  | (resolution, None) =>
      if or_ConfirmedAbsent resolution then ret (order, Some errOrderNotFound)
      else persistResult (o_ID order) "arbitrage_observe" (normalizeVenueResult (D := D) order (or_Result resolution))
  end.

Definition cancelInternal (d : Dependencies) (order : Order) : M D (Order * option GoError) :=
  if terminalStatus (o_Status order) then ret (order, None)
  else
    do answer <- callCancel (dp_adapter d) (dp_credentials d)
      (mkCancelRequest (toVenueInstrument (dp_instrument d)) (o_ClientOrderID order) (o_VenueOrderID order));
    let '(result, err) := answer in
    if match err with None => true | Some e => errorsIs e ErrAmbiguousCancel || errorsIs e ErrUncertain || hasVenueResult result end
    then
      do written <- persistResult (o_ID order) "arbitrage_cancel" (normalizeVenueResult (D := D) order result);
      ret (match written with
           | (persisted, None) => (persisted, err)
           | (_, Some persistErr) => (order, match err with None => Some persistErr | Some e => Some e end)
           end)
    else
      ret (if r_Status result =?s "" then order
           else order <| o_Status := r_Status result |>
                  <| o_VenueOrderID := if r_VenueOrderID result =?s "" then o_VenueOrderID order else r_VenueOrderID result |>
                  <| o_FilledQuantity := if r_FilledQuantity result =?s "" then o_FilledQuantity order else r_FilledQuantity result |>,
           err).

(** *** Reports of the stream *)

(** The fill a report stands for: the growth of the cumulative quantity, or
    the last fill of a report without one. *)
Definition reportedFill (order : Order) (cumulative last : string) : D :=
  let current := parseDecimal (o_FilledQuantity order) in
  let incoming := parseDecimal cumulative in
  if incoming >? current then incoming - current
  else if cumulative =?s "" then dAbs (parseDecimal last) else dZero.

Definition executorStreamUpdate (instrument : Instrument) (order : Order) (update : Update) (receivedAt : GoTime)
    : Result StreamUpdate :=
  match streamQuantity (D := D) instrument (ou_CumulativeFilled update) with
  | Err e => Err e
  | Ok cumulative =>
  match streamQuantity (D := D) instrument (ou_LastFilled update) with
  | Err e => Err e
  | Ok last =>
      if hyperliquidTerminalFillUnknown (o_Exchange order) (ou_Type update) (ou_Status update) cumulative
      then Err fillUnknownError
      else
        let quantity := reportedFill order cumulative last in
        let price := if ou_LastPrice update =?s "" then ou_AveragePrice update else ou_LastPrice update in
        Ok (mkStreamUpdate
          (zero_VenueResult <| r_VenueOrderID := ou_VenueOrderID update |> <| r_Status := streamStatus (ou_Status update) |>
             <| r_FilledQuantity := cumulative |> <| r_AveragePrice := ou_AveragePrice update |>
             <| r_ErrorCode := ou_ErrorCode update |> <| r_ErrorMessage := ou_ErrorMessage update |>)
          (ou_EventTime update) receivedAt
          (if negb (ou_TradeID update =?s "") && dIsPositive quantity
           then [zero_OrderFill <| of_TradeID := ou_TradeID update |> <| of_Quantity := dString quantity |>
                   <| of_Price := price |> <| of_ExecutedAt := ou_EventTime update |> <| of_FeeAmount := ou_FeeAmount update |>
                   <| of_FeeCurrency := ou_FeeCurrency update |> <| of_LiquidityRole := ou_LiquidityRole update |>]
           else [])
          (streamFillSkipsVenueWatermark (o_Exchange order) (ou_Type update) cumulative))
  end end.

Definition applyOrderStreamUpdate (instrument : Instrument) (order : Order) (update : Update) : M D (Result Order) :=
  if bool_decide (ou_Type update = UpdateConnection) then ret (Ok order)
  else
    do receivedAt <- timeNow;
    match executorStreamUpdate instrument order update receivedAt with
    | Err e => ret (Err e)
    | Ok streamUpdate =>
        do updated <- ApplyStreamUpdate (o_ID order) streamUpdate;
        match updated with
        | Err e => ret (Err e)
        | Ok updated => run AppendEvent (o_ID order) "arbitrage_stream"; ret (Ok updated)
        end
    end.

(** *** Waiting for the end of an order *)

(** The timeout of [observeToTerminal]. *)
Definition observeTimedOut (d : Dependencies) (order : Order) : M D (Order * option GoError) :=
  do answer <- queryInternal d order;
  ret (match answer with
       | (refreshed, None) => if terminalStatus (o_Status refreshed) then (refreshed, None) else (refreshed, Some errVenueUncertain)
       | (_, Some _) => (order, Some errVenueUncertain)
       end).

(** The variables of the loop: the channel is open, the time of the last
    query, the generation of the stream at that time, the order. *)
Record ObserveState := mkObserveState { os_updates : bool; os_lastREST : GoTime; os_generation : Z; os_order : Order }.
#[export] Instance eta_ObserveState : Eta ObserveState := fun s =>
  mkObserveState (os_updates s) (os_lastREST s) (os_generation s) (os_order s).

(** The query of a tick of the observer: [inl] the order is terminal, [inr]
    the loop goes on. *)
Definition observeREST (d : Dependencies) (subscription : option StreamKey) (s : ObserveState) : M D (Order + ObserveState) :=
  do state <- streamState subscription;
  let generation := default 0%Z state in
  do t <- timeNow;
  if isSome state && (generation =? os_generation s)%Z && (TimeSub t (os_lastREST s) <? ec_streamAudit)%Z then ret (inr s)
  else
    do answer <- queryInternal d (os_order s);
    do t' <- timeNow;
    ret (match answer with
         | (_, Some _) => inr (s <| os_lastREST := t' |>)
         | (refreshed, None) =>
             if terminalStatus (o_Status refreshed) then inl refreshed
             else inr (mkObserveState (os_updates s) t' generation refreshed)
         end).

Fixpoint observeLoop (cx : Ctx) (d : Dependencies) (subscription : option StreamKey) (events : list SelectEvent) (s : ObserveState)
    : M D (Order * option GoError) :=
  match events with
  | [] => observeTimedOut d (os_order s)
  | event :: rest =>
      match event with
      | SelDone e => if cx_background cx then observeLoop cx d subscription rest s else ret (os_order s, Some e)
      | SelTimeout => observeTimedOut d (os_order s)
      | SelClosed => observeLoop cx d subscription rest (s <| os_updates := false |>)
      | SelUpdate u =>
          if negb (os_updates s) then observeLoop cx d subscription rest s
          else
            do answer <- applyOrderStreamUpdate (dp_instrument d) (os_order s) u;
            match answer with
            | Err e => if errorsIs e errHyperliquidFillUnknown then ret (os_order s, Some errVenueUncertain)
                       else observeLoop cx d subscription rest s
            | Ok refreshed =>
                if terminalStatus (o_Status refreshed) then ret (refreshed, None)
                else observeLoop cx d subscription rest (s <| os_order := refreshed |>)
            end
      | SelTimer =>
          do outcome <- observeREST d subscription s;
          match outcome with
          | inl order => ret (order, None)
          | inr s' => observeLoop cx d subscription rest s'
          end
      | SelHealth => observeLoop cx d subscription rest s
      end
  end.

(** [observeToTerminal]: the loop on the events that come before its timeout. *)
Definition observeToTerminal (cx : Ctx) (d : Dependencies) (order : Order) (observation : orderObservation)
    : M D (Order * option GoError) :=
  if terminalStatus (o_Status order) then ret (order, None)
  else
    do n <- tick;
    do t <- timeNow;
    observeLoop cx d (ob_subscription observation) (selectEvents n) (mkObserveState (ob_watch observation) t 0 order).

Definition settleCanceledOrder (cx : Ctx) (d : Dependencies) (order : Order) (observation : orderObservation)
    : M D (Order * option GoError) :=
  if confirmedAbsentReliableZeroFill (D := D) order || explicitVenueRejectedZeroFill (D := D) order then ret (order, None)
  else if negb (terminalStatus (o_Status order)) then observeToTerminal cx d order observation
  else
    do n <- tick;
    do waited <- (if negb (ob_watch observation) then ret (inr order)
                  else match selectEvents n with
                       | SelUpdate u :: _ =>
                           do answer <- applyOrderStreamUpdate (dp_instrument d) order u;
                           ret (inr (match answer with Ok refreshed => refreshed | Err _ => order end))
                       | SelDone e :: _ => ret (if cx_background cx then inr order else inl e)
                       | _ => ret (inr order)
                       end);
    match waited with
    | inl e => ret (order, Some e)
    | inr order =>
        do answer <- queryInternal d order;
        ret (match answer with (_, Some e) => (order, Some e) | (refreshed, None) => (refreshed, None) end)
    end.

(** ** Positions and states of the run *)

(** [refreshArbitragePositions]: recompute the ledger of the execution and
    read the execution again while it is the active one. *)
Definition refreshArbitragePositions (c : ArbitrageCombination) : E D (Result ArbitrageCombination) :=
  do* x <- execution;
  do* r <- elift (RecomputeArbitrageBasePositionsForExecution (x_ID x));
  match r with
  | Err e => eret (Err e)
  | Ok updated =>
      do* active <- elift (GetActiveArbitrageExecution (c_ID c));
      run* (match active with
            | Ok current => if x_ID current =?s x_ID x then setExecution current else eret tt
            | Err _ => eret tt
            end);
      eret (Ok updated)
  end.

(** [parkMakerReconciling]; the order may be none. *)
Definition parkMakerReconciling (c : ArbitrageCombination) (order : Order) : E D (Order * option GoError) :=
  do* x <- execution;
  run* setExecution (x <| x_Status := "reconciling"%string |> <| x_ErrorMessage := ""%string |>);
  run* saveExecution;
  run* elift (UpdateArbitrageCombinationRuntime (c <| c_RuntimeState := "reconciling"%string |> <| c_ErrorMessage := ""%string |>));
  run* (if o_ID order =?s "" then eret (Ok tt)
        else do* t <- enow; elift (DeferReconcile (o_ID order) (TimeAdd t (5 * Second)%Z)));
  eret (order, Some errReconciling).

(** [persistMakerCanceling] and [restoreMakerOpen]; the callers drop the
    combination they return. *)
Definition persistMakerState (status : string) (c : ArbitrageCombination) : E D unit :=
  do* x <- execution;
  run* setExecution (x <| x_Status := status |> <| x_ErrorMessage := ""%string |>);
  run* saveExecution;
  run* elift (UpdateArbitrageCombinationRuntime (c <| c_RuntimeState := status |> <| c_ErrorMessage := ""%string |>));
  eret tt.
Definition persistMakerCanceling (c : ArbitrageCombination) : E D unit := persistMakerState "maker_canceling" c.
Definition restoreMakerOpen (c : ArbitrageCombination) : E D unit := persistMakerState "maker_open" c.

(** [persistHedgeDeferredDust] *)
Definition persistHedgeDeferredDust (c : ArbitrageCombination) : E D ArbitrageCombination :=
  let c := c <| c_RuntimeState := "hedge_deferred_dust"%string |> <| c_ErrorMessage := ""%string |> in
  do* r <- elift (UpdateArbitrageCombinationRuntime c);
  eret (match r with Ok updated => updated | Err _ => c end).

(** ** The maker order *)

(** [applyMakerFill], a closure of [executeMakerThenHedge]: the fill of the
    maker goes to the leg [makerLeg] names, and never down. *)
Definition applyMakerFill (makerLeg : string) (order : Order) : E D (option GoError) :=
  do* x <- execution;
  let onB := makerLeg =?s "b" in
  let previous := parseDecimal (D := D) (if onB then x_LegBFilledQuantity x else x_LegAFilledQuantity x) in
  let filled := parseDecimal (D := D) (o_FilledQuantity order) in
  let filled := if filled <? previous then previous else filled in
  if dEqual filled previous then eret None
  else
    let x' := if onB then x <| x_LegBFilledQuantity := dString filled |> else x <| x_LegAFilledQuantity := dString filled |> in
    run* setExecution x';
    if terminalStatus (o_Status order) then eret None
    else
      do* r <- elift (UpdateArbitrageExecution x');
      eret (match r with Err e => Some e | Ok _ => None end).

(** [applyFill] of [observeMaker]. *)
Definition applyFill (makerLeg : string) (order : Order) : E D (option GoError) :=
  if dIsPositive (parseDecimal (D := D) (o_FilledQuantity order)) then applyMakerFill makerLeg order else eret None.

(** [permit.Yield()], and [acquireMakerWork] on the caller's context or on one
    with the time limit of a cancellation. *)
Definition yieldPermit : E D unit := setExec (fun s => s <| xs_permit := match xs_permit s with Some _ => Some false | None => None end |>).
Definition acquireMakerWork : E D (option GoError) :=
  do* s <- getExec;
  match xs_permit s with
  | None | Some true => eret None
  | Some false =>
      do* n <- elift tick;
      match permitAcquire n with
      | Some e => eret (Some e)
      | None => run* setExec (fun s => s <| xs_permit := Some true |>); eret None
      end
  end.

Definition shouldYieldMakerPermit (order : Order) : bool :=
  negb (terminalStatus (o_Status order)) && negb (dIsPositive (parseDecimal (D := D) (o_FilledQuantity order))).

Definition cancelTimeout : Duration := if (0 <? ec_timeout)%Z then ec_timeout else (12 * Second)%Z.

(** *** Canceling it *)

Definition snapshotCancelGeneration (observation : orderObservation) : M D cancelGeneration := streamState (ob_subscription observation).

Definition cancelGenerationChanged (snap : cancelGeneration) (observation : orderObservation) : M D bool :=
  match snap with
  | None => ret true
  | Some value =>
      do state <- streamState (ob_subscription observation);
      ret (match state with Some generation => negb (generation =? value)%Z | None => true end)
  end.

(** [observation.watch == nil || observation.subscription == nil] *)
Definition unwatched (observation : orderObservation) : bool := negb (ob_watch observation) || negb (isSome (ob_subscription observation)).

Definition makerCancelNeedsImmediateREST (cancelErr : option GoError) (observation : orderObservation) (generation : cancelGeneration)
    : M D bool :=
  if unwatched observation then ret true
  else
    do state <- streamState (ob_subscription observation);
    if negb (isSome state) then ret true
    else
      do changed <- (if isSome generation then cancelGenerationChanged generation observation else ret false);
      ret (changed || cancelUnconfirmed cancelErr).

(** [confirmMakerCancelByRESTOnce].  Every cancellation calls it at most once,
    so that its guard against a second query never applies. *)
Definition confirmMakerCancelByRESTOnce (c : ArbitrageCombination) (makerLeg : string) (d : Dependencies) (order : Order)
    : E D (Order * option GoError) :=
  do* answer <- elift (queryInternal d order);
  match answer with
  | (_, Some _) => parkMakerReconciling c order
  | (refreshed, None) =>
      if terminalStatus (o_Status refreshed) then do* fillErr <- applyFill makerLeg refreshed; eret (refreshed, fillErr)
      else parkMakerReconciling c refreshed
  end.

(** The loop of [awaitCancelTerminal], on the events that come before the
    grace period ends. *)
Fixpoint awaitCancelLoop (cx : Ctx) (c : ArbitrageCombination) (makerLeg : string) (d : Dependencies) (observation : orderObservation)
    (generation : cancelGeneration) (events : list SelectEvent) (order : Order) : E D (Order * option GoError) :=
  if terminalStatus (o_Status order) then eret (order, None)
  else match events with
  | [] | SelTimeout :: _ => confirmMakerCancelByRESTOnce c makerLeg d order
  | SelDone _ :: rest =>
      if cx_background cx then awaitCancelLoop cx c makerLeg d observation generation rest order else parkMakerReconciling c order
  | SelClosed :: _ => confirmMakerCancelByRESTOnce c makerLeg d order
  | SelTimer :: rest => awaitCancelLoop cx c makerLeg d observation generation rest order
  | SelHealth :: rest =>
      do* state <- elift (streamState (ob_subscription observation));
      do* changed <- (if negb (isSome state) then eret true
                      else if isSome generation then elift (cancelGenerationChanged generation observation) else eret false);
      if changed then confirmMakerCancelByRESTOnce c makerLeg d order
      else awaitCancelLoop cx c makerLeg d observation generation rest order
  | SelUpdate u :: rest =>
      do* answer <- elift (applyOrderStreamUpdate (dp_instrument d) order u);
      match answer with
      | Err _ => confirmMakerCancelByRESTOnce c makerLeg d order
      | Ok refreshed =>
          if terminalStatus (o_Status refreshed) then do* fillErr <- applyFill makerLeg refreshed; eret (refreshed, fillErr)
          else awaitCancelLoop cx c makerLeg d observation generation rest refreshed
      end
  end.

Definition awaitCancelTerminal (cx : Ctx) (c : ArbitrageCombination) (makerLeg : string) (d : Dependencies) (order : Order)
    (observation : orderObservation) (generation : cancelGeneration) (cancelErr : option GoError) : E D (Order * option GoError) :=
  do* immediate <- elift (makerCancelNeedsImmediateREST cancelErr observation generation);
  if immediate then confirmMakerCancelByRESTOnce c makerLeg d order
  else
    do* generation <- (if isSome generation then eret generation else elift (snapshotCancelGeneration observation));
    do* n <- elift tick;
    awaitCancelLoop cx c makerLeg d observation generation (selectEvents n) order.

Definition finishMakerCancel (cx : Ctx) (c : ArbitrageCombination) (makerLeg : string) (d : Dependencies) (order : Order)
    (cancelErr : option GoError) (observation : orderObservation) (generation : cancelGeneration) : E D (Order * option GoError) :=
  if terminalStatus (o_Status order) then eret (order, cancelErr)
  else
    do* ended <- elift (contextErr cx);
    if makerCancelNotSent cancelErr && negb (isSome ended) then run* restoreMakerOpen c; eret (order, cancelErr)
    else if negb (isSome cancelErr) || cancelUnconfirmed cancelErr
    then awaitCancelTerminal cx c makerLeg d order observation generation cancelErr
    else parkMakerReconciling c order.

Definition cancelMakerOnce (cx : Ctx) (c : ArbitrageCombination) (makerLeg : string) (d : Dependencies) (order : Order)
    (observation : orderObservation) : E D (Order * option GoError) :=
  run* persistMakerCanceling c;
  do* generation <- elift (snapshotCancelGeneration observation);
  do* answer <- elift (cancelInternal d order);
  let '(order, err) := answer in
  if terminalStatus (o_Status order) then
    do* fillErr <- applyFill makerLeg order;
    eret (order, match err with None => fillErr | Some e => Some e end)
  else finishMakerCancel cx c makerLeg d order err observation generation.

Definition stayObservingMaker (cx : Ctx) (err : option GoError) : M D bool :=
  do ended <- contextErr cx; ret (makerCancelNotSent err && negb (isSome ended)).

(** *** Watching it *)

(** What a maker order is watched with. *)
Record MakerWatch := mkMakerWatch {
  mw_combination : ArbitrageCombination;
  mw_leg : ArbitrageLeg;
  mw_dependencies : Dependencies;
  mw_side : string;
  mw_price : string;
  mw_direction : string;
  mw_observation : orderObservation
}.

(** The variables of the loop of [observeMaker]. *)
Record MakerState := mkMakerState {
  ms_order : Order;
  ms_updates : bool;
  ms_lastREST : GoTime;
  ms_failureStarted : GoTime;
  ms_failures : Z;
  ms_generation : Z
}.
#[export] Instance eta_MakerState : Eta MakerState := fun s =>
  mkMakerState (ms_order s) (ms_updates s) (ms_lastREST s) (ms_failureStarted s) (ms_failures s) (ms_generation s).

Definition MakerResult : Type := Order * makerOutcome * option GoError.

Definition makerLegOf (w : MakerWatch) : string := c_MakerLeg (mw_combination w).

Definition cancelMaker (cx : Ctx) (w : MakerWatch) (order : Order) : E D (Order * option GoError) :=
  cancelMakerOnce cx (mw_combination w) (makerLegOf w) (mw_dependencies w) order (mw_observation w).

(** [cancelObservedMaker]: the context ended. *)
Definition cancelObservedMaker (cx : Ctx) (w : MakerWatch) (order : Order) : E D MakerResult :=
  do* acquired <- acquireMakerWork;
  match acquired with
  | Some e => eret (order, makerTerminal, Some e)
  | None => do* (canceled, err) <- cancelMaker cx w order; eret (canceled, makerTerminal, err)
  end.

(** The window in which the queries of an order may fail. *)
Definition queryFailureWindow : Duration :=
  if (ec_timeout <=? 0)%Z || (maxOrderReconcileUncertainAge <? ec_timeout)%Z then maxOrderReconcileUncertainAge else ec_timeout.

(** The query of [observeMaker]: [inl] the loop returns. *)
Definition makerREST (w : MakerWatch) (s : MakerState) : E D (MakerResult + MakerState) :=
  do* state <- elift (streamState (ob_subscription (mw_observation w)));
  let generation := default 0%Z state in
  do* t <- enow;
  if isSome state && (generation =? ms_generation s)%Z && (TimeSub t (ms_lastREST s) <? ec_streamAudit)%Z then eret (inr s)
  else
    do* answer <- elift (queryInternal (mw_dependencies w) (ms_order s));
    do* t' <- enow;
    match answer with
    | (refreshed, None) =>
        let s' := mkMakerState refreshed (ms_updates s) t' zeroTime 0 generation in
        do* fillErr <- applyFill (makerLegOf w) refreshed;
        eret (match fillErr with Some e => inl (refreshed, makerTerminal, Some e) | None => inr s' end)
    | (_, Some _) =>
        do* started <- (if IsZeroTime (ms_failureStarted s) then enow else eret (ms_failureStarted s));
        let failures := (ms_failures s + 1)%Z in
        do* t'' <- enow;
        let s' := s <| ms_lastREST := t' |> <| ms_failureStarted := started |> <| ms_failures := failures |> in
        eret (if (maxOrderReconcileFailures <=? failures)%Z || (queryFailureWindow <=? TimeSub t'' started)%Z
              then inl (ms_order s, makerTerminal, Some errVenueUncertain) else inr s')
    end.

(** The outcome [outcome] asks for a cancellation; a cancellation that was
    not sent leaves the order watched. *)
Definition cancelFor (cx : Ctx) (w : MakerWatch) (outcome : makerOutcome) (s : MakerState) (again : MakerState -> E D MakerResult)
    : E D MakerResult :=
  do* (canceled, err) <- cancelMaker cx w (ms_order s);
  if terminalStatus (o_Status canceled) then eret (canceled, outcome, err)
  else
    do* stay <- elift (stayObservingMaker cx err);
    if stay then again (s <| ms_order := canceled |>) else eret (canceled, outcome, err).

(** The part of an iteration after its [select]. *)
Definition makerCheck (cx : Ctx) (w : MakerWatch) (s : MakerState) (again : MakerState -> E D MakerResult) : E D MakerResult :=
  do* queried <- makerREST w s;
  match queried with
  | inl result => eret result
  | inr s =>
      if terminalStatus (o_Status (ms_order s)) then eret (ms_order s, makerTerminal, None)
      else
        let c := mw_combination w in
        do* latestA <- elift (latestForLeg (c_LegA c));
        do* latestB <- elift (latestForLeg (c_LegB c));
        match latestA, latestB with
        | Ok a, Ok b =>
            if negb (opportunityStillValid (D := D) c a b (mw_direction w)) then cancelFor cx w makerOpportunityGone s again
            else
              let latest := if (l_InstrumentID (mw_leg w) =? l_InstrumentID (c_LegB c))%Z then b else a in
              let top := if mw_side w =?s "sell" then b_AskPrice latest else b_BidPrice latest in
              let distance := dAbs (parsePositiveDecimal (D := D) (mw_price w) - parsePositiveDecimal top) in
              let tick := parsePositiveDecimal (D := D) (i_PriceTick (dp_instrument (mw_dependencies w))) in
              if makerShouldReprice distance tick ec_repriceTicks then cancelFor cx w makerReprice s again else again s
        | _, _ => cancelFor cx w makerOpportunityGone s again
        end
  end.

Fixpoint observeMakerLoop (cx : Ctx) (w : MakerWatch) (events : list SelectEvent) (s : MakerState) : E D MakerResult :=
  let order := ms_order s in
  if terminalStatus (o_Status order) then eret (order, makerTerminal, None)
  else
    run* (if shouldYieldMakerPermit order then yieldPermit else eret tt);
    match events with
    | [] => cancelObservedMaker cx w order
    | event :: rest =>
        match event with
        | SelDone _ => if cx_background cx then observeMakerLoop cx w rest s else cancelObservedMaker cx w order
        | SelClosed => observeMakerLoop cx w rest (s <| ms_updates := false |>)
        | SelUpdate u =>
            if negb (ms_updates s) then observeMakerLoop cx w rest s
            else
              do* acquired <- acquireMakerWork;
              match acquired with
              | Some e => eret (order, makerTerminal, Some e)
              | None =>
                  do* answer <- elift (applyOrderStreamUpdate (dp_instrument (mw_dependencies w)) order u);
                  match answer with
                  | Err e =>
                      if errorsIs e errHyperliquidFillUnknown
                      then do* (parked, err) <- parkMakerReconciling (mw_combination w) order; eret (parked, makerTerminal, err)
                      else observeMakerLoop cx w rest s
                  | Ok refreshed =>
                      do* fillErr <- applyFill (makerLegOf w) refreshed;
                      match fillErr with
                      | Some e => eret (refreshed, makerTerminal, Some e)
                      | None =>
                          let s := s <| ms_order := refreshed |> in
                          if terminalStatus (o_Status refreshed) then makerCheck cx w s (observeMakerLoop cx w rest)
                          else observeMakerLoop cx w rest s
                      end
                  end
              end
        | SelTimer =>
            do* ended <- elift (contextErr cx);
            if isSome ended then cancelObservedMaker cx w order
            else
              do* acquired <- acquireMakerWork;
              match acquired with
              | Some _ => cancelObservedMaker cx w order
              | None => makerCheck cx w s (observeMakerLoop cx w rest)
              end
        | SelHealth | SelTimeout => observeMakerLoop cx w rest s
        end
    end.

(** [observeMaker]: the loop on the events that come before the context
    ends. *)
Definition observeMaker (cx : Ctx) (w : MakerWatch) (order : Order) : E D MakerResult :=
  do* t <- enow;
  do* fillErr <- applyFill (makerLegOf w) order;
  match fillErr with
  | Some e => eret (order, makerTerminal, Some e)
  | None =>
      do* n <- elift tick;
      observeMakerLoop cx w (selectEvents n) (mkMakerState order (ob_watch (mw_observation w)) t zeroTime 0 0)
  end.
End Executor.

(** ** An observed order has ended *)

Section Observed.
Context {D : Type} `{!Decimal D} `{!Postgres D} `{!Env D} `{svc : !Services} `{str : !OrderStreams}
  `{ecfg : !ExecutorConfig} `{esur : !ExecutorSurroundings}.

(** An answer without an error is an order that has ended. *)
Definition endedOrFails (r : Order * option GoError) : Prop := snd r = None -> terminalStatus (o_Status (fst r)) = true.

Lemma observeTimedOut_ended d order (w : World D) : endedOrFails (fst (observeTimedOut d order w)).
Proof.
  unfold observeTimedOut, bind, ret, endedOrFails. destruct (queryInternal d order w) as [[o []] w']; cbn; [done|].
  by destruct (terminalStatus (o_Status o)) eqn:E.
Qed.

Lemma observeLoop_ended cx d subscription events s (w : World D) : endedOrFails (fst (observeLoop cx d subscription events s w)).
Proof.
  revert s w. induction events as [|event events IH]; intros s w; cbn [observeLoop]; [apply observeTimedOut_ended|].
  destruct event as [e|u| | | |]; try apply IH; [by destruct (cx_background cx); [apply IH|]| | |apply observeTimedOut_ended].
  - destruct (negb _); [apply IH|]. unfold bind. destruct (applyOrderStreamUpdate _ _ _ w) as [[o|e] w']; cbn.
    + destruct (terminalStatus (o_Status o)) eqn:E; [by intros _|apply IH].
    + destruct (errorsIs _ _); [done|apply IH].
  - unfold bind, observeREST, bind. destruct (streamState _ w) as [state w1]. destruct (timeNow w1) as [t w2]. destruct (_ && _); [apply IH|].
    destruct (queryInternal _ _ w2) as [[o []] w3]; destruct (timeNow w3) as [t' w4]; cbn; [apply IH|].
    destruct (terminalStatus (o_Status o)) eqn:E; [by intros _|apply IH].
Qed.

(** Every value a run may return has [P]. *)
Definition returns {A} (P : A -> Prop) (m : E D A) : Prop := forall s w, P (fst (fst (m s w))).

Lemma returns_bind {A B} (P : B -> Prop) (m : E D A) (k : A -> E D B) : (forall a, returns P (k a)) -> returns P (ebind m k).
Proof. intros H s w. unfold ebind, bind. destruct (m s w) as [[a s'] w']. apply H. Qed.
Lemma returns_then {A B} (Q : A -> Prop) (P : B -> Prop) (m : E D A) (k : A -> E D B) :
  returns Q m -> (forall a, Q a -> returns P (k a)) -> returns P (ebind m k).
Proof. intros Hm Hk s w. unfold ebind, bind. pose proof (Hm s w) as H. destruct (m s w) as [[a s'] w']. by apply Hk. Qed.
Lemma returns_eret {A} (P : A -> Prop) (a : A) : P a -> returns P (eret a).
Proof. intros H s w. exact H. Qed.

(** A maker order that is watched to its end. *)
Definition makerEnded (r : MakerResult) : Prop := endedOrFails (fst (fst r), snd r).
Definition failedOr {S} (r : MakerResult + S) : Prop := match r with inl result => snd result <> None | inr _ => True end.

Ltac ends_ret := apply returns_eret; first [done | by intros ?].
Ltac ends_step :=
  match goal with
  | |- _ => solve [auto]
  | |- returns _ (ebind _ _) => apply returns_bind; intros ?
  | |- returns _ (match ?x with _ => _ end) => destruct x eqn:?
  | |- returns _ (eret _) => ends_ret
  end.
Ltac ends_tac := repeat ends_step.

Lemma park_ends c order : returns endedOrFails (parkMakerReconciling c order).
Proof. unfold parkMakerReconciling. ends_tac. Qed.
#[local] Hint Resolve park_ends : core.
Lemma confirm_ends c leg d order : returns endedOrFails (confirmMakerCancelByRESTOnce c leg d order).
Proof. unfold confirmMakerCancelByRESTOnce. ends_tac. Qed.
#[local] Hint Resolve confirm_ends : core.
Lemma awaitLoop_ends cx c leg d ob g events order : returns endedOrFails (awaitCancelLoop cx c leg d ob g events order).
Proof. revert order. induction events as [|event events IH]; intros order; cbn [awaitCancelLoop]; ends_tac. Qed.
#[local] Hint Resolve awaitLoop_ends : core.
Lemma await_ends cx c leg d order ob g e : returns endedOrFails (awaitCancelTerminal cx c leg d order ob g e).
Proof. unfold awaitCancelTerminal. ends_tac. Qed.
#[local] Hint Resolve await_ends : core.
Lemma finishCancel_ends cx c leg d order e ob g : returns endedOrFails (finishMakerCancel cx c leg d order e ob g).
Proof.
  unfold finishMakerCancel. destruct (terminalStatus (o_Status order)) eqn:E; [ends_ret|]. apply returns_bind. intros ended.
  destruct (makerCancelNotSent e && _) eqn:En; [|destruct (_ || _); auto]. apply returns_bind. intros _. apply returns_eret.
  intros H. cbn in H. by rewrite H in En.
Qed.
#[local] Hint Resolve finishCancel_ends : core.
Lemma cancelMaker_ends cx w order : returns endedOrFails (cancelMaker cx w order).
Proof. unfold cancelMaker, cancelMakerOnce. ends_tac. Qed.
#[local] Hint Resolve cancelMaker_ends : core.
Lemma cancelObserved_ends cx w order : returns makerEnded (cancelObservedMaker cx w order).
Proof.
  unfold cancelObservedMaker. apply returns_bind. intros [e|]; [ends_ret|].
  eapply returns_then; [apply cancelMaker_ends|]. intros [o e] H. ends_ret.
Qed.
Lemma cancelFor_ends cx w outcome s again : (forall s, returns makerEnded (again s)) -> returns makerEnded (cancelFor cx w outcome s again).
Proof.
  intros Ha. unfold cancelFor. eapply returns_then; [apply cancelMaker_ends|]. intros [o e] H.
  destruct (terminalStatus _) eqn:E; [ends_ret|]. apply returns_bind. intros []; [apply Ha|ends_ret].
Qed.
#[local] Hint Resolve cancelObserved_ends cancelFor_ends : core.
Lemma parked_ends c order : returns makerEnded (do* (parked, err) <- parkMakerReconciling c order; eret (parked, makerTerminal, err)).
Proof. eapply returns_then; [apply park_ends|]. intros [o e] H. ends_ret. Qed.
#[local] Hint Resolve parked_ends : core.
Lemma makerREST_fails w s : returns failedOr (makerREST w s).
Proof. unfold makerREST. cbv zeta. ends_tac; apply returns_eret; by case_match. Qed.
Lemma makerCheck_ends cx w s again : (forall s, returns makerEnded (again s)) -> returns makerEnded (makerCheck cx w s again).
Proof.
  intros Ha. unfold makerCheck. eapply returns_then; [apply makerREST_fails|]. intros [[[o outcome] [e|]]|s1] H; [ends_ret|done|].
  cbv zeta. ends_tac.
Qed.
#[local] Hint Resolve makerCheck_ends : core.
Lemma observeMakerLoop_ends cx w events s : returns makerEnded (observeMakerLoop cx w events s).
Proof.
  revert s. induction events as [|event events IH]; intros s; cbn [observeMakerLoop]; cbv zeta; [ends_tac|].
  destruct (terminalStatus _) eqn:E; [ends_ret|]. apply returns_bind. intros u.
  destruct event; ends_tac.
Qed.

End Observed.
