(* ===== verification/ExecHedge.v ===== *)
(** * The executor: hedges and the end of an execution
      (arbitrage_executor.go, arbitrage_last_clip_handoff.go,
      arbitrage_last_close_residual_recover.go, arbitrage_circuit_open.go,
      arbitrage_circuit_recovery.go)

    The IOC hedges with their retries and the emergency order after them, the
    hedge of a carry and of a maker's fill, the handoff of a last clip the
    venue finds too small, and the completion of an execution. *)
From Stdlib Require Import ZArith QArith Lqa String.
From stdpp Require Import base strings list gmap.
From S2P Require Import Prelude Decimal DecimalRef Types Quantity Validate ArbMath ArbSize ArbHedge Resolution OrderStream Store OrderStore OrderService FlattenRules ArbStore FlattenStore ArbLedger CircuitStore Reconciler Executor.

#[local] Set Warnings "-clear-no-such-hyp".

(** ** Data *)

Record hedgeTiming := mkHedgeTiming { ht_dispatchStartedAt : GoTime; ht_emergencyAt : GoTime }.

Record hedgeIOCAdmission := mkHedgeAdmission {
  ha_fastPath : bool;
  ha_makerFilled : string;
  ha_hedgeFilled : string;
  ha_aggregateCarry : bool;
  ha_expectedCarry : string
}.

(** The leg a hedge goes to, its services and its subscription. *)
Record HedgeVenue := mkHedgeVenue {
  hv_leg : ArbitrageLeg;
  hv_dependencies : Dependencies;
  hv_subscription : option StreamKey
}.
Definition hv_instrument (hv : HedgeVenue) : Instrument := dp_instrument (hv_dependencies hv).
Definition hv_credentials (hv : HedgeVenue) : Credentials := dp_credentials (hv_dependencies hv).
Definition hv_adapter (hv : HedgeVenue) : string := dp_adapter (hv_dependencies hv).

(** The variables of the loop of [hedgeIOCTimed]. *)
Record HedgeState (D : Type) := mkHedgeState {
  hs_combination : ArbitrageCombination;
  hs_expectedSequence : Z;
  hs_filled : D;
  hs_lastOrder : Order;
  hs_lastTerminal : bool
}.
Arguments mkHedgeState {D}.
Arguments hs_combination {D}.
Arguments hs_expectedSequence {D}.
Arguments hs_filled {D}.
Arguments hs_lastOrder {D}.
Arguments hs_lastTerminal {D}.

(** What an iteration of the loop ends with. *)
Inductive HedgeStep (D : Type) :=
| HedgeReturn (filled : D) (e : GoError)
| HedgeBreak (s : HedgeState D)
| HedgeNext (s : HedgeState D).
Arguments HedgeReturn {D}.
Arguments HedgeBreak {D}.
Arguments HedgeNext {D}.

#[export] Instance eta_Credentials : Eta Credentials := fun c =>
  mkCredentials (cr_TradingAccountID c) (cr_ProductName c) (cr_Exchange c) (cr_AccountName c) (cr_APIKey c) (cr_APISecret c)
    (cr_Passphrase c) (cr_CredentialKind c) (cr_SigningAddress c) (cr_VaultAddress c) (cr_AccountIndex c) (cr_APIKeyIndex c).

(** The two accounts of a recovery: the services, the snapshots, the time
    they were taken and the positions in them. *)
Record CircuitAccounts (D : Type) := mkCircuitAccounts {
  ca_dependenciesA : Dependencies;
  ca_dependenciesB : Dependencies;
  ca_snapshotA : PortfolioSnapshot;
  ca_snapshotB : PortfolioSnapshot;
  ca_observedAt : GoTime;
  ca_venueA : D;
  ca_venueB : D
}.
Arguments mkCircuitAccounts {D}.
Arguments ca_dependenciesA {D}.
Arguments ca_dependenciesB {D}.
Arguments ca_snapshotA {D}.
Arguments ca_snapshotB {D}.
Arguments ca_observedAt {D}.
Arguments ca_venueA {D}.
Arguments ca_venueB {D}.

Definition lastClipDustHandoffEvent : string := "last_close_clip_dust_handoff".
Definition circuitHedgeRetryCompleted : string := "circuit_hedge_retry_completed".
Definition circuitQuoteRetryCompleted : string := "circuit_quote_retry_completed".

Section ExecHedge.
Context {D : Type} `{!Decimal D} `{!Postgres D} `{!Env D} `{svc : !Services} `{str : !OrderStreams}
  `{ecfg : !ExecutorConfig} `{esur : !ExecutorSurroundings}.
Local Open Scope dec_scope.

(** The price a side pays at the top of the book. *)
Definition takerPrice (bbo : BBO) (side : string) : D :=
  parsePositiveDecimal (if side =?s "sell" then b_BidPrice bbo else b_AskPrice bbo).

(** ** The handoff of a last clip *)

Definition completeLastClipDustHandoff (c : ArbitrageCombination) (cause : GoError) (orders : list Order) : E D (option GoError) :=
  do* x <- execution;
  do* recomputed <- elift (RecomputeArbitrageBasePositionsForExecution (x_ID x));
  match recomputed with
  | Err e => eret (Some e)
  | Ok _ =>
      let hedges := lastClipRoleOrders (executionOrdersFor orders (x_ID x)) "hedge" in
      let message := sanitizeError cause in
      let message := if message =?s ""
                     then match lastClipHedgeRejectCause (Some cause) x hedges with Some reject => sanitizeError reject | None => message end
                     else message in
      do* recorded <- (if c_LastFailureKey c =?s lastClipHedgeMinNotionalFailureKey then eret (Ok c)
                       else elift (RecordArbitrageCloseFailure (c_ID c) lastClipHedgeMinNotionalFailureKey message));
      match recorded with
      | Err e => eret (Some e)
      | Ok c =>
          let failed := x <| x_Status := "failed"%string |> <| x_ErrorMessage := message |> in
          do* written <- elift (UpdateArbitrageExecution failed);
          match written with
          | Err _ => eret (Some errDustHandoff)
          | Ok _ =>
              run* setExecution failed;
              run* appendExecutionEvent (c_ID c) (x_ID failed) lastClipDustHandoffEvent;
              eret (Some errDustHandoff)
          end
      end
  end.

Definition maybeHandoffLastClipHedgeMinNotional (c : ArbitrageCombination) (cause : GoError) : E D (option GoError) :=
  do* x <- execution;
  if negb (EqualFold (TrimSpace (c_Status c)) "closing") || negb (x_LastCloseClip x) then eret None
  else if terminalArbitrageExecutionStatus (x_Status x) then
    eret (if c_LastFailureKey c =?s lastClipHedgeMinNotionalFailureKey then Some errDustHandoff else None)
  else
    do* orders <- elift (ListArbitrageOrders (c_OwnerUsername c) (c_ID c));
    match orders with
    | Err _ => eret None
    | Ok orders =>
        if negb (lastClipHedgeMinNotionalRejected (D := D) c x (Some cause) orders) then eret None
        else completeLastClipDustHandoff c cause orders
    end.

(** The error of an operation, or the one of the handoff it leads to. *)
Definition handoffOr (c : ArbitrageCombination) (e : GoError) : E D GoError :=
  do* handoff <- maybeHandoffLastClipHedgeMinNotional c e;
  eret (match handoff with Some h => h | None => e end).

(** ** IOC hedges *)

Definition reusableHedgeAttempt (c : ArbitrageCombination) (x : ArbitrageExecution) : M D (option Z) :=
  if negb (x_HedgeOrderID x =?s "") then ret None
  else
    do orders <- ListArbitrageOrders (c_OwnerUsername c) (c_ID c);
    ret (match orders with
         | Err _ => None
         | Ok orders =>
             head (omap (fun o => if (o_ArbitrageExecutionID o =?s x_ID x) && (o_ArbitrageRole o =?s "hedge") && negb (terminalStatus (o_Status o))
                                  then hedgeSequenceFromIdempotency (o_IdempotencyKey o) else None) orders)
         end).

(** [!timing.emergencyAt.IsZero() && !time.Now().Before(timing.emergencyAt)] *)
Definition emergencyDue (timing : hedgeTiming) : E D bool :=
  if IsZeroTime (ht_emergencyAt timing) then eret false
  else do* t <- enow; eret (negb (TimeBefore t (ht_emergencyAt timing))).

(** Sending the prepared order, or finding out about one that was sent. *)
Definition hedgeDispatch (hv : HedgeVenue) (c : ArbitrageCombination) (prepared : PrepareHedgeResult) : E D (Order * option GoError) :=
  let stored := pr_Order prepared in
  if pr_Created prepared then
    do* (order, err) <- elift (submitPrepared (hv_adapter hv) (hv_credentials hv) (hv_instrument hv) stored "IOC" false);
    match err with
    | None => eret (order, None)
    | Some e =>
        if errorsIs e ErrVenueUncertain then run* saveStatus "reconciling"; eret (order, Some e)
        else do* e <- handoffOr c e; eret (order, Some e)
    end
  else if o_Status stored =?s "pending" then
    do* (order, err) <- elift (recover (hv_adapter hv) (hv_credentials hv) (hv_instrument hv) stored);
    match err with
    | None => eret (order, None)
    | Some e => do* e <- handoffOr c e; eret (order, Some e)
    end
  else eret (stored, None).

(** The intent of the iteration [first] says is the first one. *)
Definition hedgeInputOf (hv : HedgeVenue) (side : string) (admission : hedgeIOCAdmission) (first : bool) (s : HedgeState D)
    (x : ArbitrageExecution) (quantity price : string) : PrepareHedgeInput :=
  let role := if ha_aggregateCarry admission then "residual"%string else "hedge"%string in
  let fast := ha_fastPath admission && first in
  let aggregate := ha_aggregateCarry admission && first in
  mkPrepareHedgeInput (hs_combination s) x
    (orderIntent (D := D) (hs_combination s) x (hv_leg hv) (hv_instrument hv) side "limit" quantity price role (hs_expectedSequence s))
    (hs_expectedSequence s) fast (if fast then ha_makerFilled admission else "")%string (if fast then ha_hedgeFilled admission else "")%string
    aggregate (if aggregate then ha_expectedCarry admission else "")%string.

(** The iteration after its order was dispatched. *)
Definition hedgeObserve (cx : Ctx) (hv : HedgeVenue) (target : D) (timing : hedgeTiming) (s : HedgeState D) (watch : bool) (order : Order)
    : E D (HedgeStep D) :=
  let c := hs_combination s in
  do* (order, observeErr) <- elift (observeToTerminal cx (hv_dependencies hv) order (mkObservation (hv_subscription hv) watch));
  if isSome observeErr || negb (terminalStatus (o_Status order)) then
    run* saveStatus "reconciling"; eret (HedgeReturn (hs_filled s) errVenueUncertain)
  else
    do* handoff <- (if EqualFold (o_Status order) "rejected"
                    then maybeHandoffLastClipHedgeMinNotional c (mkError [ErrVenueRejected] (String.append "venue rejected order: " (orderErrorText order)))
                    else eret None);
    match handoff with
    | Some h => eret (HedgeReturn (hs_filled s) h)
    | None =>
        let filled := hs_filled s + parseDecimal (o_FilledQuantity order) in
        run* saveExecution;
        do* x <- execution;
        run* appendExecutionEvent (c_ID c) (x_ID x) "hedge_attempt";
        let s := mkHedgeState c (if filled <? target then x_HedgeSequence x else hs_expectedSequence s) filled order true in
        do* due <- (if filled <? target then emergencyDue timing else eret false);
        eret (if due then HedgeBreak s else HedgeNext s)
    end.

Definition hedgeAttempt (cx : Ctx) (hv : HedgeVenue) (side : string) (target : D) (timing : hedgeTiming) (admission : hedgeIOCAdmission)
    (first : bool) (s : HedgeState D) : E D (HedgeStep D) :=
  let i := hv_instrument hv in
  let fails e := eret (HedgeReturn (hs_filled s) e) in
  do* latest <- elift (latestForLeg (hv_leg hv));
  match latest with
  | Err _ => fails errMarketDataStale
  | Ok latest =>
      let remaining := floorToStep (target - hs_filled s) (parsePositiveDecimal (i_QuantityStep i)) in
      if negb (dIsPositive remaining) then eret (HedgeBreak s)
      else match normalizeHedgeIOCPrice (D := D) i side (protectedIOCPrice latest side (parsePositiveDecimal (D := D) (i_PriceTick i)) ec_iocBps) with
      | Err e => fails e
      | Ok price =>
          do* x <- execution;
          match prepareArbitrageOrder (D := D) i "limit" (dString remaining) price price x with
          | Err e => fails e
          | Ok (preparedQuantity, preparedPrice) =>
              let remaining := parsePositiveDecimal (D := D) preparedQuantity in
              do* prepared <- elift (PrepareArbitrageHedgeIntent (hedgeInputOf hv side admission first s x (dString remaining) preparedPrice));
              match prepared with
              | Err e => fails e
              | Ok prepared =>
                  run* setExecution (pr_Execution prepared);
                  let s := mkHedgeState (pr_Combination prepared) (hs_expectedSequence s) (hs_filled s) (hs_lastOrder s) (hs_lastTerminal s) in
                  do* watch <- elift (watchOrder (hv_subscription hv) (hv_adapter hv) (pr_Order prepared));
                  do* (order, err) <- hedgeDispatch hv (pr_Combination prepared) prepared;
                  match err with
                  | Some e => fails e
                  | None => hedgeObserve cx hv target timing s watch order
                  end
              end
          end
      end
  end.

Fixpoint hedgeLoop (cx : Ctx) (hv : HedgeVenue) (side : string) (target : D) (timing : hedgeTiming) (admission : hedgeIOCAdmission)
    (retries : nat) (first : bool) (s : HedgeState D) : E D (D * GoError + HedgeState D) :=
  match retries with
  | O => eret (inr s)
  | S retries =>
      if negb (hs_filled s <? target) then eret (inr s)
      else
        do* due <- (if first then eret false else emergencyDue timing);
        if due && hs_lastTerminal s then eret (inr s)
        else
          do* step <- hedgeAttempt cx hv side target timing admission first s;
          match step with
          | HedgeReturn filled e => eret (inl (filled, e))
          | HedgeBreak s => eret (inr s)
          | HedgeNext s => hedgeLoop cx hv side target timing admission retries false s
          end
  end.

(** ** The emergency order *)

(** The quantity of the order; [inl] the result without one. *)
Definition emergencyQuantity (hv : HedgeVenue) (c : ArbitrageCombination) (x : ArbitrageExecution) (latest : BBO) (side : string) (remaining : D)
    : option GoError + D :=
  let i := hv_instrument hv in
  let price := takerPrice latest side in
  let skipMinNotional := allowBelowMinNotionalCombo c x i in
  match executableHedgeQuantity remaining price i skipMinNotional with
  | (_, _, Some e) => inl (Some e)
  | (_, false, None) => inl (if skipMinNotional then Some errUnsafeHedge else None)
  | (quantity, true, None) =>
      match prepareArbitrageOrder (D := D) i "market" (dString quantity) "" (dString price) x with
      | Err e => inl (Some e)
      | Ok (preparedQuantity, _) =>
          let quantity := parsePositiveDecimal (D := D) preparedQuantity in
          inr (if quantity >? remaining then remaining else quantity)
      end
  end.

Definition emergencyDispatch (hv : HedgeVenue) (c : ArbitrageCombination) (x : ArbitrageExecution) (prepared : PrepareHedgeResult)
    : E D (Order * option GoError) :=
  let stored := pr_Order prepared in
  if pr_Created prepared then
    do* (order, err) <- elift (submitPrepared (hv_adapter hv) (hv_credentials hv) (hv_instrument hv) stored "" false);
    match err with
    | None => eret (order, None)
    | Some e =>
        run* (if errorsIs e ErrVenueUncertain then run* saveStatus "reconciling"; appendExecutionEvent (c_ID c) (x_ID x) "hedge_emergency_skipped_uncertain"
              else appendExecutionEvent (c_ID c) (x_ID x) "hedge_emergency_failed");
        eret (order, Some e)
    end
  else if o_Status stored =?s "pending" then elift (recover (hv_adapter hv) (hv_credentials hv) (hv_instrument hv) stored)
  else eret (stored, None).

Definition submitEmergencyHedge (cx : Ctx) (hv : HedgeVenue) (c : ArbitrageCombination) (side : string) (remaining : D)
    : E D (D * option GoError) :=
  do* latest <- elift (latestForLeg (hv_leg hv));
  match latest with
  | Err _ => eret (dZero, Some errMarketDataStale)
  | Ok latest =>
      do* x <- execution;
      match emergencyQuantity hv c x latest side remaining with
      | inl e => eret (dZero, e)
      | inr quantity =>
          let intent := orderIntent (D := D) c x (hv_leg hv) (hv_instrument hv) side "market" (dString quantity) "" "hedge" (x_HedgeSequence x) in
          run* appendExecutionEvent (c_ID c) (x_ID x) "hedge_emergency_triggered";
          do* prepared <- elift (PrepareArbitrageHedgeIntent
            (mkPrepareHedgeInput c x intent (x_HedgeSequence x) false "" "" false ""));
          match prepared with
          | Err e => run* appendExecutionEvent (c_ID c) (x_ID x) "hedge_emergency_failed"; eret (dZero, Some e)
          | Ok prepared =>
              let c := pr_Combination prepared in
              let x := pr_Execution prepared in
              run* setExecution x;
              do* watch <- elift (watchOrder (hv_subscription hv) (hv_adapter hv) (pr_Order prepared));
              do* (order, err) <- emergencyDispatch hv c x prepared;
              match err with
              | Some e => eret (parseDecimal (o_FilledQuantity order), Some e)
              | None =>
                  do* (order, observeErr) <- elift (observeToTerminal cx (hv_dependencies hv) order (mkObservation (hv_subscription hv) watch));
                  let filled := parseDecimal (o_FilledQuantity order) in
                  if isSome observeErr || negb (terminalStatus (o_Status order)) then
                    run* saveStatus "reconciling";
                    run* appendExecutionEvent (c_ID c) (x_ID x) "hedge_emergency_skipped_uncertain";
                    eret (filled, Some errVenueUncertain)
                  else
                    run* appendExecutionEvent (c_ID c) (x_ID x) "hedge_emergency_completed";
                    eret (filled, if o_Status order =?s "rejected"
                                  then Some (mkError [ErrVenueRejected] "venue rejected order: emergency hedge rejected") else None)
              end
          end
      end
  end.

Definition hedgeIOCTimed (cx : Ctx) (hv : HedgeVenue) (c : ArbitrageCombination) (side : string) (target : D) (timing : hedgeTiming)
    (admission : hedgeIOCAdmission) : E D (D * option GoError) :=
  do* x <- execution;
  do* handoff <- maybeHandoffLastClipHedgeMinNotional c (errPlain (x_ErrorMessage x));
  match handoff with
  | Some h => eret (dZero, Some h)
  | None =>
      do* x <- execution;
      do* reused <- elift (reusableHedgeAttempt c x);
      let s := mkHedgeState c (default (x_HedgeSequence x) reused) dZero zero_Order false in
      do* looped <- hedgeLoop cx hv side target timing admission (Z.to_nat ec_iocRetries) true s;
      match looped with
      | inl (filled, e) => eret (filled, Some e)
      | inr s =>
          let residual := target - hs_filled s in
          if dIsPositive residual && negb (IsZeroTime (ht_emergencyAt timing)) && hs_lastTerminal s then
            do* (emergencyFilled, err) <- submitEmergencyHedge cx hv (hs_combination s) side residual;
            eret (hs_filled s + emergencyFilled, err)
          else eret (hs_filled s, None)
      end
  end.
End ExecHedge.

(** ** The hedge of a carry *)

Section ExecCarry.
Context {D : Type} `{!Decimal D} `{!Postgres D} `{!Env D} `{svc : !Services} `{str : !OrderStreams}
  `{ecfg : !ExecutorConfig} `{esur : !ExecutorSurroundings}.
Local Open Scope dec_scope.

(** [*combination = persistHedgeDeferredDust(...)] and its event. *)
Definition deferDust : E D unit :=
  do* c <- theCombination;
  do* c <- persistHedgeDeferredDust c;
  run* setTheCombination c;
  do* x <- execution;
  appendExecutionEvent (c_ID c) (x_ID x) "hedge_deferred_dust".

(** The residual of [finishHedgeCarry] and the price it would be hedged at. *)
Definition hedgeResidual (useExecutionResidual : bool) (c : ArbitrageCombination) (x : ArbitrageExecution) : D :=
  if useExecutionResidual then snd (makerHedgeRemaining c x) else parseDecimal (c_CarryBaseQuantity c).
Definition residualPrice (useExecutionResidual : bool) (c : ArbitrageCombination) (x : ArbitrageExecution) (leg : ArbitrageLeg)
    (latest : BBO) (residual : D) : D :=
  if useExecutionResidual && negb (hedgeHedgeIsSell c x leg) then parsePositiveDecimal (b_AskPrice latest)
  else if dIsPositive residual then parsePositiveDecimal (b_BidPrice latest) else parsePositiveDecimal (b_AskPrice latest).

(** [finishHedgeCarry]; whether something was hedged is true on all of its
    returns. *)
Definition finishHedgeCarry (leg : ArbitrageLeg) (instrument : Instrument) (filled : D) (hedgeErr : option GoError) (useExecutionResidual : bool)
    : E D (option GoError) :=
  do* c <- theCombination;
  do* x <- execution;
  run* setExecution (if (l_InstrumentID leg =? l_InstrumentID (c_LegA c))%Z
                     then x <| x_LegAFilledQuantity := dString (parseDecimal (x_LegAFilledQuantity x) + filled) |>
                     else x <| x_LegBFilledQuantity := dString (parseDecimal (x_LegBFilledQuantity x) + filled) |>);
  run* saveExecution;
  do* refreshed <- refreshArbitragePositions c;
  match refreshed with
  | Err e => eret (Some e)
  | Ok updated =>
      run* setTheCombination updated;
      do* x <- execution;
      match hedgeErr with
      | Some e => eret (Some e)
      | None =>
          let residual := hedgeResidual useExecutionResidual updated x in
          let skipMinNotional := allowBelowMinNotionalCombo updated x instrument in
          if negb (dIsZero residual) then
            do* latest <- elift (latestForLeg leg);
            match latest with
            | Err _ => eret (Some errMarketDataStale)
            | Ok latest =>
                match executableHedgeQuantity (dAbs residual) (residualPrice useExecutionResidual updated x leg latest residual) instrument skipMinNotional with
                | (_, _, Some e) => eret (Some e)
                | (_, true, None) => run* saveStatus "reconciling"; eret (Some errRiskLimit)
                | (_, false, None) =>
                    if skipMinNotional then eret (Some errUnsafeHedge)
                    else
                      run* appendExecutionEvent (c_ID updated) (x_ID x) "hedge_completed";
                      run* deferDust;
                      eret None
                end
            end
          else
            run* appendExecutionEvent (c_ID updated) (x_ID x) "hedge_completed";
            do* stored <- elift (UpdateArbitrageCombinationRuntime (updated <| c_RuntimeState := "monitoring"%string |> <| c_ErrorMessage := ""%string |>));
            run* setTheCombination (match stored with Ok c => c | Err _ => zero_ArbitrageCombination end);
            eret None
      end
  end.

(** The spot balance bounds what a closing execution may trade. *)
Definition spotBound (leg : ArbitrageLeg) (d : Dependencies) (side : string) : E D (Result (option D)) :=
  if negb (i_ContractType (dp_instrument d) =?s "spot") then eret (Ok None)
  else
    do* snapshot <- bidSpotSnapshot leg (dp_credentials d);
    eret (match snapshot with
          | Err e => Err (errSpotBalance e)
          | Ok balances => Ok (Some (spotAvailableForSide balances (l_BaseAsset leg) side))
          end).
Definition dMinOpt (a : D) (b : option D) : D := match b with Some b => dMin a b | None => a end.

(** The quantity of a reduce-only close is bounded by what the combination
    and the account own: [inl] an error. *)
Definition boundedCarry (hv : HedgeVenue) (c : ArbitrageCombination) (side : string) (target price : D) (skipMinNotional : bool)
    : E D (Result D) :=
  do* bound <- spotBound (hv_leg hv) (hv_dependencies hv) side;
  eret (match bound with
        | Err e => Err e
        | Ok bound =>
            let target := dMin target (dMinOpt (arbitrageReduceLegAvailable c (arbitrageLegName c (hv_leg hv)) side) bound) in
            if negb (dIsPositive target) then Err errUnsafeHedge
            else match executableHedgeQuantity target price (hv_instrument hv) skipMinNotional with
                 | (_, _, Some e) => Err e
                 | (_, false, None) => Err errUnsafeHedge
                 | (quantity, true, None) => Ok quantity
                 end
        end).

(** The order that already hedges has to end first. *)
Definition settleHedgeOrder (cx : Ctx) (hv : HedgeVenue) : E D (option GoError) :=
  do* c <- theCombination;
  do* x <- execution;
  if x_HedgeOrderID x =?s "" then eret None
  else
    do* existing <- elift (GetByOwner (c_OwnerUsername c) (x_HedgeOrderID x));
    match existing with
    | Err e => eret (Some e)
    | Ok existing =>
        if terminalStatus (o_Status existing) then eret None
        else
          do* (existing, err) <- elift (observeToTerminal cx (hv_dependencies hv) existing (mkObservation (hv_subscription hv) false));
          if isSome err || negb (terminalStatus (o_Status existing)) then run* saveStatus "reconciling"; eret (Some errVenueUncertain)
          else eret None
    end.

(** Hedging the quantity of a carry. *)
Definition hedgeCarryQuantity (cx : Ctx) (hv : HedgeVenue) (side : string) (quantity : D) (timing : hedgeTiming) : E D (bool * option GoError) :=
  do* c <- theCombination;
  do* t <- enow;
  let timing := if IsZeroTime (ht_dispatchStartedAt timing) then mkHedgeTiming t (ht_emergencyAt timing) else timing in
  do* (filled, hedgeErr) <- hedgeIOCTimed cx hv c side quantity timing (mkHedgeAdmission false "" "" true (c_CarryBaseQuantity c));
  if isError hedgeErr errLastClipDustHandoff then eret (false, hedgeErr)
  else do* err <- finishHedgeCarry (hv_leg hv) (hv_instrument hv) filled hedgeErr false; eret (true, err).

Definition hedgeCarryWithTiming (cx : Ctx) (hv : HedgeVenue) (timing : hedgeTiming) : E D (bool * option GoError) :=
  do* unsettled <- settleHedgeOrder cx hv;
  match unsettled with
  | Some e => eret (false, Some e)
  | None =>
      do* c <- theCombination;
      do* refreshed <- refreshArbitragePositions c;
      match refreshed with
      | Err e => eret (false, Some e)
      | Ok updated =>
          run* setTheCombination updated;
          do* x <- execution;
          let carry := parseDecimal (c_CarryBaseQuantity updated) in
          if dIsZero carry then eret (false, None)
          else
            let side := carryHedgeSide carry in
            do* latest <- elift (latestForLeg (hv_leg hv));
            match latest with
            | Err _ => eret (false, Some errMarketDataStale)
            | Ok latest =>
                let price := takerPrice latest side in
                let skipMinNotional := allowBelowMinNotionalCombo updated x (hv_instrument hv) in
                match executableHedgeQuantity (dAbs carry) price (hv_instrument hv) skipMinNotional with
                | (_, _, Some e) => eret (false, Some e)
                | (_, false, None) =>
                    if skipMinNotional then eret (false, Some errUnsafeHedge) else run* deferDust; eret (false, None)
                | (quantity, true, None) =>
                    do* bounded <- (if reduceOnlyClose x then boundedCarry hv updated side (dAbs carry) price skipMinNotional else eret (Ok quantity));
                    match bounded with
                    | Err e => eret (false, Some e)
                    | Ok quantity => hedgeCarryQuantity cx hv side quantity timing
                    end
                end
            end
      end
  end.

Definition hedgeCarry (cx : Ctx) (hv : HedgeVenue) (dispatchStart : GoTime) : E D (bool * option GoError) :=
  hedgeCarryWithTiming cx hv (mkHedgeTiming dispatchStart zeroTime).

(** ** The hedge of a maker's fill *)

(** The quantity to hedge: [inl] an error, [inr None] dust. *)
Definition makerHedgeQuantity (hv : HedgeVenue) (c : ArbitrageCombination) (x : ArbitrageExecution) (side : string) (latest : BBO) (remaining : D)
    : E D (GoError + option D) :=
  let i := hv_instrument hv in
  let price := takerPrice latest side in
  let skipMinNotional := allowBelowMinNotionalCombo c x i in
  match executableHedgeQuantity remaining price i skipMinNotional with
  | (_, _, Some e) => eret (inl e)
  | (_, false, None) => eret (if skipMinNotional then inl errUnsafeHedge else inr None)
  | (quantity, true, None) =>
      if negb (reduceOnlyClose x && (i_ContractType i =?s "spot")) then eret (inr (Some quantity))
      else
        do* bound <- spotBound (hv_leg hv) (hv_dependencies hv) side;
        eret (match bound with
              | Err e => inl e
              | Ok bound =>
                  match executableHedgeQuantity (dMinOpt remaining bound) price i skipMinNotional with
                  | (_, _, Some e) => inl e
                  | (_, false, None) => inl errUnsafeHedge
                  | (quantity, true, None) => inr (Some quantity)
                  end
              end)
  end.

Definition hedgeMakerQuantity (cx : Ctx) (hv : HedgeVenue) (side : string) (quantity makerFilled hedgeFilled : D) (timing : hedgeTiming)
    : E D (bool * option GoError) :=
  do* c <- theCombination;
  do* (filled, hedgeErr) <- hedgeIOCTimed cx hv c side quantity timing
    (mkHedgeAdmission true (dString makerFilled) (dString hedgeFilled) false "");
  if hedgeAdmissionConflict hedgeErr || isError hedgeErr errLastClipDustHandoff then
    run* saveExecution;
    do* x <- execution;
    run* (if negb (terminalArbitrageExecutionStatus (x_Status x)) && hedgeAdmissionConflict hedgeErr
          then run* parkMakerReconciling c zero_Order; eret tt else eret tt);
    eret (false, hedgeErr)
  else do* err <- finishHedgeCarry (hv_leg hv) (hv_instrument hv) filled hedgeErr true; eret (true, err).

Definition hedgeMakerCarryWithDeadline (cx : Ctx) (hv : HedgeVenue) (side : string) (timing : hedgeTiming) : E D (bool * option GoError) :=
  do* c <- theCombination;
  do* x <- execution;
  let '(makerFilled, hedgeFilled, remaining) := makerHedgeRemaining (D := D) c x in
  if TrimSpace (x_MakerOrderID x) =?s "" then run* saveExecution; hedgeCarryWithTiming cx hv timing
  else if negb (dIsPositive remaining) then run* saveExecution; eret (false, None)
  else if negb (TrimSpace (x_HedgeOrderID x) =?s "") then run* saveExecution; hedgeCarryWithTiming cx hv timing
  else
    do* latest <- elift (latestForLeg (hv_leg hv));
    match latest with
    | Err _ => run* saveExecution; eret (false, Some errMarketDataStale)
    | Ok latest =>
        do* sized <- makerHedgeQuantity hv c x side latest remaining;
        match sized with
        | inl e => run* saveExecution; eret (false, Some e)
        | inr None => run* saveExecution; run* deferDust; eret (false, None)
        | inr (Some quantity) => hedgeMakerQuantity cx hv side quantity makerFilled hedgeFilled timing
        end
    end.
End ExecCarry.

(** ** The end of an execution *)

Section ExecComplete.
Context {D : Type} `{!Decimal D} `{!Postgres D} `{!Env D} `{svc : !Services} `{str : !OrderStreams}
  `{ecfg : !ExecutorConfig} `{esur : !ExecutorSurroundings}.
Local Open Scope dec_scope.

(** The first live order of the execution parks it. *)
Definition requireExecutionOrdersTerminal (c : ArbitrageCombination) : E D (option GoError) :=
  do* x <- execution;
  do* orders <- elift (ListArbitrageOrders (c_OwnerUsername c) (c_ID c));
  match orders with
  | Err e => eret (Some e)
  | Ok orders =>
      match List.find (fun o => (o_ArbitrageExecutionID o =?s x_ID x) && negb (terminalStatus (o_Status o))) orders with
      | None => eret None
      | Some order => do* (_, err) <- parkMakerReconciling c order; eret (match err with Some e => Some e | None => Some errReconciling end)
      end
  end.

Definition applyLastCloseClipAllocatedFills (c : ArbitrageCombination) (orders : list Order) : E D (D * D) :=
  do* x <- execution;
  let fills := (parseDecimal (D := D) (x_LegAFilledQuantity x), parseDecimal (D := D) (x_LegBFilledQuantity x)) in
  let assign '(fillA, fillB) :=
    run* setExecution (x <| x_LegAFilledQuantity := dString fillA |> <| x_LegBFilledQuantity := dString fillB |>); eret (fillA, fillB) in
  if negb (lastCloseClipClosingEligible c x) then eret fills
  else if EqualFold (TrimSpace (c_ExecutionMode c)) "simultaneous_market" then
    match aggregateSimultaneousMarketLastCloseFills (D := D) (x_ID x) orders with
    | (_, _, false) => eret fills
    | (marketA, marketB, true) => assign (marketA, marketB)
    end
  else
    let alloc := allocateLastCloseClipResidualFills (D := D) orders c x in
    if negb (af_Found alloc) then eret fills else assign (af_FillA alloc, af_FillB alloc).

(** *** The completion of a recovery *)

Definition withExchange (credentials : Credentials) (leg : ArbitrageLeg) : Credentials :=
  if cr_Exchange credentials =?s "" then credentials <| cr_Exchange := l_Exchange leg |> else credentials.

Definition circuitOpenAccountSnapshot (credentials : Credentials) : M D (Result PortfolioSnapshot) :=
  do n <- tick; ret (portfolioSnapshot n (cr_Exchange credentials) credentials).

Definition circuitOpenMark (leg : ArbitrageLeg) (snapshot : PortfolioSnapshot) : M D D :=
  let mark := portfolioAuditMark (D := D) snapshot leg in
  if dIsPositive mark then ret mark
  else
    do bbo <- latestForLeg leg;
    ret (match bbo with
         | Err _ => dZero
         | Ok bbo =>
             let bid := parsePositiveDecimal (b_BidPrice bbo) in
             let ask := parsePositiveDecimal (b_AskPrice bbo) in
             if dIsPositive bid && dIsPositive ask then dDiv (bid + ask) (dNewFromInt 2) else if dIsPositive bid then bid else ask
         end).

(** What a recovery reads of the two accounts. *)
Definition readAccounts (c : ArbitrageCombination) (dA dB : Dependencies) : M D (Result (CircuitAccounts D)) :=
  do snapshotA <- circuitOpenAccountSnapshot (withExchange (dp_credentials dA) (c_LegA c));
  match snapshotA with
  | Err e => ret (Err e)
  | Ok snapshotA =>
      do snapshotB <- circuitOpenAccountSnapshot (withExchange (dp_credentials dB) (c_LegB c));
      match snapshotB with
      | Err e => ret (Err e)
      | Ok snapshotB =>
          do observedAt <- timeNow;
          ret (match venueBasePosition (D := D) snapshotA (c_LegA c) (dp_instrument dA), venueBasePosition (D := D) snapshotB (c_LegB c) (dp_instrument dB) with
               | Err e, _ => Err e
               | _, Err e => Err e
               | Ok venueA, Ok venueB => Ok (mkCircuitAccounts dA dB snapshotA snapshotB observedAt venueA venueB)
               end)
      end
  end.
Definition bothDependencies (c : ArbitrageCombination) : M D (Result (Dependencies * Dependencies)) :=
  do dA <- executionDependencies (c_OwnerUsername c) (c_LegA c);
  match dA with
  | Err e => ret (Err e)
  | Ok dA =>
      do dB <- executionDependencies (c_OwnerUsername c) (c_LegB c);
      ret (match dB with Err e => Err e | Ok dB => Ok (dA, dB) end)
  end.

Definition finishCircuitRecoveryExecution (c : ArbitrageCombination) (mark : D) : E D (option GoError) :=
  do* started <- enow;
  do* dependencies <- elift (bothDependencies c);
  match dependencies with
  | Err e => eret (Some e)
  | Ok (dA, dB) =>
      do* accounts <- elift (readAccounts c dA dB);
      match accounts with
      | Err e => eret (Some e)
      | Ok accounts =>
          do* orders <- elift (ListArbitrageOrders (c_OwnerUsername c) (c_ID c));
          match orders with
          | Err e => eret (Some e)
          | Ok orders =>
              let '(orderSumA, orderSumB, allTerminal) := combinationTerminalOrderSums (D := D) orders in
              if negb allTerminal then eret (Some (mkError [ErrArbitrageReconciling] "arbitrage execution reconciling: circuit recovery orders are not terminal"))
              else
                do* markA <- elift (circuitOpenMark (c_LegA c) (ca_snapshotA accounts));
                do* markB <- elift (circuitOpenMark (c_LegB c) (ca_snapshotB accounts));
                do* x <- execution;
                let eventType := if negb (TrimSpace (x_MakerOrderID x) =?s "") && negb (TrimSpace (x_HedgeOrderID x) =?s "")
                                 then circuitQuoteRetryCompleted else circuitHedgeRetryCompleted in
                do* closed <- elift (CompleteCircuitOpenRecovery (mkRecoveryClose (c_ID c) (x_ID x) (c_Version c) circuitCloseFilled eventType
                  (ca_venueA accounts) (ca_venueB accounts) (if dIsPositive markA then markA else mark) (if dIsPositive markB then markB else mark)
                  (ca_observedAt accounts) started orderSumA orderSumB (x_LegAFilledQuantity x) (x_LegBFilledQuantity x) (x_DeltaNotional x)
                  (dString (dAbs (parseDecimal (D := D) (x_DeltaNotional x))))));
                match closed with
                | Err e => eret (Some e)
                | Ok (_, false) => eret (Some (invalidArgument ["circuit recovery close rejected"]%string))
                | Ok (_, true) =>
                    run* setExecution (x <| x_Status := "completed"%string |> <| x_ErrorMessage := ""%string |>);
                    eret None
                end
          end
      end
  end.

(** *** Completion *)

Definition completePositions (c : ArbitrageCombination) (fillA fillB mark : D) : E D (option GoError) :=
  do* x <- execution;
  let x := x <| x_Status := "completed"%string |> <| x_ErrorMessage := ""%string |> in
  run* setExecution x;
  do* written <- elift (UpdateArbitrageExecution x);
  match written with
  | Err e => eret (Some e)
  | Ok _ =>
      let delta := signedPositionDelta (x_Direction x) fillA fillB mark in
      do* updated <- elift (UpdateArbitragePositionFromBase (c_ID c) (dString mark) (dString (dAbs delta)));
      match updated with
      | Err e => eret (Some e)
      | Ok _ => run* appendExecutionEvent (c_ID c) (x_ID x) "execution_completed"; eret None
      end
  end.

Definition completeExecution (cx : Ctx) (c : ArbitrageCombination) (mark : D) : E D (option GoError) :=
  do* live <- requireExecutionOrdersTerminal c;
  match live with
  | Some e => eret (Some e)
  | None =>
      do* refreshed <- refreshArbitragePositions c;
      match refreshed with
      | Err e => eret (Some e)
      | Ok c =>
          do* orders <- elift (ListArbitrageOrders (c_OwnerUsername c) (c_ID c));
          match orders with
          | Err e => eret (Some e)
          | Ok orders =>
              do* (fillA, fillB) <- applyLastCloseClipAllocatedFills c orders;
              do* x <- execution;
              if lastCloseClipMustMatchFillsOrders c x orders && negb (dEqual fillA fillB) then
                do* failed <- elift (FailLastCloseClipUnbalanced c (x_ID x) (dString fillA) (dString fillB) (dString (dAbs (fillA - fillB))));
                match failed with
                | Err e => eret (Some e)
                | Ok (_, x') => run* setExecution x'; eret None
                end
              else
                let x := x <| x_DeltaNotional := dString (deltaNotional fillA fillB mark) |> in
                if cx_recovery cx then
                  run* setExecution (x <| x_LegAFilledQuantity := dString fillA |> <| x_LegBFilledQuantity := dString fillB |>);
                  finishCircuitRecoveryExecution c mark
                else run* setExecution x; completePositions c fillA fillB mark
          end
      end
  end.

(** ** Recovering a last close clip *)

Definition recordLastCloseRecoveryBlocked (c : ArbitrageCombination) (eventType : string) : E D unit :=
  do* x <- execution;
  run* elift (RecordLastCloseRecoveryBlocked (c_ID c) (x_ID x) eventType);
  eret tt.

Definition parkLastCloseClipReconciling (c : ArbitrageCombination) : E D (option GoError) :=
  do* x <- execution;
  let x := x <| x_Status := "reconciling"%string |> <| x_ErrorMessage := ""%string |> in
  run* setExecution x;
  do* written <- elift (UpdateArbitrageExecution x);
  match written with
  | Err e => eret (if errorsIs e ErrArbitrageExecutionTerminal then None else Some e)
  | Ok _ =>
      do* r <- elift (UpdateArbitrageCombinationRuntime (c <| c_RuntimeState := "reconciling"%string |> <| c_ErrorMessage := ""%string |>));
      eret (match r with Err e => Some e | Ok _ => None end)
  end.

(** A matched allocation is completed at [mark] and recorded. *)
Definition completeMatchedClip (cx : Ctx) (c : ArbitrageCombination) (alloc : lastCloseClipAllocatedFills D) (mark : D) : E D (option GoError) :=
  do* x <- execution;
  run* setExecution (x <| x_LegAFilledQuantity := dString (af_FillA alloc) |> <| x_LegBFilledQuantity := dString (af_FillB alloc) |>);
  do* err <- completeExecution cx c mark;
  if match err with Some e => negb (errorsIs e ErrArbitrageExecutionTerminal) | None => false end then eret err
  else
    do* x <- execution;
    run* elift (RecordLastCloseResidualRecovered (c_ID c) (x_ID x));
    eret None.

Definition finishLockedLastCloseClip (cx : Ctx) (c : ArbitrageCombination) (execOrders : list Order) : E D (option GoError) :=
  do* x <- execution;
  let blocked eventType := run* recordLastCloseRecoveryBlocked c eventType; eret None in
  if match execOrders with [] => true | _ => false end || lastCloseClipOrdersBlocked execOrders then blocked lastCloseRecoveryOrderNotTerminalEvent
  else if negb (lastCloseClipOrdersAllReduceOnly execOrders) then blocked lastCloseRecoveryFillMismatchEvent
  else
    let alloc := allocateLastCloseClipResidualFills (D := D) execOrders c x in
    if negb (allocatedMatched alloc) then blocked lastCloseRecoveryFillMismatchEvent
    else
      let mark := lastCloseRecoveryMark (D := D) execOrders x in
      if negb (dIsPositive mark) then blocked lastCloseRecoveryOrderNotTerminalEvent
      else completeMatchedClip cx c alloc mark.

(** [recoverLastCloseClipClosing]: whether it handled the execution, and the
    error. *)
Definition recoverLastCloseClipClosing (cx : Ctx) (c : ArbitrageCombination) : E D (bool * option GoError) :=
  do* x <- execution;
  if negb (lastCloseClipClosingEligible c x) then eret (false, None)
  else if terminalArbitrageExecutionStatus (x_Status x) then eret (true, None)
  else
    do* orders <- elift (ListArbitrageOrders (c_OwnerUsername c) (c_ID c));
    match orders with
    | Err e => eret (true, Some e)
    | Ok orders =>
        let execOrders := lastCloseClipExecutionOrders orders (x_ID x) in
        if lastCloseClipLockedResumeEligible c x then do* err <- finishLockedLastCloseClip cx c execOrders; eret (true, err)
        else match execOrders with
        | [] => eret (false, None)
        | _ =>
            if lastCloseClipOrdersBlocked execOrders then do* err <- parkLastCloseClipReconciling c; eret (true, err)
            else
              let alloc := allocateLastCloseClipResidualFills (D := D) execOrders c x in
              if allocatedMatched alloc then
                let mark := lastCloseRecoveryMark (D := D) execOrders x in
                do* err <- (if negb (dIsPositive mark) then parkLastCloseClipReconciling c else completeMatchedClip cx c alloc mark);
                eret (true, err)
              else if residualShort alloc then
                do* failed <- elift (FailLastCloseClipUnbalanced c (x_ID x) (dString (af_FillA alloc)) (dString (af_FillB alloc))
                  (dString (dAbs (af_MakerFill alloc - af_EffectiveHedgeFill alloc))));
                match failed with
                | Err e => eret (true, Some e)
                | Ok (_, x') => run* setExecution x'; eret (true, None)
                end
              else eret (false, None)
        end
    end.
End ExecComplete.

(** ** An execution is completed when its orders have ended *)

Section Completed.
Context {D : Type} `{!Decimal D} `{!Postgres D} `{!Env D} `{svc : !Services} `{str : !OrderStreams}
  `{ecfg : !ExecutorConfig} `{esur : !ExecutorSurroundings}.

Lemma listOrders_read owner id (w w' : World D) orders :
  (forall n (st : Store D), interfere n st = st) -> ListArbitrageOrders owner id w = (Ok orders, w') -> orders = ordersOf owner id (w_store w).
Proof.
  intros Hi. unfold ListArbitrageOrders, sql, transact. destruct (dbFault (w_tick w)) as [[? ?]|]; [done|]. rewrite Hi. by intros [= <- _].
Qed.
Lemma requireTerminal_none c s (w w' : World D) s' :
  (forall n (st : Store D), interfere n st = st) -> requireExecutionOrdersTerminal c s w = ((None, s'), w') ->
  forall o, o ∈ ordersOf (c_OwnerUsername c) (c_ID c) (w_store w) -> o_ArbitrageExecutionID o = x_ID (xs_execution s) ->
  terminalStatus (o_Status o) = true.
Proof.
  intros Hi. unfold requireExecutionOrdersTerminal, ebind, execution, getExec, elift, ebind, bind, ret, eret, ret.
  destruct (ListArbitrageOrders _ _ w) as [[orders|e] w1] eqn:El; [|done]. apply (listOrders_read _ _ _ _ _ Hi) in El as ->.
  destruct (List.find _ _) as [live|] eqn:Ef.
  - destruct (parkMakerReconciling _ _ _ _) as [[[p [e|]] s1] w2]; done.
  - intros _ o Ho Hx. apply list_elem_of_In in Ho. pose proof (find_none _ _ Ef o Ho) as Hn. cbn in Hn. rewrite Hx, String.eqb_refl in Hn.
    by destruct (terminalStatus (o_Status o)).
Qed.

End Completed.

(** ** A concrete execution *)

Section CompletedWitness.
#[local] Existing Instance stillEnv.
#[local] Existing Instance simpleServices.
#[local] Existing Instance readyStreams.

Definition plainExecutor : ExecutorConfig := {|
  ec_repriceTicks := 2; ec_iocBps := 10; ec_iocRetries := 3; ec_hedgeEmergencyAfter := 0; ec_timeout := 12 * Second;
  ec_signalBBOStale := 2 * Second; ec_streamAudit := 5 * Second; ec_finalMetrics := false
|}.
(** Nothing is received, and there is no market data. *)
Definition silentSurroundings : ExecutorSurroundings := {|
  contextEnds _ := None; selectEvents _ := []; permitAcquire _ := None; marketLatest _ _ := Err errMarketDataStale;
  spotSnapshot _ _ _ := Ok []; transportWarm _ _ _ _ := None; streamGeneration _ _ := 0;
  portfolioSnapshot _ _ _ := Err errVenueUncertain; legBFirst _ := false; runsDrain _ := None
|}.
#[local] Existing Instance plainExecutor.
#[local] Existing Instance silentSurroundings.

(** The maker order of the execution is filled. *)
Definition filledRow : OrderRow :=
  mkOrderRow (zero_Order <| o_ID := "m1"%string |> <| o_OwnerUsername := "u"%string |> <| o_ArbitrageExecutionID := "x1"%string |>
    <| o_ArbitrageLeg := "a"%string |> <| o_ArbitrageRole := "maker"%string |> <| o_Side := "buy"%string |> <| o_Quantity := "2"%string |>
    <| o_FilledQuantity := "2"%string |> <| o_AveragePrice := "100"%string |> <| o_Status := "filled"%string |>) None None None None PgInfinity.
Definition filledWorld : World Dec := mkWorld (claimedStore <| st_orders := {["m1"%string := filledRow]} |>) 0 [].
Definition claimedExec : Exec := mkExec openingClaim quietItem None ∅.

End CompletedWitness.
