(* ===== verification/ExecRun.v ===== *)
(** * The executor: whole executions (arbitrage_executor.go,
      arbitrage_one_shot_final_flatten_exec.go,
      arbitrage_last_close_residual_flatten.go)

    The two ways an execution trades, a maker order that is hedged and two
    market orders at once; the flattening executions; what becomes of an
    execution that failed; the recovery without market data and the closing of
    a combination. *)
From Stdlib Require Import ZArith QArith Lqa String.
From stdpp Require Import base strings list gmap.
From S2P Require Import Prelude Decimal DecimalRef Types Quantity Validate ArbMath ArbSize ArbHedge Resolution OrderStream Store OrderStore OrderService FlattenRules ArbStore FlattenStore ArbLedger CircuitStore Reconciler Executor ExecHedge.

#[local] Set Warnings "-clear-no-such-hyp".

(** ** Data *)

Definition lastCloseCarryDeferredEvent : string := "last_close_carry_deferred_to_leg_flatten".
Definition oneShotFinalFlattenLegSubmittedEvent : string := "one_shot_final_flatten_leg_submitted".
Definition oneShotFinalFlattenLegTerminalEvent : string := "one_shot_final_flatten_leg_terminal".
Definition oneShotFinalFlattenCompletedEvent : string := "one_shot_final_flatten_completed".
Definition oneShotFinalFlattenUnexecutableEvent : string := "one_shot_final_flatten_unexecutable_dust".
Definition oneShotFinalFlattenRetryEvent : string := "one_shot_final_flatten_retry".
Definition oneShotFinalFlattenStarted : string := "one_shot_final_flatten_started".

(** Which leg makes, which one hedges, and their sides. *)
Record MakerPlan := mkMakerPlan {
  mp_makerLeg : ArbitrageLeg;
  mp_hedgeLeg : ArbitrageLeg;
  mp_makerSide : string;
  mp_hedgeSide : string;
  mp_makerName : string;
  mp_hedgeName : string;
  mp_makerBBO : BBO
}.
Definition makerPlan (c : ArbitrageCombination) (x : ArbitrageExecution) (bboA bboB : BBO) : option MakerPlan :=
  match arbitrageLegSides (x_Direction x) with
  | None => None
  | Some (aSide, bSide) =>
      Some (if c_MakerLeg c =?s "b" then mkMakerPlan (c_LegB c) (c_LegA c) bSide aSide "b" "a" bboB
            else mkMakerPlan (c_LegA c) (c_LegB c) aSide bSide "a" "b" bboA)
  end.
Definition errDirection (x : ArbitrageExecution) (mode : string) : GoError :=
  invalidArgument ["unsupported arbitrage direction "; quoted (x_Direction x); " for "; mode]%string.

(** A maker order that is open, or was: the order, whether this run created
    it, its price, its quantity and the price the position is valued at. *)
Record MakerOrder (D : Type) := mkMakerOrder {
  mk_stored : Order;
  mk_created : bool;
  mk_price : string;
  mk_quantity : D;
  mk_priceValue : D
}.
Arguments mkMakerOrder {D}.
Arguments mk_stored {D}.
Arguments mk_created {D}.
Arguments mk_price {D}.
Arguments mk_quantity {D}.
Arguments mk_priceValue {D}.

Section ExecMaker.
Context {D : Type} `{!Decimal D} `{!Postgres D} `{!Env D} `{svc : !Services} `{str : !OrderStreams}
  `{ecfg : !ExecutorConfig} `{esur : !ExecutorSurroundings}.
Local Open Scope dec_scope.

(** ** A maker order that is hedged *)

(** The services of both legs, warmed, and their subscriptions. *)
Definition makerSetup (c : ArbitrageCombination) (plan : MakerPlan) : M D (Result (HedgeVenue * HedgeVenue)) :=
  do maker <- executionDependencies (c_OwnerUsername c) (mp_makerLeg plan);
  match maker with
  | Err e => ret (Err e)
  | Ok maker =>
      do hedge <- executionDependencies (c_OwnerUsername c) (mp_hedgeLeg plan);
      match hedge with
      | Err e => ret (Err e)
      | Ok hedge =>
          do warmed <- warmArbitrageOrderTransport maker;
          match warmed with
          | Err e => ret (Err e)
          | Ok _ =>
              do warmed <- warmArbitrageOrderTransport hedge;
              match warmed with
              | Err e => ret (Err e)
              | Ok _ =>
                  do makerOrders <- subscribeOrders maker;
                  do hedgeOrders <- subscribeOrders hedge;
                  ret (Ok (mkHedgeVenue (mp_makerLeg plan) maker makerOrders, mkHedgeVenue (mp_hedgeLeg plan) hedge hedgeOrders))
              end
          end
      end
  end.

(** The hedge order of an execution that is taken up again. *)
Definition resumeHedgeOrder (cx : Ctx) (hedge : HedgeVenue) : E D (option GoError) :=
  do* c <- theCombination;
  do* x <- execution;
  if negb ((x_Status x =?s "hedging") || (x_Status x =?s "reconciling")) || (x_HedgeOrderID x =?s "") then eret None
  else
    do* recovering <- elift (GetByOwner (c_OwnerUsername c) (x_HedgeOrderID x));
    match recovering with
    | Err e => eret (Some e)
    | Ok recovering =>
        do* watch <- elift (watchOrder (hv_subscription hedge) (hv_adapter hedge) recovering);
        do* (recovering, observeErr) <- elift (observeToTerminal cx (hv_dependencies hedge) recovering (mkObservation (hv_subscription hedge) watch));
        if isSome observeErr || negb (terminalStatus (o_Status recovering)) then run* saveStatus "reconciling"; eret (Some errVenueUncertain)
        else
          do* handoff <- maybeHandoffLastClipHedgeMinNotional c (errPlain (o_ErrorMessage recovering));
          match handoff with
          | Some h => eret (Some h)
          | None =>
              do* refreshed <- refreshArbitragePositions c;
              match refreshed with
              | Err e => eret (Some e)
              | Ok c => run* setTheCombination c; eret None
              end
          end
    end.

(** A carry that can be hedged by itself: [inl] the execution ends, [inr]
    whether the maker order ignores the budget of the carry. *)
Definition standaloneCarry (cx : Ctx) (plan : MakerPlan) (hedge : HedgeVenue) (hedgeBBO bboA bboB : BBO) : E D (option GoError + bool) :=
  do* c <- theCombination;
  do* x <- execution;
  let carry := parseDecimal (D := D) (c_CarryBaseQuantity c) in
  if dIsZero carry then eret (inr false)
  else
    let deferred := lastCloseClipMustMatchFills c x &&
                    negb (fst (lastCloseStandaloneCarryReady (D := D) c x (hv_leg hedge) (hv_instrument hedge) hedgeBBO)) in
    if deferred then run* appendExecutionEvent (c_ID c) (x_ID x) lastCloseCarryDeferredEvent; eret (inr false)
    else
      do* snapshot <- (if reduceOnlyClose x && (i_ContractType (hv_instrument hedge) =?s "spot")
                       then bidSpotSnapshot (hv_leg hedge) (hv_credentials hedge) else eret (Ok []));
      match standaloneCarryPlan (D := D) c x (hv_leg hedge) (hv_instrument hedge) hedgeBBO snapshot with
      | Err e => eret (inl (Some e))
      | Ok standaloneCarryDeferToMaker => eret (inr (carrySameSignAsMaker carry (mp_makerSide plan)))
      | Ok standaloneCarryExecute =>
          do* t <- enow;
          do* (hedged, err) <- hedgeCarry cx hedge t;
          match err with
          | Some e => eret (inl (Some e))
          | None =>
              if hedged then
                let mark := dDiv (parsePositiveDecimal (b_AskPrice bboA) + parsePositiveDecimal (b_BidPrice bboB)) (dNewFromInt 2) in
                do* c <- theCombination;
                do* err <- completeExecution cx c mark;
                eret (inl err)
              else eret (inr false)
          end
      end.

(** The bounds of a reduce-only close, with the spot balances. *)
Definition closeBounded (c : ArbitrageCombination) (plan : MakerPlan) (maker hedge : HedgeVenue) (step qty : D) : E D (Result D) :=
  let qty := dMin qty (arbitrageCloseableBase c) in
  let qty := dMin qty (arbitrageReduceLegAvailable c (mp_makerName plan) (mp_makerSide plan)) in
  let qty := dMin qty (arbitrageReduceLegAvailable c (mp_hedgeName plan) (mp_hedgeSide plan)) in
  do* makerBound <- spotBound (hv_leg maker) (hv_dependencies maker) (mp_makerSide plan);
  match makerBound with
  | Err e => eret (Err e)
  | Ok makerBound =>
      let qty := match makerBound with Some available => floorToStep (dMin qty available) step | None => qty end in
      do* hedgeBound <- spotBound (hv_leg hedge) (hv_dependencies hedge) (mp_hedgeSide plan);
      eret (match hedgeBound with
            | Err e => Err e
            | Ok hedgeBound => Ok (floorToStep (dMinOpt qty hedgeBound) step)
            end)
  end.

(** The quantity of a new maker order.  An execution without a target is sized
    by its notional; a price of zero, on which the division of Go panics, is
    left to [dDiv]. *)
Definition makerQuantity (plan : MakerPlan) (maker hedge : HedgeVenue) (skipMakerCarryBudget : bool) (priceValue step : D) : E D (Result D) :=
  do* c <- theCombination;
  do* x <- execution;
  let target := parsePositiveDecimal (D := D) (x_TargetBaseQuantity x) in
  let carry := parseDecimal (D := D) (c_CarryBaseQuantity c) in
  let qty := if dIsPositive target then target else baseQuantityForNotional (executionNotional c x) priceValue step in
  let roundBaseCap := if dIsPositive target then qty else dDiv (executionNotional c x) priceValue in
  let qty := if skipMakerCarryBudget then qty else makerQuantityWithinCarryBudget qty carry (mp_makerSide plan) roundBaseCap step in
  do* bounded <- (if reduceOnlyClose x then closeBounded c plan maker hedge step qty else eret (Ok qty));
  eret (match bounded with
        | Err e => Err e
        | Ok qty =>
            let closeable := dMin (arbitrageCloseableBase c) (arbitrageReduceLegAvailable c (mp_hedgeName plan) (mp_hedgeSide plan)) in
            if EqualFold (x_PositionEffect x) "close" && x_ReduceOnly x && carrySameSignAsMaker carry (mp_makerSide plan) &&
               (dAbs (expectedCarryAfterMaker carry qty (mp_makerSide plan)) >? closeable)
            then Err errRiskLimit
            else if negb (dIsPositive qty) then Err errRiskLimit else Ok qty
        end).

(** The maker order of the execution, or its intent. *)
Definition makerOrderOf (plan : MakerPlan) (maker hedge : HedgeVenue) (skipMakerCarryBudget : bool) : E D (Result (MakerOrder D)) :=
  do* c <- theCombination;
  do* x <- execution;
  let i := hv_instrument maker in
  let top := if mp_makerSide plan =?s "sell" then b_AskPrice (mp_makerBBO plan) else b_BidPrice (mp_makerBBO plan) in
  let price := passiveMakerPrice (D := D) top (mp_makerSide plan) (parsePositiveDecimal (i_PriceTick i)) in
  let priceValue := parsePositiveDecimal (D := D) price in
  let step := commonQuantityStep (parsePositiveDecimal (D := D) (i_QuantityStep i)) (parsePositiveDecimal (i_QuantityStep (hv_instrument hedge))) in
  if negb (dIsPositive step) then eret (Err errInstrumentUnavailable)
  else if negb (x_MakerOrderID x =?s "") then
    do* stored <- elift (GetByOwner (c_OwnerUsername c) (x_MakerOrderID x));
    eret (match stored with
          | Err e => Err e
          | Ok stored => Ok (mkMakerOrder stored false (o_Price stored) (parsePositiveDecimal (o_Quantity stored)) (parsePositiveDecimal (o_Price stored)))
          end)
  else
    try* qty <- makerQuantity plan maker hedge skipMakerCarryBudget priceValue step;
    do* x <- execution;
    let x := x <| x_TargetBaseQuantity := dString qty |> in
    run* setExecution x;
    match prepareArbitrageOrder (D := D) i "limit" (dString qty) price price x with
    | Err e => eret (Err e)
    | Ok (preparedQuantity, preparedPrice) =>
        let qty := parsePositiveDecimal (D := D) preparedQuantity in
        let intent := orderIntent (D := D) c x (mp_makerLeg plan) i (mp_makerSide plan) "limit" (dString qty) preparedPrice "maker" 0 in
        try* (stored, created) <- elift (CreateIntent intent);
        eret (Ok (if created then mkMakerOrder stored true preparedPrice qty priceValue
                  else mkMakerOrder stored false (o_Price stored) (parsePositiveDecimal (o_Quantity stored)) priceValue))
    end.

(** The order is written down before it is sent.  When the runtime state
    cannot be written the combination becomes the empty one, as in the code. *)
Definition openMaker (m : MakerOrder D) : E D (option GoError) :=
  do* x <- execution;
  let x := x <| x_TargetBaseQuantity := dString (mk_quantity m) |> <| x_MakerOrderID := o_ID (mk_stored m) |>
             <| x_Status := if x_HedgeOrderID x =?s "" then "maker_open"%string else "reconciling"%string |> in
  run* setExecution x;
  do* written <- elift (UpdateArbitrageExecution x);
  match written with
  | Err e => eret (Some e)
  | Ok _ =>
      do* c <- theCombination;
      do* r <- elift (UpdateArbitrageCombinationRuntime (c <| c_RuntimeState := x_Status x |> <| c_ErrorMessage := ""%string |>));
      run* setTheCombination (match r with Ok c => c | Err _ => zero_ArbitrageCombination end);
      eret None
  end.

(** Sending it: the order, and whether the venue wants another price. *)
Definition submitMaker (maker : HedgeVenue) (m : MakerOrder D) : E D (GoError + Order * bool) :=
  let stored := mk_stored m in
  let i := hv_instrument maker in
  let refused e := run* (if errorsIs e ErrVenueRejected then saveStatus "failed" else eret tt); eret (inl e) in
  if mk_created m then
    do* (order, err) <- elift (submitWithOptions (hv_adapter maker) (hv_credentials maker) i stored "GTC" true);
    match err with
    | None => eret (inr (order, makerPostOnlyReprice (D := D) i order))
    | Some e => if errorsIs e ErrVenueRejected && makerPostOnlyReprice (D := D) i order then eret (inr (order, true)) else refused e
    end
  else if o_Status stored =?s "pending" then
    do* (order, err) <- elift (recover (hv_adapter maker) (hv_credentials maker) i stored);
    match err with
    | None => eret (inr (order, makerPostOnlyReprice (D := D) i order))
    | Some e => refused e
    end
  else eret (inr (stored, makerPostOnlyReprice (D := D) i stored)).

(** The run that failed, or the maker order as it was watched to its end. *)
Definition watchMaker (cx : Ctx) (plan : MakerPlan) (maker : HedgeVenue) (m : MakerOrder D) (observation : orderObservation) (order : Order)
    (reprice : bool) : E D (GoError + Order * makerOutcome) :=
  do* c <- theCombination;
  do* x <- execution;
  if reprice then eret (inr (order, makerReprice))
  else
    run* appendExecutionEvent (c_ID c) (x_ID x) "maker_accepted";
    do* (order, outcome, observeErr) <- observeMaker cx
      (mkMakerWatch c (mp_makerLeg plan) (hv_dependencies maker) (mp_makerSide plan) (mk_price m) (x_Direction x) observation) order;
    eret (match observeErr with
          | Some e => if errorsIs e ErrArbitrageReconciling then inl e else if errorsIs e Canceled then inr (order, outcome) else inl e
          | None => inr (order, outcome)
          end).

(** A runtime state that cannot be written leaves the run with the empty
    combination, and the run goes on to send the order. *)
Lemma unwritten_state_empties (m : MakerOrder D) (s : Exec) (w w1 w2 : World D) (y : ArbitrageExecution) (e : GoError) :
  let x := xs_execution s in
  let x' := x <| x_TargetBaseQuantity := dString (mk_quantity m) |> <| x_MakerOrderID := o_ID (mk_stored m) |>
              <| x_Status := if x_HedgeOrderID x =?s "" then "maker_open"%string else "reconciling"%string |> in
  UpdateArbitrageExecution x' w = (Ok y, w1) ->
  UpdateArbitrageCombinationRuntime ((xs_combination s) <| c_RuntimeState := x_Status x' |> <| c_ErrorMessage := ""%string |>) w1 = (Err e, w2) ->
  openMaker m s w = (None, s <| xs_execution := x' |> <| xs_combination := zero_ArbitrageCombination |>, w2).
Proof.
  intros x x' H1 H2. unfold openMaker, execution, theCombination, setExecution, setTheCombination, setExec, getExec, ebind, elift, eret, bind, ret.
  fold x. fold x'. rewrite H1. cbv beta iota. cbn [xs_combination setter]. rewrite H2. done.
Qed.
End ExecMaker.

Section ExecMakerRun.
Context {D : Type} `{!Decimal D} `{!Postgres D} `{!Env D} `{svc : !Services} `{str : !OrderStreams}
  `{ecfg : !ExecutorConfig} `{esur : !ExecutorSurroundings}.
Local Open Scope dec_scope.

Definition appendOutcome (outcome : makerOutcome) : E D unit :=
  do* c <- theCombination;
  do* x <- execution;
  match outcome with
  | makerReprice => appendExecutionEvent (c_ID c) (x_ID x) "maker_requote"
  | makerOpportunityGone => appendExecutionEvent (c_ID c) (x_ID x) "opportunity_gone"
  | makerTerminal => eret tt
  end.
Definition appendMakerTerminal : E D unit :=
  do* c <- theCombination;
  do* x <- execution;
  appendExecutionEvent (c_ID c) (x_ID x) "maker_terminal".

(** A maker order that ended without a fill.  The completion runs on
    [context.Background()]: a recovery that asked for its own completion is
    not told of it. *)
Definition endUnfilledMaker (outcome : makerOutcome) (priceValue : D) : E D (option GoError) :=
  run* appendMakerTerminal;
  do* c <- theCombination;
  do* refreshed <- refreshArbitragePositions c;
  match refreshed with
  | Err e => run* setTheCombination zero_ArbitrageCombination; eret (Some e)
  | Ok c =>
      let state := match outcome with makerReprice => "repricing"%string | makerOpportunityGone => "opportunity_gone"%string | makerTerminal => "monitoring"%string end in
      let c := c <| c_RuntimeState := state |> <| c_ErrorMessage := ""%string |> in
      run* setTheCombination c;
      run* elift (UpdateArbitrageCombinationRuntime c);
      completeExecution backgroundContext c priceValue
  end.

(** A carry that was there before and is left over as dust: the completion
    may go on. *)
Definition completeLeftoverDust (order : Order) (carryBefore makerReduceAtEntry : D) (err : option GoError) : E D (option GoError) :=
  if negb (isError err ErrArbitrageUnsafeHedge) then eret err
  else
    do* c <- theCombination;
    do* x <- execution;
    do* orders <- elift (ListArbitrageOrders (c_OwnerUsername c) (c_ID c));
    match orders with
    | Err _ => eret err
    | Ok orders =>
        if leftoverCloseDustCompletable (D := D) c x order orders carryBefore (parseDecimal (c_CarryBaseQuantity c)) makerReduceAtEntry
        then run* deferDust; eret None
        else eret err
    end.

(** The fill of the maker is hedged, and the execution completed. *)
Definition hedgeMaker (hedge : HedgeVenue) (hedgeSide : string) (order : Order) (carryBefore makerReduceAtEntry priceValue : D) : E D (option GoError) :=
  do* t <- enow;
  let timing := mkHedgeTiming t (if (0 <? ec_hedgeEmergencyAfter)%Z then TimeAdd t ec_hedgeEmergencyAfter else zeroTime) in
  do* err <- (if negb (dIsZero carryBefore) then
                do* (_, err) <- hedgeCarryWithTiming backgroundContext hedge timing;
                completeLeftoverDust order carryBefore makerReduceAtEntry err
              else do* (_, err) <- hedgeMakerCarryWithDeadline backgroundContext hedge hedgeSide timing; eret err);
  run* appendMakerTerminal;
  do* c <- theCombination;
  match err with
  | Some e => if errorsIs e errLastClipDustHandoff then eret (Some e) else do* e <- handoffOr c e; eret (Some e)
  | None => completeExecution backgroundContext c priceValue
  end.

(** The run after the maker order was sent or found. *)
Definition makerSent (cx : Ctx) (plan : MakerPlan) (maker hedge : HedgeVenue) (m : MakerOrder D) (carryBefore makerReduceAtEntry : D)
    (observation : orderObservation) (order : Order) (reprice : bool) : E D (option GoError) :=
  do* watched <- watchMaker cx plan maker m observation order reprice;
  match watched with
  | inl e => eret (Some e)
  | inr (order, outcome) =>
      let repriced := makerPostOnlyReprice (D := D) (hv_instrument maker) order in
      let outcome := if repriced then makerReprice else outcome in
      if negb repriced && (o_Status order =?s "rejected") then
        let message := orderErrorText order in
        eret (Some (mkError [ErrVenueRejected] (String.append "venue rejected order: " (if message =?s "" then "maker order rejected"%string else message))))
      else
        do* ended <- elift (contextErr cx);
        do* x <- execution;
        let filled := dIsPositive (parseDecimal (D := D) (o_FilledQuantity order)) in
        if isSome ended && negb filled && negb ((x_Status x =?s "reconciling") || (x_Status x =?s "maker_canceling")) then
          run* saveStatus "canceled"; eret None
        else
          do* c <- theCombination;
          do* fillErr <- applyMakerFill (c_MakerLeg c) order;
          match fillErr with
          | Some e => eret (Some e)
          | None =>
              run* appendOutcome outcome;
              if negb filled then endUnfilledMaker outcome (mk_priceValue m)
              else hedgeMaker hedge (mp_hedgeSide plan) order carryBefore makerReduceAtEntry (mk_priceValue m)
          end
  end.

(** The maker order: written, sent, watched. *)
Definition runMaker (cx : Ctx) (plan : MakerPlan) (maker hedge : HedgeVenue) (skipMakerCarryBudget : bool) (carryBefore makerReduceAtEntry : D)
    : E D (option GoError) :=
  do* ordered <- makerOrderOf plan maker hedge skipMakerCarryBudget;
  match ordered with
  | Err e => eret (Some e)
  | Ok m =>
      do* unopened <- openMaker m;
      match unopened with
      | Some e => eret (Some e)
      | None =>
          do* watch <- elift (watchOrder (hv_subscription maker) (hv_adapter maker) (mk_stored m));
          do* submitted <- submitMaker maker m;
          match submitted with
          | inl e => eret (Some e)
          | inr (order, reprice) =>
              makerSent cx plan maker hedge m carryBefore makerReduceAtEntry (mkObservation (hv_subscription maker) watch) order reprice
          end
      end
  end.

(** The carry before the fills of an execution that is taken up again. *)
Definition entryCarry (c : ArbitrageCombination) (x : ArbitrageExecution) : Result D :=
  let carry := parseDecimal (D := D) (c_CarryBaseQuantity c) in
  if TrimSpace (x_MakerOrderID x) =?s "" then Ok carry
  else carryBeforeExecutionFromFills carry (parseDecimal (x_LegAFilledQuantity x)) (parseDecimal (x_LegBFilledQuantity x)) (x_Direction x).

Definition runPlan (cx : Ctx) (plan : MakerPlan) (maker hedge : HedgeVenue) (bboA bboB : BBO) : E D (option GoError) :=
  do* c <- theCombination;
  do* x <- execution;
  match entryCarry c x with
  | Err e => eret (Some e)
  | Ok carryBefore =>
      let entered := negb (TrimSpace (x_MakerOrderID x) =?s "") in
      let makerReduceAtEntry := arbitrageReduceLegAvailable (D := D) c (mp_makerName plan) (mp_makerSide plan) in
      let hedgeBBO := if c_MakerLeg c =?s "b" then bboA else bboB in
      do* resumed <- resumeHedgeOrder cx hedge;
      match resumed with
      | Some e => eret (Some e)
      | None =>
          do* carried <- (if entered then eret (inr false) else standaloneCarry cx plan hedge hedgeBBO bboA bboB);
          match carried with
          | inl result => eret result
          | inr skip => runMaker cx plan maker hedge skip carryBefore makerReduceAtEntry
          end
      end
  end.

Definition executeMakerThenHedge (cx : Ctx) (bboA bboB : BBO) : E D (option GoError) :=
  do* c <- theCombination;
  do* (handled, recoverErr) <- recoverLastCloseClipClosing cx c;
  if handled then eret recoverErr
  else
    do* x <- execution;
    match makerPlan c x bboA bboB with
    | None => eret (Some (errDirection x "maker_then_hedge"))
    | Some plan =>
        do* venues <- elift (makerSetup c plan);
        match venues with
        | Err e => eret (Some e)
        | Ok (maker, hedge) =>
            do* refreshed <- refreshArbitragePositions c;
            match refreshed with
            | Err e => eret (Some e)
            | Ok c =>
                run* setTheCombination c;
                do* prefetched <- prefetchReduceSpotSnapshots [(hv_leg maker, hv_dependencies maker); (hv_leg hedge, hv_dependencies hedge)];
                match prefetched with
                | Err e => eret (Some e)
                | Ok _ => runPlan cx plan maker hedge bboA bboB
                end
            end
        end
    end.

End ExecMakerRun.

(** ** Two market orders at once *)

(** The order of a leg: its venue, side and type, its limit price and the
    price it is valued at. *)
Record MarketLeg (D : Type) := mkMarketLeg {
  ml_venue : HedgeVenue;
  ml_side : string;
  ml_type : string;
  ml_price : string;
  ml_reference : D
}.
Arguments mkMarketLeg {D}.
Arguments ml_venue {D}.
Arguments ml_side {D}.
Arguments ml_type {D}.
Arguments ml_price {D}.
Arguments ml_reference {D}.

Section ExecMarket.
Context {D : Type} `{!Decimal D} `{!Postgres D} `{!Env D} `{svc : !Services} `{str : !OrderStreams}
  `{ecfg : !ExecutorConfig} `{esur : !ExecutorSurroundings}.
Local Open Scope dec_scope.

Definition marketLeg (venue : HedgeVenue) (side : string) (bbo : BBO) : MarketLeg D :=
  let i := hv_instrument venue in
  let spot := i_ContractType i =?s "spot" in
  mkMarketLeg venue side (if spot then "limit" else "market")%string
    (if spot then protectedIOCPrice bbo side (parsePositiveDecimal (D := D) (i_PriceTick i)) ec_iocBps else ""%string)
    (takerPrice bbo side).

(** The quantities of the two orders. *)
Definition marketQuantities (c : ArbitrageCombination) (x : ArbitrageExecution) (legA legB : MarketLeg D) : E D (Result (D * D)) :=
  let '(typeA, typeB) := arbitrageOrderTypes c in
  let stepA := instrumentOrderStep (D := D) (hv_instrument (ml_venue legA)) typeA in
  let stepB := instrumentOrderStep (D := D) (hv_instrument (ml_venue legB)) typeB in
  let target := parsePositiveDecimal (D := D) (x_TargetBaseQuantity x) in
  let notional := executionNotional c x in
  let qtyA := if dIsPositive target then target else baseQuantityForNotional notional (ml_reference legA) stepA in
  let qtyB := if dIsPositive target then target else baseQuantityForNotional notional (ml_reference legB) stepB in
  do* sized <- (if negb (reduceOnlyClose x) then eret (Ok (qtyA, qtyB))
                else
                  let candidate := dMin (dMin (dMin (dMin qtyA qtyB) (arbitrageCloseableBase c)) (arbitrageReduceLegAvailable c "a" (ml_side legA)))
                                     (arbitrageReduceLegAvailable c "b" (ml_side legB)) in
                  do* boundA <- spotBound (hv_leg (ml_venue legA)) (hv_dependencies (ml_venue legA)) (ml_side legA);
                  match boundA with
                  | Err e => eret (Err e)
                  | Ok boundA =>
                      do* boundB <- spotBound (hv_leg (ml_venue legB)) (hv_dependencies (ml_venue legB)) (ml_side legB);
                      eret (match boundB with
                            | Err e => Err e
                            | Ok boundB =>
                                let qty := floorToStep (dMinOpt (dMinOpt candidate boundA) boundB) (commonQuantityStep stepA stepB) in Ok (qty, qty)
                            end)
                  end);
  eret (match sized with
        | Err e => Err e
        | Ok (qtyA, qtyB) => if negb (dIsPositive qtyA) || negb (dIsPositive qtyB) then Err errRiskLimit else Ok (qtyA, qtyB)
        end).

Definition marketIntent (c : ArbitrageCombination) (x : ArbitrageExecution) (leg : MarketLeg D) (qty : D) : Result Order :=
  let i := hv_instrument (ml_venue leg) in
  match prepareArbitrageOrder (D := D) i (ml_type leg) (dString qty) (ml_price leg) (dString (ml_reference leg)) x with
  | Err e => Err e
  | Ok (preparedQuantity, preparedPrice) =>
      Ok (orderIntent (D := D) c x (hv_leg (ml_venue leg)) i (ml_side leg) (ml_type leg)
            (dString (parsePositiveDecimal (D := D) preparedQuantity)) preparedPrice "market" 0)
  end.

(** The goroutine that sends the order of a leg. *)
Definition submitMarket (venue : HedgeVenue) (intent : Order) (created : bool) : M D (Order * option GoError) :=
  if terminalStatus (o_Status intent) || (o_Status intent =?s "open") || (o_Status intent =?s "partially_filled") then ret (intent, None)
  else if created then
    if o_OrderType intent =?s "limit"
    then submitWithOptions (hv_adapter venue) (hv_credentials venue) (hv_instrument venue) intent "IOC" false
    else submit (hv_adapter venue) (hv_credentials venue) (hv_instrument venue) intent
  else recover (hv_adapter venue) (hv_credentials venue) (hv_instrument venue) intent.

(** Both goroutines, one after the other in either order. *)
Definition submitBoth (legA legB : MarketLeg D) (intentA intentB : Order * bool) : M D ((Order * option GoError) * (Order * option GoError)) :=
  do n <- tick;
  if legBFirst n then
    do b <- submitMarket (ml_venue legB) (fst intentB) (snd intentB);
    do a <- submitMarket (ml_venue legA) (fst intentA) (snd intentA);
    ret (a, b)
  else
    do a <- submitMarket (ml_venue legA) (fst intentA) (snd intentA);
    do b <- submitMarket (ml_venue legB) (fst intentB) (snd intentB);
    ret (a, b).

(** The carry the fills left is hedged on the leg that trades the side it
    needs; the combination is the refreshed one. *)
Definition hedgeMarketCarry (legA legB : MarketLeg D) : E D (option GoError) :=
  do* updated <- theCombination;
  let carry := parseDecimal (D := D) (c_CarryBaseQuantity updated) in
  if dIsZero carry then eret None
  else
    let requiredSide := if dIsNegative carry then "buy"%string else "sell"%string in
    do* t <- enow;
    do* (_, err) <- hedgeCarry backgroundContext (ml_venue (if ml_side legA =?s requiredSide then legA else legB)) t;
    eret err.

(** The run after both orders were sent. *)
Definition settleMarket (cx : Ctx) (c : ArbitrageCombination) (legA legB : MarketLeg D) (watchA watchB : bool)
    (sentA sentB : Order * option GoError) : E D (option GoError) :=
  let observe leg sent watch := elift (observeToTerminal cx (hv_dependencies (ml_venue leg)) (fst sent) (mkObservation (hv_subscription (ml_venue leg)) watch)) in
  do* (orderA, errA) <- observe legA sentA watchA;
  do* (orderB, errB) <- observe legB sentB watchB;
  if isSome errA || isSome errB || negb (terminalStatus (o_Status orderA)) || negb (terminalStatus (o_Status orderB)) then
    run* saveStatus "reconciling"; eret (Some errVenueUncertain)
  else
    let fillA := parseDecimal (D := D) (o_FilledQuantity orderA) in
    let fillB := parseDecimal (D := D) (o_FilledQuantity orderB) in
    let mark := dDiv (ml_reference legA + ml_reference legB) (dNewFromInt 2) in
    do* x <- execution;
    let x := x <| x_LegAFilledQuantity := dString fillA |> <| x_LegBFilledQuantity := dString fillB |>
               <| x_DeltaNotional := dString (deltaNotional fillA fillB mark) |> in
    run* setExecution x;
    do* written <- elift (UpdateArbitrageExecution x);
    match written with
    | Err e => eret (Some e)
    | Ok _ =>
        do* refreshed <- refreshArbitragePositions c;
        match refreshed with
        | Err e => eret (Some e)
        | Ok updated =>
            run* setTheCombination updated;
            do* hedgeErr <- hedgeMarketCarry legA legB;
            match hedgeErr with
            | Some e => eret (Some e)
            | None =>
                do* updated <- theCombination;
                do* err <- completeExecution backgroundContext updated mark;
                match err with
                | Some e => eret (Some e)
                | None =>
                    do* x <- execution;
                    run* (if isSome (snd sentA) || isSome (snd sentB) then appendExecutionEvent (c_ID c) (x_ID x) "submit_recovered" else eret tt);
                    eret None
                end
            end
        end
    end.

(** Two intents are stored as two. *)
Definition runMarket (cx : Ctx) (c : ArbitrageCombination) (legA legB : MarketLeg D) : E D (option GoError) :=
  do* x <- execution;
  do* sized <- marketQuantities c x legA legB;
  match sized with
  | Err e => eret (Some e)
  | Ok (qtyA, qtyB) =>
      match marketIntent c x legA qtyA, marketIntent c x legB qtyB with
      | Err e, _ => eret (Some e)
      | _, Err e => eret (Some e)
      | Ok intentA, Ok intentB =>
          do* intents <- elift (CreateArbitrageIntents [intentA; intentB]);
          match intents with
          | Err e => eret (Some e)
          | Ok [a; b] =>
              do* watchA <- elift (watchOrder (hv_subscription (ml_venue legA)) (hv_adapter (ml_venue legA)) (fst a));
              do* watchB <- elift (watchOrder (hv_subscription (ml_venue legB)) (hv_adapter (ml_venue legB)) (fst b));
              do* (sentA, sentB) <- elift (submitBoth legA legB a b);
              settleMarket cx c legA legB watchA watchB sentA sentB
          | Ok _ => eret None
          end
      end
  end.

Definition executeSimultaneousMarket (cx : Ctx) (bboA bboB : BBO) : E D (option GoError) :=
  do* c <- theCombination;
  do* x <- execution;
  match arbitrageLegSides (x_Direction x) with
  | None => eret (Some (errDirection x "simultaneous_market"))
  | Some (aSide, bSide) =>
      do* dependencies <- elift (bothDependencies c);
      match dependencies with
      | Err e => eret (Some e)
      | Ok (dA, dB) =>
          do* refreshed <- refreshArbitragePositions c;
          match refreshed with
          | Err e => eret (Some e)
          | Ok c =>
              run* setTheCombination c;
              do* prefetched <- prefetchReduceSpotSnapshots [(c_LegA c, dA); (c_LegB c, dB)];
              match prefetched with
              | Err e => eret (Some e)
              | Ok _ =>
                  do* ordersA <- elift (subscribeOrders dA);
                  do* ordersB <- elift (subscribeOrders dB);
                  runMarket cx c (marketLeg (mkHedgeVenue (c_LegA c) dA ordersA) aSide bboA) (marketLeg (mkHedgeVenue (c_LegB c) dB ordersB) bSide bboB)
              end
          end
      end
  end.
End ExecMarket.

(** ** The final flatten of a one-shot *)

(** One leg of the flatten: its name, venue and order. *)
Record FlattenJob := mkFlattenJob { fj_leg : string; fj_venue : HedgeVenue; fj_order : Order }.
#[export] Instance eta_FlattenJob : Eta FlattenJob := fun j => mkFlattenJob (fj_leg j) (fj_venue j) (fj_order j).

(** The flags of the run: something is uncertain, something cannot be
    executed, the first error. *)
Record FlattenFlags := mkFlattenFlags { fg_uncertain : bool; fg_unexecutable : bool; fg_firstErr : option GoError }.
Definition firstOf (a b : option GoError) : option GoError := match a with Some _ => a | None => b end.

Section ExecFlatten.
Context {D : Type} `{!Decimal D} `{!Postgres D} `{!Env D} `{svc : !Services} `{str : !OrderStreams} `{uu : !Uuids}
  `{ecfg : !ExecutorConfig} `{esur : !ExecutorSurroundings}.
Local Open Scope dec_scope.

(** [byLeg]: the last order of each leg. *)
Definition flattenByLeg (legName : string) (orders : list Order) : option Order :=
  last (base.filter (fun o => legOf o = legName) orders).

Definition flattenIntents (c : ArbitrageCombination) (x : ArbitrageExecution) (iA iB : Instrument) (existing : list Order) : list Order :=
  omap (fun leg =>
    let i := if fl_LegName leg =?s "b" then iB else iA in
    if isSome (flattenByLeg (fl_LegName leg) existing) then None
    else match closeFlattenPlaceRequest i (signedFlattenBase (D := D) leg) with
         | None => None
         | Some _ => Some (oneShotFinalFlattenOrderIntent c x leg i)
         end) (planOwnedFlattenLegs (D := D) c iA iB).

(** Sending a leg. *)
Definition submitFlatten (c : ArbitrageCombination) (x : ArbitrageExecution) (job : FlattenJob) (flags : FlattenFlags) : M D (FlattenJob * FlattenFlags) :=
  let order := fj_order job in
  let venue := fj_venue job in
  if terminalStatus (o_Status order) then ret (job, flags)
  else
    do sent <- (if (o_Status order =?s "pending") && (o_VenueOrderID order =?s "")
                then submit (hv_adapter venue) (hv_credentials venue) (hv_instrument venue) order
                else recover (hv_adapter venue) (hv_credentials venue) (hv_instrument venue) order);
    let '(order, err) := sent in
    run AppendArbitrageEvent (c_ID c) (x_ID x) oneShotFinalFlattenLegSubmittedEvent;
    ret (job <| fj_order := order |>,
         mkFlattenFlags (fg_uncertain flags || isError err ErrVenueUncertain)
           (fg_unexecutable flags || (isSome err && oneShotFinalFlattenUnexecutable err)) (firstOf (fg_firstErr flags) err)).

(** Waiting for its end. *)
Definition observeFlatten (cx : Ctx) (c : ArbitrageCombination) (x : ArbitrageExecution) (job : FlattenJob) (flags : FlattenFlags)
    : M D (FlattenJob * FlattenFlags) :=
  let venue := fj_venue job in
  do watch <- watchOrder (hv_subscription venue) (hv_adapter venue) (fj_order job);
  do observed <- observeToTerminal cx (hv_dependencies venue) (fj_order job) (mkObservation (hv_subscription venue) watch);
  let '(order, err) := observed in
  run AppendArbitrageEvent (c_ID c) (x_ID x) oneShotFinalFlattenLegTerminalEvent;
  let failed := isSome err || negb (terminalStatus (o_Status order)) in
  ret (job <| fj_order := order |>,
       mkFlattenFlags (fg_uncertain flags || failed)
         (fg_unexecutable flags || oneShotFinalFlattenUnexecutable err || oneShotFinalFlattenUnexecutable (Some (errPlain (o_ErrorMessage order))))
         (if failed then firstOf (fg_firstErr flags) (firstOf err (Some errVenueUncertain)) else fg_firstErr flags)).

Fixpoint eachJob (f : FlattenJob -> FlattenFlags -> M D (FlattenJob * FlattenFlags)) (jobs : list FlattenJob) (flags : FlattenFlags)
    : M D (list FlattenJob * FlattenFlags) :=
  match jobs with
  | [] => ret ([], flags)
  | job :: rest =>
      do (job, flags) <- f job flags;
      do (rest, flags) <- eachJob f rest flags;
      ret (job :: rest, flags)
  end.

(** The position is uncertain until the orders are reconciled. *)
Definition parkFlatten (c : ArbitrageCombination) (message : string) : E D (option GoError) :=
  run* saveStatus "reconciling";
  run* elift (UpdateArbitrageCombinationRuntime (c <| c_PositionUncertain := true |> <| c_RuntimeState := "position_uncertain"%string |>
                <| c_ErrorMessage := message |>));
  eret (Some errReconciling).

Definition finishOneShotFinalFlatten (c : ArbitrageCombination) (iA iB : Instrument) (unexecutable : bool) : E D (option GoError) :=
  do* x <- execution;
  do* result <- elift (FinalizeOneShotFinalFlattenExecution (x_ID x));
  match result with
  | Err e => if errorsIs e ErrArbitrageReconciling then parkFlatten c (sanitizeError e) else eret (Some e)
  | Ok (c, x, _) =>
      run* setExecution x;
      do* orders <- elift (ListArbitrageOrders (c_OwnerUsername c) (c_ID c));
      match orders with
      | Err e => eret (Some e)
      | Ok orders =>
          if combinationLooksFlat (D := D) c && oneShotFinalFlattenReconcileReady (D := D) c orders (x_ID x) iA iB then
            do* marked <- elift (MarkOneShotExited (c_ID c) (c_Version c));
            match marked with
            | Err e => eret (Some e)
            | Ok (_, false) => eret None
            | Ok (updated, true) => run* appendExecutionEvent (c_ID updated) (x_ID x) oneShotFinalFlattenCompletedEvent; eret None
            end
          else if oneShotFinalFlattenShouldDust (D := D) c iA iB orders (x_ID x) unexecutable then
            run* appendExecutionEvent (c_ID c) (x_ID x) oneShotFinalFlattenUnexecutableEvent;
            do* marked <- elift (MarkOneShotExitedWithDust (c_ID c) (c_Version c) (c_LegABasePosition c) (c_LegBBasePosition c) (c_CarryBaseQuantity c));
            eret (match marked with Err e => Some e | Ok _ => None end)
          else run* appendExecutionEvent (c_ID c) (x_ID x) oneShotFinalFlattenRetryEvent; eret None
      end
  end.

(** The orders of the legs, written into the execution before they are sent. *)
Definition openFlatten (orders : list Order) : E D (option GoError) :=
  do* x <- execution;
  let x := match flattenByLeg "a" orders with Some o => x <| x_MakerOrderID := o_ID o |> | None => x end in
  let x := match flattenByLeg "b" orders with Some o => x <| x_HedgeOrderID := o_ID o |> | None => x end in
  let x := x <| x_Status := "hedging"%string |> <| x_ErrorMessage := ""%string |> in
  run* setExecution x;
  do* written <- elift (UpdateArbitrageExecution x);
  eret (match written with Err e => Some e | Ok _ => None end).

Definition runFlatten (cx : Ctx) (c : ArbitrageCombination) (dA dB : Dependencies) (orders : list Order) : E D (option GoError) :=
  do* r <- elift (UpdateArbitrageCombinationRuntime (c <| c_RuntimeState := "hedging"%string |> <| c_ErrorMessage := ""%string |>));
  let c := match r with Ok updated => updated | Err _ => c <| c_RuntimeState := "hedging"%string |> <| c_ErrorMessage := ""%string |> end in
  do* ordersA <- elift (subscribeOrders dA);
  do* ordersB <- elift (subscribeOrders dB);
  let job name leg d subscription :=
    match flattenByLeg name orders with Some order => [mkFlattenJob name (mkHedgeVenue leg d subscription) order] | None => [] end in
  let jobs := job "a"%string (c_LegA c) dA ordersA ++ job "b"%string (c_LegB c) dB ordersB in
  do* x <- execution;
  do* (jobs, flags) <- elift (eachJob (submitFlatten c x) jobs (mkFlattenFlags false false None));
  do* (_, flags) <- elift (eachJob (observeFlatten cx c x) jobs flags);
  if fg_uncertain flags then parkFlatten c (match fg_firstErr flags with Some e => sanitizeError e | None => ""%string end)
  else finishOneShotFinalFlatten c (dp_instrument dA) (dp_instrument dB) (fg_unexecutable flags).

Definition executeOneShotFinalFlatten (cx : Ctx) (c : ArbitrageCombination) : E D (option GoError) :=
  do* dependencies <- elift (bothDependencies c);
  match dependencies with
  | Err e => eret (Some e)
  | Ok (dA, dB) =>
      do* refreshed <- refreshArbitragePositions c;
      match refreshed with
      | Err e => eret (Some e)
      | Ok c =>
          do* x <- execution;
          run* appendExecutionEvent (c_ID c) (x_ID x) oneShotFinalFlattenStarted;
          do* listed <- elift (ListArbitrageOrders (c_OwnerUsername c) (c_ID c));
          match listed with
          | Err e => eret (Some e)
          | Ok listed =>
              let existing := base.filter (fun o => hasFlattenKey o = true) (executionOrdersFor listed (x_ID x)) in
              let toCreate := flattenIntents c x (dp_instrument dA) (dp_instrument dB) existing in
              do* created <- (match toCreate with [] => eret (Ok []) | _ => elift (CreateArbitrageIntents toCreate) end);
              match created with
              | Err e => eret (Some e)
              | Ok created =>
                  match existing ++ map fst created with
                  | [] => finishOneShotFinalFlatten c (dp_instrument dA) (dp_instrument dB) false
                  | orders =>
                      do* unopened <- openFlatten orders;
                      match unopened with
                      | Some e => eret (Some e)
                      | None => runFlatten cx c dA dB orders
                      end
                  end
              end
          end
      end
  end.
End ExecFlatten.

(** ** The flatten of what a last close left *)

Section ExecResidual.
Context {D : Type} `{!Decimal D} `{!Postgres D} `{!Env D} `{svc : !Services} `{str : !OrderStreams} `{uu : !Uuids}
  `{ecfg : !ExecutorConfig} `{esur : !ExecutorSurroundings}.
Local Open Scope dec_scope.

Definition maybeCloseLastCloseResidualDust (c : ArbitrageCombination) (executionID : string) (orders : list Order) (iA iB : Instrument) (bboA bboB : BBO)
    : M D (option GoError) :=
  match lastCloseResidualDustDecision (D := D) c orders executionID iA iB bboA bboB with
  | None => ret None
  | Some d =>
      do r <- CloseLastCloseResidualWithDust (mkDustClose (c_ID c) executionID (c_Version c) (dd_LastOrderUpdatedAt d)
                (dd_LegANotional d) (dd_LegBNotional d) (dd_LegAReducible d) (dd_LegBReducible d));
      ret (match r with Err e => Some e | Ok _ => None end)
  end.

(** The orders one after the other, until one does not end: [Some] an error,
    [None] with whether all of them ended. *)
Fixpoint progressOrders (cx : Ctx) (c : ArbitrageCombination) (iA iB : Instrument) (orders : list Order) : M D (Result bool) :=
  match orders with
  | [] => ret (Ok true)
  | order :: rest =>
      if terminalStatus (o_Status order) then progressOrders cx c iA iB rest
      else
        let onB := EqualFold (o_ArbitrageLeg order) "b" in
        let i := if onB then iB else iA in
        do dependencies <- executionDependencies (c_OwnerUsername c) (if onB then c_LegB c else c_LegA c);
        match dependencies with
        | Err e => ret (Err e)
        | Ok d =>
            do sent <- (if (o_Status order =?s "pending") && (TrimSpace (o_VenueOrderID order) =?s "")
                        then submit (dp_adapter d) (dp_credentials d) i order
                        else recover (dp_adapter d) (dp_credentials d) i order);
            let '(order, err) := sent in
            if isSome err && negb (terminalStatus (o_Status order)) then ret (Ok false)
            else
              do observed <- observeToTerminal cx (mkDependencies i (dp_credentials d) (dp_adapter d)) order noObservation;
              let '(observed, observeErr) := observed in
              if isSome observeErr || negb (terminalStatus (o_Status observed)) then ret (Ok false)
              else progressOrders cx c iA iB rest
        end
  end.

(** [progressLastCloseResidualFlattenOrders] with the execution it leaves. *)
Definition progressLastCloseResidualFlattenOrders (cx : Ctx) (c : ArbitrageCombination) (x : ArbitrageExecution) (orders : list Order) (iA iB : Instrument)
    : M D (Result ArbitrageExecution) :=
  do progressed <- progressOrders cx c iA iB orders;
  match progressed with
  | Err e => ret (Err e)
  | Ok false => ret (Ok x)
  | Ok true =>
      if x_Status x =?s "pending" then
        let x := x <| x_Status := "hedging"%string |> in
        run UpdateArbitrageExecution x; ret (Ok x)
      else ret (Ok x)
  end.

(** [combination] read again, when that works. *)
Definition reloaded (c : ArbitrageCombination) : M D ArbitrageCombination :=
  do latest <- GetArbitrageCombinationByOwner (c_OwnerUsername c) (c_ID c);
  ret (match latest with Ok latest => latest | Err _ => c end).

(** The orders of the flatten were claimed: they are sent, and dust is closed
    once they have ended. *)
Definition residualOrders (cx : Ctx) (c : ArbitrageCombination) (x : ArbitrageExecution) (orders : list Order) (iA iB : Instrument) (bboA bboB : BBO)
    : M D (option GoError) :=
  if negb (lastCloseResidualFlattenExecution (c_ID c) x) then ret None
  else
    do progressed <- progressLastCloseResidualFlattenOrders cx c x (lastCloseResidualFlattenOrdersFor orders (x_ID x)) iA iB;
    match progressed with
    | Err e => ret (Some e)
    | Ok x =>
        do orders <- ListArbitrageOrders (c_OwnerUsername c) (c_ID c);
        match orders with
        | Err e => ret (Some e)
        | Ok orders =>
            let related := lastCloseResidualFlattenOrdersFor orders (x_ID x) in
            if match related with [] => false | _ => true end && negb (lastCloseClipOrdersAllTerminal related) then ret None
            else
              do x <- (if terminalArbitrageExecutionStatus (x_Status x) then ret x
                       else
                         let x := x <| x_Status := "completed"%string |> <| x_ErrorMessage := ""%string |> in
                         do written <- UpdateArbitrageExecution x;
                         ret (match written with Ok updated => updated | Err _ => x end));
              do c <- reloaded c;
              maybeCloseLastCloseResidualDust c (x_ID x) orders iA iB bboA bboB
        end
    end.

(** A flatten that was not claimed before. *)
Definition claimResidual (cx : Ctx) (c : ArbitrageCombination) (orders : list Order) (iA iB : Instrument) (bboA bboB : BBO) : M D (option GoError) :=
  do now <- timeNow;
  if negb (lastCloseResidualTinyEligible (D := D) c iA iB bboA bboB now) then ret None
  else if negb (residualFlattenDirectionAgrees (D := D) c) then ret None
  else
    do executions <- ListArbitrageExecutions (c_ID c) 100;
    match executions with
    | Err e => ret (Some e)
    | Ok executions =>
        if residualFlattenBlockedByOtherWork (c_ID c) orders executions then ret None
        else match lastCloseResidualFlattenOrders (D := D) c iA iB with
        | [] => maybeCloseLastCloseResidualDust c "" orders iA iB bboA bboB
        | planned =>
            do claimed <- ClaimLastCloseResidualFlattenExecution (mkResidualClaim (c_Version c) c planned);
            match claimed with
            | Err e => ret (Some e)
            | Ok (claimed, won) =>
                if x_ID claimed =?s "" then ret None
                else
                  do c <- reloaded c;
                  do orders <- ListArbitrageOrders (c_OwnerUsername c) (c_ID c);
                  match orders with
                  | Err e => ret (Some e)
                  | Ok orders => residualOrders cx c claimed orders iA iB bboA bboB
                  end
            end
        end
    end.

Definition runLastCloseResidualFlatten (cx : Ctx) (c : ArbitrageCombination) (bboA bboB : BBO) : M D (option GoError) :=
  if negb (EqualFold (TrimSpace (c_Status c)) "closing") || c_PositionUncertain c || c_CircuitOpen c ||
     (c_RuntimeState c =?s "manual_intervention") || combinationLooksFlat (D := D) c then ret None
  else
    do iA <- callCatalog (l_InstrumentID (c_LegA c));
    match iA with
    | Err e => ret (Some e)
    | Ok iA =>
        do iB <- callCatalog (l_InstrumentID (c_LegB c));
        match iB with
        | Err e => ret (Some e)
        | Ok iB =>
            do found <- GetLastCloseResidualFlattenExecution (c_ID c);
            match found with
            | Err e => ret (Some e)
            | Ok found =>
                do orders <- ListArbitrageOrders (c_OwnerUsername c) (c_ID c);
                match orders with
                | Err e => ret (Some e)
                | Ok orders =>
                    match found with
                    | Some x => residualOrders cx c x orders iA iB bboA bboB
                    | None => claimResidual cx c orders iA iB bboA bboB
                    end
                end
            end
        end
    end.

Definition executorResidualFlatten (cx : Ctx) (c : ArbitrageCombination) (bboA bboB : BBO) : M D (option GoError) :=
  do c <- reloaded c;
  runLastCloseResidualFlatten cx c bboA bboB.
End ExecResidual.

(** ** Execute *)

Section Execute.
Context {D : Type} `{!Decimal D} `{!Postgres D} `{!Env D} `{svc : !Services} `{str : !OrderStreams} `{uu : !Uuids}
  `{ecfg : !ExecutorConfig} `{esur : !ExecutorSurroundings}.
Local Open Scope dec_scope.

Definition clearUnchangedArbitrageFailure (c : ArbitrageCombination) : E D unit :=
  if c_ErrorMessage c =?s "" then eret tt
  else run* elift (ClearArbitrageFailureIfUnchanged (c_ID c) (c_ErrorMessage c)); eret tt.

(** What an execution does, by its kind. *)
Definition dispatchExecution (cx : Ctx) (c : ArbitrageCombination) (bboA bboB : BBO) : E D (option GoError) :=
  do* x <- execution;
  do* orders <- elift (ListArbitrageOrders (c_OwnerUsername c) (c_ID c));
  match orders with
  | Err e => eret (Some e)
  | Ok orders =>
      if lastCloseResidualFlattenExecution (c_ID c) x then elift (runLastCloseResidualFlatten cx c bboA bboB)
      else if isOneShotFinalFlattenExecution (D := D) c x orders bboA bboB then executeOneShotFinalFlatten cx c
      else if c_ExecutionMode c =?s "maker_then_hedge" then executeMakerThenHedge cx bboA bboB
      else if c_ExecutionMode c =?s "simultaneous_market" then executeSimultaneousMarket cx bboA bboB
      else eret (Some (invalidArgument ["unsupported arbitrage execution mode "; quoted (c_ExecutionMode c)]%string))
  end.

(** The execution has exposure: it stays active, and the failure is counted. *)
Definition keepExposed (c : ArbitrageCombination) (x : ArbitrageExecution) (e : GoError) (closingClose : bool) : E D unit :=
  let active := existsb (String.eqb (x_Status x)) ["hedging"; "maker_open"; "reconciling"]%string in
  let x := if active then x else x <| x_Status := if x_HedgeOrderID x =?s "" then "reconciling"%string else "hedging"%string |> in
  run* setExecution x;
  run* saveExecution;
  if errorsIs e ErrArbitrageUnsafeHedge then
    run* elift (UpdateArbitrageCombinationRuntime (c <| c_PositionUncertain := true |> <| c_RuntimeState := "position_uncertain"%string |>
                  <| c_ErrorMessage := x_ErrorMessage x |>));
    eret tt
  else if closingClose then run* elift (RecordArbitrageCloseFailure (c_ID c) "close_recovery" (x_ErrorMessage x)); eret tt
  else run* elift (RecordArbitrageFailure (c_ID c) (x_ErrorMessage x)); eret tt.

(** What becomes of an execution that failed. *)
Definition failExecution (c : ArbitrageCombination) (e : GoError) : E D unit :=
  if errorsIs e ErrArbitrageReconciling || errorsIs e errLastClipDustHandoff then eret tt
  else
    do* x <- execution;
    let x := x <| x_ErrorMessage := sanitizeError e |> in
    run* setExecution x;
    run* (if errorsIs e ErrVenueRejected then appendExecutionEvent (c_ID c) (x_ID x) "venue_rejected" else eret tt);
    let exposed := executionHasExposure (D := D) x in
    let closingClose := closingArbitrageExecution c x in
    if errorsIs e Canceled && negb exposed then run* saveStatus "canceled"; clearUnchangedArbitrageFailure c
    else if negb exposed && negb closingClose && (errorsIs e ErrRiskLimit || errorsIs e ErrOrderBelowMinimum) then
      run* setExecution (x <| x_ErrorMessage := ""%string |>);
      run* saveStatus "canceled";
      clearUnchangedArbitrageFailure c
    else if exposed then keepExposed c x e closingClose
    else
      run* saveStatus "failed";
      if closingClose then
        run* elift (RecordArbitrageCloseFailure (c_ID c) (if arbitrageDeterministicCloseReject e then "close_rejected" else "close_failed")%string
                      (x_ErrorMessage x));
        eret tt
      else run* elift (RecordArbitrageFailure (c_ID c) (x_ErrorMessage x)); eret tt.

(** [Execute] runs on the combination it was given, with a permit it holds. *)
Definition runExecution (cx : Ctx) (c : ArbitrageCombination) (bboA bboB : BBO) : E D unit :=
  do* err <- dispatchExecution cx c bboA bboB;
  match err with
  | Some e => failExecution c e
  | None => eret tt
  end.
Definition Execute (cx : Ctx) (c : ArbitrageCombination) (x : ArbitrageExecution) (bboA bboB : BBO) : M D unit :=
  do _ <- runExecution cx c bboA bboB (mkExec x c (Some true) ∅);
  ret tt.
End Execute.

(** ** Closing a combination *)

(** [closeOrderResolution] *)
Record closeOrderResolution := mkCloseResolution { cl_order : Order; cl_confirmedAbsent : bool }.

Definition errCloseUncertain (doing : string) (o : Order) (what : list string) : GoError :=
  mkError [ErrCloseOrderUncertain] (Join ("close order state uncertain: "%string :: doing :: o_Exchange o :: " order "%string :: o_ID o :: what) "").
Definition errCloseOpen (o : Order) (what : list string) : GoError :=
  mkError [ErrCloseOrderOpen] (Join ("close order remains open: "%string :: o_Exchange o :: " order "%string :: o_ID o :: what) "").
Definition errNotClosable (what : string) : GoError :=
  mkError [ErrArbitrageNotClosable] (String.append "arbitrage combination is not closable: " what).
Definition errCloseWaitingSnapshot : GoError := mkError [ErrArbitrageCloseWaitingSnapshot] "arbitrage close waiting position snapshot".

Section ExecClose.
Context {D : Type} `{!Decimal D} `{!Postgres D} `{!Env D} `{svc : !Services} `{str : !OrderStreams} `{uu : !Uuids}
  `{ecfg : !ExecutorConfig} `{esur : !ExecutorSurroundings}.
Local Open Scope dec_scope.

(** [resolver.ResolveOrder], when the adapter has it. *)
Definition callResolver (d : Dependencies) (order : Order) : M D (option (OrderResolution * option GoError)) :=
  do n <- tick;
  ret (match @ResolveOrder _ (adapterQuery n (dp_adapter d)) with
       | None => None
       | Some resolver => Some (resolver (dp_credentials d, mkQueryRequest (toVenueInstrument (dp_instrument d)) (o_ClientOrderID order)
                                            (o_VenueOrderID order) (o_CreatedAt order)))
       end).

Definition resolveMissingCloseOrder (d : Dependencies) (order : Order) : M D (closeOrderResolution * option GoError) :=
  let uncertain what := (mkCloseResolution order false, Some (errCloseUncertain "" order what)) in
  do answer <- callResolver d order;
  match answer with
  | None => ret (uncertain [" was not found"]%string)
  | Some (_, Some e) => ret (mkCloseResolution order false, Some (errCloseUncertain "resolve " order [": "; err_text e]%string))
  | Some (resolution, None) =>
      if or_Found resolution then
        do written <- persistResult (o_ID order) "arbitrage_close_resolve" (normalizeVenueResult (D := D) order (or_Result resolution));
        ret (match written with
             | (_, Some e) => (mkCloseResolution order false, Some e)
             | (updated, None) =>
                 (mkCloseResolution updated false,
                  if terminalStatus (o_Status updated) then None else Some (errCloseOpen order [" resolved as "; o_Status updated]%string))
             end)
      else if or_ConfirmedAbsent resolution
      then ret (mkCloseResolution order true, Some (errCloseUncertain "" order [" absent from history and active orders"]%string))
      else ret (uncertain [" could not be resolved"]%string)
  end.

(** An order of unknown status is queried first: [inl] the answer, [inr] the
    order to cancel. *)
Definition queryUnknown (d : Dependencies) (order : Order) : M D ((closeOrderResolution * option GoError) + Order) :=
  if negb (o_Status order =?s "unknown") then ret (inr order)
  else
    do queried <- queryInternal d order;
    do found <- (match queried with
                 | (queried, None) => ret (inr queried)
                 | (_, Some e) =>
                     if errorsIs e ErrOrderNotFound then
                       do resolved <- resolveMissingCloseOrder d order;
                       let '(resolution, resolveErr) := resolved in
                       let status := o_Status (cl_order resolution) in
                       ret (if isError resolveErr ErrCloseOrderOpen && cancelableStatus status && negb (status =?s "unknown")
                            then inr (cl_order resolution) else inl (resolution, resolveErr))
                     else ret (inl (mkCloseResolution order false, Some (errCloseUncertain "query " order [": "; err_text e]%string)))
                 end);
    ret (match found with
         | inl answer => inl answer
         | inr order =>
             if terminalStatus (o_Status order) then inl (mkCloseResolution order false, None)
             else if o_Status order =?s "unknown" then inl (mkCloseResolution order false, Some (errCloseUncertain "" order [" remains unknown"]%string))
             else inr order
         end).

(** The order was canceled, or the cancellation refused. *)
Definition confirmClosed (d : Dependencies) (order canceled : Order) (err : option GoError) : M D (closeOrderResolution * option GoError) :=
  if terminalStatus (o_Status canceled) then ret (mkCloseResolution canceled false, None)
  else if isError err ErrOrderNotFound then
    do resolved <- resolveMissingCloseOrder d order;
    let '(resolution, resolveErr) := resolved in
    let status := o_Status (cl_order resolution) in
    ret (if negb (isSome resolveErr) || cl_confirmedAbsent resolution then (resolution, resolveErr)
         else if terminalStatus status then (resolution, None)
         else if cancelableStatus status && negb (status =?s "unknown")
         then (resolution, Some (errCloseOpen order [" remains "; status; " after cancel failed"]%string))
         else (resolution, resolveErr))
  else
    do queried <- queryInternal d canceled;
    match queried with
    | (_, Some e) =>
        if errorsIs e ErrOrderNotFound then resolveMissingCloseOrder d canceled
        else ret (mkCloseResolution canceled false, Some (errCloseUncertain "confirm canceled " order [": "; err_text e]%string))
    | (queried, None) =>
        let status := o_Status queried in
        ret (mkCloseResolution queried false,
             if terminalStatus status then None
             else if cancelableStatus status && negb (status =?s "unknown") then Some (errCloseOpen order [" remains "; status]%string)
             else Some (errCloseUncertain "" order [" remains "; status]%string))
    end.

Definition closeArbitrageOrder (d : Dependencies) (order : Order) : M D (closeOrderResolution * option GoError) :=
  if terminalStatus (o_Status order) then ret (mkCloseResolution order false, None)
  else
    do queried <- queryUnknown d order;
    match queried with
    | inl answer => ret answer
    | inr order =>
        if negb (cancelableStatus (o_Status order)) then ret (mkCloseResolution order false, Some (errCloseUncertain "" order [" has status "; o_Status order]%string))
        else
          do canceled <- cancelInternal d order;
          confirmClosed d order (fst canceled) (snd canceled)
    end.

(** The live orders, one after the other: [inl] an error, [inr] those whose
    end is unknown and whether all of those are confirmed absent. *)
Fixpoint closeOrders (dA dB : Dependencies) (orders unresolved : list Order) (allAbsent : bool) : M D (GoError + list Order * bool) :=
  match orders with
  | [] => ret (inr (unresolved, allAbsent))
  | order :: rest =>
      do resolved <- closeArbitrageOrder (if o_ArbitrageLeg order =?s "b" then dB else dA) order;
      let '(resolution, err) := resolved in
      match err with
      | None => closeOrders dA dB rest unresolved allAbsent
      | Some e =>
          if errorsIs e ErrCloseOrderOpen then ret (inl e)
          else if errorsIs e ErrCloseOrderUncertain
          then closeOrders dA dB rest (unresolved ++ [cl_order resolution]) (allAbsent && cl_confirmedAbsent resolution)
          else ret (inl e)
      end
  end.

Definition unresolvedMessage (o : Order) : string :=
  Join [o_Exchange o; " order "; closeOrderReference o; " final order state could not be reconstructed during close"]%string "".

(** The orders whose end is unknown are written off. *)
Fixpoint writeOff (orders : list Order) : M D (Result unit) :=
  match orders with
  | [] => ret (Ok tt)
  | o :: rest =>
      do written <- UpdateResult (o_ID o) (zero_VenueResult <| r_VenueOrderID := o_VenueOrderID o |> <| r_Status := "canceled"%string |>
        <| r_FilledQuantity := o_FilledQuantity o |> <| r_AveragePrice := o_AveragePrice o |>
        <| r_ErrorCode := "close_state_unresolved"%string |> <| r_ErrorMessage := unresolvedMessage o |>);
      match written with
      | Err e => ret (Err e)
      | Ok _ => writeOff rest
      end
  end.

Fixpoint finalizeExecutions (executions : list ArbitrageExecution) : M D (Result unit) :=
  match executions with
  | [] => ret (Ok tt)
  | x :: rest =>
      if terminalArbitrageExecutionStatus (x_Status x) then finalizeExecutions rest
      else
        do written <- UpdateArbitrageExecution (x <| x_Status := "completed"%string |> <| x_ErrorMessage := ""%string |>);
        match written with
        | Err e => ret (Err e)
        | Ok _ => finalizeExecutions rest
        end
  end.

(** The decision about what is left: no error when it is flat, or a tiny
    position that may be abandoned. *)
Definition closeFlattenOwnedDecision (c : ArbitrageCombination) : M D (Result (D * D)) :=
  if combinationLooksFlat (D := D) c then ret (Ok (dZero, dZero))
  else
    do iA <- callCatalog (l_InstrumentID (c_LegA c));
    do iB <- callCatalog (l_InstrumentID (c_LegB c));
    match iA, iB with
    | Ok iA, Ok iB =>
        do orders <- ListArbitrageOrders (c_OwnerUsername c) (c_ID c);
        match orders with
        | Err e => ret (Err e)
        | Ok orders =>
            do now <- timeNow;
            do bboA <- latestForLeg (c_LegA c);
            do bboB <- latestForLeg (c_LegB c);
            let quote r := match r with Ok bbo => bbo | Err _ => zero_BBO end in
            let tinyIn := mkTinyOwned c iA iB (quote bboA) (quote bboB) now (latestOrderUpdatedAt orders) true ec_signalBBOStale in
            ret (if closeFlattenTinyOwnedWaitingSnapshot (D := D) now tinyIn then Err errCloseWaitingSnapshot
                 else if negb (closeFlattenTinyOwnedPositions (D := D) now tinyIn)
                 then Err (errNotClosable "combination-owned leftover is not a tiny close flatten")
                 else Ok (closeFlattenOwnedPlaceBase c iA "a", closeFlattenOwnedPlaceBase c iB "b"))
        end
    | _, _ => ret (Err (errNotClosable "close flatten instruments are unavailable"))
    end.

(** The row that ends the combination when there are no metrics to compute. *)
Definition closedItem (c : ArbitrageCombination) : ArbitrageCombination :=
  let c := c <| c_Status := "closed"%string |> <| c_MarketDataStale := true |> in
  let c := if c_PositionUncertain c then c <| c_RuntimeState := "position_uncertain"%string |>
           else c <| c_RuntimeState := "monitoring"%string |> <| c_ErrorMessage := ""%string |> in
  if c_ErrorMessage c =?s "closing drain left non-zero base carry" then c <| c_ErrorMessage := ""%string |> else c.

Definition markClosed (c : ArbitrageCombination) : M D (option GoError) :=
  if ec_finalMetrics && negb (c_PositionUncertain c) then
    do marked <- MarkArbitrageClosedAndScheduleFinalMetrics (c_ID c) (c_Version c);
    match marked with
    | Err e => ret (Some e)
    | Ok (_, false) => ret (Some errArbitrageConflict)
    | Ok (closed, true) => run AppendArbitrageEvent (c_ID closed) "" "closed"; ret None
    end
  else
    do r <- UpdateArbitrageCombinationRuntime (closedItem c);
    match r with
    | Err e => ret (Some e)
    | Ok _ => run AppendArbitrageEvent (c_ID c) "" "closed"; ret None
    end.

Definition uncertainItem (unresolved : list Order) (c : ArbitrageCombination) : ArbitrageCombination :=
  match unresolved with
  | [] => c
  | o :: _ => c <| c_PositionUncertain := true |> <| c_RuntimeState := "position_uncertain"%string |> <| c_ErrorMessage := unresolvedMessage o |>
  end.

(** The executions are finalised, the books recomputed, and the combination
    closed when it is flat. *)
Definition finishClose (c : ArbitrageCombination) (unresolved : list Order) : M D (option GoError) :=
  do executions <- ListArbitrageExecutions (c_ID c) 100;
  match executions with
  | Err e => ret (Some e)
  | Ok executions =>
      do finalized <- finalizeExecutions executions;
      match finalized with
      | Err e => ret (Some e)
      | Ok _ =>
          do refreshed <- RecomputeArbitrageBasePositions (c_ID c);
          match refreshed with
          | Err e => ret (Some e)
          | Ok refreshed =>
              let c := uncertainItem unresolved refreshed in
              do decision <- closeFlattenOwnedDecision c;
              match decision with
              | Err e => ret (Some e)
              | Ok _ => if negb (combinationLooksFlat (D := D) c) then ret None else markClosed c
              end
          end
      end
  end.

(** [CloseCombination].  The runs of the combination are canceled and waited
    for first; that fails when they do not end in time. *)
Definition CloseCombination (c : ArbitrageCombination) : M D (option GoError) :=
  do n <- tick;
  match runsDrain n with
  | Some e => ret (Some e)
  | None =>
      do c <- reloaded c;
      do orders <- ListArbitrageOrders (c_OwnerUsername c) (c_ID c);
      match orders with
      | Err e => ret (Some e)
      | Ok orders =>
          let live := base.filter (fun o => terminalStatus (o_Status o) = false) orders in
          do closed <- (match live with
                        | [] => ret (inr ([], true))
                        | _ =>
                            do dependencies <- bothDependencies c;
                            match dependencies with
                            | Err e => ret (inl e)
                            | Ok (dA, dB) => closeOrders dA dB live [] true
                            end
                        end);
          match closed with
          | inl e => ret (Some e)
          | inr ([], _) => finishClose c []
          | inr (unresolved, allAbsent) =>
              if negb allAbsent && (closeUncertainAttempts c <? 10)%Z
              then ret (Some (mkError [ErrCloseOrderUncertain]
                     (Join ["close order state uncertain: "; itoa (D := D) (Z.of_nat (length unresolved)); " order(s) could not be confirmed"]%string "")))
              else
                do written <- writeOff unresolved;
                match written with
                | Err e => ret (Some e)
                | Ok _ => finishClose c unresolved
                end
          end
      end
  end.
End ExecClose.

(** ** Recovering without market data *)

Section ExecRecover.
Context {D : Type} `{!Decimal D} `{!Postgres D} `{!Env D} `{svc : !Services} `{str : !OrderStreams} `{uu : !Uuids}
  `{ecfg : !ExecutorConfig} `{esur : !ExecutorSurroundings}.
Local Open Scope dec_scope.

(** The execution is being reconciled already. *)
Definition alreadyConfirming (c : ArbitrageCombination) (x : ArbitrageExecution) : bool :=
  existsb (String.eqb (x_Status x)) ["maker_canceling"; "reconciling"]%string ||
  existsb (String.eqb (c_RuntimeState c)) ["maker_canceling"; "reconciling"]%string.

(** A live maker order is canceled, and queried when that is not clear. *)
Definition recoverMakerOrder (d : Dependencies) (order : Order) : M D Order :=
  do canceled <- cancelInternal d order;
  let '(order, err) := canceled in
  if negb (terminalStatus (o_Status order)) && (negb (isSome err) || cancelUnconfirmed err) then
    do queried <- queryInternal d order;
    ret (match queried with (queried, None) => queried | (_, Some _) => order end)
  else ret order.

(** One order of the execution: an error, or whether it is confirmed absent. *)
Definition recoverOrder (cx : Ctx) (c : ArbitrageCombination) (x : ArbitrageExecution) (dA dB : Dependencies) (orderID : string) : M D (Result bool) :=
  if orderID =?s "" then ret (Ok false)
  else
    do order <- GetByOwner (c_OwnerUsername c) orderID;
    match order with
    | Err e => ret (Err e)
    | Ok order =>
        let d := if o_ArbitrageLeg order =?s "b" then dB else dA in
        let isMaker o := o_ArbitrageRole o =?s "maker" in
        if confirmedAbsentReliableZeroFill (D := D) order then ret (Ok true)
        else if isMaker order && negb (terminalStatus (o_Status order)) && alreadyConfirming c x then ret (Ok false)
        else
          do order <- (if isMaker order && negb (terminalStatus (o_Status order)) then recoverMakerOrder d order else ret order);
          if isMaker order && negb (terminalStatus (o_Status order)) then ret (Ok false)
          else
            do settled <- (if isMaker order then ret (Ok order)
                           else
                             do settled <- settleCanceledOrder cx d order noObservation;
                             ret (match settled with
                                  | (_, Some e) => Err e
                                  | (order, None) => if terminalStatus (o_Status order) then Ok order else Err errVenueUncertain
                                  end));
            ret (match settled with
                 | Err e => Err e
                 | Ok order => Ok (terminalStatus (o_Status order) && confirmedAbsentReliableZeroFill (D := D) order)
                 end)
    end.

(** A zero fill that was confirmed absent ends the execution: [Some] the
    result of the recovery. *)
Definition finalizeAbsent (c : ArbitrageCombination) (x : ArbitrageExecution) : M D (option (option GoError)) :=
  do result <- sql (finalizeTransaction (x_ID x));
  match result with
  | Err e => ret (Some (Some e))
  | Ok confirmedAbsentFinalizeSkipped =>
      do active <- GetActiveArbitrageExecution (c_ID c);
      ret (match active with Err e => if errorsIs e ErrNotFound then Some None else None | Ok _ => None end)
  | Ok _ => ret (Some None)
  end.

(** The execution is left to the reconciler. *)
Definition leaveReconciling (c : ArbitrageCombination) : E D (option GoError) :=
  do* refreshed <- refreshArbitragePositions c;
  match refreshed with
  | Err e => eret (Some e)
  | Ok refreshed => parkLastCloseClipReconciling refreshed
  end.

Definition recoverOrders (cx : Ctx) (c : ArbitrageCombination) : E D (option GoError) :=
  do* dependencies <- elift (bothDependencies c);
  match dependencies with
  | Err e => eret (Some e)
  | Ok (dA, dB) =>
      do* x <- execution;
      do* maker <- elift (recoverOrder cx c x dA dB (x_MakerOrderID x));
      match maker with
      | Err e => eret (Some e)
      | Ok makerAbsent =>
          do* hedge <- elift (recoverOrder cx c x dA dB (x_HedgeOrderID x));
          match hedge with
          | Err e => eret (Some e)
          | Ok hedgeAbsent =>
              do* ended <- (if makerAbsent || hedgeAbsent then elift (finalizeAbsent c x) else eret None);
              match ended with
              | Some result => eret result
              | None => leaveReconciling c
              end
          end
      end
  end.

Definition recoverRun (cx : Ctx) (c : ArbitrageCombination) : E D (option GoError) :=
  do* x <- execution;
  if lastCloseResidualFlattenExecution (c_ID c) x then elift (runLastCloseResidualFlatten cx c zero_BBO zero_BBO)
  else
    do* orders <- elift (ListArbitrageOrders (c_OwnerUsername c) (c_ID c));
    if match orders with Ok orders => isOneShotFinalFlattenExecution (D := D) c x orders zero_BBO zero_BBO | Err _ => false end
    then executeOneShotFinalFlatten cx c
    else
      do* (handled, recoverErr) <- recoverLastCloseClipClosing cx c;
      if handled then eret recoverErr
      else
        do* x <- execution;
        do* handoff <- maybeHandoffLastClipHedgeMinNotional c (errPlain (x_ErrorMessage x));
        match handoff with
        | Some h => eret (if errorsIs h errLastClipDustHandoff then None else Some h)
        | None => recoverOrders cx c
        end.

Definition executorRecover (cx : Ctx) (c : ArbitrageCombination) (x : ArbitrageExecution) : M D (option GoError) :=
  do (err, _) <- recoverRun cx c (mkExec x c None ∅);
  ret err.
End ExecRecover.

(** ** An execution with exposure is not given up *)

Section Exposed.
Context {D : Type} `{!Decimal D} `{!Postgres D} `{!Env D} `{svc : !Services} `{str : !OrderStreams} `{uu : !Uuids}
  `{ecfg : !ExecutorConfig} `{esur : !ExecutorSurroundings}.

(** The execution [id] is one that goes on. *)
Definition stillActive (id : string) (st : Store D) : Prop :=
  exists row, st_executions st !! id = Some row /\ activeExecution row = true.

Variable id : string.
Hypothesis others_leave : forall n st, stillActive id st -> stillActive id (interfere n st).

Lemma active_tables {A} (f : GoTime -> Store D -> Result A * Store D) :
  (forall t st a st', f t st = (Ok a, st') -> st_executions st' = st_executions st) -> keeps (stillActive id) (sql f).
Proof. intros Hf. apply keeps_sql; [exact others_leave|]. intros t st a st' E. unfold stillActive. by rewrite (Hf _ _ _ _ E). Qed.
Lemma active_combination k cond assign : keeps (stillActive id) (orNotFound (sql (fun t => updateCombination k (cond t) (assign t)))).
Proof.
  unfold orNotFound. apply keeps_bind; [|intros r; apply keeps_ret]. apply active_tables. intros t st a st' H.
  unfold updateCombination in H. repeat (case_match; simplify_eq/=; try done).
Qed.
Lemma active_event k x e : keeps (stillActive id) (AppendArbitrageEvent k x e).
Proof. apply active_tables. intros t st a st' H. repeat (case_match; simplify_eq/=; try done). Qed.

(** A status that goes on leaves the execution active. *)
Lemma active_execution x : terminalArbitrageExecutionStatus (x_Status x) = false -> keeps (stillActive id) (UpdateArbitrageExecution x).
Proof.
  intros Hx. unfold UpdateArbitrageExecution. apply keeps_bind.
  - apply keeps_sql; [exact others_leave|]. intros t st a st' H (row & Hr & Ha). unfold updateExecutionTransaction in H. cbv zeta in H.
    destruct (st_executions st !! x_ID x) as [row0|] eqn:H0; [|injection H as _ <-; by exists row].
    destruct (_ || _); [|injection H as _ <-; by exists row]. destruct (assignExecution x t row0) as [row1|] eqn:E1; [|done].
    injection H as _ <-. unfold stillActive. cbn. destruct (decide (x_ID x = id)) as [<-|Hn].
    + rewrite lookup_insert_eq. eexists. split; [reflexivity|]. unfold assignExecution in E1.
      do 3 (destruct (numericAny _) in E1; [|done]).
      injection E1 as <-. change (negb (terminalArbitrageExecutionStatus (x_Status x)) = true). by rewrite Hx.
    + rewrite lookup_insert_ne by done. by exists row.
  - intros [[y|]|e]; try apply keeps_ret. apply keeps_bind; [|intros r; apply keeps_ret]. apply active_tables. by intros t st a st' [= _ <-].
Qed.

(** From a run with [P] the computation ends in a run with [Q], and the
    execution goes on. *)
Definition goesOn {A} (P : ArbitrageExecution -> Prop) (m : E D A) (Q : ArbitrageExecution -> Prop) : Prop :=
  forall s w, P (xs_execution s) -> stillActive id (w_store w) ->
    Q (xs_execution (snd (fst (m s w)))) /\ stillActive id (w_store (snd (m s w))).

Lemma on_bind {A B} (m : E D A) (k : A -> E D B) P R Q : goesOn P m R -> (forall a, goesOn R (k a) Q) -> goesOn P (ebind m k) Q.
Proof.
  intros Hm Hk s w HP Ha. unfold ebind, bind. destruct (Hm s w HP Ha) as [HR Ha']. destruct (m s w) as [[a s'] w']. by apply (Hk a s' w').
Qed.
Lemma on_eret {A} (a : A) P : goesOn P (eret a) P.
Proof. by intros s w. Qed.
Lemma on_lift {A} (m : M D A) P : keeps (stillActive id) m -> goesOn P (elift m) P.
Proof. intros Hm s w HP Ha. unfold elift, bind. pose proof (Hm w Ha) as H. by destruct (m w) as [a w']. Qed.
Lemma on_execution {B} (k : ArbitrageExecution -> E D B) P Q :
  (forall x, P x -> goesOn (eq x) (k x) Q) -> goesOn P (ebind execution k) Q.
Proof. intros H s w HP Ha. by apply (H (xs_execution s) HP s w). Qed.
Lemma on_set {B} x (k : unit -> E D B) P Q : goesOn (eq x) (k tt) Q -> goesOn P (ebind (setExecution x) k) Q.
Proof. intros H s w _ Ha. by apply (H (s <| xs_execution := x |>) w). Qed.
Lemma on_append k x e P : goesOn P (appendExecutionEvent k x e) P.
Proof. unfold appendExecutionEvent. eapply on_bind; [apply on_lift, active_event|]. intros r. apply on_eret. Qed.
Lemma on_save x : terminalArbitrageExecutionStatus (x_Status x) = false -> goesOn (eq x) saveExecution (eq x).
Proof.
  intros Hx. unfold saveExecution. apply on_execution. intros y <-. eapply on_bind; [by apply on_lift, active_execution|]. intros r. apply on_eret.
Qed.
(** A statement on the combination, and nothing else. *)
Lemma on_combination k cond assign P :
  goesOn P (run* elift (orNotFound (sql (fun t => updateCombination k (cond t) (assign t)))); eret tt) P.
Proof. eapply on_bind; [apply on_lift, active_combination|]. intros r. apply on_eret. Qed.

Lemma keepExposed_on c x e b P : goesOn P (keepExposed c x e b) (fun _ => True).
Proof.
  unfold keepExposed. cbv zeta. set (active := existsb _ _).
  set (x1 := if active then x else _). apply on_set.
  assert (terminalArbitrageExecutionStatus (x_Status x1) = false) as Hx.
  { unfold x1, active. destruct (existsb _ _) eqn:Ea; [|cbn; by destruct (x_HedgeOrderID x =?s "")].
    apply existsb_exists in Ea as (t & Ht & Et). apply String.eqb_eq in Et. rewrite Et. by repeat destruct Ht as [<-|Ht]. }
  eapply on_bind; [by apply on_save|]. intros u.
  enough (goesOn (eq x1) (if errorsIs e ErrArbitrageUnsafeHedge then _ else _) (eq x1)) as H by (intros s w Hs Ha; by destruct (H s w Hs Ha)).
  destruct (errorsIs _ _); [|destruct b]; apply on_combination.
Qed.

End Exposed.

Section ExposedWitness.
#[local] Existing Instance stillEnv.
#[local] Existing Instance simpleServices.
#[local] Existing Instance readyStreams.
#[local] Existing Instance plainExecutor.
#[local] Existing Instance silentSurroundings.

(** The maker order is open, and the venue cannot be reached. *)
Definition exposedExec : Exec :=
  claimedExec <| xs_execution := openingClaim <| x_Status := "maker_open"%string |> <| x_MakerOrderID := "m1"%string |> |>.
Definition claimedWorld : World Dec := mkWorld claimedStore 0 [].

End ExposedWitness.
