(* ===== verification/ExecCircuit.v ===== *)
(** * The executor: recovering an open circuit
      (arbitrage_circuit_recovery.go, arbitrage_circuit_open.go)

    What [ReconcileCircuitOpen] does with a combination whose circuit tripped:
    the orders of its active execution are confirmed at the venue, the
    positions of the accounts are compared with the orders, and the circuit is
    closed, the hedge replaced or the failed quote tried again. *)
From Stdlib Require Import ZArith QArith Lqa String.
From stdpp Require Import base strings list gmap.
From S2P Require Import Prelude Decimal DecimalRef Types Quantity Validate ArbMath ArbSize ArbHedge Resolution OrderStream Store OrderStore OrderService FlattenRules ArbStore FlattenStore CircuitStore Reconciler Scheduler Executor ExecHedge ExecRun.

#[local] Set Warnings "-clear-no-such-hyp".

(** ** Data *)

Definition circuitHedgeRetryEligible : string := "circuit_hedge_retry_eligible".
Definition circuitHedgeRetryStarted : string := "circuit_hedge_retry_started".
Definition circuitHedgeRetryRejected : string := "circuit_hedge_retry_rejected".
Definition circuitQuoteRetryEligible : string := "circuit_quote_retry_eligible".
Definition circuitQuoteRetryStarted : string := "circuit_quote_retry_started".
Definition circuitQuoteRetryRejected : string := "circuit_quote_retry_rejected".
Definition errCircuitOpenOrderMismatch : GoError := errPlain "persisted order does not match venue result".

Definition withCircuitRecoveryCompletion (cx : Ctx) : Ctx := mkCtx (cx_background cx) true.

(** Whether the positions at the venues are those of the baselines, the
    orders and the adjustments, and the positions of the combination. *)
Record CircuitBooks (D : Type) := mkCircuitBooks { bk_explained : bool; bk_localA : D; bk_localB : D }.
Arguments mkCircuitBooks {D}.
Arguments bk_explained {D}.
Arguments bk_localA {D}.
Arguments bk_localB {D}.

Section ExecCircuit.
Context {D : Type} `{!Decimal D} `{!Postgres D} `{!Env D} `{svc : !Services} `{str : !OrderStreams}
  `{ecfg : !ExecutorConfig} `{esur : !ExecutorSurroundings}.
Local Open Scope dec_scope.

Definition circuitBooks (c : ArbitrageCombination) (venueA venueB orderSumA orderSumB : D) : CircuitBooks D :=
  let baselineA := parseDecimal (c_LegAVenueBaselineBasePosition c) in
  let baselineB := parseDecimal (c_LegBVenueBaselineBasePosition c) in
  let adjustmentA := parseDecimal (c_LegAReconciliationAdjustment c) in
  let adjustmentB := parseDecimal (c_LegBReconciliationAdjustment c) in
  mkCircuitBooks (dEqual venueA (baselineA + orderSumA + adjustmentA) && dEqual venueB (baselineB + orderSumB + adjustmentB))
    (orderSumA + adjustmentA) (orderSumB + adjustmentB).

(** ** Confirming the orders *)

(** The order as it is stored. *)
Definition storedState (order : Order) : VenueResult :=
  zero_VenueResult <| r_Status := o_Status order |> <| r_FilledQuantity := o_FilledQuantity order |>
    <| r_AveragePrice := o_AveragePrice order |> <| r_VenueOrderID := o_VenueOrderID order |>.

Definition confirmCircuitOpenOrder (d : Dependencies) (order : Order) : M D (Order * option GoError) :=
  if explicitVenueRejectedZeroFill (D := D) order || confirmedAbsentReliableZeroFill (D := D) order then ret (order, None)
  else
    do answer <- callResolve (dp_adapter d) (dp_credentials d) (dp_instrument d) order;
    match answer with
    | (_, Some e) => ret (order, Some e)
    | (resolution, None) =>
        if or_ConfirmedAbsent resolution then
          if confirmedAbsentReliableZeroFill (D := D) order || (terminalStatus (o_Status order) && negb (EqualFold (o_Status order) "filled"))
          then persistResult (o_ID order) "arbitrage_observe"
                 ((storedState order) <| r_ErrorCode := o_ErrorCode order |> <| r_ErrorMessage := o_ErrorMessage order |>)
          else if EqualFold (o_Status order) "filled" || negb (terminalStatus (o_Status order)) then ret (order, Some errOrderNotFound)
          else persistResult (o_ID order) "arbitrage_observe" (storedState order)
        else
          let normalized := normalizeVenueResult (D := D) order (or_Result resolution) in
          if negb (terminalStatus (r_Status normalized)) then ret (order, Some errVenueUncertain)
          else
            do written <- persistResult (o_ID order) "arbitrage_observe" normalized;
            ret (match written with
                 | (_, Some e) => (order, Some e)
                 | (persisted, None) =>
                     (persisted, if circuitOpenOrderMatchesVenue (D := D) persisted normalized then None else Some errCircuitOpenOrderMismatch)
                 end)
    end.

(** The credentials of a leg name its exchange. *)
Definition named (d : Dependencies) (leg : ArbitrageLeg) : Dependencies :=
  mkDependencies (dp_instrument d) (withExchange (dp_credentials d) leg) (dp_adapter d).

(** The orders of the execution that are not settled: [None] when one of them
    cannot be confirmed, otherwise whether one was. *)
Fixpoint confirmOrders (executionID : string) (dA dB : Dependencies) (orders : list Order) (confirmed : bool) : M D (option bool) :=
  match orders with
  | [] => ret (Some confirmed)
  | order :: rest =>
      if negb (o_ArbitrageExecutionID order =?s executionID) || negb (circuitOrderNeedsConfirm (D := D) order)
      then confirmOrders executionID dA dB rest confirmed
      else
        do answer <- confirmCircuitOpenOrder (if EqualFold (o_ArbitrageLeg order) "b" then dB else dA) order;
        match answer with
        | (_, Some _) => ret None
        | (_, None) => confirmOrders executionID dA dB rest true
        end
  end.

(** ** Replacing the hedge *)

(** The hedge that is sent once more: its venue, side, quantity and price; none
    when the recovery is skipped. *)
Definition replacementHedge (c : ArbitrageCombination) (x : ArbitrageExecution) (order : Order) (carry : D) (dA dB : Dependencies)
    : M D (Result (option (HedgeVenue * string * string * string))) :=
  let onB := EqualFold (o_ArbitrageLeg order) "b" in
  let leg := if onB then c_LegB c else c_LegA c in
  let d := if onB then dB else dA in
  let side := carryHedgeSide carry in
  do bbo <- latestForLeg leg;
  ret (match bbo with
       | Err _ => Ok None
       | Ok bbo =>
           if negb (dEqual (parseDecimal (c_CarryBaseQuantity c)) carry) then Ok None
           else match executableHedgeQuantity (dAbs carry) (takerPrice bbo side) (dp_instrument d) false with
           | (_, _, Some _) | (_, false, _) => Ok None
           | (quantity, true, None) =>
               match normalizeHedgeIOCPrice (D := D) (dp_instrument d) side
                       (protectedIOCPrice bbo side (parsePositiveDecimal (D := D) (i_PriceTick (dp_instrument d))) ec_iocBps) with
               | Err e => Err e
               | Ok limitPrice =>
                   match prepareArbitrageOrder (D := D) (dp_instrument d) "limit" (dString quantity) limitPrice limitPrice x with
                   | Err _ => Ok None
                   | Ok (preparedQty, preparedPrice) => Ok (Some (mkHedgeVenue leg d None, side, preparedQty, preparedPrice))
                   end
               end
           end
       end).

Definition sendReplacement (cx : Ctx) (c : ArbitrageCombination) (x : ArbitrageExecution) (hv : HedgeVenue) (side quantity price : string)
    : M D (option GoError) :=
  run AppendArbitrageEvent (c_ID c) (x_ID x) circuitHedgeRetryEligible;
  do n <- tick;
  let intent := (orderIntent (D := D) c x (hv_leg hv) (hv_instrument hv) side "limit" quantity price "hedge" (x_HedgeSequence x))
                  <| o_ClientOrderID := clientOrderID (newUUID n) |> in
  run AppendArbitrageEvent (c_ID c) (x_ID x) circuitHedgeRetryStarted;
  do prepared <- PrepareArbitrageHedgeIntent (mkPrepareHedgeInput c x intent (x_HedgeSequence x) false "" "" true (c_CarryBaseQuantity c));
  match prepared with
  | Err _ => run AppendArbitrageEvent (c_ID c) (x_ID x) circuitHedgeRetryRejected; ret None
  | Ok prepared =>
      let c := pr_Combination prepared in
      let x := pr_Execution prepared in
      if negb (pr_Created prepared) then ret None
      else
        do (submitted, err) <- submitPrepared (hv_adapter hv) (hv_credentials hv) (hv_instrument hv) (pr_Order prepared) "IOC" false;
        if isSome err || negb (dIsPositive (parseDecimal (D := D) (o_FilledQuantity submitted))) then
          run AppendArbitrageEvent (c_ID c) (x_ID x) circuitHedgeRetryRejected; ret None
        else
          do (result, _) <- completeExecution (withCircuitRecoveryCompletion cx) c (parsePositiveDecimal (D := D) price) (mkExec x c None ∅);
          ret result
  end.

Definition replaceCircuitHedge (cx : Ctx) (c : ArbitrageCombination) (x : ArbitrageExecution) (orders : list Order) (carry : D) (dA dB : Dependencies)
    : M D (option GoError) :=
  match hedgeRecoveryOrder (D := D) x orders with
  | None => ret None
  | Some order =>
      if negb (EqualFold (c_Status c) "running") || arbitrageFlattening c then ret None
      else
        do planned <- replacementHedge c x order carry dA dB;
        match planned with
        | Err e => ret (Some e)
        | Ok None => ret None
        | Ok (Some (hv, side, quantity, price)) => sendReplacement cx c x hv side quantity price
        end
  end.

(** ** An active execution *)

(** The books explain the accounts and what is left is dust: the circuit is
    closed with the fills of the execution. *)
Definition closeExplained (c : ArbitrageCombination) (x : ArbitrageExecution) (orders : list Order) (started : GoTime) (accounts : CircuitAccounts D)
    (markA markB orderSumA orderSumB : D) : M D (option GoError) :=
  let '(fillA, fillB) := executionConfirmedLegFills (D := D) (x_ID x) orders in
  if negb (dIsPositive fillA) || negb (dIsPositive fillB) then ret None
  else
    do closed <- CompleteCircuitOpenRecovery (mkRecoveryClose (c_ID c) (x_ID x) (c_Version c) circuitCloseExplained "execution_completed"
      (ca_venueA accounts) (ca_venueB accounts) markA markB (ca_observedAt accounts) started orderSumA orderSumB
      (dString fillA) (dString fillB) "" "");
    ret (match closed with Err e => Some e | Ok _ => None end).

(** The orders are settled and the accounts read. *)
Definition settleCircuit (cx : Ctx) (c : ArbitrageCombination) (x : ArbitrageExecution) (orders : list Order) (started : GoTime)
    (dA dB : Dependencies) (accounts : CircuitAccounts D) : M D (option GoError) :=
  do markA <- circuitOpenMark (c_LegA c) (ca_snapshotA accounts);
  do markB <- circuitOpenMark (c_LegB c) (ca_snapshotB accounts);
  if negb (dIsPositive markA) || negb (dIsPositive markB) then ret None
  else
    let '(orderSumA, orderSumB, allTerminal) := combinationTerminalOrderSums (D := D) orders in
    if negb allTerminal then ret None
    else
      let books := circuitBooks c (ca_venueA accounts) (ca_venueB accounts) orderSumA orderSumB in
      let carry := bk_localA books + bk_localB books in
      if bk_explained books && circuitOpenCarryDust carry (dp_instrument dA) (dp_instrument dB) markA markB
      then closeExplained c x orders started accounts markA markB orderSumA orderSumB
      else
        do applied <- ApplyCircuitOpenExternalReconcile (mkExternalReconcile (c_ID c) (x_ID x) (c_Version c)
          (ca_venueA accounts) (ca_venueB accounts) markA markB (dp_instrument dA) (dp_instrument dB));
        match applied with
        | Err e => ret (Some e)
        | Ok (_, true) => ret None
        | Ok (_, false) =>
            if negb (bk_explained books) || negb (circuitOpenLegsNotSameDirection (bk_localA books) (bk_localB books)) then ret None
            else replaceCircuitHedge cx c x orders carry dA dB
        end.

Definition recoverActiveCircuitExecution (cx : Ctx) (c : ArbitrageCombination) (x : ArbitrageExecution) (orders : list Order) (started : GoTime)
    : M D (option GoError) :=
  if existsb (fun o => negb (o_ArbitrageExecutionID o =?s x_ID x) && (negb (terminalStatus (o_Status o)) || (0 <? o_ReconcileFailures o)%Z)) orders
  then ret None
  else
    do dependencies <- bothDependencies c;
    match dependencies with
    | Err e => ret (Some e)
    | Ok (dA, dB) =>
        let dA := named dA (c_LegA c) in
        let dB := named dB (c_LegB c) in
        do outcome <- confirmOrders (x_ID x) dA dB orders false;
        match outcome with
        | None => ret None
        | Some confirmed =>
            do listed <- (if confirmed then ListArbitrageOrders (c_OwnerUsername c) (c_ID c) else ret (Ok orders));
            match listed with
            | Err e => ret (Some e)
            | Ok orders =>
                if existsb (fun o => (o_ArbitrageExecutionID o =?s x_ID x) && circuitOrderNeedsConfirm (D := D) o) orders then ret None
                else
                  do accounts <- readAccounts c dA dB;
                  match accounts with
                  | Err e => ret (Some e)
                  | Ok accounts => settleCircuit cx c x orders started dA dB accounts
                  end
            end
        end
    end.
End ExecCircuit.

(** ** A failed quote *)

Section ExecQuote.
Context {D : Type} `{!Decimal D} `{!Postgres D} `{!Env D} `{svc : !Services} `{str : !OrderStreams} `{uu : !Uuids}
  `{ecfg : !ExecutorConfig} `{esur : !ExecutorSurroundings}.
Local Open Scope dec_scope.

(** A leg without market data is quoted at 100. *)
Definition madeUpQuote (now : GoTime) : BBO :=
  zero_BBO <| b_BidPrice := "100"%string |> <| b_AskPrice := "100.1"%string |> <| b_ReceiveTimestamp := now |> <| b_VenueTimestamp := now |>.
Definition circuitRecoveryBBO (c : ArbitrageCombination) : M D (BBO * BBO) :=
  do now <- timeNow;
  do latestA <- latestForLeg (c_LegA c);
  do latestB <- latestForLeg (c_LegB c);
  ret (match latestA with Ok bbo => bbo | Err _ => madeUpQuote now end, match latestB with Ok bbo => bbo | Err _ => madeUpQuote now end).

(** Without market data both legs are quoted at 100 and 100.1, whatever they
    trade at. *)
Lemma unquoted_legs_made_up (c : ArbitrageCombination) (w : World D) :
  (forall n leg, exists e, marketLatest n leg = Err e) ->
  exists now, fst (circuitRecoveryBBO c w) = (madeUpQuote now, madeUpQuote now).
Proof.
  intros Hm. unfold circuitRecoveryBBO, latestForLeg, bind. destruct (timeNow w) as [now w1]. exists now.
  destruct (tick w1) as [n w2]. unfold ret. destruct (Hm n (c_LegA c)) as [e ->].
  destruct (tick w2) as [k w3]. destruct (Hm k (c_LegB c)) as [e' ->]. done.
Qed.

(** The mid prices, with what the code puts in the place of none. *)
Definition circuitMids (bboA bboB : BBO) : D * D :=
  let mid bbo := dDiv (parsePositiveDecimal (b_BidPrice bbo) + parsePositiveDecimal (b_AskPrice bbo)) (dNewFromInt 2) in
  let midA := if dIsPositive (mid bboA) then mid bboA else dNewFromInt 100 in
  (midA, if dIsPositive (mid bboB) then mid bboB else midA).

Definition circuitQuoteSignalOpen (c : ArbitrageCombination) (failed : ArbitrageExecution) : M D bool :=
  let phase := ToLower (TrimSpace (c_OneShotPhase c)) in
  let target := parsePositiveDecimal (D := D) (c_TargetNotional c) in
  if EqualFold (c_Status c) "closing" || arbitrageFlattening c then ret false
  else if existsb (String.eqb phase) ["waiting_exit"; "exiting"; "exited"]%string then ret false
  else if negb (dIsPositive target) then ret false
  else
    do (bboA, bboB) <- circuitRecoveryBBO c;
    let '(ask, bid) := match executableArbitrageSpreads (D := D) c (parsePositiveDecimal (b_BidPrice bboA)) (parsePositiveDecimal (b_AskPrice bboA))
                               (parsePositiveDecimal (b_BidPrice bboB)) (parsePositiveDecimal (b_AskPrice bboB)) with
                       | Some computed => computed
                       | None => (parseDecimal (c_CurrentAskSpreadBps c), parseDecimal (c_CurrentBidSpreadBps c))
                       end in
    let '(midA, midB) := circuitMids bboA bboB in
    let '(venueNotional, _, _) := arbitragePositionNotionals c midA midB in
    let direction := if EqualFold (c_RunMode c) "one_shot" then c_EntryDirection c
                     else selectArbitragePositionDirection ask bid (parseDecimal (c_AskThresholdBps c)) (parseDecimal (c_BidThresholdBps c)) venueNotional target in
    ret (if negb (EqualFold direction (x_Direction failed)) || negb (EqualFold direction "ask") then false
         else negb (remainingDirectionNotional (parseDecimal (c_LegABasePosition c)) (parseDecimal (c_LegBBasePosition c)) target midA midB
                    <? dNewFromInt arbitrageMinOpenNotional)).

(** The execution that tries the quote again; none when its size is refused. *)
Definition circuitRecoveryQuoteExecution (c : ArbitrageCombination) (failed : ArbitrageExecution) (bboA bboB : BBO) : M D (option ArbitrageExecution) :=
  let target := parsePositiveDecimal (D := D) (c_TargetNotional c) in
  let orderNotional := parsePositiveDecimal (D := D) (c_OrderNotional c) in
  let orderNotional := if dIsPositive orderNotional then orderNotional else dNewFromInt arbitrageMinOpenNotional in
  let '(midA, midB) := circuitMids bboA bboB in
  let '(venueNotional, _, _) := arbitragePositionNotionals c midA midB in
  match planArbitragePosition venueNotional target orderNotional (x_Direction failed) with
  | None => ret None
  | Some plan =>
      if negb (EqualFold (pp_Effect plan) "open") then ret None
      else
        let ask := parsePositiveDecimal (D := D) (b_AskPrice bboA) in
        let qty := dDiv (pp_RequestedNotional plan) (if dIsPositive ask then ask else midA) in
        if negb (dIsPositive qty) then ret None
        else
          do n <- tick;
          ret (Some (zero_ArbitrageExecution <| x_ID := newUUID n |> <| x_CombinationID := c_ID c |> <| x_Direction := x_Direction failed |>
            <| x_Status := "claimed"%string |> <| x_PositionEffect := "open"%string |>
            <| x_TriggerAskSpread := c_CurrentAskSpreadBps c |> <| x_TriggerBidSpread := c_CurrentBidSpreadBps c |>
            <| x_TriggerLegABid := b_BidPrice bboA |> <| x_TriggerLegAAsk := b_AskPrice bboA |>
            <| x_TriggerLegBBid := b_BidPrice bboB |> <| x_TriggerLegBAsk := b_AskPrice bboB |>
            <| x_TargetBaseQuantity := dString qty |> <| x_RequestedNotional := dString (pp_RequestedNotional plan) |>
            <| x_LegAFilledQuantity := "0"%string |> <| x_LegBFilledQuantity := "0"%string |> <| x_DeltaNotional := "0"%string |>))
  end.

Definition circuitLegCredentials (c : ArbitrageCombination) : M D (Result (Credentials * Credentials)) :=
  do n <- tick;
  match credentialsInternal n (c_OwnerUsername c) (l_TradingAccountID (c_LegA c)) with
  | Err e => ret (Err e)
  | Ok credentialsA =>
      do m <- tick;
      ret (match credentialsInternal m (c_OwnerUsername c) (l_TradingAccountID (c_LegB c)) with
           | Err e => Err e
           | Ok credentialsB => Ok (withExchange credentialsA (c_LegA c), withExchange credentialsB (c_LegB c))
           end)
  end.

(** The positions at the venues. *)
Definition quotePositions (c : ArbitrageCombination) (dA dB : Dependencies) : M D (Result (D * D)) :=
  do credentials <- circuitLegCredentials c;
  match credentials with
  | Err e => ret (Err e)
  | Ok (credentialsA, credentialsB) =>
      do snapshotA <- circuitOpenAccountSnapshot credentialsA;
      match snapshotA with
      | Err e => ret (Err e)
      | Ok snapshotA =>
          do snapshotB <- circuitOpenAccountSnapshot credentialsB;
          ret (match snapshotB with
               | Err e => Err e
               | Ok snapshotB =>
                   match venueBasePosition (D := D) snapshotA (c_LegA c) (dp_instrument dA), venueBasePosition (D := D) snapshotB (c_LegB c) (dp_instrument dB) with
                   | Err e, _ => Err e
                   | _, Err e => Err e
                   | Ok venueA, Ok venueB => Ok (venueA, venueB)
                   end
               end)
      end
  end.

(** The claim, and the run of the execution it made. *)
Definition retryQuote (cx : Ctx) (c : ArbitrageCombination) (failed : ArbitrageExecution) (x : ArbitrageExecution) (bboA bboB : BBO) : M D (option GoError) :=
  run AppendArbitrageEvent (c_ID c) (x_ID failed) circuitQuoteRetryEligible;
  do claimed <- ClaimCircuitRecoveryExecution (mkClaimRecovery (c_Version c) (x_ID failed) x);
  match claimed with
  | Err e => ret (Some e)
  | Ok (_, false) => run AppendArbitrageEvent (c_ID c) (x_ID failed) circuitQuoteRetryRejected; ret None
  | Ok (claimed, true) =>
      do refreshed <- GetArbitrageCombinationByOwner (c_OwnerUsername c) (c_ID c);
      let c := match refreshed with Ok latest => if c_ID latest =?s "" then c else latest | Err _ => c end in
      run AppendArbitrageEvent (c_ID c) (x_ID claimed) circuitQuoteRetryStarted;
      do (err, _) <- executeMakerThenHedge (withCircuitRecoveryCompletion cx) bboA bboB (mkExec claimed c None ∅);
      match err with
      | Some _ => run AppendArbitrageEvent (c_ID c) (x_ID claimed) circuitQuoteRetryRejected; ret None
      | None => ret None
      end
  end.

Definition recoverFailedCircuitQuote (cx : Ctx) (c : ArbitrageCombination) (failed : ArbitrageExecution) (orders : list Order) : M D (option GoError) :=
  match quoteRecoveryOrder (D := D) failed orders with
  | None => ret None
  | Some _ =>
      do signal <- circuitQuoteSignalOpen c failed;
      if negb signal then ret None
      else
        do dependencies <- bothDependencies c;
        match dependencies with
        | Err e => ret (Some e)
        | Ok (dA, dB) =>
            do positions <- quotePositions c dA dB;
            match positions with
            | Err e => ret (Some e)
            | Ok (venueA, venueB) =>
                let '(orderSumA, orderSumB, allTerminal) := combinationTerminalOrderSums (D := D) orders in
                let books := circuitBooks c venueA venueB orderSumA orderSumB in
                if negb allTerminal || negb (bk_explained books) then ret None
                else if negb (circuitOpenLegsNotSameDirection (bk_localA books) (bk_localB books)) || negb (dIsZero (bk_localA books + bk_localB books))
                then ret None
                else
                  do (bboA, bboB) <- circuitRecoveryBBO c;
                  do execution <- circuitRecoveryQuoteExecution c failed bboA bboB;
                  match execution with
                  | None => ret None
                  | Some x => if x_ID x =?s "" then ret None else retryQuote cx c failed x bboA bboB
                  end
            end
        end
  end.

(** ** ReconcileCircuitOpen *)

(** The active execution, or the last failed one. *)
Definition circuitRecoveryExecution (id : string) : M D (Result (ArbitrageExecution * bool)) :=
  do active <- GetActiveArbitrageExecution id;
  match active with
  | Ok x => ret (Ok (x, true))
  | Err e =>
      if negb (errorsIs e ErrNotFound) then ret (Err e)
      else
        do executions <- ListArbitrageExecutions id 20;
        ret (match executions with
             | Err e => Err e
             | Ok executions => Ok (default zero_ArbitrageExecution (latestFailedArbitrageExecution executions), false)
             end)
  end.

Definition ordersExecutionFallback (x : ArbitrageExecution) : list ArbitrageExecution := if x_ID x =?s "" then [] else [x].

(** The failed execution of a recovery; [None] when there is none. *)
Definition failedExecution (c : ArbitrageCombination) (x : ArbitrageExecution) : M D (Result (option ArbitrageExecution)) :=
  match latestFailedArbitrageExecution (ordersExecutionFallback x) with
  | Some failed => ret (Ok (Some failed))
  | None =>
      do executions <- ListArbitrageExecutions (c_ID c) 20;
      ret (match executions with Err e => Err e | Ok executions => Ok (latestFailedArbitrageExecution executions) end)
  end.

Definition recoverCircuitOpen (cx : Ctx) (c : ArbitrageCombination) : M D (option GoError) :=
  if negb (c_CircuitOpen c) || negb (EqualFold (c_Status c) "running") then ret None
  else
    do started <- timeNow;
    do found <- circuitRecoveryExecution (c_ID c);
    match found with
    | Err e => ret (Some e)
    | Ok (x, active) =>
        do orders <- ListArbitrageOrders (c_OwnerUsername c) (c_ID c);
        match orders with
        | Err e => ret (Some e)
        | Ok orders =>
            if active then recoverActiveCircuitExecution cx c x orders started
            else
              do failed <- failedExecution c x;
              match failed with
              | Err e => ret (Some e)
              | Ok None => ret None
              | Ok (Some failed) => recoverFailedCircuitQuote cx c failed orders
              end
        end
    end.

(** ** The executor behind the scheduler *)

(** What a goroutine of the scheduler runs; errors are logged. *)
Definition runJob (j : Job) : M D unit :=
  match j with
  | ExecuteClaimed c x bboA bboB | ExecuteActive c x bboA bboB => Execute callerContext c x bboA bboB
  | RecoverWithoutMarketData c x => run executorRecover callerContext c x; ret tt
  | ReconcileCircuitOpen c => run recoverCircuitOpen callerContext c; ret tt
  | RunLastCloseResidualFlatten c bboA bboB => run executorResidualFlatten callerContext c bboA bboB; ret tt
  end.

(** The runner a loop waits for. *)
Definition executorRunner : Runner D := {|
  runnerCloseCombination := CloseCombination;
  runnerResidualFlatten := executorResidualFlatten callerContext
|}.
End ExecQuote.
