(* ===== verification/ExecSafe.v ===== *)
(** * What a run of the executor may do

    The tables and the venues after a run of Executor.v, ExecHedge.v and
    ExecRun.v, whatever the venues, the streams, the market data and the store
    answer, whichever statement fails, and among other processes: no
    combination gets a second active execution, the exit of a one-shot is
    never undone, and an order leaves the program only after it was written
    down. *)
From Stdlib Require Import ZArith QArith Lqa String.
From stdpp Require Import base strings list sorting gmap.
From S2P Require Import Prelude Decimal DecimalRef Types Quantity Validate ArbMath ArbSize ArbHedge Resolution FillAverage OrderStream Store OrderStore OrderService FlattenRules ArbStore FlattenStore ArbLedger FlattenLedger CircuitStore Reconciler Scheduler SchedulerSafe Executor ExecHedge ExecRun ExecCircuit.

#[local] Set Warnings "-clear-no-such-hyp".

(** ** What a transaction does to the tables *)

Section Moves.
Context {D : Type} `{!Decimal D} `{!DecimalLaws D} `{!Postgres D} `{!Env D}.

(** What an order asks the venue for. *)
Definition Intent : Type := string * string * string * string * string * bool.
Definition intentOf (o : Order) : Intent :=
  (o_ClientOrderID o, o_Side o, o_OrderType o, o_Quantity o, o_Price o, o_ReduceOnly o).
Definition requestIntent (r : OrderRequest) : Intent :=
  (rq_ClientOrderID r, rq_Side r, rq_OrderType r, rq_Quantity r, rq_Price r, rq_ReduceOnly r).
Definition rowIntent (row : OrderRow) : Intent := intentOf (scanOrder row).

(** The order is a row of the table. *)
Definition recorded (i : Intent) (st : Store D) : Prop :=
  exists id row, st_orders st !! id = Some row /\ rowIntent row = i.

(** No row is deleted, and none asks for something else. *)
Definition rowsKept (st st' : Store D) : Prop :=
  forall id row, st_orders st !! id = Some row -> exists row', st_orders st' !! id = Some row' /\ rowIntent row' = rowIntent row.

Lemma rowsKept_same (st st' : Store D) : st_orders st' = st_orders st -> rowsKept st st'.
Proof. intros E id row H. rewrite E. eauto. Qed.
Lemma rowsKept_trans (st st1 st2 : Store D) : rowsKept st st1 -> rowsKept st1 st2 -> rowsKept st st2.
Proof. intros H1 H2 id row H. destruct (H1 _ _ H) as (r1 & Hr1 & E1). destruct (H2 _ _ Hr1) as (r2 & Hr2 & E2). exists r2. split; [done|congruence]. Qed.
Lemma rowsKept_set (st st' : Store D) id row row' :
  st_orders st !! id = Some row -> rowIntent row' = rowIntent row -> st_orders st' = <[id := row']> (st_orders st) -> rowsKept st st'.
Proof.
  intros Hr Hi E j r Hj. rewrite E. destruct (decide (j = id)) as [->|Hn]; [rewrite lookup_insert_eq; exists row'; split; congruence|].
  rewrite lookup_insert_ne by done. eauto.
Qed.
Lemma rowsKept_new (st st' : Store D) id row' :
  st_orders st !! id = None -> st_orders st' = <[id := row']> (st_orders st) -> rowsKept st st'.
Proof. intros Hn E j r Hj. rewrite E, lookup_insert_ne by congruence. eauto. Qed.
Lemma recorded_kept i (st st' : Store D) : rowsKept st st' -> recorded i st -> recorded i st'.
Proof. intros H (id & row & Hr & <-). destruct (H _ _ Hr) as (row' & Hr' & E). by exists id, row'. Qed.

(** The change of one transaction. *)
Definition execMove (st st' : Store D) : Prop :=
  executionChange (st_executions st) (st_executions st') /\ phasesMove st st' /\ rowsKept st st'.

Lemma move_refl (st : Store D) : execMove st st.
Proof. split; [by left|]. split; [by apply phasesMove_same|by apply rowsKept_same]. Qed.
Lemma move_rows (st st' : Store D) :
  st_executions st' = st_executions st -> st_combinations st' = st_combinations st -> rowsKept st st' -> execMove st st'.
Proof. intros E1 E2 H. split; [by left|]. split; [by apply phasesMove_same|done]. Qed.
Lemma move_step (st st' : Store D) : arbStep st st' -> lifeStep st st' -> rowsKept st st' -> execMove st st'.
Proof. intros Ha Hl Hr. split; [by apply arbStep_change|]. split; [by apply lifeStep_phase|done]. Qed.

(** *** Orders *)

Lemma writeMerged_intent t row m s a e v row' : writeMerged t row m s a e v = Ok row' -> rowIntent row' = rowIntent row.
Proof. unfold writeMerged. repeat (case_match; try done); intros [= <-]; reflexivity. Qed.
Lemma move_apply o result eventAt receivedAt stream fills skip n fault (st st' : Store D) r :
  applyTransaction o result eventAt receivedAt stream fills skip n fault st = (r, st') -> execMove st st'.
Proof.
  unfold applyTransaction. intros H.
  destruct (st_orders st !! o) as [row|] eqn:Hr; [|destruct fault as [[[] ?]|]; injection H as _ <-; apply move_refl].
  destruct fault as [[[] e]|]; [injection H as _ <-; apply move_refl|..]; cbv zeta in H;
    destruct (if hyperliquidArbitrageFillAverageEnabled _ then _ else _) as [h t] in H;
    destruct (planUpdate _ _ _ _ _ _ _ _ _ _ _ _ _ _) as [t1 [p|e']] eqn:Ep in H; injection H as _ <-;
    try (apply move_rows; [done..|]; by apply rowsKept_same);
    (apply move_rows; [done..|]; eapply rowsKept_set; [exact Hr| |reflexivity]);
    unfold planUpdate in Ep; cbv zeta in Ep; repeat (case_match; simplify_eq/=; try done); by eapply writeMerged_intent.
Qed.
Lemma move_defer o next t (st st' : Store D) r : deferTransaction o next t st = (r, st') -> execMove st st'.
Proof.
  intros [= _ <-]. apply move_rows; [done..|]. intros id row Hr. cbn. destruct (decide (id = o)) as [->|Hn].
  - rewrite lookup_alter_eq, Hr. cbn. by eexists.
  - rewrite lookup_alter_ne by done. eauto.
Qed.
Lemma insertOrder_fresh o t (st : Store D) row : insertOrder o t st = Ok row -> st_orders st !! o_ID o = None.
Proof. unfold insertOrder. by destruct (st_orders st !! o_ID o). Qed.
Lemma move_create o t (st st' : Store D) r :
  createIntentTransaction o t st = (r, st') ->
  execMove st st' /\ match r with Ok (Some stored) => recorded (intentOf stored) st' | _ => True end.
Proof.
  unfold createIntentTransaction. destruct (byIdempotency _ _); [intros [= <- <-]; split; [apply move_refl|done]|].
  cbv zeta. destruct (insertOrder _ _ _) as [row|] eqn:Ei; intros [= <- <-]; [|split; [apply move_refl|done]].
  apply insertOrder_fresh in Ei. cbn [o_ID setter] in Ei. split.
  - apply move_rows; [done..|]. by eapply rowsKept_new.
  - exists (o_ID o), row. split; [cbn; by rewrite lookup_insert_eq|done].
Qed.

Lemma intents_moves orders t (st st' : Store D) r :
  insertIntents orders t st = (r, st') ->
  st_executions st' = st_executions st /\ st_combinations st' = st_combinations st /\ rowsKept st st' /\
  match r with Ok l => Forall (fun p => recorded (intentOf (fst p)) st') l | Err _ => True end.
Proof.
  revert st st' r. induction orders as [|o orders IH]; intros st st' r; cbn [insertIntents]; [intros [= <- <-]; by split_and!; [..|apply rowsKept_same|]|].
  destruct (byIdempotency _ _) as [row|] eqn:Eb.
  - destruct (negb _); [intros [= <- <-]; by split_and!; [..|apply rowsKept_same|]|].
    destruct (insertIntents orders t st) as [[l|e] st1] eqn:Ei; intros [= <- <-]; destruct (IH _ _ _ Ei) as (E1 & E2 & H3 & H4); split_and!; try done.
    constructor; [|done]. unfold byIdempotency, findOrder in Eb. apply find_some in Eb as [Eb _].
    apply in_map_iff in Eb as ([id row'] & Erow & Hin). cbn in Erow. subst row'. apply list_elem_of_In, elem_of_map_to_list in Hin.
    eapply recorded_kept; [exact H3|]. by exists id, row.
  - destruct (insertOrder _ _ _) as [row|] eqn:Er; [|intros [= <- <-]; by split_and!; [..|apply rowsKept_same|]]. apply insertOrder_fresh in Er. cbn in Er.
    destruct (insertIntents _ _ _) as [[l|e] st1] eqn:Ei; intros [= <- <-]; destruct (IH _ _ _ Ei) as (E1 & E2 & H3 & H4);
      (split_and!; [done|done|eapply rowsKept_trans; [|exact H3]; by eapply rowsKept_new|]); [|done].
    constructor; [|done]. eapply recorded_kept; [exact H3|]. exists (o_ID o), row. split; [cbn; by rewrite lookup_insert_eq|done].
Qed.
Lemma move_intents orders t (st st' : Store D) r :
  insertIntents orders t st = (r, st') ->
  execMove st st' /\ match r with Ok l => Forall (fun p => recorded (intentOf (fst p)) st') l | Err _ => True end.
Proof. intros (E1 & E2 & H3 & H4)%intents_moves. split; [by apply move_rows|done]. Qed.

Lemma byIdempotency_recorded key (st : Store D) row : byIdempotency key st = Some row -> recorded (rowIntent row) st.
Proof.
  unfold byIdempotency, findOrder. intros [Eb _]%find_some. apply in_map_iff in Eb as ([id row'] & Erow & Hin). cbn in Erow. subst row'.
  apply list_elem_of_In, elem_of_map_to_list in Hin. by exists id, row.
Qed.

(** *** Executions and combinations *)

Lemma move_event id x e t (st st' : Store D) (r : Result unit) :
  (match st_combinations st !! id with
   | Some _ => (Ok tt, st <| st_arbitrageEvents := st_arbitrageEvents st ++ [(id, x, e)] |>)
   | None => (Err (errPlain t), st)
   end) = (r, st') -> execMove st st'.
Proof. intros H. apply move_rows; [..|apply rowsKept_same]; repeat (case_match; simplify_eq/=; try done). Qed.
Lemma updateCombination_orders id cond assign (st st' : Store D) r : updateCombination id cond assign st = (r, st') -> st_orders st' = st_orders st.
Proof. unfold updateCombination. intros H. repeat (case_match; simplify_eq/=; try done). Qed.
Lemma move_combination id cond assign (st st' : Store D) r :
  updateCombination id cond assign st = (r, st') -> lifeStep st st' -> execMove st st'.
Proof.
  intros H Hl. apply move_step; [by eapply astep_combination|done|]. by eapply rowsKept_same, updateCombination_orders.
Qed.
Lemma move_execution x t (st st' : Store D) r : updateExecutionTransaction x t st = (r, st') -> execMove st st'.
Proof.
  intros H. apply move_step; [by eapply astep_execution| |]; unfold updateExecutionTransaction in H; cbv zeta in H.
  - apply life_other. repeat (case_match; simplify_eq/=; try done).
  - apply rowsKept_same. repeat (case_match; simplify_eq/=; try done).
Qed.
Lemma move_positions id t (st st' : Store D) r : updatePositions id t st = (r, st') -> execMove st st'.
Proof.
  intros H. apply move_step; [by eapply astep_positions|by eapply life_positions|]. by apply rowsKept_same, (updatePositions_orders _ _ _ _ _ H).
Qed.
Lemma move_recompute e t (st st' : Store D) r : recomputeForExecution e t st = (r, st') -> execMove st st'.
Proof.
  intros H. pose proof (arbStep_change _ _ (astep_recompute _ _ _ _ _ H)) as Hc. unfold recomputeForExecution in H.
  destruct (st_executions st !! e) as [row|]; [|injection H as _ <-; apply move_refl].
  cbv zeta in H. destruct (st_combinations st !! _); [|injection H as _ <-; apply move_refl].
  destruct (executionFills _ _ _) as [fa fb]. do 2 (destruct (numericAny _); [|injection H as _ <-; apply move_refl]).
  split; [done|]. pose proof (updatePositions_orders _ _ _ _ _ H) as [Eo _]. split; [|by apply rowsKept_same].
  intros j c0 Hj. destruct (positions_phase _ _ _ _ _ H j c0 Hj) as (c1 & H1 & E). exists c1. split; [done|by left].
Qed.
Lemma move_finalizeAbsent e t (st st' : Store D) r : finalizeTransaction e t st = (r, st') -> execMove st st'.
Proof.
  intros H. pose proof (finalize_change _ _ _ _ _ H) as (Eo & _ & Hc). split; [done|]. split; [by eapply finalize_phases|by apply rowsKept_same].
Qed.
Lemma move_circuit (st st' : Store D) : circuitStep st st' -> execMove st st'.
Proof. intros (Eo & _ & Hc & Hp)%circuitStep_moves. split; [done|]. split; [done|by apply rowsKept_same]. Qed.
Lemma move_hedge input t (st st' : Store D) r :
  prepareHedgeTransaction input t st = (r, st') ->
  execMove st st' /\ match r with Ok p => recorded (intentOf (pr_Order p)) st' | Err _ => True end.
Proof.
  intros H. pose proof (astep_hedge _ _ _ _ _ H) as Ha. pose proof (life_hedge _ _ _ _ _ H) as Hl.
  enough (rowsKept st st' /\ match r with Ok p => recorded (intentOf (pr_Order p)) st' | Err _ => True end) as [Hr ?] by (split; [by apply move_step|done]).
  clear Ha Hl. unfold prepareHedgeTransaction in H. cbv zeta in H.
  destruct (st_combinations st !! _); [|by injection H as <- <-; split; [apply rowsKept_same|]].
  destruct (st_executions st !! _); [|by injection H as <- <-; split; [apply rowsKept_same|]].
  destruct (negb _); [by injection H as <- <-; split; [apply rowsKept_same|]|].
  destruct (terminalArbitrageExecutionStatus _); [by injection H as <- <-; split; [apply rowsKept_same|]|].
  destruct (if ph_FastPathAdmission input then _ else _) as [x1|]; [|by injection H as <- <-; split; [apply rowsKept_same|]].
  destruct (if ph_AggregateCarry input then _ else _); [|by injection H as <- <-; split; [apply rowsKept_same|]].
  destruct (hedgeOrder input x1 t st) as [[[[stored created] x2] st2]|] eqn:Eh; [|by injection H as <- <-; split; [apply rowsKept_same|]].
  assert (rowsKept st st2 /\ recorded (intentOf stored) st2) as [H1 H2].
  { unfold hedgeOrder in Eh. cbv zeta in Eh. destruct (byIdempotency _ _) as [row|] eqn:Eb.
    - destruct (_ || _) in Eh; [done|]. injection Eh as <- _ _ <-. split; [by apply rowsKept_same|]. by eapply byIdempotency_recorded.
    - destruct (_ && _) in Eh; [done|]. destruct (if _ && _ then _ else _) in Eh; [|done]. destruct (negb _) in Eh; [done|].
      destruct (insertOrder _ _ _) as [row|] eqn:Er in Eh; [|done]. injection Eh as <- _ _ <-. apply insertOrder_fresh in Er. cbn in Er.
      split; [by eapply rowsKept_new|]. exists (o_ID (ph_Order input)), row. split; [cbn; by rewrite lookup_insert_eq|done]. }
  destruct (assignExecution _ _ _); [|by injection H as <- <-; split; [apply rowsKept_same|]].
  injection H as <- <-. split; [exact H1|exact H2].
Qed.
Lemma move_unbalanced c e fa fb rem t (st st' : Store D) r : failLastCloseTransaction c e fa fb rem t st = (r, st') -> execMove st st'.
Proof.
  intros H. split; [by eapply arbStep_change, astep_unbalanced|]. unfold failLastCloseTransaction in H. cbv zeta in H.
  destruct (st_combinations st !! _) as [combo|] eqn:Hc; [|injection H as _ <-; apply move_refl].
  destruct (st_executions st !! _); [|injection H as _ <-; apply move_refl].
  do 4 (match type of H with (if ?b then _ else _) = _ => destruct b end; [injection H as _ <-; apply move_refl|]).
  injection H as _ <-. split; [|by apply rowsKept_same]. eapply phasesMove_row; [exact Hc|reflexivity|done].
Qed.
Lemma move_finalizeFlatten e t (st st' : Store D) r : finalizeFlattenTransaction (D := D) e t st = (r, st') -> execMove st st'.
Proof.
  intros H. apply move_step; [by eapply astep_finalize|by eapply life_finalize|]. unfold finalizeFlattenTransaction in H. cbv zeta in H.
  apply rowsKept_same. repeat (case_match; simplify_eq/=; try done);
  match goal with H1 : updatePositions _ _ _ = _, H2 : settleFlatten _ _ _ _ = _ |- _ => apply updatePositions_orders in H1 as [E1 _]; apply updateCombination_orders in H2; cbn in H2; congruence end.
Qed.
Lemma residual_rows e orders t (st st' : Store D) r : insertResidualOrders e orders t st = (r, st') -> rowsKept st st'.
Proof.
  revert st. induction orders as [|o orders IH]; intros st; cbn [insertResidualOrders]; [intros [= _ <-]; by apply rowsKept_same|].
  destruct (byIdempotency _ _); [intros [= _ <-]; by apply rowsKept_same|].
  destruct (insertOrder _ _ _) as [row|] eqn:Er; [|intros [= _ <-]; by apply rowsKept_same]. apply insertOrder_fresh in Er. cbn in Er.
  intros H. eapply rowsKept_trans; [|by apply (IH _ H)]. by eapply rowsKept_new.
Qed.
Lemma move_residual `{u : !Uuids} id claim t (st st' : Store D) r : residualClaimTransaction (D := D) id claim t st = (r, st') -> execMove st st'.
Proof.
  intros H. apply move_step; [by eapply astep_residual|by eapply life_residual|]. unfold residualClaimTransaction in H. cbv zeta in H.
  repeat (case_match; simplify_eq/=; try (by apply rowsKept_same)); match goal with H1 : insertResidualOrders _ _ _ _ = _ |- _ => by apply residual_rows in H1 end.
Qed.
Lemma move_dustClose request t (st st' : Store D) r : dustCloseTransaction (D := D) request t st = (r, st') -> execMove st st'.
Proof.
  intros H. apply move_step; [by eapply astep_dust|by eapply life_dust_close|]. unfold dustCloseTransaction in H. cbv zeta in H.
  apply rowsKept_same. destruct (st_combinations st !! _); [|by injection H as _ <-].
  destruct (updateCombination _ _ _ _) as [w st1] eqn:Eu. apply updateCombination_orders in Eu. repeat (case_match; simplify_eq/=; try done).
Qed.
Lemma move_markOnce id x e (st st' : Store D) r : markOnce id x e st = (r, st') -> execMove st st'.
Proof. intros H. unfold markOnce in H. apply move_rows; [..|apply rowsKept_same]; repeat (case_match; simplify_eq/=; try done). Qed.
Lemma move_AppendEvent o e t (st st' : Store D) (r : Result unit) :
  (match st_orders st !! o with
   | Some _ => (Ok tt, st <| st_events := st_events st ++ [(o, e)] |>)
   | None => (Err (errPlain t), st)
   end) = (r, st') -> execMove st st'.
Proof. intros H. apply move_rows; [..|apply rowsKept_same]; repeat (case_match; simplify_eq/=; try done). Qed.
Lemma move_refresh id t (st st' : Store D) r : refreshTransaction id t st = (r, st') -> execMove st st'.
Proof. intros H. unfold refreshTransaction in H. apply move_rows; [..|apply rowsKept_same]; repeat (case_match; simplify_eq/=; try done). Qed.
End Moves.

(** ** Reasoning about a run *)

(** What the executor needs of the other processes: they delete no order and
    rewrite none. *)
Class OrdersKept (D : Type) `{!Env D} : Prop := others_keep : forall n (st : Store D), rowsKept st (interfere n st).

Section Logic.
Context {D : Type} `{!Decimal D} `{!DecimalLaws D} `{!Postgres D} `{!Env D} `{svc : !Services} `{rely_rows : !OrdersKept D}.

(** A fact about the tables that neither the other processes nor a transaction
    of the executor takes back. *)
Definition closed (I : Store D -> Prop) : Prop :=
  (forall n st, I st -> I (interfere n st)) /\ (forall st st', execMove st st' -> I st -> I st').

Lemma closed_and I R : closed I -> closed R -> closed (fun st => I st /\ R st).
Proof. intros [H1 H2] [H3 H4]. split; [intros n st []|intros st st' Hm []]; split; eauto. Qed.
Lemma closed_recorded i : closed (recorded i).
Proof. split; [intros n st; apply recorded_kept, others_keep|intros st st' (_ & _ & H); by apply recorded_kept]. Qed.
Lemma closed_list {A} (f : A -> Intent) (l : list A) : closed (fun st => Forall (fun a => recorded (f a) st) l).
Proof. split; [intros n st|intros st st' (_ & _ & Hm)]; intros H; (eapply Forall_impl; [exact H|]); intros a; apply recorded_kept; [apply others_keep|done]. Qed.
Lemma closed_true : closed (fun _ => True).
Proof. done. Qed.

(** The fact holds, and what was sent since [sent] is in the tables. *)
Definition tracked (I : Store D -> Prop) (sent : list (Z * OrderRequest)) (w : World D) : Prop :=
  I (w_store w) /\ exists new, placed w = sent ++ new /\ Forall (fun p => recorded (requestIntent (snd p)) (w_store w)) new.

Definition safe {A} (P : Store D -> Prop) (m : M D A) (Q : A -> Store D -> Prop) : Prop :=
  forall I sent w, closed I -> tracked I sent w -> P (w_store w) -> tracked I sent (snd (m w)) /\ Q (fst (m w)) (w_store (snd (m w))).
Definition wk {A} (m : M D A) : Prop := safe (fun _ => True) m (fun _ _ => True).
Definition esafe {A} (P : Store D -> Prop) (m : E D A) (Q : A -> Store D -> Prop) : Prop := forall s, safe P (m s) (fun r => Q (fst r)).
Definition ek {A} (m : E D A) : Prop := forall s, wk (m s).

Lemma safe_weaken {A} (m : M D A) (P P' : Store D -> Prop) (Q Q' : A -> Store D -> Prop) :
  safe P m Q -> (forall st, P' st -> P st) -> (forall a st, Q a st -> Q' a st) -> safe P' m Q'.
Proof. intros H HP HQ I sent w Hc HJ HP'. destruct (H I sent w Hc HJ (HP _ HP')). auto. Qed.
Lemma safe_pre {A} (m : M D A) (P P' : Store D -> Prop) (Q : A -> Store D -> Prop) : (forall st, P' st -> P st) -> safe P m Q -> safe P' m Q.
Proof. intros HP H. by eapply safe_weaken; [exact H| |]. Qed.
Lemma safe_wk {A} (m : M D A) P Q : safe P m Q -> (forall st, P st) -> wk m.
Proof. intros H HP. by eapply safe_weaken. Qed.
Lemma wk_safe {A} (m : M D A) P : wk m -> safe P m (fun _ _ => True).
Proof. intros H. by eapply safe_weaken. Qed.
Lemma safe_bind {A B} (m : M D A) (k : A -> M D B) P R Q : safe P m R -> (forall a, safe (R a) (k a) Q) -> safe P (bind m k) Q.
Proof.
  intros Hm Hk I sent w Hc HJ HP. unfold bind. destruct (Hm I sent w Hc HJ HP) as [HJ' HR]. destruct (m w) as [a w']. cbn in *.
  by apply (Hk a I sent w').
Qed.
Lemma safe_ret {A} (a : A) P (Q : A -> Store D -> Prop) : (forall st, P st -> Q a st) -> safe P (ret a) Q.
Proof. intros H I sent w _ HJ HP. by split; [|apply H]. Qed.
(** A closed fact survives. *)
Lemma safe_frame {A} (m : M D A) P Q R : closed R -> safe P m Q -> safe (fun st => P st /\ R st) m (fun a st => Q a st /\ R st).
Proof.
  intros HR Hm I sent w Hc [HI Hs] [HP HRw].
  destruct (Hm (fun st => I st /\ R st) sent w (closed_and _ _ Hc HR) ltac:(by split) HP) as [[[HI' HR'] Hs'] HQ]. by split; [split|split].
Qed.
Lemma wk_frame {A} (m : M D A) R : closed R -> wk m -> safe R m (fun _ => R).
Proof. intros HR Hm. eapply safe_weaken; [apply (safe_frame m _ _ R HR Hm)|by intros st H|by intros a st []]. Qed.

Lemma wk_bind {A B} (m : M D A) (k : A -> M D B) : wk m -> (forall a, wk (k a)) -> wk (bind m k).
Proof. intros Hm Hk. by eapply safe_bind. Qed.
Lemma wk_ret {A} (a : A) : wk (ret a).
Proof. by apply safe_ret. Qed.
Lemma wk_tick : wk tick.
Proof. intros I sent w _ HJ _. done. Qed.
Lemma wk_timeNow : wk timeNow.
Proof. intros I sent w _ HJ _. done. Qed.

Lemma tracked_sent I sent (w : World D) c : placedCall c = None -> tracked I sent w -> tracked I sent (w <| w_calls := w_calls w ++ [c] |>).
Proof.
  intros Hc [HI (new & E & HF)]. split; [done|]. exists new. split; [|done]. unfold placed in *. cbn. rewrite omap_app, E. cbn. by rewrite Hc, app_nil_r.
Qed.
Lemma wk_recordCall (c : VenueCall) : placedCall c = None -> wk (recordCall c).
Proof. intros Hc I sent w _ HJ _. split; [|done]. by apply tracked_sent. Qed.
(** An order is sent once it is recorded. *)
Lemma safe_place account request : safe (recorded (requestIntent request)) (recordCall (CallPlace account request)) (fun _ _ => True).
Proof.
  intros I sent w _ [HI (new & E & HF)] HR. split; [|done]. split; [done|]. exists (new ++ [(account, request)]). split.
  - unfold placed in *. cbn. rewrite omap_app, E. cbn. by rewrite app_assoc.
  - apply Forall_app. by split; [|constructor].
Qed.

Lemma tracked_move I sent (w : World D) st n : closed I -> execMove (interfere (w_tick w) (w_store w)) st -> tracked I sent w ->
  tracked I sent (w <| w_store := st |> <| w_tick := n |>).
Proof.
  intros [Hi Hm] Hs [HI (new & E & HF)]. split; [by eapply Hm, Hi|]. exists new. split; [done|]. eapply Forall_impl; [exact HF|]. intros p. cbn.
  destruct Hs as (_ & _ & Hr). intros H. eapply recorded_kept; [exact Hr|]. eapply recorded_kept; [apply others_keep|done].
Qed.
Lemma safe_transact {A} f (Q : Result A -> Store D -> Prop) :
  (forall n fault st, execMove st (snd (f n fault st)) /\ Q (fst (f n fault st)) (snd (f n fault st))) -> safe (fun _ => True) (transact f) Q.
Proof.
  intros Hf I sent w Hc HJ _. unfold transact. destruct (Hf (w_tick w) (dbFault (w_tick w)) (interfere (w_tick w) (w_store w))) as [Hm HQ].
  destruct (f _ _ _) as [r st]. cbn in *. split; [by apply tracked_move|done].
Qed.
Lemma safe_sql {A} (f : GoTime -> Store D -> Result A * Store D) (Q : Result A -> Store D -> Prop) :
  (forall e st, Q (Err e) st) -> (forall t st r st', f t st = (r, st') -> execMove st st' /\ Q r st') -> safe (fun _ => True) (sql f) Q.
Proof.
  intros He Hf. apply safe_transact. intros n fault st. destruct fault as [[? e]|]; cbn; [split; [apply move_refl|apply He]|].
  destruct (f (dbClock n) st) as [[a|e] st'] eqn:E; cbn; [by eapply Hf|split; [apply move_refl|apply He]].
Qed.
Lemma wk_sql {A} (f : GoTime -> Store D -> Result A * Store D) :
  (forall t st r st', f t st = (r, st') -> execMove st st') -> wk (sql f).
Proof. intros H. apply safe_sql; [done|]. intros t st r st' E. split; [by eapply H|done]. Qed.
Lemma wk_read {A} (f : GoTime -> Store D -> Result A) : wk (sql (fun t st => (f t st, st))).
Proof. apply wk_sql. intros t st r st' [= _ <-]. apply move_refl. Qed.
Lemma safe_read {A} (f : GoTime -> Store D -> Result A) (Q : Result A -> Store D -> Prop) :
  (forall e st, Q (Err e) st) -> (forall t st, Q (f t st) st) -> safe (fun _ => True) (sql (fun t st => (f t st, st))) Q.
Proof. intros He H. apply safe_sql; [done|]. intros t st r st' [= <- <-]. split; [apply move_refl|done]. Qed.

(** *** With the variables of a run *)

Lemma ek_bind {A B} (m : E D A) (k : A -> E D B) : ek m -> (forall a, ek (k a)) -> ek (ebind m k).
Proof. intros Hm Hk s. unfold ebind. apply wk_bind; [apply Hm|]. intros [a s']. apply Hk. Qed.
Lemma ek_etry {A B} (m : E D (Result A)) (k : A -> E D (Result B)) : ek m -> (forall a, ek (k a)) -> ek (etry m k).
Proof. intros Hm Hk. apply ek_bind; [done|]. intros [a|e]; [apply Hk|]. intros s. apply wk_ret. Qed.
Lemma ek_eret {A} (a : A) : ek (eret a).
Proof. intros s. apply wk_ret. Qed.
Lemma ek_lift {A} (m : M D A) : wk m -> ek (elift m).
Proof. intros H s. unfold elift. apply wk_bind; [done|]. intros a. apply wk_ret. Qed.
Lemma ek_get : ek getExec.
Proof. intros s. apply wk_ret. Qed.
Lemma ek_set f : ek (setExec f).
Proof. intros s. apply wk_ret. Qed.

Lemma es_bind {A B} (m : E D A) (k : A -> E D B) P R Q : esafe P m R -> (forall a, esafe (R a) (k a) Q) -> esafe P (ebind m k) Q.
Proof. intros Hm Hk s. unfold ebind. eapply safe_bind; [apply Hm|]. intros [a s']. apply Hk. Qed.
Lemma es_eret {A} (a : A) P (Q : A -> Store D -> Prop) : (forall st, P st -> Q a st) -> esafe P (eret a) Q.
Proof. intros H s. by apply safe_ret. Qed.
Lemma es_lift {A} (m : M D A) P Q : safe P m Q -> esafe P (elift m) Q.
Proof. intros H s. unfold elift. eapply safe_bind; [exact H|]. intros a. by apply safe_ret. Qed.
Lemma es_pre {A} (m : E D A) (P P' : Store D -> Prop) (Q : A -> Store D -> Prop) : (forall st, P' st -> P st) -> esafe P m Q -> esafe P' m Q.
Proof. intros HP H s. by eapply safe_weaken; [apply H| |]. Qed.
Lemma es_ek {A} (m : E D A) P Q : esafe P m Q -> (forall st, P st) -> ek m.
Proof. intros H HP s. by eapply safe_wk. Qed.
Lemma ek_es {A} (m : E D A) P : ek m -> esafe P m (fun _ _ => True).
Proof. intros H s. by apply wk_safe. Qed.
Lemma ek_frame {A} (m : E D A) R : closed R -> ek m -> esafe R m (fun _ => R).
Proof. intros HR H s. by apply wk_frame. Qed.
(** The first part of a run with a fact to keep. *)
Lemma es_skip {A B} (m : E D A) (k : A -> E D B) R Q : closed R -> ek m -> (forall a, esafe R (k a) Q) -> esafe R (ebind m k) Q.
Proof. intros HR Hm Hk. eapply es_bind; [by apply ek_frame|done]. Qed.
Lemma safe_skip {A B} (m : M D A) (k : A -> M D B) R Q : closed R -> wk m -> (forall a, safe R (k a) Q) -> safe R (bind m k) Q.
Proof. intros HR Hm Hk. eapply safe_bind; [by apply wk_frame|done]. Qed.

(** What is kept along the way. *)
Lemma safe_keeps {A} (I : Store D -> Prop) (m : M D A) : closed I -> wk m -> keeps I m.
Proof. intros Hc Hm w HI. destruct (Hm I (placed w) w Hc) as [[H _] _]; [|done|done]. split; [done|]. exists []. by rewrite app_nil_r. Qed.
End Logic.

Create HintDb wk discriminated.
#[export] Hint Constants Opaque : wk.
#[export] Hint Variables Opaque : wk.
#[export] Hint Resolve wk_ret wk_tick wk_timeNow ek_eret ek_get ek_set : wk.
Ltac wk_step :=
  match goal with
  | |- wk (bind _ _) => apply wk_bind; [|intros ?]
  | |- ek (ebind _ _) => apply ek_bind; [|intros ?]
  | |- ek (etry _ _) => apply ek_etry; [|intros ?]
  | |- ek (elift _) => apply ek_lift
  | |- wk (let _ := _ in _) => cbv zeta
  | |- ek (let _ := _ in _) => cbv zeta
  | |- wk (match ?x with _ => _ end) => destruct x
  | |- ek (match ?x with _ => _ end) => destruct x
  | |- _ => solve [eauto 3 with wk]
  end.
Ltac wk_tac := repeat wk_step.

(** ** The operations of the store and the venues *)

Section Leaves.
Context {D : Type} `{!Decimal D} `{!DecimalLaws D} `{!Postgres D} `{!Env D} `{svc : !Services} `{str : !OrderStreams} `{uu : !Uuids}
  `{ecfg : !ExecutorConfig} `{esur : !ExecutorSurroundings} `{rely_rows : !OrdersKept D}.

(** *** Reads *)

Lemma wk_owner o id : wk (GetArbitrageCombinationByOwner o id).
Proof. apply (wk_read (fun _ st => _)). Qed.
Lemma wk_active id : wk (GetActiveArbitrageExecution id).
Proof. apply (wk_read (fun _ st => _)). Qed.
Lemma wk_executions id n : wk (ListArbitrageExecutions id n).
Proof. apply (wk_read (fun _ st => _)). Qed.
Lemma wk_residualGet id : wk (GetLastCloseResidualFlattenExecution id).
Proof. unfold GetLastCloseResidualFlattenExecution. case_match; [apply wk_ret|]. apply (wk_read (fun _ st => _)). Qed.
Lemma wk_getByOwner o id : wk (GetByOwner o id).
Proof. apply (wk_read (fun _ st => _)). Qed.
Lemma wk_getOrder P : wk (getOrder P).
Proof. apply (wk_read (fun _ st => _)). Qed.

(** The orders that are listed are in the table. *)
Definition listed (r : Result (list Order)) (st : Store D) : Prop :=
  match r with Ok l => Forall (fun o => recorded (intentOf o) st) l | Err _ => True end.
Lemma safe_orders o id : safe (fun _ => True) (ListArbitrageOrders o id) listed.
Proof.
  apply (safe_read (fun _ st => _)); [done|]. intros _ st. cbn. apply List.Forall_forall. unfold ordersOf. intros x Hx.
  apply in_map_iff in Hx as (row & <- & Hrow). apply list_elem_of_In in Hrow. rewrite (merge_sort_Permutation newerOrder) in Hrow.
  apply list_elem_of_In, filter_In in Hrow as [Hrow _]. apply filter_In in Hrow as [Hrow _].
  apply in_map_iff in Hrow as ([k row'] & E & Hin). cbn in E. subst row'. apply list_elem_of_In, elem_of_map_to_list in Hin. by exists k, row.
Qed.
Lemma wk_orders o id : wk (ListArbitrageOrders o id).
Proof. by eapply safe_wk; [apply safe_orders|]. Qed.

(** *** Writes *)

Lemma wk_event id x e : wk (AppendArbitrageEvent id x e).
Proof. apply wk_sql. intros t st r st'. apply move_event. Qed.
Lemma wk_orNotFound m : wk m -> wk (orNotFound m).
Proof. intros H. unfold orNotFound. wk_tac. Qed.
#[local] Hint Resolve wk_event : wk.
Lemma wk_orUnmarked id e m : wk m -> wk (orUnmarked id e m).
Proof. intros H. unfold orUnmarked. wk_tac. Qed.
Ltac wk_life c := apply wk_sql; intros t st r st' E; eapply move_combination; [exact E|eapply c; exact E].
Lemma wk_runtime item : wk (UpdateArbitrageCombinationRuntime item).
Proof. apply wk_orNotFound. wk_life life_runtime. Qed.
Lemma wk_failure id m : wk (RecordArbitrageFailure id m).
Proof. apply wk_orNotFound. wk_life life_failure. Qed.
Lemma wk_closeFailure id k m : wk (RecordArbitrageCloseFailure id k m).
Proof. apply wk_orNotFound. wk_life life_closeFailure. Qed.
Lemma wk_clear id e : wk (ClearArbitrageFailureIfUnchanged id e).
Proof. apply wk_orNotFound. wk_life life_clear. Qed.
Lemma wk_fromBase id m d : wk (UpdateArbitragePositionFromBase id m d).
Proof. apply wk_orNotFound. wk_life life_fromBase. Qed.
Lemma wk_exited id v : wk (MarkOneShotExited id v).
Proof. apply wk_orUnmarked. wk_life life_exited. Qed.
Lemma wk_dust id v a b c : wk (MarkOneShotExitedWithDust id v a b c).
Proof. unfold MarkOneShotExitedWithDust. repeat case_match; try apply wk_ret. apply wk_orUnmarked. wk_life life_dust. Qed.
Lemma wk_closed id v : wk (MarkArbitrageClosedAndScheduleFinalMetrics id v).
Proof. unfold MarkArbitrageClosedAndScheduleFinalMetrics. apply wk_bind; [wk_life life_closed|]. intros [[c|]|e]; apply wk_ret. Qed.
Lemma wk_execution x : wk (UpdateArbitrageExecution x).
Proof.
  unfold UpdateArbitrageExecution. apply wk_bind; [apply wk_sql; intros t st r st'; apply move_execution|]. intros [[x'|]|e]; [apply wk_ret| |apply wk_ret].
  apply wk_bind; [apply (wk_read (fun _ st => _))|]. intros r. apply wk_ret.
Qed.
Lemma wk_recompute e : wk (RecomputeArbitrageBasePositionsForExecution e).
Proof. unfold RecomputeArbitrageBasePositionsForExecution. case_match; [apply wk_ret|]. apply wk_sql. intros t st r st'. apply move_recompute. Qed.
Lemma wk_recomputeAll id : wk (RecomputeArbitrageBasePositions id).
Proof. unfold RecomputeArbitrageBasePositions. case_match; [apply wk_ret|]. apply wk_sql. intros t st r st'. apply move_positions. Qed.
Lemma wk_finalizeTx e : wk (sql (finalizeTransaction e)).
Proof. apply wk_sql. intros t st r st'. apply move_finalizeAbsent. Qed.
Lemma wk_unbalanced c e fa fb rem : wk (FailLastCloseClipUnbalanced c e fa fb rem).
Proof. unfold FailLastCloseClipUnbalanced. case_match; [apply wk_ret|]. apply wk_sql. intros t st r st'. apply move_unbalanced. Qed.
Lemma wk_finalizeFlatten e : wk (FinalizeOneShotFinalFlattenExecution e).
Proof. unfold FinalizeOneShotFinalFlattenExecution. case_match; [apply wk_ret|]. apply wk_sql. intros t st r st'. apply move_finalizeFlatten. Qed.
Lemma wk_dustClose request : wk (CloseLastCloseResidualWithDust request).
Proof. unfold CloseLastCloseResidualWithDust. repeat case_match; try apply wk_ret. apply wk_sql. intros t st r st'. apply move_dustClose. Qed.
Lemma wk_blocked id x e : wk (RecordLastCloseRecoveryBlocked id x e).
Proof. unfold RecordLastCloseRecoveryBlocked. repeat case_match; try apply wk_ret. apply wk_sql. intros t st r st'. apply move_markOnce. Qed.
Lemma wk_recovered id x : wk (RecordLastCloseResidualRecovered id x).
Proof. unfold RecordLastCloseResidualRecovered. repeat case_match; try apply wk_ret. apply wk_sql. intros t st r st'. apply move_markOnce. Qed.
Lemma wk_completeRecovery request : wk (CompleteCircuitOpenRecovery request).
Proof.
  unfold CompleteCircuitOpenRecovery. cbv zeta. wk_tac. apply wk_sql. intros t st r st' E. by eapply move_circuit, circuit_complete.
Qed.
Lemma wk_claimRecovery in_ : wk (ClaimCircuitRecoveryExecution in_).
Proof.
  unfold ClaimCircuitRecoveryExecution. cbv zeta. wk_tac. apply wk_sql. intros t st r st' E. by eapply move_circuit, circuit_claim.
Qed.
Lemma wk_external request : wk (ApplyCircuitOpenExternalReconcile request).
Proof.
  unfold ApplyCircuitOpenExternalReconcile. wk_tac. apply wk_sql. intros t st r st' E. by eapply move_circuit, circuit_external.
Qed.
Lemma wk_nameOrders orders : wk (nameOrders orders).
Proof. induction orders as [|o orders IH]; cbn [nameOrders]; wk_tac. Qed.
#[local] Hint Resolve wk_nameOrders : wk.
Lemma wk_residualClaim claim : wk (ClaimLastCloseResidualFlattenExecution claim).
Proof.
  unfold ClaimLastCloseResidualFlattenExecution. cbv zeta. wk_tac. apply wk_sql. intros t st r st'. apply move_residual.
Qed.
Lemma wk_AppendEvent o e : wk (AppendEvent o e).
Proof. apply wk_sql. intros t st r st'. apply move_AppendEvent. Qed.
Lemma wk_defer o t : wk (DeferReconcile o t).
Proof. apply wk_sql. intros t0 st r st'. apply move_defer. Qed.
#[local] Hint Resolve wk_AppendEvent : wk.
Lemma wk_applyOrderUpdate o result eventAt receivedAt stream fills skip : wk (applyOrderUpdate o result eventAt receivedAt stream fills skip).
Proof.
  unfold applyOrderUpdate. apply wk_bind.
  - apply safe_transact. intros n fault st. split; [|done]. eapply move_apply, surjective_pairing.
  - intros [[updated changed]|e]; [|apply wk_ret]. case_match; [apply wk_ret|].
    apply wk_bind; [apply wk_sql; intros t st r st'; apply move_refresh|]. intros r. apply wk_ret.
Qed.
#[local] Hint Resolve wk_applyOrderUpdate : wk.
Lemma wk_UpdateResult o r : wk (UpdateResult o r).
Proof. unfold UpdateResult, UpdateResultWithFillDelta. wk_tac. Qed.
Lemma wk_ApplyStreamUpdate o u : wk (ApplyStreamUpdate o u).
Proof. unfold ApplyStreamUpdate. wk_tac. Qed.
#[local] Hint Resolve wk_UpdateResult : wk.

(** Intents: what is returned is in the table. *)
Definition stored (r : Result (Order * bool)) (st : Store D) : Prop :=
  match r with Ok (o, _) => recorded (intentOf o) st | Err _ => True end.
Lemma safe_CreateIntent o : safe (fun _ => True) (CreateIntent o) stored.
Proof.
  unfold CreateIntent. eapply safe_bind; [apply wk_tick|]. intros n. cbv zeta. eapply safe_bind; [apply wk_tick|]. intros m. cbv zeta.
  set (order := if o_ClientOrderID _ =?s "" then _ else _). clearbody order.
  eapply (safe_bind _ _ _ (fun r st => match r with Ok (Some s) => recorded (intentOf s) st | _ => True end)).
  - apply safe_sql; [done|]. intros t st r st'. apply move_create.
  - intros [[s|]|e]; [| |by apply safe_ret].
    + apply safe_skip; [apply closed_recorded|apply wk_AppendEvent|]. intros [u|e]; apply safe_ret; intros st H; [exact H|exact Logic.I].
    + eapply (safe_bind _ _ _ (fun r st => match r with Ok s => recorded (intentOf s) st | Err _ => True end)).
      * apply (safe_weaken _ (fun _ => True) _ (fun r st => match r with Ok s => recorded (intentOf s) st | Err _ => True end)); [|done|done].
        apply (safe_read (fun _ st => _)); [done|]. intros _ st. destruct (findOrder _ _) as [row|] eqn:Ef; [|done].
        unfold findOrder in Ef. apply find_some in Ef as [Ef _]. apply in_map_iff in Ef as ([k row'] & E & Hin). cbn in E. subst row'.
        apply list_elem_of_In, elem_of_map_to_list in Hin. by exists k, row.
      * intros [s|e]; apply safe_ret; intros st H; exact H.
Qed.
Lemma safe_CreateIntents orders :
  safe (fun _ => True) (CreateArbitrageIntents orders)
    (fun r st => match r with Ok l => Forall (fun p => recorded (intentOf (fst p)) st) l | Err _ => True end).
Proof.
  unfold CreateArbitrageIntents. case_match; [by apply safe_ret|]. eapply safe_bind; [apply wk_nameOrders|]. intros named.
  apply safe_sql; [done|]. intros t st r st'. apply move_intents.
Qed.
Lemma safe_PrepareHedge input :
  safe (fun _ => True) (PrepareArbitrageHedgeIntent input) (fun r st => match r with Ok p => recorded (intentOf (pr_Order p)) st | Err _ => True end).
Proof.
  unfold PrepareArbitrageHedgeIntent. cbv zeta. case_match; [by apply safe_ret|]. eapply safe_bind; [apply wk_tick|]. intros n.
  eapply safe_bind; [apply wk_tick|]. intros m. apply safe_sql; [done|]. intros t st r st'. apply move_hedge.
Qed.

(** *** Venues *)

Lemma wk_callCatalog id : wk (callCatalog id).
Proof. unfold callCatalog. wk_tac. Qed.
Lemma wk_callResolve ex a i o : wk (callResolve ex a i o).
Proof. unfold callResolve. wk_tac. Qed.
Lemma wk_callCancel ex a r : wk (callCancel ex a r).
Proof. unfold callCancel. apply wk_bind; [by apply wk_recordCall|]. intros u. wk_tac. Qed.
Lemma wk_bindIDs o : wk (bindHyperliquidOrderIDs o).
Proof. unfold bindHyperliquidOrderIDs. wk_tac. by apply wk_recordCall. Qed.
#[local] Hint Resolve wk_callCatalog wk_callResolve wk_callCancel wk_bindIDs : wk.
Lemma wk_persistResult o e r : wk (persistResult o e r).
Proof. unfold persistResult. wk_tac. Qed.
#[local] Hint Resolve wk_persistResult : wk.
Lemma wk_persistUncertain o e r err : wk (persistUncertain o e r err).
Proof. unfold persistUncertain. wk_tac. Qed.
#[local] Hint Resolve wk_persistUncertain : wk.
Lemma wk_recover ex a i o : wk (recover ex a i o).
Proof. unfold recover. wk_tac. Qed.
#[local] Hint Resolve wk_recover : wk.

(** A submission sends the order it is given. *)
Lemma safe_place_order ex a i o tif post skip : safe (recorded (intentOf o)) (placeSubmittedOrder ex a i o tif post skip) (fun _ _ => True).
Proof.
  unfold placeSubmittedOrder. apply safe_skip; [apply closed_recorded|destruct skip; wk_tac|]. intros u.
  apply (safe_bind _ _ _ (fun _ _ => True)); [|intros answer; apply wk_safe; wk_tac].
  unfold callPlace. apply (safe_bind _ _ _ (fun _ _ => True)); [|intros v; apply wk_safe; wk_tac].
  exact (safe_place _ (mkOrderRequest (toVenueInstrument i) (o_ClientOrderID o) (o_Side o) (o_OrderType o) (o_Quantity o) (o_Price o) tif post (o_ReduceOnly o))).
Qed.
End Leaves.

#[export] Hint Resolve wk_owner wk_active wk_executions wk_residualGet wk_getByOwner wk_getOrder wk_orders wk_event wk_runtime wk_failure wk_closeFailure
  wk_clear wk_fromBase wk_exited wk_dust wk_closed wk_execution wk_recompute wk_recomputeAll wk_finalizeTx wk_unbalanced wk_finalizeFlatten wk_dustClose
  wk_blocked wk_recovered wk_completeRecovery wk_claimRecovery wk_external wk_residualClaim wk_AppendEvent wk_defer wk_UpdateResult wk_ApplyStreamUpdate wk_callCatalog wk_callResolve
  wk_callCancel wk_bindIDs wk_persistResult wk_persistUncertain wk_recover : wk.

(** ** The run *)

Section Runs.
Context {D : Type} `{!Decimal D} `{!DecimalLaws D} `{!Postgres D} `{!Env D} `{svc : !Services} `{str : !OrderStreams} `{uu : !Uuids}
  `{ecfg : !ExecutorConfig} `{esur : !ExecutorSurroundings} `{rely_rows : !OrdersKept D}.

(** *** One order (Executor.v) *)

Lemma ek_execution : ek execution.
Proof. unfold execution. wk_tac. Qed.
Lemma ek_setExecution x : ek (setExecution x).
Proof. apply ek_set. Qed.
Lemma ek_theCombination : ek theCombination.
Proof. unfold theCombination. wk_tac. Qed.
Lemma ek_setTheCombination c : ek (setTheCombination c).
Proof. apply ek_set. Qed.
Lemma ek_enow : ek enow.
Proof. unfold enow. wk_tac. Qed.
#[local] Hint Resolve ek_execution ek_setExecution ek_theCombination ek_setTheCombination ek_enow : wk.
Lemma wk_contextErr cx : wk (contextErr cx).
Proof. unfold contextErr. wk_tac. Qed.
Lemma ek_appendExecutionEvent id x e : ek (appendExecutionEvent id x e).
Proof. unfold appendExecutionEvent. wk_tac. Qed.
Lemma ek_saveExecution : ek saveExecution.
Proof. unfold saveExecution. wk_tac. Qed.
#[local] Hint Resolve wk_contextErr ek_appendExecutionEvent ek_saveExecution : wk.
Lemma ek_saveStatus st : ek (saveStatus st).
Proof. unfold saveStatus. wk_tac. Qed.
Lemma wk_dependencies o leg : wk (executionDependencies o leg).
Proof. unfold executionDependencies. wk_tac. Qed.
Lemma wk_warm d : wk (warmArbitrageOrderTransport d).
Proof. unfold warmArbitrageOrderTransport. wk_tac. Qed.
Lemma wk_latest leg : wk (latestForLeg leg).
Proof. unfold latestForLeg. wk_tac. Qed.
Lemma ek_spotSnapshot leg c : ek (bidSpotSnapshot leg c).
Proof. unfold bidSpotSnapshot. wk_tac. Qed.
#[local] Hint Resolve ek_saveStatus wk_dependencies wk_warm wk_latest ek_spotSnapshot : wk.
Lemma ek_prefetchSpot legs : ek (prefetchSpot legs).
Proof. induction legs as [|[leg d] legs IH]; cbn [prefetchSpot]; wk_tac. Qed.
#[local] Hint Resolve ek_prefetchSpot : wk.
Lemma ek_prefetch legs : ek (prefetchReduceSpotSnapshots legs).
Proof. unfold prefetchReduceSpotSnapshots. wk_tac. Qed.
Lemma wk_subscribe d : wk (subscribeOrders d).
Proof. unfold subscribeOrders. wk_tac. Qed.
Lemma wk_watchOrder s a o : wk (watchOrder s a o).
Proof. unfold watchOrder. wk_tac. Qed.
Lemma wk_streamState s : wk (streamState s).
Proof. unfold streamState. wk_tac. Qed.
Lemma wk_query d o : wk (queryInternal d o).
Proof. unfold queryInternal. wk_tac. Qed.
Lemma wk_cancel d o : wk (cancelInternal d o).
Proof. unfold cancelInternal. wk_tac. Qed.
Lemma wk_applyUpdate i o u : wk (applyOrderStreamUpdate i o u).
Proof. unfold applyOrderStreamUpdate. wk_tac. Qed.
#[local] Hint Resolve ek_prefetch wk_subscribe wk_watchOrder wk_streamState wk_query wk_cancel wk_applyUpdate : wk.
Lemma wk_observeTimedOut d o : wk (observeTimedOut d o).
Proof. unfold observeTimedOut. wk_tac. Qed.
Lemma wk_observeREST d s o : wk (observeREST d s o).
Proof. unfold observeREST. wk_tac. Qed.
#[local] Hint Resolve wk_observeTimedOut wk_observeREST : wk.
Lemma wk_observeLoop cx d sub events s : wk (observeLoop cx d sub events s).
Proof. revert s. induction events as [|e events IH]; intros s; cbn [observeLoop]; wk_tac. Qed.
#[local] Hint Resolve wk_observeLoop : wk.
Lemma wk_observe cx d o ob : wk (observeToTerminal cx d o ob).
Proof. unfold observeToTerminal. wk_tac. Qed.
#[local] Hint Resolve wk_observe : wk.
Lemma wk_settle cx d o ob : wk (settleCanceledOrder cx d o ob).
Proof. unfold settleCanceledOrder. wk_tac. Qed.
Lemma ek_refresh c : ek (refreshArbitragePositions c).
Proof. unfold refreshArbitragePositions. wk_tac. Qed.
Lemma ek_park c o : ek (parkMakerReconciling c o).
Proof. unfold parkMakerReconciling. wk_tac. Qed.
Lemma ek_makerState s c : ek (persistMakerState s c).
Proof. unfold persistMakerState. wk_tac. Qed.
Lemma ek_deferredDust c : ek (persistHedgeDeferredDust c).
Proof. unfold persistHedgeDeferredDust. wk_tac. Qed.
Lemma ek_applyMakerFill l o : ek (applyMakerFill l o).
Proof. unfold applyMakerFill. wk_tac. Qed.
#[local] Hint Resolve wk_settle ek_refresh ek_park ek_makerState ek_deferredDust ek_applyMakerFill : wk.
Lemma ek_applyFill l o : ek (applyFill l o).
Proof. unfold applyFill. wk_tac. Qed.
Lemma ek_yield : ek yieldPermit.
Proof. apply ek_set. Qed.
Lemma ek_acquire : ek acquireMakerWork.
Proof. unfold acquireMakerWork. wk_tac. Qed.
Lemma wk_generation ob : wk (snapshotCancelGeneration ob).
Proof. exact (wk_streamState _). Qed.
Lemma wk_generationChanged g ob : wk (cancelGenerationChanged g ob).
Proof. unfold cancelGenerationChanged. wk_tac. Qed.
#[local] Hint Resolve ek_applyFill ek_yield ek_acquire wk_generation wk_generationChanged : wk.
Lemma wk_needsREST e ob g : wk (makerCancelNeedsImmediateREST e ob g).
Proof. unfold makerCancelNeedsImmediateREST. wk_tac. Qed.
Lemma ek_confirmREST c l d o : ek (confirmMakerCancelByRESTOnce c l d o).
Proof. unfold confirmMakerCancelByRESTOnce. wk_tac. Qed.
#[local] Hint Resolve wk_needsREST ek_confirmREST : wk.
Lemma ek_awaitCancelLoop cx c l d ob g events o : ek (awaitCancelLoop cx c l d ob g events o).
Proof. revert o. induction events as [|e events IH]; intros o; cbn [awaitCancelLoop]; wk_tac. Qed.
#[local] Hint Resolve ek_awaitCancelLoop : wk.
Lemma ek_awaitCancel cx c l d o ob g e : ek (awaitCancelTerminal cx c l d o ob g e).
Proof. unfold awaitCancelTerminal. wk_tac. Qed.
#[local] Hint Resolve ek_awaitCancel : wk.
Lemma ek_finishMakerCancel cx c l d o e ob g : ek (finishMakerCancel cx c l d o e ob g).
Proof. unfold finishMakerCancel, restoreMakerOpen. wk_tac. Qed.
#[local] Hint Resolve ek_finishMakerCancel : wk.
Lemma ek_cancelMakerOnce cx c l d o ob : ek (cancelMakerOnce cx c l d o ob).
Proof. unfold cancelMakerOnce, persistMakerCanceling. wk_tac. Qed.
Lemma wk_stay cx e : wk (stayObservingMaker cx e).
Proof. unfold stayObservingMaker. wk_tac. Qed.
#[local] Hint Resolve ek_cancelMakerOnce wk_stay : wk.
Lemma ek_cancelMaker cx w o : ek (cancelMaker cx w o).
Proof. unfold cancelMaker. wk_tac. Qed.
#[local] Hint Resolve ek_cancelMaker : wk.
Lemma ek_cancelObserved cx w o : ek (cancelObservedMaker cx w o).
Proof. unfold cancelObservedMaker. wk_tac. Qed.
Lemma ek_makerREST w s : ek (makerREST w s).
Proof. unfold makerREST. wk_tac. Qed.
Lemma ek_cancelFor cx w outcome s again : (forall s, ek (again s)) -> ek (cancelFor cx w outcome s again).
Proof. intros H. unfold cancelFor. wk_tac. Qed.
#[local] Hint Resolve ek_cancelObserved ek_makerREST ek_cancelFor : wk.
Lemma ek_makerCheck cx w s again : (forall s, ek (again s)) -> ek (makerCheck cx w s again).
Proof. intros H. unfold makerCheck. wk_tac. Qed.
#[local] Hint Resolve ek_makerCheck : wk.
Lemma ek_observeMakerLoop cx w events s : ek (observeMakerLoop cx w events s).
Proof. revert s. induction events as [|e events IH]; intros s; cbn [observeMakerLoop]; wk_tac. Qed.
#[local] Hint Resolve ek_observeMakerLoop : wk.
Lemma ek_observeMaker cx w o : ek (observeMaker cx w o).
Proof. unfold observeMaker. wk_tac. Qed.
#[local] Hint Resolve ek_observeMaker : wk.

(** *** Hedges (ExecHedge.v) *)

Lemma ek_dustHandoff c e orders : ek (completeLastClipDustHandoff c e orders).
Proof. unfold completeLastClipDustHandoff. wk_tac. Qed.
#[local] Hint Resolve ek_dustHandoff : wk.
Lemma ek_handoff c e : ek (maybeHandoffLastClipHedgeMinNotional c e).
Proof. unfold maybeHandoffLastClipHedgeMinNotional. wk_tac. Qed.
#[local] Hint Resolve ek_handoff : wk.
Lemma ek_handoffOr c e : ek (handoffOr c e).
Proof. unfold handoffOr. wk_tac. Qed.
Lemma wk_reusable c x : wk (reusableHedgeAttempt c x).
Proof. unfold reusableHedgeAttempt. wk_tac. Qed.
Lemma ek_emergencyDue timing : ek (emergencyDue timing).
Proof. unfold emergencyDue. wk_tac. Qed.
#[local] Hint Resolve ek_handoffOr wk_reusable ek_emergencyDue : wk.

(** A submission in a run, for an order that is recorded. *)
Lemma es_submit {B} ex a i o tif post skip (k : Order * option GoError -> E D B) :
  (forall r, ek (k r)) -> esafe (recorded (intentOf o)) (ebind (elift (placeSubmittedOrder ex a i o tif post skip)) k) (fun _ _ => True).
Proof. intros Hk. eapply es_bind; [apply es_lift, safe_place_order|]. intros r. by apply ek_es. Qed.

Lemma es_hedgeDispatch hv c p : esafe (recorded (intentOf (pr_Order p))) (hedgeDispatch hv c p) (fun _ _ => True).
Proof.
  unfold hedgeDispatch, submitPrepared. destruct (pr_Created p); [apply es_submit; intros [o e]; wk_tac|]. apply ek_es. wk_tac.
Qed.
Lemma ek_hedgeObserve cx hv (target : D) timing s watch o : ek (hedgeObserve cx hv target timing s watch o).
Proof. unfold hedgeObserve. wk_tac. Qed.
#[local] Hint Resolve ek_hedgeObserve : wk.

(** A prepared hedge is recorded until it is dispatched. *)
Lemma ek_prepared {B} input (k : Result PrepareHedgeResult -> E D B) :
  (forall e, ek (k (Err e))) -> (forall p, esafe (recorded (intentOf (pr_Order p))) (k (Ok p)) (fun _ _ => True)) ->
  ek (ebind (elift (PrepareArbitrageHedgeIntent input)) k).
Proof.
  intros He Hk. apply (es_ek _ (fun _ => True) (fun _ _ => True)); [|done]. eapply es_bind; [apply es_lift, safe_PrepareHedge|].
  intros [p|e]; [apply Hk|by apply ek_es].
Qed.
Lemma ek_hedgeAttempt cx hv side (target : D) timing admission first s : ek (hedgeAttempt cx hv side target timing admission first s).
Proof.
  unfold hedgeAttempt. cbv zeta. apply ek_bind; [wk_tac|]. intros [latest|e]; [|wk_tac]. destruct (negb _); [wk_tac|].
  destruct (normalizeHedgeIOCPrice _ _ _); [|wk_tac]. apply ek_bind; [wk_tac|]. intros x. destruct (prepareArbitrageOrder _ _ _ _ _ _) as [[q p]|e]; [|wk_tac].
  apply ek_prepared; [intros e; wk_tac|]. intros prepared. apply es_skip; [apply closed_recorded|wk_tac|]. intros u.
  apply es_skip; [apply closed_recorded|wk_tac|]. intros watch. eapply es_bind; [apply es_hedgeDispatch|]. intros [o e]. apply ek_es. wk_tac.
Qed.
#[local] Hint Resolve ek_hedgeAttempt : wk.
Lemma ek_hedgeLoop cx hv side (target : D) timing admission retries first s : ek (hedgeLoop cx hv side target timing admission retries first s).
Proof. revert first s. induction retries as [|n IH]; intros first s; cbn [hedgeLoop]; wk_tac. Qed.
#[local] Hint Resolve ek_hedgeLoop : wk.
Lemma es_emergencyDispatch hv c x p : esafe (recorded (intentOf (pr_Order p))) (emergencyDispatch hv c x p) (fun _ _ => True).
Proof.
  unfold emergencyDispatch, submitPrepared. destruct (pr_Created p); [apply es_submit; intros [o e]; wk_tac|]. apply ek_es. wk_tac.
Qed.
Lemma ek_emergency cx hv c side (remaining : D) : ek (submitEmergencyHedge cx hv c side remaining).
Proof.
  unfold submitEmergencyHedge. cbv zeta. apply ek_bind; [wk_tac|]. intros [latest|e]; [|wk_tac]. apply ek_bind; [wk_tac|]. intros x.
  destruct (emergencyQuantity _ _ _ _ _ _) as [e|q]; [wk_tac|]. apply ek_bind; [wk_tac|]. intros u.
  apply ek_prepared; [intros e; wk_tac|]. intros prepared. apply es_skip; [apply closed_recorded|wk_tac|]. intros v.
  apply es_skip; [apply closed_recorded|wk_tac|]. intros watch. eapply es_bind; [apply es_emergencyDispatch|]. intros [o e]. apply ek_es. wk_tac.
Qed.
#[local] Hint Resolve ek_emergency : wk.
Lemma ek_hedgeIOC cx hv c side (target : D) timing admission : ek (hedgeIOCTimed cx hv c side target timing admission).
Proof. unfold hedgeIOCTimed. wk_tac. Qed.
Lemma ek_deferDust : ek deferDust.
Proof. unfold deferDust. wk_tac. Qed.
#[local] Hint Resolve ek_hedgeIOC ek_deferDust : wk.
Lemma ek_finishHedgeCarry leg i (filled : D) e u : ek (finishHedgeCarry leg i filled e u).
Proof. unfold finishHedgeCarry. wk_tac. Qed.
Lemma ek_spotBound leg d side : ek (spotBound leg d side).
Proof. unfold spotBound. wk_tac. Qed.
#[local] Hint Resolve ek_finishHedgeCarry ek_spotBound : wk.
Lemma ek_boundedCarry hv c side (target price : D) skip : ek (boundedCarry hv c side target price skip).
Proof. unfold boundedCarry. wk_tac. Qed.
Lemma ek_settleHedge cx hv : ek (settleHedgeOrder cx hv).
Proof. unfold settleHedgeOrder. wk_tac. Qed.
Lemma ek_carryQuantity cx hv side (q : D) timing : ek (hedgeCarryQuantity cx hv side q timing).
Proof. unfold hedgeCarryQuantity. wk_tac. Qed.
#[local] Hint Resolve ek_boundedCarry ek_settleHedge ek_carryQuantity : wk.
Lemma ek_carryTiming cx hv timing : ek (hedgeCarryWithTiming cx hv timing).
Proof. unfold hedgeCarryWithTiming. wk_tac. Qed.
#[local] Hint Resolve ek_carryTiming : wk.
Lemma ek_hedgeCarry cx hv t : ek (hedgeCarry cx hv t).
Proof. unfold hedgeCarry. wk_tac. Qed.
Lemma ek_makerHedgeQuantity hv c x side latest (remaining : D) : ek (makerHedgeQuantity hv c x side latest remaining).
Proof. unfold makerHedgeQuantity. wk_tac. Qed.
Lemma ek_hedgeMakerQuantity cx hv side (q m h : D) timing : ek (hedgeMakerQuantity cx hv side q m h timing).
Proof. unfold hedgeMakerQuantity. wk_tac. Qed.
#[local] Hint Resolve ek_hedgeCarry ek_makerHedgeQuantity ek_hedgeMakerQuantity : wk.
Lemma ek_hedgeMakerCarry cx hv side timing : ek (hedgeMakerCarryWithDeadline cx hv side timing).
Proof. unfold hedgeMakerCarryWithDeadline. wk_tac. Qed.
Lemma ek_requireTerminal c : ek (requireExecutionOrdersTerminal c).
Proof. unfold requireExecutionOrdersTerminal. wk_tac. Qed.
Lemma ek_allocatedFills c orders : ek (applyLastCloseClipAllocatedFills c orders).
Proof. unfold applyLastCloseClipAllocatedFills. wk_tac. Qed.
Lemma wk_accountSnapshot c : wk (circuitOpenAccountSnapshot c).
Proof. unfold circuitOpenAccountSnapshot. wk_tac. Qed.
Lemma wk_mark leg s : wk (circuitOpenMark leg s).
Proof. unfold circuitOpenMark. wk_tac. Qed.
#[local] Hint Resolve ek_hedgeMakerCarry ek_requireTerminal ek_allocatedFills wk_accountSnapshot wk_mark : wk.
Lemma wk_readAccounts c dA dB : wk (readAccounts c dA dB).
Proof. unfold readAccounts. wk_tac. Qed.
Lemma wk_bothDependencies c : wk (bothDependencies c).
Proof. unfold bothDependencies. wk_tac. Qed.
#[local] Hint Resolve wk_readAccounts wk_bothDependencies : wk.
Lemma ek_finishRecovery c (mark : D) : ek (finishCircuitRecoveryExecution c mark).
Proof. unfold finishCircuitRecoveryExecution. wk_tac. Qed.
Lemma ek_completePositions c (fa fb mark : D) : ek (completePositions c fa fb mark).
Proof. unfold completePositions. wk_tac. Qed.
#[local] Hint Resolve ek_finishRecovery ek_completePositions : wk.
Lemma ek_complete cx c (mark : D) : ek (completeExecution cx c mark).
Proof. unfold completeExecution. wk_tac. Qed.
Lemma ek_recordBlocked c e : ek (recordLastCloseRecoveryBlocked c e).
Proof. unfold recordLastCloseRecoveryBlocked. wk_tac. Qed.
Lemma ek_parkClip c : ek (parkLastCloseClipReconciling c).
Proof. unfold parkLastCloseClipReconciling. wk_tac. Qed.
#[local] Hint Resolve ek_complete ek_recordBlocked ek_parkClip : wk.
Lemma ek_completeMatched cx c alloc (mark : D) : ek (completeMatchedClip cx c alloc mark).
Proof. unfold completeMatchedClip. wk_tac. Qed.
#[local] Hint Resolve ek_completeMatched : wk.
Lemma ek_finishLocked cx c orders : ek (finishLockedLastCloseClip cx c orders).
Proof. unfold finishLockedLastCloseClip. wk_tac. Qed.
#[local] Hint Resolve ek_finishLocked : wk.
Lemma ek_recoverClip cx c : ek (recoverLastCloseClipClosing cx c).
Proof. unfold recoverLastCloseClipClosing. wk_tac. Qed.
#[local] Hint Resolve ek_recoverClip : wk.

(** *** A maker order that is hedged (ExecRun.v) *)

Lemma wk_makerSetup c plan : wk (makerSetup c plan).
Proof. unfold makerSetup. wk_tac. Qed.
Lemma ek_resumeHedge cx hedge : ek (resumeHedgeOrder cx hedge).
Proof. unfold resumeHedgeOrder. wk_tac. Qed.
Lemma ek_standalone cx plan hedge q a b : ek (standaloneCarry cx plan hedge q a b).
Proof. unfold standaloneCarry. wk_tac. Qed.
Lemma ek_closeBounded c plan maker hedge (step qty : D) : ek (closeBounded c plan maker hedge step qty).
Proof. unfold closeBounded. wk_tac. Qed.
#[local] Hint Resolve wk_makerSetup ek_resumeHedge ek_standalone ek_closeBounded : wk.
Lemma ek_makerQuantity plan maker hedge skip (p s : D) : ek (makerQuantity plan maker hedge skip p s).
Proof. unfold makerQuantity. wk_tac. Qed.
#[local] Hint Resolve ek_makerQuantity : wk.

(** A maker order that this run created is recorded. *)
Definition makerRecorded (m : MakerOrder D) (st : Store D) : Prop := mk_created m = true -> recorded (intentOf (mk_stored m)) st.
Lemma closed_maker m : closed (makerRecorded m).
Proof. destruct (closed_recorded (intentOf (mk_stored m))) as [H1 H2]. split; unfold makerRecorded; eauto. Qed.
Lemma es_makerOrder plan maker hedge skip :
  esafe (fun _ => True) (makerOrderOf plan maker hedge skip) (fun r st => match r with Ok m => makerRecorded m st | Err _ => True end).
Proof.
  unfold makerOrderOf. eapply es_bind; [apply ek_es, ek_theCombination|]. intros c. eapply es_bind; [apply ek_es, ek_execution|]. intros x. cbv zeta.
  destruct (negb (dIsPositive _)); [by apply es_eret|]. destruct (negb (_ =?s "")).
  - eapply es_bind; [apply ek_es, ek_lift, wk_getByOwner|]. intros [o|e]; by apply es_eret.
  - unfold etry at 1. eapply es_bind; [apply ek_es, ek_makerQuantity|]. intros [qty|e]; [|by apply es_eret].
    eapply es_bind; [apply ek_es, ek_execution|]. intros x1. eapply es_bind; [apply ek_es, ek_set|]. intros u.
    destruct (prepareArbitrageOrder _ _ _ _ _ _) as [[q p]|e]; [|by apply es_eret].
    unfold etry. eapply es_bind; [apply es_lift, safe_CreateIntent|]. intros [[o created]|e]; [|by apply es_eret].
    apply es_eret. intros st Ho. destruct created; cbn; [by intros _|]. by intros H.
Qed.
Lemma ek_openMaker m : ek (openMaker m).
Proof. unfold openMaker. wk_tac. Qed.
Lemma es_submitMaker maker m : esafe (makerRecorded m) (submitMaker maker m) (fun _ _ => True).
Proof.
  unfold submitMaker, submitWithOptions. cbv zeta. destruct (mk_created m) eqn:Hc.
  - eapply es_pre; [|apply es_submit; intros [o e]; wk_tac]. intros st H. by apply H.
  - apply ek_es. wk_tac.
Qed.
Lemma ek_watchMaker cx plan maker (m : MakerOrder D) ob o r : ek (watchMaker cx plan maker m ob o r).
Proof. unfold watchMaker. wk_tac. Qed.
Lemma ek_appendOutcome outcome : ek (appendOutcome outcome).
Proof. unfold appendOutcome. wk_tac. Qed.
Lemma ek_appendMakerTerminal : ek appendMakerTerminal.
Proof. unfold appendMakerTerminal. wk_tac. Qed.
#[local] Hint Resolve ek_openMaker ek_watchMaker ek_appendOutcome ek_appendMakerTerminal : wk.
Lemma ek_endUnfilled outcome (p : D) : ek (endUnfilledMaker outcome p).
Proof. unfold endUnfilledMaker. wk_tac. Qed.
Lemma ek_leftover o (a b : D) e : ek (completeLeftoverDust o a b e).
Proof. unfold completeLeftoverDust. wk_tac. Qed.
#[local] Hint Resolve ek_endUnfilled ek_leftover : wk.
Lemma ek_hedgeMaker hedge side o (a b p : D) : ek (hedgeMaker hedge side o a b p).
Proof. unfold hedgeMaker. wk_tac. Qed.
#[local] Hint Resolve ek_hedgeMaker : wk.
Lemma ek_makerSent cx plan maker hedge m (a b : D) ob o r : ek (makerSent cx plan maker hedge m a b ob o r).
Proof. unfold makerSent. wk_tac. Qed.
#[local] Hint Resolve ek_makerSent : wk.
Lemma ek_runMaker cx plan maker hedge skip (a b : D) : ek (runMaker cx plan maker hedge skip a b).
Proof.
  unfold runMaker. apply (es_ek _ (fun _ => True) (fun _ _ => True)); [|done]. eapply es_bind; [apply es_makerOrder|].
  intros [m|e]; [|apply ek_es; wk_tac]. apply es_skip; [apply closed_maker|wk_tac|]. intros [e|]; [apply ek_es; wk_tac|].
  apply es_skip; [apply closed_maker|wk_tac|]. intros watch. eapply es_bind; [apply es_submitMaker|]. intros r. apply ek_es. wk_tac.
Qed.
#[local] Hint Resolve ek_runMaker : wk.
Lemma ek_runPlan cx plan maker hedge a b : ek (runPlan cx plan maker hedge a b).
Proof. unfold runPlan. wk_tac. Qed.
#[local] Hint Resolve ek_runPlan : wk.
Lemma ek_makerThenHedge cx a b : ek (executeMakerThenHedge cx a b).
Proof. unfold executeMakerThenHedge. wk_tac. Qed.
#[local] Hint Resolve ek_makerThenHedge : wk.

(** *** Two market orders *)

Lemma ek_marketQuantities c x (a b : MarketLeg D) : ek (marketQuantities c x a b).
Proof. unfold marketQuantities. wk_tac. Qed.
Lemma safe_submitMarket v o created : safe (recorded (intentOf o)) (submitMarket v o created) (fun _ _ => True).
Proof.
  unfold submitMarket, submitWithOptions, submit, submitWithOptions. repeat case_match; try apply safe_place_order; apply wk_safe; wk_tac.
Qed.
Lemma safe_submitBoth (legA legB : MarketLeg D) a b :
  safe (fun st => recorded (intentOf (fst a)) st /\ recorded (intentOf (fst b)) st) (submitBoth legA legB a b) (fun _ _ => True).
Proof.
  assert (forall v o c v' o' c' (k : Order * option GoError -> Order * option GoError -> M D ((Order * option GoError) * (Order * option GoError))),
    (forall p q, wk (k p q)) -> safe (fun st => recorded (intentOf o) st /\ recorded (intentOf o') st)
      (bind (submitMarket v o c) (fun p => bind (submitMarket v' o' c') (fun q => k p q))) (fun _ _ => True)) as Hk.
  { intros v o c v' o' c' k Hk. eapply safe_bind; [apply safe_frame; [apply closed_recorded|apply safe_submitMarket]|]. intros p.
    eapply safe_pre; [intros st [_ H]; exact H|]. eapply safe_bind; [apply safe_submitMarket|]. intros q. by apply wk_safe. }
  unfold submitBoth. eapply safe_bind; [apply wk_frame; [apply closed_and; apply closed_recorded|apply wk_tick]|]. intros n. destruct (legBFirst n).
  - eapply safe_pre; [|apply Hk]; [by intros st []|]. intros p q. apply wk_ret.
  - apply Hk. intros p q. apply wk_ret.
Qed.
Lemma ek_hedgeMarketCarry (a b : MarketLeg D) : ek (hedgeMarketCarry a b).
Proof. unfold hedgeMarketCarry. wk_tac. Qed.
#[local] Hint Resolve ek_marketQuantities ek_hedgeMarketCarry : wk.
Lemma ek_settleMarket cx c (a b : MarketLeg D) wa wb sa sb : ek (settleMarket cx c a b wa wb sa sb).
Proof. unfold settleMarket. wk_tac. Qed.
#[local] Hint Resolve ek_settleMarket : wk.
Lemma ek_runMarket cx c (legA legB : MarketLeg D) : ek (runMarket cx c legA legB).
Proof.
  unfold runMarket. apply ek_bind; [wk_tac|]. intros x. apply ek_bind; [wk_tac|]. intros [[qa qb]|e]; [|wk_tac].
  destruct (marketIntent c x legA qa) as [ia|]; [|wk_tac]. destruct (marketIntent c x legB qb) as [ib|]; [|wk_tac].
  apply (es_ek _ (fun _ => True) (fun _ _ => True)); [|done]. eapply es_bind; [apply es_lift, safe_CreateIntents|].
  intros [l|e]; [|apply ek_es; wk_tac]. destruct l as [|a [|b []]]; [apply ek_es; wk_tac..| |apply ek_es; wk_tac].
  pose (R := fun st : Store D => recorded (intentOf (fst a)) st /\ recorded (intentOf (fst b)) st).
  assert (closed R) as HR by (apply closed_and; apply closed_recorded).
  apply (es_pre _ R); [intros st H; inversion_clear H as [|? ? H1 H2]; inversion_clear H2; by split|].
  apply es_skip; [done|wk_tac|]. intros wa. apply es_skip; [done|wk_tac|]. intros wb.
  eapply es_bind; [apply es_lift, safe_submitBoth|]. intros [sa sb]. apply ek_es. wk_tac.
Qed.
#[local] Hint Resolve ek_runMarket : wk.
Lemma ek_simultaneous cx a b : ek (executeSimultaneousMarket cx a b).
Proof. unfold executeSimultaneousMarket. wk_tac. Qed.
#[local] Hint Resolve ek_simultaneous : wk.

(** *** The final flatten *)

Definition jobsRecorded (jobs : list FlattenJob) (st : Store D) : Prop := Forall (fun j => recorded (intentOf (fj_order j)) st) jobs.
Lemma safe_submitFlatten c x job flags : safe (recorded (intentOf (fj_order job))) (submitFlatten c x job flags) (fun _ _ => True).
Proof.
  unfold submitFlatten, submit, submitWithOptions. cbv zeta. destruct (terminalStatus _); [by apply safe_ret|].
  apply (safe_bind _ _ _ (fun _ _ => True)); [|intros [o e]; apply wk_safe; wk_tac]. destruct (_ && _); [apply safe_place_order|apply wk_safe; wk_tac].
Qed.
Lemma wk_observeFlatten cx c x job flags : wk (observeFlatten cx c x job flags).
Proof. unfold observeFlatten. wk_tac. Qed.
Lemma safe_eachSubmit c x jobs flags : safe (jobsRecorded jobs) (eachJob (submitFlatten c x) jobs flags) (fun _ _ => True).
Proof.
  revert flags. induction jobs as [|job jobs IH]; intros flags; cbn [eachJob]; [by apply safe_ret|].
  eapply safe_pre; [intros st H; inversion_clear H as [|? ? H1 H2]; exact (conj H1 H2)|].
  eapply safe_bind; [apply (safe_frame _ _ (fun _ _ => True) (jobsRecorded jobs)); [apply closed_list|apply safe_submitFlatten]|]. intros [job' flags']. cbn.
  eapply safe_pre; [intros st [_ H]; exact H|]. eapply safe_bind; [apply IH|]. intros [rest flags'']. by apply safe_ret.
Qed.
Lemma wk_eachObserve cx c x jobs flags : wk (eachJob (observeFlatten cx c x) jobs flags).
Proof. revert flags. pose proof wk_observeFlatten. induction jobs as [|job jobs IH]; intros flags; cbn [eachJob]; wk_tac. Qed.
Lemma ek_parkFlatten c m : ek (parkFlatten c m).
Proof. unfold parkFlatten. wk_tac. Qed.
#[local] Hint Resolve wk_eachObserve ek_parkFlatten : wk.
Lemma ek_finishFlatten c iA iB u : ek (finishOneShotFinalFlatten c iA iB u).
Proof. unfold finishOneShotFinalFlatten. wk_tac. Qed.
Lemma ek_openFlatten orders : ek (openFlatten orders).
Proof. unfold openFlatten. wk_tac. Qed.
#[local] Hint Resolve ek_finishFlatten ek_openFlatten : wk.

Definition ordersRecorded (orders : list Order) (st : Store D) : Prop := Forall (fun o => recorded (intentOf o) st) orders.
Lemma byLeg_recorded name orders o (st : Store D) : flattenByLeg name orders = Some o -> ordersRecorded orders st -> recorded (intentOf o) st.
Proof.
  unfold flattenByLeg. intros H HF. rewrite last_lookup in H. apply list_elem_of_lookup_2, list_elem_of_filter in H as [_ H].
  exact (proj1 (Forall_forall _ _) HF _ H).
Qed.
Lemma es_runFlatten cx c dA dB orders : esafe (ordersRecorded orders) (runFlatten cx c dA dB orders) (fun _ _ => True).
Proof.
  unfold runFlatten. cbv zeta. assert (closed (ordersRecorded orders)) as HR by apply closed_list.
  apply es_skip; [done|wk_tac|]. intros r. apply es_skip; [done|wk_tac|]. intros sA. apply es_skip; [done|wk_tac|]. intros sB.
  apply es_skip; [done|wk_tac|]. intros x. set (jobs := (match flattenByLeg "a" orders with Some _ => _ | None => _ end ++ _)).
  apply (es_pre _ (jobsRecorded jobs)).
  - intros st H. unfold jobs. apply Forall_app. clear jobs.
    split; (destruct (flattenByLeg _ _) eqn:E; [constructor; [by eapply byLeg_recorded|constructor]|constructor]).
  - eapply es_bind; [apply es_lift, safe_eachSubmit|]. intros [jobs' flags]. apply ek_es. wk_tac.
Qed.
Lemma ek_finalFlatten cx c : ek (executeOneShotFinalFlatten cx c).
Proof.
  unfold executeOneShotFinalFlatten. cbv zeta. apply ek_bind; [wk_tac|]. intros [[dA dB]|e]; [|wk_tac]. apply ek_bind; [wk_tac|]. intros [c1|e]; [|wk_tac].
  apply ek_bind; [wk_tac|]. intros x. apply ek_bind; [wk_tac|]. intros u. apply (es_ek _ (fun _ => True) (fun _ _ => True)); [|done].
  eapply es_bind; [apply es_lift, safe_orders|]. intros [all|e]; [|apply ek_es; wk_tac]. set (existing := base.filter _ _).
  apply (es_pre _ (ordersRecorded existing)).
  { intros st H. apply Forall_forall. intros o Ho. apply list_elem_of_filter in Ho as [_ Ho]. unfold executionOrdersFor in Ho.
    apply list_elem_of_filter in Ho as [_ Ho]. exact (proj1 (Forall_forall _ _) H _ Ho). }
  assert (closed (ordersRecorded existing)) as HR by apply closed_list.
  eapply (es_bind _ _ _ (fun r st => match r with Ok l => ordersRecorded (existing ++ map fst l) st | Err _ => True end)).
  - destruct (flattenIntents _ _ _ _ _); [apply es_eret; intros st H; by rewrite app_nil_r|].
    apply es_lift. eapply safe_weaken; [apply (safe_frame _ _ _ _ HR (safe_CreateIntents _))|by intros st H|]. intros [made|e] st [H1 H2]; [|done].
    apply Forall_app. split; [done|]. by apply Forall_map.
  - intros [created|e]; [|apply ek_es; wk_tac]. destruct (existing ++ map fst created) as [|o l] eqn:El; [apply ek_es; wk_tac|]. rewrite <- El.
    assert (closed (ordersRecorded (existing ++ map fst created))) as HR' by apply closed_list.
    apply es_skip; [done|wk_tac|]. intros [e|]; [apply ek_es; wk_tac|]. apply es_runFlatten.
Qed.
#[local] Hint Resolve ek_finalFlatten : wk.

(** *** The flatten of a residual *)

Lemma wk_maybeDust c e orders iA iB a b : wk (maybeCloseLastCloseResidualDust c e orders iA iB a b).
Proof. unfold maybeCloseLastCloseResidualDust. wk_tac. Qed.
Lemma safe_progress cx c iA iB orders : safe (ordersRecorded orders) (progressOrders cx c iA iB orders) (fun _ _ => True).
Proof.
  induction orders as [|o orders IH]; cbn [progressOrders]; [by apply safe_ret|].
  assert (closed (ordersRecorded orders)) as HR by apply closed_list.
  assert (safe (fun st => True /\ ordersRecorded orders st) (progressOrders cx c iA iB orders) (fun _ _ => True)) as IH'
    by (eapply safe_pre; [|exact IH]; by intros st []).
  eapply safe_pre; [intros st H; inversion_clear H as [|? ? H1 H2]; exact (conj H1 H2)|].
  destruct (terminalStatus _); [eapply safe_pre; [|exact IH]; by intros st []|]. cbv zeta.
  eapply safe_bind; [apply wk_frame; [apply closed_and; [apply closed_recorded|exact HR]|apply wk_dependencies]|].
  intros [d|e]; [|by apply safe_ret].
  eapply safe_bind; [apply (safe_frame _ _ (fun _ _ => True) _ HR)|].
  - unfold submit, submitWithOptions. destruct (_ && _); [apply safe_place_order|apply wk_safe; wk_tac].
  - intros [o' e]. destruct (_ && _); [by apply safe_ret|]. cbn. eapply safe_bind; [apply (safe_frame _ _ (fun _ _ => True) _ HR), wk_observe|].
    intros [o'' e']. destruct (_ || _); [by apply safe_ret|]. exact IH'.
Qed.
Lemma safe_progressResidual cx c x orders iA iB :
  safe (ordersRecorded orders) (progressLastCloseResidualFlattenOrders cx c x orders iA iB) (fun _ _ => True).
Proof.
  unfold progressLastCloseResidualFlattenOrders. eapply safe_bind; [apply safe_progress|]. intros r. apply wk_safe. wk_tac.
Qed.
Lemma wk_reloaded c : wk (reloaded c).
Proof. unfold reloaded. wk_tac. Qed.
#[local] Hint Resolve wk_maybeDust wk_reloaded : wk.
Lemma residual_recorded orders e (st : Store D) : ordersRecorded orders st -> ordersRecorded (lastCloseResidualFlattenOrdersFor orders e) st.
Proof.
  intros H. apply Forall_forall. intros o Ho. unfold lastCloseResidualFlattenOrdersFor, executionOrdersFor in Ho.
  apply list_elem_of_filter in Ho as [_ Ho]. apply list_elem_of_filter in Ho as [_ Ho]. exact (proj1 (Forall_forall _ _) H _ Ho).
Qed.
Lemma safe_residualOrders cx c x orders iA iB a b : safe (ordersRecorded orders) (residualOrders cx c x orders iA iB a b) (fun _ _ => True).
Proof.
  unfold residualOrders. destruct (negb _); [by apply safe_ret|].
  eapply safe_bind; [eapply safe_pre; [|apply safe_progressResidual]; intros st; apply residual_recorded|].
  intros r. apply wk_safe. wk_tac.
Qed.
Lemma wk_listThen {B} o id (k : Result (list Order) -> M D B) :
  (forall e, wk (k (Err e))) -> (forall orders, safe (ordersRecorded orders) (k (Ok orders)) (fun _ _ => True)) -> wk (bind (ListArbitrageOrders o id) k).
Proof. intros He Hk. apply (safe_bind _ _ _ listed); [apply safe_orders|]. intros [l|e]; [apply Hk|by apply wk_safe]. Qed.
Lemma safe_claimResidual cx c orders iA iB a b : wk (claimResidual cx c orders iA iB a b).
Proof.
  unfold claimResidual. apply wk_bind; [wk_tac|]. intros t. destruct (negb _); [wk_tac|]. destruct (negb _); [wk_tac|].
  apply wk_bind; [wk_tac|]. intros [xs|e]; [|wk_tac]. destruct (residualFlattenBlockedByOtherWork _ _ _); [wk_tac|].
  destruct (lastCloseResidualFlattenOrders _ _ _); [wk_tac|]. apply wk_bind; [wk_tac|]. intros [[x won]|e]; [|wk_tac]. destruct (_ =?s _); [wk_tac|].
  apply wk_bind; [wk_tac|]. intros c1. apply wk_listThen; [intros e; wk_tac|]. intros listedOrders. apply safe_residualOrders.
Qed.
Lemma wk_runResidual cx c a b : wk (runLastCloseResidualFlatten cx c a b).
Proof.
  unfold runLastCloseResidualFlatten. destruct (_ || _); [wk_tac|]. apply wk_bind; [wk_tac|]. intros [iA|e]; [|wk_tac].
  apply wk_bind; [wk_tac|]. intros [iB|e]; [|wk_tac]. apply wk_bind; [wk_tac|]. intros [found|e]; [|wk_tac].
  apply wk_listThen; [intros e; wk_tac|]. intros l. destruct found as [x|]; [apply safe_residualOrders|apply wk_safe, safe_claimResidual].
Qed.
#[local] Hint Resolve wk_runResidual : wk.
Lemma wk_residual cx c a b : wk (executorResidualFlatten cx c a b).
Proof. unfold executorResidualFlatten. wk_tac. Qed.

(** *** Execute *)

Lemma ek_clearFailure c : ek (clearUnchangedArbitrageFailure c).
Proof. unfold clearUnchangedArbitrageFailure. wk_tac. Qed.
Lemma ek_dispatch cx c a b : ek (dispatchExecution cx c a b).
Proof. unfold dispatchExecution. wk_tac. Qed.
Lemma ek_keepExposed c x e b : ek (keepExposed c x e b).
Proof. unfold keepExposed. wk_tac. Qed.
#[local] Hint Resolve ek_clearFailure ek_dispatch ek_keepExposed : wk.
Lemma ek_failExecution c e : ek (failExecution c e).
Proof. unfold failExecution. wk_tac. Qed.
#[local] Hint Resolve ek_failExecution : wk.
Lemma ek_runExecution cx c a b : ek (runExecution cx c a b).
Proof. unfold runExecution. wk_tac. Qed.
Lemma wk_Execute cx c x a b : wk (Execute cx c x a b).
Proof. unfold Execute. apply wk_bind; [apply ek_runExecution|]. intros r. wk_tac. Qed.

(** *** Closing *)

Lemma wk_callResolver d o : wk (callResolver d o).
Proof. unfold callResolver. wk_tac. Qed.
#[local] Hint Resolve wk_callResolver : wk.
Lemma wk_resolveMissing d o : wk (resolveMissingCloseOrder d o).
Proof. unfold resolveMissingCloseOrder. wk_tac. Qed.
#[local] Hint Resolve wk_resolveMissing : wk.
Lemma wk_queryUnknown d o : wk (queryUnknown d o).
Proof. unfold queryUnknown. wk_tac. Qed.
Lemma wk_confirmClosed d o c e : wk (confirmClosed d o c e).
Proof. unfold confirmClosed. wk_tac. Qed.
#[local] Hint Resolve wk_queryUnknown wk_confirmClosed : wk.
Lemma wk_closeOrder d o : wk (closeArbitrageOrder d o).
Proof. unfold closeArbitrageOrder. wk_tac. Qed.
#[local] Hint Resolve wk_closeOrder : wk.
Lemma wk_closeOrders dA dB orders unresolved absent : wk (closeOrders dA dB orders unresolved absent).
Proof. revert unresolved absent. induction orders as [|o orders IH]; intros unresolved absent; cbn [closeOrders]; wk_tac. Qed.
Lemma wk_writeOff orders : wk (writeOff orders).
Proof. induction orders as [|o orders IH]; cbn [writeOff]; wk_tac. Qed.
Lemma wk_finalizeExecutions xs : wk (finalizeExecutions xs).
Proof. induction xs as [|x xs IH]; cbn [finalizeExecutions]; wk_tac. Qed.
Lemma wk_closeDecision c : wk (closeFlattenOwnedDecision c).
Proof. unfold closeFlattenOwnedDecision. wk_tac. Qed.
Lemma wk_markClosed c : wk (markClosed c).
Proof. unfold markClosed. wk_tac. Qed.
#[local] Hint Resolve wk_closeOrders wk_writeOff wk_finalizeExecutions wk_closeDecision wk_markClosed : wk.
Lemma wk_finishClose c unresolved : wk (finishClose c unresolved).
Proof. unfold finishClose. wk_tac. Qed.
#[local] Hint Resolve wk_finishClose : wk.
Lemma wk_CloseCombination c : wk (CloseCombination c).
Proof. unfold CloseCombination. wk_tac. Qed.

(** *** Recovering without market data *)

Lemma wk_recoverMaker d o : wk (recoverMakerOrder d o).
Proof. unfold recoverMakerOrder. wk_tac. Qed.
#[local] Hint Resolve wk_recoverMaker : wk.
Lemma wk_recoverOrder cx c x dA dB id : wk (recoverOrder cx c x dA dB id).
Proof. unfold recoverOrder. wk_tac. Qed.
Lemma wk_finalizeAbsent c x : wk (finalizeAbsent c x).
Proof. unfold finalizeAbsent. wk_tac. Qed.
Lemma ek_leave c : ek (leaveReconciling c).
Proof. unfold leaveReconciling. wk_tac. Qed.
#[local] Hint Resolve wk_recoverOrder wk_finalizeAbsent ek_leave : wk.
Lemma ek_recoverOrders cx c : ek (recoverOrders cx c).
Proof. unfold recoverOrders. wk_tac. Qed.
#[local] Hint Resolve ek_recoverOrders : wk.
Lemma ek_recoverRun cx c : ek (recoverRun cx c).
Proof. unfold recoverRun. wk_tac. Qed.
Lemma wk_recoverExecution cx c x : wk (executorRecover cx c x).
Proof. unfold executorRecover. apply wk_bind; [apply ek_recoverRun|]. intros [e s]. wk_tac. Qed.

(** *** An open circuit (ExecCircuit.v) *)

Lemma wk_confirmOrder d o : wk (confirmCircuitOpenOrder d o).
Proof. unfold confirmCircuitOpenOrder. wk_tac. Qed.
#[local] Hint Resolve wk_confirmOrder : wk.
Lemma wk_confirmOrders e dA dB orders b : wk (confirmOrders e dA dB orders b).
Proof. revert b. induction orders as [|o orders IH]; intros b; cbn [confirmOrders]; wk_tac. Qed.
Lemma wk_replacement c x o (carry : D) dA dB : wk (replacementHedge c x o carry dA dB).
Proof. unfold replacementHedge. wk_tac. Qed.
Lemma wk_sendReplacement cx c x hv side q p : wk (sendReplacement cx c x hv side q p).
Proof.
  unfold sendReplacement. apply wk_bind; [wk_tac|]. intros u. apply wk_bind; [wk_tac|]. intros n. cbv zeta. apply wk_bind; [wk_tac|]. intros v.
  eapply safe_bind; [apply safe_PrepareHedge|]. intros [prepared|e]; [|apply wk_safe; wk_tac].
  destruct (negb _); [by apply safe_ret|]. eapply safe_bind; [apply safe_place_order|]. intros [submitted err]. apply wk_safe.
  destruct (_ || _); [wk_tac|]. apply wk_bind; [apply ek_complete|]. intros [r s]. wk_tac.
Qed.
#[local] Hint Resolve wk_confirmOrders wk_replacement wk_sendReplacement : wk.
Lemma wk_replaceHedge cx c x orders (carry : D) dA dB : wk (replaceCircuitHedge cx c x orders carry dA dB).
Proof. unfold replaceCircuitHedge. wk_tac. Qed.
Lemma wk_closeExplained c x orders started accounts (a b sa sb : D) : wk (closeExplained c x orders started accounts a b sa sb).
Proof. unfold closeExplained. wk_tac. Qed.
#[local] Hint Resolve wk_replaceHedge wk_closeExplained : wk.
Lemma wk_settleCircuit cx c x orders started dA dB (accounts : CircuitAccounts D) : wk (settleCircuit cx c x orders started dA dB accounts).
Proof. unfold settleCircuit. wk_tac. Qed.
#[local] Hint Resolve wk_settleCircuit : wk.
Lemma wk_recoverActive cx c x orders started : wk (recoverActiveCircuitExecution cx c x orders started).
Proof. unfold recoverActiveCircuitExecution. wk_tac. Qed.
Lemma wk_recoveryBBO c : wk (circuitRecoveryBBO c).
Proof. unfold circuitRecoveryBBO. wk_tac. Qed.
#[local] Hint Resolve wk_recoverActive wk_recoveryBBO : wk.
Lemma wk_signalOpen c x : wk (circuitQuoteSignalOpen c x).
Proof. unfold circuitQuoteSignalOpen. wk_tac. Qed.
Lemma wk_quoteExecution c x a b : wk (circuitRecoveryQuoteExecution c x a b).
Proof. unfold circuitRecoveryQuoteExecution. wk_tac. Qed.
Lemma wk_legCredentials c : wk (circuitLegCredentials c).
Proof. unfold circuitLegCredentials. wk_tac. Qed.
#[local] Hint Resolve wk_signalOpen wk_quoteExecution wk_legCredentials : wk.
Lemma wk_quotePositions c dA dB : wk (quotePositions c dA dB).
Proof. unfold quotePositions. wk_tac. Qed.
Lemma wk_retryQuote cx c failed x a b : wk (retryQuote cx c failed x a b).
Proof.
  unfold retryQuote. apply wk_bind; [wk_tac|]. intros u. apply wk_bind; [wk_tac|]. intros [[claimed []]|e]; [|wk_tac|wk_tac].
  apply wk_bind; [wk_tac|]. intros refreshed. cbv zeta. apply wk_bind; [wk_tac|]. intros v. apply wk_bind; [apply ek_makerThenHedge|]. intros [err s]. wk_tac.
Qed.
#[local] Hint Resolve wk_quotePositions wk_retryQuote : wk.
Lemma wk_recoverQuote cx c failed orders : wk (recoverFailedCircuitQuote cx c failed orders).
Proof. unfold recoverFailedCircuitQuote. wk_tac. Qed.
Lemma wk_circuitExecution id : wk (circuitRecoveryExecution id).
Proof. unfold circuitRecoveryExecution. wk_tac. Qed.
Lemma wk_failedExecution c x : wk (failedExecution c x).
Proof. unfold failedExecution. wk_tac. Qed.
#[local] Hint Resolve wk_recoverQuote wk_circuitExecution wk_failedExecution : wk.
Lemma wk_recoverCircuit cx c : wk (recoverCircuitOpen cx c).
Proof. unfold recoverCircuitOpen. wk_tac. Qed.

Lemma wk_runJob j : wk (runJob j).
Proof.
  destruct j; cbn [runJob]; try apply wk_Execute; (apply wk_bind; [|intros ?; apply wk_ret]);
    [apply wk_recoverExecution|apply wk_recoverCircuit|apply wk_residual].
Qed.
End Runs.

(** ** Theorems *)

Section RunTheorems.
Context {D : Type} `{!Decimal D} `{!DecimalLaws D} `{!Postgres D} `{!Env D} `{svc : !Services} `{str : !OrderStreams} `{uu : !Uuids}
  `{ecfg : !ExecutorConfig} `{esur : !ExecutorSurroundings} `{cfg : !SchedulerConfig} `{sur : !Surroundings D} `{rely_rows : !OrdersKept D}.

(** What the computation [m] has sent from [w] on. *)
Definition sentBy {A} (m : M D A) (w : World D) (sent : list (Z * OrderRequest)) : Prop := placed (snd (m w)) = placed w ++ sent.

Lemma wk_sent {A} (m : M D A) (w : World D) : wk m ->
  exists sent, sentBy m w sent /\ Forall (fun p => recorded (requestIntent (snd p)) (w_store (snd (m w)))) sent.
Proof.
  intros Hm. destruct (Hm (fun _ => True) (placed w) w closed_true) as [[_ (new & E & HF)] _]; [|done|by exists new].
  split; [done|]. exists []. by rewrite app_nil_r.
Qed.

(** C7: no order is sent that is not written down.  Whatever goroutine of the
    executor runs, and when a combination is closed, whatever the venues, the
    streams and the market data answer and whichever statement of the database
    fails, each order it has sent to a venue is a row of the table of orders
    under its client order id, with the side, type, quantity, price and
    reduce-only flag that were sent, so that the reconciler finds it again.
    The database may fail from any moment on: the row was written before the
    order was sent. *)
Theorem orders_written_ahead (j : Job) (c : ArbitrageCombination) (w : World D) :
  (exists sent, sentBy (runJob j) w sent /\
     Forall (fun p => recorded (requestIntent (snd p)) (w_store (snd (runJob j w)))) sent) /\
  (exists sent, sentBy (CloseCombination c) w sent /\
     Forall (fun p => recorded (requestIntent (snd p)) (w_store (snd (CloseCombination c w)))) sent).
Proof. split; [apply wk_sent, wk_runJob|apply wk_sent, wk_CloseCombination]. Qed.

(** The world after a loop of the scheduler that calls this executor. *)
Definition loopWorld (events : list LoopEvent) (rt : Runtime) (w : World D) : World D := snd (runCombination (rn := executorRunner) events rt w).

Lemma scheduled_closed st0 : (forall n st, scheduledFrom st0 st -> scheduledFrom st0 (interfere n st)) -> closed (scheduledFrom (D := D) st0).
Proof. intros Hi. split; [done|]. intros st st' (Hc & Hp & _). by apply scheduled_moves. Qed.

(** C14: the loop and its executor together.  A loop of the scheduler that calls
    this executor, and every goroutine it starts, keep what the other
    processes keep: no combination gets a second active execution and the exit
    of a one-shot is never undone, whatever events the loop receives, whatever
    the venues answer and whichever statement fails.  A goroutine is thus one
    of the processes a loop may run among. *)
Theorem scheduler_with_executor_safe (st0 : Store D) (events : list LoopEvent) (item : ArbitrageCombination) (generation : Z) (t : GoTime)
    (v : gmap string ArbitrageValuation) (j : Job) (w : World D) :
  (forall n st, scheduledFrom st0 st -> scheduledFrom st0 (interfere n st)) -> scheduledFrom st0 (w_store w) ->
  scheduledFrom st0 (w_store (loopWorld events (newRuntime item generation t v) w)) /\
  scheduledFrom st0 (w_store (snd (runJob j w))).
Proof.
  intros Hi H0. pose proof (scheduled_closed st0 Hi) as Hc. split.
  - pose proof (rk_run (rn := executorRunner) (scheduledFrom st0) Hi (scheduled_tx st0)
      (fun c => safe_keeps _ _ Hc (wk_CloseCombination c)) (fun c a b => safe_keeps _ _ Hc (wk_residual callerContext c a b))
      events item (newRuntime item generation t v) w) as H.
    apply H. split; [|done]. split; [apply newRuntime_resting|done].
  - by apply (safe_keeps _ (runJob j) Hc (wk_runJob j)).
Qed.
End RunTheorems.

(** ** A concrete run *)

Section RunWitnesses.
#[local] Existing Instance stillEnv.
#[local] Existing Instance simpleServices.
#[local] Existing Instance readyStreams.
#[local] Existing Instance plainExecutor.
#[local] Existing Instance plainUuids.
#[local] Existing Instance plainConfig.
#[local] Existing Instance plainSurroundings.

(** Quotes for both legs. *)
Definition quotedSurroundings : ExecutorSurroundings := {|
  contextEnds _ := None; selectEvents _ := []; permitAcquire _ := None;
  marketLatest _ leg := Ok (if l_Exchange leg =?s "venueA" then quoteA else quoteB);
  spotSnapshot _ _ _ := Ok []; transportWarm _ _ _ _ := None; streamGeneration _ _ := 0;
  portfolioSnapshot _ _ _ := Err errVenueUncertain; legBFirst _ := false; runsDrain _ := None
|}.
#[local] Existing Instance quotedSurroundings.
#[export] Instance stillKept : OrdersKept Dec.
Proof. intros n st. by apply rowsKept_same. Qed.

Definition pairItem : ArbitrageCombination :=
  quietItem <| c_ExecutionMode := "maker_then_hedge"%string |>
    <| c_LegA := zero_ArbitrageLeg <| l_Exchange := "venueA"%string |> <| l_InstrumentID := 1 |> |>
    <| c_LegB := zero_ArbitrageLeg <| l_Exchange := "venueB"%string |> <| l_InstrumentID := 2 |> |>.
Definition makerJob : Job := ExecuteClaimed pairItem openingClaim quoteA quoteB.
Definition pairWorld : World Dec := mkWorld (snd (claimTransaction openingClaim 0 (arbStore pairItem))) 0 [].

(** The run sends its maker order. *)
Example makerJob_sends : map (fun p => (rq_Side (snd p), rq_Quantity (snd p), rq_Price (snd p))) (placed (snd (runJob makerJob pairWorld))) = [("buy", "2", "100")]%string.
Proof. vm_compute. reflexivity. Qed.

Lemma orders_written_ahead_witness :
  exists p sent, sentBy (runJob makerJob) pairWorld (p :: sent) /\ recorded (requestIntent (snd p)) (w_store (snd (runJob makerJob pairWorld))).
Proof.
  pose proof (orders_written_ahead makerJob pairItem pairWorld) as [(sent & Hs & HF) _].
  destruct sent as [|p sent].
  - exfalso. pose proof makerJob_sends as E. unfold sentBy in Hs. rewrite Hs in E. discriminate E.
  - exists p, sent. split; [exact Hs|]. inversion HF as [|? ? H _]. exact H.
Defined.

Lemma scheduler_with_executor_safe_witness :
  scheduledFrom (w_store pairWorld) (w_store (loopWorld quoteEvents (newRuntime pairItem 1 0 ∅) pairWorld)) /\
  scheduledFrom (w_store pairWorld) (w_store (snd (runJob makerJob pairWorld))).
Proof.
  pose proof (scheduler_with_executor_safe (w_store pairWorld) quoteEvents pairItem 1 0 ∅ makerJob pairWorld) as H. apply H.
  - intros n st Hs. exact Hs.
  - split.
    + exact (executionChange_sound _ _ (arbStep_change _ _ (astep_claim openingClaim 0 (arbStore pairItem) _ _ (surjective_pairing _))) (arbStore_sound pairItem)).
    + intros id r Hr. exists r. split; [exact Hr|]. split; [tauto|]. intros E. left. exact E.
Defined.
End RunWitnesses.
